(* ===== verification/_CoqProject ===== *)
-Q . S2P
Prelude.v
GoStrings.v
GoPath.v
GoRunes.v
GoFormat.v
GoTime.v
MonoTime.v
Sha256.v
Paths.v
Users.v
UserQuotaHistory.v
SmbAuthorize.v
AccessRules.v
VersioningPolicy.v
PathLock.v
Share.v
ShareStore.v
ShareTrash.v
ShareInvariant.v
ShareProps.v
ShareTrashProps.v
Quota.v
StagingBudget.v
DeleteTree.v
DeleteTreeSpec.v
DeleteTreeToken.v
DeleteTreeProps.v
PropfindCache.v
FileMonad.v
UserFields.v
AuthFiles.v
UsersFile.v
UserStore.v
UserSpec.v
UserAtomic.v
UserStart.v
UserInstances.v
UserProps.v
TokenTypes.v
Tokens.v
TokenOps.v
TokenSpec.v
TokenAtomic.v
TokenStart.v
TokenSystem.v
TokenTime.v
TokenIssue.v
TokenInstances.v
TokenProps.v
LoginThrottle.v
LoginThrottleSpec.v
LoginChecks.v
LoginThrottleProps.v
GoNet.v
RequestIP.v
RequestIPProps.v
AuthMiddleware.v
AuthHandlers.v
AuthAdmin.v
AuthSpec.v
AuthProps.v
UploadTypes.v
UploadStaging.v
UploadFiles.v
UploadNames.v
UploadInvariant.v
UploadRecovery.v
UploadLoad.v
UploadStore.v
UploadAppend.v
UploadSpec.v
UploadAtomic.v
UploadRoot.v
UploadCreate.v
UploadCodec.v
UploadValid.v
UploadRuns.v
UploadReplies.v
UploadGate.v
UploadProps.v
