(* ===== verification/Prelude.v ===== *)
(** * MnemoNAS control plane: verification library

    This library models parts of the control plane of MnemoNAS, the Go program under [src/cmd/nasd]
    and [src/internal], and proves what makes them correct.  The control plane serves a user's files
    over WebDAV, SMB and an HTTP API; requests are authorized, admitted against quotas, staged, written
    and versioned, and deletions go through a Trash whose participants must be able to roll back.

    ** Files, and the code they model

    - [Prelude]: the result type with its [let!] notation, machine integers, tactics, sums over maps,
      heaps of objects, reachability.  [GoStrings], [GoPath]: the functions of Go's [strings],
      [unicode], [utf8], [path] and [filepath] packages that the code calls, and the view of a canonical
      path as a list of segments.  [Sha256]: SHA-256, executable.
    - [Paths]: the path cleaners and containment tests of [workspace], [storage], [api] and [smbgateway].
    - [Users], [SmbAuthorize] (internal/smbgateway/authorize.go), [AccessRules]
      (internal/api/access_rules.go): who may read and write which path.
    - [UserQuotaHistory] (internal/auth/user_quota_history.go): the history of quota use that administrators
      see, with its retention; [GoTime]: the civil calendar of Go's [time] package.
    - [VersioningPolicy] (internal/versionstore/policy.go): which files are versioned.
    - [PathLock] and [PropfindCache] (internal/webdav/pathlock.go, cache.go): the locks that serialise
      WebDAV operations on a path, and the cache of directory listings.
    - [Share], [ShareStore], [ShareTrash] (internal/share/share.go, trash_delete_operations.go,
      trash_restore_operations.go): public shares, their durable store, and their part in moves to the
      Trash.  [ShareInvariant], [ShareProps], [ShareTrashProps]: their invariants and properties.
    - [Quota] (internal/quota/reservation.go): reservations of quota by writes in flight.
    - [StagingBudget] (internal/storage/write_staging_budget.go): the bytes that staged writes may use.
    - [DeleteTree] (internal/storage/delete_tree_merkle.go, delete_tree_merkle_stream.go): the token a
      client must present to delete a directory.  [DeleteTreeSpec], [DeleteTreeToken],
      [DeleteTreeProps]: the trees behind it and its properties.
    - [FileMonad]: programs over a directory whose operations fail and which a crash may stop.
    - The account store (internal/auth/user.go): [GoRunes] (runes and trimming), [UserFields] (the fields),
      [AuthFiles] (the durable write, and rules for the files of [auth] under any failures and crashes),
      [UsersFile] (users.json: encoding, decoding, loading), [UserStore] (state and operations), [UserSpec]
      (what each operation promises, and the invariants), [UserAtomic] and [UserStart] (the operations and
      the start refine it), [UserInstances] (an instance of the codec and of bcrypt), [UserProps].
    - Login sessions (internal/auth/token.go): [MonoTime] (Go's instants with readings of the monotonic clock),
      [TokenTypes] (records, claims, file), [Tokens] (state, clock, persistence), [TokenOps] (issuing, validating,
      rotating, revoking), [TokenSpec] (what each call promises), [TokenAtomic] and [TokenStart] (the calls and
      the start refine it), [TokenSystem] (a server over its lifetime), [TokenTime], [TokenIssue],
      [TokenInstances] (instances of the codec and the signature), [TokenProps].
    - Login throttle (internal/auth/handler.go, [loginAttemptTracker]): [LoginThrottle] (failures, locks, windows of
      password checks), [LoginThrottleSpec] and [LoginChecks] (its tables and what each call does to them),
      [LoginThrottleProps].
    - The addresses of requests (internal/requestip/requestip.go): [RequestIP], over [GoNet] (texts of IP addresses and
      networks, as Go's [net] reads and writes them, and what a handler looks at of a request, [GoNet.GoHttp]);
      [RequestIPProps].
    - Authentication of requests (internal/auth/middleware.go, handler.go): [AuthMiddleware] (the tokens of a request,
      and who may pass), [AuthHandlers] (login, refresh, logout, the own password) and [AuthAdmin] (the administrators'
      handlers), programs over one directory that compose [UserStore], [TokenOps], [LoginThrottle] and [RequestIP];
      [UserAtomic.Returns] (what a program returns, whatever its files do), [AuthSpec] (what validations and revocations do),
      [AuthProps].
    - [FileMonad]: programs of file operations that may fail or be cut short by a crash, and their
      triples.  [GoFormat]: the number formats and parsers of Go that file names and identifiers use.
    - Upload sessions (internal/uploadsession/store.go, types.go).  [UploadTypes]: records, states,
      options, validation, file names.  [UploadStaging]: the accounting of staged bytes.
      [UploadFiles]: state files (encoding, publication, compaction) and the whole of [loadSession] with
      its recovery.  [UploadStore]: the operations on a session ([get], [OpenPayload], [AppendChunk],
      [BeginCommit] to [Cancel]).  [UploadRoot]: [Create], [CleanupExpired], [ListCommitting], the recovery
      of all sessions by [Open].  [UploadGate]: the admission of operations and [Close].
      Their proofs: [UploadNames] (file names), [UploadInvariant] (what a directory holds, also after a
      crash), [UploadRecovery] and [UploadLoad] (publication and loading keep it), [UploadAppend],
      [UploadSpec] (the abstract sessions and their atomic steps), [UploadAtomic] (every operation is some
      of these steps), [UploadCreate], [UploadValid], [UploadRuns] (sequences of operations with restarts),
      [UploadReplies]; [UploadCodec] is a codec that shows that the laws of [StateCodec] can hold, and
      [UploadProps] states the properties and runs examples.

    ** How the components interact

    Every path a request names is cleaned ([Paths]) and then authorized ([AccessRules] for HTTP and
    WebDAV, [SmbAuthorize] for SMB); the authorizers work on canonical paths, which [GoPath] turns into
    segment lists, and so do the share store's relocations.  A write is admitted by [Quota] from claims
    that the API derives from users and access rules, then staged within [StagingBudget].  A deletion
    checks its token ([DeleteTree]), captures an authorizer ([AccessRules]), and moves the shares below
    the path to the Trash ([ShareTrash]); a rename calls [UpdatePathReferences] of [ShareStore] and
    invalidates [PropfindCache].  The handlers of [auth] have one state with the account store, the token
    manager and the throttle, whose two files lie in one directory: a login asks the throttle, under the address that
    [RequestIP] finds, then the account store, then the token manager; a change of credentials raises the credential
    version in the account store, by which [RequireAuth] refuses tokens even if the sessions could not be revoked.
    The other components share no state in the code and none here: each is a state of its own, and what one asks of
    another is an argument.  Within the upload store, [UploadStore]
    runs on [UploadFiles] and [UploadStaging], [UploadRoot] runs it in the directories of the root, and the
    gate ([UploadGate]) guarantees that no operation runs on a store that is closed.  [UserStore] and the
    upload store are programs of the same monad; the account store keeps users.json with [AuthFiles] and
    gives [AccessRules], [SmbAuthorize] and [UserQuotaHistory] the records of [Users].  The token manager
    ([Tokens], [TokenOps]) runs on [AuthFiles] too, and signs the name, role and credential version of a record
    of [Users].

    ** Conventions

    Go integers are [Z] with the wrap-around of [int64], [uint64] and [int32] written out where the code
    computes.  Strings are strings of bytes.  A fallible function returns [result]; error texts are
    dropped, error identities (errors.Is) are constructors.  Pointers that are shared are addresses in a
    heap ([Quota], [StagingBudget]).  Critical sections are the steps of a transition system, and
    invariants are proved over [reachable] states; where goroutines interleave inside an operation
    ([PathLock], [Quota]) the operation is split at its lock operations.  Go maps are [gmap]s; a loop
    over one runs in the order of [map_to_list], and no result depends on it except the order of lists
    that the code sorts afterwards.  The clock, random values, callbacks, bcrypt and the outcomes of file
    writes are arguments.  The case tables of package [unicode] are the class [Unicode], and every result
    holds for every instance.

    ** What the theorems show

    Deletion tokens: the streaming construction accepts exactly the depth-first walks of trees, agrees
    with the batch construction for every order of the entries, and its token identifies the walk unless
    two of the messages hashed for it have the same digest.  Quotas and staging: in every reachable state the
    counters are the sums of the live reservations (the staging budget's on top of the bytes found at the start
    and retained since), an admitted batch fits, releases restore, the budget writer never passes its bound.
    Shares: the index, the revisions and the durable file agree with the memory in every reachable state;
    moves and deletions of directories affect exactly the shares below them; access limits hold;
    reservations, moves to the Trash and their rollbacks round-trip; explicit changes survive rollbacks;
    replays are idempotent.  Quota history: what is kept is exactly what the retention promises, keeping is
    idempotent, a recorded history is read back; the sums of a point may overflow (a finding).
    Accounts: whatever fails or crashes, the users file is the old or the new state and the memory is the
    file; an administrator is always enabled; names are unique, a restart gives the accounts back; every new
    password raises the credential version, by which tokens are refused; initial passwords do not outlive a
    change.  Two defects: a home directory that ends in a space is stored in a form that the next start
    refuses, and a disabled administrator cannot be deleted beside a single enabled one.
    Login sessions: whatever fails or crashes, the file is the memory; along every history of processes the
    sessions only age, so that a refresh token is exchanged at most once and a revocation is for good; tokens
    are accepted exactly as long as their session lives; sessions are bounded and survive a restart; the time
    of the server never goes back if the wall clock is not set while it runs.  A defect: if it is set, that
    is not noticed, unless the two readings of a call are closer together than those before or the time is a
    floor that lay ahead at the start.
    Login throttle: its tables are exact and bounded under any calls, a lock holds until it is over whatever other
    names and clients do, failures add up to a lock, password checks are rationed.  Names of one client that
    fail again only after 64 others are never locked, against the documentation (a finding).
    Requests: who passes the middleware; a success of a change of credentials ends every token of the old ones, whatever failed beneath
    it, in all later stores (for a disabled account, until it is enabled again); a refresh token that is used twice ends its session; a login needs the password and the throttle; the address
    that a client is counted under is not its choice, except that only the first line of a header is read (a finding).
    Authorization: the most specific rule decides, evaluations shown to administrators equal what is
    enforced, writes are confined, SMB paths stay in their share and home.
    WebDAV: locks exclude under any interleaving, the cache is bounded and never serves what an
    invalidation covered, except for the two defects recorded as findings ('?' and '#' in names escape
    the access rules, '|' in names escapes the invalidation).
    Uploads: with failing file operations and crashes at any point, what the store acknowledges is a chain of
    atomic steps of the abstract session and survives; recovery always returns the durable session or the one
    successor whose record was on the disk; appends are all or nothing and may be repeated; readers get the bytes that were appended; the staging counters are exact;
    creation leaves everything else alone; [Close] waits for exactly the operations and readers that were
    admitted, and ends.  One defect is recorded as a finding: recovery publishes a pending state
    that it did not sync ([killed_append_loses_session]).

    ** Fuel and bounds

    [digest] recurses with the length of the longest path as fuel, which bounds the depth of the tree
    ([DeleteTreeToken]); [closeUntil] and [closeAll] use the number of open frames, one of which is
    closed per turn; [transact] makes one attempt, which always commits because mutations hold
    [writeMu] ([transact_once]); the operations of [UserStore] make two, of which the second is never needed
    ([UserAtomic]); the search for the name of a new administrator has one try more than there are
    accounts ([bootstrap_name_found]); [uniqueSessionID] makes the 32 tries of the code.  The loop of [Create] over
    new identifiers makes 32 attempts, as in the code; [loadChain] recurses over the number of state files.

    ** The file system of the upload store

    A directory is a map from names to files; a file knows its bytes and how many of them are synced.  An
    operation takes effect at once and a crash keeps, of every file, at least the synced bytes and then a
    prefix of the others; changes of a directory are kept in the order they were made.  A script says where
    a run fails or crashes, so a theorem about all scripts covers a crash before every operation.  The
    theorems about operations allow one failing operation per operation of the store and a crash; a process
    that is killed while the machine runs on ([Kill]) is outside of them, and the finding shows why.
    The codec of the records is the class [StateCodec], whose laws are those of encoding/json that the code
    relies on (decoding what was encoded; no proper prefix of an encoding decodes); BLAKE3 is any function.

    ** Not modelled

    The root directory of the upload store, its lock file and the contexts of its operations; the registry
    of the directories of auth files; file system calls below the modelled operations, JSON and TOML syntax,
    HTTP and XML handling, gRPC and the data plane, SQL, image and mail libraries, and the web client: I/O,
    generated code or other languages.  Not yet modelled, in the order planned: download tickets, the write transaction journal and its
    recovery, the loading of the share file, favorites.  Of the handlers of [auth], the listing of users is not
    modelled, bodies are given as they were decoded, and messages of answers are dropped.  PROJECT.json lists every part with its status. *)

From stdpp Require Export base tactics gmap strings list fin_maps.
From Stdlib Require Export ZArith Lia.

#[export] Set Default Goal Selector "!".
#[global] Open Scope Z_scope.

(** ** Results: Go's [(value, error)] pairs *)

Inductive result (E A : Type) : Type :=
| Ok (a : A)
| Err (e : E).
Arguments Ok {E A} _.
Arguments Err {E A} _.

Declare Scope go_scope.
Delimit Scope go_scope with go.
#[global] Open Scope go_scope.

(** [let! x := e in k] is Go's [x, err := e; if err != nil { return err }; k]. *)
Notation "'let!' x ':=' e 'in' k" :=
  (match e with Ok x => k | Err err => Err err end)
  (at level 10, x pattern, e at level 100, k at level 200) : go_scope.

(** [check! b or err in k] is an early return: if [b] does not hold, return [err]. *)
Notation "'check!' b 'or' err 'in' k" :=
  (if b then k else Err err)
  (at level 10, b at level 100, err at level 100, k at level 200) : go_scope.

Definition is_ok {E A} (r : result E A) : bool :=
  match r with Ok _ => true | Err _ => false end.

#[export] Instance result_eq_dec {E A} `{EqDecision E, EqDecision A} : EqDecision (result E A).
Proof. solve_decision. Defined.

(** A loop over a slice whose body may return an error. *)
Fixpoint foldM {E S A} (f : S -> A -> result E S) (l : list A) (acc : S) : result E S :=
  match l with
  | [] => Ok acc
  | x :: l' => match f acc x with Ok acc' => foldM f l' acc' | Err e => Err e end
  end.

(** A property of the accumulator and the part of the list already seen. *)
Lemma foldM_ind {E S A} (f : S -> A -> result E S) (P : list A -> S -> Prop) l acc acc' :
  P [] acc ->
  (forall done x rest s s', l = done ++ x :: rest -> P done s -> f s x = Ok s' -> P (done ++ [x]) s') ->
  foldM f l acc = Ok acc' -> P l acc'.
Proof.
  intros H0 Hs. assert (forall done rest s, l = done ++ rest -> P done s -> foldM f rest s = Ok acc' -> P l acc') as Hg.
  { intros done rest. revert done. induction rest as [|x rest IH]; intros done s Hl Hp H; simpl in H.
    - rewrite app_nil_r in Hl. subst. congruence.
    - destruct (f s x) as [s'|] eqn:Hf; [|done]. apply (IH (done ++ [x]) s'); [by rewrite <-app_assoc| |done].
      by apply (Hs done x rest s s'). }
  intros H. by apply (Hg [] l acc).
Qed.

(** ** Machine integers *)

Definition two64 : Z := 18446744073709551616.
Definition maxInt64 : Z := 9223372036854775807.
Definition minInt64 : Z := -9223372036854775808.
Definition maxUint64 : Z := 18446744073709551615.

(** The value of an [int64] (resp. [uint64]) expression whose exact result is [z]. *)
Definition int64 (z : Z) : Z := (z + 9223372036854775808) mod two64 - 9223372036854775808.
Definition uint64 (z : Z) : Z := z mod two64.

(** ... and of an [int32] expression. *)
Definition maxInt32 : Z := 2147483647.
Definition int32 (z : Z) : Z := (z + 2147483648) mod 4294967296 - 2147483648.

Definition in_int64 (z : Z) : Prop := minInt64 <= z <= maxInt64.
Definition in_uint64 (z : Z) : Prop := 0 <= z <= maxUint64.

Ltac int_unfold :=
  unfold in_int64, in_uint64, int64, uint64, two64, maxInt64, minInt64, maxUint64 in *.

Lemma int64_id z : in_int64 z -> int64 z = z.
Proof. int_unfold. intros. rewrite Z.mod_small; lia. Qed.

Lemma int32_id z : - maxInt32 <= z <= maxInt32 -> int32 z = z.
Proof. unfold int32, maxInt32. intros. rewrite Z.mod_small; lia. Qed.

Lemma uint64_id z : in_uint64 z -> uint64 z = z.
Proof. int_unfold. intros. rewrite Z.mod_small; lia. Qed.

Lemma int64_range z : in_int64 (int64 z).
Proof. int_unfold. pose proof (Z.mod_pos_bound (z + 9223372036854775808) 18446744073709551616). lia. Qed.

Lemma uint64_range z : in_uint64 (uint64 z).
Proof. int_unfold. pose proof (Z.mod_pos_bound z 18446744073709551616). lia. Qed.

(** Two [int64] values with the same conversion to [uint64] are equal. *)
Lemma uint64_int64_inj x y : in_int64 x -> in_int64 y -> uint64 x = uint64 y -> x = y.
Proof. int_unfold. intros. Z.div_mod_to_equations. lia. Qed.

(** ** Automation *)

(** Case analysis on the scrutinee of a [match] or [if] of a hypothesis. *)
Ltac case_in H :=
  match type of H with
  | context [match ?x with _ => _ end] =>
    lazymatch x with
    | context [match _ with _ => _ end] => fail
    | _ => let E := fresh "E" in destruct x eqn:E; try discriminate H
    end
  end.

(** ... and of the goal. *)
Ltac case_goal :=
  match goal with
  | |- context [match ?x with _ => _ end] =>
    lazymatch x with
    | context [match _ with _ => _ end] => fail
    | _ => let E := fresh "E" in destruct x eqn:E
    end
  end.

(** Boolean tests to propositions. *)
Ltac b2p :=
  repeat match goal with
  | H : (_ && _) = true |- _ => apply andb_prop in H as [? ?]
  | H : (_ || _) = false |- _ => apply orb_false_elim in H as [? ?]
  | H : negb _ = true |- _ => apply negb_true_iff in H
  | H : negb _ = false |- _ => apply negb_false_iff in H
  | H : (_ <? _) = true |- _ => apply Z.ltb_lt in H
  | H : (_ <? _) = false |- _ => apply Z.ltb_ge in H
  | H : (_ <=? _) = true |- _ => apply Z.leb_le in H
  | H : (_ <=? _) = false |- _ => apply Z.leb_gt in H
  | H : (_ =? _)%Z = true |- _ => apply Z.eqb_eq in H
  | H : (_ =? _)%Z = false |- _ => apply Z.eqb_neq in H
  | H : String.eqb _ _ = true |- _ => apply String.eqb_eq in H
  | H : String.eqb _ _ = false |- _ => apply String.eqb_neq in H
  | H : bool_decide _ = true |- _ => apply bool_decide_eq_true in H
  | H : bool_decide _ = false |- _ => apply bool_decide_eq_false in H
  | H : Nat.leb _ _ = true |- _ => apply Nat.leb_le in H
  | H : Nat.leb _ _ = false |- _ => apply Nat.leb_gt in H
  | H : Nat.ltb _ _ = true |- _ => apply Nat.ltb_lt in H
  | H : Nat.ltb _ _ = false |- _ => apply Nat.ltb_ge in H
  | H : Nat.eqb _ _ = true |- _ => apply Nat.eqb_eq in H
  | H : Nat.eqb _ _ = false |- _ => apply Nat.eqb_neq in H
  end.

(** ** Maps *)

(** A Go loop [for k, v := range m { t[k] = ... }] whose body reads and writes only the entry
    of [t] at its own key: [f] gives the new entry from the ranged value and the old entry. *)
Definition range_update {V W : Type} (f : V -> option W -> option W)
    (m : gmap string V) (t : gmap string W) : gmap string W :=
  map_fold (fun k v acc => partial_alter (f v) k acc) t m.

Lemma range_update_lookup {V W} (f : V -> option W -> option W) m (t : gmap string W) k :
  range_update f m t !! k = match m !! k with Some v => f v (t !! k) | None => t !! k end.
Proof.
  unfold range_update. revert k.
  apply (map_fold_weak_ind (fun r (m : gmap string V) => forall k,
    r !! k = match m !! k with Some v => f v (t !! k) | None => t !! k end)).
  - intros k. by rewrite lookup_empty.
  - intros i x m' r Hi IH k. destruct (decide (i = k)) as [->|Hne].
    + rewrite lookup_partial_alter_eq, lookup_insert_eq, IH, Hi. done.
    + rewrite lookup_partial_alter_ne by done. rewrite lookup_insert_ne by done. apply IH.
Qed.

(** The sum of [f] over the values of a map. *)
Definition sum_map {K V} `{Countable K} (f : V -> Z) (m : gmap K V) : Z :=
  map_fold (fun _ v acc => f v + acc) 0 m.

Section sum_map.
Context {K V : Type} `{Countable K} (f : V -> Z).
Implicit Types m : gmap K V.

Lemma sum_map_empty : sum_map f (∅ : gmap K V) = 0.
Proof. apply map_fold_empty. Qed.

Lemma sum_map_insert m k v : m !! k = None -> sum_map f (<[k:=v]> m) = f v + sum_map f m.
Proof. intros Hk. unfold sum_map. apply (map_fold_insert_L (fun _ v acc => f v + acc) 0); [|done].
  intros. lia. Qed.

Lemma sum_map_delete m k v : m !! k = Some v -> sum_map f m = f v + sum_map f (delete k m).
Proof.
  intros Hk. rewrite <-(insert_delete_id m k v Hk) at 1.
  apply sum_map_insert, lookup_delete_eq.
Qed.

Lemma sum_map_replace m k v v' :
  m !! k = Some v -> sum_map f (<[k:=v']> m) = sum_map f m - f v + f v'.
Proof.
  intros Hk. rewrite <-insert_delete_eq, sum_map_insert by apply lookup_delete_eq.
  rewrite (sum_map_delete m k v Hk). lia.
Qed.

(** Writing and deleting an entry, whether or not there was one. *)
Lemma sum_map_upsert m k v :
  sum_map f (<[k:=v]> m) = sum_map f m - from_option f 0 (m !! k) + f v.
Proof.
  destruct (m !! k) as [v'|] eqn:E; simpl.
  - by apply sum_map_replace.
  - rewrite sum_map_insert by done. lia.
Qed.

Lemma sum_map_remove m k : sum_map f (delete k m) = sum_map f m - from_option f 0 (m !! k).
Proof.
  destruct (m !! k) as [v|] eqn:E; simpl.
  - rewrite (sum_map_delete m k v E). lia.
  - rewrite delete_id by done. lia.
Qed.

Lemma sum_map_le_size m : (forall v, f v <= 1) -> sum_map f m <= Z.of_nat (size m).
Proof.
  intros Hf. induction m as [|k v m Hk IH] using map_ind.
  - rewrite sum_map_empty, map_size_empty. lia.
  - rewrite sum_map_insert, map_size_insert_None by done. specialize (Hf v). lia.
Qed.

Lemma sum_map_nonneg m : (forall k v, m !! k = Some v -> 0 <= f v) -> 0 <= sum_map f m.
Proof.
  induction m as [|k v m Hk IH] using map_ind; intros Hpos.
  - by rewrite sum_map_empty.
  - rewrite sum_map_insert by done.
    assert (0 <= f v) by (apply (Hpos k); apply lookup_insert_eq).
    assert (0 <= sum_map f m); [|lia].
    apply IH. intros k' v' Hk'. apply (Hpos k').
    rewrite lookup_insert_ne; congruence.
Qed.

Lemma sum_map_lookup_le m k v :
  (forall k v, m !! k = Some v -> 0 <= f v) -> m !! k = Some v -> f v <= sum_map f m.
Proof.
  intros Hpos Hk. rewrite (sum_map_delete m k v Hk).
  assert (0 <= sum_map f (delete k m)); [|lia].
  apply sum_map_nonneg. intros k' v' Hl. apply lookup_delete_Some in Hl as [_ Hl]. eauto.
Qed.

(** Two entries count twice. *)
Lemma sum_map_two m k1 k2 v1 v2 :
  (forall k v, m !! k = Some v -> 0 <= f v) -> m !! k1 = Some v1 -> m !! k2 = Some v2 -> k1 <> k2 ->
  f v1 + f v2 <= sum_map f m.
Proof.
  intros Hpos H1 H2 Hne. rewrite (sum_map_delete m k1 v1 H1).
  assert (f v2 <= sum_map f (delete k1 m)); [|lia].
  apply (sum_map_lookup_le _ k2).
  - intros k v Hl. apply lookup_delete_Some in Hl as [_ Hl]. eauto.
  - by rewrite lookup_delete_ne.
Qed.

Lemma sum_map_zero m : (forall k v, m !! k = Some v -> f v = 0) -> sum_map f m = 0.
Proof.
  induction m as [|k v m Hk IH] using map_ind; intros Hz; [by rewrite sum_map_empty|].
  rewrite sum_map_insert, (Hz k v) by (done || apply lookup_insert_eq).
  apply IH. intros k' v' Hk'. apply (Hz k'). rewrite lookup_insert_ne; congruence.
Qed.
End sum_map.

Lemma sum_map_ext {K V} `{Countable K} (f g : V -> Z) (m : gmap K V) :
  (forall k v, m !! k = Some v -> f v = g v) -> sum_map f m = sum_map g m.
Proof.
  induction m as [|k v m Hk IH] using map_ind; intros Heq.
  - by rewrite !sum_map_empty.
  - rewrite !sum_map_insert by done.
    rewrite (Heq k v) by apply lookup_insert_eq. f_equal.
    apply IH. intros k' v' Hk'. apply (Heq k'). rewrite lookup_insert_ne; congruence.
Qed.

(** ** Heaps: objects by address *)

(** The address of the next object. *)
Definition alloc {V} (m : gmap nat V) : nat := map_fold (fun k _ acc => Nat.max (S k) acc) O m.

Lemma alloc_above {V} (m : gmap nat V) k v : m !! k = Some v -> (k < alloc m)%nat.
Proof.
  unfold alloc. revert k v.
  apply (map_fold_weak_ind (fun r (m : gmap nat V) => forall k v, m !! k = Some v -> (k < r)%nat)).
  - intros k v Hk. by rewrite lookup_empty in Hk.
  - intros i x m' r _ IH k v Hk. destruct (decide (i = k)) as [->|]; [lia|].
    rewrite lookup_insert_ne in Hk by done. specialize (IH _ _ Hk). lia.
Qed.

Lemma alloc_fresh {V} (m : gmap nat V) : m !! alloc m = None.
Proof. destruct (m !! alloc m) eqn:E; [|done]. apply alloc_above in E. lia. Qed.

(** A pointer is an address or nil; [deref] reads through it. *)
Abbreviation ptr := (option nat).
Definition deref {V} (m : gmap nat V) (p : ptr) : option (nat * V) :=
  match p with
  | Some a => match m !! a with Some x => Some (a, x) | None => None end
  | None => None
  end.

Lemma deref_Some {V} (m : gmap nat V) p a x : deref m p = Some (a, x) -> p = Some a /\ m !! a = Some x.
Proof. unfold deref. intros H. repeat case_in H. by simplify_eq. Qed.

(** ** Transition sequences *)

(** States reachable from [init] by the steps of [R]. *)
Inductive reachable {S : Type} (init : S -> Prop) (R : S -> S -> Prop) : S -> Prop :=
| reach_init s : init s -> reachable init R s
| reach_step s s' : reachable init R s -> R s s' -> reachable init R s'.

Lemma reachable_invariant {S} (init : S -> Prop) R (I : S -> Prop) :
  (forall s, init s -> I s) -> (forall s s', I s -> R s s' -> I s') ->
  forall s, reachable init R s -> I s.
Proof. intros Hi Hs s Hr. induction Hr; eauto. Qed.

(** The hint database of the development. *)
Create HintDb mnemo.
#[export] Hint Resolve int64_range uint64_range : mnemo.
