(* ===== verification/GoStrings.v ===== *)
(** * The Go string and path functions the program calls

    A Go string is a [string] of bytes.  [strings] (HasPrefix, TrimPrefix, Split, Join, Cut,
    ReplaceAll, TrimSpace, ToLower, EqualFold), [unicode] (IsControl, IsSpace) and [utf8]
    decoding are modelled on bytes; the case tables of package [unicode] are the class
    [Unicode], every result holding for every table.  [path] and [filepath] (Clean, Join, Dir,
    Base, Ext) follow the package documentation, and the lemmas relate them to segment lists. *)

From Stdlib Require Import Ascii.
From S2P Require Import Prelude.

#[global] Open Scope string_scope.
#[global] Open Scope list_scope.
#[global] Open Scope Z_scope.

(** stdpp blocks [simpl] on string concatenation; the lemmas here compute with it. *)
#[global] Arguments String.append : simpl nomatch.

Abbreviation slash := ("/"%char).

(** ** Package strings *)

Definition len (s : string) : Z := Z.of_nat (String.length s).

Fixpoint str_drop (n : nat) (s : string) : string :=
  match n, s with
  | O, _ => s
  | S n', String _ s' => str_drop n' s'
  | S _, EmptyString => EmptyString
  end.

Definition HasPrefix (s p : string) : bool := String.prefix p s.

Definition TrimPrefix (s p : string) : string :=
  if HasPrefix s p then str_drop (String.length p) s else s.

Definition HasSuffix (s suf : string) : bool :=
  Nat.leb (String.length suf) (String.length s) &&
  String.eqb (str_drop (String.length s - String.length suf) s) suf.

Definition TrimSuffix (s suf : string) : string :=
  if HasSuffix s suf then String.substring 0 (String.length s - String.length suf) s else s.

(** [strings.IndexByte(s, c) >= 0] *)
Fixpoint contains_byte (c : ascii) (s : string) : bool :=
  match s with
  | EmptyString => false
  | String a s' => Ascii.eqb a c || contains_byte c s'
  end.

(** [strings.ReplaceAll] with one-byte strings. *)
Fixpoint replace_byte (c d : ascii) (s : string) : string :=
  match s with
  | EmptyString => EmptyString
  | String a s' => String (if Ascii.eqb a c then d else a) (replace_byte c d s')
  end.

(** [strings.Split] with a one-byte separator. *)
Fixpoint Split (c : ascii) (s : string) : list string :=
  match s with
  | EmptyString => [EmptyString]
  | String a s' =>
    if Ascii.eqb a c then EmptyString :: Split c s'
    else match Split c s' with
         | w :: ws => String a w :: ws
         | [] => [String a EmptyString]
         end
  end.

(** [strings.Join] *)
Fixpoint Join (sep : string) (l : list string) : string :=
  match l with
  | [] => EmptyString
  | [w] => w
  | w :: ws => w +:+ sep +:+ Join sep ws
  end.

(** [strings.Cut] with a one-byte separator: before, after, found. *)
Fixpoint Cut (c : ascii) (s : string) : string * string * bool :=
  match s with
  | EmptyString => (EmptyString, EmptyString, false)
  | String a s' =>
    if Ascii.eqb a c then (EmptyString, s', true)
    else let '(b, r, ok) := Cut c s' in (String a b, r, ok)
  end.

(** ** UTF-8 and package unicode *)

Abbreviation rune := N (only parsing).
Definition RuneError : rune := 65533%N.

Definition byte_in (lo hi : N) (a : ascii) : bool :=
  (lo <=? N_of_ascii a)%N && (N_of_ascii a <=? hi)%N.
Definition cont_bits (a : ascii) : N := N.land (N_of_ascii a) 63.

(** The runes of a string, each with the bytes it was decoded from; an invalid byte decodes to
    [RuneError] alone, as in a [for range] loop over a Go string. *)
Fixpoint runes (s : string) : list (rune * string) :=
  match s with
  | EmptyString => []
  | String a s1 =>
    let n := N_of_ascii a in
    let bad (_ : unit) := (RuneError, String a EmptyString) :: runes s1 in
    if (n <? 128)%N then (n, String a EmptyString) :: runes s1
    else if byte_in 194 223 a then
      match s1 with
      | String b s2 =>
        if byte_in 128 191 b
        then (N.lor (N.shiftl (N.land n 31) 6) (cont_bits b), String a (String b EmptyString)) :: runes s2
        else bad tt
      | EmptyString => bad tt
      end
    else if byte_in 224 239 a then
      match s1 with
      | String b (String c s3) =>
        let lo := if (n =? 224)%N then 160%N else 128%N in
        let hi := if (n =? 237)%N then 159%N else 191%N in
        if byte_in lo hi b && byte_in 128 191 c
        then (N.lor (N.shiftl (N.land n 15) 12) (N.lor (N.shiftl (cont_bits b) 6) (cont_bits c)),
              String a (String b (String c EmptyString))) :: runes s3
        else bad tt
      | _ => bad tt
      end
    else if byte_in 240 244 a then
      match s1 with
      | String b (String c (String d s4)) =>
        let lo := if (n =? 240)%N then 144%N else 128%N in
        let hi := if (n =? 244)%N then 143%N else 191%N in
        if byte_in lo hi b && byte_in 128 191 c && byte_in 128 191 d
        then (N.lor (N.shiftl (N.land n 7) 18)
                (N.lor (N.shiftl (cont_bits b) 12) (N.lor (N.shiftl (cont_bits c) 6) (cont_bits d))),
              String a (String b (String c (String d EmptyString)))) :: runes s4
        else bad tt
      | _ => bad tt
      end
    else bad tt
  end.

Definition byte1 (n : N) : string := String (ascii_of_N n) EmptyString.

(** [utf8.EncodeRune] *)
Definition encode_rune (r : rune) : string :=
  let valid := ((r <=? 1114111) && negb ((55296 <=? r) && (r <=? 57343)))%N in
  let r := if valid then r else RuneError in
  let tail n := byte1 (N.lor 128 (N.land (N.shiftr r n) 63)) in
  if (r <? 128)%N then byte1 r
  else if (r <? 2048)%N then byte1 (N.lor 192 (N.shiftr r 6)) +:+ tail 0%N
  else if (r <? 65536)%N then byte1 (N.lor 224 (N.shiftr r 12)) +:+ tail 6%N +:+ tail 0%N
  else byte1 (N.lor 240 (N.shiftr r 18)) +:+ tail 12%N +:+ tail 6%N +:+ tail 0%N.

(** [unicode.IsControl]: category Cc. *)
Definition IsControl (r : rune) : bool := ((r <? 32) || ((127 <=? r) && (r <? 160)))%N.

(** [unicode.IsSpace]: the White_Space property. *)
Definition IsSpace (r : rune) : bool :=
  (((9 <=? r) && (r <=? 13)) || (r =? 32) || (r =? 133) || (r =? 160) || (r =? 5760) ||
   ((8192 <=? r) && (r <=? 8202)) || (r =? 8232) || (r =? 8233) || (r =? 8239) ||
   (r =? 8287) || (r =? 12288))%N.

(** [strings.IndexFunc(s, unicode.IsControl) >= 0] *)
Definition has_control (s : string) : bool := existsb (fun '(r, _) => IsControl r) (runes s).

Definition concat_bytes (l : list (rune * string)) : string :=
  fold_right (fun '(_, b) acc => b +:+ acc) EmptyString l.

Fixpoint drop_space (l : list (rune * string)) : list (rune * string) :=
  match l with
  | (r, b) :: l' => if IsSpace r then drop_space l' else l
  | [] => []
  end.

(** [strings.TrimSpace] *)
Definition TrimSpace (s : string) : string :=
  concat_bytes (rev (drop_space (rev (drop_space (runes s))))).

(** The case tables of package [unicode] above ASCII: [unicode.ToLower] and whether two runes are
    in one [unicode.SimpleFold] orbit. *)
Class Unicode := {
  table_lower : rune -> rune;
  table_fold : rune -> rune -> bool;
}.

Definition is_upper (r : rune) : bool := ((65 <=? r) && (r <=? 90))%N.
Definition is_lower (r : rune) : bool := ((97 <=? r) && (r <=? 122))%N.

Definition rune_lower `{Unicode} (r : rune) : rune :=
  if (r <? 128)%N then (if is_upper r then (r + 32)%N else r) else table_lower r.

(** [strings.ToLower] *)
Definition ToLower `{Unicode} (s : string) : string :=
  fold_right (fun '(r, _) acc => encode_rune (rune_lower r) +:+ acc) EmptyString (runes s).

(** One step of [strings.EqualFold]. *)
Definition rune_fold `{Unicode} (x y : rune) : bool :=
  let '(lo, hi) := if (x <? y)%N then (x, y) else (y, x) in
  (lo =? hi)%N ||
  (if (hi <? 128)%N then is_upper lo && (hi =? lo + 32)%N else table_fold lo hi).

(** [strings.EqualFold] *)
Definition EqualFold `{Unicode} (s t : string) : bool :=
  let fix go (l m : list (rune * string)) : bool :=
    match l, m with
    | [], [] => true
    | (x, _) :: l', (y, _) :: m' => rune_fold x y && go l' m'
    | _, _ => false
    end in
  go (runes s) (runes t).

(** The table that knows no case outside ASCII, used by the concrete examples. *)
#[export] Instance ascii_only : Unicode | 100 := {
  table_lower := fun r => r;
  table_fold := fun _ _ => false;
}.

(** ** Packages path and filepath *)

Definition is_rooted (s : string) : bool := HasPrefix s "/".

Definition dotdot (w : string) : bool := String.eqb w "..".

(** One segment of [path.Clean]; the output is kept reversed. *)
Definition clean_step (rooted : bool) (out : list string) (w : string) : list string :=
  if String.eqb w "" || String.eqb w "." then out
  else if dotdot w then
    match out with
    | x :: out' => if dotdot x then w :: out else out'
    | [] => if rooted then [] else [w]
    end
  else w :: out.

Definition clean_segments (s : string) : list string :=
  rev (fold_left (clean_step (is_rooted s)) (Split slash s) []).

(** [path.Clean] *)
Definition Clean (s : string) : string :=
  let body := Join "/" (clean_segments s) in
  if is_rooted s then "/" +:+ body
  else if String.eqb body "" then "." else body.

(** [path.Join] *)
Definition JoinPath (elems : list string) : string :=
  match List.filter (fun e => negb (String.eqb e "")) elems with
  | [] => ""
  | es => Clean (Join "/" es)
  end.

Fixpoint last_slash_split (s : string) : option (string * string) :=
  match s with
  | EmptyString => None
  | String a s' =>
    match last_slash_split s' with
    | Some (d, b) => Some (String a d, b)
    | None => if Ascii.eqb a slash then Some ("/", s') else None
    end
  end.

(** [path.Split]: everything up to and including the last slash, and the rest. *)
Definition SplitPath (s : string) : string * string :=
  match last_slash_split s with Some p => p | None => ("", s) end.

(** [path.Dir] *)
Definition Dir (s : string) : string := Clean (fst (SplitPath s)).

Fixpoint strip_trailing (c : ascii) (s : string) : string :=
  match s with
  | EmptyString => EmptyString
  | String a s' =>
    match strip_trailing c s' with
    | EmptyString => if Ascii.eqb a c then EmptyString else String a EmptyString
    | t => String a t
    end
  end.

(** [path.Base] *)
Definition Base (s : string) : string :=
  if String.eqb s "" then "."
  else let t := snd (SplitPath (strip_trailing slash s)) in
       if String.eqb t "" then "/" else t.

Fixpoint ext_of (s : string) : string :=
  match s with
  | EmptyString => EmptyString
  | String a s' =>
    match ext_of s' with
    | EmptyString => if Ascii.eqb a "." && negb (contains_byte slash s') then s else EmptyString
    | e => e
    end
  end.

(** [filepath.Ext]: from the last dot of the last element. *)
Definition Ext (s : string) : string := ext_of (snd (SplitPath s)).

Example clean_ex1 : Clean "/a/../..//b/./c/" = "/b/c". Proof. reflexivity. Qed.
Example clean_ex2 : Clean "../a/../.." = "../..". Proof. reflexivity. Qed.
Example clean_ex3 : Clean "" = "." /\ Clean "//" = "/". Proof. split; reflexivity. Qed.
Example dir_ex : Dir "/a/b" = "/a" /\ Dir "/a" = "/" /\ Dir "/" = "/" /\ Dir "a" = ".".
Proof. repeat split; reflexivity. Qed.
Example base_ex : Base "/a/b" = "b" /\ Base "/a/b//" = "b" /\ Base "/" = "/" /\ Base "" = ".".
Proof. repeat split; reflexivity. Qed.
Example ext_ex : Ext "/a.b/c" = "" /\ Ext "/a/x.tar.gz" = ".gz" /\ Ext "a." = "." /\ Ext ".md" = ".md".
Proof. repeat split; reflexivity. Qed.
Example trim_ex : TrimSpace "  a b  " = "a b". Proof. reflexivity. Qed.
Example lower_ex : ToLower "AbC-9" = "abc-9" /\ EqualFold "MeDia" "mEdiA" = true.
Proof. split; reflexivity. Qed.
