(* ===== verification/GoPath.v ===== *)
(** * Lemmas on paths: canonical paths are lists of segments

    [path.Clean] of a rooted path is the rendering of a list of good segments (not empty, no
    slash, neither "." nor ".."); rendering is injective, and the byte-prefix tests of the program
    on canonical paths are prefix tests on segment lists. *)

From Stdlib Require Import Ascii.
From S2P Require Import Prelude GoStrings.

(** ** Strings *)

Lemma sapp_assoc (a b c : string) : (a +:+ b) +:+ c = a +:+ b +:+ c.
Proof. induction a; simpl; congruence. Qed.

Lemma sapp_nil_r (a : string) : a +:+ "" = a.
Proof. induction a; simpl; congruence. Qed.

Lemma sapp_length (a b : string) :
  String.length (a +:+ b) = (String.length a + String.length b)%nat.
Proof. induction a; simpl; congruence. Qed.

Lemma str_drop_app (a b : string) : str_drop (String.length a) (a +:+ b) = b.
Proof. induction a; simpl; [by destruct b|done]. Qed.

Lemma HasPrefix_spec s p : HasPrefix s p = true <-> exists t, s = p +:+ t.
Proof.
  unfold HasPrefix. revert s. induction p as [|c p IH]; intros s.
  - split; intros _; [by exists s|by destruct s].
  - destruct s as [|a s]; simpl; [split; [done|by intros [t ?]]|].
    destruct (ascii_dec c a) as [->|Hne].
    + rewrite IH. split; intros [t Ht]; exists t; simpl; congruence.
    + split; [done|]. intros [t Ht]. simpl in Ht. congruence.
Qed.

Lemma HasPrefix_app p t : HasPrefix (p +:+ t) p = true.
Proof. apply HasPrefix_spec. eauto. Qed.

Lemma TrimPrefix_app p t : TrimPrefix (p +:+ t) p = t.
Proof. unfold TrimPrefix. rewrite HasPrefix_app. apply str_drop_app. Qed.

Lemma contains_byte_app c a b : contains_byte c (a +:+ b) = contains_byte c a || contains_byte c b.
Proof. induction a; simpl; [done|]. rewrite IHa. by rewrite orb_assoc. Qed.

(** ** Splitting and joining *)

Definition no_slash (w : string) : Prop := contains_byte slash w = false.

Lemma Split_not_nil c s : Split c s <> [].
Proof. destruct s as [|a s]; simpl; [done|]. destruct (Ascii.eqb a c); [done|]. by destruct (Split c s). Qed.

Lemma Split_pieces c s : Forall (fun w => contains_byte c w = false) (Split c s).
Proof.
  induction s as [|a s IH]; simpl; [by repeat constructor|].
  destruct (Ascii.eqb a c) eqn:E; [by constructor|].
  destruct (Split c s) as [|w ws]; [repeat constructor; simpl; by rewrite E|].
  inversion IH; subst. constructor; simpl; [by rewrite E|done].
Qed.

Lemma Split_no_sep c w : contains_byte c w = false -> Split c w = [w].
Proof.
  induction w as [|a w IH]; simpl; [done|]. intros H. apply orb_false_elim in H as [-> H].
  by rewrite IH.
Qed.

Lemma Split_app c w s :
  contains_byte c w = false -> Split c (w +:+ String c s) = w :: Split c s.
Proof.
  induction w as [|a w IH]; simpl; intros H.
  - by rewrite Ascii.eqb_refl.
  - apply orb_false_elim in H as [-> H]. by rewrite IH.
Qed.

Lemma Split_Join segs :
  segs <> [] -> Forall no_slash segs -> Split slash (Join "/" segs) = segs.
Proof.
  induction segs as [|w [|x ws] IH]; intros Hne Hns; [done| |].
  - inversion Hns; subst. by apply Split_no_sep.
  - inversion Hns; subst. change (Join "/" (w :: x :: ws)) with (w +:+ String slash (Join "/" (x :: ws))).
    rewrite Split_app by done. by rewrite IH.
Qed.

(** ** Canonical paths *)

Definition good_seg (w : string) : Prop := no_slash w /\ w <> "" /\ w <> "." /\ w <> "..".

#[export] Instance good_seg_dec w : Decision (good_seg w).
Proof. unfold good_seg, no_slash. apply _. Defined.

(** The rooted path with the given segments. *)
Definition render (segs : list string) : string := "/" +:+ Join "/" segs.

Definition canonical (p : string) : Prop := exists segs, Forall good_seg segs /\ p = render segs.

Lemma render_rooted segs : is_rooted (render segs) = true.
Proof. unfold is_rooted, render. apply HasPrefix_app. Qed.

Lemma good_no_slash segs : Forall good_seg segs -> Forall no_slash segs.
Proof. intros H. eapply Forall_impl; [exact H|]. by intros w [? _]. Qed.

Lemma clean_step_good_out out w :
  Forall good_seg out -> no_slash w -> Forall good_seg (clean_step true out w).
Proof.
  intros Hout Hw. unfold clean_step, dotdot.
  destruct (String.eqb w "") eqn:E1; [done|]. destruct (String.eqb w ".") eqn:E2; [done|]. simpl.
  destruct (String.eqb w "..") eqn:E3; b2p.
  - destruct out as [|x out']; [done|]. inversion Hout as [|? ? Hx Hout']; subst.
    destruct (String.eqb x "..") eqn:E; [|done]. b2p. by destruct Hx as (_ & _ & _ & []).
  - constructor; [|done]. by repeat split.
Qed.

Lemma clean_fold_good ws out :
  Forall good_seg out -> Forall no_slash ws -> Forall good_seg (fold_left (clean_step true) ws out).
Proof.
  revert out. induction ws as [|w ws IH]; intros out Ho Hw; [done|].
  inversion Hw; subst. apply IH; [|done]. by apply clean_step_good_out.
Qed.

Lemma clean_segments_good s : is_rooted s = true -> Forall good_seg (clean_segments s).
Proof.
  intros Hr. unfold clean_segments. rewrite Hr. apply Forall_rev, clean_fold_good; [constructor|].
  apply Split_pieces.
Qed.

Lemma Clean_rooted s : is_rooted s = true -> Clean s = render (clean_segments s).
Proof. intros Hr. unfold Clean, render. by rewrite Hr. Qed.

Lemma Clean_canonical s : is_rooted s = true -> canonical (Clean s).
Proof. intros Hr. exists (clean_segments s). split; [by apply clean_segments_good|by apply Clean_rooted]. Qed.

(** How a concrete path is seen to be canonical. *)
Lemma canonical_by_Clean p : is_rooted p = true -> Clean p = p -> canonical p.
Proof. intros Hr <-. by apply Clean_canonical. Qed.

Lemma is_rooted_slash s : is_rooted ("/" +:+ s) = true.
Proof. apply HasPrefix_app. Qed.

Lemma clean_step_good out w : good_seg w -> clean_step true out w = w :: out.
Proof.
  intros (_ & H1 & H2 & H3). unfold clean_step, dotdot.
  apply String.eqb_neq in H1, H2, H3. by rewrite H1, H2, H3.
Qed.

Lemma clean_fold_id ws out :
  Forall good_seg ws -> fold_left (clean_step true) ws out = rev ws ++ out.
Proof.
  revert out. induction ws as [|w ws IH]; intros out Hw; [done|].
  inversion Hw; subst. simpl. rewrite clean_step_good by done. rewrite IH by done.
  by rewrite <-app_assoc.
Qed.

Lemma Split_render segs : Forall good_seg segs ->
  Split slash (render segs) = "" :: match segs with [] => [""] | _ => segs end.
Proof.
  intros Hg. unfold render. change ("/" +:+ Join "/" segs) with (String slash (Join "/" segs)).
  simpl. f_equal. destruct segs as [|w ws]; [done|].
  apply Split_Join; [done|]. by apply good_no_slash.
Qed.

Lemma clean_segments_render segs : Forall good_seg segs -> clean_segments (render segs) = segs.
Proof.
  intros Hg. unfold clean_segments. rewrite render_rooted, Split_render by done. simpl.
  destruct segs as [|w ws]; [done|].
  change (clean_step true [] "") with (@nil string).
  rewrite clean_fold_id by done. by rewrite app_nil_r, rev_involutive.
Qed.

Lemma Clean_render segs : Forall good_seg segs -> Clean (render segs) = render segs.
Proof. intros Hg. rewrite Clean_rooted by apply render_rooted. by rewrite clean_segments_render. Qed.

Lemma Clean_of_canonical p : canonical p -> Clean p = p.
Proof. intros (segs & Hg & ->). by apply Clean_render. Qed.

Lemma Clean_idem s : is_rooted s = true -> Clean (Clean s) = Clean s.
Proof. intros Hr. by apply Clean_of_canonical, Clean_canonical. Qed.

Lemma render_inj s1 s2 : Forall good_seg s1 -> Forall good_seg s2 -> render s1 = render s2 -> s1 = s2.
Proof. intros H1 H2 Heq. by rewrite <-(clean_segments_render s1), <-(clean_segments_render s2), Heq. Qed.

Lemma canonical_rooted p : canonical p -> is_rooted p = true.
Proof. intros (segs & _ & ->). apply render_rooted. Qed.

Lemma canonical_root : canonical "/".
Proof. by exists []. Qed.

Lemma render_snoc segs w : segs <> [] -> render (segs ++ [w]) = render segs +:+ "/" +:+ w.
Proof.
  intros Hne. unfold render. rewrite sapp_assoc. f_equal.
  induction segs as [|x [|y ys] IH]; [done|done|].
  change ((x :: y :: ys) ++ [w]) with (x :: y :: (ys ++ [w])).
  change (Join "/" (x :: y :: (ys ++ [w]))) with (x +:+ "/" +:+ Join "/" ((y :: ys) ++ [w])).
  change (Join "/" (x :: y :: ys)) with (x +:+ "/" +:+ Join "/" (y :: ys)).
  rewrite IH by done. rewrite !sapp_assoc. done.
Qed.

Lemma render_app s1 s2 : s1 <> [] -> s2 <> [] -> render (s1 ++ s2) = render s1 +:+ render s2.
Proof.
  intros H1 H2. unfold render. rewrite sapp_assoc. f_equal.
  induction s1 as [|x [|y ys] IH]; [done| |].
  - destruct s2 as [|z zs]; [done|]. simpl. done.
  - change ((x :: y :: ys) ++ s2) with (x :: y :: (ys ++ s2)).
    change (Join "/" (x :: y :: (ys ++ s2))) with (x +:+ "/" +:+ Join "/" ((y :: ys) ++ s2)).
    change (Join "/" (x :: y :: ys)) with (x +:+ "/" +:+ Join "/" (y :: ys)).
    rewrite IH by done. rewrite !sapp_assoc. done.
Qed.

(** ** Prefix tests *)

(** Appending text that begins with a slash extends the segment list. *)
Lemma Split_app_slash s t : Split slash (s +:+ String slash t) = Split slash s ++ Split slash t.
Proof.
  induction s as [|a s IH]; simpl; [done|].
  rewrite IH. destruct (Ascii.eqb a slash); [done|].
  destruct (Split slash s) eqn:E; [by apply Split_not_nil in E|done].
Qed.

Lemma render_prefix_slash b t :
  b <> [] -> Forall good_seg b -> Forall good_seg t ->
  HasPrefix (render t) (render b +:+ "/") = true -> exists r, r <> [] /\ t = b ++ r.
Proof.
  intros Hb Hgb Hgt [u Hu]%HasPrefix_spec.
  rewrite sapp_assoc in Hu. change ("/" +:+ u) with (String slash u) in Hu.
  assert (Hs : Split slash (render t) = Split slash (render b) ++ Split slash u)
    by (rewrite Hu; apply Split_app_slash).
  rewrite !Split_render in Hs by done. destruct b as [|b0 bs]; [done|]. simpl in Hs.
  injection Hs as Hs. destruct t as [|t0 ts].
  - injection Hs as Hs1 Hs2. destruct bs; [|done]. by destruct (Split_not_nil slash u).
  - exists (Split slash u). split; [apply Split_not_nil|done].
Qed.

Lemma render_prefix_iff b t :
  Forall good_seg b -> Forall good_seg t -> b <> [] ->
  (render t = render b \/ HasPrefix (render t) (render b +:+ "/") = true) <-> b `prefix_of` t.
Proof.
  intros Hb Ht Hne. split.
  - intros [Heq|Hp].
    + apply render_inj in Heq as ->; done.
    + apply render_prefix_slash in Hp as (r & _ & ->); [by exists r|done..].
  - intros [r ->]. destruct r as [|x r]; [left; by rewrite app_nil_r|right].
    apply HasPrefix_spec. rewrite render_app by done. exists (Join "/" (x :: r)).
    unfold render at 2. by rewrite !sapp_assoc.
Qed.

(** The strict version of [render_prefix_iff]. *)
Lemma render_below_iff b t :
  Forall good_seg b -> Forall good_seg t -> b <> [] ->
  HasPrefix (render t) (render b +:+ "/") = true <-> exists r, r <> [] /\ t = b ++ r.
Proof.
  intros Hb Ht Hne. split; [by apply render_prefix_slash|].
  intros ([|x r] & Hr & ->); [done|]. apply HasPrefix_spec. rewrite render_app by done.
  exists (Join "/" (x :: r)). unfold render at 2. by rewrite !sapp_assoc.
Qed.

(** ** Dot segments *)

Definition has_dot_seg (s : string) : bool :=
  existsb (fun w => String.eqb w "." || String.eqb w "..") (Split slash s).

(** Without dot segments, [Clean] only removes empty segments. *)
Lemma clean_fold_nodot rooted ws out :
  existsb (fun w => String.eqb w "." || String.eqb w "..") ws = false ->
  fold_left (clean_step rooted) ws out = rev (List.filter (fun w => negb (String.eqb w "")) ws) ++ out.
Proof.
  revert out. induction ws as [|w ws IH]; intros out Hd; [done|].
  simpl in Hd. apply orb_false_elim in Hd as [[Hd1 Hd2]%orb_false_elim Hd]. simpl.
  unfold clean_step at 2, dotdot. rewrite Hd1, Hd2.
  destruct (String.eqb w "") eqn:E; simpl; rewrite IH by done; [done|]. by rewrite <-app_assoc.
Qed.

Lemma clean_segments_nodot s :
  has_dot_seg s = false -> clean_segments s = List.filter (fun w => negb (String.eqb w "")) (Split slash s).
Proof.
  intros Hd. unfold clean_segments. rewrite clean_fold_nodot by done.
  by rewrite app_nil_r, rev_involutive.
Qed.

Lemma has_dot_seg_slash s : has_dot_seg ("/" +:+ s) = has_dot_seg s.
Proof. reflexivity. Qed.

Lemma has_dot_seg_render segs : Forall good_seg segs -> has_dot_seg (render segs) = false.
Proof.
  intros Hg. unfold has_dot_seg. rewrite Split_render by done. simpl.
  destruct segs as [|x xs]; [done|].
  induction Hg as [|w ws (_ & _ & H2 & H3) _ IH]; [done|]. simpl.
  apply String.eqb_neq in H2, H3. by rewrite H2, H3.
Qed.

(** ** Dir and Base *)

Lemma last_slash_split_app d w :
  contains_byte slash w = false ->
  last_slash_split (d +:+ String slash w) = Some (d +:+ "/", w).
Proof.
  intros Hw. assert (Hn : last_slash_split w = None).
  { induction w as [|a w IH]; simpl in *; [done|]. apply orb_false_elim in Hw as [H1 H2].
    rewrite IH by done. by rewrite H1. }
  induction d as [|a d IH]; simpl; [by rewrite Hn|]. by rewrite IH.
Qed.

Lemma strip_trailing_id (c : ascii) d w :
  contains_byte c w = false -> w <> "" -> strip_trailing c (d +:+ w) = d +:+ w.
Proof.
  intros Hw Hne. assert (Hs : strip_trailing c w = w).
  { clear Hne d. induction w as [|a w IH]; simpl in *; [done|].
    apply orb_false_elim in Hw as [H1 H2]. rewrite IH by done. destruct w; [by rewrite H1|done]. }
  induction d as [|a d IH]; simpl; [done|]. rewrite IH.
  destruct (d +:+ w) eqn:E; [|done]. destruct d; simpl in E; [by destruct w|done].
Qed.

Lemma render_snoc_split segs w :
  render (segs ++ [w]) = match segs with [] => "" | _ => render segs end +:+ String slash w.
Proof. destruct segs as [|x xs]; [done|]. by rewrite render_snoc. Qed.

Lemma Dir_render segs w : Forall good_seg (segs ++ [w]) -> Dir (render (segs ++ [w])) = render segs.
Proof.
  intros Hg. apply Forall_app in Hg as [Hg Hw]. inversion Hw as [|? ? Hw' _]; subst.
  unfold Dir, SplitPath. rewrite render_snoc_split, last_slash_split_app by apply Hw'.
  destruct segs as [|x xs]; [done|].
  cbn [fst]. rewrite Clean_rooted; cycle 1.
  { unfold render. rewrite sapp_assoc. apply is_rooted_slash. }
  f_equal. unfold clean_segments.
  assert (is_rooted (render (x :: xs) +:+ "/") = true) as ->
    by (unfold render; rewrite sapp_assoc; apply is_rooted_slash).
  change (render (x :: xs) +:+ "/") with (render (x :: xs) +:+ String slash "").
  rewrite Split_app_slash, Split_render by done.
  rewrite fold_left_app. simpl fold_left at 2. change (clean_step true [] "") with (@nil string).
  simpl. change (clean_step true [] "") with (@nil string).
  assert (Hf := clean_fold_id (x :: xs) [] Hg). simpl in Hf.
  rewrite Hf, app_nil_r. unfold clean_step. simpl. by rewrite rev_app_distr, rev_involutive.
Qed.

Lemma Base_render segs w : Forall good_seg (segs ++ [w]) -> Base (render (segs ++ [w])) = w.
Proof.
  intros Hg. apply Forall_app in Hg as [Hg Hw]. inversion Hw as [|? ? Hw' _]; subst.
  destruct Hw' as (Hns & Hne & _).
  unfold Base. rewrite render_snoc_split.
  destruct (String.eqb _ "") eqn:E; b2p.
  { destruct segs; simpl in E; done. }
  set (d := match segs with [] => "" | _ => render segs end).
  change (String slash w) with ("/" +:+ w). rewrite <-sapp_assoc, strip_trailing_id by done.
  rewrite sapp_assoc. change ("/" +:+ w) with (String slash w).
  unfold SplitPath. rewrite last_slash_split_app by done. simpl.
  by apply String.eqb_neq in Hne as ->.
Qed.

#[export] Hint Resolve render_rooted Clean_canonical canonical_rooted canonical_root
  clean_segments_good is_rooted_slash : mnemo.
