(* ===== verification/GoRunes.v ===== *)
(** * Runes of trimmed and of ASCII strings

    Lemmas on the decoding of strings into runes: any part of a decoding that is cut out at the borders of
    runes decodes to itself, so [TrimSpace] is idempotent; and strings of ASCII bytes decode byte by byte. *)

From Stdlib Require Import Ascii.
From S2P Require Import Prelude GoStrings GoPath.

Lemma sapp_inj_l (a b c : string) : a +:+ b = a +:+ c -> b = c.
Proof. induction a as [|x a IH]; [done|]. intros H. apply IH. by injection H. Qed.

(** The first rune of a string is decoded from its first bytes; cutting the string after them, or after
    any of the following bytes, does not change it. *)
Lemma runes_first a s : exists r b rest, String a s = b +:+ rest /\ b <> EmptyString /\
  runes (String a s) = (r, b) :: runes rest /\ forall t u, rest = t +:+ u -> runes (b +:+ t) = (r, b) :: runes t.
Proof.
  destruct (N_of_ascii a <? 128)%N eqn:E0.
  { exists (N_of_ascii a), (String a EmptyString), s. split_and!; [done|done|cbn [runes]; by rewrite E0|].
    intros t u _. cbn [String.append runes]. by rewrite E0. }
  destruct (byte_in 194 223 a) eqn:E1.
  { destruct s as [|b s2].
    - exists RuneError, (String a EmptyString), EmptyString. split_and!; [done|done|cbn [runes]; by rewrite E0, E1|].
      intros [|x t] u H; [|done]. cbn [String.append runes]. by rewrite E0, E1.
    - destruct (byte_in 128 191 b) eqn:E2.
      + eexists _, (String a (String b EmptyString)), s2. split_and!; [done|done|cbn [runes]; rewrite E0, E1, E2; reflexivity|].
        intros t u _. cbn [String.append runes]. by rewrite E0, E1, E2.
      + exists RuneError, (String a EmptyString), (String b s2). split_and!; [done|done|cbn [runes]; by rewrite E0, E1, E2|].
        intros [|x t] u H; cbn [String.append runes]; rewrite E0, E1; [done|]. injection H as <- _. by rewrite E2. }
  destruct (byte_in 224 239 a) eqn:E2.
  { destruct s as [|b [|c s3]].
    1,2: eexists RuneError, (String a EmptyString), _; split_and!; [reflexivity|done|cbn [runes]; rewrite E0, E1, E2; reflexivity|];
      intros [|x [|y t]] u H; cbn [String.append runes]; rewrite E0, E1, E2; done.
    destruct (byte_in (if (N_of_ascii a =? 224)%N then 160 else 128) (if (N_of_ascii a =? 237)%N then 159 else 191) b && byte_in 128 191 c) eqn:E3.
    - eexists _, (String a (String b (String c EmptyString))), s3.
      split_and!; [done|done|cbn [runes]; cbv zeta; rewrite E0, E1, E2, E3; reflexivity|].
      intros t u _. cbn [String.append runes]. cbv zeta. by rewrite E0, E1, E2, E3.
    - exists RuneError, (String a EmptyString), (String b (String c s3)).
      split_and!; [done|done|cbn [runes]; cbv zeta; by rewrite E0, E1, E2, E3|].
      intros [|x [|y t]] u H; cbn [String.append runes]; cbv zeta; rewrite E0, E1, E2; [done|done|]. injection H as <- <- _. by rewrite E3. }
  destruct (byte_in 240 244 a) eqn:E3.
  { destruct s as [|b [|c [|d s4]]].
    1,2,3: eexists RuneError, (String a EmptyString), _; split_and!; [reflexivity|done|cbn [runes]; rewrite E0, E1, E2, E3; reflexivity|];
      intros [|x [|y [|z t]]] u H; cbn [String.append runes]; rewrite E0, E1, E2, E3; done.
    destruct (byte_in (if (N_of_ascii a =? 240)%N then 144 else 128) (if (N_of_ascii a =? 244)%N then 143 else 191) b
              && byte_in 128 191 c && byte_in 128 191 d) eqn:E4.
    - eexists _, (String a (String b (String c (String d EmptyString)))), s4.
      split_and!; [done|done|cbn [runes]; cbv zeta; rewrite E0, E1, E2, E3, E4; reflexivity|].
      intros t u _. cbn [String.append runes]. cbv zeta. by rewrite E0, E1, E2, E3, E4.
    - exists RuneError, (String a EmptyString), (String b (String c (String d s4))).
      split_and!; [done|done|cbn [runes]; cbv zeta; by rewrite E0, E1, E2, E3, E4|].
      intros [|x [|y [|z t]]] u H; cbn [String.append runes]; cbv zeta; rewrite E0, E1, E2, E3; [done|done|done|].
      injection H as <- <- <- _. by rewrite E4. }
  exists RuneError, (String a EmptyString), s. split_and!; [done|done|cbn [runes]; by rewrite E0, E1, E2, E3|].
  intros t u _. cbn [String.append runes]. by rewrite E0, E1, E2, E3.
Qed.

Lemma concat_bytes_app l1 l2 : concat_bytes (l1 ++ l2) = concat_bytes l1 +:+ concat_bytes l2.
Proof. induction l1 as [|[r b] l1 IH]; [done|]. cbn [app concat_bytes fold_right]. fold (concat_bytes (l1 ++ l2)). rewrite IH. by rewrite sapp_assoc. Qed.

(** A decoding cut after some runes. *)
Lemma runes_cut l1 : forall s l2, runes s = l1 ++ l2 ->
  s = concat_bytes l1 +:+ concat_bytes l2 /\ runes (concat_bytes l1) = l1 /\ runes (concat_bytes l2) = l2.
Proof.
  assert (Hall : forall n s, (String.length s <= n)%nat -> concat_bytes (runes s) = s).
  { induction n as [|n IH]; intros [|a s] Hn; try done; [cbn in Hn; lia|].
    destruct (runes_first a s) as (r & b & rest & E & Hb & -> & _). cbn [concat_bytes fold_right]. fold (concat_bytes (runes rest)).
    rewrite IH; [by rewrite E|]. apply (f_equal String.length) in E. rewrite sapp_length in E. destruct b; cbn in *; [done|lia]. }
  induction l1 as [|[r b] l1 IH]; intros s l2 H.
  - cbn in H. subst l2. rewrite (Hall (String.length s)) by lia. split_and!; done.
  - destruct s as [|a s]; [done|]. destruct (runes_first a s) as (r' & b' & rest & E & Hb & Hr & Hcut). rewrite Hr in H.
    cbn [app] in H. injection H as -> -> H. destruct (IH rest l2 H) as (Es & H1 & H2).
    cbn [concat_bytes fold_right]. fold (concat_bytes l1). rewrite sapp_assoc, <-Es. split_and!; [done| |done].
    rewrite (Hcut _ _ Es). by rewrite H1.
Qed.

Lemma runes_concat s : concat_bytes (runes s) = s.
Proof. destruct (runes_cut (runes s) s []) as (E & _ & _); [by rewrite app_nil_r|]. cbn in E. by rewrite sapp_nil_r in E. Qed.

(** ** Trimming *)

(** No space at either end. *)
Definition trimmed (l : list (rune * string)) : Prop := drop_space l = l /\ drop_space (rev l) = rev l.

Lemma drop_space_suffix l : exists pre, l = pre ++ drop_space l.
Proof.
  induction l as [|[r b] l [pre IH]]; [by exists []|]. cbn [drop_space]. destruct (IsSpace r); [|by exists []].
  exists ((r, b) :: pre). by rewrite IH at 1.
Qed.

Lemma drop_space_idem l : drop_space (drop_space l) = drop_space l.
Proof. induction l as [|[r b] l IH]; [done|]. cbn [drop_space]. destruct (IsSpace r) eqn:E; [done|]. cbn [drop_space]. by rewrite E. Qed.

Lemma drop_space_prefix l1 l2 : l1 <> [] -> drop_space (l1 ++ l2) = l1 ++ l2 -> drop_space l1 = l1.
Proof.
  destruct l1 as [|[r b] l1]; [done|]. intros _. cbn [app drop_space]. destruct (IsSpace r); [|done]. intros H. exfalso.
  destruct (drop_space_suffix (l1 ++ l2)) as [pre E]. apply (f_equal length) in E. rewrite H in E. rewrite !length_app in E. cbn in E. rewrite length_app in E. lia.
Qed.

Lemma TrimSpace_runes s : exists pre post, runes s = pre ++ runes (TrimSpace s) ++ post /\ trimmed (runes (TrimSpace s)).
Proof.
  unfold TrimSpace. destruct (drop_space_suffix (runes s)) as [pre E1]. set (m := drop_space (runes s)) in *.
  destruct (drop_space_suffix (rev m)) as [post E2]. set (n := drop_space (rev m)) in *.
  assert (Em : m = rev n ++ rev post) by (rewrite <-rev_app_distr, <-E2; by rewrite rev_involutive).
  assert (Hn : runes (concat_bytes (rev n)) = rev n).
  { rewrite Em in E1. destruct (runes_cut pre s _ E1) as (_ & _ & H). destruct (runes_cut (rev n) _ _ H) as (_ & H' & _). exact H'. }
  exists pre, (rev post). rewrite Hn. split; [by rewrite E1, Em at 1|]. split.
  - destruct (rev n) as [|x l] eqn:En; [done|]. apply (drop_space_prefix _ (rev post)); [done|]. rewrite <-Em. apply drop_space_idem.
  - rewrite rev_involutive. apply drop_space_idem.
Qed.

Lemma trimmed_TrimSpace s : trimmed (runes s) -> TrimSpace s = s.
Proof. intros [H1 H2]. unfold TrimSpace. rewrite H1, H2, rev_involutive. apply runes_concat. Qed.

Lemma TrimSpace_idem s : TrimSpace (TrimSpace s) = TrimSpace s.
Proof. destruct (TrimSpace_runes s) as (? & ? & _ & H). by apply trimmed_TrimSpace. Qed.

(** ** ASCII strings *)

Definition ascii_byte (a : ascii) : bool := (N_of_ascii a <? 128)%N.

Lemma runes_of_ascii s : forallb ascii_byte (String.list_ascii_of_string s) = true ->
  runes s = map (fun a => (N_of_ascii a, String a EmptyString)) (String.list_ascii_of_string s).
Proof.
  induction s as [|a s IH]; [done|]. cbn [String.list_ascii_of_string forallb map]. intros H. apply andb_true_iff in H as [Ha Hs].
  unfold ascii_byte in Ha. cbn [runes]. by rewrite Ha, IH.
Qed.

Lemma lor_ge_l x y : (x <= N.lor x y)%N.
Proof.
  rewrite N.lor_comm. apply N.ldiff_le. apply N.bits_inj_iff. intros k. rewrite N.ldiff_spec, N.lor_spec, N.bits_0.
  by destruct (N.testbit x k), (N.testbit y k).
Qed.
Lemma lor_ge_r x y : (y <= N.lor x y)%N.
Proof. rewrite N.lor_comm. apply lor_ge_l. Qed.

(** What holds of every byte is decided by trying them all. *)
Lemma all_bytes (f : ascii -> bool) : forallb (fun n => f (ascii_of_nat n)) (seq 0 256) = true -> forall a, f a = true.
Proof.
  intros H a. rewrite List.forallb_forall in H. rewrite <-(ascii_nat_embedding a). apply H. apply in_seq. pose proof (nat_ascii_bounded a). lia.
Qed.

Lemma two_bytes a : implb (byte_in 194 223 a) (128 <=? N.shiftl (N.land (N_of_ascii a) 31) 6)%N = true.
Proof. revert a. apply all_bytes. vm_compute. reflexivity. Qed.
Lemma three_bytes a : implb (byte_in 224 239 a && negb (N_of_ascii a =? 224)%N) (128 <=? N.shiftl (N.land (N_of_ascii a) 15) 12)%N = true.
Proof. revert a. apply all_bytes. vm_compute. reflexivity. Qed.
Lemma three_bytes_second b : implb (byte_in 160 191 b) (128 <=? N.shiftl (cont_bits b) 6)%N = true.
Proof. revert b. apply all_bytes. vm_compute. reflexivity. Qed.
Lemma four_bytes a : implb (byte_in 240 244 a && negb (N_of_ascii a =? 240)%N) (128 <=? N.shiftl (N.land (N_of_ascii a) 7) 18)%N = true.
Proof. revert a. apply all_bytes. vm_compute. reflexivity. Qed.
Lemma four_bytes_second b : implb (byte_in 144 191 b) (128 <=? N.shiftl (cont_bits b) 12)%N = true.
Proof. revert b. apply all_bytes. vm_compute. reflexivity. Qed.

(** Only ASCII bytes decode to ASCII runes. *)
Lemma runes_first_ascii a s : match runes (String a s) with (r, _) :: _ => (r < 128)%N -> ascii_byte a = true | [] => True end.
Proof.
  unfold ascii_byte. cbn [runes]. destruct (N_of_ascii a <? 128)%N eqn:E0; [done|]. assert (Hb : ~ (RuneError < 128)%N) by done.
  destruct (byte_in 194 223 a) eqn:E1.
  { destruct s as [|b s2]; [done|]. destruct (byte_in 128 191 b); [|done]. intros H. exfalso.
    pose proof (two_bytes a) as Hx. rewrite E1 in Hx. apply N.leb_le in Hx. pose proof (lor_ge_l (N.shiftl (N.land (N_of_ascii a) 31) 6) (cont_bits b)). lia. }
  destruct (byte_in 224 239 a) eqn:E2.
  { destruct s as [|b [|c s3]]; [done|done|]. cbv zeta. destruct (_ && _) eqn:E3; [|done]. intros H. exfalso.
    apply andb_true_iff in E3 as [E3 _].
    pose proof (lor_ge_l (N.shiftl (N.land (N_of_ascii a) 15) 12) (N.lor (N.shiftl (cont_bits b) 6) (cont_bits c))).
    pose proof (lor_ge_r (N.shiftl (N.land (N_of_ascii a) 15) 12) (N.lor (N.shiftl (cont_bits b) 6) (cont_bits c))).
    pose proof (lor_ge_l (N.shiftl (cont_bits b) 6) (cont_bits c)).
    pose proof (three_bytes a) as Hx. rewrite E2 in Hx. destruct (N_of_ascii a =? 224)%N eqn:Ea; [|apply N.leb_le in Hx; lia].
    apply N.eqb_eq in Ea. rewrite Ea in E3. change (byte_in 160 191 b = true) in E3.
    pose proof (three_bytes_second b) as Hy. rewrite E3 in Hy. apply N.leb_le in Hy. lia. }
  destruct (byte_in 240 244 a) eqn:E3; [|done].
  destruct s as [|b [|c [|d s4]]]; [done..|]. cbv zeta. destruct (_ && _) eqn:E4; [|done]. intros H. exfalso.
  apply andb_true_iff in E4 as [E4 _]. apply andb_true_iff in E4 as [E4 _].
  set (low := N.lor (N.shiftl (cont_bits c) 6) (cont_bits d)) in *.
  pose proof (lor_ge_l (N.shiftl (N.land (N_of_ascii a) 7) 18) (N.lor (N.shiftl (cont_bits b) 12) low)).
  pose proof (lor_ge_r (N.shiftl (N.land (N_of_ascii a) 7) 18) (N.lor (N.shiftl (cont_bits b) 12) low)).
  pose proof (lor_ge_l (N.shiftl (cont_bits b) 12) low).
  pose proof (four_bytes a) as Hx. rewrite E3 in Hx. destruct (N_of_ascii a =? 240)%N eqn:Ea; [|apply N.leb_le in Hx; lia].
  apply N.eqb_eq in Ea. rewrite Ea in E4. change (byte_in 144 191 b = true) in E4.
  pose proof (four_bytes_second b) as Hy. rewrite E4 in Hy. apply N.leb_le in Hy. lia.
Qed.

(** A string all of whose runes are ASCII has only ASCII bytes. *)
Lemma runes_ascii_inv s : forallb (fun '(r, _) => (r <? 128)%N) (runes s) = true -> forallb ascii_byte (String.list_ascii_of_string s) = true.
Proof.
  induction s as [|a s IH]; [done|]. intros Hf. pose proof (runes_first_ascii a s) as Ha.
  assert (Ea : ascii_byte a = true).
  { destruct (runes_first a s) as (r & b & rest & _ & _ & E & _). rewrite E in Hf, Ha. cbn in Hf. apply andb_true_iff in Hf as [Hr _]. apply Ha. by apply N.ltb_lt. }
  cbn [String.list_ascii_of_string forallb]. rewrite Ea. apply IH. unfold ascii_byte in Ea. cbn [runes] in Hf. rewrite Ea in Hf.
  cbn [forallb] in Hf. by apply andb_true_iff in Hf as [_ Hf].
Qed.

(** ** Splitting at an ASCII byte *)

Lemma byte_in_high lo hi c : (128 <= lo)%N -> byte_in lo hi c = true -> ascii_byte c = false.
Proof. unfold byte_in, ascii_byte. intros Hlo H. apply andb_true_iff in H as [H _]. apply N.leb_le in H. apply N.ltb_ge. lia. Qed.

(** After its first byte a rune has no ASCII byte. *)
Lemma runes_first_tail a s r b l : runes (String a s) = (r, b) :: l ->
  exists bs, b = String a bs /\ forallb (fun c => negb (ascii_byte c)) (String.list_ascii_of_string bs) = true.
Proof.
  cbn [runes]. cbv zeta. intros H. repeat case_in H; injection H as _ <- _; eexists; (split; [reflexivity|]); try reflexivity;
    cbn [String.list_ascii_of_string forallb];
    repeat match goal with Hb : (_ && _) = true |- _ => apply andb_true_iff in Hb as [? ?] end;
    repeat match goal with |- context [ascii_byte ?c] => 
      let Hc := fresh in assert (Hc : ascii_byte c = false) by (eapply byte_in_high; [|eassumption]; lia); rewrite Hc; clear Hc end; reflexivity.
Qed.

Lemma runes_app_ascii a c b : ascii_byte c = true -> runes (a +:+ String c b) = runes a ++ runes (String c b).
Proof.
  intros Hc. remember (String.length a) as n eqn:Hn. assert (Hle : (String.length a <= n)%nat) by lia. clear Hn. revert a Hle.
  induction n as [|n IH]; intros [|x a] Hle; try done; [cbn in Hle; lia|].
  destruct (runes_first x (a +:+ String c b)) as (r & y & rest & E & _ & Hr & Hcut).
  destruct (runes_first_tail _ _ _ _ _ Hr) as (bs & -> & Hbs). cbn [String.append] in E. injection E as E.
  (** The first rune ends within [a]. *)
  assert (Ht : exists t, a = bs +:+ t /\ rest = t +:+ String c b).
  { clear -E Hbs Hc. revert a E. induction bs as [|z bs IHb]; intros a E; [by exists a|].
    cbn in Hbs. apply andb_true_iff in Hbs as [Hz Hbs]. destruct a as [|z' a].
    - injection E as -> _. by rewrite Hc in Hz.
    - injection E as -> E. destruct (IHb Hbs a E) as (t & -> & ->). by exists t. }
  destruct Ht as (t & -> & ->). change (String x (bs +:+ t)) with (String x bs +:+ t). rewrite (Hcut t _ eq_refl).
  change ((String x bs +:+ t) +:+ String c b) with (String x ((bs +:+ t) +:+ String c b)). rewrite Hr. cbn [app].
  rewrite IH; [done|]. cbn in Hle. rewrite sapp_length in Hle. lia.
Qed.

Lemma drop_space_upto l x m : IsSpace x.1 = false -> drop_space (l ++ x :: m) = drop_space l ++ x :: m.
Proof.
  intros Hx. induction l as [|[r b] l IH]; cbn [app drop_space]; [|by destruct (IsSpace r)].
  destruct x as [r b]. cbn in Hx. by rewrite Hx.
Qed.

Lemma contains_byte_split c s : contains_byte c s = true -> exists a b, s = a +:+ String c b.
Proof.
  induction s as [|x s IH]; [done|]. cbn [contains_byte]. intros [E|(a & b & ->)%IH]%orb_true_iff.
  - apply Ascii.eqb_eq in E as ->. by exists EmptyString, s.
  - by exists (String x a), b.
Qed.

(** Trimming keeps every byte that is not white space. *)
Lemma TrimSpace_keeps c s : ascii_byte c = true -> IsSpace (N_of_ascii c) = false -> contains_byte c s = true -> contains_byte c (TrimSpace s) = true.
Proof.
  intros Hc Hsp (a & b & ->)%contains_byte_split.
  assert (E : runes (a +:+ String c b) = runes a ++ (N_of_ascii c, String c EmptyString) :: runes b).
  { rewrite runes_app_ascii by done. f_equal. unfold ascii_byte in Hc. cbn [runes]. by rewrite Hc. }
  unfold TrimSpace. rewrite E, drop_space_upto, rev_app_distr by done. cbn [rev]. rewrite <-app_assoc. cbn [app].
  rewrite drop_space_upto, rev_app_distr by done. cbn [rev]. rewrite <-app_assoc, concat_bytes_app, contains_byte_app. cbn [app concat_bytes fold_right].
  rewrite contains_byte_app. cbn [contains_byte]. rewrite Ascii.eqb_refl. cbn [orb]. by rewrite orb_true_r.
Qed.

Lemma has_control_slash a b : has_control (a +:+ String slash b) = has_control a || has_control b.
Proof. unfold has_control. rewrite runes_app_ascii by done. rewrite existsb_app. f_equal. Qed.

Lemma has_control_Join ws : ws <> [] -> has_control (Join "/" ws) = existsb has_control ws.
Proof.
  induction ws as [|w ws IH]; [done|]. intros _. destruct ws as [|w' ws]; [cbn; by rewrite orb_false_r|].
  change (Join "/" (w :: w' :: ws)) with (w +:+ String slash (Join "/" (w' :: ws))). rewrite has_control_slash, IH by done. done.
Qed.

Lemma Join_Split s : Join "/" (Split slash s) = s.
Proof.
  induction s as [|a s IH]; [done|]. cbn [Split]. pose proof (Split_not_nil slash s) as Hn. destruct (Ascii.eqb a slash) eqn:E.
  - apply Ascii.eqb_eq in E as ->. destruct (Split slash s) as [|w ws]; [done|].
    change (Join "/" (EmptyString :: w :: ws)) with (String slash (Join "/" (w :: ws))). by rewrite IH.
  - destruct (Split slash s) as [|w ws]; [done|]. destruct ws as [|w2 ws]; cbn [Join] in *; [by rewrite IH|]. change (String a w +:+ String slash (Join "/" (w2 :: ws))) with (String a (w +:+ String slash (Join "/" (w2 :: ws)))). by rewrite <-IH.
Qed.

Lemma has_control_Split s : has_control s = existsb has_control (Split slash s).
Proof. rewrite <-has_control_Join by apply Split_not_nil. f_equal. symmetry. apply Join_Split. Qed.

(** Bytes of an ASCII string in front. *)
Lemma runes_ascii_app p t : forallb ascii_byte (String.list_ascii_of_string p) = true -> runes (p +:+ t) = runes p ++ runes t.
Proof.
  induction p as [|a p IH]; [done|]. cbn [String.list_ascii_of_string forallb]. intros H. apply andb_true_iff in H as [Ha Hp].
  change (String a p +:+ t) with (String a (p +:+ t)). cbn [runes]. unfold ascii_byte in Ha. rewrite Ha. by rewrite IH.
Qed.

Lemma drop_space_app l1 l2 : l1 <> [] -> drop_space l1 = l1 -> drop_space (l1 ++ l2) = l1 ++ l2.
Proof.
  destruct l1 as [|[r b] l1]; [done|]. intros _. cbn [app drop_space]. destruct (IsSpace r); [|done]. intros H. exfalso.
  destruct (drop_space_suffix l1) as [pre E]. apply (f_equal length) in E, H. rewrite length_app in E. cbn in H. lia.
Qed.

(** A label in front of a trimmed text. *)
Lemma TrimSpace_label p t : forallb ascii_byte (String.list_ascii_of_string p) = true -> runes p <> [] -> drop_space (runes p) = runes p ->
  t <> EmptyString -> TrimSpace t = t -> TrimSpace (p +:+ t) = p +:+ t.
Proof.
  intros Ha Hne Hp Ht Htrim. destruct (TrimSpace_runes t) as (_ & _ & _ & H1 & H2). rewrite Htrim in H1, H2.
  assert (runes t <> []) by (intros E; apply Ht; rewrite <-(runes_concat t), E; done).
  apply trimmed_TrimSpace. rewrite runes_ascii_app by done. split; [by apply drop_space_app|]. rewrite rev_app_distr. apply drop_space_app; [|done].
  intros E. apply (f_equal length) in E. rewrite length_rev in E. by destruct (runes t).
Qed.

(** An ASCII byte of a string is one of its runes. *)
Lemma ascii_in_runes c s : ascii_byte c = true -> contains_byte c s = true -> exists b, In (N_of_ascii c, b) (runes s).
Proof.
  intros Hc Hs. assert (exists a t, s = a +:+ String c t) as (a & t & ->).
  { induction s as [|x s IH]; [done|]. cbn in Hs. destruct (Ascii.eqb_spec x c) as [->|]; [by exists EmptyString, s|].
    destruct (IH Hs) as (a & t & ->). by exists (String x a), t. }
  rewrite runes_app_ascii by done. exists (String c EmptyString). apply in_app_iff. right. cbn [runes]. unfold ascii_byte in Hc. rewrite Hc. by left.
Qed.
