(* ===== verification/GoFormat.v ===== *)
(** * Decimal and hexadecimal formats

    [fmt.Sprintf] with %0*d, [strconv.FormatUint] and [strconv.ParseUint] in base 10,
    [utf8.ValidString], and the tests for lower-case hexadecimal text that the stores share. *)

From Stdlib Require Import Ascii.
From S2P Require Import Prelude GoStrings GoPath.

(** ** Decimal *)

Definition digit (d : Z) : ascii := ascii_of_N (Z.to_N (48 + d)).
Definition is_digit (a : ascii) : bool := byte_in 48 57 a.
Definition digit_value (a : ascii) : Z := Z.of_N (N_of_ascii a) - 48.

(** %0[width]d of a number below 10^[width]. *)
Fixpoint padded (width : nat) (z : Z) : string :=
  match width with
  | O => ""
  | S width' => padded width' (z / 10) +:+ String (digit (z mod 10)) ""
  end.

Definition value_of (s : string) : Z :=
  fold_left (fun acc a => acc * 10 + digit_value a) (String.list_ascii_of_string s) 0.

(** [strconv.ParseUint(s, 10, 64)], by its value. *)
Definition ParseUint (s : string) : option Z :=
  if String.eqb s "" || negb (forallb is_digit (String.list_ascii_of_string s)) then None
  else if maxUint64 <? value_of s then None else Some (value_of s).

Lemma list_ascii_app s t :
  String.list_ascii_of_string (s +:+ t) = String.list_ascii_of_string s ++ String.list_ascii_of_string t.
Proof. induction s as [|a s IH]; simpl; [done|by rewrite IH]. Qed.

Lemma list_ascii_inj s t : String.list_ascii_of_string s = String.list_ascii_of_string t -> s = t.
Proof. revert t. induction s as [|a s IH]; intros [|b t]; simpl; intros [=]; [done|]. subst. by f_equal; apply IH. Qed.

Lemma digit_ok d : 0 <= d < 10 -> is_digit (digit d) = true /\ digit_value (digit d) = d.
Proof.
  intros H. unfold digit, is_digit, digit_value, byte_in.
  rewrite N_ascii_embedding by lia. split; [|lia].
  apply andb_true_iff. split; apply N.leb_le; lia.
Qed.

Lemma digit_of_value a : is_digit a = true -> 0 <= digit_value a < 10 /\ digit (digit_value a) = a.
Proof.
  unfold is_digit, byte_in, digit, digit_value. intros H. apply andb_true_iff in H as [H1 H2].
  apply N.leb_le in H1, H2. split; [lia|].
  replace (48 + (Z.of_N (N_of_ascii a) - 48)) with (Z.of_N (N_of_ascii a)) by lia.
  rewrite N2Z.id. apply ascii_N_embedding.
Qed.

Lemma value_snoc s a : value_of (s +:+ String a "") = value_of s * 10 + digit_value a.
Proof. unfold value_of. by rewrite list_ascii_app, fold_left_app. Qed.

Lemma padded_length w z : String.length (padded w z) = w.
Proof. revert z. induction w as [|w IH]; intros z; simpl; [done|]. rewrite sapp_length, IH. simpl. lia. Qed.

Lemma padded_digits w z : forallb is_digit (String.list_ascii_of_string (padded w z)) = true.
Proof.
  revert z. induction w as [|w IH]; intros z; simpl; [done|].
  rewrite list_ascii_app, forallb_app, IH. simpl. rewrite (proj1 (digit_ok (z mod 10) (Z.mod_pos_bound z 10 ltac:(lia)))). done.
Qed.

Lemma padded_value w z : 0 <= z < 10 ^ Z.of_nat w -> value_of (padded w z) = z.
Proof.
  revert z. induction w as [|w IH]; intros z Hz.
  - simpl in *. unfold value_of. simpl. lia.
  - cbn [padded]. rewrite value_snoc, IH.
    + rewrite (proj2 (digit_ok (z mod 10) (Z.mod_pos_bound z 10 ltac:(lia)))). pose proof (Z.div_mod z 10). lia.
    + rewrite Nat2Z.inj_succ, Z.pow_succ_r in Hz by lia. split; [apply Z.div_pos; lia|apply Z.div_lt_upper_bound; lia].
Qed.

(** A string of [w] digits is the padded form of its value. *)
Lemma padded_of_digits w s : String.length s = w -> forallb is_digit (String.list_ascii_of_string s) = true ->
  padded w (value_of s) = s /\ 0 <= value_of s < 10 ^ Z.of_nat w.
Proof.
  revert s. induction w as [|w IH]; intros s Hl Hd.
  { destruct s; [|done]. split; [done|]. unfold value_of. simpl. lia. }
  assert (exists t a, s = t +:+ String a "") as (t & a & ->).
  { clear -Hl. revert w Hl. induction s as [|b s IHs]; intros w Hl; [done|].
    destruct s as [|c s]; [by exists "", b|]. destruct w as [|w]; [done|].
    destruct (IHs w) as (t & a & E); [simpl in *; lia|]. exists (String b t), a. by rewrite E. }
  rewrite sapp_length in Hl. simpl in Hl. rewrite list_ascii_app, forallb_app in Hd. simpl in Hd.
  apply andb_true_iff in Hd as [Hd Ha]. rewrite andb_true_r in Ha.
  destruct (IH t) as [Ht Hr]; [lia|done|]. destruct (digit_of_value a Ha) as [Hv Hda].
  rewrite value_snoc. cbn [padded].
  assert ((value_of t * 10 + digit_value a) / 10 = value_of t) as ->.
  { symmetry. apply (Z.div_unique_pos _ 10 _ (digit_value a)); lia. }
  assert ((value_of t * 10 + digit_value a) mod 10 = digit_value a) as ->.
  { symmetry. apply (Z.mod_unique_pos _ 10 (value_of t)); lia. }
  rewrite Ht, Hda. split; [done|]. rewrite Nat2Z.inj_succ, Z.pow_succ_r by lia. lia.
Qed.

Lemma ParseUint_padded w z : (0 < w)%nat -> 0 <= z < 10 ^ Z.of_nat w -> z <= maxUint64 -> ParseUint (padded w z) = Some z.
Proof.
  intros Hw Hz Hm. unfold ParseUint. rewrite padded_digits, padded_value by done.
  assert (String.eqb (padded w z) "" = false) as ->.
  { apply String.eqb_neq. intros E. pose proof (padded_length w z) as Hl. rewrite E in Hl. simpl in Hl. lia. }
  simpl. assert ((maxUint64 <? z) = false) as -> by (apply Z.ltb_ge; lia). done.
Qed.

Lemma ParseUint_range s z : ParseUint s = Some z -> 0 <= z <= maxUint64.
Proof.
  unfold ParseUint. intros H. destruct (String.eqb s "" || _) eqn:E; [done|]. b2p.
  destruct (maxUint64 <? value_of s) eqn:Em; [done|]. injection H as <-. apply Z.ltb_ge in Em.
  match goal with H : forallb _ _ = true |- _ => destruct (padded_of_digits _ s eq_refl H) as [_ ?] end. lia.
Qed.

(** ** Text *)

(** [utf8.ValidString] *)
Definition ValidString (s : string) : bool :=
  forallb (fun '(r, b) => negb ((r =? RuneError)%N && Nat.eqb (String.length b) 1)) (runes s).

Definition hex_byte (a : ascii) : bool := byte_in 48 57 a || byte_in 97 102 a.

(** The [validLowerHex] of the stores: all the runes it accepts are bytes. *)
Definition validLowerHex (value : string) (length : Z) : bool :=
  if negb (len value =? length) then false
  else forallb (fun '(r, _) => ((48 <=? r) && (r <=? 57) || (97 <=? r) && (r <=? 102))%N) (runes value).

Lemma hex_digit_range n : (n < 16)%N -> let c := N_of_ascii (ascii_of_N (if n <? 10 then 48 + n else 87 + n)%N) in
  (((48 <=? c) && (c <=? 57) || (97 <=? c) && (c <=? 102)) = true /\ c < 128)%N.
Proof.
  intros Hn. simpl. destruct (N.ltb_spec n 10); rewrite N_ascii_embedding by lia; (split; [|lia]).
  - apply orb_true_iff. left. apply andb_true_iff. split; apply N.leb_le; lia.
  - apply orb_true_iff. right. apply andb_true_iff. split; apply N.leb_le; lia.
Qed.
