(* ===== verification/GoTime.v ===== *)
(** * Calendar functions of Go's [time] package

    An instant is its nanoseconds since the Unix epoch; the calendar is the proleptic Gregorian calendar in
    UTC, as [Time.Date], [time.Date], [Time.AddDate] and [Time.Format] compute it. *)

From S2P Require Import Prelude.

Definition day_ns : Z := 86400 * 1000000000.
(** [time.Time{}]: the first of January of year 1. *)
Definition zero_instant : Z := -62135596800 * 1000000000.

(** Days since the first of January of year 1. *)
Definition day_of (t : Z) : Z := (t - zero_instant) / day_ns.

Definition is_leap (y : Z) : bool := (y mod 4 =? 0) && (negb (y mod 100 =? 0) || (y mod 400 =? 0)).
Definition days_before_year (y : Z) : Z := 365 * (y - 1) + (y - 1) / 4 - (y - 1) / 100 + (y - 1) / 400.

(** [daysBefore], with the leap day. *)
Definition days_before_month (leap : bool) (m : Z) : Z :=
  nth (Z.to_nat (m - 1)) [0; 31; 59; 90; 120; 151; 181; 212; 243; 273; 304; 334] 365 + (if leap && (2 <? m) then 1 else 0).

(** The year and the day in the year. *)
Definition year_day (d : Z) : Z * Z :=
  let n400 := d / 146097 in
  let d := d mod 146097 in
  let n100 := Z.min 3 (d / 36524) in
  let d := d - 36524 * n100 in
  let n4 := d / 1461 in
  let d := d mod 1461 in
  let n1 := Z.min 3 (d / 365) in
  (400 * n400 + 100 * n100 + 4 * n4 + n1 + 1, d - 365 * n1).

Definition month_of (leap : bool) (yday : Z) : Z :=
  foldr (fun m n => (if days_before_month leap m <=? yday then 1 else 0) + n) 0 [1; 2; 3; 4; 5; 6; 7; 8; 9; 10; 11; 12].

(** [Time.Date] *)
Definition civil (t : Z) : Z * Z * Z :=
  let '(y, yday) := year_day (day_of t) in
  let m := month_of (is_leap y) yday in
  (y, m, yday - days_before_month (is_leap y) m + 1).

(** [time.Date] at a time of the day: months and days outside of their range overflow into the next unit. *)
Definition Date (y m d clock : Z) : Z :=
  let y := y + (m - 1) / 12 in
  let m := (m - 1) mod 12 + 1 in
  zero_instant + (days_before_year y + days_before_month (is_leap y) m + d - 1) * day_ns + clock.

Definition AddDate (t years months days : Z) : Z :=
  let '(y, m, d) := civil t in
  Date (y + years) (m + months) (d + days) ((t - zero_instant) mod day_ns).

Lemma year_day_days d : let '(y, yday) := year_day d in days_before_year y + yday = d /\ 0 <= yday.
Proof.
  unfold year_day, days_before_year. cbv zeta.
  set (a := d / 146097). set (r := d mod 146097). set (b := Z.min 3 (r / 36524)).
  set (r' := r - 36524 * b). set (c := r' / 1461). set (q := r' mod 1461). set (e := Z.min 3 (q / 365)).
  assert (Hd : d = 146097 * a + r /\ 0 <= r < 146097) by (unfold a, r; split; [apply Z.div_mod|apply Z.mod_pos_bound]; lia).
  assert (Hb : 0 <= b <= 3 /\ 0 <= r' <= 36524 /\ r = 36524 * b + r').
  { pose proof (Z.div_mod r 36524 ltac:(lia)). pose proof (Z.mod_pos_bound r 36524 ltac:(lia)). unfold r', b. lia. }
  assert (Hc : r' = 1461 * c + q /\ 0 <= q < 1461) by (unfold c, q; split; [apply Z.div_mod|apply Z.mod_pos_bound]; lia).
  assert (Hc' : 0 <= c <= 24) by lia.
  assert (He : 0 <= e <= 3 /\ 365 * e <= q).
  { pose proof (Z.div_mod q 365 ltac:(lia)). pose proof (Z.mod_pos_bound q 365 ltac:(lia)). unfold e. lia. }
  clearbody a r b r' c q e.
  replace (400 * a + 100 * b + 4 * c + e + 1 - 1) with (400 * a + 100 * b + 4 * c + e) by lia.
  rewrite <-(Z.div_unique (400 * a + 100 * b + 4 * c + e) 4 (100 * a + 25 * b + c) e) by lia.
  rewrite <-(Z.div_unique (400 * a + 100 * b + 4 * c + e) 100 (4 * a + b) (4 * c + e)) by lia.
  rewrite <-(Z.div_unique (400 * a + 100 * b + 4 * c + e) 400 a (100 * b + 4 * c + e)) by lia. lia.
Qed.

Lemma month_of_range leap yday : 0 <= yday -> 1 <= month_of leap yday <= 12.
Proof.
  intros Hy. unfold month_of.
  assert (Hc : forall l, 0 <= foldr (fun m n => (if days_before_month leap m <=? yday then 1 else 0) + n) 0 l <= Z.of_nat (length l)).
  { induction l as [|m l IH]; [done|]. cbn [foldr length]. destruct (_ <=? _); lia. }
  pose proof (Hc [2; 3; 4; 5; 6; 7; 8; 9; 10; 11; 12]) as Hr. cbn [length] in Hr.
  change (foldr ?f 0 (1 :: ?l)) with (f 1 (foldr f 0 l)). cbv beta.
  assert (days_before_month leap 1 = 0) as -> by (unfold days_before_month; by rewrite andb_false_r).
  destruct (Z.leb_spec 0 yday); lia.
Qed.

(** [time.Date] gives back the instant of a civil date, and counts days on from it. *)
Lemma AddDate_days t n : AddDate t 0 0 n = t + n * day_ns.
Proof.
  unfold AddDate, civil. pose proof (year_day_days (day_of t)) as H. destruct (year_day (day_of t)) as [y yday]. destruct H as [Hd Hy].
  cbv zeta. unfold Date. rewrite !Z.add_0_r. pose proof (month_of_range (is_leap y) yday Hy) as Hm.
  set (m := month_of (is_leap y) yday) in *. clearbody m.
  rewrite (Z.div_small (m - 1) 12), (Z.mod_small (m - 1) 12) by lia. rewrite Z.add_0_r.
  replace (m - 1 + 1) with m by lia. pose proof (Z.div_mod (t - zero_instant) day_ns ltac:(done)) as E.
  fold (day_of t) in E. lia.
Qed.

Example civil_epoch : civil 0 = (1970, 1, 1).
Proof. reflexivity. Qed.
Example civil_leap : civil (1709164800 * 1000000000 + 5) = (2024, 2, 29).
Proof. reflexivity. Qed.
Example add_year : AddDate (1709164800 * 1000000000 + 5) (-1) 0 0 = 1677628800 * 1000000000 + 5.
Proof. reflexivity. Qed.
