(* ===== verification/MonoTime.v ===== *)
(** * Instants with monotonic clock readings

    [time.Time] as package [time] computes with it: what [time.Now] returns carries a reading of the monotonic
    clock besides the wall clock, and comparisons and differences of two such instants use only these readings.
    The wall clock is in nanoseconds since the Unix epoch, as in [GoTime]; the location of an instant, which
    its methods used here do not look at, is not modelled, except that [UTC] drops the monotonic reading. *)

From S2P Require Import Prelude GoTime.

Module MonoTime.

Record Time := { wall : Z; mono : option Z }.
#[export] Instance Time_eq_dec : EqDecision Time.
Proof. solve_decision. Defined.

(** An instant that was computed or parsed. *)
Definition at_wall (w : Z) : Time := {| wall := w; mono := None |}.
Definition zero_time : Time := at_wall zero_instant.
Definition IsZero (t : Time) : bool := wall t =? zero_instant.

(** On which clock two instants are compared. *)
Definition on_clocks (t u : Time) : Z * Z :=
  match mono t, mono u with
  | Some x, Some y => (x, y)
  | _, _ => (wall t, wall u)
  end.
Definition After (t u : Time) : bool := let '(x, y) := on_clocks t u in y <? x.
Definition Before (t u : Time) : bool := let '(x, y) := on_clocks t u in x <? y.
Definition Equal (t u : Time) : bool := let '(x, y) := on_clocks t u in x =? y.

(** [Sub]: the difference, or the nearest [Duration]. *)
Definition Sub (t u : Time) : Z := let '(x, y) := on_clocks t u in Z.max minInt64 (Z.min maxInt64 (x - y)).

(** [Add]: the monotonic reading is dropped when it overflows, or when the wall clock leaves the years 1885 to
    2157 that fit beside it. *)
Definition minWall : Z := -2682288000 * 1000000000.
Definition keeps_mono (w : Z) : bool := (minWall <=? w) && (w <? minWall + 2 ^ 33 * 1000000000).
Definition Add (t : Time) (d : Z) : Time :=
  {| wall := wall t + d;
     mono := match mono t with
             | Some x => if keeps_mono (wall t + d) && (minInt64 <=? x + d) && (x + d <=? maxInt64) then Some (x + d) else None
             | None => None
             end |}.

Definition UTC (t : Time) : Time := at_wall (wall t).
(** [Truncate(time.Second)] *)
Definition second_ns : Z := 1000000000.
Definition Truncate (t : Time) : Time := at_wall (wall t - wall t mod second_ns).

(** ** Clocks that agree

    A process whose wall clock is not set while it runs: the two readings of an instant differ by [c]. *)

Definition agrees (c : Z) (t : Time) : Prop := forall x, mono t = Some x -> wall t = x + c.

Lemma agrees_at_wall c w : agrees c (at_wall w).
Proof. by intros x. Qed.
Lemma agrees_Add c t d : agrees c t -> agrees c (Add t d).
Proof. intros H x. unfold Add. cbn [mono wall]. destruct (mono t) as [y|] eqn:E; [|done]. destruct (_ && _); [|done]. intros [= <-]. rewrite (H y E). lia. Qed.

Section Agree.
Context (c : Z) (t u : Time) (Ht : agrees c t) (Hu : agrees c u).

Lemma After_wall : After t u = (wall u <? wall t).
Proof.
  unfold After, on_clocks. destruct (mono t) as [x|] eqn:Ex; [|done]. destruct (mono u) as [y|] eqn:Ey; [|done].
  rewrite (Ht x Ex), (Hu y Ey). apply Bool.eq_iff_eq_true. rewrite !Z.ltb_lt. lia.
Qed.
Lemma Before_wall : Before t u = (wall t <? wall u).
Proof.
  unfold Before, on_clocks. destruct (mono t) as [x|] eqn:Ex; [|done]. destruct (mono u) as [y|] eqn:Ey; [|done].
  rewrite (Ht x Ex), (Hu y Ey). apply Bool.eq_iff_eq_true. rewrite !Z.ltb_lt. lia.
Qed.
End Agree.

(** An instant without a monotonic reading is compared by the wall clock. *)
Lemma After_at_wall w u : After (at_wall w) u = (wall u <? w).
Proof. done. Qed.
Lemma Sub_pos t u : After t u = true -> 0 < Sub t u.
Proof. unfold After, Sub. destruct (on_clocks t u) as [x y]. intros H. b2p. unfold minInt64, maxInt64. lia. Qed.

Lemma Truncate_le t : wall (Truncate t) <= wall t < wall (Truncate t) + second_ns.
Proof. unfold Truncate, second_ns. cbn. pose proof (Z.mod_pos_bound (wall t) 1000000000 ltac:(lia)). lia. Qed.
Lemma Truncate_Truncate t : Truncate (Truncate t) = Truncate t.
Proof.
  unfold Truncate. cbn [wall at_wall]. f_equal. rewrite (Z.mod_eq (wall t)) by done.
  replace (wall t - (wall t - second_ns * (wall t / second_ns))) with (wall t / second_ns * second_ns) by lia.
  rewrite Z.mod_mul by done. lia.
Qed.
End MonoTime.
