(* ===== verification/Sha256.v ===== *)
(** * SHA-256 (FIPS 180-4), the function behind crypto/sha256

    The hash the program uses for its deletion tokens, on byte strings, executable; the example at
    the end is the standard test vector.  A [hash.Hash] is the bytes written to it so far. *)

From Stdlib Require Import Ascii.
From S2P Require Import Prelude GoStrings GoPath.

Module Sha256.

Definition Size : nat := 32.

Definition add32 (x y : N) : N := N.land (x + y) 4294967295.
Definition rotr (n x : N) : N := N.lor (N.shiftr x n) (N.land (N.shiftl x (32 - n)) 4294967295).

Definition round_constants : list N := [
  1116352408; 1899447441; 3049323471; 3921009573; 961987163; 1508970993; 2453635748; 2870763221;
  3624381080; 310598401; 607225278; 1426881987; 1925078388; 2162078206; 2614888103; 3248222580;
  3835390401; 4022224774; 264347078; 604807628; 770255983; 1249150122; 1555081692; 1996064986;
  2554220882; 2821834349; 2952996808; 3210313671; 3336571891; 3584528711; 113926993; 338241895;
  666307205; 773529912; 1294757372; 1396182291; 1695183700; 1986661051; 2177026350; 2456956037;
  2730485921; 2820302411; 3259730800; 3345764771; 3516065817; 3600352804; 4094571909; 275423344;
  430227734; 506948616; 659060556; 883997877; 958139571; 1322822218; 1537002063; 1747873779;
  1955562222; 2024104815; 2227730452; 2361852424; 2428436474; 2756734187; 3204031479; 3329325298]%N.

Definition initial_state : list N := [
  1779033703; 3144134277; 1013904242; 2773480762; 1359893119; 2600822924; 528734635; 1541459225]%N.

(** The [n] low bytes of [x], most significant first. *)
Fixpoint be_bytes (n : nat) (x : N) : string :=
  match n with
  | O => ""
  | S n' => String (ascii_of_N (N.land (N.shiftr x (8 * N.of_nat n')) 255)) (be_bytes n' x)
  end.

Fixpoint zeros (n : nat) : string :=
  match n with O => "" | S n' => String (ascii_of_N 0) (zeros n') end.

(** The message with its padding: a multiple of 64 bytes. *)
Definition pad (m : string) : string :=
  let l := String.length m in
  m +:+ String (ascii_of_N 128) (zeros ((119 - l mod 64) mod 64)) +:+ be_bytes 8 (8 * N.of_nat l)%N.

Fixpoint words (s : string) : list N :=
  match s with
  | String a (String b (String c (String d s'))) =>
    N.lor (N.shiftl (N_of_ascii a) 24)
      (N.lor (N.shiftl (N_of_ascii b) 16) (N.lor (N.shiftl (N_of_ascii c) 8) (N_of_ascii d))) :: words s'
  | _ => []
  end.

(** The message schedule, most recent word first. *)
Fixpoint schedule (n : nat) (w : list N) : list N :=
  match n with
  | O => w
  | S n' =>
    let at_ (i : nat) := nth i w 0%N in
    let s0 := N.lxor (rotr 7 (at_ 14%nat)) (N.lxor (rotr 18 (at_ 14%nat)) (N.shiftr (at_ 14%nat) 3)) in
    let s1 := N.lxor (rotr 17 (at_ 1%nat)) (N.lxor (rotr 19 (at_ 1%nat)) (N.shiftr (at_ 1%nat) 10)) in
    schedule n' (add32 (add32 (at_ 15%nat) s0) (add32 (at_ 6%nat) s1) :: w)
  end.

Definition sha_round (st : list N) (kw : N * N) : list N :=
  match st with
  | [a; b; c; d; e; f; g; h] =>
    let s1 := N.lxor (rotr 6 e) (N.lxor (rotr 11 e) (rotr 25 e)) in
    let ch := N.lxor (N.land e f) (N.land (N.lxor e 4294967295) g) in
    let t1 := add32 (add32 h s1) (add32 ch (add32 (fst kw) (snd kw))) in
    let s0 := N.lxor (rotr 2 a) (N.lxor (rotr 13 a) (rotr 22 a)) in
    let maj := N.lxor (N.land a b) (N.lxor (N.land a c) (N.land b c)) in
    [add32 t1 (add32 s0 maj); a; b; c; add32 d t1; e; f; g]
  | _ => st
  end.

Definition compress (st block : list N) : list N :=
  let w := rev (schedule 48 (rev block)) in
  zip_with add32 st (fold_left sha_round (combine round_constants w) st).

Fixpoint blocks (fuel : nat) (ws st : list N) : list N :=
  match fuel, ws with
  | S fuel', _ :: _ => blocks fuel' (drop 16 ws) (compress st (take 16 ws))
  | _, _ => st
  end.

Definition digest_bytes (st : list N) : string :=
  fold_right (fun x acc => be_bytes 4 x +:+ acc) "" st.

(** [sha256.Sum256] *)
Definition Sum256 (m : string) : string :=
  let ws := words (pad m) in digest_bytes (blocks (length ws) ws initial_state).

(** ** [encoding/hex] *)

Definition hex_digit (n : N) : ascii := ascii_of_N (if n <? 10 then 48 + n else 87 + n)%N.

Fixpoint EncodeToString (s : string) : string :=
  match s with
  | EmptyString => ""
  | String a s' =>
    String (hex_digit (N.shiftr (N_of_ascii a) 4)) (String (hex_digit (N.land (N_of_ascii a) 15)) (EncodeToString s'))
  end.

Example sum256_abc : EncodeToString (Sum256 "abc") =
  "ba7816bf8f01cfea414140de5dae2223b00361a396177a9cb410ff61f20015ad".
Proof. vm_compute. reflexivity. Qed.

(** ** Lemmas *)

Lemma be_bytes_length n x : String.length (be_bytes n x) = n.
Proof. induction n; simpl; congruence. Qed.

Lemma be_bytes_inj n x y : (x < 2 ^ (8 * N.of_nat n))%N -> (y < 2 ^ (8 * N.of_nat n))%N ->
  be_bytes n x = be_bytes n y -> x = y.
Proof.
  intros Hx Hy H. apply N.bits_inj. intros i.
  destruct (N.lt_ge_cases i (8 * N.of_nat n)) as [Hi|Hi]; cycle 1.
  { rewrite <-(N.mod_small x _ Hx), <-(N.mod_small y _ Hy). by rewrite !N.mod_pow2_bits_high. }
  clear Hx Hy. induction n as [|n IH]; [lia|]. simpl in H. injection H as Hhd Htl.
  destruct (N.lt_ge_cases i (8 * N.of_nat n)) as [Hi'|Hi']; [by apply IH|].
  assert (forall z, N.land (N.shiftr z (8 * N.of_nat n)) 255 < 256)%N as Hlt.
  { intros z. change 255%N with (N.ones 8). rewrite N.land_ones. apply N.mod_lt. done. }
  apply (f_equal N_of_ascii) in Hhd. rewrite !N_ascii_embedding in Hhd by apply Hlt.
  apply (f_equal (fun z => N.testbit z (i - 8 * N.of_nat n))) in Hhd.
  rewrite !N.land_spec, !N.shiftr_spec in Hhd by lia.
  replace (i - 8 * N.of_nat n + 8 * N.of_nat n)%N with i in Hhd by lia.
  assert (N.testbit 255 (i - 8 * N.of_nat n) = true) as Hb.
  { change 255%N with (N.ones 8). apply N.ones_spec_low. lia. }
  by rewrite Hb, !andb_true_r in Hhd.
Qed.

Lemma sha_round_length st kw : length st = 8%nat -> length (sha_round st kw) = 8%nat.
Proof. intros H. do 8 (destruct st as [|? st]; [done|]). by destruct st. Qed.

Lemma compress_length st b : length st = 8%nat -> length (compress st b) = 8%nat.
Proof.
  intros H. unfold compress. rewrite length_zip_with.
  assert (Hf : forall l s, length s = 8%nat -> length (fold_left sha_round l s) = 8%nat).
  { induction l as [|x l IH]; simpl; intros s Hs; [done|]. by apply IH, sha_round_length. }
  rewrite Hf by done. lia.
Qed.

Lemma blocks_length fuel ws st : length st = 8%nat -> length (blocks fuel ws st) = 8%nat.
Proof.
  revert ws st. induction fuel as [|fuel IH]; intros [|w ws] st H; simpl; try done.
  by apply IH, compress_length.
Qed.

Lemma Sum256_length m : String.length (Sum256 m) = Size.
Proof.
  unfold Sum256. set (st := blocks _ _ _).
  assert (Hl : length st = 8%nat) by by apply blocks_length.
  do 8 (destruct st as [|? st]; [done|]). destruct st; [|done].
  unfold digest_bytes, Size. simpl. reflexivity.
Qed.

Lemma hex_digit_inj x y : (x < 16)%N -> (y < 16)%N -> hex_digit x = hex_digit y -> x = y.
Proof.
  intros Hx Hy H. unfold hex_digit in H. apply (f_equal N_of_ascii) in H.
  destruct (x <? 10)%N eqn:E1, (y <? 10)%N eqn:E2;
    rewrite !N_ascii_embedding in H by lia; lia.
Qed.

Lemma EncodeToString_inj s t : EncodeToString s = EncodeToString t -> s = t.
Proof.
  revert t. induction s as [|a s IH]; intros [|b t] H; simpl in H; try done.
  injection H as H1 H2 H3. f_equal; [|by apply IH].
  assert (Hb : forall c, (N_of_ascii c < 256)%N) by apply N_ascii_bounded.
  assert (Hs : forall c, (N.shiftr (N_of_ascii c) 4 < 16)%N).
  { intros c. rewrite N.shiftr_div_pow2. apply N.Div0.div_lt_upper_bound. specialize (Hb c). simpl. lia. }
  assert (Hl : forall n, (N.land n 15 < 16)%N).
  { intros n. change 15%N with (N.ones 4). rewrite N.land_ones. by apply N.mod_lt. }
  apply hex_digit_inj in H1; [|done..]. apply hex_digit_inj in H2; [|done..].
  rewrite <-(ascii_N_embedding a), <-(ascii_N_embedding b). f_equal.
  change 15%N with (N.ones 4) in H2. rewrite !N.land_ones, !N.shiftr_div_pow2 in *.
  rewrite (N.div_mod' (N_of_ascii a) (2 ^ 4)), (N.div_mod' (N_of_ascii b) (2 ^ 4)). congruence.
Qed.

End Sha256.
