(* ===== verification/Paths.v ===== *)
(** * Path validation shared by the storage, API and SMB layers

    [internal/workspace] CleanPath, [internal/storage] normalizeStorageWorkspacePath,
    [internal/api] validatePath, pathWithinBase, cleanRuntimePathRulePath and
    [internal/smbgateway] cleanVirtualPath: what each accepts is a canonical path, and the
    containment test is the prefix relation on segments. *)

From Stdlib Require Import Ascii.
From S2P Require Import Prelude GoStrings GoPath.

Definition backslash : ascii := ascii_of_N 92.
Definition normalize_separators (s : string) : string := replace_byte backslash slash s.

(** [hasDotSegment] (internal/api, internal/smbgateway). *)
Definition hasDotSegment (filePath : string) : bool :=
  existsb (fun segment => String.eqb segment "." || String.eqb segment "..") (Split slash filePath).

(** [workspace.CleanPath] *)
Definition CleanPath (name : string) : string := Clean ("/" +:+ normalize_separators name).

Inductive PathError := ErrNotFound | ErrInvalidPath.

Definition normalizeStorageWorkspacePath (name : string) : result PathError string :=
  let normalized := normalize_separators name in
  if has_control normalized then Err ErrNotFound
  else if existsb (fun segment => String.eqb segment "." || String.eqb segment "..") (Split slash normalized)
  then Err ErrNotFound
  else Ok (CleanPath name).

(** [validatePath] (internal/api/server.go). *)
Definition validatePath (filePath : string) : result PathError string :=
  let normalized := normalize_separators filePath in
  if has_control normalized then Err ErrInvalidPath
  else
    let cleaned := Clean ("/" +:+ normalized) in
    if hasDotSegment normalized then Err ErrInvalidPath
    else if negb (String.eqb cleaned "/") && negb (HasPrefix cleaned "/") then Err ErrInvalidPath
    else Ok cleaned.

(** [cleanVirtualPath] (internal/smbgateway). *)
Definition cleanVirtualPath (value : string) : result PathError string :=
  let normalized := normalize_separators value in
  if has_control normalized || hasDotSegment normalized then Err ErrInvalidPath
  else
    let cleaned := Clean ("/" +:+ normalized) in
    if negb (String.eqb cleaned "/") && negb (HasPrefix cleaned "/") then Err ErrInvalidPath
    else Ok cleaned.

(** [pathWithinBase] (internal/api/quota.go, internal/smbgateway). *)
Definition pathWithinBase (basePath targetPath : string) : bool :=
  let basePath := Clean basePath in
  let targetPath := Clean targetPath in
  if String.eqb basePath "/" then HasPrefix targetPath "/"
  else String.eqb targetPath basePath || HasPrefix targetPath (basePath +:+ "/").

Definition contains_any (s chars : string) : bool :=
  existsb (fun c => contains_byte c s) (String.list_ascii_of_string chars).

(** [cleanRuntimePathRulePath] (internal/api/path_rules.go). *)
Definition cleanRuntimePathRulePath (rulePath : string) : string :=
  let trimmed := TrimSpace rulePath in
  if String.eqb trimmed "" || negb (HasPrefix trimmed "/") then ""
  else if contains_any trimmed (String backslash "?#") || hasDotSegment trimmed then ""
  else if has_control trimmed then ""
  else Clean trimmed.

(** ** Lemmas *)

Lemma replace_no_sep c d s : c <> d -> contains_byte c (replace_byte c d s) = false.
Proof.
  intros Hne. induction s as [|a s IH]; simpl; [done|]. rewrite IH, orb_false_r.
  destruct (Ascii.eqb a c) eqn:E; [|done]. by apply Ascii.eqb_neq.
Qed.

Lemma replace_id c d s : contains_byte c s = false -> replace_byte c d s = s.
Proof.
  induction s as [|a s IH]; simpl; [done|]. intros [-> H]%orb_false_elim. by rewrite IH.
Qed.

(** A path without backslashes, control characters and dot segments that is already canonical. *)
Definition storage_path (p : string) : Prop :=
  canonical p /\ has_control p = false /\ contains_byte backslash p = false.

Lemma validatePath_ok f p :
  validatePath f = Ok p -> canonical p /\ p = Clean ("/" +:+ normalize_separators f).
Proof.
  unfold validatePath. intros H. repeat case_in H. injection H as <-.
  split; [apply Clean_canonical, is_rooted_slash|done].
Qed.

Lemma cleanVirtualPath_ok f p :
  cleanVirtualPath f = Ok p -> canonical p /\ p = Clean ("/" +:+ normalize_separators f).
Proof.
  unfold cleanVirtualPath. intros H. repeat case_in H. injection H as <-.
  split; [apply Clean_canonical, is_rooted_slash|done].
Qed.

Lemma cleanRuntime_ok f : cleanRuntimePathRulePath f <> "" -> canonical (cleanRuntimePathRulePath f).
Proof.
  unfold cleanRuntimePathRulePath. intros H.
  destruct (_ || negb (HasPrefix (TrimSpace f) "/")) eqn:E; [done|]. b2p.
  destruct (_ || hasDotSegment _); [done|]. destruct (has_control _); [done|].
  by apply Clean_canonical.
Qed.

(** [contains_byte] and [existsb] over the bytes. *)
Lemma contains_byte_iff c s : contains_byte c s = true <-> c ∈ String.list_ascii_of_string s.
Proof.
  induction s as [|a s IH]; simpl; [by rewrite elem_of_nil|].
  rewrite orb_true_iff, IH, elem_of_cons, Ascii.eqb_eq. naive_solver.
Qed.

(** On canonical paths the byte test is containment of segment lists. *)
Lemma pathWithinBase_render b t :
  Forall good_seg b -> Forall good_seg t -> pathWithinBase (render b) (render t) = true <-> b `prefix_of` t.
Proof.
  intros Hb Ht. unfold pathWithinBase. rewrite !Clean_render by done.
  destruct (String.eqb (render b) "/") eqn:E; b2p.
  - change "/" with (render []) in E. apply render_inj in E as ->; [|done..].
    change (HasPrefix (render t) "/") with (is_rooted (render t)).
    split; intros _; [apply prefix_nil|apply render_rooted].
  - assert (b <> []) by by intros ->. rewrite orb_true_iff, String.eqb_eq. by apply render_prefix_iff.
Qed.

Lemma pathWithinBase_canonical b t :
  canonical b -> canonical t ->
  pathWithinBase b t = true <-> clean_segments b `prefix_of` clean_segments t.
Proof.
  intros (sb & Hb & ->) (st & Ht & ->). rewrite !clean_segments_render by done.
  by apply pathWithinBase_render.
Qed.

Lemma pathWithinBase_trans a b c :
  canonical a -> canonical b -> canonical c ->
  pathWithinBase a b = true -> pathWithinBase b c = true -> pathWithinBase a c = true.
Proof.
  intros Ha Hb Hc. rewrite !pathWithinBase_canonical by done. intros. by etrans.
Qed.

(** Two bases of one path: one contains the other. *)
Lemma pathWithinBase_total a b t :
  canonical a -> canonical b -> canonical t ->
  pathWithinBase a t = true -> pathWithinBase b t = true ->
  pathWithinBase a b = true \/ pathWithinBase b a = true.
Proof.
  intros Ha Hb Ht. rewrite !pathWithinBase_canonical by done. intros H1 H2.
  destruct (prefix_weak_total _ _ _ H1 H2); auto.
Qed.

(** What [normalizeStorageWorkspacePath] leaves unchanged. *)
Lemma normalizeStorage_fixed p :
  normalizeStorageWorkspacePath p = Ok p ->
  HasPrefix p "/" = true -> contains_byte backslash p = false -> canonical p.
Proof.
  intros H Hr Hb. unfold normalizeStorageWorkspacePath in H. repeat case_in H. injection H as H.
  rewrite <-H. apply Clean_canonical, is_rooted_slash.
Qed.
