(* ===== verification/Users.v ===== *)
(** * The account record

    [internal/auth/user.go]: [User], with the strings, flags and byte counts as the code has them.
    Instants are nanoseconds since the epoch.  The role is the string of the account record. *)

From S2P Require Import Prelude GoStrings.

Definition Role : Type := string.
Definition RoleAdmin : Role := "admin".
Definition RoleUser : Role := "user".
Definition RoleGuest : Role := "guest".

Record User := {
  ID : string;
  Username : string;
  Email : string;
  PasswordHash : string;
  UserRole : Role;
  Groups : list string;
  Disabled : bool;
  CreatedAt : Z;
  UpdatedAt : Z;
  LastLoginAt : option Z;
  MustChangePassword : bool;
  PasswordChangedAt : option Z;
  CredentialVersion : Z;
  HomeDir : string;
  QuotaBytes : Z;
  UsedBytes : Z;
}.

#[export] Instance user_eq_dec : EqDecision User.
Proof. solve_decision. Defined.

(** An account as the authorization code sees it: credentials and times are left out. *)
Definition profile (id name : string) (role : Role) (groups : list string) (disabled : bool) (home : string) (quota used : Z) : User :=
  {| ID := id; Username := name; Email := EmptyString; PasswordHash := EmptyString; UserRole := role; Groups := groups; Disabled := disabled;
     CreatedAt := 0; UpdatedAt := 0; LastLoginAt := None; MustChangePassword := false; PasswordChangedAt := None; CredentialVersion := 1;
     HomeDir := home; QuotaBytes := quota; UsedBytes := used |}.

(** [auth.IsAdmin], of the context's user ([None] for nil). *)
Definition IsAdmin (user : option User) : bool :=
  match user with
  | Some user => String.eqb (UserRole user) RoleAdmin && negb (Disabled user)
  | None => false
  end.
