(* ===== verification/UserQuotaHistory.v ===== *)
(** * internal/auth/user_quota_history.go

    The history of quota use: a point sums up the accounts at an instant, points are kept in full for thirty
    days, then one a day for a year, then one a month for three years, and the file of the history is recovered when it is corrupt. *)

From Stdlib Require Import Ascii SpecFloat.
From stdpp Require Import sorting.
From S2P Require Import Prelude GoTime Users.

Module UserQuotaHistory.

(** ** Points *)

Record UserQuotaTrendPoint := {
  CapturedAt : Z;
  TotalCount : Z;
  ActiveCount : Z;
  LimitedCount : Z;
  WarningCount : Z;
  ExceededCount : Z;
  AttentionCount : Z;
  PointUsedBytes : Z;
  LimitedUsedBytes : Z;
  PointQuotaBytes : Z;
}.

#[export] Instance point_eq_dec : EqDecision UserQuotaTrendPoint.
Proof. solve_decision. Defined.

Definition maxUserQuotaTrendHistory : Z := 512.
Definition userQuotaTrendRecentRetentionDays : Z := 30.
Definition userQuotaTrendDailyRetentionYears : Z := 1.
Definition userQuotaTrendMonthlyRetentionYears : Z := 3.

Definition nonNegativeQuotaValue (value : Z) : Z := if value <? 0 then 0 else value.

(** [float64(z)] for an integer, and the constant 0.9. *)
Definition float64 (z : Z) : spec_float := binary_normalize 53 1024 z 0 false.
Definition nine_tenths : spec_float := S754_finite false 8106479329266893 (-53).

(** [float64(usedBytes)/float64(quotaBytes) >= 0.9] *)
Definition nearly_full (usedBytes quotaBytes : Z) : bool :=
  SFleb nine_tenths (SFdiv 53 1024 (float64 usedBytes) (float64 quotaBytes)).

(** The use and the quota of a user, and what they come to. *)
Definition used (user : User) : Z := nonNegativeQuotaValue (UsedBytes user).
Definition quota (user : User) : Z := nonNegativeQuotaValue (QuotaBytes user).
Definition limited (user : User) : bool := negb (quota user <=? 0).
Definition exceeded (user : User) : bool := limited user && (quota user <? used user).
Definition warning (user : User) : bool := limited user && negb (exceeded user) && nearly_full (used user) (quota user).

Definition count_if (b : bool) (n : Z) : Z := if b then int64 (n + 1) else n.

(** The body of the loop over the users. *)
Definition add_user (point : UserQuotaTrendPoint) (user : User) : UserQuotaTrendPoint :=
  {| CapturedAt := CapturedAt point;
     TotalCount := int64 (TotalCount point + 1);
     ActiveCount := count_if (negb (Disabled user)) (ActiveCount point);
     LimitedCount := count_if (limited user) (LimitedCount point);
     WarningCount := count_if (warning user) (WarningCount point);
     ExceededCount := count_if (exceeded user) (ExceededCount point);
     AttentionCount := count_if (exceeded user || warning user) (AttentionCount point);
     PointUsedBytes := int64 (PointUsedBytes point + used user);
     LimitedUsedBytes := if limited user then int64 (LimitedUsedBytes point + used user) else LimitedUsedBytes point;
     PointQuotaBytes := if limited user then int64 (PointQuotaBytes point + quota user) else PointQuotaBytes point |}.

Definition empty_point (capturedAt : Z) : UserQuotaTrendPoint :=
  {| CapturedAt := capturedAt; TotalCount := 0; ActiveCount := 0; LimitedCount := 0; WarningCount := 0; ExceededCount := 0;
     AttentionCount := 0; PointUsedBytes := 0; LimitedUsedBytes := 0; PointQuotaBytes := 0 |}.

(** A user may be nil; [now] is [time.Now()]. *)
Definition newUserQuotaTrendPoint (users : list (option User)) (capturedAt now : Z) : UserQuotaTrendPoint :=
  foldl (fun point user => match user with Some user => add_user point user | None => point end)
    (empty_point (if capturedAt =? zero_instant then now else capturedAt)) users.

Definition validateUserQuotaTrendPoint (point : UserQuotaTrendPoint) : bool :=
  negb (CapturedAt point =? zero_instant) &&
  forallb (fun value => negb (value <? 0)) [TotalCount point; ActiveCount point; LimitedCount point; WarningCount point; ExceededCount point; AttentionCount point] &&
  forallb (fun value => negb (value <? 0)) [PointUsedBytes point; LimitedUsedBytes point; PointQuotaBytes point] &&
  negb (TotalCount point <? ActiveCount point) && negb (TotalCount point <? LimitedCount point) &&
  (int64 (WarningCount point + ExceededCount point) =? AttentionCount point) &&
  negb (LimitedCount point <? AttentionCount point).

(** The fields but for the instant. *)
Definition userQuotaTrendValuesEqual (left right : UserQuotaTrendPoint) : bool :=
  (TotalCount left =? TotalCount right) && (ActiveCount left =? ActiveCount right) && (LimitedCount left =? LimitedCount right) &&
  (WarningCount left =? WarningCount right) && (ExceededCount left =? ExceededCount right) && (AttentionCount left =? AttentionCount right) &&
  (PointUsedBytes left =? PointUsedBytes right) && (LimitedUsedBytes left =? LimitedUsedBytes right) && (PointQuotaBytes left =? PointQuotaBytes right).

(** ** Normalisation and retention *)

(** [sort.SliceStable], the latest first: a stable sort has one result. *)
Fixpoint insert_point (p : UserQuotaTrendPoint) (l : list UserQuotaTrendPoint) : list UserQuotaTrendPoint :=
  match l with
  | [] => [p]
  | q :: l' => if CapturedAt p <? CapturedAt q then q :: insert_point p l' else p :: l
  end.
Definition sort_points (l : list UserQuotaTrendPoint) : list UserQuotaTrendPoint := foldr insert_point [] l.

(** [l[:maxSize]], when there is a positive limit and [l] is longer. *)
Definition limit {A} (maxSize : Z) (l : list A) : list A :=
  if (0 <? maxSize) && (maxSize <? Z.of_nat (length l)) then take (Z.to_nat maxSize) l else l.

Definition normalizeUserQuotaTrendHistory (history : list UserQuotaTrendPoint) (maxSize : Z) : list UserQuotaTrendPoint :=
  limit maxSize (sort_points (List.filter validateUserQuotaTrendPoint history)).

(** The cutoffs of the retention at [now]. *)
Definition recentCutoff (now : Z) : Z := AddDate now 0 0 (- userQuotaTrendRecentRetentionDays).
Definition dailyCutoff (now : Z) : Z := AddDate now (- userQuotaTrendDailyRetentionYears) 0 0.
Definition monthlyCutoff (now : Z) : Z := AddDate now (- userQuotaTrendMonthlyRetentionYears) 0 0.

(** The buckets: the texts of [Format] determine the date and the month. *)
Definition day_bucket (p : UserQuotaTrendPoint) : Z * Z * Z := civil (CapturedAt p).
Definition month_bucket (p : UserQuotaTrendPoint) : Z * Z := fst (civil (CapturedAt p)).

Section Retention.
Variable now : Z.

Definition is_recent (p : UserQuotaTrendPoint) : bool := negb (CapturedAt p <? recentCutoff now).
Definition is_daily (p : UserQuotaTrendPoint) : bool := negb (is_recent p) && negb (CapturedAt p <? dailyCutoff now).
Definition is_monthly (p : UserQuotaTrendPoint) : bool :=
  negb (is_recent p) && (CapturedAt p <? dailyCutoff now) && negb (CapturedAt p <? monthlyCutoff now).

Fixpoint retain (dailyBuckets : gset (Z * Z * Z)) (monthlyBuckets : gset (Z * Z)) (l : list UserQuotaTrendPoint) : list UserQuotaTrendPoint :=
  match l with
  | [] => []
  | point :: l' =>
    if is_recent point then point :: retain dailyBuckets monthlyBuckets l'
    else if negb (CapturedAt point <? dailyCutoff now) then
      if bool_decide (day_bucket point ∈ dailyBuckets) then retain dailyBuckets monthlyBuckets l'
      else point :: retain ({[day_bucket point]} ∪ dailyBuckets) monthlyBuckets l'
    else if negb (CapturedAt point <? monthlyCutoff now) then
      if bool_decide (month_bucket point ∈ monthlyBuckets) then retain dailyBuckets monthlyBuckets l'
      else point :: retain dailyBuckets ({[month_bucket point]} ∪ monthlyBuckets) l'
    else retain dailyBuckets monthlyBuckets l'
  end.
End Retention.

(** [clock] is [time.Now()]. *)
Definition applyUserQuotaTrendRetention (history : list UserQuotaTrendPoint) (now clock maxSize : Z) : list UserQuotaTrendPoint :=
  let normalized := normalizeUserQuotaTrendHistory history 0 in
  if bool_decide (normalized = []) then normalized
  else limit maxSize (retain (if now =? zero_instant then clock else now) ∅ ∅ normalized).

(** ** The file *)

(** What loading can report: the identities that [isRecoverableUserQuotaTrendHistoryLoadError] tells apart. *)
Inductive HistoryError := HistoryNotExist | HistoryTruncated | HistoryInvalid | HistorySyntax | HistoryType | HistoryIO.

(** The JSON text of a history. *)
Class HistoryCodec := {
  encode_history : list UserQuotaTrendPoint -> option string;
  decode_history : string -> result HistoryError (list UserQuotaTrendPoint);
  decode_encode_history h text : encode_history h = Some text -> decode_history text = Ok h;
}.

(** The text of the history file, and of the files it was moved to when it was corrupt. *)
Record disk := { history_file : option string; corrupt_files : list string }.

(** Replacing the file: done; failed; or in place, but an error was reported after. *)
Inductive write := Written | NotWritten | WrittenWithError.

(** What the file operations come to. *)
Record io := { read_ok : bool; rename_ok : bool; sync_ok : bool; rollback_ok : bool; write_outcome : write }.

Definition isRecoverable (e : HistoryError) : bool := match e with HistoryIO => false | _ => true end.

Section File.
Context `{HistoryCodec}.

Definition loadUserQuotaTrendHistory (d : disk) (o : io) : result HistoryError (list UserQuotaTrendPoint) :=
  if negb (read_ok o) then Err HistoryIO
  else match history_file d with
  | None => Err HistoryNotExist
  | Some text =>
    let! history := decode_history text in
    if forallb validateUserQuotaTrendPoint history then Ok (normalizeUserQuotaTrendHistory history 0) else Err HistoryInvalid
  end.

Definition recoverCorruptUserQuotaTrendHistory (d : disk) (o : io) (e : HistoryError) : disk * result HistoryError unit :=
  if negb (isRecoverable e) then (d, Err e)
  else match history_file d with
  | None => (d, Ok tt)
  | Some text =>
    if negb (rename_ok o) then (d, Err HistoryIO)
    else if sync_ok o then ({| history_file := None; corrupt_files := text :: corrupt_files d |}, Ok tt)
    else if negb (rollback_ok o) then ({| history_file := None; corrupt_files := text :: corrupt_files d |}, Err HistoryIO)
    else (d, Err HistoryIO)
  end.

Definition saveUserQuotaTrendHistory (d : disk) (o : io) (history : list UserQuotaTrendPoint) : disk * result HistoryError unit :=
  match encode_history history with
  | None => (d, Err HistoryIO)
  | Some text =>
    let d' := {| history_file := Some text; corrupt_files := corrupt_files d |} in
    match write_outcome o with
    | Written => (d', Ok tt)
    | NotWritten => (d, Err HistoryIO)
    | WrittenWithError => (d', Err HistoryIO)
    end
  end.

(** Under [writeMu]; [path] is whether the store has a file. *)
Definition RecordUserQuotaTrendSnapshot (path : bool) (d : disk) (o : io) (clock : Z) (snapshot : UserQuotaTrendPoint)
    : disk * result HistoryError (list UserQuotaTrendPoint) :=
  if negb (validateUserQuotaTrendPoint snapshot) then (d, Err HistoryInvalid)
  else if negb path then (d, Err HistoryInvalid)
  else
    let '(d, loaded) := match loadUserQuotaTrendHistory d o with
      | Ok history => (d, Ok history)
      | Err e => let '(d, recovered) := recoverCorruptUserQuotaTrendHistory d o e in
                 (d, match recovered with Ok _ => Ok [] | Err _ => Err e end)
      end in
    match loaded with
    | Err e => (d, Err e)
    | Ok history =>
      let history := applyUserQuotaTrendRetention history (CapturedAt snapshot) clock maxUserQuotaTrendHistory in
      let changed :=
        let nextHistory := applyUserQuotaTrendRetention (snapshot :: history) (CapturedAt snapshot) clock maxUserQuotaTrendHistory in
        let '(d, saved) := saveUserQuotaTrendHistory d o nextHistory in
        (d, match saved with Ok _ => Ok nextHistory | Err e => Err e end) in
      match history with
      | latest :: _ => if userQuotaTrendValuesEqual latest snapshot then (d, Ok history) else changed
      | [] => changed
      end
    end.
End File.

(** ** Sorting *)

Definition later (p q : UserQuotaTrendPoint) : Prop := CapturedAt q <= CapturedAt p.

Lemma insert_permutation p l : insert_point p l ≡ₚ p :: l.
Proof. induction l as [|q l IH]; [done|]. cbn [insert_point]. destruct (_ <? _); [|done]. rewrite IH. apply Permutation_swap. Qed.

Lemma sort_permutation l : sort_points l ≡ₚ l.
Proof. induction l as [|p l IH]; [done|]. cbn [sort_points foldr]. by rewrite insert_permutation, IH. Qed.

Lemma insert_sorted p l : StronglySorted later l -> StronglySorted later (insert_point p l).
Proof.
  induction 1 as [|q l Hl IH Hq]; cbn [insert_point]; [by repeat constructor|].
  destruct (Z.ltb_spec (CapturedAt p) (CapturedAt q)) as [L|L].
  - constructor; [done|]. rewrite insert_permutation. constructor; [unfold later; lia|done].
  - constructor; [by constructor|]. constructor; [unfold later; lia|]. eapply Forall_impl; [exact Hq|]. unfold later. intros x Hx. lia.
Qed.

Lemma sort_sorted l : StronglySorted later (sort_points l).
Proof. induction l as [|p l IH]; [constructor|]. by apply insert_sorted. Qed.

Lemma insert_first p l : Forall (fun q => later p q) l -> insert_point p l = p :: l.
Proof. destruct l as [|q l]; [done|]. intros Hf. inversion_clear Hf as [|? ? Hq _]. cbn [insert_point]. unfold later in Hq.
  destruct (Z.ltb_spec (CapturedAt p) (CapturedAt q)); [lia|done]. Qed.

Lemma sort_id l : StronglySorted later l -> sort_points l = l.
Proof. induction 1 as [|p l Hl IH Hp]; [done|]. cbn [sort_points foldr]. fold (sort_points l). rewrite IH. by apply insert_first. Qed.

Lemma filter_id (f : UserQuotaTrendPoint -> bool) l : Forall (fun p => f p = true) l -> List.filter f l = l.
Proof. induction 1 as [|p l Hp _ IH]; [done|]. cbn. by rewrite Hp, IH. Qed.

Notation valid := (fun p => validateUserQuotaTrendPoint p = true).
(** A history as the store keeps it. *)
Definition normal (l : list UserQuotaTrendPoint) : Prop := StronglySorted later l /\ Forall valid l.

Lemma limit_none {A} (l : list A) : limit 0 l = l.
Proof. done. Qed.

Lemma normalize_normal h : normal (normalizeUserQuotaTrendHistory h 0).
Proof.
  unfold normalizeUserQuotaTrendHistory. rewrite limit_none. split; [apply sort_sorted|]. rewrite sort_permutation.
  apply Forall_forall. intros p Hp. apply list_elem_of_In, List.filter_In in Hp. tauto.
Qed.

Lemma normalize_id h : normal h -> normalizeUserQuotaTrendHistory h 0 = h.
Proof. intros [Hs Hv]. unfold normalizeUserQuotaTrendHistory. rewrite limit_none, filter_id by done. by apply sort_id. Qed.

(** ** Retention *)

Section Retain.
Variable now : Z.
Notation retain := (retain now).

Lemma retain_sublist days months l : retain days months l `sublist_of` l.
Proof.
  revert days months. induction l as [|p l IH]; intros days months; [done|]. cbn [UserQuotaHistory.retain].
  destruct (is_recent _ _); [by apply sublist_skip|]. destruct (negb _); [|destruct (negb _)]; try destruct (bool_decide _);
    try (by apply sublist_skip); by apply sublist_cons.
Qed.

Lemma retain_length days months l : (length (retain days months l) <= length l)%nat.
Proof. apply sublist_length, retain_sublist. Qed.

(** A history that was retained stays as it is. *)
Lemma retain_idem days months l : retain days months (retain days months l) = retain days months l.
Proof.
  revert days months. induction l as [|p l IH]; intros days months; [done|]. cbn [UserQuotaHistory.retain].
  destruct (is_recent now p) eqn:Er; [cbn [UserQuotaHistory.retain]; by rewrite Er, IH|].
  destruct (negb (CapturedAt p <? dailyCutoff now)) eqn:Ed.
  { destruct (bool_decide (day_bucket p ∈ days)) eqn:Eb; [apply IH|]. cbn [UserQuotaHistory.retain]. by rewrite Er, Ed, Eb, IH. }
  destruct (negb (CapturedAt p <? monthlyCutoff now)) eqn:Em; [|apply IH].
  destruct (bool_decide (month_bucket p ∈ months)) eqn:Eb; [apply IH|]. cbn [UserQuotaHistory.retain]. by rewrite Er, Ed, Em, Eb, IH.
Qed.

Lemma retain_take days months l n : retain days months l = l -> retain days months (take n l) = take n l.
Proof.
  revert days months n. induction l as [|p l IH]; intros days months n; [by rewrite take_nil|]. destruct n as [|n]; [done|].
  cbn [take UserQuotaHistory.retain]. pose proof (retain_length days months l) as Hlen.
  assert (Hno : retain days months l <> p :: l) by (intros E; rewrite E in Hlen; simpl in Hlen; lia).
  destruct (is_recent now p); [intros [= E]; by rewrite IH|].
  destruct (negb (CapturedAt p <? dailyCutoff now)).
  { destruct (bool_decide _); [done|]. intros [= E]. by rewrite IH. }
  destruct (negb (CapturedAt p <? monthlyCutoff now)); [|done]. destruct (bool_decide _); [done|]. intros [= E]. by rewrite IH.
Qed.

Lemma retain_recent days months l : List.filter (is_recent now) (retain days months l) = List.filter (is_recent now) l.
Proof.
  revert days months. induction l as [|p l IH]; intros days months; [done|]. cbn [UserQuotaHistory.retain List.filter].
  destruct (is_recent now p) eqn:Er; [cbn [List.filter]; by rewrite Er, IH|].
  destruct (negb _); [|destruct (negb _)]; try destruct (bool_decide _); cbn [List.filter]; rewrite ?Er; apply IH.
Qed.

(** The branch of a point. *)
Lemma monthly_branch p : is_recent now p = false -> negb (CapturedAt p <? dailyCutoff now) = false ->
  is_monthly now p = negb (CapturedAt p <? monthlyCutoff now).
Proof. unfold is_monthly. intros -> E. by apply negb_false_iff in E as ->. Qed.
Lemma not_monthly p : is_recent now p = true \/ negb (CapturedAt p <? dailyCutoff now) = true -> is_monthly now p = false.
Proof. unfold is_monthly. intros [-> |E]; [done|]. apply negb_true_iff in E as ->. by rewrite andb_false_r. Qed.

(** What is retained of the points of one age, by their buckets. *)
Definition one_each {B} (f : UserQuotaTrendPoint -> bool) (bucket : UserQuotaTrendPoint -> B) (seen : B -> Prop) (r l : list UserQuotaTrendPoint) : Prop :=
  NoDup (map bucket (List.filter f r)) /\
  (forall q, q ∈ r -> f q = true -> ~ seen (bucket q)) /\
  (forall p, p ∈ l -> f p = true -> seen (bucket p) \/ exists q, q ∈ r /\ f q = true /\ bucket q = bucket p /\ later q p).

Lemma one_each_skip {B} (f : UserQuotaTrendPoint -> bool) (bucket : UserQuotaTrendPoint -> B) seen r p l :
  (f p = true -> seen (bucket p)) -> one_each f bucket seen r l -> one_each f bucket seen r (p :: l).
Proof. intros Hp (H1 & H2 & H3). split; [done|]. split; [done|]. intros q [->|Hq]%elem_of_cons; [auto|by apply H3]. Qed.

Lemma one_each_other {B} (f : UserQuotaTrendPoint -> bool) (bucket : UserQuotaTrendPoint -> B) seen r p l :
  f p = false -> one_each f bucket seen r l -> one_each f bucket seen (p :: r) (p :: l).
Proof.
  intros Hp (H1 & H2 & H3). split; [cbn [List.filter]; by rewrite Hp|]. split.
  - intros q [->|Hq]%elem_of_cons; [congruence|by apply H2].
  - intros q [->|Hq]%elem_of_cons Hf; [congruence|]. destruct (H3 q Hq Hf) as [?|(x & Hx & ?)]; [by left|].
    right. exists x. split; [by right|done].
Qed.

Lemma one_each_new {B} (f : UserQuotaTrendPoint -> bool) (bucket : UserQuotaTrendPoint -> B) (seen : B -> Prop) r p l :
  Forall (later p) l -> f p = true -> ~ seen (bucket p) -> one_each f bucket (fun b => b = bucket p \/ seen b) r l ->
  one_each f bucket seen (p :: r) (p :: l).
Proof.
  intros Hl Hp Hn (H1 & H2 & H3). split; [|split].
  - cbn [List.filter]. rewrite Hp. cbn [map]. apply NoDup_cons. split; [|done].
    intros (q & Eq & Hq)%list_elem_of_fmap. apply list_elem_of_In, List.filter_In in Hq as [Hq Hf]. apply list_elem_of_In in Hq.
    apply (H2 q Hq Hf). by left.
  - intros q [->|Hq]%elem_of_cons Hf; [done|]. intros Hs. apply (H2 q Hq Hf). by right.
  - intros q [->|Hq]%elem_of_cons Hf.
    + right. exists p. split; [by left|]. split; [done|]. split; [done|unfold later; lia].
    + destruct (H3 q Hq Hf) as [[E|?]|(x & Hx & ?)]; [|by left|right; exists x; split; [by right|done]].
      right. exists p. split; [by left|]. split; [done|]. split; [done|]. rewrite Forall_forall in Hl. by apply Hl.
Qed.

Lemma one_each_seen {B} (f : UserQuotaTrendPoint -> bool) (bucket : UserQuotaTrendPoint -> B) (s1 s2 : B -> Prop) r l :
  (forall b, s1 b <-> s2 b) -> one_each f bucket s1 r l -> one_each f bucket s2 r l.
Proof.
  intros Hs (H1 & H2 & H3). split; [done|]. split; [intros q Hq Hf; rewrite <-Hs; by apply H2|].
  intros p Hp Hf. rewrite <-Hs. by apply H3.
Qed.

Lemma retain_each days months l : StronglySorted later l ->
  one_each (is_daily now) day_bucket (fun b => b ∈ days) (retain days months l) l /\
  one_each (is_monthly now) month_bucket (fun b => b ∈ months) (retain days months l) l.
Proof.
  intros Hl. revert days months. induction Hl as [|p l Hl IH Hp]; intros days months.
  { split; (split; [constructor|split; [set_solver|set_solver]]). }
  cbn [UserQuotaHistory.retain]. destruct (is_recent now p) eqn:Er.
  { split; apply one_each_other; try apply IH; [unfold is_daily; by rewrite Er|apply not_monthly; auto]. }
  destruct (negb (CapturedAt p <? dailyCutoff now)) eqn:Ed.
  { assert (Em : is_monthly now p = false) by (apply not_monthly; auto).
    destruct (bool_decide (day_bucket p ∈ days)) eqn:Eb.
    - apply bool_decide_eq_true in Eb. split; apply one_each_skip; try apply IH; [done|congruence].
    - apply bool_decide_eq_false in Eb. destruct (IH ({[day_bucket p]} ∪ days) months) as [H1 H2]. split; [|by apply one_each_other].
      apply one_each_new; [done|unfold is_daily; by rewrite Er, Ed|done|]. eapply one_each_seen; [|exact H1]. intros b. set_solver. }
  assert (Hd : is_daily now p = false) by (unfold is_daily; by rewrite Ed, andb_false_r).
  pose proof (monthly_branch p Er Ed) as Em. destruct (negb (CapturedAt p <? monthlyCutoff now)) eqn:Ec.
  { destruct (bool_decide (month_bucket p ∈ months)) eqn:Eb.
    - apply bool_decide_eq_true in Eb. split; apply one_each_skip; try apply IH; [congruence|done].
    - apply bool_decide_eq_false in Eb. destruct (IH days ({[month_bucket p]} ∪ months)) as [H1 H2]. split; [by apply one_each_other|].
      apply one_each_new; [done|done|done|]. eapply one_each_seen; [|exact H2]. intros b. set_solver. }
  split; apply one_each_skip; try apply IH; congruence.
Qed.

(** Nothing older than the monthly points stays. *)
Lemma retain_age days months l p : p ∈ retain days months l -> is_recent now p || is_daily now p || is_monthly now p = true.
Proof.
  revert days months. induction l as [|q l IH]; intros days months; [set_solver|]. cbn [UserQuotaHistory.retain].
  destruct (is_recent now q) eqn:Er; [intros [->|?]%elem_of_cons; [by rewrite Er|by eapply IH]|].
  destruct (negb (CapturedAt q <? dailyCutoff now)) eqn:Ed.
  { destruct (bool_decide _); [apply IH|]. intros [->|?]%elem_of_cons; [|by eapply IH]. unfold is_daily. rewrite Er, Ed. done. }
  destruct (negb (CapturedAt q <? monthlyCutoff now)) eqn:Em; [|apply IH].
  destruct (bool_decide _); [apply IH|]. intros [->|?]%elem_of_cons; [|by eapply IH]. rewrite (monthly_branch _ Er Ed), Em. by rewrite orb_true_r.
Qed.
End Retain.

Lemma Forall_sub {A} (P : A -> Prop) l k : l `sublist_of` k -> Forall P k -> Forall P l.
Proof. induction 1 as [|x l k _ IH|x l k _ IH]; [done|..]; inversion_clear 1; auto. Qed.

Lemma sublist_normal l k : l `sublist_of` k -> normal k -> normal l.
Proof.
  intros Hs [H1 H2]. split; [|by eapply Forall_sub].
  induction Hs as [|p l k Hs IH|p l k Hs IH]; [done|..]; inversion_clear H1 as [|? ? Hk Hp]; inversion_clear H2 as [|? ? Hv Hvs]; [|by apply IH].
  constructor; [by apply IH|]. by eapply Forall_sub.
Qed.

Lemma limit_take {A} m (l : list A) : limit m l = l \/ limit m l = take (Z.to_nat m) l.
Proof. unfold limit. destruct (_ && _); auto. Qed.

Lemma limit_length {A} m (l : list A) : 0 < m -> Z.of_nat (length (limit m l)) <= m.
Proof.
  intros Hm. unfold limit. rewrite (proj2 (Z.ltb_lt 0 m) Hm). cbn [andb].
  destruct (Z.ltb_spec m (Z.of_nat (length l))); [rewrite length_take; lia|lia].
Qed.

Lemma limit_id {A} m (l : list A) : Z.of_nat (length l) <= m -> limit m l = l.
Proof. intros Hl. unfold limit. destruct (Z.ltb_spec m (Z.of_nat (length l))); [lia|]. by rewrite andb_false_r. Qed.

Lemma limit_head {A} m (x : A) l : exists l', limit m (x :: l) = x :: l'.
Proof.
  unfold limit. destruct (Z.ltb_spec 0 m) as [Hm|]; [|by exists l]. cbn [andb]. destruct (_ <? _); [|by exists l].
  exists (take (pred (Z.to_nat m)) l). destruct (Z.to_nat m) eqn:E; [lia|done].
Qed.

Section Apply.
Variables (now clock : Z).
Hypothesis instant : now <> zero_instant.
Notation apply h m := (applyUserQuotaTrendRetention h now clock m).

Lemma apply_retain h m : apply h m = limit m (retain now ∅ ∅ (normalizeUserQuotaTrendHistory h 0)).
Proof.
  unfold applyUserQuotaTrendRetention. cbv zeta. destruct (Z.eqb_spec now zero_instant); [done|].
  destruct (normalizeUserQuotaTrendHistory h 0) as [|p l]; [rewrite bool_decide_true by done; cbn [retain]; unfold limit; destruct (_ && _); by rewrite ?take_nil|].
  by rewrite bool_decide_false.
Qed.

Lemma apply_normal h m : normal (apply h m).
Proof.
  rewrite apply_retain. eapply sublist_normal; [|apply (normalize_normal h)].
  destruct (limit_take m (retain now ∅ ∅ (normalizeUserQuotaTrendHistory h 0))) as [-> | ->].
  - apply retain_sublist.
  - etrans; [apply sublist_take|apply retain_sublist].
Qed.

Lemma apply_idem h m : 0 < m -> apply (apply h m) m = apply h m.
Proof.
  intros Hm. rewrite (apply_retain (apply h m)), normalize_id by apply apply_normal. rewrite apply_retain.
  set (r := retain now ∅ ∅ (normalizeUserQuotaTrendHistory h 0)).
  assert (Hr : retain now ∅ ∅ r = r) by apply retain_idem.
  assert (E : retain now ∅ ∅ (limit m r) = limit m r) by (destruct (limit_take m r) as [-> | ->]; [done|by apply retain_take]).
  rewrite E. apply limit_id, limit_length, Hm.
Qed.

Lemma now_recent p : CapturedAt p = now -> is_recent now p = true.
Proof.
  intros E. unfold is_recent, recentCutoff. rewrite AddDate_days, E. apply negb_true_iff, Z.ltb_ge. unfold day_ns, userQuotaTrendRecentRetentionDays. lia.
Qed.

(** A point of this instant comes first when nothing in the history is later. *)
Lemma apply_latest p h m : CapturedAt p = now -> validateUserQuotaTrendPoint p = true -> Forall (later p) h ->
  exists h', apply (p :: h) m = p :: h'.
Proof.
  intros Ht Hv Hl. rewrite apply_retain. unfold normalizeUserQuotaTrendHistory. rewrite limit_none. cbn [List.filter]. rewrite Hv.
  cbn [sort_points foldr]. fold (sort_points (List.filter validateUserQuotaTrendPoint h)). rewrite insert_first.
  - cbn [retain]. rewrite now_recent by done. apply limit_head.
  - rewrite sort_permutation. apply Forall_forall. intros q Hq. apply list_elem_of_In, List.filter_In in Hq as [Hq _].
    rewrite Forall_forall in Hl. by apply Hl, list_elem_of_In.
Qed.
End Apply.

(** ** Recording *)

Section Record_.
Context `{HistoryCodec}.

Lemma load_normal d o h : loadUserQuotaTrendHistory d o = Ok h -> normal h.
Proof.
  unfold loadUserQuotaTrendHistory. destruct (negb _); [done|]. destruct (history_file d); [|done].
  destruct (decode_history _) as [x|]; [|done]. cbn. destruct (forallb _ _); [|done]. intros [= <-]. apply normalize_normal.
Qed.

(** A history that was saved is read back. *)
Lemma save_load d o h d' : normal h -> saveUserQuotaTrendHistory d o h = (d', Ok tt) ->
  corrupt_files d' = corrupt_files d /\ forall o', read_ok o' = true -> loadUserQuotaTrendHistory d' o' = Ok h.
Proof.
  intros Hn. unfold saveUserQuotaTrendHistory. destruct (encode_history h) as [text|] eqn:E; [|done].
  destruct (write_outcome o); [|done..]. intros [= <-]. split; [done|]. intros o' Ho. unfold loadUserQuotaTrendHistory.
  rewrite Ho. cbn [negb history_file]. rewrite (decode_encode_history h text E). cbv beta iota.
  assert (forallb validateUserQuotaTrendPoint h = true) as ->.
  { apply List.forallb_forall. intros p Hp. destruct Hn as [_ Hv]. rewrite Forall_forall in Hv. by apply Hv, list_elem_of_In. }
  by rewrite normalize_id.
Qed.

(** What a snapshot is recorded after: the loaded history, or none when the file was missing or moved away as corrupt. *)
Definition start (d : disk) (o : io) (h : list UserQuotaTrendPoint) (files : list string) : Prop :=
  loadUserQuotaTrendHistory d o = Ok h /\ files = corrupt_files d \/
  h = [] /\ (exists e, loadUserQuotaTrendHistory d o = Err e /\ isRecoverable e = true) /\
    files = option_list (history_file d) ++ corrupt_files d.

Lemma recover_ok d o e d' : recoverCorruptUserQuotaTrendHistory d o e = (d', Ok tt) ->
  isRecoverable e = true /\ corrupt_files d' = option_list (history_file d) ++ corrupt_files d.
Proof.
  unfold recoverCorruptUserQuotaTrendHistory. destruct (isRecoverable e); [|done]. cbn [negb].
  destruct (history_file d) as [text|]; [|by intros [= <-]]. destruct (negb _); [done|]. destruct (sync_ok o); [by intros [= <-]|].
  by destruct (negb _).
Qed.

Lemma record_ok path d o clock snapshot d' h : RecordUserQuotaTrendSnapshot path d o clock snapshot = (d', Ok h) ->
  validateUserQuotaTrendPoint snapshot = true /\ exists h0 files, start d o h0 files /\
  let kept := applyUserQuotaTrendRetention h0 (CapturedAt snapshot) clock maxUserQuotaTrendHistory in
  (d' = d /\ loadUserQuotaTrendHistory d o = Ok h0 /\ h = kept /\ (exists latest, head h = Some latest /\ userQuotaTrendValuesEqual latest snapshot = true)) \/
  (h = applyUserQuotaTrendRetention (snapshot :: kept) (CapturedAt snapshot) clock maxUserQuotaTrendHistory /\
   (forall latest, head kept = Some latest -> userQuotaTrendValuesEqual latest snapshot = false) /\
   corrupt_files d' = files /\ exists d1, saveUserQuotaTrendHistory d1 o h = (d', Ok tt)).
Proof.
  unfold RecordUserQuotaTrendSnapshot. destruct (validateUserQuotaTrendPoint snapshot) eqn:Hv; [|done]. cbn [negb].
  destruct (negb path); [done|]. intros Hrun. split; [done|].
  set (keep := fun h0 => applyUserQuotaTrendRetention h0 (CapturedAt snapshot) clock maxUserQuotaTrendHistory) in *.
  assert (Hsave : forall d1 h0 files, start d o h0 files -> corrupt_files d1 = files ->
    (let '(d2, saved) := saveUserQuotaTrendHistory d1 o (keep (snapshot :: keep h0)) in
     (d2, match saved with Ok _ => Ok (keep (snapshot :: keep h0)) | Err e => Err e end)) = (d', Ok h) ->
    h = keep (snapshot :: keep h0) /\ corrupt_files d' = files /\ exists d1, saveUserQuotaTrendHistory d1 o h = (d', Ok tt)).
  { intros d1 h0 files Hs Hc. destruct (saveUserQuotaTrendHistory d1 o _) as [d2 [[]|e]] eqn:E; [|done]. intros [= <- <-]. split; [done|].
    split; [|by exists d1]. unfold saveUserQuotaTrendHistory in E. destruct (encode_history _); [|done].
    destruct (write_outcome o); [|done..]. injection E as <-. done. }
  destruct (loadUserQuotaTrendHistory d o) as [h0|e] eqn:El.
  - exists h0, (corrupt_files d). split; [by left|]. cbn in Hrun. fold (keep h0) in Hrun |- *.
    destruct (keep h0) as [|latest rest] eqn:Ek.
    + right. rewrite <-Ek in *. destruct (Hsave d h0 (corrupt_files d)) as (-> & H2 & H3); [by left|done|exact Hrun|].
      split; [done|]. split; [by rewrite Ek|done].
    + destruct (userQuotaTrendValuesEqual latest snapshot) eqn:Eq.
      * injection Hrun as <- <-. left. split; [done|]. split; [done|]. split; [done|]. by exists latest.
      * right. rewrite <-Ek in Hrun. destruct (Hsave d h0 (corrupt_files d)) as (Eh & H2 & H3); [by left|done|exact Hrun|].
        rewrite Ek in Eh. split; [exact Eh|]. split; [by intros ? [= <-]|done].
  - destruct (recoverCorruptUserQuotaTrendHistory d o e) as [d1 [[]|e']] eqn:Er; [|done]. apply recover_ok in Er as [Hrec Hc].
    exists [], (option_list (history_file d) ++ corrupt_files d).
    assert (Hs : start d o [] (option_list (history_file d) ++ corrupt_files d)) by (right; split; [done|]; split; [by exists e|done]).
    split; [done|]. right. destruct (Hsave d1 [] _ Hs Hc) as (-> & H2 & H3); [exact Hrun|]. split; [done|]. split; [done|]. done.
Qed.
End Record_.

(** ** Points *)

(** The sum over the users that are not nil. *)
Definition total (f : User -> Z) (users : list (option User)) : Z :=
  foldr (fun user n => from_option f 0 user + n) 0 users.
Definition number (f : User -> bool) : User -> Z := fun user => if f user then 1 else 0.

Lemma used_nonneg user : 0 <= used user.
Proof. unfold used, nonNegativeQuotaValue. destruct (Z.ltb_spec (UsedBytes user) 0); lia. Qed.
Lemma quota_nonneg user : 0 <= quota user.
Proof. unfold quota, nonNegativeQuotaValue. destruct (Z.ltb_spec (QuotaBytes user) 0); lia. Qed.
Lemma number_range f user : 0 <= number f user <= 1.
Proof. unfold number. destruct (f user); lia. Qed.

Lemma total_nonneg f users : (forall user, 0 <= f user) -> 0 <= total f users.
Proof. intros Hf. induction users as [|[user|] users IH]; cbn [total foldr from_option]; [done|specialize (Hf user)|]; unfold total in IH; lia. Qed.

Lemma total_le f g users : (forall user, f user <= g user) -> total f users <= total g users.
Proof. intros Hf. induction users as [|[user|] users IH]; cbn [total foldr from_option]; [done|specialize (Hf user)|]; unfold total in IH; lia. Qed.

Lemma total_add f g users : total (fun user => f user + g user) users = total f users + total g users.
Proof. induction users as [|[user|] users IH]; cbn [total foldr from_option]; unfold total in *; lia. Qed.

(** What the loop adds to a point, when nothing overflows. *)
Record sums (point p : UserQuotaTrendPoint) (users : list (option User)) : Prop := {
  sum_captured : CapturedAt p = CapturedAt point;
  sum_total : TotalCount p = TotalCount point + total (fun _ => 1) users;
  sum_active : ActiveCount p = ActiveCount point + total (number (fun user => negb (Disabled user))) users;
  sum_limited : LimitedCount p = LimitedCount point + total (number limited) users;
  sum_warning : WarningCount p = WarningCount point + total (number warning) users;
  sum_exceeded : ExceededCount p = ExceededCount point + total (number exceeded) users;
  sum_attention : AttentionCount p = AttentionCount point + total (number (fun user => exceeded user || warning user)) users;
  sum_used : PointUsedBytes p = PointUsedBytes point + total used users;
  sum_limited_used : LimitedUsedBytes p = LimitedUsedBytes point + total (fun user => if limited user then used user else 0) users;
  sum_quota : PointQuotaBytes p = PointQuotaBytes point + total (fun user => if limited user then quota user else 0) users;
}.

(** The counters of a point are not negative, and have room for the users. *)
Definition room (point : UserQuotaTrendPoint) (users : list (option User)) : Prop :=
  (0 <= ActiveCount point <= TotalCount point /\ 0 <= LimitedCount point <= TotalCount point /\
   0 <= WarningCount point <= TotalCount point /\ 0 <= ExceededCount point <= TotalCount point /\ 0 <= AttentionCount point <= TotalCount point) /\
  TotalCount point + total (fun _ => 1) users <= maxInt64 /\
  0 <= LimitedUsedBytes point <= PointUsedBytes point /\ PointUsedBytes point + total used users <= maxInt64 /\
  0 <= PointQuotaBytes point /\ PointQuotaBytes point + total (fun user => if limited user then quota user else 0) users <= maxInt64.

Lemma count_if_number f user n : 0 <= n < maxInt64 -> count_if (f user) n = n + number f user.
Proof. intros Hn. unfold count_if, number. destruct (f user); [apply int64_id; int_unfold; lia|lia]. Qed.

Lemma add_user_sums point user users : room point (Some user :: users) -> sums point (add_user point user) [Some user] /\ room (add_user point user) users.
Proof.
  unfold room, total. cbn [foldr from_option]. fold (total (fun _ => 1) users). fold (total used users).
  fold (total (fun user => if limited user then quota user else 0) users).
  intros ((A & L & W & E & T) & H1 & H2 & H3 & H4 & H5).
  pose proof (total_nonneg (fun _ => 1) users ltac:(lia)). pose proof (total_nonneg used users used_nonneg).
  assert (0 <= total (fun user => if limited user then quota user else 0) users).
  { apply total_nonneg. intros u. pose proof (quota_nonneg u). destruct (limited u); lia. }
  pose proof (used_nonneg user). pose proof (quota_nonneg user).
  assert (Hs : sums point (add_user point user) [Some user]).
  { split; cbn [add_user CapturedAt TotalCount ActiveCount LimitedCount WarningCount ExceededCount AttentionCount PointUsedBytes LimitedUsedBytes
      PointQuotaBytes total foldr from_option]; rewrite ?Z.add_0_r; try done.
    - apply int64_id. int_unfold. lia.
    - apply (count_if_number (fun user => negb (Disabled user))). lia.
    - apply (count_if_number limited). lia.
    - apply (count_if_number warning). lia.
    - apply (count_if_number exceeded). lia.
    - apply (count_if_number (fun user => exceeded user || warning user)). lia.
    - apply int64_id. int_unfold. lia.
    - destruct (limited user); [|lia]. apply int64_id. int_unfold. lia.
    - destruct (limited user); [|lia]. apply int64_id. int_unfold. lia. }
  split; [exact Hs|]. destruct Hs as [_ S1 S2 S3 S4 S5 S6 S7 S8 S9]. cbn [total foldr from_option] in *.
  rewrite S1, S2, S3, S4, S5, S6, S7, S8, S9.
  pose proof (number_range (fun user => negb (Disabled user)) user). pose proof (number_range limited user). pose proof (number_range warning user).
  pose proof (number_range exceeded user). pose proof (number_range (fun user => exceeded user || warning user) user).
  destruct (limited user); lia.
Qed.

Lemma sums_trans point p q user users : sums point p [user] -> sums p q users -> sums point q (user :: users).
Proof.
  intros [] []. split; unfold total in *; cbn [foldr] in *; try congruence; lia.
Qed.

Lemma loop_sums point users : room point users ->
  sums point (foldl (fun point user => match user with Some user => add_user point user | None => point end) point users) users.
Proof.
  revert point. induction users as [|[user|] users IH]; intros point Hr; cbn [foldl].
  - split; cbn [total foldr]; lia.
  - destruct (add_user_sums point user users Hr) as [Hs Hr']. eapply sums_trans; [exact Hs|by apply IH].
  - assert (Hr' : room point users) by exact Hr. destruct (IH point Hr'). by split.
Qed.

Lemma attention_split user : number (fun user => exceeded user || warning user) user = number warning user + number exceeded user.
Proof. unfold number, warning. destruct (exceeded user); cbn [negb andb orb]; [by rewrite andb_false_r|]. destruct (_ && _); lia. Qed.

Lemma total_ext f g users : (forall user, f user = g user) -> total f users = total g users.
Proof. intros Hf. unfold total. induction users as [|[user|] users IH]; cbn [foldr from_option]; [done|by rewrite Hf, IH|by rewrite IH]. Qed.

Lemma attention_limited user : number (fun user => exceeded user || warning user) user <= number limited user.
Proof. unfold number, warning, exceeded. destruct (limited user); cbn [andb orb]; [|done]. destruct (_ || _); lia. Qed.
Lemma limited_used_nonneg user : 0 <= (if limited user then used user else 0).
Proof. pose proof (used_nonneg user). destruct (limited user); lia. Qed.
Lemma limited_quota_nonneg user : 0 <= (if limited user then quota user else 0).
Proof. pose proof (quota_nonneg user). destruct (limited user); lia. Qed.

Lemma int64_over x y : x <= maxInt64 -> y <= maxInt64 -> maxInt64 < x + y -> int64 (x + y) < 0.
Proof.
  intros Hx Hy Hs. int_unfold. set (m := 18446744073709551616) in *. assert (Hm : m = 18446744073709551616) by done. clearbody m.
  rewrite <-(Z.mod_unique_pos (x + y + 9223372036854775808) m 1 (x + y + 9223372036854775808 - m)) by lia. lia.
Qed.

(** ** Properties *)

(** Retention.  What is kept of a history at an instant is a part of its valid points, the latest first: all of the
    recent ones, of the others of the last year the latest one of each day, of the others of the last three years
    the latest one of each month, nothing older, up to the limit on their number; and keeping again changes nothing. *)
Theorem quota_retention_exact history now clock maxSize : now <> zero_instant -> 0 < maxSize ->
  let sorted := normalizeUserQuotaTrendHistory history 0 in
  let kept := applyUserQuotaTrendRetention history now clock maxSize in
  StronglySorted later sorted /\ sorted ≡ₚ List.filter validateUserQuotaTrendPoint history /\
  (exists all, kept = limit maxSize all /\ all `sublist_of` sorted /\
     List.filter (is_recent now) all = List.filter (is_recent now) sorted /\
     one_each (is_daily now) day_bucket (fun _ => False) all sorted /\
     one_each (is_monthly now) month_bucket (fun _ => False) all sorted /\
     (forall p, p ∈ all -> is_recent now p || is_daily now p || is_monthly now p = true)) /\
  Z.of_nat (length kept) <= maxSize /\ applyUserQuotaTrendRetention kept now clock maxSize = kept.
Proof.
  intros Hn Hm sorted kept. split; [apply normalize_normal|]. split; [apply sort_permutation|].
  split; [|split; [unfold kept; rewrite apply_retain by done; by apply limit_length|by apply apply_idem]].
  destruct (retain_each now ∅ ∅ sorted (proj1 (normalize_normal history))) as [Hd Hmo].
  exists (retain now ∅ ∅ sorted). split; [by apply apply_retain|]. split; [apply retain_sublist|]. split; [apply retain_recent|].
  split; [eapply one_each_seen; [|exact Hd]; intros b; set_solver|].
  split; [eapply one_each_seen; [|exact Hmo]; intros b; set_solver|]. intros p. apply retain_age.
Qed.

(** Recording.  A recorded history is valid, sorted and at most 512 long; it continues the loaded history, or starts
    anew when there was none or it was moved away as corrupt, whose text is then still in a file; the snapshot
    is left out only when the last values are the same, and is otherwise the first unless later points exist; recording
    the same values again changes nothing. *)
Theorem quota_history_recorded `{HistoryCodec} path d o clock snapshot d' h :
  RecordUserQuotaTrendSnapshot path d o clock snapshot = (d', Ok h) ->
  normal h /\ Z.of_nat (length h) <= maxUserQuotaTrendHistory /\
  (exists h0, (loadUserQuotaTrendHistory d o = Ok h0 /\ corrupt_files d' = corrupt_files d \/
      h0 = [] /\ corrupt_files d' = option_list (history_file d) ++ corrupt_files d) /\
    (Forall (later snapshot) h0 -> exists latest, head h = Some latest /\ userQuotaTrendValuesEqual latest snapshot = true)) /\
  (d' = d \/ forall o', read_ok o' = true -> loadUserQuotaTrendHistory d' o' = Ok h) /\
  (forall latest o', head h = Some latest -> userQuotaTrendValuesEqual latest snapshot = true -> read_ok o' = true ->
     RecordUserQuotaTrendSnapshot true d' o' clock snapshot = (d', Ok h)).
Proof.
  intros Hrun. destruct (record_ok path d o clock snapshot d' h Hrun) as (Hv & h0 & files & Hstart & Hcases). cbv zeta in Hcases.
  assert (Hn : CapturedAt snapshot <> zero_instant).
  { unfold validateUserQuotaTrendPoint in Hv. rewrite !andb_true_iff in Hv. destruct Hv as [[[[[[E _] _] _] _] _] _].
    by apply negb_true_iff, Z.eqb_neq in E. }
  set (keep := fun l => applyUserQuotaTrendRetention l (CapturedAt snapshot) clock maxUserQuotaTrendHistory) in *.
  assert (Hh : exists l, h = keep l) by (destruct Hcases as [(_ & _ & -> & _)|(-> & _)]; eauto).
  assert (Hidem : keep h = h) by (destruct Hh as [l ->]; by apply apply_idem).
  split; [destruct Hh as [l ->]; by apply apply_normal|].
  split; [destruct Hh as [l ->]; unfold keep; rewrite apply_retain by done; by apply limit_length|].
  assert (Hread : (d' = d /\ exists l, loadUserQuotaTrendHistory d o = Ok l /\ keep l = h) \/ forall o', read_ok o' = true -> loadUserQuotaTrendHistory d' o' = Ok h).
  { destruct Hcases as [(-> & El & -> & _)|(-> & _ & _ & d1 & Hs)]; [left; split; [done|]; by exists h0|right].
    eapply save_load; [by apply apply_normal|exact Hs]. }
  split; [|split; [by destruct Hread as [[-> _]|?]; [left|right]|]].
  - exists h0. split.
    + destruct Hcases as [(-> & El & _)|(_ & _ & Ec & _)]; [by left|].
      destruct Hstart as [[El ->]|(-> & _ & ->)]; [by left|by right].
    + intros Hl. destruct Hcases as [(_ & _ & _ & Hlatest)|(-> & _)]; [done|].
      destruct (apply_latest (CapturedAt snapshot) clock Hn snapshot (keep h0) maxUserQuotaTrendHistory eq_refl Hv) as [h' E].
      { unfold keep. rewrite apply_retain by done. eapply Forall_sub; [|apply (Forall_sub (later snapshot) _ (normalizeUserQuotaTrendHistory h0 0))].
        - destruct (limit_take maxUserQuotaTrendHistory (retain (CapturedAt snapshot) ∅ ∅ (normalizeUserQuotaTrendHistory h0 0))) as [-> | ->];
            [done|apply sublist_take].
        - apply retain_sublist.
        - unfold normalizeUserQuotaTrendHistory. rewrite limit_none, sort_permutation. rewrite Forall_forall in *.
          intros q Hq. apply list_elem_of_In, List.filter_In in Hq as [Hq _]. by apply Hl, list_elem_of_In. }
      exists snapshot. split; [exact (f_equal head E)|]. unfold userQuotaTrendValuesEqual. by rewrite !Z.eqb_refl.
  - intros latest o' Hlatest Heq Ho.
    assert (Hload : exists l, loadUserQuotaTrendHistory d' o' = Ok l /\ keep l = h).
    { destruct Hread as [[-> (l & El & Ek)]|Hr]; [|exists h; split; [by apply Hr|done]]. exists l. split; [|done].
      unfold loadUserQuotaTrendHistory in *. rewrite Ho. by destruct (negb (read_ok o)) in El. }
    destruct Hload as (l & El & Ek). unfold RecordUserQuotaTrendSnapshot. rewrite Hv, El. cbn [negb]. cbv zeta. fold (keep l). rewrite Ek.
    destruct h as [|latest' h']; [done|]. injection Hlatest as ->. by rewrite Heq.
Qed.

(** C31: A point is the sum of the accounts, and is valid, as long as the sums of the used bytes and of the quotas fit in 64
    bits; the quotas of two accounts, each of them accepted by the API, may not, and then the point is not valid and no
    snapshot can be recorded. *)
Theorem quota_point_exact users capturedAt now :
  let point := newUserQuotaTrendPoint users capturedAt now in
  (capturedAt <> zero_instant \/ now <> zero_instant) -> total (fun _ => 1) users <= maxInt64 -> total used users <= maxInt64 ->
  (total (fun user => if limited user then quota user else 0) users <= maxInt64 ->
     sums (empty_point (if capturedAt =? zero_instant then now else capturedAt)) point users /\ validateUserQuotaTrendPoint point = true) /\
  (forall a b, users = [Some a; Some b] -> quota a <= maxInt64 -> quota b <= maxInt64 -> maxInt64 < quota a + quota b ->
     validateUserQuotaTrendPoint point = false).
Proof.
  intros point Ht Hn Hu. split.
  - intros Hq. set (start := empty_point (if capturedAt =? zero_instant then now else capturedAt)).
    assert (Hs : sums start point users) by (apply loop_sums; unfold room; cbn [empty_point start TotalCount ActiveCount LimitedCount WarningCount ExceededCount AttentionCount LimitedUsedBytes PointUsedBytes PointQuotaBytes]; lia).
    split; [exact Hs|]. destruct Hs as [S0 S1 S2 S3 S4 S5 S6 S7 S8 S9]. unfold validateUserQuotaTrendPoint.
    rewrite S0, S1, S2, S3, S4, S5, S6, S7, S8, S9.
    unfold start, empty_point. cbn [CapturedAt TotalCount ActiveCount LimitedCount WarningCount ExceededCount AttentionCount LimitedUsedBytes PointUsedBytes PointQuotaBytes].
    rewrite !Z.add_0_l.
    assert (Hnum : forall f, 0 <= total (number f) users <= total (fun _ => 1) users).
    { intros f. split; [apply total_nonneg; intros u; apply number_range|apply total_le; intros u; apply number_range]. }
    pose proof (Hnum (fun user => negb (Disabled user))). pose proof (Hnum limited). pose proof (Hnum warning). pose proof (Hnum exceeded).
    assert (Ha : total (number (fun user => exceeded user || warning user)) users = total (number warning) users + total (number exceeded) users)
      by (rewrite <-total_add; apply total_ext, attention_split).
    pose proof (total_le _ _ users attention_limited).
    pose proof (total_nonneg _ users limited_used_nonneg). pose proof (total_nonneg _ users limited_quota_nonneg). pose proof (total_nonneg used users used_nonneg).
    cbn [forallb]. rewrite int64_id by (int_unfold; lia). rewrite Ha, Z.eqb_refl.
    assert ((if capturedAt =? zero_instant then now else capturedAt) =? zero_instant = false) as ->.
    { destruct (Z.eqb_spec capturedAt zero_instant); apply Z.eqb_neq; [|done]. by destruct Ht. }
    rewrite !(proj2 (Z.ltb_ge _ _)) by lia. done.
  - intros a b -> Ha Hb Hab. unfold point, newUserQuotaTrendPoint. cbn [foldl].
    assert (La : limited a = true) by (unfold limited; apply negb_true_iff, Z.leb_gt; lia).
    assert (Lb : limited b = true) by (unfold limited; apply negb_true_iff, Z.leb_gt; lia).
    set (p := add_user _ b). assert (Hp : PointQuotaBytes p < 0).
    { unfold p, add_user. cbn [PointQuotaBytes empty_point]. rewrite La, Lb. rewrite Z.add_0_l.
      pose proof (quota_nonneg a). rewrite (int64_id (quota a)) by (int_unfold; lia). by apply int64_over. }
    unfold validateUserQuotaTrendPoint. cbn [forallb]. rewrite (proj2 (Z.ltb_lt _ _) Hp). cbn [negb]. by rewrite !andb_false_r.
Qed.

(** ** Examples *)

(** The instant of a date, and a point with some used bytes. *)
Definition at_day (y m d : Z) : Z := Date y m d 0.
Definition demo_point (t bytes : Z) : UserQuotaTrendPoint :=
  {| CapturedAt := t; TotalCount := 1; ActiveCount := 1; LimitedCount := 0; WarningCount := 0; ExceededCount := 0; AttentionCount := 0;
     PointUsedBytes := bytes; LimitedUsedBytes := 0; PointQuotaBytes := 0 |}.

(** Two recent points of a day, two of a day two months ago, two of a month two years ago, one of long ago. *)
Definition demo_history : list UserQuotaTrendPoint :=
  [demo_point (at_day 2024 6 20) 7; demo_point (at_day 2024 4 20) 5; demo_point (at_day 2024 6 20 + 1) 8; demo_point (at_day 2022 6 20) 3;
   demo_point (at_day 2024 4 20 + 1) 6; demo_point (at_day 2022 6 2) 2; demo_point (at_day 2019 1 1) 1].
Definition demo_now : Z := at_day 2024 7 1.

Lemma quota_retention_exact_witness : map PointUsedBytes (applyUserQuotaTrendRetention demo_history demo_now 0 512) = [8; 7; 6; 3] /\
  applyUserQuotaTrendRetention (applyUserQuotaTrendRetention demo_history demo_now 0 512) demo_now 0 512 = applyUserQuotaTrendRetention demo_history demo_now 0 512.
Proof.
  split; [vm_compute; reflexivity|]. apply (quota_retention_exact demo_history demo_now 0 512); [vm_compute; discriminate|reflexivity].
Defined.

(** A codec: the bits of a number that stands for the history. *)
#[export] Instance point_countable : Countable UserQuotaTrendPoint.
Proof.
  refine (inj_countable' (fun p => (CapturedAt p, (TotalCount p, ActiveCount p, LimitedCount p), (WarningCount p, ExceededCount p, AttentionCount p),
      (PointUsedBytes p, LimitedUsedBytes p, PointQuotaBytes p)))
    (fun '(t, (a, b, c), (d, e, f), (g, h, i)) =>
      {| CapturedAt := t; TotalCount := a; ActiveCount := b; LimitedCount := c; WarningCount := d; ExceededCount := e; AttentionCount := f;
         PointUsedBytes := g; LimitedUsedBytes := h; PointQuotaBytes := i |}) _).
  by intros [].
Defined.

Fixpoint bits (p : positive) : string :=
  match p with xH => "" | xO p => String "0"%char (bits p) | xI p => String "1"%char (bits p) end.
Fixpoint of_bits (s : string) : positive :=
  match s with "" => xH | String a s => if Ascii.eqb a "0"%char then xO (of_bits s) else xI (of_bits s) end%string.
Lemma of_bits_bits p : of_bits (bits p) = p.
Proof. induction p as [p IH|p IH|]; cbn; by rewrite ?IH. Qed.

#[export] Instance bit_codec : HistoryCodec.
Proof.
  refine {| encode_history := fun h => Some (bits (encode h));
            decode_history := fun s => match decode (of_bits s) with Some h => Ok h | None => Err HistorySyntax end |}.
  intros h text [= <-]. by rewrite of_bits_bits, decode_encode.
Defined.

Definition all_ok : io := {| read_ok := true; rename_ok := true; sync_ok := true; rollback_ok := true; write_outcome := Written |}.
Definition no_history : disk := {| history_file := None; corrupt_files := [] |}.

Lemma quota_history_recorded_witness : exists d h,
  RecordUserQuotaTrendSnapshot true no_history all_ok 0 (demo_point demo_now 4) = (d, Ok h) /\ h = [demo_point demo_now 4] /\
  RecordUserQuotaTrendSnapshot true d all_ok 0 (demo_point demo_now 4) = (d, Ok h).
Proof.
  destruct (RecordUserQuotaTrendSnapshot true no_history all_ok 0 (demo_point demo_now 4)) as [d [h|e]] eqn:E; [|vm_compute in E; discriminate].
  exists d, h. split; [reflexivity|].
  assert (Hh : h = [demo_point demo_now 4]) by (vm_compute in E; injection E as _ <-; vm_compute; reflexivity).
  split; [exact Hh|]. destruct (quota_history_recorded true no_history all_ok 0 (demo_point demo_now 4) d h E) as (_ & _ & _ & _ & H).
  apply (H (demo_point demo_now 4) all_ok); [by rewrite Hh|reflexivity|reflexivity].
Defined.

Definition demo_user (quota : Z) : User :=
  (profile "u" "ann" RoleUser [] false "/home/ann" quota 95).

Lemma quota_point_exact_witness :
  WarningCount (newUserQuotaTrendPoint [Some (demo_user 100); None; Some (demo_user 0)] demo_now 0) = 1 /\
  validateUserQuotaTrendPoint (newUserQuotaTrendPoint [Some (demo_user 100); None; Some (demo_user 0)] demo_now 0) = true /\
  validateUserQuotaTrendPoint (newUserQuotaTrendPoint [Some (demo_user maxInt64); Some (demo_user 1)] demo_now 0) = false.
Proof.
  assert (Ht : demo_now <> zero_instant) by (vm_compute; discriminate). split; [vm_compute; reflexivity|]. split.
  - apply (quota_point_exact [Some (demo_user 100); None; Some (demo_user 0)] demo_now 0); [by left|vm_compute; discriminate..].
  - eapply (quota_point_exact [Some (demo_user maxInt64); Some (demo_user 1)] demo_now 0);
      [by left|vm_compute; discriminate|vm_compute; discriminate|reflexivity|vm_compute; discriminate|vm_compute; discriminate|vm_compute; reflexivity].
Defined.
End UserQuotaHistory.
