(* ===== verification/SmbAuthorize.v ===== *)
(** * internal/smbgateway/authorize.go

    Mapping of a path inside an SMB share to a storage path, and the decision whether the principal
    may use it. *)

From Stdlib Require Import Ascii.
From S2P Require Import Prelude GoStrings GoPath Paths Users.

Module SmbAuthorize.

Inductive SmbError := ErrShareNotFound | ErrAccessDenied | ErrInvalidSmbPath | ErrReadOnly.

(** [config.SMBShareConfig] *)
Record SMBShareConfig := {
  Name : string;
  SharePath : string;
  ReadOnlyShare : bool;
  AllowedRoles : list string;
  AllowedUsers : list string;
}.

Record ResolvedPath := {
  ShareName : string;
  ShareRoot : string;
  Path : string;
  ReadOnly : bool;
  CanWrite : bool;
}.

Section Authorize.
Context `{Unicode}.

Definition FindShare (shares : list SMBShareConfig) (shareName : string) : option SMBShareConfig :=
  List.find (fun share => EqualFold (Name share) (TrimSpace shareName)) shares.

Definition userMatches (allowed : string) (user : User) : bool :=
  let normalized := ToLower (TrimSpace allowed) in
  negb (String.eqb normalized "") &&
  (String.eqb normalized (ToLower (ID user)) || String.eqb normalized (ToLower (Username user))).

Definition ShareAllowed (share : SMBShareConfig) (user : option User) : bool :=
  match user with
  | None => false
  | Some user =>
    if Disabled user then false
    else if existsb (fun allowedUser => userMatches allowedUser user) (AllowedUsers share) then true
    else existsb (fun allowedRole => EqualFold (TrimSpace allowedRole) (UserRole user)) (AllowedRoles share)
  end.

Definition mapSharePath (sharePath requestPath : string) : result SmbError (string * string) :=
  match cleanVirtualPath sharePath with
  | Err _ => Err ErrInvalidSmbPath
  | Ok shareRoot =>
    match cleanVirtualPath requestPath with
    | Err _ => Err ErrInvalidSmbPath
    | Ok relativePath =>
      if String.eqb relativePath "/" then Ok (shareRoot, shareRoot)
      else if String.eqb shareRoot "/" then Ok (shareRoot, relativePath)
      else Ok (shareRoot, Clean (shareRoot +:+ "/" +:+ TrimPrefix relativePath "/"))
    end
  end.

Definition enforceHomeDir (user : User) (targetPath : string) : result SmbError unit :=
  if String.eqb (UserRole user) RoleAdmin then Ok tt
  else if String.eqb (TrimSpace (HomeDir user)) "" then Err ErrAccessDenied
  else match cleanVirtualPath (HomeDir user) with
  | Err _ => Err ErrAccessDenied
  | Ok homeDir => if negb (pathWithinBase homeDir targetPath) then Err ErrAccessDenied else Ok tt
  end.

(** A nil user does not pass [ShareAllowed]. *)
Definition ResolvePath (shares : list SMBShareConfig) (shareName requestPath : string)
    (user : option User) (write : bool) : result SmbError ResolvedPath :=
  match FindShare shares shareName with
  | None => Err ErrShareNotFound
  | Some share =>
    match ShareAllowed share user, user with
    | true, Some user =>
      let! (shareRoot, targetPath) := mapSharePath (SharePath share) requestPath in
      let! _ := enforceHomeDir user targetPath in
      let canWrite := negb (ReadOnlyShare share) && negb (String.eqb (UserRole user) RoleGuest) in
      if write && negb canWrite then Err ErrReadOnly
      else Ok {| ShareName := Name share; ShareRoot := shareRoot; Path := targetPath;
                 ReadOnly := ReadOnlyShare share; CanWrite := canWrite |}
    | _, _ => Err ErrAccessDenied
    end
  end.

(** ** The mapping on segments *)

Lemma mapSharePath_ok sharePath requestPath root target :
  mapSharePath sharePath requestPath = Ok (root, target) ->
  exists rel, cleanVirtualPath sharePath = Ok root /\ cleanVirtualPath requestPath = Ok rel /\
    canonical root /\ canonical rel /\
    target = render (clean_segments root ++ clean_segments rel).
Proof.
  unfold mapSharePath. intros H0.
  destruct (cleanVirtualPath sharePath) as [r|] eqn:Er; [|done].
  destruct (cleanVirtualPath requestPath) as [rel|] eqn:El; [|done].
  destruct (cleanVirtualPath_ok _ _ Er) as [Hr _]. destruct (cleanVirtualPath_ok _ _ El) as [Hl _].
  exists rel. destruct Hr as (a & Ha & ->), Hl as (b & Hb & ->).
  rewrite clean_segments_render by done.
  assert (root = render a /\ target = render (a ++ b)) as [-> ->]; cycle 1.
  { split_and!; [done|done|by exists a|by exists b|by rewrite clean_segments_render]. }
  destruct (String.eqb (render b) "/") eqn:E1; b2p.
  { change "/" with (render []) in E1. apply render_inj in E1 as ->; [|done|done].
    rewrite app_nil_r. by simplify_eq. }
  destruct (String.eqb (render a) "/") eqn:E2; b2p.
  { change "/" with (render []) in E2. apply render_inj in E2 as ->; [|done|done]. by simplify_eq. }
  assert (a <> []) as Hna by by intros ->. assert (b <> []) as Hnb by by intros ->.
  assert (TrimPrefix (render b) "/" = Join "/" b) as Ht by apply TrimPrefix_app.
  rewrite Ht in H0. change (render a +:+ "/" +:+ Join "/" b) with (render a +:+ render b) in H0.
  rewrite <-render_app, Clean_render in H0; [by simplify_eq| |done|done].
  by apply Forall_app.
Qed.

Lemma enforceHomeDir_ok user target :
  enforceHomeDir user target = Ok tt <->
  UserRole user = RoleAdmin \/
  (TrimSpace (HomeDir user) <> "" /\ exists home, cleanVirtualPath (HomeDir user) = Ok home /\ pathWithinBase home target = true).
Proof.
  unfold enforceHomeDir. destruct (String.eqb (UserRole user) RoleAdmin) eqn:E1; b2p.
  { split; [by left|done]. }
  destruct (String.eqb (TrimSpace _) "") eqn:E2; b2p.
  { split; [done|]. by intros [?|[? _]]. }
  destruct (cleanVirtualPath (HomeDir user)) as [home|]; cycle 1.
  { split; [done|]. by intros [?|(_ & ? & ? & _)]. }
  destruct (pathWithinBase home target) eqn:E3.
  - split; [|done]. intros _. right. eauto.
  - split; [done|]. intros [?|(_ & h & [= <-] & ?)]; congruence.
Qed.

(** ** Properties *)

(** C32: what [ResolvePath] grants is confined.  The share root is the configured path of the share,
    cleaned; the storage path is canonical, consists of the share root's segments followed by the
    segments of the request, and so lies in the share; for a principal that is not an administrator it
    lies in the principal's home directory; the share is the first configured one with that name and
    admits the enabled principal; and a write is only granted on a share that is not read-only to a
    principal that is not a guest. *)
Theorem resolved_path_confined shares shareName requestPath user write r :
  ResolvePath shares shareName requestPath user write = Ok r ->
  exists share u,
    FindShare shares shareName = Some share /\ user = Some u /\ Disabled u = false /\
    ShareAllowed share user = true /\ ShareName r = Name share /\ ReadOnly r = ReadOnlyShare share /\
    cleanVirtualPath (SharePath share) = Ok (ShareRoot r) /\
    clean_segments (ShareRoot r) = clean_segments ("/" +:+ normalize_separators (SharePath share)) /\
    canonical (ShareRoot r) /\ canonical (Path r) /\
    pathWithinBase (ShareRoot r) (Path r) = true /\
    clean_segments (Path r) =
      clean_segments (ShareRoot r) ++ clean_segments ("/" +:+ normalize_separators requestPath) /\
    (UserRole u <> RoleAdmin -> exists home,
       cleanVirtualPath (HomeDir u) = Ok home /\ pathWithinBase home (Path r) = true) /\
    (CanWrite r = true <-> ReadOnlyShare share = false /\ UserRole u <> RoleGuest) /\
    (write = true -> CanWrite r = true).
Proof.
  unfold ResolvePath. intros H0.
  destruct (FindShare shares shareName) as [share|]; [|done].
  destruct (ShareAllowed share user) eqn:Ea; [|done]. destruct user as [u|]; [|done].
  destruct (mapSharePath _ _) as [[root target]|] eqn:Em; [|done].
  destruct (enforceHomeDir u target) as [[]|] eqn:Eh; [|done].
  apply enforceHomeDir_ok in Eh.
  destruct (mapSharePath_ok _ _ _ _ Em) as (rel & Eroot & Erel & Hroot & Hrel & Ht).
  destruct (cleanVirtualPath_ok _ _ Erel) as [_ Hclean]. destruct (cleanVirtualPath_ok _ _ Eroot) as [_ Hclean'].
  assert (Hg : Forall good_seg (clean_segments root ++ clean_segments rel)).
  { apply Forall_app. split; by apply clean_segments_good, canonical_rooted. }
  assert (Hseg : clean_segments target = clean_segments root ++ clean_segments rel)
    by (rewrite Ht; by apply clean_segments_render).
  assert (Hcan : canonical target) by (rewrite Ht; eexists; done).
  destruct (write && negb _) eqn:Ew; [done|]. injection H0 as <-. simpl.
  exists share, u. split; [done|]. split; [done|]. split; [|split_and!]; try done.
  - simpl in Ea. by destruct (Disabled u).
  - rewrite Hclean'. rewrite Clean_rooted by apply is_rooted_slash.
    apply clean_segments_render, clean_segments_good, is_rooted_slash.
  - apply pathWithinBase_canonical; [done|done|]. rewrite Hseg. by eexists.
  - rewrite Hseg. f_equal. rewrite Hclean. rewrite Clean_rooted by apply is_rooted_slash.
    apply clean_segments_render, clean_segments_good, is_rooted_slash.
  - intros Hna. destruct Eh as [?|(_ & home & ? & ?)]; [done|]. eauto.
  - rewrite andb_true_iff, !negb_true_iff, String.eqb_neq. done.
  - intros ->. simpl in Ew. by apply negb_false_iff in Ew.
Qed.

(** Reading never needs more than writing, and the mode does not change the answer: a granted
    write is granted as a read with the same result, and a granted read fails as a write exactly
    with [ErrReadOnly], when the result says that it is not writable. *)
Theorem resolve_write_vs_read shares shareName requestPath user :
  ResolvePath shares shareName requestPath user true =
  match ResolvePath shares shareName requestPath user false with
  | Ok r => if CanWrite r then Ok r else Err ErrReadOnly
  | Err e => Err e
  end.
Proof.
  unfold ResolvePath. destruct (FindShare shares shareName) as [share|]; [|done].
  destruct (ShareAllowed share user); [|by destruct user]. destruct user as [u|]; [|done].
  destruct (mapSharePath _ _) as [[root target]|]; [|done].
  destruct (enforceHomeDir u target) as [[]|]; [|done]. simpl.
  by destruct (negb (ReadOnlyShare share) && _).
Qed.

End Authorize.

(** ** Concrete inputs *)

Definition ex_share : SMBShareConfig :=
  {| Name := "Media"; SharePath := "/srv/media/"; ReadOnlyShare := false; AllowedRoles := [" User "]; AllowedUsers := [] |}.
Definition ex_user : User :=
  (profile "u1" "ann" "user" [] false "/srv" 0 0).

Lemma resolved_path_confined_witness : exists r,
  ResolvePath [ex_share] "mEdiA" (String (ascii_of_N 92) "a//b") (Some ex_user) true = Ok r /\
  Path r = "/srv/media/a/b" /\
  exists share, FindShare [ex_share] "mEdiA" = Some share /\ cleanVirtualPath (SharePath share) = Ok (ShareRoot r) /\
  pathWithinBase (ShareRoot r) (Path r) = true.
Proof.
  eexists. split; [vm_compute; reflexivity|]. split; [reflexivity|].
  edestruct (resolved_path_confined [ex_share] "mEdiA" (String (ascii_of_N 92) "a//b") (Some ex_user) true)
    as (share & u & Hs & _ & _ & _ & _ & _ & Hroot & _ & _ & _ & Hin & _); [vm_compute; reflexivity|].
  exists share. split; [exact Hs|]. split; [exact Hroot|exact Hin].
Defined.

Example ex_outside_home :
  ResolvePath [ex_share] "media" "x" (Some (profile "u2" "bob" "user" [] false "/srv/med" 0 0)) false = Err ErrAccessDenied.
Proof. vm_compute. reflexivity. Qed.

End SmbAuthorize.
