(* ===== verification/AccessRules.v ===== *)
(** * internal/api/access_rules.go

    Directory access rules: matching, the authorization of a request path, the snapshot used by
    deletions, and the evaluation shown to administrators.  The configuration is read once per
    request here: a handler whose configuration is swapped between its reads is not modelled. *)

From Stdlib Require Import Ascii.
From S2P Require Import Prelude GoStrings GoPath GoRunes Paths Users.

Module AccessRules.

Inductive pathAccessMode := pathAccessRead | pathAccessWrite.

#[export] Instance mode_eq_dec : EqDecision pathAccessMode.
Proof. solve_decision. Defined.

Definition mode_string (mode : pathAccessMode) : string :=
  match mode with pathAccessRead => "read" | pathAccessWrite => "write" end.

(** [config.DirectoryAccessRuleConfig] *)
Record Rule := {
  Path : string;
  ReadUsers : list string;
  WriteUsers : list string;
  ReadGroups : list string;
  WriteGroups : list string;
  ReadRoles : list string;
  WriteRoles : list string;
}.

Definition with_path (rule : Rule) (p : string) : Rule :=
  {| Path := p; ReadUsers := ReadUsers rule; WriteUsers := WriteUsers rule;
     ReadGroups := ReadGroups rule; WriteGroups := WriteGroups rule;
     ReadRoles := ReadRoles rule; WriteRoles := WriteRoles rule |}.

(** An error of [fs.Stat]: not found or not a directory ([isStorageNotFound], [ErrNotDir]), or
    another one. *)
Inductive StatError := StatMissing | StatOther (message : string).

Inductive AccessError := errPathAccessDenied | errPathOutsideHomeDir | errStat (message : string).

(** [fs.Stat]: a nil info, or whether the path is a directory. *)
Definition Stat : Type := string -> result StatError (option bool).

(** The fields of [Server] the decision reads. *)
Record Server := {
  authEnabled : bool;
  DirectoryAccessRules : option (list Rule);
  fs : option Stat;
}.

Record pathAccessEvaluation := {
  Mode : pathAccessMode;
  Allowed : bool;
  Source : string;
  Message : string;
  MatchedRule : option Rule;
}.

Record pathAccessCheckResult := {
  res_Username : string;
  res_UserID : string;
  res_Role : Role;
  res_Groups : list string;
  res_HomeDir : string;
  res_Path : string;
  res_Read : pathAccessEvaluation;
  res_Write : pathAccessEvaluation;
}.

Section Rules.
Context `{Unicode}.

(** ** Matching *)

Fixpoint bestRule (targetPath : string) (rules : list Rule) (best : option Rule) (bestLength : Z) : option Rule :=
  match rules with
  | [] => best
  | rule :: rules' =>
    let rulePath := cleanRuntimePathRulePath (Path rule) in
    if String.eqb rulePath "" || negb (pathWithinBase rulePath targetPath)
    then bestRule targetPath rules' best bestLength
    else if bestLength <? len rulePath
    then bestRule targetPath rules' (Some (with_path rule rulePath)) (len rulePath)
    else bestRule targetPath rules' best bestLength
  end.

Definition matchDirectoryAccessRuleIn (rules : list Rule) (targetPath : string) : option Rule :=
  match rules with
  | [] => None
  | _ =>
    let targetPath := cleanRuntimePathRulePath targetPath in
    if String.eqb targetPath "" then None else bestRule targetPath rules None (-1)
  end.

Definition matchDirectoryAccessRule (s : Server) (targetPath : string) : option Rule :=
  match DirectoryAccessRules s with
  | None | Some [] => None
  | Some rules => matchDirectoryAccessRuleIn rules targetPath
  end.

Definition normalizeAccessRuleRuntimeValues (values : list string) : list string :=
  List.filter (fun value => negb (String.eqb value "")) (map (fun value => ToLower (TrimSpace value)) values).

Definition contains (l : list string) (x : string) : bool := existsb (String.eqb x) l.

Definition directoryAccessRuleAllowsUser (rule : Rule) (user : option User) (mode : pathAccessMode) : bool :=
  match user with
  | None => false
  | Some user =>
    let username := ToLower (TrimSpace (Username user)) in
    let role := ToLower (TrimSpace (UserRole user)) in
    let groups := map (fun group => ToLower (TrimSpace group)) (Groups user) in
    let '(users, roles, groupsAllowed) :=
      match mode with
      | pathAccessWrite =>
        (normalizeAccessRuleRuntimeValues (WriteUsers rule),
         normalizeAccessRuleRuntimeValues (WriteRoles rule),
         normalizeAccessRuleRuntimeValues (WriteGroups rule))
      | pathAccessRead =>
        (normalizeAccessRuleRuntimeValues (ReadUsers rule ++ WriteUsers rule),
         normalizeAccessRuleRuntimeValues (ReadRoles rule ++ WriteRoles rule),
         normalizeAccessRuleRuntimeValues (ReadGroups rule ++ WriteGroups rule))
      end in
    if contains users username || contains roles role then true
    else existsb (contains groupsAllowed) groups
  end.

(** ** Readable descendants *)

Fixpoint readableRules (targetPath : string) (user : User) (rules : list Rule) : list Rule :=
  match rules with
  | [] => []
  | rule :: rules' =>
    let rulePath := cleanRuntimePathRulePath (Path rule) in
    if String.eqb rulePath "" then readableRules targetPath user rules'
    else if String.eqb rulePath "/" || String.eqb rulePath targetPath then readableRules targetPath user rules'
    else if negb (pathWithinBase targetPath rulePath) then readableRules targetPath user rules'
    else if negb (directoryAccessRuleAllowsUser rule (Some user) pathAccessRead)
    then readableRules targetPath user rules'
    else with_path rule rulePath :: readableRules targetPath user rules'
  end.

Definition readableDirectoryAccessDescendantRules (rules : list Rule) (user : option User) (targetPath : string)
    : list Rule :=
  match rules, user with
  | [], _ | _, None => []
  | _, Some user =>
    let targetPath := cleanRuntimePathRulePath targetPath in
    if String.eqb targetPath "" then []
    else if String.eqb targetPath "/" then []
    else readableRules targetPath user rules
  end.

Definition directoryExistsForAccessRule (stat : Stat) (targetPath : string) : result AccessError bool :=
  match stat targetPath with
  | Err StatMissing => Ok false
  | Err (StatOther e) => Err (errStat e)
  | Ok info => Ok (match info with Some isDir => isDir | None => false end)
  end.

Fixpoint firstExisting (stat : Stat) (rules : list Rule) : result AccessError (option Rule) :=
  match rules with
  | [] => Ok None
  | rule :: rules' =>
    let! ok := directoryExistsForAccessRule stat (Path rule) in
    if ok then Ok (Some rule) else firstExisting stat rules'
  end.

Definition existingReadableDirectoryAccessDescendantRuleWithRules (s : Server) (user : option User)
    (targetPath : string) (rules : list Rule) : result AccessError (option Rule) :=
  match fs s, rules with
  | None, _ | _, [] => Ok None
  | Some stat, _ => firstExisting stat (readableDirectoryAccessDescendantRules rules user targetPath)
  end.

Definition hasExistingReadableDirectoryAccessDescendantRule (s : Server) (user : option User) (targetPath : string)
    : result AccessError bool :=
  match DirectoryAccessRules s with
  | None | Some [] => Ok false
  | Some rules =>
    let! r := existingReadableDirectoryAccessDescendantRuleWithRules s user targetPath rules in
    Ok (match r with Some _ => true | None => false end)
  end.

(** ** Authorization *)

(** [currentUserHomeDir] (quota.go): the home directory and whether the user is scoped. *)
Definition currentUserHomeDir (s : Server) (user : option User) : result AccessError (string * bool) :=
  if negb (authEnabled s) || IsAdmin user then Ok ("", false)
  else match user with
  | None => Err errPathAccessDenied
  | Some u =>
    if Disabled u then Err errPathAccessDenied
    else if String.eqb (TrimSpace (HomeDir u)) "" then Err errPathOutsideHomeDir
    else match validatePath (HomeDir u) with
    | Err _ => Err errPathOutsideHomeDir
    | Ok homeDir => Ok (homeDir, true)
    end
  end.

Definition authorizeUserPathForOptions (s : Server) (user : option User) (targetPath : string)
    (mode : pathAccessMode) (allowReadableDescendant : bool) : result AccessError unit :=
  if negb (authEnabled s) || IsAdmin user then Ok tt
  else match validatePath targetPath with
  | Err _ => Err errPathOutsideHomeDir
  | Ok targetPath =>
    match user with
    | None => Err errPathAccessDenied
    | Some u =>
      if Disabled u then Err errPathAccessDenied
      else match matchDirectoryAccessRule s targetPath with
      | Some rule => if directoryAccessRuleAllowsUser rule user mode then Ok tt else Err errPathAccessDenied
      | None =>
        let! ok :=
          if allowReadableDescendant && bool_decide (mode = pathAccessRead)
          then hasExistingReadableDirectoryAccessDescendantRule s user targetPath
          else Ok false in
        if ok then Ok tt
        else
          let! (homeDir, scoped) := currentUserHomeDir s user in
          if negb scoped then Ok tt
          else if negb (pathWithinBase homeDir targetPath) then Err errPathOutsideHomeDir
          else Ok tt
      end
    end
  end.

Definition authorizeUserPathFor (s : Server) (user : option User) (targetPath : string) (mode : pathAccessMode) :=
  authorizeUserPathForOptions s user targetPath mode true.
Definition authorizeUserReadPath (s : Server) (user : option User) (targetPath : string) :=
  authorizeUserPathFor s user targetPath pathAccessRead.
Definition authorizeUserPath (s : Server) (user : option User) (targetPath : string) :=
  authorizeUserReadPath s user targetPath.
Definition authorizeUserConcreteReadPath (s : Server) (user : option User) (targetPath : string) :=
  authorizeUserPathForOptions s user targetPath pathAccessRead false.
Definition authorizeUserWritePath (s : Server) (user : option User) (targetPath : string) :=
  authorizeUserPathFor s user targetPath pathAccessWrite.

(** [deletePathAuthorizerSnapshot]: no authorizer ([None]) when nothing needs authorizing, else
    the closure over the user and rules of that moment. *)
Definition deletePathAuthorizerSnapshot (s : Server) (user : option User)
    : result AccessError (option (string -> result AccessError unit)) :=
  if negb (authEnabled s) || IsAdmin user then Ok None
  else match user with
  | None => Err errPathAccessDenied
  | Some u =>
    if Disabled u then Err errPathAccessDenied
    else
      let home : result AccessError string :=
        if String.eqb (TrimSpace (HomeDir u)) "" then Err errPathOutsideHomeDir
        else match validatePath (HomeDir u) with
        | Err _ => Err errPathOutsideHomeDir
        | Ok homeDir => Ok homeDir
        end in
      let rules := default [] (DirectoryAccessRules s) in
      Ok (Some (fun targetPath =>
        match validatePath targetPath with
        | Err _ => Err errPathOutsideHomeDir
        | Ok cleanTargetPath =>
          match matchDirectoryAccessRuleIn rules cleanTargetPath with
          | Some rule =>
            if directoryAccessRuleAllowsUser rule (Some u) pathAccessWrite then Ok tt
            else Err errPathAccessDenied
          | None =>
            match home with
            | Err e => Err e
            | Ok homeDir =>
              if negb (pathWithinBase homeDir cleanTargetPath) then Err errPathOutsideHomeDir else Ok tt
            end
          end
        end))
  end.

(** ** Evaluation *)

Definition evaluation (mode : pathAccessMode) (allowed : bool) (source message : string) (rule : option Rule) :=
  {| Mode := mode; Allowed := allowed; Source := source; Message := message; MatchedRule := rule |}.

Definition invalidPathAccessEvaluation (mode : pathAccessMode) : pathAccessEvaluation :=
  evaluation mode false "invalid_path" "path is invalid" None.

Definition evaluateUserPathAccessModeWithRules (s : Server) (user : option User) (targetPath : string)
    (mode : pathAccessMode) (rules : list Rule) : result AccessError pathAccessEvaluation :=
  if negb (authEnabled s) then Ok (evaluation mode true "auth_disabled" "authentication is disabled" None)
  else match user with
  | None => Ok (evaluation mode false "user_not_found" "user was not found" None)
  | Some u =>
    if Disabled u then Ok (evaluation mode false "user_disabled" "user account is disabled" None)
    else if String.eqb (UserRole u) RoleAdmin then
      Ok (evaluation mode true "admin" "admin role has full access" None)
    else match matchDirectoryAccessRuleIn rules targetPath with
    | Some rule =>
      let allowed := directoryAccessRuleAllowsUser rule user mode in
      let message := (if allowed then "directory access rule grants "
                      else "directory access rule does not grant ") +:+ mode_string mode in
      Ok (evaluation mode allowed "directory_access_rule" message (Some rule))
    | None =>
      let! descendant :=
        if bool_decide (mode = pathAccessRead)
        then existingReadableDirectoryAccessDescendantRuleWithRules s user targetPath rules
        else Ok None in
      match descendant with
      | Some rule =>
        Ok (evaluation mode true "directory_access_rule"
              "directory access rule grants read through an existing descendant" (Some rule))
      | None =>
        match validatePath (HomeDir u), String.eqb (TrimSpace (HomeDir u)) "" with
        | Err _, _ | _, true => Ok (evaluation mode false "invalid_home_dir" "user home_dir is invalid" None)
        | Ok homeDir, false =>
          let allowed := pathWithinBase homeDir targetPath in
          let message := if allowed then "path is inside the user's home_dir"
                         else "path is outside the user's home_dir" in
          Ok (evaluation mode allowed "home_dir" message None)
        end
      end
    end
  end.

(** A returned error comes with the partial result, which no caller reads. *)
Definition evaluateUserPathAccessWithRules (s : Server) (user : option User) (targetPath : string)
    (rules : list Rule) : result AccessError pathAccessCheckResult :=
  let out p r w :=
    {| res_Username := match user with Some u => Username u | None => "" end;
       res_UserID := match user with Some u => ID u | None => "" end;
       res_Role := match user with Some u => UserRole u | None => "" end;
       res_Groups := match user with Some u => Groups u | None => [] end;
       res_HomeDir := match user with Some u => HomeDir u | None => "" end;
       res_Path := p; res_Read := r; res_Write := w |} in
  match validatePath targetPath with
  | Err _ => Ok (out targetPath (invalidPathAccessEvaluation pathAccessRead) (invalidPathAccessEvaluation pathAccessWrite))
  | Ok targetPath =>
    let! r := evaluateUserPathAccessModeWithRules s user targetPath pathAccessRead rules in
    let! w := evaluateUserPathAccessModeWithRules s user targetPath pathAccessWrite rules in
    Ok (out targetPath r w)
  end.

Definition evaluateUserPathAccess (s : Server) (user : option User) (targetPath : string) :=
  evaluateUserPathAccessWithRules s user targetPath (default [] (DirectoryAccessRules s)).

Definition hasDirectoryAccessRules (s : Server) : bool :=
  match DirectoryAccessRules s with None | Some [] => false | Some _ => true end.

#[local] Arguments directoryAccessRuleAllowsUser : simpl never.
#[local] Arguments existingReadableDirectoryAccessDescendantRuleWithRules : simpl never.

(** ** Lemmas: the matching rule *)

Definition cleaned (rule : Rule) : string := cleanRuntimePathRulePath (Path rule).
Definition applies (targetPath : string) (rule : Rule) : Prop :=
  cleaned rule <> "" /\ pathWithinBase (cleaned rule) targetPath = true.

Lemma cleaned_canonical rule : cleaned rule <> "" -> canonical (cleaned rule).
Proof. apply cleanRuntime_ok. Qed.

Lemma applies_bool targetPath rule :
  (String.eqb (cleaned rule) "" || negb (pathWithinBase (cleaned rule) targetPath)) = false <-> applies targetPath rule.
Proof. unfold applies. by rewrite orb_false_iff, negb_false_iff, String.eqb_neq. Qed.

(** A longer path that contains the target is more specific. *)
Lemma longer_is_deeper a b t :
  canonical a -> canonical b -> canonical t ->
  pathWithinBase a t = true -> pathWithinBase b t = true -> len a <= len b -> pathWithinBase a b = true.
Proof.
  intros Ha Hb Ht Hat Hbt Hle. destruct (pathWithinBase_total a b t) as [?|Hba]; try done.
  destruct Ha as (sa & Ha & ->), Hb as (sb & Hb & ->).
  apply pathWithinBase_render in Hba; [|done..]. apply pathWithinBase_render; [done..|].
  destruct Hba as [r ->]. destruct r as [|x r]; [by rewrite app_nil_r|]. exfalso.
  assert (String.length (render sb) < String.length (render (sb ++ x :: r)))%nat as Hlt.
  { destruct sb as [|y sb].
    - simpl. apply Forall_cons in Ha as [(_ & Hx & _) _]. destruct x as [|c x]; [done|].
      destruct r; simpl; lia.
    - rewrite render_app by done. rewrite sapp_length. simpl. lia. }
  unfold len in Hle. lia.
Qed.

(** The state of the search after [done]. *)
Definition best_so_far (targetPath : string) (done : list Rule) (best : option Rule) (bestLength : Z) : Prop :=
  match best with
  | None => bestLength = -1 /\ Forall (fun rule => ~ applies targetPath rule) done
  | Some r => exists l1 rule l2, done = l1 ++ rule :: l2 /\ r = with_path rule (cleaned rule) /\
      applies targetPath rule /\ bestLength = len (cleaned rule) /\
      Forall (fun rule' => applies targetPath rule' -> len (cleaned rule') < bestLength) l1 /\
      Forall (fun rule' => applies targetPath rule' -> len (cleaned rule') <= bestLength) l2
  end.

Lemma best_extend targetPath done best bestLength rule :
  best_so_far targetPath done best bestLength ->
  (applies targetPath rule -> len (cleaned rule) <= bestLength) ->
  best_so_far targetPath (done ++ [rule]) best bestLength.
Proof.
  unfold best_so_far. destruct best as [r|].
  - intros (l1 & x & l2 & -> & ? & ? & ? & ? & ?) Hle. exists l1, x, (l2 ++ [rule]).
    split; [by rewrite <-app_assoc|]. split_and!; try done. apply Forall_app. split; [done|]. by constructor.
  - intros [-> Hf] Hle. split; [done|]. apply Forall_app. split; [done|]. constructor; [|done].
    intros Ha. specialize (Hle Ha). unfold len in Hle. lia.
Qed.

Lemma best_replace targetPath done best bestLength rule :
  best_so_far targetPath done best bestLength -> applies targetPath rule -> bestLength < len (cleaned rule) ->
  best_so_far targetPath (done ++ [rule]) (Some (with_path rule (cleaned rule))) (len (cleaned rule)).
Proof.
  intros Hb Ha Hlt. exists done, rule, []. split_and!; try done. destruct best as [r|].
  - destruct Hb as (l1 & x & l2 & -> & _ & _ & -> & H1 & H2). apply Forall_app. split.
    + eapply Forall_impl; [exact H1|]. simpl. intros y Hy Hy'. specialize (Hy Hy'). lia.
    + constructor; [intros; lia|]. eapply Forall_impl; [exact H2|]. simpl. intros y Hy Hy'. specialize (Hy Hy'). lia.
  - destruct Hb as [_ Hf]. eapply Forall_impl; [exact Hf|]. simpl. intros y Hy Hy'. done.
Qed.

Lemma bestRule_spec targetPath rules done best bestLength :
  best_so_far targetPath done best bestLength ->
  exists n, best_so_far targetPath (done ++ rules) (bestRule targetPath rules best bestLength) n.
Proof.
  revert done best bestLength. induction rules as [|rule rules IH]; intros done best n Hb.
  { exists n. by rewrite app_nil_r. }
  simpl. fold (cleaned rule). rewrite cons_middle, app_assoc.
  destruct (_ || _) eqn:E1; [|destruct (n <? _) eqn:E2]; apply IH.
  - apply best_extend; [done|]. intros Ha%applies_bool. congruence.
  - apply applies_bool in E1. apply Z.ltb_lt in E2. by eapply best_replace.
  - apply Z.ltb_ge in E2. by apply best_extend.
Qed.

Lemma match_spec rules targetPath :
  cleanRuntimePathRulePath targetPath <> "" ->
  exists n, best_so_far (cleanRuntimePathRulePath targetPath) rules (matchDirectoryAccessRuleIn rules targetPath) n.
Proof.
  intros Ht. unfold matchDirectoryAccessRuleIn. destruct rules as [|rule rules].
  { exists (-1). split; [done|constructor]. }
  apply String.eqb_neq in Ht as ->.
  apply (bestRule_spec _ (rule :: rules) [] None (-1)). split; [done|constructor].
Qed.

Lemma matchDirectoryAccessRule_eq s targetPath :
  matchDirectoryAccessRule s targetPath = matchDirectoryAccessRuleIn (default [] (DirectoryAccessRules s)) targetPath.
Proof. unfold matchDirectoryAccessRule. by destruct (DirectoryAccessRules s) as [[|]|]. Qed.

Lemma hasExisting_eq s user targetPath :
  hasExistingReadableDirectoryAccessDescendantRule s user targetPath =
  (let! r := existingReadableDirectoryAccessDescendantRuleWithRules s user targetPath
       (default [] (DirectoryAccessRules s)) in
   Ok (match r with Some _ => true | None => false end)).
Proof.
  unfold hasExistingReadableDirectoryAccessDescendantRule.
  destruct (DirectoryAccessRules s) as [[|rule rules]|] eqn:E; simpl; [|done|];
    unfold existingReadableDirectoryAccessDescendantRuleWithRules; by destruct (fs s).
Qed.

Lemma contains_iff l x : contains l x = true <-> x ∈ l.
Proof.
  unfold contains. rewrite existsb_exists. split.
  - intros (y & Hy%list_elem_of_In & ->%String.eqb_eq). done.
  - intros Hx. exists x. split; [by apply list_elem_of_In|apply String.eqb_refl].
Qed.

Lemma normalize_app l1 l2 :
  normalizeAccessRuleRuntimeValues (l1 ++ l2) = normalizeAccessRuleRuntimeValues l1 ++ normalizeAccessRuleRuntimeValues l2.
Proof. unfold normalizeAccessRuleRuntimeValues. by rewrite map_app, List.filter_app. Qed.

Lemma contains_app_r l1 l2 x : contains l2 x = true -> contains (l1 ++ l2) x = true.
Proof. rewrite !contains_iff, elem_of_app. auto. Qed.

(** The writers of a rule read. *)
Lemma write_allows_read rule user :
  directoryAccessRuleAllowsUser rule user pathAccessWrite = true ->
  directoryAccessRuleAllowsUser rule user pathAccessRead = true.
Proof.
  unfold directoryAccessRuleAllowsUser. destruct user as [u|]; [|done].
  rewrite !normalize_app. cbv zeta beta iota.
  set (x := ToLower (TrimSpace (Username u))). set (y := ToLower (TrimSpace (UserRole u))).
  intros Hw. destruct (contains _ x || contains _ y) eqn:E1 in Hw.
  { apply orb_true_iff in E1 as [E1|E1];
      rewrite (contains_app_r _ _ _ E1), ?orb_true_r; done. }
  case_goal; [done|]. apply existsb_exists in Hw as (g & Hg & Hc). apply existsb_exists.
  exists g. split; [done|]. by apply contains_app_r.
Qed.

(** ** Properties *)

(** The rule that decides is the most specific one.  The match is a configured rule, with its
    path cleaned, that contains the target; every configured rule that contains the target contains
    the match's path too, and no earlier rule has the same path; without a match, no configured
    rule contains the target, or the target is not a path that rules cover. *)
Theorem most_specific_rule rules targetPath :
  let t := cleanRuntimePathRulePath targetPath in
  match matchDirectoryAccessRuleIn rules targetPath with
  | None => t = "" \/ Forall (fun rule => ~ applies t rule) rules
  | Some r => exists l1 rule l2, rules = l1 ++ rule :: l2 /\ r = with_path rule (cleaned rule) /\
      applies t rule /\
      (forall rule', rule' ∈ rules -> applies t rule' -> pathWithinBase (cleaned rule') (Path r) = true) /\
      (forall rule', rule' ∈ l1 -> applies t rule' -> cleaned rule' <> Path r)
  end.
Proof.
  intros t. destruct (decide (t = "")) as [E|Ht].
  { unfold matchDirectoryAccessRuleIn. fold t. rewrite E. destruct rules; by left. }
  destruct (match_spec rules targetPath Ht) as (n & Hb). unfold best_so_far in Hb. fold t in Hb.
  destruct (matchDirectoryAccessRuleIn rules targetPath) as [r|]; [|right; apply Hb].
  destruct Hb as (l1 & rule & l2 & Hl & Hr & Ha & Hn & H1 & H2).
  rewrite Forall_forall in H1, H2.
  assert (Hp : Path r = cleaned rule) by by rewrite Hr.
  exists l1, rule, l2. split; [done|]. split; [done|]. split; [done|]. rewrite Hp. split.
  - intros rule' Hin Ha'. destruct Ha as [Hne Ha], Ha' as [Hne' Ha'].
    apply (longer_is_deeper _ _ t); try done; [by apply cleaned_canonical..|by apply cleanRuntime_ok|].
    rewrite Hl in Hin. apply elem_of_app in Hin as [Hin|Hin].
    + assert (applies t rule') as Hx by done. specialize (H1 _ Hin Hx). lia.
    + apply elem_of_cons in Hin as [->|Hin]; [lia|].
      assert (applies t rule') as Hx by done. specialize (H2 _ Hin Hx). lia.
  - intros rule' Hin Ha' Heq. specialize (H1 _ Hin Ha'). rewrite Heq in H1. lia.
Qed.

Lemma existing_error s user p rules e :
  existingReadableDirectoryAccessDescendantRuleWithRules s user p rules = Err e -> exists message, e = errStat message.
Proof.
  unfold existingReadableDirectoryAccessDescendantRuleWithRules. intros Ex.
  destruct (fs s) as [stat|]; [|done]. destruct rules as [|rule rules]; [done|].
  induction (readableDirectoryAccessDescendantRules _ _ _) as [|x xs IH]; [done|]. simpl in Ex.
  unfold directoryExistsForAccessRule in Ex. destruct (stat (Path x)) as [[[]|]|[]]; simpl in Ex; try done; eauto.
  injection Ex as <-. eauto.
Qed.

(** Two equivalences between decided values. *)
Ltac decided := simpl; split; split; intros; done || congruence.

(** The evaluation shown to administrators is the decision that is enforced: for a valid path,
    the user's read and write evaluations are allowed exactly when the authorization of a request
    of that user with that path succeeds, and the evaluation fails exactly when the authorization
    of the read fails to inspect a directory, with the same error. *)
Theorem evaluation_is_enforced s user targetPath p :
  validatePath targetPath = Ok p ->
  match evaluateUserPathAccess s user targetPath with
  | Ok r =>
    (Allowed (res_Read r) = true <-> authorizeUserReadPath s user targetPath = Ok tt) /\
    (Allowed (res_Write r) = true <-> authorizeUserWritePath s user targetPath = Ok tt)
  | Err e => authorizeUserReadPath s user targetPath = Err e /\ exists message, e = errStat message
  end.
Proof.
  intros Hp. unfold evaluateUserPathAccess, evaluateUserPathAccessWithRules,
    evaluateUserPathAccessModeWithRules, authorizeUserReadPath, authorizeUserWritePath,
    authorizeUserPathFor, authorizeUserPathForOptions, currentUserHomeDir.
  rewrite Hp, matchDirectoryAccessRule_eq, hasExisting_eq.
  destruct (authEnabled s); [|decided]. simpl.
  destruct user as [u|]; [|decided]. simpl. destruct (Disabled u); simpl; [rewrite andb_false_r; decided|].
  rewrite andb_true_r. destruct (String.eqb (UserRole u) RoleAdmin); [decided|].
  destruct (matchDirectoryAccessRuleIn _ p) as [rule|]; simpl.
  { destruct (directoryAccessRuleAllowsUser rule (Some u) pathAccessRead),
      (directoryAccessRuleAllowsUser rule (Some u) pathAccessWrite); decided. }
  destruct (existingReadableDirectoryAccessDescendantRuleWithRules _ _ _ _) as [[rule|]|e] eqn:Ex; simpl.
  3: { split; [done|]. by eapply existing_error. }
  all: destruct (validatePath (HomeDir u)) as [home|], (String.eqb (TrimSpace (HomeDir u)) ""); try decided;
    simpl; destruct (pathWithinBase home p); decided.
Qed.

(** The authorizer that a deletion captures decides every path as the authorization of a write
    would; there is none exactly when every write is authorized unconditionally; and when it cannot
    be captured, no write of a valid path is authorized. *)
Theorem delete_authorizer_agrees s user :
  match deletePathAuthorizerSnapshot s user with
  | Ok (Some authorize) => forall targetPath, authorize targetPath = authorizeUserWritePath s user targetPath
  | Ok None => forall targetPath, authorizeUserWritePath s user targetPath = Ok tt
  | Err e => forall targetPath p, validatePath targetPath = Ok p -> authorizeUserWritePath s user targetPath = Err e
  end.
Proof.
  unfold deletePathAuthorizerSnapshot, authorizeUserWritePath, authorizeUserPathFor,
    authorizeUserPathForOptions, currentUserHomeDir.
  destruct (negb (authEnabled s) || IsAdmin user); [done|].
  destruct user as [u|]; cycle 1.
  { by intros targetPath p ->. }
  destruct (Disabled u); [by intros targetPath p ->|]. intros targetPath.
  destruct (validatePath targetPath) as [p|]; [|done].
  rewrite matchDirectoryAccessRule_eq. destruct (matchDirectoryAccessRuleIn _ p); [done|]. simpl.
  destruct (String.eqb (TrimSpace (HomeDir u)) ""); [done|]. by destruct (validatePath (HomeDir u)).
Qed.

(** Writing implies reading: whoever may write a path may read it concretely, and the read that
    also counts readable descendants succeeds or fails to inspect a directory. *)
Theorem writable_is_readable s user targetPath :
  authorizeUserWritePath s user targetPath = Ok tt ->
  authorizeUserConcreteReadPath s user targetPath = Ok tt /\
  (authorizeUserReadPath s user targetPath = Ok tt \/
   exists message, hasExistingReadableDirectoryAccessDescendantRule s user
     (default "" (match validatePath targetPath with Ok p => Some p | Err _ => None end)) = Err message).
Proof.
  unfold authorizeUserWritePath, authorizeUserConcreteReadPath, authorizeUserReadPath,
    authorizeUserPathFor, authorizeUserPathForOptions.
  destruct (negb (authEnabled s) || IsAdmin user); [auto|].
  destruct (validatePath targetPath) as [p|]; [|done]. destruct user as [u|]; [|done].
  destruct (Disabled u); [done|]. destruct (matchDirectoryAccessRule s p) as [rule|].
  - destruct (directoryAccessRuleAllowsUser rule (Some u) pathAccessWrite) eqn:Ew; [|done].
    rewrite (write_allows_read _ _ Ew). auto.
  - simpl. intros Hw. split; [done|].
    destruct (hasExistingReadableDirectoryAccessDescendantRule s (Some u) p) as [[]|e]; eauto.
Qed.

Lemma readableRules_spec targetPath user rules r :
  r ∈ readableRules targetPath user rules ->
  exists rule, rule ∈ rules /\ r = with_path rule (cleaned rule) /\ cleaned rule <> "" /\ cleaned rule <> targetPath /\
    pathWithinBase targetPath (cleaned rule) = true /\
    directoryAccessRuleAllowsUser rule (Some user) pathAccessRead = true.
Proof.
  induction rules as [|rule rules IH]; simpl; [by intros ?%elem_of_nil|]. fold (cleaned rule). intros Hr.
  assert (Hrest : r ∈ readableRules targetPath user rules -> exists rule', rule' ∈ rule :: rules /\ r = with_path rule' (cleaned rule') /\
    cleaned rule' <> "" /\ cleaned rule' <> targetPath /\ pathWithinBase targetPath (cleaned rule') = true /\
    directoryAccessRuleAllowsUser rule' (Some user) pathAccessRead = true).
  { intros (rule' & ? & ?)%IH. exists rule'. split; [by right|done]. }
  destruct (String.eqb (cleaned rule) "") eqn:E1; [auto|].
  destruct (String.eqb (cleaned rule) "/" || String.eqb (cleaned rule) targetPath) eqn:E2; [auto|].
  destruct (pathWithinBase targetPath (cleaned rule)) eqn:E3; [|auto].
  destruct (directoryAccessRuleAllowsUser rule (Some user) pathAccessRead) eqn:E4; simpl in Hr; [|auto].
  apply elem_of_cons in Hr as [->|?]; [|auto]. b2p. exists rule. split; [left|]. done.
Qed.

Lemma firstExisting_spec stat rules r :
  firstExisting stat rules = Ok (Some r) -> r ∈ rules /\ stat (Path r) = Ok (Some true).
Proof.
  induction rules as [|x rules IH]; simpl; [done|]. unfold directoryExistsForAccessRule.
  destruct (stat (Path x)) as [[[]|]|[]] eqn:E; simpl; intros Hr; try done.
  1: simplify_eq; split; [left|done].
  all: destruct (IH Hr); split; [by right|done].
Qed.

(** A directory becomes readable through its descendants only for a reason: when a read is
    authorized that the concrete read refuses, some configured rule strictly below the target grants
    the user read, and the directory it names exists. *)
Theorem descendant_read_has_reason s user targetPath :
  authorizeUserReadPath s user targetPath = Ok tt ->
  authorizeUserConcreteReadPath s user targetPath <> Ok tt ->
  exists u p stat rules rule,
    user = Some u /\ validatePath targetPath = Ok p /\ fs s = Some stat /\
    DirectoryAccessRules s = Some rules /\ rule ∈ rules /\
    cleaned rule <> cleanRuntimePathRulePath p /\
    pathWithinBase (cleanRuntimePathRulePath p) (cleaned rule) = true /\
    directoryAccessRuleAllowsUser rule user pathAccessRead = true /\
    stat (cleaned rule) = Ok (Some true).
Proof.
  unfold authorizeUserConcreteReadPath, authorizeUserReadPath, authorizeUserPathFor, authorizeUserPathForOptions.
  destruct (negb (authEnabled s) || IsAdmin user); [done|].
  destruct (validatePath targetPath) as [p|]; [|done]. destruct user as [u|]; [|done].
  destruct (Disabled u); [done|]. destruct (matchDirectoryAccessRule s p) as [rule|]; [by destruct (directoryAccessRuleAllowsUser rule (Some u) _)|].
  simpl. rewrite hasExisting_eq. intros Hr Hc.
  destruct (existingReadableDirectoryAccessDescendantRuleWithRules _ _ _ _) as [[r|]|e] eqn:Ex; [|done|done].
  unfold existingReadableDirectoryAccessDescendantRuleWithRules in Ex.
  destruct (fs s) as [stat|] eqn:Efs; [|done].
  destruct (DirectoryAccessRules s) as [rules|] eqn:Er; [|done]. simpl in Ex.
  destruct rules as [|x rules]; [done|]. apply firstExisting_spec in Ex as [Hin Hst].
  unfold readableDirectoryAccessDescendantRules in Hin.
  destruct (String.eqb (cleanRuntimePathRulePath p) ""); [by apply elem_of_nil in Hin|].
  destruct (String.eqb (cleanRuntimePathRulePath p) "/"); [by apply elem_of_nil in Hin|].
  apply readableRules_spec in Hin as (rule & ? & -> & ? & ? & ? & ?).
  exists u, p, stat, (x :: rules), rule. by split_and!.
Qed.

(** Writes are confined: an enabled user who is not an administrator is authorized to write a
    path only by the most specific rule that covers it or, when no rule is found for it, inside the
    user's home directory, segment by segment; a disabled or unknown user never. *)
Theorem write_confinement s user targetPath :
  authEnabled s = true -> IsAdmin user = false ->
  authorizeUserWritePath s user targetPath = Ok tt ->
  exists u p, user = Some u /\ Disabled u = false /\ validatePath targetPath = Ok p /\ canonical p /\
  match matchDirectoryAccessRuleIn (default [] (DirectoryAccessRules s)) p with
  | Some rule => directoryAccessRuleAllowsUser rule user pathAccessWrite = true
  | None => exists home, validatePath (HomeDir u) = Ok home /\
      clean_segments home `prefix_of` clean_segments p
  end.
Proof.
  intros Hauth Hadm. unfold authorizeUserWritePath, authorizeUserPathFor, authorizeUserPathForOptions, currentUserHomeDir.
  rewrite Hauth, Hadm. simpl. destruct (validatePath targetPath) as [p|] eqn:Ep; [|done].
  destruct (validatePath_ok _ _ Ep) as [Hcan _].
  destruct user as [u|]; [|done]. destruct (Disabled u) eqn:Ed; [done|].
  rewrite matchDirectoryAccessRule_eq. intros Hok. exists u, p. split_and!; try done.
  destruct (matchDirectoryAccessRuleIn _ p) as [rule|]; [by destruct (directoryAccessRuleAllowsUser rule (Some u) _)|].
  simpl in Hok. destruct (String.eqb (TrimSpace (HomeDir u)) ""); [done|].
  destruct (validatePath (HomeDir u)) as [home|] eqn:Eh; [|done].
  destruct (validatePath_ok _ _ Eh) as [Hch _].
  simpl in Hok. destruct (pathWithinBase home p) eqn:Ew; [|done].
  exists home. split; [done|]. by apply pathWithinBase_canonical.
Qed.

(** A path with a question mark or a number sign, as the rules see it. *)
Lemma cleanRuntime_query p : contains_byte "?" p = true \/ contains_byte "#" p = true -> cleanRuntimePathRulePath p = "".
Proof.
  intros Hq. unfold cleanRuntimePathRulePath. destruct (_ || negb (HasPrefix (TrimSpace p) "/")); [done|].
  assert (E : contains_any (TrimSpace p) (String backslash "?#") = true); [|by rewrite E].
  unfold contains_any. cbn [String.list_ascii_of_string existsb]. destruct Hq as [Hq|Hq]; apply TrimSpace_keeps in Hq; try done; rewrite Hq; by rewrite ?orb_true_r.
Qed.

Lemma match_query rules p : cleanRuntimePathRulePath p = "" -> matchDirectoryAccessRuleIn rules p = None.
Proof. intros E. unfold matchDirectoryAccessRuleIn. destruct rules; [done|]. by rewrite E. Qed.

Lemma descendants_query s user p : cleanRuntimePathRulePath p = "" -> hasExistingReadableDirectoryAccessDescendantRule s user p = Ok false.
Proof.
  intros E. unfold hasExistingReadableDirectoryAccessDescendantRule. destruct (DirectoryAccessRules s) as [[|rule rules]|]; [done| |done].
  unfold existingReadableDirectoryAccessDescendantRuleWithRules. destruct (fs s) as [stat|]; [|done].
  unfold readableDirectoryAccessDescendantRules. rewrite E. by destruct user.
Qed.

(** The server without directory access rules. *)
Definition without_rules (s : Server) : Server :=
  {| authEnabled := authEnabled s; DirectoryAccessRules := None; fs := fs s |}.

(** C34: No directory access rule covers a path that has a question mark or a number sign in it, although
    such a path is valid: whatever the rules are, the lookup for it answers that none matches, every
    authorization of it, to read or to write, for every user, is decided as if there were no rules at
    all, and so is its deletion.  (In the witness a user whose home is "/srv" is refused a file in a
    directory without readers and writers, but may write the file whose name ends in a question mark.) *)
Theorem rule_misses_query_characters targetPath p :
  validatePath targetPath = Ok p -> contains_byte "?" p = true \/ contains_byte "#" p = true ->
  (forall rules, matchDirectoryAccessRuleIn rules p = None) /\
  (forall s user mode allowReadableDescendant,
     authorizeUserPathForOptions s user targetPath mode allowReadableDescendant =
     authorizeUserPathForOptions (without_rules s) user targetPath mode allowReadableDescendant) /\
  (forall s user authorize, deletePathAuthorizerSnapshot s user = Ok (Some authorize) ->
     authorize targetPath = authorizeUserWritePath (without_rules s) user targetPath).
Proof.
  intros Hp Hq. apply cleanRuntime_query in Hq as E. pose proof (fun rules => match_query rules p E) as Hm. split; [exact Hm|].
  assert (Hall : forall s user mode allow,
    authorizeUserPathForOptions s user targetPath mode allow = authorizeUserPathForOptions (without_rules s) user targetPath mode allow).
  { intros s user mode allow. unfold authorizeUserPathForOptions. cbn [authEnabled without_rules]. rewrite Hp, !matchDirectoryAccessRule_eq, !Hm.
    by rewrite !descendants_query. }
  split; [exact Hall|]. intros s user authorize Ha.
  unfold authorizeUserWritePath, authorizeUserPathFor, authorizeUserPathForOptions, currentUserHomeDir. unfold deletePathAuthorizerSnapshot in Ha.
  cbn [authEnabled without_rules]. destruct (negb (authEnabled s) || IsAdmin user); [done|]. rewrite Hp.
  destruct user as [u|]; [|done]. destruct (Disabled u); [done|]. injection Ha as <-. rewrite Hp, Hm, matchDirectoryAccessRule_eq, Hm.
  cbn [andb bool_decide]. destruct (String.eqb _ _); [done|]. by destruct (validatePath (HomeDir u)).
Qed.

End Rules.

(** ** Concrete inputs *)

Definition ex_user : User :=
  (profile "u1" "Ann" "user" ["Family"] false "/home/ann" 0 0).
Definition ex_rule (p : string) (readers writers : list string) : Rule :=
  {| Path := p; ReadUsers := []; WriteUsers := []; ReadGroups := readers; WriteGroups := writers;
     ReadRoles := []; WriteRoles := [] |}.
Definition ex_server : Server :=
  {| authEnabled := true;
     DirectoryAccessRules := Some [ex_rule "/team" [] ["family "]; ex_rule "/team/secret" [] []; ex_rule "/pub/doc" ["family"] []];
     fs := Some (fun p => if String.eqb p "/pub/doc" then Ok (Some true) else Err StatMissing) |}.

Example ex_decisions :
  authorizeUserWritePath ex_server (Some ex_user) "/team/a" = Ok tt /\
  authorizeUserWritePath ex_server (Some ex_user) "/team/secret/a" = Err errPathAccessDenied /\
  authorizeUserReadPath ex_server (Some ex_user) "/pub" = Ok tt /\
  authorizeUserConcreteReadPath ex_server (Some ex_user) "/pub" = Err errPathOutsideHomeDir /\
  authorizeUserWritePath ex_server (Some ex_user) "/home/ann/x" = Ok tt /\
  authorizeUserWritePath ex_server (Some ex_user) "/home/anna" = Err errPathOutsideHomeDir.
Proof. vm_compute. split_and!; reflexivity. Qed.

Lemma evaluation_is_enforced_witness :
  validatePath "/team/a" = Ok "/team/a" /\
  match evaluateUserPathAccess ex_server (Some ex_user) "/team/a" with
  | Ok r =>
    (Allowed (res_Read r) = true <-> authorizeUserReadPath ex_server (Some ex_user) "/team/a" = Ok tt) /\
    (Allowed (res_Write r) = true <-> authorizeUserWritePath ex_server (Some ex_user) "/team/a" = Ok tt)
  | Err e => authorizeUserReadPath ex_server (Some ex_user) "/team/a" = Err e /\ exists message, e = errStat message
  end.
Proof. split; [vm_compute; reflexivity|]. apply (evaluation_is_enforced _ _ _ "/team/a"). vm_compute. reflexivity. Defined.

Lemma writable_is_readable_witness :
  authorizeUserConcreteReadPath ex_server (Some ex_user) "/team/a" = Ok tt.
Proof. apply writable_is_readable. vm_compute. reflexivity. Defined.

Lemma descendant_read_has_reason_witness : exists rules rule,
  DirectoryAccessRules ex_server = Some rules /\ rule ∈ rules /\ pathWithinBase "/pub" (cleaned rule) = true.
Proof.
  edestruct (descendant_read_has_reason ex_server (Some ex_user) "/pub")
    as (u & p & stat & rules & rule & _ & [= <-] & _ & Hr & Hin & _ & Hw & _).
  - vm_compute. reflexivity.
  - vm_compute. discriminate.
  - exists rules, rule. split; [exact Hr|]. split; [exact Hin|exact Hw].
Defined.

Lemma write_confinement_witness : exists home,
  validatePath (HomeDir ex_user) = Ok home /\ clean_segments home `prefix_of` clean_segments "/home/ann/x".
Proof.
  edestruct (write_confinement ex_server (Some ex_user) "/home/ann/x")
    as (u & p & [= <-] & _ & [= <-] & _ & Hh); [reflexivity|reflexivity|vm_compute; reflexivity|exact Hh].
Defined.

Lemma rule_misses_query_characters_witness :
  let s := {| authEnabled := true; DirectoryAccessRules := Some [ex_rule "/srv/private" [] []]; fs := None |} in
  let user := Some (profile "u" "u" "user" [] false "/srv" 0 0) in
  authorizeUserWritePath s user "/srv/private/plan" = Err errPathAccessDenied /\
  authorizeUserWritePath s user "/srv/private/plan?" = Ok tt.
Proof.
  intros s user. split; [vm_compute; reflexivity|].
  destruct (rule_misses_query_characters "/srv/private/plan?" "/srv/private/plan?") as (_ & H & _); [vm_compute; reflexivity|left; reflexivity|].
  unfold authorizeUserWritePath, authorizeUserPathFor. rewrite (H s user pathAccessWrite true). vm_compute. reflexivity.
Defined.

End AccessRules.
