(* ===== verification/VersioningPolicy.v ===== *)
(** * internal/versionstore/policy.go

    Which files are versioned.  The store's overrides are a function of the path: the lookup
    [GetVersioningOverride] is a database query. *)

From Stdlib Require Import Ascii.
From S2P Require Import Prelude GoStrings.

Module VersioningPolicy.

(** [Store.GetVersioningOverride]: the override of a path, if one exists. *)
Definition Store : Type := string -> option bool.

Record VersioningPolicy := {
  AutoVersionedExtensions : list string;
  AutoVersionedFilenames : list string;
  MaxVersionedSize : Z;
  store : option Store;
}.

Definition MaxVersionObjectSize : Z := 100 * 1024 * 1024.

Section Policy.
Context `{Unicode}.

Definition normalizeConfiguredVersionedExtension (ext : string) : string := ToLower (TrimSpace ext).
Definition normalizeConfiguredVersionedFilename (filename : string) : string := TrimSpace filename.

Definition DefaultVersioningPolicy (store : option Store) : VersioningPolicy := {|
  AutoVersionedExtensions := [
    ".md"; ".txt"; ".org"; ".rst"; ".tex"; ".rtf";
    ".go"; ".rs"; ".py"; ".ts"; ".js"; ".tsx"; ".jsx";
    ".c"; ".cpp"; ".h"; ".hpp"; ".java"; ".kt"; ".swift";
    ".rb"; ".php"; ".cs"; ".fs"; ".scala"; ".clj";
    ".lua"; ".pl"; ".r"; ".jl"; ".hs"; ".elm"; ".ex"; ".exs";
    ".toml"; ".yaml"; ".yml"; ".json"; ".xml"; ".ini"; ".conf";
    ".env"; ".properties";
    ".sh"; ".bash"; ".zsh"; ".fish"; ".ps1"; ".bat"; ".cmd";
    ".html"; ".htm"; ".css"; ".scss"; ".sass"; ".less";
    ".vue"; ".svelte";
    ".csv"; ".sql"; ".graphql"];
  AutoVersionedFilenames := [
    "Makefile"; "Dockerfile"; "Vagrantfile"; "Procfile";
    "Gemfile"; "Rakefile"; "Brewfile";
    "LICENSE"; "README"; "CHANGELOG"; "AUTHORS"; "CONTRIBUTORS";
    "INSTALL"; "TODO"; "COPYING"; "NOTICE";
    ".gitignore"; ".dockerignore"; ".editorconfig"; ".gitattributes";
    ".prettierrc"; ".eslintrc"; ".babelrc"; ".npmrc"; ".yarnrc";
    "go.mod"; "go.sum"; "Cargo.toml"; "Cargo.lock";
    "package.json"; "package-lock.json"; "yarn.lock"; "pnpm-lock.yaml";
    "requirements.txt"; "Pipfile"; "Pipfile.lock"; "poetry.lock";
    "composer.json"; "composer.lock"];
  MaxVersionedSize := MaxVersionObjectSize;
  store := store |}.

Definition IsVersionedExtension (p : VersioningPolicy) (ext : string) : bool :=
  let ext := normalizeConfiguredVersionedExtension ext in
  existsb (fun versionedExt => String.eqb ext (normalizeConfiguredVersionedExtension versionedExt))
    (AutoVersionedExtensions p).

Definition IsVersionedFilename (p : VersioningPolicy) (filename : string) : bool :=
  let filename := normalizeConfiguredVersionedFilename filename in
  existsb (fun versionedName => String.eqb filename (normalizeConfiguredVersionedFilename versionedName))
    (AutoVersionedFilenames p).

(** The store's override, if there is a store and it has one. *)
Definition override (p : VersioningPolicy) (path : string) : option bool :=
  match store p with Some GetVersioningOverride => GetVersioningOverride path | None => None end.

Definition ShouldVersion (p : VersioningPolicy) (path : string) (fileSize : Z) : bool :=
  if (fileSize <? 0) || (MaxVersionObjectSize <? fileSize) then false
  else match override p path with
  | Some enabled => enabled
  | None =>
    if (0 <? MaxVersionedSize p) && (MaxVersionedSize p <? fileSize) then false
    else
      let ext := normalizeConfiguredVersionedExtension (Ext path) in
      if existsb (fun versionedExt => String.eqb ext (normalizeConfiguredVersionedExtension versionedExt))
           (AutoVersionedExtensions p) then true
      else
        let filename := normalizeConfiguredVersionedFilename (Base path) in
        existsb (fun versionedName => String.eqb filename (normalizeConfiguredVersionedFilename versionedName))
          (AutoVersionedFilenames p)
  end.

Definition GetVersioningStatus (p : VersioningPolicy) (path : string) (fileSize : Z) : bool * string :=
  if (fileSize <? 0) || (MaxVersionObjectSize <? fileSize) then (false, "file_too_large")
  else match override p path with
  | Some enabled => if enabled then (true, "user_override_enabled") else (false, "user_override_disabled")
  | None =>
    if (0 <? MaxVersionedSize p) && (MaxVersionedSize p <? fileSize) then (false, "file_too_large")
    else
      let ext := normalizeConfiguredVersionedExtension (Ext path) in
      if existsb (fun versionedExt => String.eqb ext (normalizeConfiguredVersionedExtension versionedExt))
           (AutoVersionedExtensions p) then (true, "extension_match")
      else
        let filename := normalizeConfiguredVersionedFilename (Base path) in
        if existsb (fun versionedName => String.eqb filename (normalizeConfiguredVersionedFilename versionedName))
             (AutoVersionedFilenames p) then (true, "filename_match")
        else (false, "not_versioned_type")
  end.

(** ** Properties *)

(** The decision, the reported status and the two classification queries agree.  The status
    enables exactly what [ShouldVersion] versions; nothing outside the object size limit is
    versioned, whatever the override; inside it an override decides; and without one a file is
    versioned exactly when it respects the configured threshold (if positive) and its extension or
    its name is classified as versioned. *)
Theorem versioning_decision p path fileSize :
  fst (GetVersioningStatus p path fileSize) = ShouldVersion p path fileSize /\
  (ShouldVersion p path fileSize = true <->
     0 <= fileSize <= MaxVersionObjectSize /\
     match override p path with
     | Some enabled => enabled = true
     | None => (0 < MaxVersionedSize p -> fileSize <= MaxVersionedSize p) /\
         (IsVersionedExtension p (Ext path) = true \/ IsVersionedFilename p (Base path) = true)
     end).
Proof.
  unfold GetVersioningStatus, ShouldVersion, IsVersionedExtension, IsVersionedFilename.
  destruct (fileSize <? 0) eqn:E1; simpl; [split; [done|]; split; [done|lia]|].
  destruct (MaxVersionObjectSize <? fileSize) eqn:E2; [split; [done|]; split; [done|lia]|].
  assert (0 <= fileSize <= MaxVersionObjectSize) by (b2p; lia).
  destruct (override p path) as [[]|]; [split; [done|]; split; [done|]; by intros [_ ?]..|].
  assert (Hthr : (0 <? MaxVersionedSize p) && (MaxVersionedSize p <? fileSize) = false <->
    (0 < MaxVersionedSize p -> fileSize <= MaxVersionedSize p))
    by (rewrite andb_false_iff, Z.ltb_ge, Z.ltb_ge; lia).
  destruct ((0 <? MaxVersionedSize p) && _); [split; [done|]; split; [done|]; intros (_ & ?%Hthr & _); done|].
  apply proj1 in Hthr. specialize (Hthr eq_refl). simpl.
  destruct (existsb _ (AutoVersionedExtensions p)); [split; [done|]; split; auto|].
  destruct (existsb _ (AutoVersionedFilenames p)); split; try done; split; auto.
  intros (_ & _ & [?|?]); done.
Qed.

End Policy.

Example ex_policy :
  ShouldVersion (DefaultVersioningPolicy None) "/Docs/Plan.MD" 10 = true /\
  GetVersioningStatus (DefaultVersioningPolicy None) "/bin/Makefile" 10 = (true, "filename_match") /\
  GetVersioningStatus (DefaultVersioningPolicy (Some (fun _ => Some true))) "/a.bin" 104857601 = (false, "file_too_large").
Proof. vm_compute. split_and!; reflexivity. Qed.

End VersioningPolicy.
