(* ===== verification/PathLock.v ===== *)
(** * internal/webdav/pathlock.go

    Reference-counted read-write locks per path.  The map is guarded by [pl.mu], so every access to
    it is one step; between [acquire] and the grant of the [sync.RWMutex] other goroutines run.
    The goroutines inside an operation are part of the state; a [sync.RWMutex] is its number of
    readers and whether it is held for writing. *)

From S2P Require Import Prelude GoStrings.

Module PathLock.

Inductive mode := Read | Write.

#[export] Instance mode_eq_dec : EqDecision mode.
Proof. solve_decision. Defined.

(** [sync.RWMutex] *)
Record RWMutex := { readers : Z; writer : bool }.

Definition new_mutex : RWMutex := {| readers := 0; writer := false |}.

(** [RLock] or [Lock]; [None] while the caller blocks. *)
Definition rw_lock (m : mode) (rw : RWMutex) : option RWMutex :=
  match m with
  | Read => if writer rw then None else Some {| readers := readers rw + 1; writer := false |}
  | Write => if writer rw || (0 <? readers rw) then None else Some {| readers := readers rw; writer := true |}
  end.

Definition rw_unlock (m : mode) (rw : RWMutex) : RWMutex :=
  match m with
  | Read => {| readers := readers rw - 1; writer := writer rw |}
  | Write => {| readers := readers rw; writer := false |}
  end.

(** [lock] is the address of the mutex. *)
Record lockEntry := { lock : nat; refCount : Z }.

(** A goroutine inside an operation on [path]: blocked in a lock, in a try, holding, or a failed try
    about to release its reference.  [a] is the mutex that its [acquire] returned. *)
Inductive goroutine :=
| Waiting (m : mode) (path : string) (a : nat)
| Trying (m : mode) (path : string) (a : nat)
| Holding (m : mode) (path : string)
| Failed (path : string).

Record PathLock := {
  locks : gmap string lockEntry;
  mutexes : gmap nat RWMutex;
  goroutines : gmap nat goroutine;
}.

Definition NewPathLock : PathLock := {| locks := ∅; mutexes := ∅; goroutines := ∅ |}.

Definition with_locks (pl : PathLock) (l : gmap string lockEntry) : PathLock :=
  {| locks := l; mutexes := mutexes pl; goroutines := goroutines pl |}.
Definition with_mutexes (pl : PathLock) (m : gmap nat RWMutex) : PathLock :=
  {| locks := locks pl; mutexes := m; goroutines := goroutines pl |}.
Definition with_goroutine (pl : PathLock) (g : nat) (x : goroutine) : PathLock :=
  {| locks := locks pl; mutexes := mutexes pl; goroutines := <[g:=x]> (goroutines pl) |}.
Definition done_goroutine (pl : PathLock) (g : nat) : PathLock :=
  {| locks := locks pl; mutexes := mutexes pl; goroutines := delete g (goroutines pl) |}.

(** ** Operations on the map *)

Definition acquire (pl : PathLock) (path : string) : PathLock * nat :=
  match locks pl !! path with
  | Some entry =>
    (with_locks pl (<[path := {| lock := lock entry; refCount := int32 (refCount entry + 1) |}]> (locks pl)), lock entry)
  | None =>
    let a := alloc (mutexes pl) in
    let pl := with_mutexes pl (<[a := new_mutex]> (mutexes pl)) in
    (with_locks pl (<[path := {| lock := a; refCount := int32 (0 + 1) |}]> (locks pl)), a)
  end.

(** The decrement shared by [release], [RUnlock] and [Unlock]. *)
Definition decrement (pl : PathLock) (path : string) (entry : lockEntry) : PathLock :=
  let newCount := int32 (refCount entry - 1) in
  if newCount <=? 0 then with_locks pl (delete path (locks pl))
  else with_locks pl (<[path := {| lock := lock entry; refCount := newCount |}]> (locks pl)).

Definition release (pl : PathLock) (path : string) : PathLock :=
  match locks pl !! path with
  | Some entry => decrement pl path entry
  | None => pl
  end.

(** [RUnlock] and [Unlock], by the mode. *)
Definition unlock (m : mode) (pl : PathLock) (path : string) : PathLock :=
  match locks pl !! path with
  | None => pl
  | Some entry =>
    let pl :=
      match mutexes pl !! lock entry with
      | Some rw => with_mutexes pl (<[lock entry := rw_unlock m rw]> (mutexes pl))
      | None => pl
      end in
    decrement pl path entry
  end.

Definition RUnlock : PathLock -> string -> PathLock := unlock Read.
Definition Unlock : PathLock -> string -> PathLock := unlock Write.

Definition Size (pl : PathLock) : Z := Z.of_nat (size (locks pl)).

(** ** Operations of a goroutine, in their steps

    [RLock] and [Lock]: [acquire], then the mutex.  [TryRLock] and [TryLock]: [acquire], then one
    attempt, which fails if the mutex is taken or a writer waits for it, then [release]. *)

Definition acquired (pl : PathLock) (g : nat) (path : string) (k : nat -> goroutine) : PathLock :=
  let '(pl, a) := acquire pl path in with_goroutine pl g (k a).

(** The mutex at [a] is granted to [g]. *)
Definition granted (pl : PathLock) (g : nat) (m : mode) (path : string) (a : nat) : option PathLock :=
  match mutexes pl !! a with
  | Some rw =>
    match rw_lock m rw with
    | Some rw' => Some (with_goroutine (with_mutexes pl (<[a:=rw']> (mutexes pl))) g (Holding m path))
    | None => None
    end
  | None => None
  end.

(** Fewer than [2^31] goroutines are inside operations. *)
Definition room (pl : PathLock) : Prop := Z.of_nat (size (goroutines pl)) < maxInt32.

Inductive step (pl : PathLock) : PathLock -> Prop :=
| step_lock g m path : goroutines pl !! g = None -> room pl ->
    step pl (acquired pl g path (Waiting m path))
| step_granted g m path a pl' : goroutines pl !! g = Some (Waiting m path a) ->
    granted pl g m path a = Some pl' -> step pl pl'
| step_try g m path : goroutines pl !! g = None -> room pl ->
    step pl (acquired pl g path (Trying m path))
| step_try_true g m path a pl' : goroutines pl !! g = Some (Trying m path a) ->
    granted pl g m path a = Some pl' -> step pl pl'
| step_try_false g m path a : goroutines pl !! g = Some (Trying m path a) ->
    (granted pl g m path a = None \/
     exists g' path', goroutines pl !! g' = Some (Waiting Write path' a)) ->
    step pl (with_goroutine pl g (Failed path))
| step_release g path : goroutines pl !! g = Some (Failed path) ->
    step pl (done_goroutine (release pl path) g)
| step_unlock g m path : goroutines pl !! g = Some (Holding m path) ->
    step pl (done_goroutine (unlock m pl path) g).

Definition fresh_lock (pl : PathLock) : Prop := pl = NewPathLock.

(** ** Accounting *)

Definition path_of (x : goroutine) : string :=
  match x with Waiting _ p _ | Trying _ p _ | Holding _ p | Failed p => p end.
Definition mutex_of (x : goroutine) : option nat :=
  match x with Waiting _ _ a | Trying _ _ a => Some a | _ => None end.

Definition refs (path : string) (x : goroutine) : Z := if String.eqb (path_of x) path then 1 else 0.
Definition holds (m : mode) (path : string) (x : goroutine) : Z :=
  match x with
  | Holding m' p => if bool_decide (m' = m) && String.eqb p path then 1 else 0
  | _ => 0
  end.

Record mutex_ok (pl : PathLock) (path : string) (rw : RWMutex) : Prop := {
  mo_readers : readers rw = sum_map (holds Read path) (goroutines pl);
  mo_writer : (if writer rw then 1 else 0) = sum_map (holds Write path) (goroutines pl);
  mo_exclusive : writer rw = true -> readers rw = 0;
}.

(** What holds of one path. *)
Definition path_ok (pl : PathLock) (path : string) : Prop :=
  match locks pl !! path with
  | Some entry =>
    refCount entry = sum_map (refs path) (goroutines pl) /\ 0 < refCount entry /\
    (exists rw, mutexes pl !! lock entry = Some rw /\ mutex_ok pl path rw) /\
    (forall g x a, goroutines pl !! g = Some x -> path_of x = path -> mutex_of x = Some a -> a = lock entry)
  | None => sum_map (refs path) (goroutines pl) = 0
  end.

Record lock_ok (pl : PathLock) : Prop := {
  lk_path : forall path, path_ok pl path;
  lk_own : forall path path' entry entry', locks pl !! path = Some entry -> locks pl !! path' = Some entry' ->
    lock entry = lock entry' -> path = path';
  lk_count : Z.of_nat (size (goroutines pl)) <= maxInt32;
}.

(** ** The accounting is an invariant *)

Lemma refs_nonneg p x : 0 <= refs p x <= 1.
Proof. unfold refs. destruct (String.eqb _ _); lia. Qed.
Lemma holds_nonneg m p x : 0 <= holds m p x <= 1.
Proof. destruct x; simpl; try lia. destruct (_ && _); lia. Qed.
Lemma refs_self x : refs (path_of x) x = 1.
Proof. unfold refs. by rewrite String.eqb_refl. Qed.
Lemma refs_other p x : path_of x <> p -> refs p x = 0.
Proof. unfold refs. by intros ->%String.eqb_neq. Qed.
Lemma holds_other m p x : path_of x <> p -> holds m p x = 0.
Proof. destruct x; simpl; try done. intros ->%String.eqb_neq. by rewrite andb_false_r. Qed.

Lemma refs_sum_nonneg p (gs : gmap nat goroutine) : 0 <= sum_map (refs p) gs <= Z.of_nat (size gs).
Proof.
  split; [apply sum_map_nonneg; intros; apply refs_nonneg|apply sum_map_le_size; intros; apply refs_nonneg].
Qed.

(** A goroutine inside an operation has an entry. *)
Lemma entry_of pl g x : lock_ok pl -> goroutines pl !! g = Some x ->
  exists entry, locks pl !! path_of x = Some entry.
Proof.
  intros Hok Hg. pose proof (lk_path pl Hok (path_of x)) as Hr. unfold path_ok in Hr.
  destruct (locks pl !! path_of x) as [entry|]; [eauto|]. exfalso.
  assert (refs (path_of x) x <= sum_map (refs (path_of x)) (goroutines pl)) as Hle.
  { apply (sum_map_lookup_le _ _ g); [|done]. intros. apply refs_nonneg. }
  rewrite refs_self in Hle. lia.
Qed.

(** A sum over the goroutines after [g] is set to [o]. *)
Lemma sum_map_set (f : goroutine -> Z) (gs : gmap nat goroutine) g (o : option goroutine) :
  sum_map f (partial_alter (fun _ => o) g gs) =
  sum_map f gs - from_option f 0 (gs !! g) + from_option f 0 o.
Proof.
  destruct o as [x|]; [exact (sum_map_upsert f gs g x)|]. etrans; [exact (sum_map_remove f gs g)|]. simpl. lia.
Qed.

(** A step of [g] on [path]: only the entry of [path] and its mutex may change. *)
Record step_on (pl pl' : PathLock) (path : string) (g : nat) (o : option goroutine) : Prop := {
  so_goroutines : goroutines pl' = partial_alter (fun _ => o) g (goroutines pl);
  so_before : forall x, goroutines pl !! g = Some x -> path_of x = path;
  so_after : forall x, o = Some x -> path_of x = path;
  so_locks : forall p, p <> path -> locks pl' !! p = locks pl !! p;
  so_mutex : forall p entry, p <> path -> locks pl !! p = Some entry ->
    mutexes pl' !! lock entry = mutexes pl !! lock entry;
  so_own : forall p entry entry', p <> path -> locks pl !! p = Some entry -> locks pl' !! path = Some entry' ->
    lock entry <> lock entry';
  so_room : Z.of_nat (size (goroutines pl')) <= maxInt32;
}.

Lemma step_on_sum pl pl' path g o (f : goroutine -> Z) :
  step_on pl pl' path g o ->
  sum_map f (goroutines pl') = sum_map f (goroutines pl) - from_option f 0 (goroutines pl !! g) + from_option f 0 o.
Proof. intros Hs. rewrite (so_goroutines _ _ _ _ _ Hs). apply sum_map_set. Qed.

(** ... and leaves the other paths as they are. *)
Lemma step_on_other pl pl' path g o p :
  step_on pl pl' path g o -> p <> path -> path_ok pl p -> path_ok pl' p.
Proof.
  intros Hs Hne Hp. assert (Hsum : forall f, (forall x, path_of x <> p -> f x = 0) ->
    sum_map f (goroutines pl') = sum_map f (goroutines pl)).
  { intros f Hf. rewrite (step_on_sum _ _ _ _ _ f Hs).
    assert (from_option f 0 (goroutines pl !! g) = 0) as ->.
    { destruct (goroutines pl !! g) as [x|] eqn:E; [|done]. apply Hf. rewrite (so_before _ _ _ _ _ Hs x E). congruence. }
    assert (from_option f 0 o = 0) as ->; [|lia].
    destruct o as [x|]; [|done]. apply Hf. rewrite (so_after _ _ _ _ _ Hs x eq_refl). congruence. }
  unfold path_ok in *. rewrite (so_locks _ _ _ _ _ Hs p Hne).
  destruct (locks pl !! p) as [entry|] eqn:E; rewrite (Hsum (refs p)) by apply refs_other; [|done].
  destruct Hp as (H1 & H2 & (rw & H3 & [H4 H5 H6]) & H7). split; [done|]. split; [done|]. split.
  - exists rw. rewrite (so_mutex _ _ _ _ _ Hs p entry Hne E). split; [done|].
    split; rewrite ?Hsum by (intros; by apply holds_other); done.
  - intros g' x a Hx Hpx Ha. apply (H7 g' x a); [|done..].
    rewrite (so_goroutines _ _ _ _ _ Hs) in Hx. destruct (decide (g = g')) as [<-|Hg].
    + rewrite lookup_partial_alter_eq in Hx. exfalso. apply Hne. rewrite <-Hpx.
      by apply (so_after _ _ _ _ _ Hs).
    + by rewrite lookup_partial_alter_ne in Hx.
Qed.

Lemma step_on_ok pl pl' path g o :
  lock_ok pl -> step_on pl pl' path g o -> path_ok pl' path -> lock_ok pl'.
Proof.
  intros Hok Hs Hp. split.
  - intros p. destruct (decide (p = path)) as [->|Hne]; [done|].
    apply (step_on_other _ _ _ _ _ p Hs Hne), Hok.
  - intros p q e e' He He' Heq.
    destruct (decide (p = path)) as [->|Hp'], (decide (q = path)) as [->|Hq']; [done| | |].
    + rewrite (so_locks _ _ _ _ _ Hs) in He' by done. exfalso. by apply (so_own _ _ _ _ _ Hs q e' e).
    + rewrite (so_locks _ _ _ _ _ Hs) in He by done. exfalso. by apply (so_own _ _ _ _ _ Hs p e e').
    + rewrite !(so_locks _ _ _ _ _ Hs) in * by done. by apply (lk_own pl Hok p q e e').
  - apply Hs.
Qed.

(** An entry's mutex is not another entry's. *)
Lemma mutex_apart pl p path entry entry' (f : option RWMutex -> option RWMutex) :
  lock_ok pl -> p <> path -> locks pl !! p = Some entry -> locks pl !! path = Some entry' ->
  partial_alter f (lock entry') (mutexes pl) !! lock entry = mutexes pl !! lock entry.
Proof.
  intros Hok Hne He He'. apply lookup_partial_alter_ne. intros Heq. apply Hne.
  symmetry. by apply (lk_own pl Hok _ _ _ _ He' He).
Qed.

Lemma entry_mutex pl path entry : lock_ok pl -> locks pl !! path = Some entry ->
  exists rw, mutexes pl !! lock entry = Some rw /\ mutex_ok pl path rw.
Proof. intros Hok He. pose proof (lk_path pl Hok path) as Hp. unfold path_ok in Hp. rewrite He in Hp. apply Hp. Qed.

Definition not_holding (x : goroutine) : Prop := forall m p, holds m p x = 0.

Lemma holder_frame pl pl' path g o rw :
  step_on pl pl' path g o -> (forall x, goroutines pl !! g = Some x -> not_holding x) ->
  (forall x, o = Some x -> not_holding x) -> mutex_ok pl path rw -> mutex_ok pl' path rw.
Proof.
  intros Hs Hb Ha [H1 H2 H3].
  assert (Hsum : forall m, sum_map (holds m path) (goroutines pl') = sum_map (holds m path) (goroutines pl)).
  { intros m. rewrite (step_on_sum _ _ _ _ _ _ Hs).
    assert (from_option (holds m path) 0 (goroutines pl !! g) = 0) as ->.
    { destruct (goroutines pl !! g) as [x|] eqn:E; [by apply Hb|done]. }
    assert (from_option (holds m path) 0 o = 0) as ->; [|lia]. destruct o as [x|]; [by apply Ha|done]. }
  split; rewrite ?Hsum; done.
Qed.

(** *** Each step *)

Lemma acquired_existing pl g path x entry :
  lock_ok pl -> goroutines pl !! g = None -> room pl -> locks pl !! path = Some entry ->
  path_of x = path -> mutex_of x = Some (lock entry) -> not_holding x ->
  lock_ok (with_goroutine (with_locks pl
    (<[path := {| lock := lock entry; refCount := int32 (refCount entry + 1) |}]> (locks pl))) g x).
Proof.
  intros Hok Hg Hroom E Hp Hm Hh. set (pl' := with_goroutine _ g x). unfold room in Hroom.
  assert (Hs : step_on pl pl' path g (Some x)).
  { split; simpl; try done; [congruence|by intros ? [= <-]| | |].
    - intros p Hne. by rewrite lookup_insert_ne.
    - intros p e e' Hne He He'. rewrite lookup_insert_eq in He'. simplify_eq. simpl. intros Heq.
      by apply Hne, (lk_own pl Hok _ _ _ _ He E).
    - rewrite map_size_insert_None by done. lia. }
  apply (step_on_ok _ _ _ _ _ Hok Hs).
  pose proof (lk_path pl Hok path) as Hpath. unfold path_ok in *. rewrite E in Hpath. simpl.
  rewrite lookup_insert_eq. destruct Hpath as (H1 & H2 & (rw & H3 & H4) & H5). simpl.
  pose proof (refs_sum_nonneg path (goroutines pl)).
  assert (Hsum : sum_map (refs path) (<[g:=x]> (goroutines pl)) = refCount entry + 1).
  { rewrite sum_map_upsert, Hg. simpl. rewrite <-Hp at 2. rewrite refs_self. lia. }
  rewrite int32_id, Hsum by lia. split; [done|]. split; [lia|]. split.
  - exists rw. split; [done|]. apply (holder_frame _ _ _ _ _ _ Hs); [congruence|by intros ? [= <-]|done].
  - intros g' y a Hy Hpy Ha. destruct (decide (g = g')) as [<-|Hne].
    + rewrite lookup_insert_eq in Hy. simplify_eq. congruence.
    + rewrite lookup_insert_ne in Hy by done. eauto.
Qed.

Lemma acquired_new pl g path x :
  lock_ok pl -> goroutines pl !! g = None -> room pl -> locks pl !! path = None ->
  path_of x = path -> mutex_of x = Some (alloc (mutexes pl)) -> not_holding x ->
  lock_ok (with_goroutine (with_locks (with_mutexes pl (<[alloc (mutexes pl) := new_mutex]> (mutexes pl)))
    (<[path := {| lock := alloc (mutexes pl); refCount := int32 (0 + 1) |}]> (locks pl))) g x).
Proof.
  intros Hok Hg Hroom E Hp Hm Hh. set (pl' := with_goroutine _ g x). unfold room in Hroom.
  assert (Hfresh : forall p e, locks pl !! p = Some e -> lock e <> alloc (mutexes pl)).
  { intros p e He Heq. destruct (entry_mutex pl p e Hok He) as (rw & Hrw & _).
    rewrite Heq, alloc_fresh in Hrw. done. }
  assert (Hs : step_on pl pl' path g (Some x)).
  { split; simpl; try done; [congruence|by intros ? [= <-]| | | |].
    - intros p Hne. by rewrite lookup_insert_ne.
    - intros p e Hne He. rewrite lookup_insert_ne; [done|]. intros Heq. by apply (Hfresh p e).
    - intros p e e' Hne He He'. rewrite lookup_insert_eq in He'. simplify_eq. by apply (Hfresh p).
    - rewrite map_size_insert_None by done. lia. }
  apply (step_on_ok _ _ _ _ _ Hok Hs).
  pose proof (lk_path pl Hok path) as Hpath. unfold path_ok in *. rewrite E in Hpath. simpl.
  rewrite lookup_insert_eq. simpl.
  assert (Hnone : forall g' y, goroutines pl !! g' = Some y -> path_of y <> path).
  { intros g' y Hy Hpy. destruct (entry_of pl g' y Hok Hy) as [e He]. congruence. }
  assert (Hsum : forall f, (forall y, path_of y <> path -> f y = 0) -> sum_map f (<[g:=x]> (goroutines pl)) = f x).
  { intros f Hf. rewrite sum_map_upsert, Hg. simpl.
    assert (sum_map f (goroutines pl) = 0) as ->; [|lia].
    apply sum_map_zero. intros k y Hy. apply Hf. eauto. }
  rewrite (Hsum (refs path)) by apply refs_other. rewrite <-Hp, refs_self.
  rewrite int32_id by (unfold maxInt32; lia). split; [done|]. split; [lia|]. split.
  - exists new_mutex. rewrite lookup_insert_eq. split; [done|].
    split; simpl; [| |done]; rewrite Hsum; try (by rewrite Hh); intros; apply holds_other; congruence.
  - intros g' y a Hy Hpy Ha. destruct (decide (g = g')) as [<-|Hne].
    + rewrite lookup_insert_eq in Hy. simplify_eq. congruence.
    + rewrite lookup_insert_ne in Hy by done. exfalso. apply (Hnone g' y Hy). congruence.
Qed.

Lemma acquired_ok pl g path k :
  lock_ok pl -> goroutines pl !! g = None -> room pl ->
  (forall a, path_of (k a) = path /\ mutex_of (k a) = Some a /\ not_holding (k a)) ->
  lock_ok (acquired pl g path k).
Proof.
  intros Hok Hg Hroom Hk. unfold acquired, acquire. destruct (locks pl !! path) as [entry|] eqn:E.
  - destruct (Hk (lock entry)) as (? & ? & ?). by apply acquired_existing.
  - destruct (Hk (alloc (mutexes pl))) as (Hp & Hm & Hh).
    exact (acquired_new pl g path _ Hok Hg Hroom E Hp Hm Hh).
Qed.

Lemma rw_lock_ok pl pl' path g m rw rw' x :
  step_on pl pl' path g (Some (Holding m path)) -> goroutines pl !! g = Some x -> not_holding x ->
  mutex_ok pl path rw -> rw_lock m rw = Some rw' -> mutex_ok pl' path rw'.
Proof.
  intros Hs Hg Hx [H1 H2 H3] Hl.
  assert (Hsum : forall m', sum_map (holds m' path) (goroutines pl') =
    sum_map (holds m' path) (goroutines pl) + (if bool_decide (m = m') then 1 else 0)).
  { intros m'. rewrite (step_on_sum _ _ _ _ _ _ Hs), Hg. simpl. rewrite Hx, String.eqb_refl, andb_true_r.
    case_bool_decide; lia. }
  pose proof (sum_map_nonneg (holds Read path) (goroutines pl) ltac:(intros; apply holds_nonneg)) as Hn.
  unfold rw_lock in Hl. destruct m; destruct (writer rw) eqn:Ew; simpl in Hl; try done.
  - injection Hl as <-. split; simpl; [rewrite Hsum; simpl; lia|rewrite Hsum; simpl; lia|done].
  - destruct (0 <? readers rw) eqn:Er; [done|]. b2p. injection Hl as <-.
    split; simpl; [rewrite Hsum; simpl; lia|rewrite Hsum; simpl; lia|lia].
Qed.

Lemma granted_ok pl g m x a pl' :
  lock_ok pl -> goroutines pl !! g = Some x -> mutex_of x = Some a -> not_holding x ->
  granted pl g m (path_of x) a = Some pl' -> lock_ok pl'.
Proof.
  intros Hok Hg Ha Hx H. unfold granted in H. destruct (mutexes pl !! a) as [rw|] eqn:Erw; [|done].
  destruct (rw_lock m rw) as [rw'|] eqn:El; [|done]. injection H as <-.
  destruct (entry_of pl g x Hok Hg) as [entry He].
  pose proof (lk_path pl Hok (path_of x)) as Hpath. unfold path_ok in Hpath. rewrite He in Hpath.
  destruct Hpath as (H1 & H2 & (rw0 & H3 & H4) & H5).
  assert (a = lock entry) as -> by by eapply H5. rewrite Erw in H3. injection H3 as <-.
  set (pl' := with_goroutine _ g _).
  assert (Hs : step_on pl pl' (path_of x) g (Some (Holding m (path_of x)))).
  { split; simpl; try done.
    - intros y Hy. congruence.
    - by intros y [= <-].
    - intros p e Hne Hpe. by apply (mutex_apart pl p (path_of x)).
    - intros p e e' Hne Hpe He' Heq. by apply Hne, (lk_own pl Hok _ _ _ _ Hpe He').
    - rewrite map_size_insert_Some by eauto. apply Hok. }
  apply (step_on_ok _ _ _ _ _ Hok Hs). unfold path_ok. simpl. rewrite He.
  rewrite sum_map_upsert, Hg. simpl. rewrite (refs_self x).
  change (refs (path_of x) (Holding m (path_of x))) with (refs (path_of (Holding m (path_of x))) (Holding m (path_of x))).
  rewrite refs_self. split; [lia|]. split; [done|]. split.
  - exists rw'. rewrite lookup_insert_eq. split; [done|]. by eapply rw_lock_ok.
  - intros g' y b Hy Hpy Hb. destruct (decide (g = g')) as [<-|Hne].
    + rewrite lookup_insert_eq in Hy. by simplify_eq.
    + rewrite lookup_insert_ne in Hy by done. eauto.
Qed.

Lemma failed_ok pl g x :
  lock_ok pl -> goroutines pl !! g = Some x -> not_holding x -> lock_ok (with_goroutine pl g (Failed (path_of x))).
Proof.
  intros Hok Hg Hx. set (pl' := with_goroutine _ g _).
  assert (Hs : step_on pl pl' (path_of x) g (Some (Failed (path_of x)))).
  { split; simpl; try done.
    - intros y Hy. congruence.
    - by intros y [= <-].
    - intros p e e' Hne Hpe He' Heq. by apply Hne, (lk_own pl Hok _ _ _ _ Hpe He').
    - rewrite map_size_insert_Some by eauto. apply Hok. }
  apply (step_on_ok _ _ _ _ _ Hok Hs). unfold path_ok. simpl.
  destruct (entry_of pl g x Hok Hg) as [entry He].
  pose proof (lk_path pl Hok (path_of x)) as Hpath. unfold path_ok in Hpath. rewrite He in *.
  destruct Hpath as (H1 & H2 & (rw & H3 & H4) & H5).
  rewrite sum_map_upsert, Hg. simpl. rewrite (refs_self x).
  change (refs (path_of x) (Failed (path_of x))) with (refs (path_of (Failed (path_of x))) (Failed (path_of x))).
  rewrite refs_self. split; [lia|]. split; [done|]. split.
  - exists rw. split; [done|]. apply (holder_frame _ _ _ _ _ _ Hs); [congruence|by intros ? [= <-]|done].
  - intros g' y b Hy Hpy Hb. destruct (decide (g = g')) as [<-|Hne].
    + rewrite lookup_insert_eq in Hy. by simplify_eq.
    + rewrite lookup_insert_ne in Hy by done. eauto.
Qed.

(** [release] and [unlock] are the same step but for the mutex. *)
Definition drop (f : RWMutex -> RWMutex) (pl : PathLock) (path : string) : PathLock :=
  match locks pl !! path with
  | Some entry => decrement (with_mutexes pl (alter f (lock entry) (mutexes pl))) path entry
  | None => pl
  end.

Lemma release_drop pl path : lock_ok pl -> release pl path = drop id pl path.
Proof.
  intros Hok. unfold release, drop. destruct (locks pl !! path) as [entry|] eqn:E; [|done].
  destruct (entry_mutex pl path entry Hok E) as (rw & Hrw & _).
  rewrite (alter_id id) by done. by destruct pl.
Qed.

Lemma unlock_drop m pl path : lock_ok pl -> unlock m pl path = drop (rw_unlock m) pl path.
Proof.
  intros Hok. unfold unlock, drop. destruct (locks pl !! path) as [entry|] eqn:E; [|done].
  destruct (entry_mutex pl path entry Hok E) as (rw & Hrw & _). rewrite Hrw.
  do 2 f_equal. unfold alter, map_alter. rewrite (partial_alter_ext (fmap (rw_unlock m)) (fun _ => Some (rw_unlock m rw))); [done|].
  intros y Hy. rewrite Hrw in Hy. by simplify_eq.
Qed.

Lemma drop_ok f pl g x :
  lock_ok pl -> goroutines pl !! g = Some x -> mutex_of x = None ->
  (forall pl' rw, step_on pl pl' (path_of x) g None -> mutex_ok pl (path_of x) rw -> mutex_ok pl' (path_of x) (f rw)) ->
  lock_ok (done_goroutine (drop f pl (path_of x)) g).
Proof.
  intros Hok Hg Hm Hf. unfold drop. destruct (entry_of pl g x Hok Hg) as [entry He]. rewrite He.
  pose proof (lk_path pl Hok (path_of x)) as Hpath. unfold path_ok in Hpath. rewrite He in Hpath.
  destruct Hpath as (H1 & H2 & (rw & H3 & H4) & H5).
  pose proof (refs_sum_nonneg (path_of x) (goroutines pl)) as Hr. pose proof (lk_count pl Hok) as Hc.
  assert (Hsum : sum_map (refs (path_of x)) (delete g (goroutines pl)) = refCount entry - 1).
  { rewrite sum_map_remove, Hg. simpl. rewrite refs_self. lia. }
  assert (Hsz : Z.of_nat (size (delete g (goroutines pl))) <= maxInt32).
  { assert (size (delete g (goroutines pl)) <= size (goroutines pl))%nat; [|lia].
    rewrite map_size_delete. destruct (goroutines pl !! g); simpl; lia. }
  unfold decrement. rewrite int32_id by lia.
  assert (Hs : forall l, (forall p, p <> path_of x -> l !! p = locks pl !! p) ->
    (forall e', l !! path_of x = Some e' -> lock e' = lock entry) ->
    step_on pl (done_goroutine (with_locks (with_mutexes pl (alter f (lock entry) (mutexes pl))) l) g) (path_of x) g None).
  { intros l Hl Hle. split; simpl; try done.
    - intros y Hy. congruence.
    - intros p e Hne Hpe. by apply (mutex_apart pl p (path_of x)).
    - intros p e e' Hne Hpe He' Heq. apply Hne, (lk_own pl Hok _ _ _ _ Hpe He). rewrite Heq. by apply Hle. }
  destruct (refCount entry - 1 <=? 0) eqn:Ez; b2p.
  - eapply (step_on_ok _ _ _ _ _ Hok); [apply Hs|].
    + intros p Hne. simpl. by rewrite lookup_delete_ne.
    + intros e'. simpl. by rewrite lookup_delete_eq.
    + unfold path_ok. simpl. rewrite lookup_delete_eq. lia.
  - eapply (step_on_ok _ _ _ _ _ Hok); [apply Hs|].
    + intros p Hne. simpl. by rewrite lookup_insert_ne.
    + intros e'. simpl. rewrite lookup_insert_eq. by intros [= <-].
    + unfold path_ok. simpl. rewrite lookup_insert_eq. simpl. rewrite Hsum. split; [done|]. split; [lia|]. split.
      * exists (f rw). rewrite lookup_alter_eq, H3. split; [done|]. apply Hf; [|done]. apply Hs.
        -- intros p Hne. by rewrite lookup_insert_ne.
        -- intros e'. rewrite lookup_insert_eq. by intros [= <-].
      * intros g' y a Hy Hpy Ha. apply lookup_delete_Some in Hy as [_ Hy]. eauto.
Qed.

Lemma unlock_mutex pl pl' path g m rw :
  step_on pl pl' path g None -> goroutines pl !! g = Some (Holding m path) ->
  mutex_ok pl path rw -> mutex_ok pl' path (rw_unlock m rw).
Proof.
  intros Hs Hg [H1 H2 H3].
  assert (Hsum : forall m', sum_map (holds m' path) (goroutines pl') =
    sum_map (holds m' path) (goroutines pl) - (if bool_decide (m = m') then 1 else 0)).
  { intros m'. rewrite (step_on_sum _ _ _ _ _ _ Hs), Hg. simpl. rewrite String.eqb_refl, andb_true_r.
    case_bool_decide; lia. }
  pose proof (sum_map_nonneg (holds Write path) (goroutines pl) ltac:(intros; apply holds_nonneg)) as Hn.
  assert (Hone : 1 <= sum_map (holds m path) (goroutines pl)).
  { etrans; [|apply (sum_map_lookup_le _ _ g); [intros; apply holds_nonneg|exact Hg]].
    simpl. rewrite String.eqb_refl, bool_decide_eq_true_2 by done. simpl. lia. }
  destruct m; (split; simpl; [rewrite Hsum; simpl|rewrite Hsum; simpl|]).
  - lia.
  - lia.
  - intros Hw. specialize (H3 Hw). lia.
  - lia.
  - destruct (writer rw); lia.
  - done.
Qed.

Lemma step_lock_ok pl pl' : lock_ok pl -> step pl pl' -> lock_ok pl'.
Proof.
  intros Hok [g m path Hg Hr|g m path a pl'' Hg Hgr|g m path Hg Hr|g m path a pl'' Hg Hgr|g m path a Hg _|g path Hg|g m path Hg].
  - by apply acquired_ok.
  - by apply (granted_ok pl g m (Waiting m path a) a).
  - by apply acquired_ok.
  - by apply (granted_ok pl g m (Trying m path a) a).
  - by apply (failed_ok pl g (Trying m path a)).
  - rewrite release_drop by done. apply (drop_ok id pl g (Failed path)); [done..|].
    intros pl'' rw Hs. apply (holder_frame _ _ _ _ _ _ Hs); [|done].
    intros x Hx. rewrite Hg in Hx. by simplify_eq.
  - rewrite unlock_drop by done. apply (drop_ok _ pl g (Holding m path)); [done..|].
    intros pl'' rw Hs. by eapply unlock_mutex.
Qed.

Lemma fresh_ok pl : fresh_lock pl -> lock_ok pl.
Proof.
  intros ->. split.
  - intros path. unfold path_ok, NewPathLock. simpl. rewrite lookup_empty. apply sum_map_empty.
  - intros path path' e e' He. simpl in He. by rewrite lookup_empty in He.
  - simpl. rewrite map_size_empty. unfold maxInt32. lia.
Qed.

Lemma reachable_ok pl : reachable fresh_lock step pl -> lock_ok pl.
Proof. apply reachable_invariant; [exact fresh_ok|exact step_lock_ok]. Qed.

(** ** Properties *)

Lemma holds_ge0 m p (gs : gmap nat goroutine) g x : gs !! g = Some x -> 0 <= holds m p x.
Proof. intros _. apply holds_nonneg. Qed.

(** C33: the lock manager under any interleaving of its operations.  A path has an entry exactly while
    goroutines are inside operations on it, and the entry's count is their number, so no count is
    ever wrong or wraps, nothing leaks and the size drops to zero with the last operation.  No two
    goroutines hold one path unless both hold it for reading: the entry that a holder locked is
    still the entry of its path. *)
Theorem path_lock_exact pl :
  reachable fresh_lock step pl ->
  (forall path, match locks pl !! path with
     | Some entry => refCount entry = sum_map (refs path) (goroutines pl) /\ 0 < refCount entry <= maxInt32
     | None => forall g x, goroutines pl !! g = Some x -> path_of x <> path
     end) /\
  (goroutines pl = ∅ -> Size pl = 0) /\
  (forall g g' m path, goroutines pl !! g = Some (Holding Write path) ->
     goroutines pl !! g' = Some (Holding m path) -> g = g').
Proof.
  intros Hok%reachable_ok. split; [|split].
  - intros path. pose proof (lk_path pl Hok path) as Hp. unfold path_ok in Hp.
    destruct (locks pl !! path) as [entry|] eqn:E.
    + destruct Hp as (H1 & H2 & _). pose proof (refs_sum_nonneg path (goroutines pl)).
      pose proof (lk_count pl Hok). split; [done|lia].
    + intros g x Hx Hpx. destruct (entry_of pl g x Hok Hx) as [e He]. congruence.
  - intros Hnil. unfold Size. destruct (map_choose_or_empty (locks pl)) as [(p & e & He)| ->]; [|by rewrite map_size_empty].
    pose proof (lk_path pl Hok p) as Hp. unfold path_ok in Hp. rewrite He, Hnil, sum_map_empty in Hp. lia.
  - intros g g' m path Hg Hg'. destruct (decide (g = g')) as [|Hne]; [done|exfalso].
    destruct (entry_of pl g _ Hok Hg) as [entry He]. simpl in He.
    destruct (entry_mutex pl path entry Hok He) as (rw & _ & [H1 H2 H3]).
    assert (Hh : forall m', holds m' path (Holding m' path) = 1).
    { intros m'. simpl. by rewrite String.eqb_refl, bool_decide_eq_true_2. }
    pose proof (sum_map_lookup_le (holds Write path) _ g _ (holds_ge0 Write path _) Hg) as Hw.
    rewrite Hh in Hw. destruct (writer rw); [|lia]. specialize (H3 eq_refl). destruct m.
    + pose proof (sum_map_lookup_le (holds Read path) _ g' _ (holds_ge0 Read path _) Hg') as Hr.
      rewrite Hh in Hr. lia.
    + pose proof (sum_map_two (holds Write path) _ _ _ _ _ (holds_ge0 Write path _) Hg Hg' Hne) as Ht.
      rewrite !Hh in Ht. lia.
Qed.

(** Nobody waits for a free path: whenever no goroutine holds a path, a goroutine blocked in (or
    trying) a lock of it is granted the lock by its next step. *)
Theorem free_path_is_granted pl g m path a :
  reachable fresh_lock step pl ->
  goroutines pl !! g = Some (Waiting m path a) \/ goroutines pl !! g = Some (Trying m path a) ->
  (forall g' m', goroutines pl !! g' <> Some (Holding m' path)) ->
  is_Some (granted pl g m path a).
Proof.
  intros Hok%reachable_ok Hg Hfree.
  assert (exists x, goroutines pl !! g = Some x /\ path_of x = path /\ mutex_of x = Some a) as (x & Hx & Hp & Ha)
    by (destruct Hg; eauto).
  pose proof (lk_path pl Hok path) as Hpath. unfold path_ok in Hpath.
  destruct (entry_of pl g x Hok Hx) as [entry He]. rewrite Hp in He. rewrite He in Hpath.
  destruct Hpath as (_ & _ & (rw & Hrw & [H1 H2 _]) & Hm). rewrite (Hm g x a Hx Hp Ha) in *.
  assert (Hz : forall m', sum_map (holds m' path) (goroutines pl) = 0).
  { intros m'. apply sum_map_zero. intros g' y Hy. destruct y as [| |m'' q|]; try done. simpl.
    destruct (bool_decide (m'' = m') && String.eqb q path) eqn:E; [|done]. b2p. subst.
    exfalso. by apply (Hfree g' m'). }
  rewrite Hz in H1, H2. unfold granted. rewrite Hrw. unfold rw_lock.
  destruct (writer rw); [lia|]. rewrite H1. by destruct m.
Qed.

(** ** Concrete inputs: two writers of one path *)

Definition ex1 : PathLock := acquired NewPathLock 1 "/a" (Waiting Write "/a").
Definition ex2 : PathLock := default ex1 (granted ex1 1 Write "/a" 0).
Definition ex3 : PathLock := acquired ex2 2 "/a" (Waiting Write "/a").
Definition ex4 : PathLock := done_goroutine (Unlock ex3 "/a") 1.

Lemma ex4_reachable : reachable fresh_lock step ex4.
Proof.
  assert (reachable fresh_lock step ex1) as H1.
  { eapply reach_step; [by apply reach_init|]. apply step_lock; [reflexivity|vm_compute; reflexivity]. }
  assert (reachable fresh_lock step ex2) as H2.
  { eapply reach_step; [exact H1|]. eapply (step_granted _ 1); vm_compute; reflexivity. }
  assert (reachable fresh_lock step ex3) as H3.
  { eapply reach_step; [exact H2|]. apply step_lock; vm_compute; reflexivity. }
  eapply reach_step; [exact H3|]. apply (step_unlock ex3 1 Write "/a"). vm_compute. reflexivity.
Qed.

Example ex_blocked : granted ex3 2 Write "/a" 0 = None /\ Size ex3 = 1.
Proof. vm_compute. split; reflexivity. Qed.

Lemma path_lock_exact_witness :
  match locks ex4 !! "/a" with
  | Some entry => refCount entry = 1 /\ 0 < refCount entry <= maxInt32
  | None => False
  end.
Proof.
  destruct (path_lock_exact ex4 ex4_reachable) as [H _]. specialize (H "/a"). vm_compute in H |- *. exact H.
Defined.

Lemma free_path_is_granted_witness : is_Some (granted ex4 2 Write "/a" 0).
Proof.
  apply (free_path_is_granted ex4 2 Write "/a" 0 ex4_reachable); [left; vm_compute; reflexivity|].
  intros g' m' H. assert (goroutines ex4 = {[ 2%nat := Waiting Write "/a" 0%nat ]}) as E by (vm_compute; reflexivity).
  rewrite E in H. apply lookup_singleton_Some in H as [_ H]. discriminate H.
Defined.

End PathLock.
