(* ===== verification/Share.v ===== *)
(** * internal/share/share.go: shares

    The share record, its access and validation rules, path relocation, and the canonical order.
    Times are instants in nanoseconds since the Unix epoch; a share value is immutable here, so
    [copyShare] is the value itself. *)

From Stdlib Require Import Ascii.
From stdpp Require Import sorting.
From S2P Require Import Prelude GoStrings GoPath Paths.

Module Share.

Inductive ShareError :=
| ErrShareNotFound
| ErrShareExpired
| ErrShareDisabled
| ErrInvalidPassword
| ErrShareAccessLimit
| errInvalidShareID
| errInvalidSharePath
| errInvalidShareType
| errInvalidSharePermission
| errInvalidMaxAccess
| errShareIDImmutable
| errSharePasswordLong
| errTicketRevisionMax
| errHash (message : string)
| errAlreadyCommitted
| errCallback (message : string)
| errPersist (message : string)
| ErrTrashDeleteOperationConflict
| errInvalidTrashDeleteOperation
| ErrTrashRestoreOperationConflict
| errInvalidTrashRestoreOperation
| errRetries.

#[export] Instance ShareError_eq_dec : EqDecision ShareError.
Proof. solve_decision. Defined.

Definition ShareTypeFile : string := "file".
Definition ShareTypeFolder : string := "folder".
Definition PermissionRead : string := "read".
Definition PermissionReadWrite : string := "read_write".

Record Share := {
  ID : string;
  Path : string;
  Type_ : string;
  CreatedBy : string;
  CreatedAt : Z;
  ExpiresAt : option Z;
  PasswordHash : string;
  Permission : string;
  Enabled : bool;
  AccessCount : Z;
  MaxAccess : Z;
  LastAccess : option Z;
  Description : string;
  ticketRevision : Z;
}.

#[export] Instance Share_eq_dec : EqDecision Share.
Proof. solve_decision. Defined.

(** Field updates. *)
Definition set_path (s : Share) (p : string) : Share :=
  {| ID := ID s; Path := p; Type_ := Type_ s; CreatedBy := CreatedBy s; CreatedAt := CreatedAt s;
     ExpiresAt := ExpiresAt s; PasswordHash := PasswordHash s; Permission := Permission s;
     Enabled := Enabled s; AccessCount := AccessCount s; MaxAccess := MaxAccess s;
     LastAccess := LastAccess s; Description := Description s; ticketRevision := ticketRevision s |}.
Definition set_permission (s : Share) (p : string) : Share :=
  {| ID := ID s; Path := Path s; Type_ := Type_ s; CreatedBy := CreatedBy s; CreatedAt := CreatedAt s;
     ExpiresAt := ExpiresAt s; PasswordHash := PasswordHash s; Permission := p;
     Enabled := Enabled s; AccessCount := AccessCount s; MaxAccess := MaxAccess s;
     LastAccess := LastAccess s; Description := Description s; ticketRevision := ticketRevision s |}.
Definition set_enabled (s : Share) (b : bool) : Share :=
  {| ID := ID s; Path := Path s; Type_ := Type_ s; CreatedBy := CreatedBy s; CreatedAt := CreatedAt s;
     ExpiresAt := ExpiresAt s; PasswordHash := PasswordHash s; Permission := Permission s;
     Enabled := b; AccessCount := AccessCount s; MaxAccess := MaxAccess s;
     LastAccess := LastAccess s; Description := Description s; ticketRevision := ticketRevision s |}.
Definition set_access (s : Share) (n : Z) (t : option Z) : Share :=
  {| ID := ID s; Path := Path s; Type_ := Type_ s; CreatedBy := CreatedBy s; CreatedAt := CreatedAt s;
     ExpiresAt := ExpiresAt s; PasswordHash := PasswordHash s; Permission := Permission s;
     Enabled := Enabled s; AccessCount := n; MaxAccess := MaxAccess s;
     LastAccess := t; Description := Description s; ticketRevision := ticketRevision s |}.
Definition set_times (s : Share) (created : Z) (expires : option Z) : Share :=
  {| ID := ID s; Path := Path s; Type_ := Type_ s; CreatedBy := CreatedBy s; CreatedAt := created;
     ExpiresAt := expires; PasswordHash := PasswordHash s; Permission := Permission s;
     Enabled := Enabled s; AccessCount := AccessCount s; MaxAccess := MaxAccess s;
     LastAccess := LastAccess s; Description := Description s; ticketRevision := ticketRevision s |}.
Definition set_revision (s : Share) (r : Z) : Share :=
  {| ID := ID s; Path := Path s; Type_ := Type_ s; CreatedBy := CreatedBy s; CreatedAt := CreatedAt s;
     ExpiresAt := ExpiresAt s; PasswordHash := PasswordHash s; Permission := Permission s;
     Enabled := Enabled s; AccessCount := AccessCount s; MaxAccess := MaxAccess s;
     LastAccess := LastAccess s; Description := Description s; ticketRevision := r |}.

(** ** Access *)

Definition isExpiredAt (s : Share) (now : Z) : bool :=
  match ExpiresAt s with None => false | Some t => negb (now <? t) end.
Definition IsExpired (s : Share) (now : Z) : bool := isExpiredAt s now.
Definition HasPassword (s : Share) : bool := negb (String.eqb (PasswordHash s) "").
Definition IsAccessLimitReached (s : Share) : bool :=
  if MaxAccess s =? 0 then false else MaxAccess s <=? AccessCount s.

Definition CanAccess (s : Share) (now : Z) : option ShareError :=
  if negb (Enabled s) then Some ErrShareDisabled
  else if IsExpired s now then Some ErrShareExpired
  else if IsAccessLimitReached s then Some ErrShareAccessLimit
  else None.

Definition IsActive (s : option Share) (now : Z) : bool :=
  match s with
  | None => false
  | Some s =>
    if negb (Enabled s) then false
    else if isExpiredAt s now then false
    else if (0 <? MaxAccess s) && (MaxAccess s <=? AccessCount s) then false
    else true
  end.

Definition normalizePermission (permission : string) : string :=
  if negb (String.eqb permission PermissionRead) then PermissionRead else permission.

(** ** Validation *)

Definition hasShareDotSegment (filePath : string) : bool :=
  existsb (fun segment => String.eqb segment "." || String.eqb segment "..") (Split slash filePath).

Definition containsSharePathControlCharacter (filePath : string) : bool := has_control filePath.

Definition normalizeStoredSharePath (rawPath : string) : result ShareError string :=
  let normalized := replace_byte backslash slash rawPath in
  if containsSharePathControlCharacter normalized then Err errInvalidSharePath
  else if String.eqb (TrimSpace normalized) "" then Err errInvalidSharePath
  else if hasShareDotSegment normalized then Err errInvalidSharePath
  else Ok (Clean ("/" +:+ normalized)).

Definition normalizeLegacyStoredSharePath (rawPath : string) : result ShareError string :=
  let normalized := replace_byte backslash slash rawPath in
  if containsSharePathControlCharacter normalized then Err errInvalidSharePath
  else if String.eqb (TrimSpace normalized) "" then Err errInvalidSharePath
  else if existsb (fun segment => String.eqb segment "..") (Split slash normalized) then Err errInvalidSharePath
  else Ok (Clean ("/" +:+ normalized)).

Definition id_byte (b : ascii) : bool :=
  byte_in 97 122 b || byte_in 65 90 b || byte_in 48 57 b || Ascii.eqb b "-" || Ascii.eqb b "_".

Definition isValidShareID (id : string) : bool :=
  if String.eqb id "" || (128 <? len id) then false
  else forallb id_byte (String.list_ascii_of_string id).

Definition validateShareInvariantsWithPathNormalizer (share : Share)
    (normalizePath : string -> result ShareError string) : result ShareError Share :=
  if negb (isValidShareID (ID share)) then Err errInvalidShareID
  else
    let! cleanPath := normalizePath (Path share) in
    let share := set_path share cleanPath in
    if negb (String.eqb (Type_ share) ShareTypeFile || String.eqb (Type_ share) ShareTypeFolder)
    then Err errInvalidShareType
    else if MaxAccess share <? 0 then Err errInvalidMaxAccess
    else if String.eqb (Permission share) "" || String.eqb (Permission share) PermissionRead
    then Ok (set_permission share PermissionRead)
    else Err errInvalidSharePermission.

Definition validateShareInvariants (share : Share) : result ShareError Share :=
  validateShareInvariantsWithPathNormalizer share normalizeStoredSharePath.

Definition normalizeLegacyShareInvariants (share : Share) : result ShareError Share :=
  validateShareInvariantsWithPathNormalizer (set_permission share (normalizePermission (Permission share)))
    normalizeLegacyStoredSharePath.

Definition maxSharePasswordBytes : Z := 72.
Definition validateSharePassword (password : string) : option ShareError :=
  if maxSharePasswordBytes <? len password then Some errSharePasswordLong else None.

(** ** Paths *)

Definition sharePathMatchesOrDescendant (basePath candidatePath : string) : bool :=
  let basePath := Clean basePath in
  let candidatePath := Clean candidatePath in
  if String.eqb basePath "/" then HasPrefix candidatePath "/"
  else String.eqb candidatePath basePath || HasPrefix candidatePath (basePath +:+ "/").

Definition relocateSharePath (currentPath oldRoot newRoot : string) : option string :=
  let currentPath := Clean currentPath in
  let oldRoot := Clean oldRoot in
  let newRoot := Clean newRoot in
  if negb (sharePathMatchesOrDescendant oldRoot currentPath) then None
  else if String.eqb currentPath oldRoot then Some newRoot
  else Some (Clean (newRoot +:+ TrimPrefix currentPath oldRoot)).

(** ** Comparison *)

(** The ticket revision is not compared. *)
Definition sharesEqual (a b : Share) : bool :=
  String.eqb (ID a) (ID b) && String.eqb (Path a) (Path b) && String.eqb (Type_ a) (Type_ b) &&
  String.eqb (PasswordHash a) (PasswordHash b) && bool_decide (ExpiresAt a = ExpiresAt b) &&
  (CreatedAt a =? CreatedAt b) && String.eqb (CreatedBy a) (CreatedBy b) &&
  String.eqb (Permission a) (Permission b) && Bool.eqb (Enabled a) (Enabled b) &&
  (AccessCount a =? AccessCount b) && (MaxAccess a =? MaxAccess b) &&
  String.eqb (Description a) (Description b) && bool_decide (LastAccess a = LastAccess b).

Fixpoint shareSlicesEqual (l r : list Share) : bool :=
  match l, r with
  | [], [] => true
  | a :: l', b :: r' => sharesEqual a b && shareSlicesEqual l' r'
  | _, _ => false
  end.

(** [sortSharesCanonical]: by path, creator, creation time and ID. *)
Definition canonical_le (a b : Share) : Prop :=
  if bool_decide (Path a <> Path b) then String.le (Path a) (Path b)
  else if bool_decide (CreatedBy a <> CreatedBy b) then String.le (CreatedBy a) (CreatedBy b)
  else if bool_decide (CreatedAt a <> CreatedAt b) then CreatedAt a < CreatedAt b
  else String.le (ID a) (ID b).
#[export] Instance canonical_le_dec : RelDecision canonical_le.
Proof. intros a b. unfold canonical_le. repeat case_bool_decide; apply _. Defined.
Definition sortSharesCanonical (shares : list Share) : list Share := merge_sort canonical_le shares.

(** [sortSharesForOutput]: newest first, then by ID and path. *)
Definition output_le (a b : Share) : Prop :=
  if bool_decide (CreatedAt a <> CreatedAt b) then CreatedAt b < CreatedAt a
  else if bool_decide (ID a <> ID b) then String.le (ID a) (ID b)
  else String.le (Path a) (Path b).
#[export] Instance output_le_dec : RelDecision output_le.
Proof. intros a b. unfold output_le. repeat case_bool_decide; apply _. Defined.
Definition sortSharesForOutput (shares : list Share) : list Share := merge_sort output_le shares.

(** ** Risk *)

Inductive ShareRiskLevel := RiskNone | RiskLow | RiskMedium | RiskHigh.
Definition shareRiskLevelRank (level : ShareRiskLevel) : Z :=
  match level with RiskHigh => 3 | RiskMedium => 2 | RiskLow => 1 | RiskNone => 0 end.

(** A reason by its code; the message is a fixed text per code. *)
Record ShareRiskReason := { Code : string; Level : ShareRiskLevel }.

Definition highestShareRiskLevel (reasons : list ShareRiskReason) : ShareRiskLevel :=
  fold_left (fun level reason =>
    if shareRiskLevelRank level <? shareRiskLevelRank (Level reason) then Level reason else level) reasons RiskNone.

Fixpoint drop_slashes (s : string) : string :=
  match s with String a s' => if Ascii.eqb a slash then drop_slashes s' else s | EmptyString => s end.
Definition trim_slashes (s : string) : string := strip_trailing slash (drop_slashes s).

Definition sharePathDepth (rawPath : string) : Z :=
  let cleaned := Clean rawPath in
  if String.eqb cleaned "/" then 0 else Z.of_nat (length (Split slash (trim_slashes cleaned))).

Definition hour : Z := 3600 * 1000000000.
(** The zero [time.Time]. *)
Definition zero_time : Z := -62135596800 * 1000000000.
Definition duration (z : Z) : Z := Z.max minInt64 (Z.min maxInt64 z).

Definition Risk (s : Share) (now : Z) : ShareRiskLevel * list ShareRiskReason :=
  if negb (IsActive (Some s) now) then (RiskNone, [])
  else
    let reasons :=
      (if String.eqb (Type_ s) ShareTypeFolder && String.eqb (Clean (Path s)) "/"
       then [{| Code := "root_folder"; Level := RiskHigh |}]
       else if String.eqb (Type_ s) ShareTypeFolder && (sharePathDepth (Path s) <=? 1)
       then [{| Code := "broad_folder"; Level := RiskMedium |}] else []) ++
      (if negb (HasPassword s) then [{| Code := "no_password"; Level := RiskHigh |}] else []) ++
      (match ExpiresAt s with
       | None => [{| Code := "no_expiration"; Level := RiskMedium |}]
       | Some t =>
         let expiresIn := duration (t - now) in
         if (0 <? expiresIn) && (expiresIn <=? 72 * hour)
         then [{| Code := "expiring_soon"; Level := RiskLow |}] else []
       end) ++
      (if MaxAccess s =? 0 then [{| Code := "unlimited_access"; Level := RiskMedium |}] else []) ++
      (match LastAccess s with
       | None =>
         if negb (CreatedAt s =? zero_time) && (30 * 24 * hour <=? duration (now - CreatedAt s))
         then [{| Code := "unused_enabled"; Level := RiskLow |}] else []
       | Some t =>
         if 90 * 24 * hour <=? duration (now - t) then [{| Code := "stale_enabled"; Level := RiskLow |}] else []
       end) in
    (highestShareRiskLevel reasons, reasons).
End Share.
