(* ===== verification/ShareStore.v ===== *)
(** * internal/share/share.go and trash_delete_operations.go: the share store

    The in-memory state, its durable file, and every operation of share.go that reads or changes
    them.  [writeMu] serialises the mutations, so an operation is one function of the store and the
    outcome of its writes; the retry loop around [commitSnapshot] is [transact].  The loops over Go
    maps run in the order of [map_to_list]. *)

From Stdlib Require Import Ascii.
From stdpp Require Import sorting.
From S2P Require Import Prelude GoStrings GoPath Paths Share.
Import Share.

Module ShareStore.

(** ** State *)

Record shareTrashDeleteOperation := {
  Planned : list Share;
  Changed : list Share;
  RestoreBlocked : list string;
  Committed : bool;
  Completed : bool;
}.

Record shareTrashRestoreOperation := {
  DeleteOperationID : string;
  Original : list Share;
  Relocated : list Share;
  Restored : list Share;
}.

(** The maps of [ShareStore] and of [shareStoreSnapshot]. *)
Record State := {
  shares : gmap string Share;
  pathIdx : gmap string (list string);
  trashDeleteOperations : gmap string shareTrashDeleteOperation;
  trashRestoreOperations : gmap string shareTrashRestoreOperation;
  ticketRevisions : gmap string Z;
}.

Record shareStoreSnapshot := { snap_state : State; snap_version : Z }.

(** The durable file. *)
Record shareStoreFile := {
  Version : Z;
  file_Shares : list Share;
  file_TrashDeleteOperations : gmap string shareTrashDeleteOperation;
  file_TrashRestoreOperations : gmap string shareTrashRestoreOperation;
  file_TicketRevisions : gmap string Z;
}.

(** The store with the file it is backed by ([None] before the first write). *)
Record ShareStore := { state : State; version : Z; disk : option shareStoreFile }.

Definition empty_state : State :=
  {| shares := ∅; pathIdx := ∅; trashDeleteOperations := ∅; trashRestoreOperations := ∅; ticketRevisions := ∅ |}.
Definition NewShareStore : ShareStore := {| state := empty_state; version := 0; disk := None |}.

Definition with_shares (st : State) (x : gmap string Share) : State :=
  {| shares := x; pathIdx := pathIdx st; trashDeleteOperations := trashDeleteOperations st;
     trashRestoreOperations := trashRestoreOperations st; ticketRevisions := ticketRevisions st |}.
Definition with_pathIdx (st : State) (x : gmap string (list string)) : State :=
  {| shares := shares st; pathIdx := x; trashDeleteOperations := trashDeleteOperations st;
     trashRestoreOperations := trashRestoreOperations st; ticketRevisions := ticketRevisions st |}.
Definition with_deletes (st : State) (x : gmap string shareTrashDeleteOperation) : State :=
  {| shares := shares st; pathIdx := pathIdx st; trashDeleteOperations := x;
     trashRestoreOperations := trashRestoreOperations st; ticketRevisions := ticketRevisions st |}.
Definition with_restores (st : State) (x : gmap string shareTrashRestoreOperation) : State :=
  {| shares := shares st; pathIdx := pathIdx st; trashDeleteOperations := trashDeleteOperations st;
     trashRestoreOperations := x; ticketRevisions := ticketRevisions st |}.
Definition with_revisions (st : State) (x : gmap string Z) : State :=
  {| shares := shares st; pathIdx := pathIdx st; trashDeleteOperations := trashDeleteOperations st;
     trashRestoreOperations := trashRestoreOperations st; ticketRevisions := x |}.
Definition put_share (st : State) (id : string) (s : Share) : State := with_shares st (<[id := s]> (shares st)).

(** ** Markers of Trash deletions *)

Definition sameTrashDeleteShareGeneration (current original : Share) : bool :=
  String.eqb (ID current) (ID original) && String.eqb (Type_ current) (Type_ original) &&
  String.eqb (CreatedBy current) (CreatedBy original) && (CreatedAt current =? CreatedAt original).

Definition trashDeleteRestoreBlocked (marker : shareTrashDeleteOperation) (shareID : string) : bool :=
  existsb (fun blockedID => String.eqb blockedID shareID) (RestoreBlocked marker).

Definition sort_strings (l : list string) : list string := merge_sort String.le l.

(** The body of the loop of [blockTrashDeleteRestore]. *)
Definition blockMarker (share : Share) (excludedOperationID operationID : string)
    (marker : shareTrashDeleteOperation) : shareTrashDeleteOperation :=
  if String.eqb operationID excludedOperationID || trashDeleteRestoreBlocked marker (ID share) then marker
  else if existsb (fun changed => String.eqb (ID changed) (ID share) && sameTrashDeleteShareGeneration changed share)
            (Changed marker)
  then {| Planned := Planned marker; Changed := Changed marker;
          RestoreBlocked := sort_strings (RestoreBlocked marker ++ [ID share]);
          Committed := Committed marker; Completed := Completed marker |}
  else marker.

Definition blockTrashDeleteRestore (operations : gmap string shareTrashDeleteOperation) (share : Share)
    (excludedOperationID : string) : gmap string shareTrashDeleteOperation :=
  map_imap (fun operationID marker => Some (blockMarker share excludedOperationID operationID marker)) operations.

Definition blockTrashDeleteRestores (operations : gmap string shareTrashDeleteOperation) (l : list Share)
    (excludedOperationID : string) : gmap string shareTrashDeleteOperation :=
  fold_left (fun ops share => blockTrashDeleteRestore ops share excludedOperationID) l operations.

Definition block (st : State) (share : Share) : State :=
  with_deletes st (blockTrashDeleteRestore (trashDeleteOperations st) share "").

(** ** Ticket revisions and the path index *)

Definition bumpDownloadTicketRevision (st : State) (share : Share) : result ShareError (State * Share) :=
  let current := default 0 (ticketRevisions st !! ID share) in
  let current := if current <? ticketRevision share then ticketRevision share else current in
  if current =? maxUint64 then Err errTicketRevisionMax
  else
    let current := uint64 (current + 1) in
    Ok (with_revisions st (<[ID share := current]> (ticketRevisions st)), set_revision share current).

Fixpoint removeShareID (ids : list string) (id : string) : list string :=
  match ids with
  | [] => []
  | x :: ids' => if String.eqb x id then ids' else x :: removeShareID ids' id
  end.

(** The removal shared by [Delete], [Update] and [moveSharePathIndex]. *)
Definition dropPathIndex (idx : gmap string (list string)) (path id : string) : gmap string (list string) :=
  let ids := removeShareID (default [] (idx !! path)) id in
  match ids with [] => delete path idx | _ => <[path := ids]> idx end.

Definition addPathIndex (idx : gmap string (list string)) (path id : string) : gmap string (list string) :=
  <[path := default [] (idx !! path) ++ [id]]> idx.

Definition moveSharePathIndex (idx : gmap string (list string)) (oldPath newPath id : string)
    : gmap string (list string) := addPathIndex (dropPathIndex idx oldPath id) newPath id.

(** ** Canonical markers *)


(** The loop of [normalizeTrashDeleteShares] and [normalizeTrashRestoreShares], by their error. *)
Definition normalizeShareList (e : ShareError) (l : list (option Share)) : result ShareError (list Share) :=
  let! normalized := foldM (fun acc s =>
    match s with
    | None => Err e
    | Some s =>
      match validateShareInvariants s with
      | Err _ => Err e
      | Ok cloned => if bool_decide (ID cloned ∈ (ID <$> acc)) then Err e else Ok (acc ++ [cloned])
      end
    end) l [] in
  Ok (sortSharesCanonical normalized).

Definition normalizeTrashDeleteShares : list (option Share) -> result ShareError (list Share) :=
  normalizeShareList errInvalidTrashDeleteOperation.

Definition isValidTrashDeleteOperationID (operationID : string) : bool :=
  if negb (len operationID =? 32) then false
  else forallb (fun c => byte_in 48 57 c || byte_in 97 102 c) (String.list_ascii_of_string operationID).

Definition find_share (l : list Share) (id : string) : option Share :=
  last (List.filter (fun s => String.eqb (ID s) id) l).

Fixpoint strictly_sorted (l : list string) : bool :=
  match l with
  | x :: ((y :: _) as l') => negb (String.eqb x y) && strictly_sorted l'
  | _ => true
  end.

(** [normalizeTrashDeleteOperationMarker]; the lists of a marker in memory are not nil. *)
Definition normalizeTrashDeleteOperationMarker (marker : shareTrashDeleteOperation) (requireCanonical : bool)
    : result ShareError shareTrashDeleteOperation :=
  if Completed marker && negb (Committed marker) then Err errInvalidTrashDeleteOperation
  else
    let! planned := normalizeTrashDeleteShares (Some <$> Planned marker) in
    let! changed := normalizeTrashDeleteShares (Some <$> Changed marker) in
    if requireCanonical && (negb (shareSlicesEqual (Planned marker) planned) ||
                            negb (shareSlicesEqual (Changed marker) changed))
    then Err errInvalidTrashDeleteOperation
    else if negb (forallb (fun share =>
      match find_share planned (ID share) with
      | None => false
      | Some plannedShare =>
        String.eqb (Path plannedShare) (Path share) && Enabled plannedShare && Enabled share &&
        sameTrashDeleteShareGeneration plannedShare share
      end) changed) then Err errInvalidTrashDeleteOperation
    else
      let blocked := sort_strings (RestoreBlocked marker) in
      if negb (bool_decide (blocked = RestoreBlocked marker)) then Err errInvalidTrashDeleteOperation
      else if negb (forallb (fun shareID =>
        negb (String.eqb shareID "") && existsb (fun s => String.eqb (ID s) shareID) changed) blocked)
      then Err errInvalidTrashDeleteOperation
      else if negb (strictly_sorted blocked) then Err errInvalidTrashDeleteOperation
      else Ok {| Planned := planned; Changed := changed; RestoreBlocked := blocked;
                 Committed := Committed marker; Completed := Completed marker |}.

Definition canonical_entries {A} (f : string -> A -> result ShareError A) (operations : gmap string A)
    : result ShareError (gmap string A) :=
  foldM (fun acc '(operationID, operation) =>
    let! normalized := f operationID operation in Ok (<[operationID := normalized]> acc)) (map_to_list operations) ∅.

Definition cloneTrashDeleteOperationsCanonical (operations : gmap string shareTrashDeleteOperation)
    : result ShareError (gmap string shareTrashDeleteOperation) :=
  canonical_entries (fun operationID marker =>
    if negb (isValidTrashDeleteOperationID operationID) then Err errInvalidTrashDeleteOperation
    else normalizeTrashDeleteOperationMarker marker false) operations.

(** ** Canonical restore operations (trash_restore_operations.go) *)

Record shareTrashRestoreTransition := { t_original : Share; t_relocated : Share }.

Definition transition_le (a b : shareTrashRestoreTransition) : Prop := canonical_le (t_original a) (t_original b).
#[export] Instance transition_le_dec : RelDecision transition_le.
Proof. intros a b. unfold transition_le. apply _. Defined.

Fixpoint restoreTransitions (original relocated : list (option Share)) (acc : list shareTrashRestoreTransition)
    : result ShareError (list shareTrashRestoreTransition) :=
  match original, relocated with
  | o :: original', r :: relocated' =>
    let valid (s : option Share) :=
      match s with
      | Some s => match validateShareInvariants s with
                  | Ok s => if Enabled s then Some s else None
                  | Err _ => None
                  end
      | None => None
      end in
    match valid o, valid r with
    | Some initial, Some target =>
      if bool_decide (ID initial ∈ ((ID ∘ t_original) <$> acc)) then Err errInvalidTrashRestoreOperation
      else if negb (sharesEqual (set_path initial (Path target)) target) then Err errInvalidTrashRestoreOperation
      else restoreTransitions original' relocated' (acc ++ [{| t_original := initial; t_relocated := target |}])
    | _, _ => Err errInvalidTrashRestoreOperation
    end
  | [], [] => Ok acc
  | _, _ => Err errInvalidTrashRestoreOperation
  end.

Definition normalizeTrashRestorePlans (original relocated : list (option Share))
    : result ShareError (list Share * list Share) :=
  let! transitions := restoreTransitions original relocated [] in
  let sorted := merge_sort transition_le transitions in
  Ok (t_original <$> sorted, t_relocated <$> sorted).

Definition normalizeTrashRestoreShares : list (option Share) -> result ShareError (list Share) :=
  normalizeShareList errInvalidTrashRestoreOperation.

Definition normalizeTrashRestoreOperation (operationID : string) (operation : shareTrashRestoreOperation)
    (requireCanonical : bool) : result ShareError shareTrashRestoreOperation :=
  if negb (isValidTrashDeleteOperationID operationID) ||
     negb (isValidTrashDeleteOperationID (DeleteOperationID operation)) then Err errInvalidTrashRestoreOperation
  else
    let! (original, relocated) := normalizeTrashRestorePlans (Some <$> Original operation) (Some <$> Relocated operation) in
    let! restored := normalizeTrashRestoreShares (Some <$> Restored operation) in
    if requireCanonical && (negb (shareSlicesEqual original (Original operation)) ||
                            negb (shareSlicesEqual relocated (Relocated operation)) ||
                            negb (shareSlicesEqual restored (Restored operation)))
    then Err errInvalidTrashRestoreOperation
    else Ok {| DeleteOperationID := DeleteOperationID operation; Original := original;
               Relocated := relocated; Restored := restored |}.

Definition cloneTrashRestoreOperationsCanonical (operations : gmap string shareTrashRestoreOperation)
    : result ShareError (gmap string shareTrashRestoreOperation) :=
  canonical_entries (fun operationID operation => normalizeTrashRestoreOperation operationID operation false) operations.

(** ** Persistence *)

(** The outcome of [shareStoreWriter]: the file is replaced; it is replaced but the directory sync
    failed (a [PersistenceWarningError]); or it is left as it was. *)
Inductive WriteOutcome := Written | WrittenWithWarning | WriteFailed (message : string).

(** The JSON of a share has no ticket revision. *)
Definition json_share (s : Share) : Share := set_revision s 0.
Definition json_delete (m : shareTrashDeleteOperation) : shareTrashDeleteOperation :=
  {| Planned := json_share <$> Planned m; Changed := json_share <$> Changed m; RestoreBlocked := RestoreBlocked m;
     Committed := Committed m; Completed := Completed m |}.
Definition json_restore (r : shareTrashRestoreOperation) : shareTrashRestoreOperation :=
  {| DeleteOperationID := DeleteOperationID r; Original := json_share <$> Original r;
     Relocated := json_share <$> Relocated r; Restored := json_share <$> Restored r |}.

Definition shareStoreFormatVersion : Z := 1.

(** The file that [saveShareStoreState] writes, if the operations are canonical. *)
Definition file_of (st : State) : result ShareError shareStoreFile :=
  let serializedShares := sortSharesCanonical (snd <$> map_to_list (shares st)) in
  let! deletes := cloneTrashDeleteOperationsCanonical (trashDeleteOperations st) in
  let! restores := cloneTrashRestoreOperationsCanonical (trashRestoreOperations st) in
  Ok {| Version := shareStoreFormatVersion; file_Shares := json_share <$> serializedShares;
        file_TrashDeleteOperations := json_delete <$> deletes;
        file_TrashRestoreOperations := json_restore <$> restores;
        file_TicketRevisions := ticketRevisions st |}.

Definition saveShareStoreState (st : State) (io : WriteOutcome) : result ShareError (shareStoreFile * bool) :=
  let! file := file_of st in
  match io with
  | Written => Ok (file, false)
  | WrittenWithWarning => Ok (file, true)
  | WriteFailed message => Err (errPersist message)
  end.

Definition snapshotState (s : ShareStore) : shareStoreSnapshot :=
  {| snap_state := state s; snap_version := version s |}.

Definition commitSnapshot (s : ShareStore) (snapshot : shareStoreSnapshot) : ShareStore * bool :=
  if negb (version s =? snap_version snapshot) then (s, false)
  else ({| state := snap_state snapshot; version := uint64 (version s + 1); disk := disk s |}, true).

(** Whether the snapshot was committed; with an error, or whether there was a warning. *)
Definition persistSnapshot (s : ShareStore) (snapshot : shareStoreSnapshot) (io : WriteOutcome)
    : ShareStore * result ShareError (bool * bool) :=
  match saveShareStoreState (snap_state snapshot) io with
  | Err e => (s, Err e)
  | Ok (file, warning) =>
    let s := {| state := state s; version := version s; disk := Some file |} in
    match commitSnapshot s snapshot with
    | (s, true) => (s, Ok (true, warning))
    | (s, false) => (s, Ok (false, false))
    end
  end.

(** What the body of an operation's loop decides on a snapshot: return without a change, or persist. *)
Inductive decision (A : Type) :=
| Keep (a : A)
| Save (st : State) (a : A).
Arguments Keep {A} _.
Arguments Save {A} _ _.

(** The loop [for { snapshot := s.snapshotState(); ...; s.persistSnapshot(snapshot) }] of every
    mutation; [io] is the outcome of each attempt's write.  The result says whether it comes with a
    persistence warning. *)
Fixpoint transact {A} (attempts : nat) (s : ShareStore) (io : nat -> WriteOutcome)
    (body : State -> result ShareError (decision A)) : ShareStore * result ShareError (A * bool) :=
  match attempts with
  | O => (s, Err errRetries)
  | S attempts' =>
    let snapshot := snapshotState s in
    match body (snap_state snapshot) with
    | Err e => (s, Err e)
    | Ok (Keep a) => (s, Ok (a, false))
    | Ok (Save st a) =>
      match persistSnapshot s {| snap_state := st; snap_version := snap_version snapshot |} (io O) with
      | (s, Err e) => (s, Err e)
      | (s, Ok (true, warning)) => (s, Ok (a, warning))
      | (s, Ok (false, _)) => transact attempts' s (fun i => io (S i)) body
      end
    end
  end.

(** One attempt suffices ([transact_once]): all mutations hold [writeMu]. *)
Definition mutate {A} (s : ShareStore) (io : WriteOutcome) (body : State -> result ShareError (decision A)) :=
  transact 1 s (fun _ => io) body.

(** ** Creating *)

Record CreateShareOptions := {
  opt_Path : string;
  opt_Type : string;
  opt_CreatedBy : string;
  opt_ExpiresIn : option Z;
  opt_Password : string;
  opt_Permission : string;
  opt_MaxAccess : Z;
  opt_Description : string;
}.

Record PreparedShareCreate := { prepared_share : Share; expiresIn : option Z }.

Section Passwords.
(** [bcrypt.GenerateFromPassword] and [bcrypt.CompareHashAndPassword]. *)
Context (bcrypt_hash : string -> result string string) (bcrypt_matches : string -> string -> bool).

Definition CheckPassword (s : Share) (password : string) : bool :=
  if negb (HasPassword s) then true else bcrypt_matches (PasswordHash s) password.

(** [id] is the random ID. *)
Definition PrepareCreate (id : string) (opts : CreateShareOptions) : result ShareError PreparedShareCreate :=
  match validateSharePassword (opt_Password opts) with
  | Some e => Err e
  | None =>
    match (if String.eqb (opt_Password opts) "" then Ok "" else bcrypt_hash (opt_Password opts)) with
    | Err m => Err (errHash m)
    | Ok hash =>
      let! share := validateShareInvariants
        {| ID := id; Path := opt_Path opts; Type_ := opt_Type opts; CreatedBy := opt_CreatedBy opts;
           CreatedAt := zero_time; ExpiresAt := None; PasswordHash := hash; Permission := opt_Permission opts;
           Enabled := true; AccessCount := 0; MaxAccess := opt_MaxAccess opts; LastAccess := None;
           Description := opt_Description opts; ticketRevision := 0 |} in
      Ok {| prepared_share := share; expiresIn := opt_ExpiresIn opts |}
    end
  end.

Definition CommitPreparedCreate (s : ShareStore) (io : WriteOutcome) (now : Z) (prepared : PreparedShareCreate)
    : ShareStore * result ShareError (Share * bool) :=
  match validateShareInvariants (prepared_share prepared) with
  | Err e => (s, Err e)
  | Ok share =>
    let share := set_times share now (match expiresIn prepared with Some d => Some (now + d) | None => ExpiresAt share end) in
    mutate s io (fun st =>
      if bool_decide (is_Some (shares st !! ID share)) then Err errAlreadyCommitted
      else
        let! (st, share) := bumpDownloadTicketRevision st share in
        let st := put_share st (ID share) share in
        Ok (Save (with_pathIdx st (addPathIndex (pathIdx st) (Path share) (ID share))) share))
  end.

Definition Create (s : ShareStore) (io : WriteOutcome) (now : Z) (id : string) (opts : CreateShareOptions)
    : ShareStore * result ShareError (Share * bool) :=
  match PrepareCreate id opts with
  | Err e => (s, Err e)
  | Ok prepared => CommitPreparedCreate s io now prepared
  end.

(** ** Reading *)

Definition Get (s : ShareStore) (id : string) : result ShareError Share :=
  match shares (state s) !! id with Some share => Ok share | None => Err ErrShareNotFound end.

Definition GetByPath (s : ShareStore) (path : string) : list Share :=
  match normalizeStoredSharePath path with
  | Err _ => []
  | Ok normalizedPath =>
    sortSharesForOutput (omap (fun id => shares (state s) !! id) (default [] (pathIdx (state s) !! normalizedPath)))
  end.

Definition ListByUser (s : ShareStore) (ownerIdentifiers : list string) : list Share :=
  let acceptedOwners := List.filter (fun o => negb (String.eqb (TrimSpace o) "")) ownerIdentifiers in
  match acceptedOwners with
  | [] => []
  | _ => sortSharesForOutput
      (List.filter (fun share => existsb (String.eqb (CreatedBy share)) acceptedOwners) (snd <$> map_to_list (shares (state s))))
  end.

Definition ListAll (s : ShareStore) : list Share := sortSharesForOutput (snd <$> map_to_list (shares (state s))).

(** ** Updating and deleting *)

Definition Update (s : ShareStore) (io : WriteOutcome) (id : string) (fn : Share -> result string Share)
    : ShareStore * result ShareError (unit * bool) :=
  mutate s io (fun st =>
    match shares st !! id with
    | None => Err ErrShareNotFound
    | Some share =>
      match fn share with
      | Err m => Err (errCallback m)
      | Ok updated =>
        let! updated := validateShareInvariants updated in
        if negb (String.eqb (ID updated) id) then Err errShareIDImmutable
        else
          let st := block st share in
          let! (st, updated) := bumpDownloadTicketRevision st updated in
          let st := put_share st id updated in
          let st :=
            if negb (String.eqb (Path share) (Path updated))
            then with_pathIdx st (moveSharePathIndex (pathIdx st) (Path share) (Path updated) id) else st in
          Ok (Save st tt)
      end
    end).

Definition Delete (s : ShareStore) (io : WriteOutcome) (id : string) : ShareStore * result ShareError (unit * bool) :=
  mutate s io (fun st =>
    match shares st !! id with
    | None => Err ErrShareNotFound
    | Some share =>
      let st := block st share in
      let st := with_pathIdx st (dropPathIndex (pathIdx st) (Path share) id) in
      let st := with_shares st (delete id (shares st)) in
      Ok (Save (with_revisions st (delete id (ticketRevisions st))) tt)
    end).

(** A loop over shares that may change the state: the state, and the shares changed so far. *)
Definition loop {A} (f : State -> A -> result ShareError (option (State * Share))) (l : list A) (st : State)
    : result ShareError (State * list Share) :=
  foldM (fun '(st, changed) x =>
    let! r := f st x in
    match r with
    | None => Ok (st, changed)
    | Some (st, share) => Ok (st, changed ++ [share])
    end) l (st, []).

Definition is_empty {A} (l : list A) : bool := match l with [] => true | _ => false end.

Definition UpdatePathReferencesWithRestore (s : ShareStore) (io : WriteOutcome) (oldPath newPath : string)
    : ShareStore * result ShareError (list Share * bool) :=
  match normalizeStoredSharePath oldPath, normalizeStoredSharePath newPath with
  | Err e, _ | _, Err e => (s, Err e)
  | Ok oldPath, Ok newPath =>
    if String.eqb oldPath newPath then (s, Ok ([], false))
    else mutate s io (fun st =>
      let! (st, renamed) := loop (fun st '(id, share) =>
        match relocateSharePath (Path share) oldPath newPath with
        | None => Ok None
        | Some updatedPath =>
          if String.eqb updatedPath (Path share) then Ok None
          else
            let st := block st share in
            let! (st, updated) := bumpDownloadTicketRevision st (set_path share updatedPath) in
            let st := put_share st id updated in
            Ok (Some (with_pathIdx st (moveSharePathIndex (pathIdx st) (Path share) updatedPath id), share))
        end) (map_to_list (shares st)) st in
      if is_empty renamed then Ok (Keep []) else Ok (Save st renamed))
  end.

Definition UpdatePathReferences (s : ShareStore) (io : WriteOutcome) (oldPath newPath : string)
    : ShareStore * result ShareError (unit * bool) :=
  match UpdatePathReferencesWithRestore s io oldPath newPath with
  | (s, Ok (_, w)) => (s, Ok (tt, w))
  | (s, Err e) => (s, Err e)
  end.

(** ** Disabling *)


Definition SnapshotDeleteExact (s : ShareStore) (targetPath : string) : result ShareError (list Share) :=
  let! normalizedPath := normalizeStoredSharePath targetPath in
  Ok (sortSharesCanonical (List.filter (fun share => Enabled share && sharePathMatchesOrDescendant normalizedPath (Path share))
    (snd <$> map_to_list (shares (state s))))).

Definition ApplyDeleteExact (s : ShareStore) (io : WriteOutcome) (l : list (option Share))
    : ShareStore * result ShareError (unit * bool) :=
  if is_empty l then (s, Ok (tt, false))
  else mutate s io (fun st =>
    let! (st, changed) := loop (fun st original =>
      match original with
      | None => Ok None
      | Some original =>
        let! normalized := normalizeLegacyShareInvariants original in
        match shares st !! ID normalized with
        | None => Ok None
        | Some current =>
          if negb (Enabled current) || negb (String.eqb (Path current) (Path normalized)) then Ok None
          else
            let st := block st current in
            let! (st, updated) := bumpDownloadTicketRevision st (set_enabled current false) in
            Ok (Some (put_share st (ID normalized) updated, current))
        end
      end) l st in
    if is_empty changed then Ok (Keep tt) else Ok (Save st tt)).

Definition DisableSharesUnderPathWithRestore (s : ShareStore) (io : WriteOutcome) (targetPath : string)
    : ShareStore * result ShareError (list Share * bool) :=
  match normalizeStoredSharePath targetPath with
  | Err e => (s, Err e)
  | Ok targetPath => mutate s io (fun st =>
      let! (st, disabled) := loop (fun st '(id, share) =>
        if negb (sharePathMatchesOrDescendant targetPath (Path share)) || negb (Enabled share) then Ok None
        else
          let st := block st share in
          let! (st, updated) := bumpDownloadTicketRevision st (set_enabled share false) in
          Ok (Some (put_share st id updated, share))) (map_to_list (shares st)) st in
      if is_empty disabled then Ok (Keep []) else Ok (Save st (sortSharesCanonical disabled)))
  end.

Definition DisableSharesUnderPath (s : ShareStore) (io : WriteOutcome) (targetPath : string)
    : ShareStore * result ShareError (unit * bool) :=
  match DisableSharesUnderPathWithRestore s io targetPath with
  | (s, Ok (_, w)) => (s, Ok (tt, w))
  | (s, Err e) => (s, Err e)
  end.

(** ** Restoring *)

Definition RestoreShares (s : ShareStore) (io : WriteOutcome) (l : list (option Share))
    : ShareStore * result ShareError (unit * bool) :=
  if is_empty l then (s, Ok (tt, false))
  else mutate s io (fun st =>
    let! (st, changed) := loop (fun st original =>
      match original with
      | None => Ok None
      | Some original =>
        let! normalized := normalizeLegacyShareInvariants original in
        let current := shares st !! ID normalized in
        if match current with Some current => sharesEqual current normalized | None => false end then Ok None
        else
          let st :=
            match current with
            | Some current =>
              let st := block st current in
              if negb (String.eqb (Path current) (Path normalized))
              then with_pathIdx st (moveSharePathIndex (pathIdx st) (Path current) (Path normalized) (ID normalized)) else st
            | None => with_pathIdx st (addPathIndex (pathIdx st) (Path normalized) (ID normalized))
            end in
          let st := block st normalized in
          let! (st, normalized) := bumpDownloadTicketRevision st normalized in
          Ok (Some (put_share st (ID normalized) normalized, normalized))
      end) l st in
    if is_empty changed then Ok (Keep tt) else Ok (Save st tt)).

(** The move and the update of one current share towards [updated]; [blocked] are the shares whose
    Trash restores it supersedes. *)
Definition restoreCurrent (st : State) (id : string) (current updated : Share) (blocked : list Share)
    : result ShareError (option (State * Share)) :=
  let idx :=
    if negb (String.eqb (Path current) (Path updated))
    then moveSharePathIndex (pathIdx st) (Path current) (Path updated) id else pathIdx st in
  if sharesEqual updated current then Ok None
  else
    let st := fold_left block blocked (with_pathIdx st idx) in
    let! (st, updated) := bumpDownloadTicketRevision st updated in
    Ok (Some (put_share st id updated, updated)).

Definition RestoreDisabledSharesPreservingCurrent (s : ShareStore) (io : WriteOutcome) (l : list Share)
    : ShareStore * result ShareError (unit * bool) :=
  if is_empty l then (s, Ok (tt, false))
  else mutate s io (fun st =>
    let! (st, changed) := loop (fun st original =>
      match shares st !! ID original with
      | None => Ok None
      | Some current =>
        restoreCurrent st (ID original) current
          (set_enabled (set_path current (Path original)) (Enabled original)) [current]
      end) l st in
    if is_empty changed then Ok (Keep tt) else Ok (Save st tt)).

Definition RestoreSharesPreservingCurrent (s : ShareStore) (io : WriteOutcome) (l : list Share)
    : ShareStore * result ShareError (unit * bool) :=
  if is_empty l then (s, Ok (tt, false))
  else mutate s io (fun st =>
    let! (st, changed) := loop (fun st original =>
      let! normalized := normalizeLegacyShareInvariants original in
      match shares st !! ID normalized with
      | None =>
        let st := block st normalized in
        let! (st, normalized) := bumpDownloadTicketRevision st normalized in
        let st := put_share st (ID normalized) normalized in
        Ok (Some (with_pathIdx st (addPathIndex (pathIdx st) (Path normalized) (ID normalized)), normalized))
      | Some current =>
        restoreCurrent st (ID normalized) current
          (set_enabled (set_path current (Path normalized)) (Enabled normalized)) [current; normalized]
      end) l st in
    if is_empty changed then Ok (Keep tt) else Ok (Save st tt)).

Definition RestoreMovedSharesPreservingCurrent (s : ShareStore) (io : WriteOutcome) (l : list Share)
    : ShareStore * result ShareError (unit * bool) :=
  if is_empty l then (s, Ok (tt, false))
  else mutate s io (fun st =>
    let! (st, changed) := loop (fun st original =>
      match shares st !! ID original with
      | None => Ok None
      | Some current => restoreCurrent st (ID original) current (set_path current (Path original)) [current]
      end) l st in
    if is_empty changed then Ok (Keep tt) else Ok (Save st tt)).

(** ** Accessing *)

Record authorizedAccessReservation := {
  ar_id : string;
  currentLastAccess : Z;
  previousLastAccess : option Z;
}.

Definition reserveAuthorizedAccessMatching (s : ShareStore) (io : WriteOutcome) (now : Z) (id : string)
    (validate : option (Share -> option ShareError))
    : ShareStore * result ShareError (Share * authorizedAccessReservation * bool) :=
  mutate s io (fun st =>
    match shares st !! id with
    | None => Err ErrShareNotFound
    | Some share =>
      match (match validate with Some v => v share | None => None end) with
      | Some e => Err e
      | None =>
        match CanAccess share now with
        | Some e => Err e
        | None =>
          let updated := set_access share (int64 (AccessCount share + 1)) (Some now) in
          Ok (Save (put_share st id updated)
            (updated, {| ar_id := id; currentLastAccess := now; previousLastAccess := LastAccess share |}))
        end
      end
    end).

Definition reserveAuthorizedAccess (s : ShareStore) (io : WriteOutcome) (now : Z) (id : string) :=
  reserveAuthorizedAccessMatching s io now id None.

Definition RecordAuthorizedAccess (s : ShareStore) (io : WriteOutcome) (now : Z) (id : string)
    : ShareStore * result ShareError Share :=
  match reserveAuthorizedAccess s io now id with
  | (s, Ok (share, _, false)) => (s, Ok share)
  | (s, Ok (_, _, true)) => (s, Err (errPersist "sync"))
  | (s, Err e) => (s, Err e)
  end.

Definition RecordAccess (s : ShareStore) (io : WriteOutcome) (now : Z) (id : string) : ShareStore * result ShareError unit :=
  match RecordAuthorizedAccess s io now id with
  | (s, Ok _) => (s, Ok tt)
  | (s, Err e) => (s, Err e)
  end.

Definition rollbackAuthorizedAccess (s : ShareStore) (io : WriteOutcome) (reservation : option authorizedAccessReservation)
    : ShareStore * result ShareError (unit * bool) :=
  match reservation with
  | None => (s, Ok (tt, false))
  | Some reservation => mutate s io (fun st =>
      match shares st !! ar_id reservation with
      | None => Err ErrShareNotFound
      | Some share =>
        if AccessCount share =? 0 then Ok (Keep tt)
        else
          let last := if bool_decide (LastAccess share = Some (currentLastAccess reservation))
                      then previousLastAccess reservation else LastAccess share in
          Ok (Save (put_share st (ar_id reservation) (set_access share (int64 (AccessCount share - 1)) last)) tt)
      end)
  end.

Definition Access (s : ShareStore) (io : WriteOutcome) (now : Z) (id password : string)
    : ShareStore * result ShareError (Share * bool) :=
  mutate s io (fun st =>
    match shares st !! id with
    | None => Err ErrShareNotFound
    | Some share =>
      match CanAccess share now with
      | Some e => Err e
      | None =>
        if HasPassword share && negb (CheckPassword share password) then Err ErrInvalidPassword
        else
          let updated := set_access share (int64 (AccessCount share + 1)) (Some now) in
          Ok (Save (put_share st id updated) updated)
      end
    end).

End Passwords.

End ShareStore.
