(* ===== verification/ShareTrash.v ===== *)
(** * internal/share/trash_delete_operations.go and trash_restore_operations.go

    The durable share participants of a move to the Trash and of a restore from it: applying,
    committing, completing, rolling back and purging a deletion; applying and completing a restore. *)

From stdpp Require Import sorting.
From S2P Require Import Prelude GoStrings GoPath Paths Share ShareStore.
Import Share ShareStore.

Module ShareTrash.

(** ** Deletions *)

(** The body of the loop of [disableSharesMatchingPlan]. *)
Definition disablePlanned (st : State) (expected : Share) : result ShareError (option (State * Share)) :=
  match shares st !! ID expected with
  | None => Ok None
  | Some current =>
    if negb (String.eqb (Path current) (Path expected)) ||
       negb (Bool.eqb (Enabled current) (Enabled expected)) || negb (Enabled expected) then Ok None
    else
      let! (st, updated) := bumpDownloadTicketRevision st (set_enabled current false) in
      Ok (Some (put_share st (ID updated) updated, current))
  end.

Definition disableSharesMatchingPlan (st : State) (planned : list Share) : result ShareError (State * list Share) :=
  let! (st, changed) := loop disablePlanned planned st in
  Ok (st, sortSharesCanonical changed).

Definition set_committed (m : shareTrashDeleteOperation) : shareTrashDeleteOperation :=
  {| Planned := Planned m; Changed := Changed m; RestoreBlocked := RestoreBlocked m; Committed := true; Completed := Completed m |}.
Definition set_completed (m : shareTrashDeleteOperation) : shareTrashDeleteOperation :=
  {| Planned := Planned m; Changed := Changed m; RestoreBlocked := RestoreBlocked m; Committed := Committed m; Completed := true |}.

(** The body of the loop of [clearCommittedTrashDeleteOwnership]. *)
Definition clearMarker (plannedPaths : gmap string string) (committedOperationID operationID : string)
    (marker : shareTrashDeleteOperation) : shareTrashDeleteOperation :=
  if String.eqb operationID committedOperationID || Committed marker || is_empty (Changed marker) then marker
  else
    let retained := List.filter (fun owned => negb (bool_decide (plannedPaths !! ID owned = Some (Path owned)))) (Changed marker) in
    if bool_decide (length retained = length (Changed marker)) then marker
    else {| Planned := Planned marker; Changed := retained;
            RestoreBlocked := List.filter (fun blockedID => bool_decide (blockedID ∈ (ID <$> retained))) (RestoreBlocked marker);
            Committed := Committed marker; Completed := Completed marker |}.

Definition clearCommittedTrashDeleteOwnership (st : State) (committedOperationID : string) (planned : list Share) : State :=
  let plannedPaths := fold_left (fun m share =>
    match shares st !! ID share with
    | Some current =>
      if String.eqb (Path current) (Path share) && negb (Enabled current) then <[ID share := Path share]> m else m
    | None => m
    end) planned ∅ in
  if bool_decide (plannedPaths = ∅) then st
  else with_deletes st (map_imap (fun operationID marker => Some (clearMarker plannedPaths committedOperationID operationID marker))
         (trashDeleteOperations st)).

Definition put_marker (st : State) (operationID : string) (m : shareTrashDeleteOperation) : State :=
  with_deletes st (<[operationID := m]> (trashDeleteOperations st)).

Definition block_all (st : State) (l : list Share) (excluded : string) : State :=
  with_deletes st (blockTrashDeleteRestores (trashDeleteOperations st) l excluded).

Definition ApplyTrashDeleteOperation (s : ShareStore) (io : WriteOutcome) (operationID : string)
    (planned : list (option Share)) (committed : bool) : ShareStore * result ShareError (unit * bool) :=
  if negb (isValidTrashDeleteOperationID operationID) then (s, Err errInvalidTrashDeleteOperation)
  else match normalizeTrashDeleteShares planned with
  | Err e => (s, Err e)
  | Ok normalizedPlanned => mutate s io (fun st =>
      let marker := trashDeleteOperations st !! operationID in
      if match marker with Some m => negb (shareSlicesEqual (Planned m) normalizedPlanned) | None => false end
      then Err ErrTrashDeleteOperationConflict
      else if negb committed then
        match marker with
        | Some _ => Ok (Save st tt)
        | None =>
          let! (st, changed) := disableSharesMatchingPlan st normalizedPlanned in
          let st := block_all st changed operationID in
          Ok (Save (put_marker st operationID
            {| Planned := normalizedPlanned; Changed := changed; RestoreBlocked := []; Committed := false; Completed := false |}) tt)
        end
      else
        if match marker with Some m => Committed m | None => false end then Ok (Save st tt)
        else
          let! (st, changed) := disableSharesMatchingPlan st normalizedPlanned in
          let st := block_all st changed operationID in
          let m :=
            match marker with
            | Some m => m
            | None => {| Planned := normalizedPlanned; Changed := changed; RestoreBlocked := []; Committed := false; Completed := false |}
            end in
          let st := put_marker st operationID (set_committed m) in
          Ok (Save (clearCommittedTrashDeleteOwnership st operationID normalizedPlanned) tt))
  end.

Definition CompleteTrashDeleteOperation (s : ShareStore) (io : WriteOutcome) (operationID : string)
    : ShareStore * result ShareError (unit * bool) :=
  if negb (isValidTrashDeleteOperationID operationID) then (s, Err errInvalidTrashDeleteOperation)
  else mutate s io (fun st =>
    match trashDeleteOperations st !! operationID with
    | None => Ok (Save st tt)
    | Some marker =>
      if negb (Committed marker) then Err ErrTrashDeleteOperationConflict
      else Ok (Save (put_marker st operationID (set_completed marker)) tt)
    end).

Definition PurgeCompletedTrashDeleteOperation (s : ShareStore) (io : WriteOutcome) (operationID : string)
    : ShareStore * result ShareError (unit * bool) :=
  if negb (isValidTrashDeleteOperationID operationID) then (s, Err errInvalidTrashDeleteOperation)
  else mutate s io (fun st =>
    match trashDeleteOperations st !! operationID with
    | None => Ok (Save st tt)
    | Some marker =>
      if negb (Completed marker) then Err ErrTrashDeleteOperationConflict
      else if existsb (fun r => String.eqb (DeleteOperationID (snd r)) operationID) (map_to_list (trashRestoreOperations st))
      then Err ErrTrashDeleteOperationConflict
      else Ok (Save (with_deletes st (delete operationID (trashDeleteOperations st))) tt)
    end).

Definition shareOwnedByAnotherTrashDelete (operations : gmap string shareTrashDeleteOperation)
    (excludedOperationID : string) (current : Share) : bool :=
  existsb (fun '(operationID, marker) =>
    negb (String.eqb operationID excludedOperationID) && negb (Committed marker) &&
    existsb (fun changed => String.eqb (ID changed) (ID current) && String.eqb (Path changed) (Path current) &&
      sameTrashDeleteShareGeneration current changed) (Changed marker)) (map_to_list operations).

(** The body of the loop of [RollbackTrashDeleteOperation] over the changed shares of [marker]. *)
Definition rollbackChanged (operationID : string) (marker : shareTrashDeleteOperation) (st : State) (original : Share)
    : result ShareError (option (State * Share)) :=
  if trashDeleteRestoreBlocked marker (ID original) then Ok None
  else match shares st !! ID original with
  | None => Ok None
  | Some current =>
    if Enabled current || negb (String.eqb (Path current) (Path original)) then Ok None
    else if negb (sameTrashDeleteShareGeneration current original) then Ok None
    else if shareOwnedByAnotherTrashDelete (trashDeleteOperations st) operationID current then Ok None
    else
      let st := with_deletes st (blockTrashDeleteRestore (trashDeleteOperations st) current operationID) in
      let! (st, updated) := bumpDownloadTicketRevision st (set_enabled current (Enabled original)) in
      Ok (Some (put_share st (ID updated) updated, updated))
  end.

Definition RollbackTrashDeleteOperation (s : ShareStore) (io : WriteOutcome) (operationID : string)
    : ShareStore * result ShareError (unit * bool) :=
  if negb (isValidTrashDeleteOperationID operationID) then (s, Err errInvalidTrashDeleteOperation)
  else mutate s io (fun st =>
    match trashDeleteOperations st !! operationID with
    | None => Ok (Save st tt)
    | Some marker =>
      if Committed marker then Err ErrTrashDeleteOperationConflict
      else
        let! (st, _) := loop (rollbackChanged operationID marker) (Changed marker) st in
        Ok (Save (with_deletes st (delete operationID (trashDeleteOperations st))) tt)
    end).

(** ** Restores *)

(** The completed deletion that owns the plan. *)
Definition ownsPlan (st : State) (deleteOperationID : string) (original : list Share) : option shareTrashDeleteOperation :=
  match trashDeleteOperations st !! deleteOperationID with
  | None => None
  | Some m => if negb (Completed m) || negb (shareSlicesEqual (Planned m) original) then None else Some m
  end.

(** The body of the loop of [ApplyTrashRestoreOperation] over the shares that the deletion changed. *)
Definition restoreChanged (deleteOperation : shareTrashDeleteOperation) (relocated : list Share) (st : State) (changed : Share)
    : result ShareError (option (State * Share)) :=
  if trashDeleteRestoreBlocked deleteOperation (ID changed) then Ok None
  else match shares st !! ID changed with
  | None => Ok None
  | Some current =>
    if Enabled current || negb (String.eqb (Path current) (Path changed)) ||
       negb (sameTrashDeleteShareGeneration current changed) then Ok None
    else match find_share relocated (ID changed) with
    | None => Ok None
    | Some target =>
      if negb (sameTrashDeleteShareGeneration target changed) then Ok None
      else
        let idx := if negb (String.eqb (Path current) (Path target))
                   then moveSharePathIndex (pathIdx st) (Path current) (Path target) (ID current)
                   else pathIdx st in
        let! (st, updated) := bumpDownloadTicketRevision (with_pathIdx st idx)
          (set_enabled (set_path current (Path target)) (Enabled target)) in
        Ok (Some (put_share st (ID updated) updated, updated))
    end
  end.

Definition ApplyTrashRestoreOperation (s : ShareStore) (io : WriteOutcome) (restoreOperationID deleteOperationID : string)
    (original relocated : list (option Share)) : ShareStore * result ShareError (unit * bool) :=
  if negb (isValidTrashDeleteOperationID restoreOperationID) || negb (isValidTrashDeleteOperationID deleteOperationID)
  then (s, Err errInvalidTrashRestoreOperation)
  else match normalizeTrashRestorePlans original relocated with
  | Err e => (s, Err e)
  | Ok (normalizedOriginal, normalizedRelocated) => mutate s io (fun st =>
      match trashRestoreOperations st !! restoreOperationID with
      | Some existing =>
        if negb (String.eqb (DeleteOperationID existing) deleteOperationID) ||
           negb (shareSlicesEqual (Original existing) normalizedOriginal) ||
           negb (shareSlicesEqual (Relocated existing) normalizedRelocated)
        then Err ErrTrashRestoreOperationConflict
        else match ownsPlan st deleteOperationID normalizedOriginal with
        | None => Err ErrTrashRestoreOperationConflict
        | Some _ => Ok (Save st tt)
        end
      | None =>
        match ownsPlan st deleteOperationID normalizedOriginal with
        | None => Err ErrTrashRestoreOperationConflict
        | Some deleteOperation =>
          if existsb (fun '(other, operation) => negb (String.eqb other restoreOperationID) &&
               String.eqb (DeleteOperationID operation) deleteOperationID) (map_to_list (trashRestoreOperations st))
          then Err ErrTrashRestoreOperationConflict
          else
            let! (st, restored) := loop (restoreChanged deleteOperation normalizedRelocated) (Changed deleteOperation) st in
            Ok (Save (with_restores st (<[restoreOperationID :=
              {| DeleteOperationID := deleteOperationID; Original := normalizedOriginal;
                 Relocated := normalizedRelocated; Restored := sortSharesCanonical restored |}]>
              (trashRestoreOperations st))) tt)
        end
      end)
  end.

Definition CompleteTrashRestoreOperation (s : ShareStore) (io : WriteOutcome) (restoreOperationID : string)
    : ShareStore * result ShareError (unit * bool) :=
  if negb (isValidTrashDeleteOperationID restoreOperationID) then (s, Err errInvalidTrashRestoreOperation)
  else mutate s io (fun st =>
    match trashRestoreOperations st !! restoreOperationID with
    | None => Ok (Save st tt)
    | Some restoreOperation =>
      match ownsPlan st (DeleteOperationID restoreOperation) (Original restoreOperation) with
      | None => Err ErrTrashRestoreOperationConflict
      | Some _ =>
        let st := with_restores st (delete restoreOperationID (trashRestoreOperations st)) in
        Ok (Save (with_deletes st (delete (DeleteOperationID restoreOperation) (trashDeleteOperations st))) tt)
      end
    end).

End ShareTrash.
