(* ===== verification/ShareInvariant.v ===== *)
(** * The share store: well-formedness and durability

    What holds of every state of the share store: the maps agree with each other, every share is
    valid and has its ticket revision, and the file is the memory. *)

From stdpp Require Import sorting.
From S2P Require Import Prelude GoStrings GoPath Paths Share ShareStore ShareTrash.
Import Share ShareStore ShareTrash.

Module ShareInvariant.

(** ** Transactions *)

Section Mutate.
Context {A : Type}.
Implicit Types (body : State -> result ShareError (decision A)) (s : ShareStore).

(** The first attempt is committed or fails: the version cannot have changed. *)
Lemma transact_once n s io body :
  transact (S n) s io body = mutate s (io O) body.
Proof.
  unfold mutate. cbn [transact]. destruct (body _) as [[a|st a]|e]; [done| |done].
  unfold persistSnapshot, commitSnapshot. simpl.
  destruct (saveShareStoreState st (io O)) as [[file w]|e]; [|done].
  simpl. by rewrite Z.eqb_refl.
Qed.

(** What a mutation does. *)
Lemma mutate_cases s io body s' r :
  mutate s io body = (s', r) ->
  (exists e, body (state s) = Err e /\ s' = s /\ r = Err e) \/
  (exists a, body (state s) = Ok (Keep a) /\ s' = s /\ r = Ok (a, false)) \/
  (exists st a e, body (state s) = Ok (Save st a) /\ saveShareStoreState st io = Err e /\ s' = s /\ r = Err e) \/
  (exists st a file w, body (state s) = Ok (Save st a) /\ saveShareStoreState st io = Ok (file, w) /\
     r = Ok (a, w) /\ s' = {| state := st; version := uint64 (version s + 1); disk := Some file |}).
Proof.
  unfold mutate. cbn [transact]. simpl. destruct (body (state s)) as [[a|st a]|e] eqn:Eb; intros H.
  - right; left. simplify_eq. eauto.
  - unfold persistSnapshot, commitSnapshot in H. simpl in H.
    destruct (saveShareStoreState st io) as [[file w]|e] eqn:Es; cycle 1.
    { right; right; left. simplify_eq. eauto 10. }
    simpl in H. rewrite Z.eqb_refl in H. simpl in H. right; right; right. simplify_eq. eauto 10.
  - left. simplify_eq. eauto.
Qed.

Lemma mutate_inv (P : State -> Prop) s io body :
  (forall st st' a, P st -> body st = Ok (Save st' a) -> P st') -> P (state s) -> P (state (fst (mutate s io body))).
Proof.
  intros Hb Hs. destruct (mutate s io body) as [s' r] eqn:E. simpl.
  apply mutate_cases in E as [(e & _ & -> & _)|[(a & _ & -> & _)|[(st & a & e & _ & _ & -> & _)|(st & a & f & w & H & _ & _ & ->)]]];
    [done..|]. simpl. eauto.
Qed.

(** The file is what the memory is, once there is a file. *)
Definition durable s : Prop :=
  match disk s with None => state s = empty_state | Some file => file_of (state s) = Ok file end.

Lemma save_file st io file w : saveShareStoreState st io = Ok (file, w) -> file_of st = Ok file.
Proof. unfold saveShareStoreState. intros H. destruct (file_of st); [|done]. by destruct io; simplify_eq. Qed.

Lemma mutate_durable s io body : durable s -> durable (fst (mutate s io body)).
Proof.
  intros Hs. destruct (mutate s io body) as [s' r] eqn:E. simpl.
  apply mutate_cases in E as [(e & _ & -> & _)|[(a & _ & -> & _)|[(st & a & e & _ & _ & -> & _)|(st & a & f & w & _ & H & _ & ->)]]];
    [done..|]. unfold durable. simpl. by eapply save_file.
Qed.
End Mutate.

Lemma loop_inv {A} (f : State -> A -> result ShareError (option (State * Share))) (P : State -> Prop) l st st' changed :
  (forall st x st' s, x ∈ l -> P st -> f st x = Ok (Some (st', s)) -> P st') ->
  loop f l st = Ok (st', changed) -> P st -> P st'.
Proof.
  intros Hf H Hst. unfold loop in H.
  apply (foldM_ind _ (fun _ acc => P (fst acc))) in H; [done|done|].
  intros seen x rest [st1 ch1] [st2 ch2] Hl Hp Hx. simpl in *.
  assert (x ∈ l) as Hin by (rewrite Hl; apply elem_of_app; right; left). clear Hl.
  destruct (f st1 x) as [[[st3 s3]|]|] eqn:E; simplify_eq; [|done].
  by apply (Hf st1 x st2 s3).
Qed.

(** ** Valid shares *)

Record valid_share (s : Share) : Prop := {
  vs_id : isValidShareID (ID s) = true;
  vs_path : canonical (Path s);
  vs_type : Type_ s = ShareTypeFile \/ Type_ s = ShareTypeFolder;
  vs_max : 0 <= MaxAccess s;
  vs_permission : Permission s = PermissionRead;
}.

Lemma normalizer_canonical p q :
  normalizeStoredSharePath p = Ok q \/ normalizeLegacyStoredSharePath p = Ok q -> canonical q.
Proof.
  unfold normalizeStoredSharePath, normalizeLegacyStoredSharePath.
  intros [H|H]; repeat case_in H; injection H as <-; apply Clean_canonical, is_rooted_slash.
Qed.

Lemma validate_with_ok s f s' :
  (forall p q, f p = Ok q -> canonical q) ->
  validateShareInvariantsWithPathNormalizer s f = Ok s' -> valid_share s' /\ ID s' = ID s.
Proof.
  intros Hf H. unfold validateShareInvariantsWithPathNormalizer in H.
  destruct (isValidShareID (ID s)) eqn:Eid; [|done]. simpl in H.
  destruct (f (Path s)) as [q|] eqn:Eq; [|done].
  destruct (_ || _) eqn:Et in H; [|done]. simpl in H.
  destruct (MaxAccess s <? 0) eqn:Em; [done|].
  destruct (_ || _) in H; [|done]. injection H as <-. b2p.
  split; [|done]. split; simpl; [done|by eapply Hf| |lia|done].
  apply orb_true_iff in Et as [?|?]; b2p; auto.
Qed.

Lemma validate_ok s s' : validateShareInvariants s = Ok s' -> valid_share s' /\ ID s' = ID s.
Proof. apply validate_with_ok. intros p q H. apply (normalizer_canonical p). by left. Qed.

Lemma normalizeLegacy_ok s s' : normalizeLegacyShareInvariants s = Ok s' -> valid_share s' /\ ID s' = ID s.
Proof.
  intros H. apply validate_with_ok in H as [? H]; [done|]. intros p q Hp. apply (normalizer_canonical p). by right.
Qed.

Lemma valid_set_enabled s b : valid_share s -> valid_share (set_enabled s b).
Proof. intros []. by split. Qed.
Lemma valid_set_path s p : valid_share s -> canonical p -> valid_share (set_path s p).
Proof. intros [] ?. by split. Qed.
Lemma valid_set_access s n t : valid_share s -> valid_share (set_access s n t).
Proof. intros []. by split. Qed.
Lemma valid_set_times s c e : valid_share s -> valid_share (set_times s c e).
Proof. intros []. by split. Qed.
Lemma valid_set_revision s r : valid_share s -> valid_share (set_revision s r).
Proof. intros []. by split. Qed.
#[local] Hint Resolve valid_set_enabled valid_set_path valid_set_access valid_set_times valid_set_revision : core.

(** ** The path index *)

Definition ids_at (idx : gmap string (list string)) (p : string) : list string := default [] (idx !! p).

Lemma removeShareID_spec ids id : NoDup ids ->
  NoDup (removeShareID ids id) /\ forall x, x ∈ removeShareID ids id <-> x ∈ ids /\ x <> id.
Proof.
  induction 1 as [|y ids Hni Hnd [IH1 IH2]]; simpl; [split; [constructor|intros x; rewrite elem_of_nil; tauto]|].
  destruct (String.eqb y id) eqn:E; b2p.
  - subst. split; [done|]. intros x. rewrite elem_of_cons. split; [intros Hx|naive_solver].
    split; [auto|]. by intros ->.
  - split; [constructor; [|done]; rewrite IH2; tauto|]. intros x. rewrite !elem_of_cons, IH2.
    split; [intros [->|?]; tauto|]. tauto.
Qed.

Lemma dropPathIndex_ids idx p id q :
  NoDup (ids_at idx p) ->
  ids_at (dropPathIndex idx p id) q = if decide (p = q) then removeShareID (ids_at idx p) id else ids_at idx q.
Proof.
  intros Hnd. unfold dropPathIndex, ids_at. fold (ids_at idx p). destruct (removeShareID (ids_at idx p) id) as [|x l] eqn:E.
  - destruct (decide (p = q)) as [<-|Hne]; [by rewrite lookup_delete_eq|by rewrite lookup_delete_ne].
  - destruct (decide (p = q)) as [<-|Hne]; [by rewrite lookup_insert_eq|by rewrite lookup_insert_ne].
Qed.

Lemma addPathIndex_ids idx p id q :
  ids_at (addPathIndex idx p id) q = if decide (p = q) then ids_at idx p ++ [id] else ids_at idx q.
Proof.
  unfold addPathIndex, ids_at. destruct (decide (p = q)) as [<-|Hne]; [by rewrite lookup_insert_eq|by rewrite lookup_insert_ne].
Qed.

(** The index lists, at each path, the IDs of the shares with that path. *)
Definition idx_ok (m : gmap string Share) (idx : gmap string (list string)) : Prop := forall p,
  NoDup (ids_at idx p) /\ forall id, id ∈ ids_at idx p <-> exists s, m !! id = Some s /\ Path s = p.

Lemma idx_add m idx id s : idx_ok m idx -> m !! id = None -> idx_ok (<[id:=s]> m) (addPathIndex idx (Path s) id).
Proof.
  intros Hi Hm p. destruct (Hi p) as [Hnd Hid]. rewrite addPathIndex_ids.
  assert (Hni : forall q, id ∉ ids_at idx q).
  { intros q Hin. apply (proj2 (Hi q)) in Hin as (s' & ? & _). congruence. }
  destruct (decide (Path s = p)) as [<-|Hne].
  - split.
    + apply NoDup_app. split; [done|]. split; [|apply NoDup_singleton].
      intros x Hx ->%list_elem_of_singleton. by apply (Hni (Path s)).
    + intros x. rewrite elem_of_app, Hid, list_elem_of_singleton. destruct (decide (id = x)) as [<-|Hx].
      * rewrite lookup_insert_eq. split; [eauto|auto].
      * rewrite lookup_insert_ne by done. split; [intros [?| ->]; done|auto].
  - split; [done|]. intros x. rewrite Hid. destruct (decide (id = x)) as [<-|Hx].
    + rewrite lookup_insert_eq, Hm. split; [by intros (? & ? & _)|]. intros (s' & [= <-] & ?). done.
    + by rewrite lookup_insert_ne.
Qed.

Lemma idx_drop m idx id s : idx_ok m idx -> m !! id = Some s -> idx_ok (delete id m) (dropPathIndex idx (Path s) id).
Proof.
  intros Hi Hm p. rewrite dropPathIndex_ids by apply Hi. destruct (Hi p) as [Hnd Hid].
  destruct (decide (Path s = p)) as [<-|Hne].
  - destruct (removeShareID_spec (ids_at idx (Path s)) id Hnd) as [H1 H2]. split; [done|].
    intros x. rewrite H2, Hid. destruct (decide (id = x)) as [<-|Hx].
    + rewrite lookup_delete_eq. split; [tauto|]. by intros (? & ? & _).
    + rewrite lookup_delete_ne by done. split; [tauto|]. intros ?. split; [done|congruence].
  - split; [done|]. intros x. rewrite Hid. destruct (decide (id = x)) as [<-|Hx].
    + rewrite lookup_delete_eq, Hm. split; [intros (s' & [= <-] & ?); done|by intros (? & ? & _)].
    + by rewrite lookup_delete_ne.
Qed.

Lemma idx_move m idx id s s' : idx_ok m idx -> m !! id = Some s ->
  idx_ok (<[id:=s']> m) (moveSharePathIndex idx (Path s) (Path s') id).
Proof.
  intros Hi Hm. unfold moveSharePathIndex. rewrite <-insert_delete_eq.
  apply idx_add; [by apply idx_drop|apply lookup_delete_eq].
Qed.

Lemma idx_same m idx id s s' : idx_ok m idx -> m !! id = Some s -> Path s' = Path s -> idx_ok (<[id:=s']> m) idx.
Proof.
  intros Hi Hm Hp p. destruct (Hi p) as [Hnd Hid]. split; [done|]. intros x. rewrite Hid.
  destruct (decide (id = x)) as [<-|Hx]; [|by rewrite lookup_insert_ne].
  rewrite lookup_insert_eq, Hm. split; intros (y & [= <-] & ?); eexists; (split; [done|congruence]).
Qed.

(** ** Well-formed states *)

Record wf (st : State) : Prop := {
  wf_share : forall id s, shares st !! id = Some s ->
    ID s = id /\ valid_share s /\ ticketRevisions st !! id = Some (ticketRevision s) /\ 1 <= ticketRevision s <= maxUint64;
  wf_revision : forall id r, ticketRevisions st !! id = Some r -> is_Some (shares st !! id);
  wf_index : idx_ok (shares st) (pathIdx st);
}.

(** States that differ in their Trash operations only. *)
Definition same_shares (st st' : State) : Prop :=
  shares st' = shares st /\ pathIdx st' = pathIdx st /\ ticketRevisions st' = ticketRevisions st.

Lemma wf_same st st' : same_shares st st' -> wf st -> wf st'.
Proof. intros (H1 & H2 & H3) [Ha Hb Hc]. split; rewrite ?H1, ?H2, ?H3; done. Qed.

Lemma block_same st s : same_shares st (block st s).
Proof. done. Qed.

Lemma bump_spec st s st' s' :
  bumpDownloadTicketRevision st s = Ok (st', s') ->
  exists r, s' = set_revision s r /\ st' = with_revisions st (<[ID s := r]> (ticketRevisions st)) /\
    (0 <= default 0 (ticketRevisions st !! ID s) <= maxUint64 -> 0 <= ticketRevision s <= maxUint64 ->
     1 <= r <= maxUint64 /\ default 0 (ticketRevisions st !! ID s) < r /\ ticketRevision s < r).
Proof.
  unfold bumpDownloadTicketRevision. set (c0 := default 0 _). intros H.
  set (c := if c0 <? ticketRevision s then ticketRevision s else c0) in *.
  destruct (c =? maxUint64) eqn:E; [done|]. injection H as <- <-. exists (uint64 (c + 1)).
  split; [done|]. split; [done|]. intros H1 H2. b2p.
  assert (0 <= c <= maxUint64 /\ c0 <= c /\ ticketRevision s <= c) as (? & ? & ?).
  { unfold c. destruct (c0 <? ticketRevision s) eqn:Ec; b2p; lia. }
  rewrite uint64_id by (int_unfold; lia). lia.
Qed.

(** The revisions of a share of the store and of one about to be put in it are machine values. *)
Lemma wf_rev_range st id : wf st -> 0 <= default 0 (ticketRevisions st !! id) <= maxUint64.
Proof.
  intros Hw. destruct (ticketRevisions st !! id) as [r|] eqn:E; simpl; [|unfold maxUint64; lia].
  destruct (wf_revision st Hw _ _ E) as [s Hs]. destruct (wf_share st Hw _ _ Hs) as (_ & _ & H & ?).
  rewrite E in H. simplify_eq. lia.
Qed.

Lemma wf_put st id s st1 s1 idx :
  wf st -> ID s = id -> valid_share s -> 0 <= ticketRevision s <= maxUint64 ->
  bumpDownloadTicketRevision st s = Ok (st1, s1) -> idx_ok (<[id:=s]> (shares st)) idx ->
  wf (with_pathIdx (put_share st1 id s1) idx).
Proof.
  intros Hw Hid Hv Hr Hb Hi. apply bump_spec in Hb as (r & -> & -> & Hrange).
  destruct Hrange as (Hr1 & _ & _); [by apply wf_rev_range|done|]. split; simpl.
  - intros id' s' H. destruct (decide (id = id')) as [<-|Hne].
    + rewrite lookup_insert_eq in H. injection H as <-. simpl. rewrite Hid, lookup_insert_eq.
      split; [done|]. split; [auto|]. done.
    + rewrite lookup_insert_ne in H by done. rewrite Hid, lookup_insert_ne by done. by apply (wf_share st Hw).
  - intros id' r' H. rewrite Hid in H. destruct (decide (id = id')) as [<-|Hne].
    + rewrite lookup_insert_eq. eauto.
    + rewrite lookup_insert_ne in H by done. rewrite lookup_insert_ne by done. by eapply wf_revision.
  - intros p. destruct (Hi p) as [H1 H2]. split; [done|]. intros x. rewrite H2.
    destruct (decide (id = x)) as [<-|Hne]; [|by rewrite !lookup_insert_ne].
    rewrite !lookup_insert_eq. split; intros (y & [= <-] & ?); eexists; done.
Qed.

(** An update of one share, in place or with a move in the index. *)
Lemma wf_put_same st st' id cur s st1 s1 :
  wf st -> same_shares st st' -> shares st !! id = Some cur -> ID s = id -> Path s = Path cur -> valid_share s ->
  0 <= ticketRevision s <= maxUint64 -> bumpDownloadTicketRevision st' s = Ok (st1, s1) -> wf (put_share st1 id s1).
Proof.
  intros Hw Hsame Hcur Hid Hp Hv Hr Hb. pose proof (wf_same _ _ Hsame Hw) as Hw'. destruct Hsame as (H1 & H2 & _).
  change (put_share st1 id s1) with (with_pathIdx (put_share st1 id s1) (pathIdx st1)).
  assert (pathIdx st1 = pathIdx st) as -> by (apply bump_spec in Hb as (r & _ & -> & _); done).
  eapply wf_put; try done. rewrite H1. eapply idx_same; [apply Hw|done|done].
Qed.

Lemma wf_put_move st st' id cur s st1 s1 :
  wf st -> same_shares st st' -> shares st !! id = Some cur -> ID s = id -> valid_share s ->
  0 <= ticketRevision s <= maxUint64 -> bumpDownloadTicketRevision st' s = Ok (st1, s1) ->
  wf (with_pathIdx (put_share st1 id s1) (moveSharePathIndex (pathIdx st) (Path cur) (Path s) id)).
Proof.
  intros Hw Hsame Hcur Hid Hv Hr Hb. pose proof (wf_same _ _ Hsame Hw) as Hw'. destruct Hsame as (H1 & H2 & _).
  eapply wf_put; try done. rewrite H1. apply idx_move; [apply Hw|done].
Qed.

Lemma wf_get st id s : wf st -> shares st !! id = Some s ->
  ID s = id /\ valid_share s /\ 0 <= ticketRevision s <= maxUint64.
Proof. intros Hw Hs. destruct (wf_share st Hw _ _ Hs) as (? & ? & _ & ?). split_and!; try done; lia. Qed.

Lemma bump_frame st s st1 s1 : bumpDownloadTicketRevision st s = Ok (st1, s1) ->
  shares st1 = shares st /\ pathIdx st1 = pathIdx st /\ trashDeleteOperations st1 = trashDeleteOperations st /\
  trashRestoreOperations st1 = trashRestoreOperations st /\ s1 = set_revision s (ticketRevision s1).
Proof. intros (r & -> & -> & _)%bump_spec. done. Qed.

(** A loop over a list with distinct keys, whose body keeps or writes the share of its key. *)
Section LoopKeyed.
Context {A : Type} (key : A -> string) (f : State -> A -> result ShareError (option (State * Share)))
  (I : State -> Prop) (keep : A -> Prop) (upd : A -> Share -> Share -> Prop) (st0 : State).

Definition keyed_step (l : list A) : Prop := forall st x o,
  x ∈ l -> I st -> shares st !! key x = shares st0 !! key x -> f st x = Ok o ->
  match o with
  | None => keep x
  | Some (st', y) => I st' /\ exists s', shares st' = <[key x := s']> (shares st) /\ upd x s' y
  end.

Definition handled (st' : State) (ch : list Share) (x : A) : Prop :=
  (keep x /\ shares st' !! key x = shares st0 !! key x) \/
  exists s' y, upd x s' y /\ shares st' !! key x = Some s' /\ y ∈ ch.

Lemma foldM_keyed l : NoDup (key <$> l) -> keyed_step l -> forall st ch0 st' ch,
  I st -> (forall x, x ∈ l -> shares st !! key x = shares st0 !! key x) ->
  foldM (fun '(st, changed) x =>
    let! r := f st x in
    match r with None => Ok (st, changed) | Some (st, share) => Ok (st, changed ++ [share]) end) l (st, ch0) = Ok (st', ch) ->
  exists ch1, ch = ch0 ++ ch1 /\ I st' /\ (forall x, x ∈ l -> handled st' ch1 x) /\
    (forall id, id ∉ key <$> l -> shares st' !! id = shares st !! id) /\
    (forall y, y ∈ ch1 -> exists x s', x ∈ l /\ upd x s' y /\ shares st' !! key x = Some s').
Proof.
  induction l as [|x l IH]; intros Hnd Hf st ch0 st' ch HI Hsame H; simpl in H.
  { injection H as <- <-. exists []. rewrite app_nil_r. split; [done|]. split; [done|].
    split; [by intros x ?%elem_of_nil|]. split; [done|by intros y ?%elem_of_nil]. }
  apply NoDup_cons in Hnd as [Hx Hnd].
  assert (Hf' : keyed_step l) by (intros st2 x2 o Hin; apply Hf; by right).
  destruct (f st x) as [o|] eqn:E; [|done]. simpl in H.
  pose proof (Hf st x o ltac:(left) HI (Hsame x ltac:(left)) E) as Hs.
  destruct o as [[st1 y]|].
  - destruct Hs as (HI1 & s1 & Hs1 & Hu).
    apply (IH Hnd Hf') in H as (ch1 & -> & HI' & H1 & H2 & H3); [|done|]; cycle 1.
    { intros x2 Hin. rewrite Hs1, lookup_insert_ne; [by apply Hsame; right|].
      intros Heq. apply Hx. rewrite Heq. by apply list_elem_of_fmap_2. }
    assert (Hkx : shares st' !! key x = Some s1) by (rewrite (H2 _ Hx), Hs1; apply lookup_insert_eq).
    exists (y :: ch1). rewrite <-app_assoc. split; [done|]. split; [done|]. split; [|split].
    + intros x2 [->|Hin]%elem_of_cons; [right; exists s1, y; split_and!; [done..|left]|].
      destruct (H1 x2 Hin) as [?|(s2 & y2 & ? & ? & ?)]; [by left|right; exists s2, y2; split_and!; [done..|by right]].
    + intros id. rewrite fmap_cons, not_elem_of_cons. intros [Hne Hni]. rewrite (H2 id Hni), Hs1. by rewrite lookup_insert_ne.
    + intros y2 [->|Hin]%elem_of_cons; [exists x, s1; split_and!; [left|done..]|].
      destruct (H3 y2 Hin) as (x2 & s2 & ? & ? & ?). exists x2, s2. split_and!; [by right|done..].
  - apply (IH Hnd Hf') in H as (ch1 & -> & HI' & H1 & H2 & H3); [|done|intros x2 Hin; by apply Hsame; right].
    exists ch1. split; [done|]. split; [done|]. split; [|split].
    + intros x2 [->|Hin]%elem_of_cons; [|by apply H1]. left. split; [done|]. rewrite (H2 _ Hx). apply Hsame. left.
    + intros id. rewrite fmap_cons, not_elem_of_cons. intros [_ Hni]. by apply H2.
    + intros y2 Hin. destruct (H3 y2 Hin) as (x2 & s2 & ? & ? & ?). exists x2, s2. split_and!; [by right|done..].
Qed.

Lemma loop_keyed l st' ch : NoDup (key <$> l) -> keyed_step l -> I st0 -> loop f l st0 = Ok (st', ch) ->
  I st' /\ (forall x, x ∈ l -> handled st' ch x) /\ (forall id, id ∉ key <$> l -> shares st' !! id = shares st0 !! id) /\
  (forall y, y ∈ ch -> exists x s', x ∈ l /\ upd x s' y /\ shares st' !! key x = Some s').
Proof.
  intros Hnd Hf HI H. unfold loop in H. apply (foldM_keyed l Hnd Hf) in H as (ch1 & -> & H); [|done..]. done.
Qed.
End LoopKeyed.

(** A loop over the shares of a state: each share is kept or updated, on its own. *)
Section LoopMap.
Context (f : State -> string * Share -> result ShareError (option (State * Share)))
  (keep : string -> Share -> Prop) (upd : string -> Share -> Share -> Prop).
Hypothesis Hstep : forall st id s o, wf st -> shares st !! id = Some s -> f st (id, s) = Ok o ->
  match o with
  | None => keep id s
  | Some (st', x) => wf st' /\ x = s /\ exists s', shares st' = <[id:=s']> (shares st) /\ upd id s s'
  end.

Definition processed (st : State) (changed : list Share) (id : string) (s : Share) : Prop :=
  (keep id s /\ shares st !! id = Some s) \/ (exists s', upd id s s' /\ shares st !! id = Some s' /\ s ∈ changed).

Lemma loop_map_spec st0 st' changed :
  wf st0 -> loop f (map_to_list (shares st0)) st0 = Ok (st', changed) ->
  wf st' /\ (forall id s, shares st0 !! id = Some s -> processed st' changed id s) /\
  (forall id, shares st0 !! id = None -> shares st' !! id = None) /\
  (forall s, s ∈ changed -> exists id s', shares st0 !! id = Some s /\ upd id s s' /\ shares st' !! id = Some s').
Proof.
  intros Hw H.
  apply (loop_keyed fst f wf (fun x => keep x.1 x.2) (fun x s' y => y = x.2 /\ upd x.1 x.2 s')) in H as (H1 & H2 & H3 & H4);
    [|apply NoDup_fst_map_to_list| |done].
  - split; [done|]. split; [|split].
    + intros id s Hs. destruct (H2 (id, s)) as [[Hk He]|(s' & y & [-> Hu] & He & Hy)]; [by apply elem_of_map_to_list| |];
        simpl in *; [left|right]; [by rewrite He|by exists s'].
    + intros id Hn. rewrite H3; [done|]. intros ([id' s] & -> & Hin)%list_elem_of_fmap_1.
      apply elem_of_map_to_list in Hin. simpl in Hn. congruence.
    + intros s Hs. destruct (H4 s Hs) as ([id s'] & s2 & Hin%elem_of_map_to_list & [-> Hu] & He). by exists id, s2.
  - intros st [id s] o Hin Hw2 Heq E. apply elem_of_map_to_list in Hin. simpl in Heq. rewrite Hin in Heq.
    pose proof (Hstep st id s o Hw2 Heq E) as Hs. destruct o as [[st2 x]|]; [|done].
    destruct Hs as (? & -> & s' & ? & ?). split; [done|]. by exists s'.
Qed.
End LoopMap.


(** ** Every operation keeps the state well formed *)

Definition typed_share (s : Share) : Prop := 0 <= ticketRevision s <= maxUint64.

Lemma typed_legacy s s' : typed_share s -> normalizeLegacyShareInvariants s = Ok s' -> typed_share s'.
Proof.
  intros Ht H. unfold normalizeLegacyShareInvariants, validateShareInvariantsWithPathNormalizer in H.
  repeat case_in H; by injection H as <-.
Qed.

Lemma typed_validate s s' : typed_share s -> validateShareInvariants s = Ok s' -> typed_share s'.
Proof.
  intros Ht H. unfold validateShareInvariants, validateShareInvariantsWithPathNormalizer in H.
  repeat case_in H; by injection H as <-.
Qed.

Lemma commit_wf s io now p : wf (state s) -> typed_share (prepared_share p) ->
  wf (state (fst (CommitPreparedCreate s io now p))).
Proof.
  intros Hw Ht. unfold CommitPreparedCreate. destruct (validateShareInvariants _) as [sh|] eqn:Ev; [|done].
  destruct (validate_ok _ _ Ev) as [Hv _]. pose proof (typed_validate _ _ Ht Ev) as Ht'.
  apply (mutate_inv wf); [|done]. clear Hw. intros st st' a Hw H. case_bool_decide as Hn; [done|].
  set (sh' := set_times _ _ _) in *.
  destruct (bumpDownloadTicketRevision st sh') as [[st1 sh1]|] eqn:Eb; [|done]. injection H as <- _.
  pose proof (bump_frame _ _ _ _ Eb) as (_ & Hidx & _ & _ & Hsh1).
  assert (ID sh1 = ID sh' /\ Path sh1 = Path sh') as [-> ->] by (rewrite Hsh1; done).
  change (pathIdx (put_share st1 (ID sh') sh1)) with (pathIdx st1). rewrite Hidx.
  eapply wf_put; try done; [by apply valid_set_times|].
  apply idx_add; [apply Hw|]. destruct (shares st !! ID sh') as [x|] eqn:E; [|done].
  exfalso. apply Hn. by exists x.
Qed.

Lemma update_wf s io id fn : wf (state s) -> (forall x y, typed_share x -> fn x = Ok y -> typed_share y) ->
  wf (state (fst (Update s io id fn))).
Proof.
  intros Hw Hf. unfold Update. apply (mutate_inv wf); [|done]. clear Hw. intros st st' a Hw H.
  destruct (shares st !! id) as [cur|] eqn:Ec; [|done]. destruct (fn cur) as [u0|] eqn:Ef; [|done].
  destruct (validateShareInvariants u0) as [u|] eqn:Ev; [|done].
  destruct (validate_ok _ _ Ev) as [Hv _]. pose proof (typed_validate _ _ (Hf _ _ (proj2 (proj2 (wf_get _ _ _ Hw Ec))) Ef) Ev) as Ht.
  destruct (String.eqb (ID u) id) eqn:Eid; [|done]. simpl in H. b2p.
  destruct (bumpDownloadTicketRevision (block st cur) u) as [[st1 u1]|] eqn:Eb; [|done].
  pose proof (bump_frame _ _ _ _ Eb) as (_ & Hidx & _ & _ & Hu1).
  assert (Path u1 = Path u) as Hp by (rewrite Hu1; done). rewrite Hp in H.
  destruct (String.eqb (Path cur) (Path u)) eqn:Ep; b2p; simpl in H; injection H as <- _.
  - by eapply (wf_put_same st _ id cur u); [done|apply block_same|..].
  - change (pathIdx (put_share st1 id u1)) with (pathIdx st1). rewrite Hidx.
    by eapply (wf_put_move st _ id cur u); [done|apply block_same|..].
Qed.

Lemma delete_wf s io id : wf (state s) -> wf (state (fst (Delete s io id))).
Proof.
  unfold Delete. apply (mutate_inv wf). intros st st' a Hw H. destruct (shares st !! id) as [cur|] eqn:Ec; [|done].
  injection H as <- _. split; simpl.
  - intros id' s' H. apply lookup_delete_Some in H as [Hne H]. rewrite lookup_delete_ne by done. by apply (wf_share st Hw).
  - intros id' r H. apply lookup_delete_Some in H as [Hne H]. rewrite lookup_delete_ne by done. by eapply wf_revision.
  - apply idx_drop; [apply Hw|done].
Qed.

(** *** Loops over the map *)

(** What [DisableSharesUnderPathWithRestore] does to one share. *)
Definition covered (target : string) (s : Share) : bool := sharePathMatchesOrDescendant target (Path s) && Enabled s.
Definition revised (s s' : Share) : Prop := exists r, s' = set_revision s r /\ ticketRevision s < r <= maxUint64.

Lemma bump_revised st id s0 s st1 s1 : wf st -> shares st !! id = Some s0 ->
  ticketRevision s = ticketRevision s0 -> bumpDownloadTicketRevision st s = Ok (st1, s1) -> ID s = id -> revised s s1.
Proof.
  intros Hw H0 Hr Hb Hid. apply bump_spec in Hb as (r & -> & _ & Hrange). exists r. split; [done|].
  destruct (wf_get _ _ _ Hw H0) as (_ & _ & ?). destruct Hrange; [by apply wf_rev_range|lia|lia].
Qed.

Lemma disable_step target st id s o : wf st -> shares st !! id = Some s ->
  (fun st '(id, share) =>
    if negb (sharePathMatchesOrDescendant target (Path share)) || negb (Enabled share) then Ok None
    else
      let st := block st share in
      let! (st, updated) := bumpDownloadTicketRevision st (set_enabled share false) in
      Ok (Some (put_share st id updated, share))) st (id, s) = Ok o ->
  match o with
  | None => covered target s = false
  | Some (st', x) => wf st' /\ x = s /\ exists s', shares st' = <[id:=s']> (shares st) /\
      (covered target s = true /\ revised (set_enabled s false) s')
  end.
Proof.
  intros Hw Hs H. simpl in H. unfold covered. destruct (sharePathMatchesOrDescendant target (Path s)); cycle 1.
  { by injection H as <-. }
  destruct (Enabled s) eqn:Ee; cycle 1.
  { by injection H as <-. }
  simpl in H. destruct (bumpDownloadTicketRevision _ _) as [[st1 s1]|] eqn:Eb; [|done]. injection H as <-.
  destruct (wf_get _ _ _ Hw Hs) as (Hid & Hv & Hr). split; [|split; [done|]].
  - by eapply (wf_put_same st _ id s (set_enabled s false)); [done|apply block_same|..|exact Eb]; try done; apply valid_set_enabled.
  - exists s1. destruct (bump_frame _ _ _ _ Eb) as (Hsh & _). split; [simpl; by rewrite Hsh|]. split; [done|].
    by eapply (bump_revised (block st s) id s); [eapply wf_same; [apply block_same|done]|..].
Qed.

(** Relocation of canonical paths is the exchange of a prefix of segments. *)
Lemma clean_segments_slash s : is_rooted s = true -> clean_segments ("/" +:+ s) = clean_segments s.
Proof. intros Hr. unfold clean_segments. by rewrite Hr, is_rooted_slash. Qed.

Lemma relocate_render c o n :
  Forall good_seg c -> Forall good_seg o -> Forall good_seg n -> o <> [] ->
  (forall r, c = o ++ r -> relocateSharePath (render c) (render o) (render n) = Some (render (n ++ r))) /\
  (~ o `prefix_of` c -> relocateSharePath (render c) (render o) (render n) = None).
Proof.
  intros Hc Ho Hn Hne. unfold relocateSharePath, sharePathMatchesOrDescendant.
  rewrite !Clean_render by done.
  assert (String.eqb (render o) "/" = false) as ->.
  { apply String.eqb_neq. change "/" with (render []). intros E. apply render_inj in E; done. }
  assert (Hiff : String.eqb (render c) (render o) || HasPrefix (render c) (render o +:+ "/") = true <-> o `prefix_of` c).
  { rewrite orb_true_iff, String.eqb_eq. by apply render_prefix_iff. }
  split.
  - intros r Hr. rewrite (proj2 Hiff) by (rewrite Hr; by eexists). cbn [negb].
    destruct (String.eqb (render c) (render o)) eqn:E; b2p.
    + apply render_inj in E; [|done..]. rewrite E in Hr.
      assert (r = []) as -> by (apply (app_inv_head o); rewrite app_nil_r; congruence). by rewrite app_nil_r.
    + assert (r <> []) as Hrne by (intros ->; rewrite app_nil_r in Hr; congruence).
      rewrite Hr in *. apply Forall_app in Hc as [_ Hgr].
      rewrite render_app, TrimPrefix_app by done. f_equal.
      destruct n as [|x n].
      * change (Clean (render [] +:+ render r)) with (Clean ("/" +:+ render r)).
        rewrite Clean_rooted by apply is_rooted_slash.
        rewrite clean_segments_slash, clean_segments_render by (done || apply render_rooted). done.
      * rewrite <-render_app by done. apply Clean_render. by apply Forall_app.
  - intros Hp. destruct (_ || _) eqn:E; [|done]. exfalso. by apply Hp, Hiff.
Qed.

Lemma relocate_canonical cur o n p : canonical n -> relocateSharePath cur o n = Some p -> canonical p.
Proof.
  intros Hn H. unfold relocateSharePath in H. rewrite (Clean_of_canonical n Hn) in H.
  destruct (negb _); [done|]. destruct (String.eqb _ _); [congruence|]. injection H as <-.
  apply Clean_canonical. destruct Hn as (l & _ & ->). unfold render. rewrite sapp_assoc. apply is_rooted_slash.
Qed.

(** What [UpdatePathReferencesWithRestore] does to one share. *)
Definition moved (o n : string) (s s' : Share) : Prop := exists p,
  relocateSharePath (Path s) o n = Some p /\ p <> Path s /\ revised (set_path s p) s'.
Definition unmoved (o n : string) (s : Share) : Prop :=
  relocateSharePath (Path s) o n = None \/ relocateSharePath (Path s) o n = Some (Path s).

Lemma move_step o n st id s r : canonical n -> wf st -> shares st !! id = Some s ->
  (fun st '(id, share) =>
    match relocateSharePath (Path share) o n with
    | None => Ok None
    | Some updatedPath =>
      if String.eqb updatedPath (Path share) then Ok None
      else
        let st := block st share in
        let! (st, updated) := bumpDownloadTicketRevision st (set_path share updatedPath) in
        let st := put_share st id updated in
        Ok (Some (with_pathIdx st (moveSharePathIndex (pathIdx st) (Path share) updatedPath id), share))
    end) st (id, s) = Ok r ->
  match r with
  | None => unmoved o n s
  | Some (st', x) => wf st' /\ x = s /\ exists s', shares st' = <[id:=s']> (shares st) /\ moved o n s s'
  end.
Proof.
  intros Hn Hw Hs H. simpl in H. unfold unmoved, moved.
  destruct (relocateSharePath (Path s) o n) as [p|] eqn:Er; [|injection H as <-; by left].
  destruct (String.eqb p (Path s)) eqn:Ep; b2p; [injection H as <-; right; by rewrite Ep|].
  destruct (bumpDownloadTicketRevision _ _) as [[st1 s1]|] eqn:Eb; [|done]. injection H as <-.
  destruct (wf_get _ _ _ Hw Hs) as (Hid & Hv & Hr).
  pose proof (bump_frame _ _ _ _ Eb) as (Hsh & Hidx & _).
  split; [|split; [done|]].
  - change (pathIdx (put_share st1 id s1)) with (pathIdx st1). rewrite Hidx.
    eapply (wf_put_move st _ id s (set_path s p)); [done|apply block_same|..|exact Eb]; try done.
    apply valid_set_path; [done|]. by eapply relocate_canonical.
  - exists s1. split; [simpl; by rewrite Hsh|]. exists p. split; [done|]. split; [done|].
    by eapply (bump_revised (block st s) id s); [eapply wf_same; [apply block_same|done]|..].
Qed.

Lemma update_paths_wf s io o n : wf (state s) -> wf (state (fst (UpdatePathReferencesWithRestore s io o n))).
Proof.
  intros Hw. unfold UpdatePathReferencesWithRestore.
  destruct (normalizeStoredSharePath o) as [o'|]; [|done].
  destruct (normalizeStoredSharePath n) as [n'|] eqn:En; [|done].
  destruct (String.eqb o' n'); [done|]. apply (mutate_inv wf); [|done]. clear Hw. intros st st' a Hw H.
  destruct (loop _ _ _) as [[st1 ch]|] eqn:El; [|done].
  eapply (loop_map_spec _ (fun _ => unmoved o' n') (fun _ => moved o' n')) in El as [Hw' _]; [|..|done].
  - destruct (is_empty ch); [done|]. by injection H as <- _.
  - intros st2 id sh r Hw2 Hs2 Hr. by eapply move_step; [apply (normalizer_canonical n); left|..].
Qed.

Lemma disable_wf s io p : wf (state s) -> wf (state (fst (DisableSharesUnderPathWithRestore s io p))).
Proof.
  intros Hw. unfold DisableSharesUnderPathWithRestore. destruct (normalizeStoredSharePath p) as [p'|]; [|done].
  apply (mutate_inv wf); [|done]. clear Hw. intros st st' a Hw H.
  destruct (loop _ _ _) as [[st1 ch]|] eqn:El; [|done].
  eapply (loop_map_spec _ (fun _ sh => covered p' sh = false)
    (fun _ sh s' => covered p' sh = true /\ revised (set_enabled sh false) s')) in El as [Hw' _]; [|..|done].
  - destruct (is_empty ch); [done|]. by injection H as <- _.
  - intros st2 id sh r Hw2 Hs2 Hr. by eapply disable_step.
Qed.

(** *** Loops over given shares *)

(** A body that changes at most one share keeps the state well formed. *)
Lemma given_wf {A B} (f : State -> B -> result ShareError (option (State * Share))) s io (l : list B) (a : A) :
  (forall st x st' sh, x ∈ l -> wf st -> f st x = Ok (Some (st', sh)) -> wf st') -> wf (state s) ->
  wf (state (fst (mutate s io (fun st : State =>
    let! (st, changed) := loop f l st in if is_empty changed then Ok (Keep a) else Ok (Save st a))))).
Proof.
  intros Hf Hw. apply (mutate_inv wf); [|done]. clear Hw. intros st st' b Hw H.
  destruct (loop f l st) as [[st1 ch]|] eqn:El; [|done].
  apply (loop_inv f wf) in El; [|done|done]. destruct (is_empty ch); [done|]. by injection H as <- _.
Qed.

Lemma apply_delete_wf s io l : wf (state s) -> wf (state (fst (ApplyDeleteExact s io l))).
Proof.
  intros Hw. unfold ApplyDeleteExact. destruct (is_empty l); [done|]. apply given_wf; [|done]. clear Hw.
  intros st x st' sh _ Hw H. destruct x as [original|]; [|done].
  destruct (normalizeLegacyShareInvariants original) as [n|]; [|done].
  destruct (shares st !! ID n) as [cur|] eqn:Ec; [|done].
  destruct (_ || _); [done|]. destruct (bumpDownloadTicketRevision _ _) as [[st1 s1]|] eqn:Eb; [|done].
  injection H as <- _. destruct (wf_get _ _ _ Hw Ec) as (Hid & Hv & Hr).
  eapply (wf_put_same st _ (ID n) cur (set_enabled cur false)); [done|apply block_same|..|exact Eb]; try done.
  by apply valid_set_enabled.
Qed.

Lemma fold_block_same st l : same_shares st (fold_left block l st).
Proof.
  revert st. induction l as [|x l IH]; intros st; [done|]. simpl. exact (IH (block st x)).
Qed.

(** An update of the store after changes of the index and of the Trash operations. *)
Lemma wf_put_any st st' id s st1 s1 :
  wf st -> shares st' = shares st -> ticketRevisions st' = ticketRevisions st ->
  ID s = id -> valid_share s -> typed_share s -> bumpDownloadTicketRevision st' s = Ok (st1, s1) ->
  idx_ok (<[id:=s]> (shares st)) (pathIdx st') -> wf (put_share st1 id s1).
Proof.
  intros Hw H1 H2 Hid Hv Ht Hb Hi.
  destruct (bumpDownloadTicketRevision st s) as [[st2 s2]|] eqn:Eb; cycle 1.
  { unfold bumpDownloadTicketRevision in *. rewrite H2 in Hb. by destruct (_ =? maxUint64). }
  pose proof (bump_frame _ _ _ _ Hb) as (Hs1 & Hx1 & _). pose proof (bump_frame _ _ _ _ Eb) as (Hs2 & _).
  assert (s2 = s1 /\ ticketRevisions st2 = ticketRevisions st1) as [-> Hr].
  { unfold bumpDownloadTicketRevision in *. rewrite H2 in Hb. destruct (_ =? maxUint64); [done|]. by simplify_eq. }
  eapply (wf_same (with_pathIdx (put_share st2 id s1) (pathIdx st'))); [|by eapply wf_put].
  unfold same_shares. simpl. split; [by rewrite Hs1, Hs2, H1|]. done.
Qed.

Lemma idx_restore st id cur s : wf st -> shares st !! id = Some cur ->
  idx_ok (<[id:=s]> (shares st))
    (if negb (String.eqb (Path cur) (Path s)) then moveSharePathIndex (pathIdx st) (Path cur) (Path s) id else pathIdx st).
Proof.
  intros Hw Hc. destruct (String.eqb (Path cur) (Path s)) eqn:E; b2p; simpl.
  - by eapply idx_same; [apply Hw|..].
  - apply idx_move; [apply Hw|done].
Qed.

Lemma restoreCurrent_wf st id cur upd bl st' sh :
  wf st -> shares st !! id = Some cur -> ID upd = id -> valid_share upd -> typed_share upd ->
  restoreCurrent st id cur upd bl = Ok (Some (st', sh)) -> wf st'.
Proof.
  intros Hw Hc Hid Hv Ht H. unfold restoreCurrent in H. destruct (sharesEqual _ _); [done|].
  match type of H with context [with_pathIdx st ?i] =>
    pose proof (fold_block_same (with_pathIdx st i) bl) as (H1 & H2 & H3) end.
  destruct (bumpDownloadTicketRevision _ _) as [[st1 u1]|] eqn:Eb; [|done]. injection H as <- _.
  eapply (wf_put_any st); [exact Hw|exact H1|exact H3|done..|exact Eb|]. rewrite H2. by apply idx_restore.
Qed.

(** A share with the fields of another one's path and switch stays valid. *)
Lemma restore_moved_wf s io l : wf (state s) -> (forall o, o ∈ l -> canonical (Path o)) ->
  wf (state (fst (RestoreMovedSharesPreservingCurrent s io l))).
Proof.
  intros Hw Hl. unfold RestoreMovedSharesPreservingCurrent. destruct (is_empty l); [done|].
  apply given_wf; [|done]. clear Hw. intros st x st' sh Hx Hw H.
  destruct (shares st !! ID x) as [cur|] eqn:Ec; [|done]. destruct (wf_get _ _ _ Hw Ec) as (Hid & Hv & Hr).
  eapply restoreCurrent_wf; [done|exact Ec|..|exact H]; [done|by apply valid_set_path; [|apply Hl]|done].
Qed.

Lemma restore_disabled_wf s io l : wf (state s) -> (forall o, o ∈ l -> canonical (Path o)) ->
  wf (state (fst (RestoreDisabledSharesPreservingCurrent s io l))).
Proof.
  intros Hw Hl. unfold RestoreDisabledSharesPreservingCurrent. destruct (is_empty l); [done|].
  apply given_wf; [|done]. clear Hw. intros st x st' sh Hx Hw H.
  destruct (shares st !! ID x) as [cur|] eqn:Ec; [|done]. destruct (wf_get _ _ _ Hw Ec) as (Hid & Hv & Hr).
  eapply restoreCurrent_wf; [done|exact Ec|..|exact H]; [done| |done].
  by apply valid_set_enabled, valid_set_path; [|apply Hl].
Qed.

Definition typed_shares (l : list Share) : Prop := forall o, o ∈ l -> typed_share o.

Lemma restore_preserving_wf s io l : wf (state s) -> typed_shares l ->
  wf (state (fst (RestoreSharesPreservingCurrent s io l))).
Proof.
  intros Hw Hl. unfold RestoreSharesPreservingCurrent. destruct (is_empty l); [done|].
  apply given_wf; [|done]. clear Hw. intros st x st' sh Hx Hw H.
  destruct (normalizeLegacyShareInvariants x) as [n|] eqn:En; [|done].
  destruct (normalizeLegacy_ok _ _ En) as [Hv _]. pose proof (typed_legacy _ _ (Hl _ Hx) En) as Ht.
  destruct (shares st !! ID n) as [cur|] eqn:Ec.
  - destruct (wf_get _ _ _ Hw Ec) as (Hid & Hvc & Hr).
    eapply restoreCurrent_wf; [done|exact Ec|..|exact H]; [done| |done].
    apply valid_set_enabled, valid_set_path; [done|apply Hv].
  - destruct (bumpDownloadTicketRevision _ _) as [[st1 n1]|] eqn:Eb; [|done]. injection H as <- _.
    pose proof (bump_frame _ _ _ _ Eb) as (_ & Hidx & _ & _ & Hn1).
    assert (ID n1 = ID n /\ Path n1 = Path n) as [-> ->] by (rewrite Hn1; done).
    change (pathIdx (put_share st1 (ID n) n1)) with (pathIdx st1). rewrite Hidx.
    eapply (wf_put (block st n)); [by eapply wf_same; [apply block_same|]|done..|].
    apply idx_add; [apply Hw|done].
Qed.

Lemma restore_shares_wf s io l : wf (state s) -> (forall o, Some o ∈ l -> typed_share o) ->
  wf (state (fst (RestoreShares s io l))).
Proof.
  intros Hw Hl. unfold RestoreShares. destruct (is_empty l); [done|].
  apply given_wf; [|done]. clear Hw. intros st x st' sh Hx Hw H. destruct x as [o|]; [|done].
  destruct (normalizeLegacyShareInvariants o) as [n|] eqn:En; [|done].
  destruct (normalizeLegacy_ok _ _ En) as [Hv _]. pose proof (typed_legacy _ _ (Hl _ Hx) En) as Ht.
  destruct (match shares st !! ID n with Some c => sharesEqual c n | None => false end); [done|].
  match type of H with context [bumpDownloadTicketRevision (block ?t n) n] => set (st2 := t) in * end.
  assert (shares st2 = shares st /\ ticketRevisions st2 = ticketRevisions st /\
    idx_ok (<[ID n:=n]> (shares st)) (pathIdx st2)) as (H1 & H2 & Hi).
  { unfold st2. destruct (shares st !! ID n) as [cur|] eqn:Ec.
    - pose proof (idx_restore st (ID n) cur n Hw Ec) as Hi.
      destruct (negb (String.eqb (Path cur) (Path n))); done.
    - split; [done|]. split; [done|]. apply idx_add; [apply Hw|done]. }
  destruct (bumpDownloadTicketRevision (block st2 n) n) as [[st1 n1]|] eqn:Eb; [|done]. injection H as <- _.
  pose proof (bump_frame _ _ _ _ Eb) as (_ & _ & _ & _ & Hn1).
  assert (ID n1 = ID n) as -> by (rewrite Hn1; done).
  eapply (wf_put_any st (block st2 n)); [exact Hw|exact H1|exact H2|done..|exact Eb|exact Hi].
Qed.

(** *** Accesses *)

Lemma access_put_wf st id s n t : wf st -> shares st !! id = Some s -> wf (put_share st id (set_access s n t)).
Proof.
  intros Hw Hs. destruct (wf_share st Hw _ _ Hs) as (Hid & Hv & Hr & Hrange). split; simpl.
  - intros id' s' H. destruct (decide (id = id')) as [<-|Hne].
    + rewrite lookup_insert_eq in H. injection H as <-. split_and!; try done; [by apply valid_set_access|apply Hrange..].
    + rewrite lookup_insert_ne in H by done. by apply (wf_share st Hw).
  - intros id' r H. destruct (decide (id = id')) as [<-|Hne]; [rewrite lookup_insert_eq; eauto|].
    rewrite lookup_insert_ne by done. by eapply wf_revision.
  - by eapply idx_same; [apply Hw|..].
Qed.

Lemma reserve_wf s io now id v : wf (state s) -> wf (state (fst (reserveAuthorizedAccessMatching s io now id v))).
Proof.
  unfold reserveAuthorizedAccessMatching. apply (mutate_inv wf). intros st st' a Hw H.
  destruct (shares st !! id) as [sh|] eqn:Es; [|done]. repeat case_in H; injection H as <- _; by apply access_put_wf.
Qed.

Lemma record_authorized_fst s io now id :
  fst (RecordAuthorizedAccess s io now id) = fst (reserveAuthorizedAccess s io now id).
Proof.
  unfold RecordAuthorizedAccess. destruct (reserveAuthorizedAccess s io now id) as [s' [[[sh r] [|]]|e]]; done.
Qed.

Lemma record_fst s io now id : fst (RecordAccess s io now id) = fst (reserveAuthorizedAccess s io now id).
Proof.
  rewrite <-record_authorized_fst. unfold RecordAccess.
  destruct (RecordAuthorizedAccess s io now id) as [s' [sh|e]]; done.
Qed.

Lemma rollback_access_wf s io r : wf (state s) -> wf (state (fst (rollbackAuthorizedAccess s io r))).
Proof.
  unfold rollbackAuthorizedAccess. destruct r as [r|]; [|done]. apply (mutate_inv wf). intros st st' a Hw H.
  destruct (shares st !! ar_id r) as [sh|] eqn:Es; [|done]. destruct (AccessCount sh =? 0); [done|].
  injection H as <- _. by apply access_put_wf.
Qed.

Lemma access_wf bm s io now id p : wf (state s) -> wf (state (fst (Access bm s io now id p))).
Proof.
  unfold Access. apply (mutate_inv wf). intros st st' a Hw H.
  destruct (shares st !! id) as [sh|] eqn:Es; [|done]. destruct (CanAccess sh now); [done|].
  destruct (_ && _); [done|]. injection H as <- _. by apply access_put_wf.
Qed.

(** *** Trash operations *)

Lemma disable_plan_wf st planned st' changed : wf st ->
  disableSharesMatchingPlan st planned = Ok (st', changed) -> wf st'.
Proof.
  intros Hw H. unfold disableSharesMatchingPlan in H.
  destruct (loop _ planned st) as [[st1 ch]|] eqn:El; [|done]. injection H as <- _.
  eapply (loop_inv _ wf) in El; [done| |done]. clear Hw El. intros st2 x st3 sh _ Hw H. unfold disablePlanned in H.
  destruct (shares st2 !! ID x) as [cur|] eqn:Ec; [|done]. destruct (_ || _); [done|].
  destruct (bumpDownloadTicketRevision _ _) as [[st4 u]|] eqn:Eb; [|done]. injection H as <- _.
  destruct (wf_get _ _ _ Hw Ec) as (Hid & Hv & Hr). pose proof (bump_frame _ _ _ _ Eb) as (_ & _ & _ & _ & Hu).
  assert (ID u = ID x) as -> by (rewrite Hu; done).
  eapply (wf_put_same st2 _ (ID x) cur (set_enabled cur false)); [done|done|..|exact Eb]; try done.
  by apply valid_set_enabled.
Qed.

Lemma clear_same st id planned : same_shares st (clearCommittedTrashDeleteOwnership st id planned).
Proof. unfold clearCommittedTrashDeleteOwnership. by destruct (bool_decide _). Qed.

Lemma apply_trash_delete_wf s io id planned c : wf (state s) ->
  wf (state (fst (ApplyTrashDeleteOperation s io id planned c))).
Proof.
  intros Hw. unfold ApplyTrashDeleteOperation. destruct (negb _); [done|].
  destruct (normalizeTrashDeleteShares planned) as [np|]; [|done].
  apply (mutate_inv wf); [|done]. clear Hw. intros st st' a Hw H. destruct (match _ with Some _ => _ | None => _ end); [done|].
  destruct c; simpl in H.
  - destruct (match _ with Some _ => _ | None => _ end); [by injection H as <- _|].
    destruct (disableSharesMatchingPlan st np) as [[st1 ch]|] eqn:Ed; [|done]. injection H as <- _.
    apply disable_plan_wf in Ed; [|done]. eapply wf_same; [apply clear_same|]. by eapply wf_same; [|exact Ed].
  - destruct (trashDeleteOperations st !! id); [by injection H as <- _|].
    destruct (disableSharesMatchingPlan st np) as [[st1 ch]|] eqn:Ed; [|done]. injection H as <- _.
    apply disable_plan_wf in Ed; [|done]. by eapply wf_same; [|exact Ed].
Qed.

Lemma complete_delete_wf s io id : wf (state s) -> wf (state (fst (CompleteTrashDeleteOperation s io id))).
Proof.
  intros Hw. unfold CompleteTrashDeleteOperation. destruct (negb _); [done|].
  apply (mutate_inv wf); [|done]. intros st st' a Hst H. repeat case_in H; injection H as <- _; try done.
  by eapply wf_same; [|exact Hst].
Qed.

Lemma purge_wf s io id : wf (state s) -> wf (state (fst (PurgeCompletedTrashDeleteOperation s io id))).
Proof.
  intros Hw. unfold PurgeCompletedTrashDeleteOperation. destruct (negb _); [done|].
  apply (mutate_inv wf); [|done]. intros st st' a Hst H. repeat case_in H; injection H as <- _; try done.
  by eapply wf_same; [|exact Hst].
Qed.

Lemma rollback_wf s io id : wf (state s) -> wf (state (fst (RollbackTrashDeleteOperation s io id))).
Proof.
  intros Hw. unfold RollbackTrashDeleteOperation. destruct (negb _); [done|].
  apply (mutate_inv wf); [|done]. clear Hw. intros st st' a Hw H.
  destruct (trashDeleteOperations st !! id) as [m|]; [|by injection H as <- _].
  destruct (Committed m); [done|].
  destruct (loop _ _ _) as [[st1 ch]|] eqn:El; [|done]. injection H as <- _.
  eapply (loop_inv _ wf) in El; [by eapply wf_same; [|exact El]| |done]. clear Hw El. intros st2 x st3 sh _ Hw H.
  unfold rollbackChanged in H. destruct (trashDeleteRestoreBlocked m (ID x)); [done|].
  destruct (shares st2 !! ID x) as [cur|] eqn:Ec; [|done]. destruct (_ || _); [done|].
  destruct (negb _); [done|]. destruct (shareOwnedByAnotherTrashDelete _ _ _); [done|].
  destruct (bumpDownloadTicketRevision _ _) as [[st4 u]|] eqn:Eb; [|done]. injection H as <- _.
  destruct (wf_get _ _ _ Hw Ec) as (Hid & Hv & Hr). pose proof (bump_frame _ _ _ _ Eb) as (_ & _ & _ & _ & Hu).
  assert (ID u = ID x) as -> by (rewrite Hu; done).
  eapply (wf_put_same st2 _ (ID x) cur (set_enabled cur (Enabled x))); [done|..|exact Eb]; try done.
  by apply valid_set_enabled.
Qed.

(** The shares of a normalised restore plan are valid. *)
Lemma transitions_valid original relocated acc ts :
  restoreTransitions original relocated acc = Ok ts ->
  Forall (fun t => valid_share (t_relocated t)) acc -> Forall (fun t => valid_share (t_relocated t)) ts.
Proof.
  revert relocated acc. induction original as [|o original IH]; intros [|r relocated] acc H Ha; simpl in H; try done.
  { by injection H as <-. }
  destruct (match o with Some _ => _ | None => _ end) as [oi|]; [|done].
  destruct (match r with Some _ => _ | None => _ end) as [ri|] eqn:Er; [|done].
  destruct (bool_decide _); [done|]. destruct (negb _); [done|]. apply IH in H; [done|].
  apply Forall_app. split; [done|]. constructor; [|constructor]. simpl.
  repeat case_in Er. injection Er as <-. by eapply validate_ok.
Qed.

Lemma restore_plans_valid original relocated o r :
  normalizeTrashRestorePlans original relocated = Ok (o, r) -> Forall valid_share r.
Proof.
  unfold normalizeTrashRestorePlans. intros H. destruct (restoreTransitions _ _ []) as [ts|] eqn:E; [|done].
  injection H as _ <-. apply Forall_fmap. apply transitions_valid in E; [|constructor].
  rewrite Forall_forall in E |- *. intros x Hx. apply E. by rewrite (merge_sort_Permutation transition_le ts) in Hx.
Qed.

Lemma find_share_in l id s : find_share l id = Some s -> s ∈ l /\ ID s = id.
Proof.
  unfold find_share. intros H. apply last_Some_elem_of, list_elem_of_In in H.
  apply filter_In in H as [H1 H2]. b2p. split; [by apply list_elem_of_In|done].
Qed.

Lemma find_share_none l id s : find_share l id = None -> s ∈ l -> ID s <> id.
Proof.
  unfold find_share. rewrite last_None. intros H Hs Hid.
  assert (s ∈ List.filter (fun s => String.eqb (ID s) id) l) as Hin; [|rewrite H in Hin; by apply elem_of_nil in Hin].
  apply list_elem_of_In, filter_In. split; [by apply list_elem_of_In|]. by apply String.eqb_eq.
Qed.

Lemma NoDup_fmap_elem {A} (f : A -> string) l x y : NoDup (f <$> l) -> x ∈ l -> y ∈ l -> f x = f y -> x = y.
Proof.
  induction l as [|z l IH]; [by intros _ ?%elem_of_nil|]. rewrite fmap_cons, NoDup_cons, !elem_of_cons. intros [Hz Hn].
  intros [->|Hx] [->|Hy] Hf; try done; [| |by apply IH]; exfalso; apply Hz.
  - rewrite Hf. by apply list_elem_of_fmap_2.
  - rewrite <-Hf. by apply list_elem_of_fmap_2.
Qed.

(** What one turn of the loop of [ApplyTrashRestoreOperation] does. *)
Lemma restore_changed_cases m l st x o : wf st -> Forall valid_share l -> restoreChanged m l st x = Ok o ->
  match o with
  | None => forall cur target, shares st !! ID x = Some cur -> target ∈ l -> ID target = ID x -> NoDup (ID <$> l) ->
      trashDeleteRestoreBlocked m (ID x) = true \/ Enabled cur = true \/ Path cur <> Path x \/
      sameTrashDeleteShareGeneration cur x = false \/ sameTrashDeleteShareGeneration target x = false
  | Some (st', y) => wf st' /\ ID y = ID x /\ trashDeleteRestoreBlocked m (ID x) = false /\
      trashDeleteOperations st' = trashDeleteOperations st /\
      exists cur target, shares st !! ID x = Some cur /\ Enabled cur = false /\ Path cur = Path x /\
        sameTrashDeleteShareGeneration cur x = true /\ target ∈ l /\ ID target = ID x /\
        sameTrashDeleteShareGeneration target x = true /\
        shares st' = <[ID x := y]> (shares st) /\ revised (set_enabled (set_path cur (Path target)) (Enabled target)) y
  end.
Proof.
  intros Hw Hl H. unfold restoreChanged in H. destruct (trashDeleteRestoreBlocked m (ID x)) eqn:Eb; [injection H as <-; auto|].
  destruct (shares st !! ID x) as [cur|] eqn:Ec; [|by injection H as <-].
  destruct (wf_get _ _ _ Hw Ec) as (Hid & Hv & Hr).
  destruct (_ || _) eqn:Ecd in H.
  { injection H as <-. intros c t [= <-] _ _ _. right. destruct (Enabled cur); [by left|right]. simpl in Ecd.
    destruct (String.eqb (Path cur) (Path x)) eqn:Ep; b2p; [right; left|by left].
    by destruct (sameTrashDeleteShareGeneration cur x). }
  b2p. destruct (find_share l (ID x)) as [target|] eqn:Ef; cycle 1.
  { injection H as <-. intros c t _ Ht Hti _. exfalso. by apply (find_share_none _ _ t Ef). }
  apply find_share_in in Ef as [Hin Hti].
  destruct (sameTrashDeleteShareGeneration target x) eqn:Eg; simpl in H; cycle 1.
  { injection H as <-. intros c t _ Ht Hi Hnd. do 4 right.
    assert (t = target) as ->; [|done]. eapply (NoDup_fmap_elem ID l); try done. congruence. }
  destruct (bumpDownloadTicketRevision _ _) as [[st4 u]|] eqn:Ebp; [|done]. injection H as <-.
  pose proof (bump_frame _ _ _ _ Ebp) as (Hs & _ & Ht & _ & Hu).
  assert (ID u = ID x) as Hux by (rewrite Hu; done). rewrite Hux.
  split; [|split; [done|]; split; [done|]; split; [done|]].
  - refine (wf_put_any _ _ (ID x) _ _ _ Hw _ _ _ _ _ Ebp _); try done.
    + rewrite Forall_forall in Hl. apply valid_set_enabled, valid_set_path; [done|]. by apply (Hl _ Hin).
    + simpl. rewrite Hid. exact (idx_restore st (ID x) cur (set_enabled (set_path cur (Path target)) (Enabled target)) Hw Ec).
  - exists cur, target. do 7 (split; [done|]). split; [simpl; by rewrite Hs|].
    apply bump_spec in Ebp as (r & Hur & _ & Hrange). exists r. split; [done|]. simpl in *.
    destruct Hrange as (? & _ & ?); [|done|lia]. exact (wf_rev_range st _ Hw).
Qed.

Lemma apply_trash_restore_wf s io rid did o r : wf (state s) ->
  wf (state (fst (ApplyTrashRestoreOperation s io rid did o r))).
Proof.
  intros Hw. unfold ApplyTrashRestoreOperation. destruct (_ || _); [done|].
  destruct (normalizeTrashRestorePlans o r) as [[o' r']|] eqn:En; [|done]. apply restore_plans_valid in En.
  apply (mutate_inv wf); [|done]. clear Hw. intros st st' a Hw H.
  destruct (trashRestoreOperations st !! rid) as [ex|].
  { repeat case_in H. by injection H as <- _. }
  destruct (ownsPlan st did o') as [m|]; [|done]. destruct (existsb _ _); [done|].
  destruct (loop _ _ _) as [[st1 ch]|] eqn:El; [|done]. injection H as <- _.
  eapply (loop_inv _ wf) in El; [by eapply wf_same; [|exact El]| |done]. clear Hw El. intros st2 x st3 sh _ Hw H.
  by apply (restore_changed_cases _ _ _ _ _ Hw En) in H as [? _].
Qed.

Lemma complete_restore_wf s io id : wf (state s) -> wf (state (fst (CompleteTrashRestoreOperation s io id))).
Proof.
  intros Hw. unfold CompleteTrashRestoreOperation. destruct (negb _); [done|].
  apply (mutate_inv wf); [|done]. intros st st' a Hst H. repeat case_in H; injection H as <- _; try done.
  by eapply wf_same; [|exact Hst].
Qed.

End ShareInvariant.
