(* ===== verification/ShareProps.v ===== *)
(** * The share store: what its operations promise

    Sequences of calls, and the properties of the store that its clients rely on: the index and the
    ticket revisions are exact, the file is the memory, accesses stay within their limit, moves and
    deletions of paths change exactly the shares below them, and a rolled back move to the Trash
    leaves no trace but newer ticket revisions. *)

From Stdlib Require Import Ascii.
From stdpp Require Import sorting.
From S2P Require Import Prelude GoStrings GoPath Paths Share ShareStore ShareTrash ShareInvariant.
Import Share ShareStore ShareTrash ShareInvariant.

Module ShareProps.

(** ** Calls *)

Section Calls.
Context (bcrypt_hash : string -> result string string) (bcrypt_matches : string -> string -> bool).

(** The operations that change the store, with their arguments, the clock and the random ID. *)
Inductive call :=
| CallCreate (now : Z) (id : string) (opts : CreateShareOptions)
| CallCommitPreparedCreate (now : Z) (prepared : PreparedShareCreate)
| CallUpdate (id : string) (fn : Share -> result string Share)
| CallDelete (id : string)
| CallUpdatePathReferences (oldPath newPath : string)
| CallDisableSharesUnderPath (targetPath : string)
| CallApplyDeleteExact (l : list (option Share))
| CallRestoreShares (l : list (option Share))
| CallRestoreDisabledSharesPreservingCurrent (l : list Share)
| CallRestoreSharesPreservingCurrent (l : list Share)
| CallRestoreMovedSharesPreservingCurrent (l : list Share)
| CallReserveAuthorizedAccess (now : Z) (id : string) (validate : option (Share -> option ShareError))
| CallRollbackAuthorizedAccess (reservation : option authorizedAccessReservation)
| CallAccess (now : Z) (id password : string)
| CallApplyTrashDelete (operationID : string) (planned : list (option Share)) (committed : bool)
| CallCompleteTrashDelete (operationID : string)
| CallPurgeCompletedTrashDelete (operationID : string)
| CallRollbackTrashDelete (operationID : string)
| CallApplyTrashRestore (restoreOperationID deleteOperationID : string) (original relocated : list (option Share))
| CallCompleteTrashRestore (restoreOperationID : string).

(** The store after a call whose write has the outcome [io]. *)
Definition run (io : WriteOutcome) (c : call) (s : ShareStore) : ShareStore :=
  match c with
  | CallCreate now id opts => fst (Create bcrypt_hash s io now id opts)
  | CallCommitPreparedCreate now prepared => fst (CommitPreparedCreate s io now prepared)
  | CallUpdate id fn => fst (Update s io id fn)
  | CallDelete id => fst (Delete s io id)
  | CallUpdatePathReferences o n => fst (UpdatePathReferencesWithRestore s io o n)
  | CallDisableSharesUnderPath p => fst (DisableSharesUnderPathWithRestore s io p)
  | CallApplyDeleteExact l => fst (ApplyDeleteExact s io l)
  | CallRestoreShares l => fst (RestoreShares s io l)
  | CallRestoreDisabledSharesPreservingCurrent l => fst (RestoreDisabledSharesPreservingCurrent s io l)
  | CallRestoreSharesPreservingCurrent l => fst (RestoreSharesPreservingCurrent s io l)
  | CallRestoreMovedSharesPreservingCurrent l => fst (RestoreMovedSharesPreservingCurrent s io l)
  | CallReserveAuthorizedAccess now id v => fst (reserveAuthorizedAccessMatching s io now id v)
  | CallRollbackAuthorizedAccess r => fst (rollbackAuthorizedAccess s io r)
  | CallAccess now id p => fst (Access bcrypt_matches s io now id p)
  | CallApplyTrashDelete id l c => fst (ApplyTrashDeleteOperation s io id l c)
  | CallCompleteTrashDelete id => fst (CompleteTrashDeleteOperation s io id)
  | CallPurgeCompletedTrashDelete id => fst (PurgeCompletedTrashDeleteOperation s io id)
  | CallRollbackTrashDelete id => fst (RollbackTrashDeleteOperation s io id)
  | CallApplyTrashRestore r d o t => fst (ApplyTrashRestoreOperation s io r d o t)
  | CallCompleteTrashRestore r => fst (CompleteTrashRestoreOperation s io r)
  end.

(** Arguments as the callers have them: revisions are [uint64] values, and the shares given to the two
    restores that take paths as they are were returned by the store. *)
Definition typed_call (c : call) : Prop :=
  match c with
  | CallCommitPreparedCreate _ p => typed_share (prepared_share p)
  | CallUpdate _ fn => forall x y, typed_share x -> fn x = Ok y -> typed_share y
  | CallRestoreShares l => forall o, Some o ∈ l -> typed_share o
  | CallRestoreSharesPreservingCurrent l => typed_shares l
  | CallRestoreDisabledSharesPreservingCurrent l | CallRestoreMovedSharesPreservingCurrent l =>
    forall o, o ∈ l -> canonical (Path o)
  | _ => True
  end.

Definition store_step (s s' : ShareStore) : Prop := exists io c, typed_call c /\ s' = run io c s.
Definition reachable_store : ShareStore -> Prop := reachable (eq NewShareStore) store_step.

Lemma prepare_typed id opts p : PrepareCreate bcrypt_hash id opts = Ok p -> typed_share (prepared_share p).
Proof.
  unfold PrepareCreate. intros H. destruct (validateSharePassword _); [done|].
  destruct (if String.eqb _ _ then _ else _); [|done].
  match type of H with context [validateShareInvariants ?s] =>
    destruct (validateShareInvariants s) as [sh|] eqn:E; [|done] end.
  injection H as <-. simpl. eapply typed_validate; [|exact E]. unfold typed_share, maxUint64. simpl. lia.
Qed.

Lemma run_wf io c s : typed_call c -> wf (state s) -> wf (state (run io c s)).
Proof.
  intros Ht Hw. destruct c; simpl in *.
  - unfold Create. destruct (PrepareCreate _ _ _) as [p|] eqn:E; [|done]. apply commit_wf; [done|]. by eapply prepare_typed.
  - by apply commit_wf.
  - by apply update_wf.
  - by apply delete_wf.
  - by apply update_paths_wf.
  - by apply disable_wf.
  - by apply apply_delete_wf.
  - by apply restore_shares_wf.
  - by apply restore_disabled_wf.
  - by apply restore_preserving_wf.
  - by apply restore_moved_wf.
  - by apply reserve_wf.
  - by apply rollback_access_wf.
  - by apply access_wf.
  - by apply apply_trash_delete_wf.
  - by apply complete_delete_wf.
  - by apply purge_wf.
  - by apply rollback_wf.
  - by apply apply_trash_restore_wf.
  - by apply complete_restore_wf.
Qed.

(** Every call is one transaction at most. *)
Lemma run_mutate io c s : run io c s = s \/
  exists (A : Type) (body : State -> result ShareError (decision A)), run io c s = fst (mutate s io body).
Proof.
  destruct c; simpl;
    unfold Create, CommitPreparedCreate, Update, Delete, UpdatePathReferencesWithRestore, DisableSharesUnderPathWithRestore,
      ApplyDeleteExact, RestoreShares, RestoreDisabledSharesPreservingCurrent, RestoreSharesPreservingCurrent,
      RestoreMovedSharesPreservingCurrent, reserveAuthorizedAccessMatching, rollbackAuthorizedAccess, Access,
      ApplyTrashDeleteOperation, CompleteTrashDeleteOperation, PurgeCompletedTrashDeleteOperation,
      RollbackTrashDeleteOperation, ApplyTrashRestoreOperation, CompleteTrashRestoreOperation;
    repeat match goal with |- context [fst (match ?x with _ => _ end)] => destruct x end;
    first [left; reflexivity | right; do 2 eexists; reflexivity].
Qed.

Lemma reachable_wf s : reachable_store s -> wf (state s).
Proof.
  apply (reachable_invariant _ _ (fun s => wf (state s))).
  - intros s1 <-. split; simpl; [by intros id sh ?%lookup_empty_Some|by intros id r ?%lookup_empty_Some|].
    intros p. unfold ids_at. simpl. rewrite lookup_empty. split; [constructor|]. intros id.
    split; [by intros ?%elem_of_nil|]. intros (sh & H & _). by rewrite lookup_empty in H.
  - intros s1 s2 Hw (io & c & Ht & ->). by apply run_wf.
Qed.
End Calls.

(** ** The index and the revisions *)

Lemma get_by_path_in s p q sh : normalizeStoredSharePath p = Ok q -> wf (state s) ->
  (sh ∈ GetByPath s p <-> exists id, Get s id = Ok sh /\ Path sh = q).
Proof.
  intros Hp Hw. unfold GetByPath, Get. rewrite Hp. unfold sortSharesForOutput.
  rewrite (merge_sort_Permutation output_le), list_elem_of_omap. fold (ids_at (pathIdx (state s)) q).
  destruct (wf_index _ Hw q) as [_ Hi]. split.
  - intros (id & Hid & Hs). apply Hi in Hid as (s' & Hs' & Hq). exists id. rewrite Hs in Hs' |- *. by simplify_eq.
  - intros (id & Hs & Hq). exists id. destruct (shares (state s) !! id) as [s'|] eqn:E; [|done]. simplify_eq.
    split; [|done]. apply Hi. eauto.
Qed.

Lemma ids_of_omap (m : gmap string Share) ids : (forall id s, m !! id = Some s -> ID s = id) ->
  (ID <$> omap (fun id => m !! id) ids) `sublist_of` ids.
Proof.
  intros Hm. induction ids as [|id ids IH]; simpl; [constructor|].
  destruct (m !! id) as [s|] eqn:E; simpl; [|by constructor]. rewrite (Hm _ _ E). by constructor.
Qed.

Lemma get_by_path_nodup s p : wf (state s) -> NoDup (ID <$> GetByPath s p).
Proof.
  intros Hw. unfold GetByPath. destruct (normalizeStoredSharePath p) as [q|]; [|constructor].
  unfold sortSharesForOutput. rewrite (merge_sort_Permutation output_le).
  eapply sublist_NoDup; [apply (wf_index _ Hw q)|apply ids_of_omap]. intros id sh H. by apply (wf_get _ _ _ Hw H).
Qed.

Lemma get_lookup s id sh : Get s id = Ok sh <-> shares (state s) !! id = Some sh.
Proof. unfold Get. destruct (shares (state s) !! id); split; congruence. Qed.

(** C10: In every state that the share store can reach, with any outcomes of its writes: a share is
    found under its own ID, satisfies the share invariants (an ID of the accepted form, a canonical
    path, a known type, read permission, a nonnegative access limit), and the ticket revision it
    carries, which is at least 1 and fits 64 bits, is the one recorded for its ID; no revision is
    kept for an ID without a share; and [GetByPath] lists exactly the shares whose path is the
    normalised path asked for, each once. *)
Theorem share_index_exact bcrypt_hash bcrypt_matches s :
  reachable_store bcrypt_hash bcrypt_matches s ->
  (forall id sh, Get s id = Ok sh ->
     ID sh = id /\ valid_share sh /\ ticketRevisions (state s) !! id = Some (ticketRevision sh) /\
     1 <= ticketRevision sh <= maxUint64) /\
  (forall id r, ticketRevisions (state s) !! id = Some r -> exists sh, Get s id = Ok sh) /\
  (forall p q, normalizeStoredSharePath p = Ok q ->
     NoDup (ID <$> GetByPath s p) /\
     forall sh, sh ∈ GetByPath s p <-> exists id, Get s id = Ok sh /\ Path sh = q).
Proof.
  intros Hw%reachable_wf. split; [|split].
  - intros id sh H%get_lookup. by apply (wf_share _ Hw).
  - intros id r H. destruct (wf_revision _ Hw _ _ H) as [sh Hs]. exists sh. by apply get_lookup.
  - intros p q Hp. split; [by apply get_by_path_nodup|]. intros sh. by apply get_by_path_in.
Qed.

(** A store with one share. *)
Definition demo_opts (p : string) : CreateShareOptions :=
  {| opt_Path := p; opt_Type := "folder"; opt_CreatedBy := "u"; opt_ExpiresIn := None; opt_Password := "";
     opt_Permission := ""; opt_MaxAccess := 2; opt_Description := "" |}.
Definition demo_hash (p : string) : result string string := Ok p.
Definition demo_store : ShareStore :=
  run demo_hash String.eqb Written (CallCreate 0 "a" (demo_opts "/x")) NewShareStore.

Lemma demo_reachable : reachable_store demo_hash String.eqb demo_store.
Proof. eapply reach_step; [by apply reach_init|]. exists Written, (CallCreate 0 "a" (demo_opts "/x")). done. Qed.

Lemma share_index_exact_witness :
  reachable_store demo_hash String.eqb demo_store /\
  exists sh, sh ∈ GetByPath demo_store "x/" /\ Get demo_store "a" = Ok sh /\ Path sh = "/x".
Proof.
  split; [exact demo_reachable|].
  destruct (share_index_exact _ _ _ demo_reachable) as (_ & _ & H).
  destruct (H "x/" "/x" ltac:(vm_compute; reflexivity)) as [_ Hin].
  eexists. split; [|split; [vm_compute; reflexivity|vm_compute; reflexivity]].
  apply Hin. exists "a". split; vm_compute; reflexivity.
Defined.

(** ** Durability *)

Lemma mutate_failed {A} s m (body : State -> result ShareError (decision A)) : fst (mutate s (WriteFailed m) body) = s.
Proof.
  destruct (mutate s (WriteFailed m) body) as [s' r] eqn:E. simpl.
  apply mutate_cases in E as [(e & _ & -> & _)|[(a & _ & -> & _)|[(st & a & e & _ & _ & -> & _)|(st & a & f & w & _ & H & _)]]];
    [done..|]. unfold saveShareStoreState in H. destruct (file_of st); done.
Qed.

Lemma reachable_durable bh bm s : reachable_store bh bm s -> durable s.
Proof.
  apply reachable_invariant; [by intros s1 <-|]. intros s1 s2 Hd (io & c & _ & ->).
  destruct (run_mutate bh bm io c s1) as [->|(A & body & ->)]; [done|]. by apply mutate_durable.
Qed.

(** The file of the share store is its memory: in every reachable state with a file, the file
    is the one that [saveShareStoreState] produces from the maps in memory (and without a file the
    maps are empty); and a call whose write fails, whatever the call,
    leaves memory, version and file as they were. *)
Theorem share_file_is_memory bcrypt_hash bcrypt_matches s :
  reachable_store bcrypt_hash bcrypt_matches s ->
  (forall file, disk s = Some file -> file_of (state s) = Ok file) /\
  (disk s = None -> state s = empty_state) /\
  (forall message c, run bcrypt_hash bcrypt_matches (WriteFailed message) c s = s).
Proof.
  intros Hd%reachable_durable. unfold durable in Hd. split; [|split].
  - intros file E. by rewrite E in Hd.
  - intros E. by rewrite E in Hd.
  - intros m c. destruct (run_mutate bcrypt_hash bcrypt_matches (WriteFailed m) c s) as [->|(A & body & ->)]; [done|].
    apply mutate_failed.
Qed.

Lemma share_file_is_memory_witness :
  reachable_store demo_hash String.eqb demo_store /\
  run demo_hash String.eqb (WriteFailed "disk full") (CallDelete "a") demo_store = demo_store.
Proof.
  split; [exact demo_reachable|].
  destruct (share_file_is_memory _ _ _ demo_reachable) as (_ & _ & H). apply H.
Defined.

(** ** Moves and deletions of paths *)

Lemma mutate_ok {A} s io (body : State -> result ShareError (decision A)) s' a w :
  mutate s io body = (s', Ok (a, w)) ->
  (body (state s) = Ok (Keep a) /\ s' = s) \/ (exists st, body (state s) = Ok (Save st a) /\ state s' = st).
Proof.
  intros H. apply mutate_cases in H as [(e & _ & _ & [=])|[(b & Hb & -> & [= -> ->])|
    [(st & b & e & _ & _ & _ & [=])|(st & b & f & v & Hb & _ & [= -> ->] & ->)]]]; [by left|right; eauto].
Qed.

Section LoopMutate.
Context (f : State -> string * Share -> result ShareError (option (State * Share)))
  (keep : string -> Share -> Prop) (upd : string -> Share -> Share -> Prop) (g : list Share -> list Share).
Hypothesis Hstep : forall st id s o, wf st -> shares st !! id = Some s -> f st (id, s) = Ok o ->
  match o with
  | None => keep id s
  | Some (st', x) => wf st' /\ x = s /\ exists s', shares st' = <[id:=s']> (shares st) /\ upd id s s'
  end.
Hypothesis Hg : forall l, g l ≡ₚ l.

Lemma loop_mutate s io s' l w : wf (state s) ->
  mutate s io (fun st : State => let! (st, ch) := loop f (map_to_list (shares st)) st in
    if is_empty ch then Ok (Keep []) else Ok (Save st (g ch))) = (s', Ok (l, w)) ->
  (forall id sh, Get s id = Ok sh -> (keep id sh /\ Get s' id = Ok sh) \/
     (exists sh', upd id sh sh' /\ Get s' id = Ok sh' /\ sh ∈ l)) /\
  (forall id, Get s id = Err ErrShareNotFound -> Get s' id = Err ErrShareNotFound) /\
  (forall sh, sh ∈ l -> exists id sh', Get s id = Ok sh /\ upd id sh sh').
Proof.
  intros Hw Hm. apply mutate_ok in Hm.
  destruct (loop f (map_to_list (shares (state s))) (state s)) as [[st1 ch]|] eqn:El; cycle 1.
  { by destruct Hm as [[? _]|(? & ? & _)]. }
  destruct (loop_map_spec f keep upd Hstep _ _ _ Hw El) as (_ & H1 & H2 & H3).
  assert (ch = [] /\ l = [] /\ s' = s \/ state s' = st1 /\ l = g ch) as Hc.
  { destruct ch as [|c ch]; simpl in Hm; destruct Hm as [[[=] ->]|(st & [=] & Hst)]; [by left|right]. by subst. }
  clear Hm. destruct Hc as [(-> & -> & ->)|(Hst & ->)].
  - split; [|split; [done|by intros sh ?%elem_of_nil]]. intros id sh Hs. left. split; [|done].
    apply get_lookup in Hs. destruct (H1 id sh Hs) as [[? _]|(x & _ & _ & ?%elem_of_nil)]; done.
  - split; [|split].
    + intros id sh Hs%get_lookup. destruct (H1 id sh Hs) as [[? Hk]|(x & ? & Hx & Hin)].
      * left. split; [done|]. apply get_lookup. by rewrite Hst.
      * right. exists x. split; [done|]. split; [apply get_lookup; by rewrite Hst|by rewrite Hg].
    + intros id Hn. unfold Get in Hn |- *. rewrite Hst.
      destruct (shares (state s) !! id) eqn:E; [done|]. by rewrite (H2 id E).
    + intros sh Hin. rewrite Hg in Hin. destruct (H3 sh Hin) as (id & x & Hs & ? & _). exists id, x.
      split; [by apply get_lookup|done].
Qed.
End LoopMutate.

Lemma matches_iff b c : Forall good_seg b -> Forall good_seg c ->
  sharePathMatchesOrDescendant (render b) (render c) = true <-> b `prefix_of` c.
Proof.
  intros Hb Hc. unfold sharePathMatchesOrDescendant. rewrite !Clean_render by done.
  destruct (String.eqb (render b) "/") eqn:E; b2p.
  - change "/" with (render []) in E. apply render_inj in E; [|done|constructor]. subst b.
    split; [intros _; by exists c|]. intros _. exact (render_rooted c).
  - rewrite orb_true_iff, String.eqb_eq. apply render_prefix_iff; [done..|]. by intros ->.
Qed.

Lemma move_decision st id s o n r : Forall good_seg o -> Forall good_seg n -> o <> [] -> o <> n ->
  wf st -> shares st !! id = Some s ->
  (unmoved (render o) (render n) s -> forall c, Forall good_seg c -> Path s = render c -> c <> o ++ r) /\
  (forall s', moved (render o) (render n) s s' -> exists c rest v, Forall good_seg c /\ Path s = render c /\ c = o ++ rest /\
     s' = set_revision (set_path s (render (n ++ rest))) v /\ ticketRevision s < v <= maxUint64).
Proof.
  intros Ho Hn Hne Hon Hw Hs. destruct (wf_get _ _ _ Hw Hs) as (_ & [_ (c & Hc & Hp) _ _ _] & _).
  destruct (relocate_render c o n Hc Ho Hn Hne) as [H1 H2]. split.
  - intros Hu c' Hc' Hp' ->. rewrite Hp in Hp'. apply render_inj in Hp'; [|done..]. subst c.
    unfold unmoved in Hu. rewrite Hp, (H1 r) in Hu by done. destruct Hu as [?|Hu]; [done|].
    assert (render (n ++ r) = render (o ++ r)) as Hu' by congruence. clear Hu. rename Hu' into Hu.
    apply Forall_app in Hc as [_ Hr]. apply render_inj in Hu; [|by apply Forall_app..].
    by apply app_inv_tail in Hu.
  - intros s' (p & Hr & _ & (v & -> & Hv)). rewrite Hp in Hr. exists c.
    destruct (decide (o `prefix_of` c)) as [[rest Hrest]|Hnp]; [|by rewrite H2 in Hr].
    rewrite (H1 rest Hrest) in Hr. injection Hr as <-. exists rest, v. done.
Qed.

(** Moving a directory moves its shares exactly.  If [UpdatePathReferences] (with the list of
    moved shares) succeeds for an old path with segments [o], not the root, and a different new path
    with segments [n], then a share whose path has the segments [o ++ rest] is afterwards the same
    share with the path [n ++ rest] and a newer ticket revision, and is listed; every other share is
    the same as before and is not listed; and no ID gains a share. *)
Theorem move_exact bcrypt_hash bcrypt_matches s io oldPath newPath o n s' l w :
  reachable_store bcrypt_hash bcrypt_matches s ->
  Forall good_seg o -> Forall good_seg n -> o <> [] -> o <> n ->
  normalizeStoredSharePath oldPath = Ok (render o) -> normalizeStoredSharePath newPath = Ok (render n) ->
  UpdatePathReferencesWithRestore s io oldPath newPath = (s', Ok (l, w)) ->
  (forall id sh, Get s id = Ok sh -> exists c, Forall good_seg c /\ Path sh = render c /\
     ((exists rest v, c = o ++ rest /\ Get s' id = Ok (set_revision (set_path sh (render (n ++ rest))) v) /\
         ticketRevision sh < v <= maxUint64 /\ sh ∈ l) \/
      (~ o `prefix_of` c /\ Get s' id = Ok sh /\ sh ∉ l))) /\
  (forall id, Get s id = Err ErrShareNotFound -> Get s' id = Err ErrShareNotFound).
Proof.
  intros Hw%reachable_wf Ho Hn Hne Hon Eo En H. unfold UpdatePathReferencesWithRestore in H. rewrite Eo, En in H.
  destruct (String.eqb (render o) (render n)) eqn:E; b2p; [apply render_inj in E; done|].
  apply (loop_mutate _ (fun _ => unmoved (render o) (render n)) (fun _ => moved (render o) (render n)) id) in H as (H1 & H2 & H3);
    [|intros; eapply move_step; [by exists n|done..]|done|done].
  split; [|done]. intros id sh Hs. pose proof (proj1 (get_lookup _ _ _) Hs) as Hl.
  destruct (wf_get _ _ _ Hw Hl) as (Hid & [_ (c & Hc & Hp) _ _ _] & _). exists c. split; [done|]. split; [done|].
  assert (Hun : unmoved (render o) (render n) sh -> ~ o `prefix_of` c).
  { intros Hu [r Hr]. by apply (proj1 (move_decision _ _ _ _ _ r Ho Hn Hne Hon Hw Hl) Hu c). }
  destruct (H1 id sh Hs) as [[Hu Hk]|(sh' & Hm & Hk & Hin)]; [right|left].
  - split; [by apply Hun|]. split; [done|]. intros Hin. destruct (H3 sh Hin) as (id' & x & Hs' & Hm).
    apply get_lookup in Hs'. destruct (proj2 (move_decision _ _ _ _ _ [] Ho Hn Hne Hon Hw Hs') x Hm)
      as (c' & r & _ & Hc' & Hp' & -> & _). rewrite Hp in Hp'. apply render_inj in Hp'; [|done..].
    apply Hun; [done|]. subst c. by exists r.
  - destruct (proj2 (move_decision _ _ _ _ _ [] Ho Hn Hne Hon Hw Hl) sh' Hm) as (c' & r & v & Hc' & Hp' & -> & -> & Hv).
    rewrite Hp in Hp'. apply render_inj in Hp'; [|done..]. subst c. exists r, v. done.
Qed.

Lemma move_exact_witness :
  let u := UpdatePathReferencesWithRestore demo_store Written "/x" "/y/z" in
  is_ok (snd u) = true /\
  (forall id, Get demo_store id = Err ErrShareNotFound -> Get (fst u) id = Err ErrShareNotFound) /\
  exists sh, Get (fst u) "a" = Ok sh /\ Path sh = "/y/z" /\ ticketRevision sh = 2.
Proof.
  cbv zeta. set (u := UpdatePathReferencesWithRestore demo_store Written "/x" "/y/z").
  destruct (snd u) as [[l w]|e] eqn:E; [|vm_compute in E; discriminate]. split; [reflexivity|]. split.
  - eapply (move_exact _ _ demo_store Written "/x" "/y/z" ["x"] ["y"; "z"] (fst u) l w demo_reachable);
      [repeat constructor; discriminate..|discriminate|discriminate|vm_compute; reflexivity|vm_compute; reflexivity|].
    rewrite <-E. apply surjective_pairing.
  - eexists. split; [vm_compute; reflexivity|]. split; reflexivity.
Defined.

(** Deleting a directory disables its shares exactly.  If [DisableSharesUnderPath] (with the
    list of disabled shares) succeeds for a path with segments [b], then every enabled share whose
    path begins with these segments is afterwards disabled, otherwise the same but for a newer ticket
    revision, which invalidates the download tickets issued for it, and is listed; every other share
    is the same as before and is not listed; and no ID gains a share. *)
Theorem disable_exact bcrypt_hash bcrypt_matches s io target b s' l w :
  reachable_store bcrypt_hash bcrypt_matches s -> Forall good_seg b ->
  normalizeStoredSharePath target = Ok (render b) ->
  DisableSharesUnderPathWithRestore s io target = (s', Ok (l, w)) ->
  (forall id sh, Get s id = Ok sh -> exists c, Forall good_seg c /\ Path sh = render c /\
     ((b `prefix_of` c /\ Enabled sh = true /\ sh ∈ l /\ exists v, ticketRevision sh < v <= maxUint64 /\
         Get s' id = Ok (set_revision (set_enabled sh false) v)) \/
      (~ (b `prefix_of` c /\ Enabled sh = true) /\ Get s' id = Ok sh /\ sh ∉ l))) /\
  (forall id, Get s id = Err ErrShareNotFound -> Get s' id = Err ErrShareNotFound).
Proof.
  intros Hw%reachable_wf Hb Et H. unfold DisableSharesUnderPathWithRestore in H. rewrite Et in H.
  apply (loop_mutate _ (fun _ sh => covered (render b) sh = false)
    (fun _ sh s' => covered (render b) sh = true /\ revised (set_enabled sh false) s') sortSharesCanonical)
    in H as (H1 & H2 & H3);
    [|intros; by eapply disable_step|intros; apply merge_sort_Permutation|done].
  split; [|done]. intros id sh Hs. pose proof (proj1 (get_lookup _ _ _) Hs) as Hl.
  destruct (wf_get _ _ _ Hw Hl) as (Hid & [_ (c & Hc & Hp) _ _ _] & _). exists c. split; [done|]. split; [done|].
  assert (Hcov : covered (render b) sh = true <-> b `prefix_of` c /\ Enabled sh = true).
  { unfold covered. by rewrite andb_true_iff, Hp, matches_iff. }
  destruct (H1 id sh Hs) as [[Hu Hk]|(sh' & (Hm & v & -> & Hv) & Hk & Hin)]; [right|left].
  - split; [rewrite <-Hcov; congruence|]. split; [done|]. intros Hin.
    destruct (H3 sh Hin) as (id' & x & _ & Hm & _). congruence.
  - apply Hcov in Hm as [Hm He]. split; [done|]. split; [done|]. split; [done|]. by exists v.
Qed.

Lemma disable_exact_witness :
  let u := DisableSharesUnderPathWithRestore demo_store Written "/" in
  is_ok (snd u) = true /\
  (forall id, Get demo_store id = Err ErrShareNotFound -> Get (fst u) id = Err ErrShareNotFound) /\
  exists sh, Get (fst u) "a" = Ok sh /\ Enabled sh = false /\ ticketRevision sh = 2.
Proof.
  cbv zeta. set (u := DisableSharesUnderPathWithRestore demo_store Written "/").
  destruct (snd u) as [[l w]|e] eqn:E; [|vm_compute in E; discriminate]. split; [reflexivity|]. split.
  - eapply (disable_exact _ _ demo_store Written "/" [] (fst u) l w demo_reachable);
      [constructor|vm_compute; reflexivity|]. rewrite <-E. apply surjective_pairing.
  - eexists. split; [vm_compute; reflexivity|]. split; reflexivity.
Defined.

(** ** Accesses *)

(** A transaction whose body writes one share. *)
Lemma put_get s s' id sh id' : state s' = put_share (state s) id sh ->
  Get s' id' = if String.eqb id id' then Ok sh else Get s id'.
Proof.
  intros H. unfold Get. rewrite H. simpl. destruct (String.eqb id id') eqn:E; b2p.
  - subst. by rewrite lookup_insert_eq.
  - by rewrite lookup_insert_ne.
Qed.

Definition may_access (sh : Share) (now : Z) : Prop :=
  Enabled sh = true /\ (forall t, ExpiresAt sh = Some t -> now < t) /\
  (MaxAccess sh = 0 \/ AccessCount sh < MaxAccess sh).

Lemma can_access_iff sh now : CanAccess sh now = None <-> may_access sh now.
Proof.
  unfold CanAccess, may_access, IsExpired, isExpiredAt, IsAccessLimitReached.
  destruct (Enabled sh); simpl; [|split; [done|by intros (? & _)]].
  destruct (ExpiresAt sh) as [t|].
  - destruct (now <? t) eqn:Et; b2p; simpl; cycle 1.
    { split; [done|]. intros (_ & H & _). specialize (H t eq_refl). lia. }
    destruct (MaxAccess sh =? 0) eqn:Em; b2p; [split; [intros _; split_and!; [done| |by left]|done]; intros t' [= <-]; lia|].
    destruct (MaxAccess sh <=? AccessCount sh) eqn:El; b2p; split; try done.
    + intros (_ & _ & [?|?]); lia.
    + intros _. split; [done|]. split; [intros t' [= <-]; lia|by right].
  - destruct (MaxAccess sh =? 0) eqn:Em; b2p; [split; [intros _; split_and!; [done|done|by left]|done]|].
    destruct (MaxAccess sh <=? AccessCount sh) eqn:El; b2p; split; try done.
    + intros (_ & _ & [?|?]); lia.
    + intros _. split; [done|]. split; [done|by right].
Qed.

Lemma access_cases bm s io now id pw s' r sh : Access bm s io now id pw = (s', r) -> Get s id = Ok sh ->
  (s' = s /\ exists e, r = Err e) \/
  (may_access sh now /\ CheckPassword bm sh pw = true /\
   state s' = put_share (state s) id (set_access sh (int64 (AccessCount sh + 1)) (Some now)) /\
   exists w, r = Ok (set_access sh (int64 (AccessCount sh + 1)) (Some now), w)).
Proof.
  intros H Hg%get_lookup. unfold Access in H.
  apply mutate_cases in H as [(e & _ & -> & ->)|[(a & Hb & -> & ->)|[(st & a & e & _ & _ & -> & ->)|(st & a & f & w & Hb & _ & -> & ->)]]];
    [left; eauto| |left; eauto|right].
  - rewrite Hg in Hb. by repeat case_in Hb.
  - rewrite Hg in Hb. destruct (CanAccess sh now) eqn:Ec; [done|]. apply can_access_iff in Ec.
    destruct (HasPassword sh && negb (CheckPassword bm sh pw)) eqn:Ep; [done|]. injection Hb as <- <-.
    split; [done|]. split; [|split; [done|by exists w]].
    unfold CheckPassword in *. destruct (HasPassword sh); [|done]. simpl in *. by destruct (bm _ _).
Qed.

(** A series of accesses to any shares, and the number of those to [id] that were granted. *)
Fixpoint granted_accesses (bm : string -> string -> bool) (id : string)
    (l : list (WriteOutcome * Z * string * string)) (s : ShareStore) : Z * ShareStore :=
  match l with
  | [] => (0, s)
  | (io, now, target, pw) :: l' =>
    let '(s1, r) := Access bm s io now target pw in
    let '(n, s2) := granted_accesses bm id l' s1 in
    ((if String.eqb target id && is_ok r then 1 else 0) + n, s2)
  end.

(** The access limit holds.  Whatever series of accesses is made to the shares of the store, by
    whom and when, with whatever outcomes of the writes: the accesses to a share that are granted
    are counted one by one, and with an access limit they are never more than the limit leaves. *)
Theorem access_limit bcrypt_matches s id sh l :
  Get s id = Ok sh -> 0 <= AccessCount sh -> AccessCount sh + Z.of_nat (length l) <= maxInt64 ->
  0 < MaxAccess sh -> AccessCount sh <= MaxAccess sh ->
  let '(granted, s') := granted_accesses bcrypt_matches id l s in
  (exists sh', Get s' id = Ok sh' /\ AccessCount sh' = AccessCount sh + granted /\ MaxAccess sh' = MaxAccess sh) /\
  granted <= MaxAccess sh - AccessCount sh.
Proof.
  revert s sh. induction l as [|[[[io now] target] pw] l IH]; intros s sh Hg H0 Hl Hm Hle; simpl.
  { split; [exists sh; split_and!; [done|lia|done]|lia]. }
  simpl in Hl. destruct (Access bcrypt_matches s io now target pw) as [s1 r] eqn:Ea.
  assert (exists sh1, Get s1 id = Ok sh1 /\ MaxAccess sh1 = MaxAccess sh /\ AccessCount sh1 <= MaxAccess sh /\
    AccessCount sh1 = AccessCount sh + (if String.eqb target id && is_ok r then 1 else 0)) as (sh1 & Hg1 & Hm1 & Hle1 & Hc1).
  { destruct (Get s target) as [t|er] eqn:Et.
    - destruct (access_cases _ _ _ _ _ _ _ _ _ Ea Et) as [(-> & e & ->)|(Hmay & _ & Hst & w & ->)].
      + exists sh. rewrite andb_false_r. split_and!; [done..|lia].
      + rewrite (put_get _ _ _ _ id Hst). destruct (String.eqb target id) eqn:Eq; b2p; simpl.
        * subst target. rewrite Hg in Et. injection Et as <-. destruct Hmay as (_ & _ & Hmay).
          assert (int64 (AccessCount sh + 1) = AccessCount sh + 1) as -> by (apply int64_id; int_unfold; lia).
          eexists. split; [done|]. simpl. split_and!; [done|lia|lia].
        * exists sh. split_and!; [done..|lia].
    - assert (s1 = s /\ is_ok r = false) as [-> ->].
      { unfold Access in Ea. assert (Hn : shares (state s) !! target = None).
        { unfold Get in Et. by destruct (shares (state s) !! target). }
        apply mutate_cases in Ea as [(e & _ & -> & ->)|[(a & Hb & _)|[(st & a & e & Hb & _)|(st & a & f & w & Hb & _)]]];
          [done|rewrite Hn in Hb; done..]. }
      exists sh. rewrite andb_false_r. split_and!; [done..|lia]. }
  specialize (IH s1 sh1 Hg1). destruct (granted_accesses bcrypt_matches id l s1) as [n s2].
  destruct IH as [(sh2 & Hg2 & Hc2 & Hm2) Hn]; [destruct (_ && _); lia..|].
  split; [exists sh2; split_and!; [done|lia|congruence]|lia].
Qed.

(** A share with the limit 2: the third access is refused. *)
Definition demo_accesses : list (WriteOutcome * Z * string * string) :=
  [(Written, 1, "a", ""); (WriteFailed "full", 2, "a", ""); (WrittenWithWarning, 3, "a", ""); (Written, 4, "a", "")].

Lemma access_limit_witness :
  fst (granted_accesses String.eqb "a" demo_accesses demo_store) = 2 /\
  fst (granted_accesses String.eqb "a" demo_accesses demo_store) <= 2.
Proof.
  split; [vm_compute; reflexivity|].
  destruct (Get demo_store "a") as [sh|] eqn:E; [|vm_compute in E; discriminate].
  pose proof E as E'. vm_compute in E'. injection E' as <-.
  pose proof (access_limit String.eqb demo_store "a" _ demo_accesses E) as H. simpl AccessCount in H. simpl MaxAccess in H.
  destruct (granted_accesses String.eqb "a" demo_accesses demo_store) as [n s'].
  destruct H as [_ H]; [lia|vm_compute; discriminate|lia|lia|]. simpl. lia.
Defined.

Lemma reserve_cases s io now id v s' sh1 r w : reserveAuthorizedAccessMatching s io now id v = (s', Ok (sh1, r, w)) ->
  exists sh, Get s id = Ok sh /\ may_access sh now /\
    sh1 = set_access sh (int64 (AccessCount sh + 1)) (Some now) /\
    state s' = put_share (state s) id sh1 /\
    r = {| ar_id := id; currentLastAccess := now; previousLastAccess := LastAccess sh |}.
Proof.
  unfold reserveAuthorizedAccessMatching. intros H. apply mutate_ok in H as [[Hb _]|(st & Hb & Hst)]; [by repeat case_in Hb|].
  destruct (shares (state s) !! id) as [sh|] eqn:Es; [|done].
  destruct (match v with Some _ => _ | None => _ end); [done|].
  destruct (CanAccess sh now) eqn:Ec; [done|]. apply can_access_iff in Ec. injection Hb as <- <- <-.
  exists sh. split; [by apply get_lookup|]. done.
Qed.

(** A reserved access that is rolled back leaves no trace: if [reserveAuthorizedAccess] grants
    an access, then the share was enabled, not expired and below its limit, and the access is
    counted; and if [rollbackAuthorizedAccess] then succeeds, every map of the store is what it was
    before, the last access included. *)
Theorem reserve_rollback_roundtrip s io io' now id sh v sh1 r w s1 s2 w' :
  Get s id = Ok sh -> 0 <= AccessCount sh < maxInt64 ->
  reserveAuthorizedAccessMatching s io now id v = (s1, Ok (sh1, r, w)) ->
  rollbackAuthorizedAccess s1 io' (Some r) = (s2, Ok (tt, w')) ->
  may_access sh now /\ Get s1 id = Ok sh1 /\ AccessCount sh1 = AccessCount sh + 1 /\ state s2 = state s.
Proof.
  intros Hg Hc H1 H2. apply reserve_cases in H1 as (sh' & Hg' & Hmay & -> & Hst & ->).
  rewrite Hg in Hg'. injection Hg' as <-.
  assert (Hi : int64 (AccessCount sh + 1) = AccessCount sh + 1) by (apply int64_id; int_unfold; lia).
  rewrite Hi in *. split; [done|]. split; [rewrite (put_get _ _ _ _ id Hst); by rewrite String.eqb_refl|]. split; [done|].
  apply get_lookup in Hg. unfold rollbackAuthorizedAccess in H2. simpl in H2.
  assert (Hz : (AccessCount sh + 1 =? 0) = false) by lia.
  apply mutate_ok in H2 as [[Hb _]|(st & Hb & ->)];
    rewrite Hst in Hb; simpl in Hb; rewrite lookup_insert_eq in Hb; simpl in Hb; rewrite Hz in Hb; [done|].
  injection Hb as <-. rewrite bool_decide_eq_true_2 by done.
  assert (int64 (AccessCount sh + 1 - 1) = AccessCount sh) as -> by (rewrite Z.add_simpl_r; apply int64_id; int_unfold; lia).
  unfold put_share, with_shares. simpl. rewrite insert_insert_eq.
  rewrite insert_id; [by destruct (state s)|]. rewrite Hg. by destruct sh.
Qed.

Lemma reserve_rollback_roundtrip_witness :
  let u := reserveAuthorizedAccess demo_store Written 7 "a" in
  exists sh1 r w, snd u = Ok (sh1, r, w) /\
    state (fst (rollbackAuthorizedAccess (fst u) WrittenWithWarning (Some r))) = state demo_store.
Proof.
  cbv zeta. set (u := reserveAuthorizedAccess demo_store Written 7 "a").
  destruct (Get demo_store "a") as [sh|] eqn:Eg; [|vm_compute in Eg; discriminate].
  pose proof Eg as Eg'. vm_compute in Eg'. injection Eg' as <-.
  destruct (snd u) as [[[sh1 r] w]|e] eqn:E; [|vm_compute in E; discriminate].
  exists sh1, r, w. split; [reflexivity|]. pose proof E as E'. vm_compute in E'. injection E' as <- <- <-.
  match goal with |- context [Some ?r] =>
    destruct (snd (rollbackAuthorizedAccess (fst u) WrittenWithWarning (Some r))) as [[[] w']|e] eqn:E2;
      [|vm_compute in E2; discriminate] end.
  eapply (reserve_rollback_roundtrip demo_store Written WrittenWithWarning 7 "a" _ None _ _ _ (fst u) _ w');
    [exact Eg|vm_compute; split; [discriminate|reflexivity]| |rewrite <-E2; apply surjective_pairing].
  rewrite <-E. apply surjective_pairing.
Defined.

End ShareProps.
