(* ===== verification/ShareTrashProps.v ===== *)
(** * The share participants of moves to the Trash

    What a deletion operation does to the shares it plans for, that its rollback gives them back, and
    that an explicit change of a share in between is not overwritten. *)

From Stdlib Require Import Ascii.
From stdpp Require Import sorting.
From S2P Require Import Prelude GoStrings GoPath Paths Share ShareStore ShareTrash ShareInvariant ShareProps.
Import Share ShareStore ShareTrash ShareInvariant ShareProps.

Module ShareTrashProps.

(** ** Normalised plans *)

Definition plan_ok (l : list Share) : Prop := NoDup (ID <$> l) /\ Forall valid_share l.

Lemma normalize_list_ok e l n : normalizeShareList e l = Ok n -> plan_ok n.
Proof.
  unfold normalizeShareList. intros H.
  destruct (foldM _ l []) as [acc|] eqn:E; [|done]. injection H as <-.
  assert (plan_ok acc) as [H1 H2].
  { apply (foldM_ind _ (fun _ acc => plan_ok acc)) in E; [done|split; constructor|].
    intros seen x rest a a' _ [Hn Hv] Hx. destruct x as [x|]; [|done].
    destruct (validateShareInvariants x) as [c|] eqn:Ev; [|done]. case_bool_decide as Hin; [done|]. injection Hx as <-.
    split; [|apply Forall_app; split; [done|]; constructor; [by eapply validate_ok|constructor]].
    rewrite fmap_app. apply NoDup_app. split; [done|]. split; [|apply NoDup_singleton].
    intros y Hy ->%list_elem_of_singleton. done. }
  unfold plan_ok, sortSharesCanonical. rewrite (merge_sort_Permutation canonical_le acc). done.
Qed.

(** ** Blocking changes nothing but [RestoreBlocked] *)

Definition same_owner (m m' : shareTrashDeleteOperation) : Prop :=
  Planned m' = Planned m /\ Changed m' = Changed m /\ Committed m' = Committed m /\ Completed m' = Completed m /\
  forall id, trashDeleteRestoreBlocked m id = true -> trashDeleteRestoreBlocked m' id = true.

(** The markers of [ops'] are those of [ops], but for more blocked restores. *)
Definition blocks (ops ops' : gmap string shareTrashDeleteOperation) : Prop := forall op,
  match ops !! op, ops' !! op with Some m, Some m' => same_owner m m' | None, None => True | _, _ => False end.

Lemma same_owner_trans m1 m2 m3 : same_owner m1 m2 -> same_owner m2 m3 -> same_owner m1 m3.
Proof. intros (? & ? & ? & ? & Hx) (? & ? & ? & ? & Hy). split_and!; try congruence. auto. Qed.

#[export] Instance blocks_preorder : PreOrder blocks.
Proof.
  split.
  - intros ops op. by destruct (ops !! op).
  - intros o1 o2 o3 H1 H2 op. specialize (H1 op). specialize (H2 op).
    destruct (o1 !! op), (o2 !! op), (o3 !! op); try done. by eapply same_owner_trans.
Qed.

Lemma blocked_in m id : trashDeleteRestoreBlocked m id = true <-> id ∈ RestoreBlocked m.
Proof.
  unfold trashDeleteRestoreBlocked. rewrite existsb_exists. split.
  - intros (x & Hx & E). b2p. subst. by apply list_elem_of_In.
  - intros H. exists id. split; [by apply list_elem_of_In|apply String.eqb_refl].
Qed.

Lemma blockMarker_same share x op m : same_owner m (blockMarker share x op m).
Proof.
  unfold blockMarker. destruct (_ || _); [done|]. destruct (existsb _ _); [|done]. split_and!; try done.
  intros id. rewrite !blocked_in. simpl. intros H. unfold sort_strings.
  rewrite (merge_sort_Permutation String.le), elem_of_app. by left.
Qed.

Lemma block_blocks ops share x : blocks ops (blockTrashDeleteRestore ops share x).
Proof.
  intros op. unfold blockTrashDeleteRestore. rewrite map_lookup_imap.
  destruct (ops !! op) as [m|]; simpl; [apply blockMarker_same|done].
Qed.

Lemma block_all_blocks ops l x : blocks ops (blockTrashDeleteRestores ops l x).
Proof.
  unfold blockTrashDeleteRestores. revert ops. induction l as [|s l IH]; intros ops; [done|]. simpl.
  etrans; [apply block_blocks|apply IH].
Qed.



(** ** Disabling the shares of a plan *)

(** The IDs of the changed shares come in the order of the list. *)
Lemma loop_sublist {A} (key : A -> string) (f : State -> A -> result ShareError (option (State * Share))) (I : State -> Prop) l st st' ch :
  (forall st x st' y, I st -> f st x = Ok (Some (st', y)) -> I st' /\ ID y = key x) ->
  I st -> loop f l st = Ok (st', ch) -> (ID <$> ch) `sublist_of` (key <$> l).
Proof.
  intros Hf HI H. unfold loop in H.
  apply (foldM_ind _ (fun seen acc => I (fst acc) /\ (ID <$> snd acc) `sublist_of` (key <$> seen))) in H; [apply H|done|].
  intros seen x rest [s1 c1] [s2 c2] _ [Hi Hsub] Hx. simpl in *.
  destruct (f s1 x) as [[[s3 y]|]|] eqn:E; [| |done]; injection Hx as <- <-.
  - destruct (Hf _ _ _ _ Hi E) as [? Hy]. split; [done|]. rewrite !fmap_app. simpl. rewrite Hy. by apply sublist_app.
  - split; [done|]. rewrite fmap_app. by apply sublist_inserts_r.
Qed.

Lemma loop_ops {A} (f : State -> A -> result ShareError (option (State * Share))) (R : relation (gmap string shareTrashDeleteOperation))
    `{!PreOrder R} l st st' ch :
  (forall st x st' y, f st x = Ok (Some (st', y)) -> R (trashDeleteOperations st) (trashDeleteOperations st')) ->
  loop f l st = Ok (st', ch) -> R (trashDeleteOperations st) (trashDeleteOperations st').
Proof.
  intros Hf H. apply (loop_inv f (fun st2 => R (trashDeleteOperations st) (trashDeleteOperations st2))) in H; [done| |done].
  intros s1 x s2 y _ HR E. etrans; [exact HR|]. by eapply Hf.
Qed.

(** The share that a planned share stands for. *)
Definition plan_match (x cur : Share) : Prop :=
  ID x = ID cur /\ Path x = Path cur /\ Enabled x = true /\ Enabled cur = true.

Lemma disablePlanned_cases st x o : wf st -> disablePlanned st x = Ok o ->
  match o with
  | None => forall cur, shares st !! ID x = Some cur -> ~ plan_match x cur
  | Some (st', y) => wf st' /\ trashDeleteOperations st' = trashDeleteOperations st /\
      shares st !! ID x = Some y /\ plan_match x y /\
      exists s', shares st' = <[ID x := s']> (shares st) /\ revised (set_enabled y false) s'
  end.
Proof.
  intros Hw H. unfold disablePlanned in H. destruct (shares st !! ID x) as [cur|] eqn:Ec; [|injection H as <-; done].
  destruct (wf_get _ _ _ Hw Ec) as (Hid & Hv & Hr). unfold plan_match.
  destruct (_ || _) eqn:Ecd in H.
  { injection H as <-. intros c [= <-] (_ & Hp & He & He'). rewrite Hp, He, He', String.eqb_refl in Ecd. done. }
  b2p. destruct (bumpDownloadTicketRevision _ _) as [[st1 u]|] eqn:Eb; [|done]. injection H as <-.
  pose proof (bump_frame _ _ _ _ Eb) as (Hs & _ & Ht & _ & Hu). assert (ID u = ID x) as -> by (rewrite Hu; done).
  match goal with H : Bool.eqb _ _ = true |- _ => apply Bool.eqb_prop in H end.
  split; [apply (wf_put_same st st (ID x) cur (set_enabled cur false) st1 u); try done; by apply valid_set_enabled|].
  split; [done|]. split; [done|]. split; [split_and!; congruence|]. exists u. simpl. rewrite Hs. split; [done|].
  by eapply (bump_revised st (ID x) cur).
Qed.

Definition unchanged_share (st st' : State) (ch : list Share) (id : string) : Prop :=
  shares st' !! id = shares st !! id /\ id ∉ ID <$> ch.
Definition disabled_share (planned : list Share) (st st' : State) (ch : list Share) (id : string) : Prop :=
  exists x cur s', x ∈ planned /\ plan_match x cur /\ shares st !! id = Some cur /\ cur ∈ ch /\
    shares st' !! id = Some s' /\ revised (set_enabled cur false) s'.

Lemma disable_plan_spec st planned st' ch : wf st -> NoDup (ID <$> planned) ->
  disableSharesMatchingPlan st planned = Ok (st', ch) ->
  wf st' /\ NoDup (ID <$> ch) /\ trashDeleteOperations st' = trashDeleteOperations st /\
  forall id, disabled_share planned st st' ch id \/
    (unchanged_share st st' ch id /\ forall x cur, x ∈ planned -> shares st !! id = Some cur -> ~ plan_match x cur).
Proof.
  intros Hw Hnd H. unfold disableSharesMatchingPlan in H.
  destruct (loop disablePlanned planned st) as [[st1 ch1]|] eqn:El; [|done]. injection H as -> <-.
  assert (Hperm : sortSharesCanonical ch1 ≡ₚ ch1) by apply merge_sort_Permutation.
  assert (Hsub : (ID <$> ch1) `sublist_of` (ID <$> planned)).
  { eapply (loop_sublist ID disablePlanned wf); [|exact Hw|exact El]. intros s1 x s2 y Hw1 E.
    pose proof (disablePlanned_cases _ _ _ Hw1 E) as (Hw2 & _ & Hy & [Hxy _] & _). by split. }
  assert (Hops : trashDeleteOperations st = trashDeleteOperations st').
  { apply (loop_inv disablePlanned (fun s1 => wf s1 /\ trashDeleteOperations st = trashDeleteOperations s1)) in El; [apply El| |done].
    intros s1 x s2 y _ [Hw1 ->] E. by destruct (disablePlanned_cases _ _ _ Hw1 E) as (? & -> & _). }
  apply (loop_keyed ID disablePlanned wf
    (fun x => forall cur, shares st !! ID x = Some cur -> ~ plan_match x cur)
    (fun x s' y => shares st !! ID x = Some y /\ plan_match x y /\ revised (set_enabled y false) s')) in El as (H1 & H2 & H3 & H4);
    [|done| |done]; cycle 1.
  { intros s1 x o Hin Hw1 Heq E. pose proof (disablePlanned_cases _ _ _ Hw1 E) as Hc. rewrite Heq in Hc.
    destruct o as [[s2 y]|]; [|done]. destruct Hc as (? & _ & ? & ? & s' & ? & ?). split; [done|]. by exists s'. }
  assert (Hch : forall id y, y ∈ ch1 -> ID y = id -> exists x s', x ∈ planned /\ ID x = id /\ shares st !! id = Some y /\
    plan_match x y /\ revised (set_enabled y false) s' /\ shares st' !! id = Some s').
  { intros id y Hy Hid. destruct (H4 y Hy) as (x & s' & Hx & (Hc & Hm & Hr) & He).
    assert (ID x = id) as Hxi by (destruct Hm; congruence). rewrite Hxi in *. by exists x, s'. }
  split; [done|]. split; [rewrite Hperm; by eapply sublist_NoDup|]. split; [done|].
  intros id. destruct (decide (id ∈ ID <$> ch1)) as [Hin|Hin].
  - left. apply list_elem_of_fmap_1 in Hin as (y & -> & Hy).
    destruct (Hch _ y Hy eq_refl) as (x & s' & ? & ? & ? & ? & ? & ?). exists x, y, s'. rewrite Hperm. done.
  - right. assert (Hsame : shares st' !! id = shares st !! id /\ forall x cur, x ∈ planned -> shares st !! id = Some cur -> ~ plan_match x cur).
    { destruct (decide (id ∈ ID <$> planned)) as [Hp|Hp].
      - apply list_elem_of_fmap_1 in Hp as (x & -> & Hx). destruct (H2 x Hx) as [[Hk He]|(s' & y & (Hc & [Hid _] & _) & _ & Hy)].
        + split; [done|]. intros x2 cur Hx2 Hcur Hm. destruct Hm as [Hid Hm].
          pose proof (proj1 (wf_get _ _ _ Hw Hcur)) as Hci.
          assert (x2 = x) as -> by (eapply (NoDup_fmap_elem ID planned); try done; congruence).
          by apply (Hk cur Hcur).
        + exfalso. apply Hin. rewrite Hid. by apply list_elem_of_fmap_2.
      - split; [by apply H3|]. intros x cur Hx Hcur [Hid _]. apply Hp.
        rewrite <-(proj1 (wf_get _ _ _ Hw Hcur)), <-Hid. by apply list_elem_of_fmap_2. }
    destruct Hsame as [Hs Hk]. split; [|done]. split; [done|]. by rewrite Hperm.
Qed.

(** ** Applying a deletion *)

(** The state after an uncommitted deletion that was not known. *)
Lemma apply_new s io op planned np s1 u w :
  wf (state s) -> trashDeleteOperations (state s) !! op = None -> normalizeTrashDeleteShares planned = Ok np ->
  ApplyTrashDeleteOperation s io op planned false = (s1, Ok (u, w)) ->
  exists st1 ch, disableSharesMatchingPlan (state s) np = Ok (st1, ch) /\
    state s1 = put_marker (block_all st1 ch op) op
      {| Planned := np; Changed := ch; RestoreBlocked := []; Committed := false; Completed := false |}.
Proof.
  intros Hw Hn Hp H. unfold ApplyTrashDeleteOperation in H. destruct (negb _) in H; [done|]. rewrite Hp in H.
  apply mutate_ok in H as [[Hb _]|(st & Hb & Hst)]; rewrite Hn in Hb; simpl in Hb;
    destruct (disableSharesMatchingPlan (state s) np) as [[st1 ch]|] eqn:Ed; [done|done| |done].
  injection Hb as Hb _. exists st1, ch. split; [done|]. congruence.
Qed.

(** A move to the Trash takes over the shares of its plan exactly.  When
    [ApplyTrashDeleteOperation] succeeds for an operation that was not known and is not committed yet,
    the marker it stores holds the normalised plan; a share is disabled, with a newer ticket revision
    and otherwise as it was, and is recorded as changed by the operation in the state it had before,
    exactly if it is enabled and the plan has an enabled share of its ID and path; every other share is
    as before and is not recorded; and the markers of the other operations only gain blocked
    restores. *)
Theorem apply_trash_delete_exact bcrypt_hash bcrypt_matches s io op planned np s1 u w :
  reachable_store bcrypt_hash bcrypt_matches s ->
  trashDeleteOperations (state s) !! op = None -> normalizeTrashDeleteShares planned = Ok np ->
  ApplyTrashDeleteOperation s io op planned false = (s1, Ok (u, w)) ->
  exists m, trashDeleteOperations (state s1) !! op = Some m /\
    Planned m = np /\ Committed m = false /\ Completed m = false /\ RestoreBlocked m = [] /\ NoDup (ID <$> Changed m) /\
    blocks (trashDeleteOperations (state s)) (delete op (trashDeleteOperations (state s1))) /\
    forall id, disabled_share np (state s) (state s1) (Changed m) id \/
      (unchanged_share (state s) (state s1) (Changed m) id /\
       forall x sh, x ∈ np -> Get s id = Ok sh -> ~ plan_match x sh).
Proof.
  intros Hw%reachable_wf Hn Hp H. destruct (normalize_list_ok _ _ _ Hp) as [Hnd _].
  destruct (apply_new _ _ _ _ _ _ _ _ Hw Hn Hp H) as (st1 & ch & Hd & Hst). clear H.
  destruct (disable_plan_spec _ _ _ _ Hw Hnd Hd) as (_ & Hch & Hops & Hid). rewrite Hst. simpl.
  eexists. split; [apply lookup_insert_eq|]. simpl. do 4 (split; [done|]). split; [done|]. split.
  - rewrite delete_insert_eq. rewrite <-Hops. etrans; [apply (block_all_blocks _ ch op)|].
    intros op'. destruct (decide (op = op')) as [<-|Hne]; [|rewrite lookup_delete_ne by done; by destruct (_ !! op')].
    rewrite lookup_delete_eq. pose proof (block_all_blocks (trashDeleteOperations st1) ch op op) as Hb. rewrite Hops, Hn in Hb.
    rewrite Hops. by destruct (blockTrashDeleteRestores _ ch op !! op).
  - intros id. destruct (Hid id) as [Hx|[Hx Hk]]; [left|right].
    + destruct Hx as (x & cur & s' & ? & ? & ? & ? & ? & ?). exists x, cur, s'. done.
    + split; [exact Hx|]. intros x sh Hx' Hg. apply Hk; [done|]. by apply get_lookup.
Qed.

Definition demo_operation : string := "0123456789abcdef0123456789abcdef".
Definition demo_planned : list (option Share) :=
  match SnapshotDeleteExact demo_store "/" with Ok l => Some <$> l | Err _ => [] end.
Definition demo_applied := ApplyTrashDeleteOperation demo_store Written demo_operation demo_planned false.

Lemma apply_trash_delete_exact_witness :
  is_ok (snd demo_applied) = true /\
  exists m, trashDeleteOperations (state (fst demo_applied)) !! demo_operation = Some m /\
    Planned m = omap id demo_planned /\ (exists sh, Get (fst demo_applied) "a" = Ok sh /\ Enabled sh = false).
Proof.
  destruct (snd demo_applied) as [[u w]|e] eqn:E; [|vm_compute in E; discriminate]. split; [reflexivity|].
  destruct (apply_trash_delete_exact _ _ demo_store Written demo_operation demo_planned (omap id demo_planned)
    (fst demo_applied) u w demo_reachable) as (m & H1 & H2 & _).
  - vm_compute. reflexivity.
  - vm_compute. reflexivity.
  - rewrite <-E. apply surjective_pairing.
  - exists m. split; [exact H1|]. split; [exact H2|]. eexists. split; [vm_compute; reflexivity|reflexivity].
Defined.

(** ** Rolling it back *)

Lemma rollback_changed_cases op m st x o : wf st -> rollbackChanged op m st x = Ok o ->
  match o with
  | None => trashDeleteRestoreBlocked m (ID x) = true \/ shares st !! ID x = None \/
      exists cur, shares st !! ID x = Some cur /\
        (Enabled cur = true \/ Path cur <> Path x \/ sameTrashDeleteShareGeneration cur x = false \/
         shareOwnedByAnotherTrashDelete (trashDeleteOperations st) op cur = true)
  | Some (st', y) => wf st' /\ trashDeleteRestoreBlocked m (ID x) = false /\ ID y = ID x /\
      blocks (trashDeleteOperations st) (trashDeleteOperations st') /\
      exists cur, shares st !! ID x = Some cur /\ shares st' = <[ID x := y]> (shares st) /\
        revised (set_enabled cur (Enabled x)) y
  end.
Proof.
  intros Hw H. unfold rollbackChanged in H. destruct (trashDeleteRestoreBlocked m (ID x)) eqn:Eb; [injection H as <-; by left|].
  destruct (shares st !! ID x) as [cur|] eqn:Ec; [|injection H as <-; by right; left].
  destruct (wf_get _ _ _ Hw Ec) as (Hid & Hv & Hr).
  destruct (Enabled cur) eqn:Een; [injection H as <-; right; right; exists cur; auto|]. simpl in H.
  destruct (String.eqb (Path cur) (Path x)) eqn:Ep; b2p; [|injection H as <-; right; right; exists cur; auto]. simpl in H.
  destruct (sameTrashDeleteShareGeneration cur x) eqn:Eg; [|injection H as <-; right; right; exists cur; auto]. simpl in H.
  destruct (shareOwnedByAnotherTrashDelete _ _ _) eqn:Eo; [injection H as <-; right; right; exists cur; auto|].
  destruct (bumpDownloadTicketRevision _ _) as [[st1 y]|] eqn:Ebp; [|done]. injection H as <-.
  pose proof (bump_frame _ _ _ _ Ebp) as (Hs & _ & Ht & _ & Hy). assert (ID y = ID x) as Hyx by (rewrite Hy; done).
  rewrite Hyx. split; [|split; [done|]; split; [done|]; split].
  - match type of Ebp with bumpDownloadTicketRevision ?s0 _ = _ =>
      apply (wf_put_same st s0 (ID x) cur (set_enabled cur (Enabled x)) st1 y); try done end.
    by apply valid_set_enabled.
  - simpl. rewrite Ht. simpl. apply block_blocks.
  - exists cur. split; [done|]. split; [simpl; by rewrite Hs|].
    match type of Ebp with bumpDownloadTicketRevision ?s0 _ = _ =>
      apply (bump_revised s0 (ID x) cur (set_enabled cur (Enabled x)) st1 y); try done end.
    by eapply wf_same; [|exact Hw].
Qed.










(** ** Explicit changes and replays *)

Lemma blockMarker_blocks share x op m c : op <> x -> c ∈ Changed m -> ID c = ID share ->
  sameTrashDeleteShareGeneration c share = true -> trashDeleteRestoreBlocked (blockMarker share x op m) (ID share) = true.
Proof.
  intros Hne Hc Hid Hg. unfold blockMarker. assert (String.eqb op x = false) as -> by (by apply String.eqb_neq). simpl.
  destruct (trashDeleteRestoreBlocked m (ID share)) eqn:E; [done|].
  assert (existsb (fun ch => String.eqb (ID ch) (ID share) && sameTrashDeleteShareGeneration ch share) (Changed m) = true) as ->.
  { apply existsb_exists. exists c. split; [by apply list_elem_of_In|]. by rewrite Hid, String.eqb_refl, Hg. }
  apply blocked_in. simpl. unfold sort_strings. rewrite (merge_sort_Permutation String.le), elem_of_app. right. left.
Qed.

(** A share that the marker may not restore is left alone by the rollback. *)
Lemma rollback_blocked s io op m id s' r : wf (state s) -> trashDeleteOperations (state s) !! op = Some m ->
  trashDeleteRestoreBlocked m id = true -> RollbackTrashDeleteOperation s io op = (s', r) ->
  shares (state s') !! id = shares (state s) !! id.
Proof.
  intros Hw Hm Hb H. unfold RollbackTrashDeleteOperation in H. destruct (negb _) in H; [by simplify_eq|].
  apply mutate_cases in H as [(e & _ & -> & _)|[(a & _ & -> & _)|[(st & a & e & _ & _ & -> & _)|(st & a & f & w & Hbd & _ & _ & ->)]]];
    [done..|]. rewrite Hm in Hbd. destruct (Committed m); [done|].
  destruct (loop _ _ _) as [[st1 ch]|] eqn:El; [|done]. injection Hbd as <- _. simpl.
  apply (loop_inv _ (fun st => wf st /\ shares st !! id = shares (state s) !! id)) in El; [apply El| |done].
  intros st2 x st3 y _ [Hw2 Hs2] E. apply (rollback_changed_cases _ _ _ _ _ Hw2) in E as (Hw3 & Hnb & _ & _ & cur & Hc & Hs3 & _).
  split; [done|]. rewrite Hs3, lookup_insert_ne; [done|]. intros <-. congruence.
Qed.

(** A rollback never overwrites what was done to a share after the move to the Trash.  When a
    share that an operation has recorded as changed is updated, whatever the update, a later rollback
    of the operation leaves that share exactly as the update left it, whether or not the rollback
    succeeds. *)
Theorem update_survives_rollback bcrypt_hash bcrypt_matches s io io' op m c id sh fn s1 u w s2 r :
  reachable_store bcrypt_hash bcrypt_matches s -> (forall x y, typed_share x -> fn x = Ok y -> typed_share y) ->
  Get s id = Ok sh -> trashDeleteOperations (state s) !! op = Some m -> op <> "" ->
  c ∈ Changed m -> ID c = id -> sameTrashDeleteShareGeneration c sh = true ->
  Update s io id fn = (s1, Ok (u, w)) ->
  RollbackTrashDeleteOperation s1 io' op = (s2, r) ->
  Get s2 id = Get s1 id.
Proof.
  intros Hw%reachable_wf Hfn Hg%get_lookup Hm Hop Hc Hid Hgen Hu Hr.
  pose proof (update_wf s io id fn Hw Hfn) as Hw1. rewrite Hu in Hw1. simpl in Hw1.
  assert (Hsid : ID sh = id) by apply (wf_get _ _ _ Hw Hg).
  assert (Hops : trashDeleteOperations (state s1) !! op = Some (blockMarker sh "" op m)).
  { unfold Update in Hu. apply mutate_ok in Hu as [[Hb _]|(st & Hb & Hst)]; rewrite Hg in Hb; [by repeat case_in Hb|].
    destruct (fn sh) as [u0|]; [|done]. destruct (validateShareInvariants u0) as [u1|]; [|done].
    destruct (negb (String.eqb (ID u1) id)); [done|].
    destruct (bumpDownloadTicketRevision (block (state s) sh) u1) as [[st1 u2]|] eqn:Eb; [|done].
    destruct (bump_frame _ _ _ _ Eb) as (_ & _ & Ht & _). injection Hb as Hb _. subst st.
    assert (trashDeleteOperations (state s1) = trashDeleteOperations st1) as ->.
    { rewrite Hst. by destruct (negb _). }
    rewrite Ht. simpl. unfold blockTrashDeleteRestore. by rewrite map_lookup_imap, Hm. }
  assert (Hsame : shares (state s2) !! id = shares (state s1) !! id).
  { eapply rollback_blocked; [exact Hw1|exact Hops| |exact Hr]. rewrite <-Hsid.
    apply (blockMarker_blocks _ _ _ _ c); try done. congruence. }
  unfold Get. by rewrite Hsame.
Qed.

(** The share before and after it was taken over, and the marker that has taken it over. *)
Definition demo_taken : Share := match Get demo_store "a" with Ok sh => sh | Err _ => {| ID := ""; Path := ""; Type_ := "";
  CreatedBy := ""; CreatedAt := 0; ExpiresAt := None; PasswordHash := ""; Permission := ""; Enabled := false;
  AccessCount := 0; MaxAccess := 0; LastAccess := None; Description := ""; ticketRevision := 0 |} end.
Definition demo_taken' : Share := set_revision (set_enabled demo_taken false) 2.
Definition demo_marker : shareTrashDeleteOperation :=
  {| Planned := [demo_taken]; Changed := [demo_taken]; RestoreBlocked := []; Committed := false; Completed := false |}.

Definition demo_update (sh : Share) : result string Share := Ok (set_path sh "/moved").
Lemma demo_update_typed x y : typed_share x -> demo_update x = Ok y -> typed_share y.
Proof. by intros ? [= <-]. Qed.
Definition demo_updated := Update (fst demo_applied) Written "a" demo_update.

Lemma demo_applied_reachable : reachable_store demo_hash String.eqb (fst demo_applied).
Proof.
  eapply reach_step; [exact demo_reachable|].
  exists Written, (CallApplyTrashDelete demo_operation demo_planned false). done.
Qed.

Lemma update_survives_rollback_witness :
  let v := RollbackTrashDeleteOperation (fst demo_updated) Written demo_operation in
  is_ok (snd demo_updated) = true /\ is_ok (snd v) = true /\ Get (fst v) "a" = Get (fst demo_updated) "a" /\
  exists sh, Get (fst v) "a" = Ok sh /\ Path sh = "/moved" /\ Enabled sh = false.
Proof.
  cbv zeta. set (v := RollbackTrashDeleteOperation (fst demo_updated) Written demo_operation).
  destruct (snd demo_updated) as [[u w]|e] eqn:E; [|vm_compute in E; discriminate].
  split; [reflexivity|]. split; [vm_compute; reflexivity|]. split.
  - refine (update_survives_rollback _ _ (fst demo_applied) Written Written demo_operation demo_marker demo_taken "a" demo_taken'
      demo_update (fst demo_updated) u w (fst v) (snd v) demo_applied_reachable _ _ _ _ _ _ _ _ (surjective_pairing v)).
    + exact demo_update_typed.
    + vm_compute. reflexivity.
    + vm_compute. reflexivity.
    + discriminate.
    + vm_compute. left.
    + reflexivity.
    + vm_compute. reflexivity.
    + rewrite <-E. apply surjective_pairing.
  - eexists. split; [vm_compute; reflexivity|]. split; reflexivity.
Defined.

Lemma sharesEqual_iff a b : sharesEqual a b = true <-> json_share a = json_share b.
Proof.
  unfold sharesEqual. split.
  - intros H. b2p. match goal with H : Bool.eqb _ _ = true |- _ => apply Bool.eqb_prop in H end.
    destruct a, b. unfold json_share, set_revision. simpl in *. congruence.
  - intros H. unfold json_share, set_revision in H. injection H as -> -> -> -> -> -> -> -> -> -> -> -> ->.
    by rewrite !String.eqb_refl, !Z.eqb_refl, !bool_decide_eq_true_2, Bool.eqb_reflx by done.
Qed.

Lemma shareSlicesEqual_iff l r : shareSlicesEqual l r = true <-> json_share <$> l = json_share <$> r.
Proof.
  revert r. induction l as [|a l IH]; intros [|b r]; try done.
  cbn [shareSlicesEqual]. rewrite andb_true_iff, sharesEqual_iff, IH, !fmap_cons. split; [intros [Ha Hl]; congruence|intros H]. split; congruence.
Qed.

Lemma clear_keeps st op planned m : trashDeleteOperations st !! op = Some m ->
  trashDeleteOperations (clearCommittedTrashDeleteOwnership st op planned) !! op = Some m.
Proof.
  intros H. unfold clearCommittedTrashDeleteOwnership. destruct (bool_decide _); [done|]. simpl.
  rewrite map_lookup_imap, H. simpl. unfold clearMarker. by rewrite String.eqb_refl.
Qed.

(** The marker that a successful call leaves, and the file it has written. *)
Lemma apply_marker s io op planned c s1 u w : ApplyTrashDeleteOperation s io op planned c = (s1, Ok (u, w)) ->
  isValidTrashDeleteOperationID op = true /\
  exists np m file, normalizeTrashDeleteShares planned = Ok np /\ trashDeleteOperations (state s1) !! op = Some m /\
    shareSlicesEqual (Planned m) np = true /\ (c = true -> Committed m = true) /\ file_of (state s1) = Ok file.
Proof.
  intros H. unfold ApplyTrashDeleteOperation in H. destruct (isValidTrashDeleteOperationID op) eqn:Ev; [|done].
  split; [done|]. simpl in H. destruct (normalizeTrashDeleteShares planned) as [np|]; [|done].
  apply mutate_cases in H as [(e & _ & _ & [=])|[(a & Hb & _)|[(st & a & e & _ & _ & _ & [=])|(st & a & file & v & Hb & Hf & _ & ->)]]].
  { repeat case_in Hb. }
  apply save_file in Hf. exists np. simpl.
  assert (Hnp : shareSlicesEqual np np = true) by (by apply shareSlicesEqual_iff).
  destruct (trashDeleteOperations (state s) !! op) as [m|] eqn:Em.
  - destruct (negb (shareSlicesEqual (Planned m) np)) eqn:Ep; [done|]. b2p. destruct c; simpl in Hb.
    + destruct (Committed m) eqn:Ec; [injection Hb as <- _; by exists m, file|].
      destruct (disableSharesMatchingPlan (state s) np) as [[st1 ch]|]; [|done]. injection Hb as <- _.
      exists (set_committed m), file. split; [done|]. split; [|done]. apply clear_keeps. apply lookup_insert_eq.
    + injection Hb as <- _. by exists m, file.
  - destruct c; simpl in Hb; (destruct (disableSharesMatchingPlan (state s) np) as [[st1 ch]|]; [|done]); injection Hb as <- _.
    + eexists _, file. split; [done|]. split; [apply clear_keeps, lookup_insert_eq|]. done.
    + eexists _, file. split; [done|]. split; [apply lookup_insert_eq|]. done.
Qed.

(** A move to the Trash can be replayed.  After [ApplyTrashDeleteOperation] has succeeded, applying
    the same operation to the same plan again (committed only if it was committed) changes no map of
    the store and fails only if its write does; and applying it to a plan that differs in any share is
    refused as a conflict that changes nothing. *)
Theorem trash_delete_replay s io io' op planned c s1 u w :
  ApplyTrashDeleteOperation s io op planned c = (s1, Ok (u, w)) ->
  (forall c' s2 r, (c' = true -> c = true) -> ApplyTrashDeleteOperation s1 io' op planned c' = (s2, r) ->
     state s2 = state s1 /\
     r = match io' with Written => Ok (tt, false) | WrittenWithWarning => Ok (tt, true) | WriteFailed e => Err (errPersist e) end) /\
  (forall planned' np np' c', normalizeTrashDeleteShares planned = Ok np -> normalizeTrashDeleteShares planned' = Ok np' ->
     shareSlicesEqual np np' = false ->
     ApplyTrashDeleteOperation s1 io' op planned' c' = (s1, Err ErrTrashDeleteOperationConflict)).
Proof.
  intros H. apply apply_marker in H as (Hv & np & m & file & Hp & Hm & Hs & Hc & Hf). split.
  - intros c' s2 r Hcc H. unfold ApplyTrashDeleteOperation in H. rewrite Hv, Hp in H. simpl in H.
    apply mutate_cases in H as [(e & Hb & _)|[(a & Hb & _)|[(st & a & e & Hb & Hw & -> & ->)|(st & a & fl & w' & Hb & Hw & -> & ->)]]];
      rewrite Hm, Hs in Hb; simpl in Hb.
    + destruct c'; simpl in Hb; [|done]. by rewrite (Hc (Hcc eq_refl)) in Hb.
    + destruct c'; simpl in Hb; [|done]. by rewrite (Hc (Hcc eq_refl)) in Hb.
    + assert (st = state s1) as -> by (destruct c'; simpl in Hb; [rewrite (Hc (Hcc eq_refl)) in Hb|]; congruence).
      split; [done|]. unfold saveShareStoreState in Hw. rewrite Hf in Hw. destruct io'; congruence.
    + assert (st = state s1) as -> by (destruct c'; simpl in Hb; [rewrite (Hc (Hcc eq_refl)) in Hb|]; congruence).
      split; [done|]. unfold saveShareStoreState in Hw. rewrite Hf in Hw. destruct a, io'; congruence.
  - intros planned' np2 np' c' Hp2 Hp' Hne. rewrite Hp in Hp2. injection Hp2 as <-.
    unfold ApplyTrashDeleteOperation. rewrite Hv, Hp'. simpl. unfold mutate. cbn [transact]. simpl. rewrite Hm.
    destruct (shareSlicesEqual (Planned m) np') eqn:E; [|done]. exfalso.
    apply shareSlicesEqual_iff in Hs, E. apply not_true_iff_false in Hne. apply Hne, shareSlicesEqual_iff. congruence.
Qed.

Lemma trash_delete_replay_witness :
  is_ok (snd demo_applied) = true /\
  state (fst (ApplyTrashDeleteOperation (fst demo_applied) WrittenWithWarning demo_operation demo_planned false)) =
    state (fst demo_applied).
Proof.
  destruct (snd demo_applied) as [[u w]|e] eqn:E; [|vm_compute in E; discriminate]. split; [reflexivity|].
  refine (proj1 (proj1 (trash_delete_replay demo_store Written WrittenWithWarning demo_operation demo_planned false
    (fst demo_applied) u w _) false _ _ (fun H => H) (surjective_pairing _))).
  rewrite <-E. apply surjective_pairing.
Defined.

(** ** Restoring from the Trash *)

Lemma canonical_entries_ok {A} (f : string -> A -> result ShareError A) ops ops' k v :
  canonical_entries f ops = Ok ops' -> ops !! k = Some v -> exists v', f k v = Ok v'.
Proof.
  intros H Hk. unfold canonical_entries in H.
  apply (foldM_ind _ (fun seen _ => Forall (fun x => exists v', f x.1 x.2 = Ok v') seen)) in H.
  - rewrite Forall_forall in H. apply (H (k, v)). by apply elem_of_map_to_list.
  - constructor.
  - intros seen [k1 v1] rest a a' _ Hs Hx. apply Forall_app. split; [done|]. constructor; [|constructor].
    simpl. destruct (f k1 v1) as [n|] eqn:E; [by exists n|done].
Qed.

Lemma normalize_list_nodup e (l : list Share) n : normalizeShareList e (Some <$> l) = Ok n -> NoDup (ID <$> l).
Proof.
  unfold normalizeShareList. intros H. destruct (foldM _ (Some <$> l) []) as [acc|] eqn:E; [clear H|done].
  apply (foldM_ind _ (fun seen acc => ID <$> omap (fun x => x) seen = ID <$> acc /\ NoDup (ID <$> acc))) in E.
  - destruct E as [He Hnd]. rewrite <-He in Hnd. clear -Hnd.
    assert (omap (fun x => x) (Some <$> l) = l) as Heq; [|by rewrite Heq in Hnd]. clear.
    induction l as [|x l IH]; [done|]. simpl. by f_equal.
  - split; [done|constructor].
  - intros seen x rest a a' _ [He Hnd] Hx. destruct x as [x|]; [|done].
    destruct (validateShareInvariants x) as [c|] eqn:Ev; [|done]. case_bool_decide as Hin; [done|]. injection Hx as <-.
    destruct (validate_ok _ _ Ev) as [_ Hid]. rewrite omap_app, !fmap_app, He. simpl. rewrite Hid. split; [done|].
    apply NoDup_app. split; [done|]. split; [|apply NoDup_singleton].
    intros y Hy ->%list_elem_of_singleton. apply Hin. by rewrite Hid.
Qed.

(** The markers of a store with a file are canonical. *)
Lemma marker_changed_nodup bh bm s op m : reachable_store bh bm s ->
  trashDeleteOperations (state s) !! op = Some m -> NoDup (ID <$> Changed m).
Proof.
  intros Hd%reachable_durable Hm. unfold durable in Hd. destruct (disk s) as [file|].
  - unfold file_of in Hd. destruct (cloneTrashDeleteOperationsCanonical _) as [d|] eqn:E; [|done]. clear Hd.
    unfold cloneTrashDeleteOperationsCanonical in E. apply (canonical_entries_ok _ _ _ op m) in E as (m' & E); [|done].
    destruct (negb _) in E; [done|]. unfold normalizeTrashDeleteOperationMarker in E.
    destruct (Completed m && negb (Committed m)); [done|].
    destruct (normalizeTrashDeleteShares (Some <$> Planned m)); [|done].
    destruct (normalizeTrashDeleteShares (Some <$> Changed m)) as [c|] eqn:Ec; [|done].
    by eapply normalize_list_nodup.
  - rewrite Hd in Hm. simpl in Hm. by rewrite lookup_empty in Hm.
Qed.

Definition plan_entry (t : shareTrashRestoreTransition) : Prop :=
  ID (t_relocated t) = ID (t_original t) /\ valid_share (t_relocated t) /\ Enabled (t_relocated t) = true.

Lemma transitions_ok original relocated acc ts : restoreTransitions original relocated acc = Ok ts ->
  Forall plan_entry acc /\ NoDup ((ID ∘ t_original) <$> acc) -> Forall plan_entry ts /\ NoDup ((ID ∘ t_original) <$> ts).
Proof.
  revert relocated acc. induction original as [|o original IH]; intros [|r relocated] acc H Ha; simpl in H; try done.
  { by injection H as <-. }
  destruct (match o with Some _ => _ | None => _ end) as [oi|]; [|done].
  destruct (match r with Some _ => _ | None => _ end) as [ri|] eqn:Er; [|done].
  case_bool_decide as Hin; [done|]. destruct (sharesEqual (set_path oi (Path ri)) ri) eqn:Eq; [|done].
  apply IH in H; [done|]. destruct Ha as [Hp Hnd]. apply sharesEqual_iff in Eq.
  assert (Hri : valid_share ri /\ Enabled ri = true).
  { clear -Er. repeat case_in Er. injection Er as <-. split; [by eapply validate_ok|done]. }
  split.
  - apply Forall_app. split; [done|]. constructor; [|constructor]. split; [|done]. simpl.
    unfold json_share, set_revision, set_path in Eq. simpl in Eq. congruence.
  - rewrite fmap_app. apply NoDup_app. split; [done|]. split; [|apply NoDup_singleton].
    intros y Hy ->%list_elem_of_singleton. done.
Qed.

Lemma restore_plans_ok original relocated o r : normalizeTrashRestorePlans original relocated = Ok (o, r) ->
  NoDup (ID <$> r) /\ Forall (fun t => valid_share t /\ Enabled t = true) r.
Proof.
  unfold normalizeTrashRestorePlans. intros H. destruct (restoreTransitions _ _ []) as [ts|] eqn:E; [|done].
  apply transitions_ok in E as [Hp Hnd]; [|split; constructor]. injection H as _ <-.
  rewrite (merge_sort_Permutation transition_le ts). split.
  - assert (ID <$> (t_relocated <$> ts) = (ID ∘ t_original) <$> ts) as ->; [|done].
    clear -Hp. induction Hp as [|t ts (Ht & _) _ IH]; [done|]. rewrite !fmap_cons, IH. by f_equal.
  - apply Forall_fmap. eapply Forall_impl; [exact Hp|]. by intros t (_ & ? & ?).
Qed.

(** The change [c] of the deletion [m] can be undone on [cur] towards the target [t]. *)
Definition restorable (m : shareTrashDeleteOperation) (c cur t : Share) : Prop :=
  trashDeleteRestoreBlocked m (ID c) = false /\ Enabled cur = false /\ Path cur = Path c /\
  sameTrashDeleteShareGeneration cur c = true /\ sameTrashDeleteShareGeneration t c = true.

(** The state after a restore that was not known. *)
Lemma restore_new s io rid did original relocated o r s1 u w m :
  trashRestoreOperations (state s) !! rid = None -> normalizeTrashRestorePlans original relocated = Ok (o, r) ->
  trashDeleteOperations (state s) !! did = Some m ->
  ApplyTrashRestoreOperation s io rid did original relocated = (s1, Ok (u, w)) ->
  Completed m = true /\ shareSlicesEqual (Planned m) o = true /\
  exists st1 ch, loop (restoreChanged m r) (Changed m) (state s) = Ok (st1, ch) /\
    state s1 = with_restores st1 (<[rid := {| DeleteOperationID := did; Original := o; Relocated := r;
      Restored := sortSharesCanonical ch |}]> (trashRestoreOperations st1)).
Proof.
  intros Hn Hp Hm H. unfold ApplyTrashRestoreOperation in H. destruct (_ || _) in H; [done|]. rewrite Hp in H.
  apply mutate_ok in H as [[Hb _]|(st & Hb & Hst)]; rewrite Hn in Hb; unfold ownsPlan in Hb; rewrite Hm in Hb;
    destruct (Completed m); simpl in Hb; try done; destruct (shareSlicesEqual (Planned m) o); simpl in Hb; try done;
    (destruct (existsb _ _); [done|]); destruct (loop _ _ _) as [[st1 ch]|] eqn:El; try done.
  injection Hb as Hb _. split; [done|]. split; [done|]. exists st1, ch. split; [done|]. congruence.
Qed.

(** A restore from the Trash gives back exactly what the deletion took.  When
    [ApplyTrashRestoreOperation] succeeds for an operation that was not known, the deletion it undoes is
    completed and has the plan of the restore; a share is enabled at the relocated path, with a newer
    ticket revision and otherwise as it was, and is recorded as restored, exactly if the deletion has
    changed it and may still restore it, it is the same share, still disabled and where the deletion
    left it, and the relocation has it; every other share is as before and is not recorded; and the
    markers of the deletions are untouched. *)
Theorem trash_restore_exact bcrypt_hash bcrypt_matches s io rid did original relocated o r s1 u w m :
  reachable_store bcrypt_hash bcrypt_matches s ->
  trashRestoreOperations (state s) !! rid = None -> normalizeTrashRestorePlans original relocated = Ok (o, r) ->
  trashDeleteOperations (state s) !! did = Some m ->
  ApplyTrashRestoreOperation s io rid did original relocated = (s1, Ok (u, w)) ->
  Completed m = true /\ shareSlicesEqual (Planned m) o = true /\
  trashDeleteOperations (state s1) = trashDeleteOperations (state s) /\
  exists rec, trashRestoreOperations (state s1) !! rid = Some rec /\
    DeleteOperationID rec = did /\ Original rec = o /\ Relocated rec = r /\
    forall id,
      (exists c cur t y, c ∈ Changed m /\ t ∈ r /\ ID c = id /\ ID t = id /\ restorable m c cur t /\
         shares (state s) !! id = Some cur /\ shares (state s1) !! id = Some y /\ y ∈ Restored rec /\
         revised (set_enabled (set_path cur (Path t)) true) y) \/
      (shares (state s1) !! id = shares (state s) !! id /\ id ∉ ID <$> Restored rec /\
       forall c cur t, c ∈ Changed m -> t ∈ r -> ID c = id -> ID t = id -> shares (state s) !! id = Some cur ->
         ~ restorable m c cur t).
Proof.
  intros Hr Hn Hp Hm H. pose proof (marker_changed_nodup _ _ _ _ _ Hr Hm) as Hnd. apply reachable_wf in Hr as Hw.
  destruct (restore_plans_ok _ _ _ _ Hp) as [Hndr Hvr].
  assert (Hv : Forall valid_share r) by (eapply Forall_impl; [exact Hvr|]; by intros t [? _]).
  destruct (restore_new _ _ _ _ _ _ _ _ _ _ _ _ Hn Hp Hm H) as (Hc & Hpl & st1 & ch & El & Hst). clear H.
  split; [done|]. split; [done|].
  assert (Hops : trashDeleteOperations (state s) = trashDeleteOperations st1).
  { apply (loop_inv (restoreChanged m r) (fun s2 => wf s2 /\ trashDeleteOperations (state s) = trashDeleteOperations s2)) in El;
      [apply El| |done].
    intros s2 x s3 y _ [Hw2 ->] E. by apply (restore_changed_cases _ _ _ _ _ Hw2 Hv) in E as (? & _ & _ & -> & _). }
  rewrite Hst. split; [done|]. eexists. split; [apply lookup_insert_eq|]. simpl. do 3 (split; [done|]).
  apply (loop_keyed ID (restoreChanged m r) wf
    (fun c => forall cur t, shares (state s) !! ID c = Some cur -> t ∈ r -> ID t = ID c -> ~ restorable m c cur t)
    (fun c y z => z = y /\ ID y = ID c /\ exists cur t, shares (state s) !! ID c = Some cur /\ t ∈ r /\ ID t = ID c /\
       restorable m c cur t /\ revised (set_enabled (set_path cur (Path t)) true) y))
    in El as (_ & H1 & H2 & H3); [|done| |done].
  - intros id. assert (Hperm : sortSharesCanonical ch ≡ₚ ch) by apply merge_sort_Permutation.
    assert (Hin : forall y, y ∈ ch -> exists c, c ∈ Changed m /\ ID y = ID c).
    { intros y Hy. destruct (H3 y Hy) as (c & s' & Hc' & (-> & Hid & _) & _). by exists c. }
    destruct (decide (id ∈ ID <$> Changed m)) as [Hi|Hi].
    + apply list_elem_of_fmap_1 in Hi as (c & -> & Hcm). destruct (H1 c Hcm) as [[Hk He]|(y & z & (-> & Hid & cur & t & ? & ? & ? & ? & ?) & He & Hy)].
      * right. split; [done|]. split.
        -- rewrite Hperm. intros (y & Hy & Hyc)%list_elem_of_fmap_1.
           destruct (H3 y Hyc) as (c' & s' & Hc' & (-> & Hid & cur & t & Hcur & Ht & Hti & Hres & _) & _).
           assert (c' = c) as -> by (eapply (NoDup_fmap_elem ID (Changed m)); try done; congruence).
           by apply (Hk cur t).
        -- intros c' cur t Hc' Ht Hid Hti Hcur.
           assert (c' = c) as -> by (by eapply (NoDup_fmap_elem ID (Changed m))). by apply Hk.
      * left. exists c, cur, t, y. rewrite Hperm. done.
    + right. split; [by apply H2|]. split.
      * rewrite Hperm. intros (y & -> & Hy)%list_elem_of_fmap_1. destruct (Hin y Hy) as (c & Hcm & Hid).
        apply Hi. rewrite Hid. by apply list_elem_of_fmap_2.
      * intros c cur t Hcm _ Hid. exfalso. apply Hi. rewrite <-Hid. by apply list_elem_of_fmap_2.
  - intros st c q Hcm Hw2 Heq E. apply (restore_changed_cases _ _ _ _ _ Hw2 Hv) in E. destruct q as [[st' y]|].
    + destruct E as (Hw3 & Hid & Hb & _ & cur & t & Hcur & He & Hpc & Hg & Ht & Hti & Hgt & Hs & Hrev).
      split; [done|]. exists y. split; [done|]. split; [done|]. split; [done|]. exists cur, t. rewrite <-Heq.
      rewrite Forall_forall in Hvr. destruct (Hvr t Ht) as [_ Het]. rewrite Het in Hrev. done.
    + intros cur t Hcur Ht Hti (Hb & He & Hpc & Hg & Hgt). rewrite <-Heq in Hcur.
      destruct (E cur t Hcur Ht Hti Hndr) as [?|[?|[?|[?|?]]]]; congruence.
Qed.

(** The share of the store in the Trash, and its restore under another path. *)
Definition demo_trashed : ShareStore :=
  fst (CompleteTrashDeleteOperation (fst (ApplyTrashDeleteOperation demo_store Written demo_operation demo_planned true))
    Written demo_operation).
Definition demo_restore_operation : string := "fedcba9876543210fedcba9876543210".
Definition demo_relocated : list (option Share) := option_map (fun s => set_path s "/back") <$> demo_planned.
Definition demo_restored :=
  ApplyTrashRestoreOperation demo_trashed Written demo_restore_operation demo_operation demo_planned demo_relocated.

Lemma demo_trashed_reachable : reachable_store demo_hash String.eqb demo_trashed.
Proof.
  eapply reach_step; [eapply reach_step; [exact demo_reachable|]|].
  - exists Written, (CallApplyTrashDelete demo_operation demo_planned true). done.
  - exists Written, (CallCompleteTrashDelete demo_operation). done.
Qed.

Lemma trash_restore_exact_witness :
  is_ok (snd demo_restored) = true /\
  trashDeleteOperations (state (fst demo_restored)) = trashDeleteOperations (state demo_trashed) /\
  exists sh, Get (fst demo_restored) "a" = Ok sh /\ Enabled sh = true /\ Path sh = "/back".
Proof.
  destruct (snd demo_restored) as [[u w]|e] eqn:E; [|vm_compute in E; discriminate]. split; [reflexivity|]. split.
  - destruct (trashDeleteOperations (state demo_trashed) !! demo_operation) as [m|] eqn:Em; [|vm_compute in Em; discriminate].
    refine (proj1 (proj2 (proj2 (trash_restore_exact _ _ demo_trashed Written demo_restore_operation demo_operation
      demo_planned demo_relocated (omap id demo_planned) (omap id demo_relocated) (fst demo_restored) u w m
      demo_trashed_reachable _ _ Em _)))).
    + vm_compute. reflexivity.
    + vm_compute. reflexivity.
    + rewrite <-E. apply surjective_pairing.
  - eexists. split; [vm_compute; reflexivity|]. split; reflexivity.
Defined.

End ShareTrashProps.
