(* ===== verification/Quota.v ===== *)
(** * internal/quota/reservation.go: in-flight quota reservations

    [World] is the heap: coordinators, reservations and mutation leases by address.  Every method
    of the file is a function of the world; [None] is a goroutine that blocks on the mutation gate.
    The byte counters are [int64] with their wrap-around.  A critical section of [gate] is one
    transition, so the gate itself is full between transitions; the mutation gate is the field
    [mutationGate]. *)

From S2P Require Import Prelude GoStrings.

Module Quota.

(** ** Data *)

Record Claim := {
  Key : string;
  UsedBytes : Z;
  LimitBytes : Z;
  RequiredBytes : Z;
}.

Record ExceededError := {
  ClaimIndex : Z;
  ExKey : string;
  ExUsedBytes : Z;
  ExReservedBytes : Z;
  ExLimitBytes : Z;
  ExRequiredBytes : Z;
  ExAvailableBytes : Z;
}.

Inductive QuotaError :=
| CoordinatorUnavailable
| ContextUnavailable
| PrepareUnavailable
| LeaseUnavailable
| ForeignReservation
| ContextDone (e : string)
| PrepareFailed (e : string)
| ReservationReleased
| MutationLeaseReleased
| EmptyScopeKey
| RequiredOverflow
| ReservedOverflow
| Exceeded (e : ExceededError).

Abbreviation View := (gmap string Z).

(** [PrepareFunc]: recomputes usage against the outstanding reservations. *)
Definition PrepareFunc : Type := View -> result string (list Claim).

(** A context, as its successive observations: [ctx i] is [ctx.Err()] at the [i]-th time the
    operation looks at it. *)
Definition Context : Type := nat -> option string.
Definition later (n : nat) (ctx : Context) : Context := fun i => ctx (n + i)%nat.

Record aggregateClaim := {
  firstIndex : Z;
  usedBytes : Z;
  limitBytes : Z;
  requiredBytes : Z;
}.

Record Coordinator := {
  mutationGate : bool;
  reserved : gmap string Z;
}.

Record Reservation := {
  res_coordinator : nat;
  res_bytes : gmap string Z;
  res_released : bool;
}.

Record MutationLease := {
  lease_coordinator : nat;
  lease_released : bool;
}.

Record World := {
  coordinators : gmap nat Coordinator;
  reservations : gmap nat Reservation;
  leases : gmap nat MutationLease;
}.

(** ** Pure helpers *)

Definition nonNegative (value : Z) : Z := if value <? 0 then 0 else value.

Definition ReservedBytes (v : View) (key : string) : Z := nonNegative (default 0 (v !! key)).

Definition quotaAvailable (limitBytes usedBytes reservedBytes : Z) : Z :=
  if limitBytes <=? usedBytes then 0
  else let availableBytes := int64 (limitBytes - usedBytes) in
       if availableBytes <=? reservedBytes then 0 else int64 (availableBytes - reservedBytes).

Definition nul : string := byte1 0.
Definition backslash : Ascii.ascii := Ascii.ascii_of_N 92.

Definition ScopeKey `{Unicode} (kind scopePath : string) : string :=
  if has_control kind || has_control scopePath then ""
  else
    let kind := ToLower (TrimSpace kind) in
    let scopePath := TrimSpace scopePath in
    if String.eqb kind "" || String.eqb scopePath "" || negb (HasPrefix scopePath "/") ||
       contains_byte (Ascii.ascii_of_N 0) kind || contains_byte (Ascii.ascii_of_N 0) scopePath ||
       contains_byte backslash scopePath
    then "" else kind +:+ nul +:+ Clean scopePath.

(** [subtractReserved]: [target[key] -= bytes], dropping entries that are not positive. *)
Definition subtractReserved (target removed : gmap string Z) : gmap string Z :=
  range_update (fun bytes old =>
    let remaining := int64 (default 0 old - bytes) in
    if 0 <? remaining then Some remaining else None) removed target.

Definition subtractLocked (c : Coordinator) (removed : gmap string Z) : Coordinator :=
  {| mutationGate := mutationGate c; reserved := subtractReserved (reserved c) removed |}.

Definition addLocked (c : Coordinator) (added : gmap string Z) : Coordinator :=
  {| mutationGate := mutationGate c;
     reserved := range_update (fun bytes old => Some (int64 (default 0 old + bytes))) added (reserved c) |}.

(** ** Admission *)

(** The loop of [prepareLocked] that merges the claims of one key. *)
Fixpoint aggregateClaims (index : Z) (claims : list Claim)
    (aggregated : gmap string aggregateClaim) (orderedKeys : list string)
    : result QuotaError (gmap string aggregateClaim * list string) :=
  match claims with
  | [] => Ok (aggregated, orderedKeys)
  | claim :: claims' =>
    if String.eqb (Key claim) "" then Err EmptyScopeKey
    else
      let used := nonNegative (UsedBytes claim) in
      let limit := nonNegative (LimitBytes claim) in
      let required := nonNegative (RequiredBytes claim) in
      match aggregated !! Key claim with
      | None =>
        aggregateClaims (index + 1) claims'
          (<[Key claim := {| firstIndex := index; usedBytes := used; limitBytes := limit;
                             requiredBytes := required |}]> aggregated)
          (orderedKeys ++ [Key claim])
      | Some a =>
        if int64 (maxInt64 - required) <? requiredBytes a then Err RequiredOverflow
        else
          aggregateClaims (index + 1) claims'
            (<[Key claim :=
                {| firstIndex := firstIndex a;
                   usedBytes := if usedBytes a <? used then used else usedBytes a;
                   limitBytes := if limit <? limitBytes a then limit else limitBytes a;
                   requiredBytes := int64 (requiredBytes a + required) |}]> aggregated)
            orderedKeys
      end
  end.

(** The loop of [prepareLocked] over [orderedKeys]. *)
Fixpoint admitKeys (view : View) (aggregated : gmap string aggregateClaim)
    (orderedKeys : list string) (pending : gmap string Z) : result QuotaError (gmap string Z) :=
  match orderedKeys with
  | [] => Ok pending
  | key :: keys =>
    match aggregated !! key with
    | None => admitKeys view aggregated keys pending
    | Some claim =>
      let reservedBytes := nonNegative (default 0 (view !! key)) in
      let availableBytes := quotaAvailable (limitBytes claim) (usedBytes claim) reservedBytes in
      if availableBytes <? requiredBytes claim then
        Err (Exceeded {| ClaimIndex := firstIndex claim; ExKey := key;
                         ExUsedBytes := usedBytes claim; ExReservedBytes := reservedBytes;
                         ExLimitBytes := limitBytes claim; ExRequiredBytes := requiredBytes claim;
                         ExAvailableBytes := availableBytes |})
      else
        admitKeys view aggregated keys
          (if 0 <? requiredBytes claim then <[key := requiredBytes claim]> pending else pending)
    end
  end.

Definition reservationOverflow (view : View) (pending : gmap string Z) : bool :=
  existsb (fun '(key, required) => int64 (maxInt64 - required) <? default 0 (view !! key))
    (map_to_list pending).

(** [prepareLocked]; [ctxErr] is [ctx.Err()] after the callback returned. *)
Definition prepareLocked (c : Coordinator) (ctxErr : option string) (replaced : option Reservation)
    (prepare : PrepareFunc) : result QuotaError (gmap string Z) :=
  let viewReserved :=
    match replaced with
    | Some r => subtractReserved (reserved c) (res_bytes r)
    | None => reserved c
    end in
  match prepare viewReserved with
  | Err e => Err (PrepareFailed e)
  | Ok claims =>
    match ctxErr with
    | Some e => Err (ContextDone e)
    | None =>
      let! (aggregated, orderedKeys) := aggregateClaims 0 claims ∅ [] in
      let! pending := admitKeys viewReserved aggregated orderedKeys ∅ in
      if reservationOverflow viewReserved pending then Err ReservedOverflow else Ok pending
    end
  end.

(** ** The operations *)

(** [select] between [ctx.Done()] and a one-token channel; when both are ready the runtime
    chooses ([pick]).  [None]: neither is ready, the goroutine blocks. *)
Definition select_recv (done : option string) (full pick : bool) : option (result QuotaError unit) :=
  match done, full with
  | Some e, true => Some (if pick then Err (ContextDone e) else Ok tt)
  | Some e, false => Some (Err (ContextDone e))
  | None, true => Some (Ok tt)
  | None, false => None
  end.

(** [Coordinator.lock]: between transitions the gate holds its token. *)
Definition lock (done : option string) (pick : bool) : result QuotaError unit :=
  match done with
  | Some e => if pick then Err (ContextDone e) else Ok tt
  | None => Ok tt
  end.

Definition NewCoordinator : Coordinator := {| mutationGate := true; reserved := ∅ |}.

Definition set_coordinator (w : World) (c : nat) (x : Coordinator) : World :=
  {| coordinators := <[c := x]> (coordinators w); reservations := reservations w; leases := leases w |}.
Definition set_reservation (w : World) (r : nat) (x : Reservation) : World :=
  {| coordinators := coordinators w; reservations := <[r := x]> (reservations w); leases := leases w |}.
Definition set_lease (w : World) (l : nat) (x : MutationLease) : World :=
  {| coordinators := coordinators w; reservations := reservations w; leases := <[l := x]> (leases w) |}.
Definition set_gate (w : World) (c : nat) (b : bool) : World :=
  match coordinators w !! c with
  | Some x => set_coordinator w c {| mutationGate := b; reserved := reserved x |}
  | None => w
  end.

Definition AcquireMutation (w : World) (c : ptr) (ctx : option Context) (pick : bool)
    : option (World * result QuotaError nat) :=
  match deref (coordinators w) c, ctx with
  | None, _ => Some (w, Err CoordinatorUnavailable)
  | _, None => Some (w, Err ContextUnavailable)
  | Some (ca, co), Some ctx =>
    match ctx 0%nat with
    | Some e => Some (w, Err (ContextDone e))
    | None =>
      match select_recv (ctx 1%nat) (mutationGate co) pick with
      | None => None
      | Some (Err e) => Some (w, Err e)
      | Some (Ok _) =>
        let w1 := set_gate w ca false in
        match ctx 2%nat with
        | Some e => Some (set_gate w1 ca true, Err (ContextDone e))
        | None =>
          let l := alloc (leases w1) in
          Some (set_lease w1 l {| lease_coordinator := ca; lease_released := false |}, Ok l)
        end
      end
    end
  end.

Definition LeaseRelease (w : World) (l : ptr) : World :=
  match deref (leases w) l with
  | None => w
  | Some (la, le) =>
    if lease_released le then w
    else set_gate (set_lease w la {| lease_coordinator := lease_coordinator le; lease_released := true |})
           (lease_coordinator le) true
  end.

Definition reserveUnderMutation (w : World) (ca : nat) (co : Coordinator) (ctx : Context) (pick : bool)
    (prepare : PrepareFunc) : World * result QuotaError nat :=
  match lock (ctx 0%nat) pick with
  | Err e => (w, Err e)
  | Ok _ =>
    match ctx 1%nat with
    | Some e => (w, Err (ContextDone e))
    | None =>
      match prepareLocked co (ctx 2%nat) None prepare with
      | Err e => (w, Err e)
      | Ok pending =>
        let r := alloc (reservations w) in
        (set_reservation (set_coordinator w ca (addLocked co pending)) r
           {| res_coordinator := ca; res_bytes := pending; res_released := false |}, Ok r)
      end
    end
  end.

Definition lease_reserve (w : World) (l : ptr) (ctx : option Context) (pick : bool)
    (prepare : option PrepareFunc) : World * result QuotaError nat :=
  match deref (leases w) l, ctx, prepare with
  | None, _, _ => (w, Err LeaseUnavailable)
  | _, None, _ => (w, Err ContextUnavailable)
  | _, _, None => (w, Err PrepareUnavailable)
  | Some (_, le), Some ctx, Some prepare =>
    if lease_released le then (w, Err MutationLeaseReleased)
    else match coordinators w !! lease_coordinator le with
         | None => (w, Err LeaseUnavailable)
         | Some co => reserveUnderMutation w (lease_coordinator le) co ctx pick prepare
         end
  end.

(** [Coordinator.Reserve]: the lease is released by the deferred call on every path. *)
Definition Reserve (w : World) (c : ptr) (ctx : option Context) (pick pick' : bool)
    (prepare : option PrepareFunc) : option (World * result QuotaError nat) :=
  match deref (coordinators w) c, ctx, prepare with
  | None, _, _ => Some (w, Err CoordinatorUnavailable)
  | _, None, _ => Some (w, Err ContextUnavailable)
  | _, _, None => Some (w, Err PrepareUnavailable)
  | _, Some ctx, _ =>
    match ctx 0%nat with
    | Some e => Some (w, Err (ContextDone e))
    | None =>
      match AcquireMutation w c (Some (later 1 ctx)) pick with
      | None => None
      | Some (w1, Err e) => Some (w1, Err e)
      | Some (w1, Ok l) =>
        let '(w2, res) := lease_reserve w1 (Some l) (Some (later 4 ctx)) pick' prepare in
        Some (LeaseRelease w2 (Some l), res)
      end
    end
  end.

(** [Reservation.Release] *)
Definition Release (w : World) (r : ptr) : World :=
  match deref (reservations w) r with
  | None => w
  | Some (ra, re) =>
    match coordinators w !! res_coordinator re with
    | None => w
    | Some co =>
      if res_released re then w
      else set_reservation (set_coordinator w (res_coordinator re) (subtractLocked co (res_bytes re))) ra
             {| res_coordinator := res_coordinator re; res_bytes := ∅; res_released := true |}
    end
  end.

Definition refreshUnderMutation (w : World) (ca : nat) (co : Coordinator) (ctx : Context) (pick : bool)
    (ra : nat) (re : Reservation) (prepare : PrepareFunc) : World * result QuotaError unit :=
  match lock (ctx 0%nat) pick with
  | Err e => (w, Err e)
  | Ok _ =>
    match ctx 1%nat with
    | Some e => (w, Err (ContextDone e))
    | None =>
      if res_released re then (w, Err ReservationReleased)
      else match prepareLocked co (ctx 2%nat) (Some re) prepare with
           | Err e => (w, Err e)
           | Ok pending =>
             (set_reservation (set_coordinator w ca (addLocked (subtractLocked co (res_bytes re)) pending)) ra
                {| res_coordinator := res_coordinator re; res_bytes := pending;
                   res_released := res_released re |}, Ok tt)
           end
    end
  end.

(** [MutationLease.Refresh] *)
Definition Refresh (w : World) (l : ptr) (ctx : option Context) (pick : bool) (r : ptr)
    (prepare : option PrepareFunc) : World * result QuotaError unit :=
  match deref (leases w) l with
  | None => (w, Err LeaseUnavailable)
  | Some (_, le) =>
    match ctx with
    | None => (w, Err ContextUnavailable)
    | Some ctx =>
      match deref (reservations w) r with
      | None => (w, Err ForeignReservation)
      | Some (ra, re) =>
        if negb (Nat.eqb (res_coordinator re) (lease_coordinator le)) then (w, Err ForeignReservation)
        else match prepare with
             | None => (w, Err PrepareUnavailable)
             | Some prepare =>
               if lease_released le then (w, Err MutationLeaseReleased)
               else match coordinators w !! lease_coordinator le with
                    | None => (w, Err LeaseUnavailable)
                    | Some co => refreshUnderMutation w (lease_coordinator le) co ctx pick ra re prepare
                    end
             end
      end
    end
  end.

(** ** Specification *)

(** Go's typing of the claims: every counter is an [int64]. *)
Definition claim_typed (c : Claim) : Prop :=
  in_int64 (UsedBytes c) /\ in_int64 (LimitBytes c) /\ in_int64 (RequiredBytes c).
Definition prepare_typed (prepare : PrepareFunc) : Prop :=
  forall v claims, prepare v = Ok claims -> Forall claim_typed claims.

(** The bytes a batch of claims requires in the scope [k]. *)
Definition required_for (claims : list Claim) (k : string) : Z :=
  fold_right (fun c acc => if String.eqb (Key c) k then nonNegative (RequiredBytes c) + acc else acc) 0 claims.

(** What reservation [r] holds in the scope [k] of coordinator [c]. *)
Definition held (c : nat) (k : string) (r : Reservation) : Z :=
  if Nat.eqb (res_coordinator r) c && negb (res_released r) then default 0 (res_bytes r !! k) else 0.

Definition active (c : nat) (l : MutationLease) : Z :=
  if Nat.eqb (lease_coordinator l) c && negb (lease_released l) then 1 else 0.

Definition counters_ok (m : gmap string Z) : Prop :=
  forall k v, m !! k = Some v -> 0 < v <= maxInt64.

(** The coordinator accounts for exactly the live reservations, every counter is a positive
    [int64], and the mutation gate holds its token unless exactly one lease is active. *)
Record world_ok (w : World) : Prop := {
  ok_sum : forall c co k, coordinators w !! c = Some co ->
    default 0 (reserved co !! k) = sum_map (held c k) (reservations w);
  ok_counters : forall c co, coordinators w !! c = Some co -> counters_ok (reserved co);
  ok_bytes : forall r re, reservations w !! r = Some re -> counters_ok (res_bytes re);
  ok_gate : forall c co, coordinators w !! c = Some co ->
    (if mutationGate co then 1 else 0) + sum_map (active c) (leases w) = 1;
  ok_res_ref : forall r re, reservations w !! r = Some re -> is_Some (coordinators w !! res_coordinator re);
  ok_lease_ref : forall l le, leases w !! l = Some le -> is_Some (coordinators w !! lease_coordinator le);
}.

(** One call of a client of the package. *)
Inductive step (w : World) : World -> Prop :=
| step_new c : coordinators w !! c = None -> step w (set_coordinator w c NewCoordinator)
| step_reserve c ctx pick pick' prepare w' res :
    prepare_typed prepare -> Reserve w c ctx pick pick' (Some prepare) = Some (w', res) -> step w w'
| step_acquire c ctx pick w' res : AcquireMutation w c ctx pick = Some (w', res) -> step w w'
| step_refresh l ctx pick r prepare w' res :
    prepare_typed prepare -> Refresh w l ctx pick r (Some prepare) = (w', res) -> step w w'
| step_release r : step w (Release w r)
| step_lease_release l : step w (LeaseRelease w l).

Definition empty_world (w : World) : Prop := w = {| coordinators := ∅; reservations := ∅; leases := ∅ |}.

(** ** Lemmas: the counters *)

Lemma nonNegative_range z : in_int64 z -> 0 <= nonNegative z <= maxInt64.
Proof. unfold nonNegative. int_unfold. case_goal; b2p; lia. Qed.

Lemma nonNegative_id z : 0 <= z -> nonNegative z = z.
Proof. unfold nonNegative. case_goal; b2p; lia. Qed.

Lemma quotaAvailable_spec l u r :
  0 <= l <= maxInt64 -> 0 <= u <= maxInt64 -> 0 <= r -> quotaAvailable l u r = Z.max 0 (l - u - r).
Proof.
  intros Hl Hu Hr. unfold quotaAvailable. case_goal; b2p; [lia|].
  rewrite !(int64_id (l - u)) by (int_unfold; lia).
  case_goal; b2p; [lia|]. rewrite int64_id by (int_unfold; lia). lia.
Qed.

Lemma counters_default m k : counters_ok m -> 0 <= default 0 (m !! k) <= maxInt64.
Proof. intros H. destruct (m !! k) eqn:E; simpl; [apply H in E; lia|int_unfold; lia]. Qed.

Lemma subtract_counters t m :
  counters_ok t -> counters_ok m -> counters_ok (subtractReserved t m).
Proof.
  intros Ht Hm k v. unfold subtractReserved. rewrite range_update_lookup.
  destruct (m !! k) as [b|] eqn:Eb; [|apply Ht].
  pose proof (int64_range (default 0 (t !! k) - b)). int_unfold.
  case_goal; intros; simplify_eq; b2p. lia.
Qed.

Lemma subtract_lookup t m k :
  counters_ok t -> counters_ok m -> default 0 (m !! k) <= default 0 (t !! k) ->
  default 0 (subtractReserved t m !! k) = default 0 (t !! k) - default 0 (m !! k).
Proof.
  intros Ht Hm Hle. unfold subtractReserved. rewrite range_update_lookup.
  pose proof (counters_default t k Ht). pose proof (counters_default m k Hm).
  destruct (m !! k) as [b|] eqn:Eb; simpl in *; [|lia].
  rewrite int64_id by (int_unfold; lia). case_goal; simpl; b2p; lia.
Qed.

Lemma add_spec co pending :
  counters_ok (reserved co) -> counters_ok pending ->
  reservationOverflow (reserved co) pending = false ->
  counters_ok (reserved (addLocked co pending)) /\
  forall k, default 0 (reserved (addLocked co pending) !! k) =
            default 0 (reserved co !! k) + default 0 (pending !! k).
Proof.
  intros Ht Hp Hov.
  assert (Hb : forall k v, pending !! k = Some v -> default 0 (reserved co !! k) + v <= maxInt64).
  { intros k v Hk. unfold reservationOverflow in Hov.
    assert ((int64 (maxInt64 - v) <? default 0 (reserved co !! k)) = false).
    { apply not_true_iff_false. intros Ht'. apply not_true_iff_false in Hov. apply Hov.
      apply existsb_exists. exists (k, v). split; [|done].
      by apply list_elem_of_In, elem_of_map_to_list. }
    b2p. apply Hp in Hk. rewrite int64_id in * by (int_unfold; lia). lia. }
  assert (Hl : forall k v, pending !! k = Some v ->
    int64 (default 0 (reserved co !! k) + v) = default 0 (reserved co !! k) + v).
  { intros k v Hk. apply int64_id. pose proof (counters_default _ k Ht).
    pose proof (Hb _ _ Hk). apply Hp in Hk. int_unfold. lia. }
  split.
  - intros k v. simpl. rewrite range_update_lookup. destruct (pending !! k) eqn:Ek; [|apply Ht].
    rewrite (Hl _ _ Ek). intros [= <-].
    pose proof (counters_default _ k Ht). pose proof (Hb _ _ Ek). apply Hp in Ek. lia.
  - intros k. simpl. rewrite range_update_lookup. destruct (pending !! k) eqn:Ek; simpl; [|lia].
    by rewrite (Hl _ _ Ek).
Qed.

(** ** Lemmas: admission *)

(** What the merge loop knows after the claims [done]. *)
Record merged (done : list Claim) (agg : gmap string aggregateClaim) (keys : list string) : Prop := {
  mg_dom : forall k, k ∈ keys <-> is_Some (agg !! k);
  mg_claim : forall c, c ∈ done -> Key c <> "" /\ is_Some (agg !! Key c);
  mg_some : forall k a, agg !! k = Some a ->
    requiredBytes a = required_for done k /\
    0 <= requiredBytes a <= maxInt64 /\ 0 <= usedBytes a <= maxInt64 /\ 0 <= limitBytes a <= maxInt64;
  mg_bounds : forall k a c, agg !! k = Some a -> c ∈ done -> Key c = k ->
    nonNegative (UsedBytes c) <= usedBytes a /\ limitBytes a <= nonNegative (LimitBytes c);
}.

Lemma required_for_app l1 l2 k : required_for (l1 ++ l2) k = required_for l1 k + required_for l2 k.
Proof. induction l1; simpl; [done|]. case_goal; lia. Qed.

Lemma required_for_absent l k : (forall c, c ∈ l -> Key c <> k) -> required_for l k = 0.
Proof.
  induction l as [|c l IH]; intros H; simpl; [done|].
  destruct (String.eqb (Key c) k) eqn:E; b2p.
  - destruct (H c); [left|done].
  - apply IH. intros c' Hc'. apply H. by right.
Qed.

(** One iteration of the merge loop keeps [merged]. *)
Lemma merged_insert done agg keys keys' c a :
  merged done agg keys -> claim_typed c -> Key c <> "" ->
  (forall k, k ∈ keys' <-> k = Key c \/ k ∈ keys) ->
  requiredBytes a = default 0 (requiredBytes <$> agg !! Key c) + nonNegative (RequiredBytes c) ->
  requiredBytes a <= maxInt64 -> 0 <= usedBytes a <= maxInt64 -> 0 <= limitBytes a <= maxInt64 ->
  nonNegative (UsedBytes c) <= usedBytes a -> limitBytes a <= nonNegative (LimitBytes c) ->
  (forall b, agg !! Key c = Some b -> usedBytes b <= usedBytes a /\ limitBytes a <= limitBytes b) ->
  merged (done ++ [c]) (<[Key c := a]> agg) keys'.
Proof.
  intros [Hd Hc Hs Hb] (Tu & Tl & Tr) Hne Hk Hreq Hmax Hu Hl Hcu Hcl Hold.
  pose proof (nonNegative_range _ Tr).
  split.
  - intros k. rewrite Hk, Hd. destruct (decide (k = Key c)) as [->|].
    + rewrite lookup_insert_eq. naive_solver.
    + rewrite lookup_insert_ne by done. naive_solver.
  - intros c' [Hc'|Hc'%list_elem_of_singleton]%elem_of_app.
    + destruct (Hc c' Hc') as [? ?]. split; [done|].
      destruct (decide (Key c = Key c')) as [->|]; simplify_map_eq; eauto.
    + subst. simplify_map_eq. eauto.
  - intros k b Hkb. rewrite required_for_app. simpl.
    destruct (decide (Key c = k)) as [<-|Hn].
    + rewrite lookup_insert_eq in Hkb. simplify_eq. rewrite String.eqb_refl.
      destruct (agg !! Key c) as [b0|] eqn:E; simpl in Hreq.
      * specialize (Hs _ _ E). lia.
      * rewrite required_for_absent; [lia|].
        intros c' Hc' Heq. destruct (Hc c' Hc') as [_ [? Hx]]. congruence.
    + rewrite lookup_insert_ne in Hkb by done. apply String.eqb_neq in Hn. rewrite Hn.
      specialize (Hs _ _ Hkb). lia.
  - intros k b c' Hkb [Hc'|Hc'%list_elem_of_singleton]%elem_of_app Hkey.
    + destruct (decide (Key c = k)) as [Heq|Hn].
      * rewrite Heq, lookup_insert_eq in Hkb. simplify_eq.
        destruct (Hc c' Hc') as [_ [b0 Hb0]]. rewrite <-Heq in Hb0. rewrite Heq in Hb0 at 1.
        destruct (Hb _ _ c' Hb0 Hc') as [? ?]; [done|]. 
        destruct (Hold b0); [congruence|]. lia.
      * rewrite lookup_insert_ne in Hkb by done. eauto.
    + subst. rewrite lookup_insert_eq in Hkb. simplify_eq. lia.
Qed.

Lemma merged_empty : merged [] ∅ [].
Proof.
  split; intros *; rewrite ?lookup_empty; try done.
  - split; [by intros ?%elem_of_nil|by intros [? ?]].
  - by intros ?%elem_of_nil.
Qed.

Lemma aggregateClaims_spec claims done index agg keys agg' keys' :
  Forall claim_typed claims -> merged done agg keys ->
  aggregateClaims index claims agg keys = Ok (agg', keys') -> merged (done ++ claims) agg' keys'.
Proof.
  revert done index agg keys.
  induction claims as [|c claims IH]; intros done index agg keys Ht Hm H; simpl in H.
  - simplify_eq. by rewrite app_nil_r.
  - inversion Ht as [|? ? Hc Ht']; subst. destruct Hc as (Tu & Tl & Tr).
    pose proof (nonNegative_range _ Tu). pose proof (nonNegative_range _ Tl).
    pose proof (nonNegative_range _ Tr).
    destruct (String.eqb (Key c) "") eqn:Ek; [done|]. b2p.
    rewrite cons_middle, app_assoc.
    destruct (agg !! Key c) as [a|] eqn:Ea.
    + destruct (mg_some _ _ _ Hm _ _ Ea) as (_ & ? & ? & ?).
      case_in H. b2p. rewrite int64_id in * by (int_unfold; lia).
      eapply IH; [done| |exact H].
      eapply (merged_insert done); simpl; try done; rewrite ?Ea; simpl;
        try (case_goal; b2p; lia).
      * intros k. split; [by right|intros [->|?]; [|done]]. apply (mg_dom _ _ _ Hm). eauto.
      * apply int64_id. int_unfold. lia.
      * rewrite int64_id; int_unfold; lia.
      * intros b [= <-]. split; case_goal; b2p; lia.
    + eapply IH; [done| |exact H].
      eapply (merged_insert done); simpl; try done; rewrite ?Ea; simpl; try lia; try (by intros ? [=]).
      intros k. rewrite elem_of_app, list_elem_of_singleton. tauto.
Qed.

Lemma admitKeys_spec view agg keys pending pending' :
  (forall k a, agg !! k = Some a -> 0 <= requiredBytes a) ->
  admitKeys view agg keys pending = Ok pending' ->
  forall k,
    (k ∉ keys -> pending' !! k = pending !! k) /\
    (forall a, k ∈ keys -> agg !! k = Some a ->
       requiredBytes a <= quotaAvailable (limitBytes a) (usedBytes a) (nonNegative (default 0 (view !! k))) /\
       (pending !! k = None \/ pending !! k = Some (requiredBytes a) ->
        default 0 (pending' !! k) = requiredBytes a /\ (forall v, pending' !! k = Some v -> 0 < v \/ pending !! k = Some v))).
Proof.
  intros Hpos. revert pending. induction keys as [|key keys IH]; intros pending H k; simpl in H.
  - simplify_eq. split; [done|]. by intros a ?%elem_of_nil.
  - destruct (agg !! key) as [a|] eqn:Ea; cycle 1.
    { destruct (IH _ H k) as [H1 H2]. split.
      - intros Hn. apply H1. by intros ?; apply Hn; right.
      - intros a Hin Ha. apply list_elem_of_In in Hin as [->|Hin%list_elem_of_In]; [congruence|].
        by apply H2. }
    case_in H. b2p. destruct (IH _ H k) as [H1 H2]. split.
    + intros [Hn1 Hn2]%not_elem_of_cons. rewrite H1 by done. case_goal; [|done].
      by rewrite lookup_insert_ne.
    + intros a' Hin Ha'.
      destruct (decide (k = key)) as [->|Hne]; cycle 1.
      { apply elem_of_cons in Hin as [?|Hin]; [done|].
        destruct (H2 a' Hin Ha') as [? H3]. split; [done|].
        assert (Hsame : (if 0 <? requiredBytes a then <[key:=requiredBytes a]> pending else pending) !! k = pending !! k)
          by (case_goal; [by rewrite lookup_insert_ne|done]).
        rewrite Hsame in H3. exact H3. }
      rewrite Ea in Ha'. simplify_eq. split; [done|]. intros Hold.
      pose proof (Hpos _ _ Ea).
      destruct (decide (key ∈ keys)) as [Hin'|Hnin].
      * destruct (H2 a' Hin' Ea) as [_ H3].
        case_in H; simpl in H3; b2p.
        -- rewrite lookup_insert_eq in H3. destruct H3 as [? H4]; [by right|]. split; [done|].
           intros v Hv. destruct (H4 v Hv) as [|Heq]; [by left|]. left. simplify_eq. done.
        -- destruct H3 as [? H4]; [done|]. done.
      * rewrite (H1 Hnin). case_goal; b2p.
        -- rewrite lookup_insert_eq. split; [done|]. intros v [= <-]. by left.
        -- split; [destruct Hold as [->| ->]; simpl; lia|]. intros v Hv. by right.
Qed.

Definition view_of (co : Coordinator) (replaced : option Reservation) : View :=
  match replaced with
  | Some r => subtractReserved (reserved co) (res_bytes r)
  | None => reserved co
  end.

Lemma prepareLocked_spec co cerr replaced prepare pending :
  prepare_typed prepare -> prepareLocked co cerr replaced prepare = Ok pending ->
  exists claims, prepare (view_of co replaced) = Ok claims /\ cerr = None /\
    reservationOverflow (view_of co replaced) pending = false /\ counters_ok pending /\
    (forall k, default 0 (pending !! k) = required_for claims k) /\
    (forall c, c ∈ claims -> Key c <> "" /\
       (0 < required_for claims (Key c) ->
        nonNegative (UsedBytes c) + nonNegative (default 0 (view_of co replaced !! Key c)) +
        required_for claims (Key c) <= nonNegative (LimitBytes c))).
Proof.
  intros Ht H. unfold prepareLocked in H. fold (view_of co replaced) in H.
  set (view := view_of co replaced) in *.
  destruct (prepare view) as [claims|] eqn:Ep; [|done]. destruct cerr; [done|].
  destruct (aggregateClaims 0 claims ∅ []) as [[agg keys]|] eqn:Ea; [|done].
  destruct (admitKeys view agg keys ∅) as [p|] eqn:Ek; [|done].
  destruct (reservationOverflow view p) eqn:Eo; [done|]. simplify_eq.
  pose proof (aggregateClaims_spec claims [] 0 ∅ [] agg keys (Ht _ _ Ep) merged_empty Ea) as Hm.
  simpl in Hm. destruct Hm as [Hd Hc Hs Hb].
  assert (Hspec : forall k, default 0 (pending !! k) = required_for claims k /\
      (forall v, pending !! k = Some v -> 0 < v) /\
      (forall a, agg !! k = Some a -> requiredBytes a <=
         quotaAvailable (limitBytes a) (usedBytes a) (nonNegative (default 0 (view !! k))))).
  { intros k. edestruct (admitKeys_spec view agg keys ∅ pending) with (k := k) as [H1 H2]; [|done|].
    { intros k' a Ha. apply Hs in Ha. lia. }
    destruct (agg !! k) as [a|] eqn:Eak.
    - assert (k ∈ keys) as Hin by (apply Hd; eauto).
      destruct (H2 a Hin eq_refl) as [H3 H4]. destruct H4 as [H4 H5]; [by left|].
      destruct (Hs _ _ Eak) as (Hr & _). split; [congruence|]. split; [|by intros a' [= <-]].
      intros v Hv. by destruct (H5 v Hv) as [|[=]].
    - assert (k ∉ keys) as Hin by (rewrite Hd, Eak; by intros [? [=]]).
      rewrite (H1 Hin), lookup_empty. split; [|split; [by intros ? [=]|by intros ? [=]]].
      simpl. rewrite required_for_absent; [done|].
      intros c Hcin <-. destruct (Hc c Hcin) as [_ [? ?]]. congruence. }
  assert (Hcounters : counters_ok pending).
  { intros k v Hv. destruct (Hspec k) as (Hreq & Hpos & _). split; [by apply Hpos|].
    rewrite Hv in Hreq. simpl in Hreq. subst v.
    destruct (agg !! k) as [a|] eqn:Eak; [destruct (Hs _ _ Eak) as (<- & ? & _); lia|].
    rewrite required_for_absent; [int_unfold; lia|].
    intros c Hcin <-. destruct (Hc c Hcin) as [_ [? ?]]. congruence. }
  exists claims. split_and!; [done..| |].
  { intros k. apply Hspec. }
  intros c Hcin. destruct (Hc c Hcin) as [Hne [a Ha]]. split; [done|]. intros Hpos.
  destruct (Hspec (Key c)) as (_ & _ & Havail). specialize (Havail a Ha).
  destruct (Hs _ _ Ha) as (Hr & ? & ? & ?). destruct (Hb _ _ c Ha Hcin eq_refl).
  assert (0 <= nonNegative (default 0 (view !! Key c))).
  { unfold nonNegative. case_goal; b2p; lia. }
  rewrite quotaAvailable_spec in Havail by lia. lia.
Qed.

(** ** Lemmas: the world *)

Lemma held_nonneg c k r : counters_ok (res_bytes r) -> 0 <= held c k r.
Proof. intros H. unfold held. case_goal; [|lia]. pose proof (counters_default _ k H). lia. Qed.

Lemma active_nonneg c l : 0 <= active c l.
Proof. unfold active. case_goal; lia. Qed.

(** Changing one coordinator's counters together with one reservation. *)
Lemma world_ok_account w c co co' r re' :
  world_ok w -> coordinators w !! c = Some co -> mutationGate co' = mutationGate co ->
  counters_ok (reserved co') -> counters_ok (res_bytes re') -> res_coordinator re' = c ->
  (forall re, reservations w !! r = Some re -> res_coordinator re = c) ->
  (forall k, default 0 (reserved co' !! k) =
     default 0 (reserved co !! k) - default 0 (held c k <$> reservations w !! r) + held c k re') ->
  world_ok (set_reservation (set_coordinator w c co') r re').
Proof.
  intros [Hsum Hcnt Hby Hgate Hrr Hlr] Hc Hg Hc' Hre' Hrc Hown Heq.
  split; simpl.
  - intros c0 co0 k Hc0.
    assert (Hs : sum_map (held c0 k) (<[r:=re']> (reservations w)) =
      sum_map (held c0 k) (reservations w) - default 0 (held c0 k <$> reservations w !! r) + held c0 k re').
    { destruct (reservations w !! r) as [re|] eqn:Er; simpl.
      - by apply sum_map_replace.
      - rewrite sum_map_insert by done. lia. }
    rewrite Hs. destruct (decide (c = c0)) as [<-|Hne].
    + rewrite lookup_insert_eq in Hc0. simplify_eq. rewrite Heq, (Hsum _ _ _ Hc). lia.
    + rewrite lookup_insert_ne in Hc0 by done. rewrite (Hsum _ _ _ Hc0).
      assert (Hz : forall x, res_coordinator x = c -> held c0 k x = 0).
      { intros x Hx. unfold held. rewrite Hx. apply Nat.eqb_neq in Hne. by rewrite Hne. }
      rewrite (Hz re') by done. destruct (reservations w !! r) as [re|] eqn:Er; simpl; [|lia].
      rewrite (Hz re) by eauto. lia.
  - intros c0 co0 Hc0. destruct (decide (c = c0)) as [<-|Hne]; simplify_map_eq; eauto.
  - intros r0 re0 Hr0. destruct (decide (r = r0)) as [<-|Hne]; simplify_map_eq; eauto.
  - intros c0 co0 Hc0. destruct (decide (c = c0)) as [<-|Hne]; simplify_map_eq; eauto.
    rewrite Hg. eauto.
  - intros r0 re0 Hr0. apply lookup_insert_is_Some'.
    destruct (decide (r = r0)) as [<-|Hne]; simplify_map_eq; eauto.
  - intros l le Hl. apply lookup_insert_is_Some'. eauto.
Qed.

(** Changing one coordinator's gate together with one lease. *)
Lemma world_ok_gate w c co (b : bool) l le' :
  world_ok w -> coordinators w !! c = Some co -> lease_coordinator le' = c ->
  (forall le, leases w !! l = Some le -> lease_coordinator le = c) ->
  (if b then 1 else 0) + active c le' - default 0 (active c <$> leases w !! l) =
    (if mutationGate co then 1 else 0) ->
  world_ok (set_gate (set_lease w l le') c b).
Proof.
  intros [Hsum Hcnt Hby Hgate Hrr Hlr] Hc Hlc Hown Heq.
  unfold set_gate. simpl. rewrite Hc. split; simpl.
  - intros c0 co0 k Hc0. destruct (decide (c = c0)) as [<-|Hne]; simplify_map_eq; eauto.
  - intros c0 co0 Hc0. destruct (decide (c = c0)) as [<-|Hne]; simplify_map_eq; eauto.
  - eauto.
  - intros c0 co0 Hc0.
    assert (Hs : sum_map (active c0) (<[l:=le']> (leases w)) =
      sum_map (active c0) (leases w) - default 0 (active c0 <$> leases w !! l) + active c0 le').
    { destruct (leases w !! l) as [le|] eqn:El; simpl.
      - by apply sum_map_replace.
      - rewrite sum_map_insert by done. lia. }
    rewrite Hs. destruct (decide (c = c0)) as [<-|Hne].
    + rewrite lookup_insert_eq in Hc0. simplify_eq. simpl. specialize (Hgate _ _ Hc). lia.
    + rewrite lookup_insert_ne in Hc0 by done. specialize (Hgate _ _ Hc0).
      assert (Hz : forall x, lease_coordinator x = c -> active c0 x = 0).
      { intros x Hx. unfold active. rewrite Hx. apply Nat.eqb_neq in Hne. by rewrite Hne. }
      rewrite (Hz le') by done. destruct (leases w !! l) as [le|] eqn:El; simpl; [|lia].
      rewrite (Hz le) by eauto. lia.
  - intros r re Hr. apply lookup_insert_is_Some'. eauto.
  - intros l0 le0 Hl0. apply lookup_insert_is_Some'.
    destruct (decide (l = l0)) as [<-|Hne]; simplify_map_eq; eauto.
Qed.

Lemma set_gate_lease_comm w c b l le : set_lease (set_gate w c b) l le = set_gate (set_lease w l le) c b.
Proof. unfold set_gate. simpl. by destruct (coordinators w !! c). Qed.

Lemma set_gate_twice w c co :
  coordinators w !! c = Some co -> mutationGate co = true -> set_gate (set_gate w c false) c true = w.
Proof.
  intros Hc Hg. unfold set_gate. rewrite Hc. simpl. rewrite lookup_insert_eq.
  destruct w as [cs rs ls]. unfold set_coordinator. simpl in *. f_equal.
  rewrite insert_insert_eq. apply insert_id. by destruct co; simpl in *; subst.
Qed.

Lemma active_sum_nonneg w c : 0 <= sum_map (active c) (leases w).
Proof. apply sum_map_nonneg. intros. apply active_nonneg. Qed.

Lemma LeaseRelease_ok w l : world_ok w -> world_ok (LeaseRelease w l).
Proof.
  intros Hw. unfold LeaseRelease. destruct (deref (leases w) l) as [[la le]|] eqn:E; [|done].
  apply deref_Some in E as [-> El]. destruct (lease_released le) eqn:Er; [done|].
  destruct (ok_lease_ref _ Hw _ _ El) as [co Hco].
  assert (Ha : active (lease_coordinator le) le = 1) by (unfold active; by rewrite Nat.eqb_refl, Er).
  eapply world_ok_gate; eauto; [intros; by simplify_eq|].
  rewrite El. simpl. rewrite Ha. unfold active at 1. simpl. rewrite andb_false_r.
  pose proof (ok_gate _ Hw _ _ Hco) as Hg. rewrite (sum_map_delete _ _ _ _ El), Ha in Hg.
  pose proof (sum_map_nonneg (active (lease_coordinator le)) (delete la (leases w))
    (fun _ _ _ => active_nonneg _ _)).
  destruct (mutationGate co); lia.
Qed.

Lemma AcquireMutation_ok w c ctx pick w' res :
  world_ok w -> AcquireMutation w c ctx pick = Some (w', res) -> world_ok w'.
Proof.
  intros Hw H. unfold AcquireMutation in H.
  destruct (deref (coordinators w) c) as [[ca co]|] eqn:E; [|by simplify_eq].
  apply deref_Some in E as [-> Hco]. destruct ctx as [ctx|]; [|by simplify_eq].
  destruct (ctx 0%nat); [by simplify_eq|].
  destruct (select_recv _ _ pick) as [[[]|e]|] eqn:Es; [|by simplify_eq|done].
  assert (Hg : mutationGate co = true).
  { unfold select_recv in Es. repeat case_in Es; done. }
  destruct (ctx 2%nat); simplify_eq.
  - by rewrite (set_gate_twice _ _ _ Hco).
  - assert (leases (set_gate w ca false) = leases w) as -> by (unfold set_gate; by rewrite Hco).
    rewrite set_gate_lease_comm. eapply world_ok_gate; eauto.
    + intros le Hle. by rewrite alloc_fresh in Hle.
    + rewrite alloc_fresh, Hg. unfold active. simpl. by rewrite Nat.eqb_refl.
Qed.

Lemma held_self w r re k :
  world_ok w -> reservations w !! r = Some re -> res_released re = false ->
  default 0 (res_bytes re !! k) <=
    sum_map (held (res_coordinator re) k) (reservations w).
Proof.
  intros Hw Hr Hrel.
  assert (Hh : held (res_coordinator re) k re = default 0 (res_bytes re !! k))
    by (unfold held; by rewrite Nat.eqb_refl, Hrel).
  rewrite <-Hh. eapply sum_map_lookup_le; [|done].
  intros r' re' Hr'. apply held_nonneg. by apply (ok_bytes _ Hw r').
Qed.

Lemma reserveUnderMutation_ok w ca co ctx pick prepare w' res :
  world_ok w -> coordinators w !! ca = Some co -> prepare_typed prepare ->
  reserveUnderMutation w ca co ctx pick prepare = (w', res) -> world_ok w'.
Proof.
  intros Hw Hco Ht H. unfold reserveUnderMutation in H.
  destruct (lock _ pick); [|by simplify_eq]. destruct (ctx 1%nat); [by simplify_eq|].
  destruct (prepareLocked co _ None prepare) as [pending|] eqn:Ep; [|by simplify_eq]. simplify_eq.
  apply prepareLocked_spec in Ep as (claims & _ & _ & Hov & Hcnt & _); [|done].
  destruct (add_spec co pending) as [Hc Hsum]; [by eapply ok_counters|done|done|].
  eapply world_ok_account; eauto.
  - intros re Hre. by rewrite alloc_fresh in Hre.
  - intros k. rewrite Hsum, alloc_fresh. unfold held. simpl. rewrite Nat.eqb_refl. simpl. lia.
Qed.

Lemma lease_reserve_ok w l ctx pick prepare w' res :
  world_ok w -> prepare_typed prepare ->
  lease_reserve w l ctx pick (Some prepare) = (w', res) -> world_ok w'.
Proof.
  intros Hw Ht H. unfold lease_reserve in H.
  destruct (deref (leases w) l) as [[la le]|]; [|by simplify_eq].
  destruct ctx; [|by simplify_eq]. destruct (lease_released le); [by simplify_eq|].
  destruct (coordinators w !! lease_coordinator le) eqn:E; [|by simplify_eq].
  by eapply reserveUnderMutation_ok.
Qed.

Lemma Reserve_ok w c ctx pick pick' prepare w' res :
  world_ok w -> prepare_typed prepare ->
  Reserve w c ctx pick pick' (Some prepare) = Some (w', res) -> world_ok w'.
Proof.
  intros Hw Ht H. unfold Reserve in H.
  destruct (deref (coordinators w) c); [|by simplify_eq]. destruct ctx as [ctx|]; [|by simplify_eq].
  destruct (ctx 0%nat); [by simplify_eq|].
  destruct (AcquireMutation w c _ pick) as [[w1 [l|e]]|] eqn:Ea; [| |done].
  - destruct (lease_reserve w1 _ _ pick' _) as [w2 r2] eqn:El. simplify_eq.
    apply LeaseRelease_ok. eapply lease_reserve_ok; [|done|done]. by eapply AcquireMutation_ok.
  - simplify_eq. by eapply AcquireMutation_ok.
Qed.

Lemma Release_ok w r : world_ok w -> world_ok (Release w r).
Proof.
  intros Hw. unfold Release. destruct (deref (reservations w) r) as [[ra re]|] eqn:E; [|done].
  apply deref_Some in E as [-> Er]. destruct (coordinators w !! res_coordinator re) as [co|] eqn:Eco; [|done].
  destruct (res_released re) eqn:Erel; [done|].
  pose proof (ok_counters _ Hw _ _ Eco). pose proof (ok_bytes _ Hw _ _ Er).
  eapply world_ok_account; eauto; simpl.
  - by apply subtract_counters.
  - intros k v. by rewrite lookup_empty.
  - intros. by simplify_eq.
  - intros k. rewrite subtract_lookup; [|done..|].
    + rewrite Er. unfold held. simpl. rewrite Nat.eqb_refl, Erel. simpl. lia.
    + rewrite (ok_sum _ Hw _ _ k Eco). by eapply held_self.
Qed.

Lemma Refresh_ok w l ctx pick r prepare w' res :
  world_ok w -> prepare_typed prepare ->
  Refresh w l ctx pick r (Some prepare) = (w', res) -> world_ok w'.
Proof.
  intros Hw Ht H. unfold Refresh in H.
  destruct (deref (leases w) l) as [[la le]|]; [|by simplify_eq].
  destruct ctx as [ctx|]; [|by simplify_eq].
  destruct (deref (reservations w) r) as [[ra re]|] eqn:E; [|by simplify_eq].
  apply deref_Some in E as [-> Er].
  destruct (Nat.eqb _ _) eqn:Ec; simpl in H; [|by simplify_eq]. apply Nat.eqb_eq in Ec.
  destruct (lease_released le); [by simplify_eq|].
  destruct (coordinators w !! lease_coordinator le) as [co|] eqn:Eco; [|by simplify_eq].
  unfold refreshUnderMutation in H.
  destruct (lock _ pick); [|by simplify_eq]. destruct (ctx 1%nat); [by simplify_eq|].
  destruct (res_released re) eqn:Erel; [by simplify_eq|].
  destruct (prepareLocked co _ (Some re) prepare) as [pending|] eqn:Ep; [|by simplify_eq]. simplify_eq.
  apply prepareLocked_spec in Ep as (claims & _ & _ & Hov & Hcnt & _); [|done]. simpl in Hov.
  pose proof (ok_counters _ Hw _ _ Eco). pose proof (ok_bytes _ Hw _ _ Er).
  destruct (add_spec (subtractLocked co (res_bytes re)) pending) as [Hc Hsum];
    [by apply subtract_counters|done|done|].
  eapply world_ok_account; eauto.
  - intros. by simplify_eq.
  - intros k. rewrite Hsum. simpl reserved. rewrite subtract_lookup; [|done..|].
    + rewrite Er. unfold held. simpl. rewrite Ec, Nat.eqb_refl, Erel. simpl. lia.
    + rewrite (ok_sum _ Hw _ _ k Eco), <-Ec. by eapply held_self.
Qed.

Lemma new_ok w c : world_ok w -> coordinators w !! c = None -> world_ok (set_coordinator w c NewCoordinator).
Proof.
  intros [Hsum Hcnt Hby Hgate Hrr Hlr] Hc.
  assert (Hz1 : forall k, sum_map (held c k) (reservations w) = 0).
  { intros k. apply sum_map_zero. intros r re Hr. unfold held. destruct (Nat.eqb _ c) eqn:E; [|done]. apply Nat.eqb_eq in E.
    destruct (Hrr _ _ Hr) as [? ?]. congruence. }
  assert (Hz2 : sum_map (active c) (leases w) = 0).
  { apply sum_map_zero. intros r re Hr. unfold active. destruct (Nat.eqb _ c) eqn:E; [|done]. apply Nat.eqb_eq in E.
    destruct (Hlr _ _ Hr) as [? ?]. congruence. }
  split; simpl.
  - intros c0 co0 k Hc0. destruct (decide (c = c0)) as [<-|]; simplify_map_eq; [by rewrite Hz1|eauto].
  - intros c0 co0 Hc0. destruct (decide (c = c0)) as [<-|]; simplify_map_eq; [|eauto].
    intros k v. by rewrite lookup_empty.
  - eauto.
  - intros c0 co0 Hc0. destruct (decide (c = c0)) as [<-|]; simplify_map_eq; [by rewrite Hz2|eauto].
  - intros r re Hr. apply lookup_insert_is_Some'. eauto.
  - intros r re Hr. apply lookup_insert_is_Some'. eauto.
Qed.

#[local] Hint Resolve new_ok Reserve_ok AcquireMutation_ok Refresh_ok Release_ok LeaseRelease_ok : mnemo.

Lemma step_ok w w' : world_ok w -> step w w' -> world_ok w'.
Proof. intros Hw []; eauto with mnemo. Qed.

Lemma empty_ok w : empty_world w -> world_ok w.
Proof. intros ->. split; simpl.
  all: intros * H; by rewrite lookup_empty in H. Qed.

(** ** Properties *)

(** C9: in every state the clients can reach by any interleaving of calls, each coordinator's
    counter of a scope is the sum of the bytes of its live reservations in that scope (so it never
    wraps: every entry is in 1..maxInt64), and the mutation gate holds its token exactly when no
    lease of the coordinator is active, at most one lease being active at a time. *)
Theorem coordinator_accounts_live_reservations w :
  reachable empty_world step w ->
  forall c co, coordinators w !! c = Some co ->
    (forall k, default 0 (reserved co !! k) = sum_map (held c k) (reservations w)) /\
    counters_ok (reserved co) /\
    (if mutationGate co then 1 else 0) + sum_map (active c) (leases w) = 1.
Proof.
  intros Hr c co Hc.
  assert (Hw : world_ok w) 
    by exact (reachable_invariant _ _ _ empty_ok step_ok w Hr).
  split_and!; [intros k; by apply (ok_sum _ Hw)|by eapply ok_counters|by apply (ok_gate _ Hw)].
Qed.

(** C23: an admitted batch fits: if [prepareLocked] returns [pending], then for every scope [pending]
    holds exactly the sum of the (non-negative) bytes the claims require there, and for every claim
    whose scope needs bytes, its usage, the outstanding reservations (less the replaced one) and
    the batch's bytes together stay within its limit, without any [int64] overflow. *)
Theorem admitted_batch_fits co replaced prepare pending :
  prepare_typed prepare ->
  prepareLocked co None replaced prepare = Ok pending ->
  exists claims, prepare (view_of co replaced) = Ok claims /\ counters_ok pending /\
    (forall k, default 0 (pending !! k) = required_for claims k) /\
    (forall c, c ∈ claims -> 0 < required_for claims (Key c) ->
       nonNegative (UsedBytes c) + ReservedBytes (view_of co replaced) (Key c) +
       required_for claims (Key c) <= nonNegative (LimitBytes c)).
Proof.
  intros Ht H. apply prepareLocked_spec in H as (claims & ? & _ & _ & ? & ? & Hc); [|done].
  exists claims. split_and!; [done..|]. intros c Hin Hpos. by apply Hc.
Qed.

Lemma counters_ext m1 m2 :
  counters_ok m1 -> counters_ok m2 -> (forall k, default 0 (m1 !! k) = default 0 (m2 !! k)) -> m1 = m2.
Proof.
  intros H1 H2 Heq. apply map_eq. intros k. specialize (Heq k).
  destruct (m1 !! k) eqn:E1, (m2 !! k) eqn:E2; simpl in Heq; try done; [congruence| |].
  - apply H1 in E1. lia.
  - apply H2 in E2. lia.
Qed.

Lemma LeaseRelease_frame w l :
  reservations (LeaseRelease w l) = reservations w /\
  forall c, reserved <$> coordinators (LeaseRelease w l) !! c = reserved <$> coordinators w !! c.
Proof.
  unfold LeaseRelease. destruct (deref (leases w) l) as [[la le]|]; [|done].
  destruct (lease_released le); [done|]. unfold set_gate. simpl.
  destruct (coordinators w !! lease_coordinator le) as [co|] eqn:E; [|done]. simpl. split; [done|].
  intros c. destruct (decide (lease_coordinator le = c)) as [<-|]; [by rewrite lookup_insert_eq, E|].
  by rewrite lookup_insert_ne.
Qed.

Lemma AcquireMutation_frame w c ctx pick w' res :
  AcquireMutation w c ctx pick = Some (w', res) ->
  reservations w' = reservations w /\
  forall c, reserved <$> coordinators w' !! c = reserved <$> coordinators w !! c.
Proof.
  assert (Hset : forall u d b, reservations (set_gate u d b) = reservations u /\
    forall c, reserved <$> coordinators (set_gate u d b) !! c = reserved <$> coordinators u !! c).
  { intros u d b. unfold set_gate. destruct (coordinators u !! d) eqn:E; [|done]. simpl. split; [done|].
    intros x. destruct (decide (d = x)) as [<-|]; [by rewrite lookup_insert_eq, E|].
    by rewrite lookup_insert_ne. }
  intros H. unfold AcquireMutation in H.
  destruct (deref (coordinators w) c) as [[ca co]|]; [|by simplify_eq].
  destruct ctx as [ctx|]; [|by simplify_eq]. destruct (ctx 0%nat); [by simplify_eq|].
  destruct (select_recv _ _ pick) as [[[]|e]|]; [|by simplify_eq|done].
  destruct (ctx 2%nat); simplify_eq.
  - destruct (Hset (set_gate w ca false) ca true) as [-> H1].
    destruct (Hset w ca false) as [-> H2]. split; [done|]. intros x. by rewrite H1, H2.
  - by destruct (Hset w ca false).
Qed.

(** What a [Reserve] call did: nothing to the accounting, or one admitted reservation. *)
Lemma Reserve_inv w c ctx pick pick' prepare w' res :
  Reserve w c ctx pick pick' prepare = Some (w', res) ->
  match res with
  | Err _ => reservations w' = reservations w /\
             forall x, reserved <$> coordinators w' !! x = reserved <$> coordinators w !! x
  | Ok r => exists ca co pending, c = Some ca /\ coordinators w !! ca = Some co /\
      r = alloc (reservations w) /\
      reservations w' = <[r := {| res_coordinator := ca; res_bytes := pending; res_released := false |}]> (reservations w) /\
      forall x, reserved <$> coordinators w' !! x =
        if decide (x = ca) then Some (reserved (addLocked co pending)) else reserved <$> coordinators w !! x
  end.
Proof.
  intros H. unfold Reserve in H.
  destruct (deref (coordinators w) c) as [[ca0 co0]|] eqn:Ec; [|by simplify_eq].
  apply deref_Some in Ec as [-> Hco0].
  destruct ctx as [ctx|]; [|by simplify_eq]. destruct prepare as [prepare|]; [|by simplify_eq].
  destruct (ctx 0%nat); [by simplify_eq|].
  destruct (AcquireMutation w _ _ pick) as [[w1 [l|e]]|] eqn:Ea; [| |done]; cycle 1.
  { simplify_eq. by eapply AcquireMutation_frame. }
  pose proof (AcquireMutation_frame _ _ _ _ _ _ Ea) as [Hr1 Hc1].
  assert (Hl1 : lease_coordinator <$> leases w1 !! l = Some ca0).
  { unfold AcquireMutation in Ea. simpl in Ea. rewrite Hco0 in Ea. repeat case_in Ea; simplify_eq.
    all: simpl; by rewrite lookup_insert_eq. }
  destruct (lease_reserve w1 _ _ pick' _) as [w2 r2] eqn:El. simplify_eq.
  destruct (LeaseRelease_frame w2 (Some l)) as [Hr3 Hc3].
  assert (Hid : (w2, res) = (w1, res) -> match res with Err _ => True | Ok _ => False end ->
    reservations (LeaseRelease w2 (Some l)) = reservations w /\
    forall x, reserved <$> coordinators (LeaseRelease w2 (Some l)) !! x = reserved <$> coordinators w !! x).
  { intros [= ->] _. rewrite Hr3. split; [done|]. intros x. by rewrite Hc3. }
  unfold lease_reserve in El. simpl in El.
  destruct (leases w1 !! l) as [le|] eqn:Ele; [|done]. simpl in Hl1. simplify_eq.
  destruct (lease_released le); [simplify_eq; by apply Hid|].
  destruct (coordinators w1 !! lease_coordinator le) as [co|] eqn:Eco; [|simplify_eq; by apply Hid].
  unfold reserveUnderMutation in El.
  destruct (lock _ pick'); [|simplify_eq; by apply Hid].
  destruct (later 4 ctx 1%nat); [simplify_eq; by apply Hid|].
  destruct (prepareLocked co _ None prepare) as [pending|]; [|simplify_eq; by apply Hid].
  simplify_eq. simpl in Hr3, Hc3. rewrite Hr1 in Hr3, Hc3.
  pose proof (Hc1 (lease_coordinator le)) as Hc1'. rewrite Eco, Hco0 in Hc1'. injection Hc1' as Hc1'.
  exists (lease_coordinator le), co0, pending.
  rewrite Hr1. split_and!; [done..|]. intros x. rewrite Hc3. destruct (decide (x = lease_coordinator le)) as [->|].
  - rewrite lookup_insert_eq. simpl. by rewrite Hc1'.
  - by rewrite lookup_insert_ne, Hc1.
Qed.

(** A reservation is returned in full: releasing a reservation that [Reserve] admitted puts
    every coordinator's counters back to what they were, and releasing it again changes nothing;
    a [Reserve] that fails leaves counters and reservations as they were. *)
Theorem reserve_release_roundtrip w c ctx pick pick' prepare w' res :
  world_ok w -> prepare_typed prepare ->
  Reserve w c ctx pick pick' (Some prepare) = Some (w', res) ->
  match res with
  | Err _ => reservations w' = reservations w /\
             forall x, reserved <$> coordinators w' !! x = reserved <$> coordinators w !! x
  | Ok r => (forall x, reserved <$> coordinators (Release w' (Some r)) !! x = reserved <$> coordinators w !! x) /\
            Release (Release w' (Some r)) (Some r) = Release w' (Some r)
  end.
Proof.
  intros Hw Ht H. pose proof (Reserve_ok _ _ _ _ _ _ _ _ Hw Ht H) as Hw'.
  apply Reserve_inv in H. destruct res as [r|e]; [|done].
  destruct H as (ca & co & pending & -> & Hco & -> & Hr & Hc).
  pose proof (Hc ca) as Hca. rewrite decide_True in Hca by done.
  destruct (coordinators w' !! ca) as [co'|] eqn:Eco'; [|done]. injection Hca as Hca.
  set (r := alloc (reservations w)) in *.
  assert (Er : deref (reservations w') (Some r) =
    Some (r, {| res_coordinator := ca; res_bytes := pending; res_released := false |})).
  { simpl. by rewrite Hr, lookup_insert_eq. }
  assert (Hrel : Release w' (Some r) = set_reservation (set_coordinator w' ca (subtractLocked co' pending)) r
      {| res_coordinator := ca; res_bytes := ∅; res_released := true |}).
  { unfold Release. rewrite Er. simpl. by rewrite Eco'. }
  split; cycle 1.
  { rewrite Hrel. unfold Release. simpl. rewrite !lookup_insert_eq. simpl. done. }
  pose proof (Release_ok _ (Some r) Hw') as Hw2. rewrite Hrel in Hw2 |- *. intros x. simpl.
  destruct (decide (ca = x)) as [<-|]; cycle 1.
  { rewrite lookup_insert_ne by done. rewrite Hc. by rewrite decide_False. }
  rewrite lookup_insert_eq, Hco. simpl. f_equal.
  assert (Hcnt : counters_ok (subtractReserved (reserved co') pending)).
  { apply (ok_counters _ Hw2 ca (subtractLocked co' pending)). simpl. apply lookup_insert_eq. }
  apply counters_ext; [done|by apply (ok_counters _ Hw ca)|].
  intros k. pose proof (ok_sum _ Hw2 ca (subtractLocked co' pending) k) as Hs. simpl in Hs.
  rewrite Hs by apply lookup_insert_eq. rewrite (ok_sum _ Hw ca co k Hco).
  rewrite Hr, insert_insert_eq, sum_map_insert by apply alloc_fresh.
  unfold held at 1. simpl. by rewrite andb_false_r.
Qed.

(** ** Witnesses *)

(** A callback that asks for 40 of 100 bytes in two claims, 25 being used. *)
Definition example_prepare : PrepareFunc := fun _ =>
  Ok [{| Key := "user"; UsedBytes := 25; LimitBytes := 100; RequiredBytes := 30 |};
      {| Key := "user"; UsedBytes := 20; LimitBytes := 120; RequiredBytes := 10 |}].

Definition example_w0 : World :=
  set_coordinator {| coordinators := ∅; reservations := ∅; leases := ∅ |} 0 NewCoordinator.

Lemma example_prepare_typed : prepare_typed example_prepare.
Proof. intros v claims [= <-]. repeat constructor; simpl; int_unfold; lia. Qed.

Definition example_w1 : World :=
  match Reserve example_w0 (Some O) (Some (fun _ => None)) false false (Some example_prepare) with
  | Some (w, _) => w | None => example_w0
  end.

Lemma example_step : Reserve example_w0 (Some O) (Some (fun _ => None)) false false (Some example_prepare)
  = Some (example_w1, Ok O).
Proof. vm_compute. reflexivity. Qed.

Lemma example_reach0 : reachable empty_world step example_w0.
Proof. eapply reach_step; [by apply reach_init|]. apply step_new. reflexivity. Qed.

Lemma example_reach1 : reachable empty_world step example_w1.
Proof.
  eapply reach_step; [apply example_reach0|].
  eapply step_reserve; [apply example_prepare_typed|apply example_step].
Qed.

Lemma coordinator_accounts_live_reservations_witness :
  reserved <$> coordinators example_w1 !! O = Some {["user" := 40]} /\
  sum_map (held O "user") (reservations example_w1) = 40.
Proof.
  split; [vm_compute; reflexivity|].
  destruct (coordinators example_w1 !! O) as [co|] eqn:E; [|vm_compute in E; discriminate].
  destruct (coordinator_accounts_live_reservations _ example_reach1 O co E) as [H _].
  rewrite <-H. vm_compute in E. injection E as <-. reflexivity.
Defined.

Lemma admitted_batch_fits_witness :
  exists pending, prepareLocked NewCoordinator None None example_prepare = Ok pending /\
    default 0 (pending !! "user") = 40.
Proof.
  assert (H : prepareLocked NewCoordinator None None example_prepare = Ok {["user" := 40]})
    by (vm_compute; reflexivity).
  exists {["user" := 40]}. split; [exact H|].
  destruct (admitted_batch_fits _ _ _ _ example_prepare_typed H) as (claims & Hc & _ & Hreq & _).
  injection Hc as <-. rewrite Hreq. reflexivity.
Defined.

Lemma reserve_release_roundtrip_witness :
  world_ok example_w0 /\
  reserved <$> coordinators (Release example_w1 (Some O)) !! O = Some ∅.
Proof.
  assert (Hw : world_ok example_w0) by (apply new_ok; [by apply empty_ok|reflexivity]).
  split; [exact Hw|].
  destruct (reserve_release_roundtrip _ _ _ _ _ _ _ _ Hw example_prepare_typed example_step) as [H _].
  rewrite H. reflexivity.
Defined.

End Quota.
