(* ===== verification/StagingBudget.v ===== *)
(** * internal/storage/write_staging_budget.go: the write staging budget

    The budget and its reservations by address; every counter is a [uint64] with wrap-around.  The
    statfs callback is an argument of each call.  [Write] is the budget-checking writer in front
    of an arbitrary [io.Writer]. *)

From S2P Require Import Prelude GoStrings GoPath.

Module Staging.

Inductive StagingError :=
| ErrFileTooLarge
| ErrShortWrite
| ErrWriteBusy
| ErrInsufficientStorage (cause : string)
| ErrUnavailable
| ErrReleased
| ErrInconsistent
| ErrOverflow
| ErrNotRegular (name : string)
| ErrIO (cause : string)
| ErrJoin (e1 e2 : StagingError).

Definition maxWriteStagingBytes : Z := 10 * 1024 * 1024 * 1024.

Record writeStagingReservation := {
  reserved : Z;
  pending : Z;
  released : bool;
}.

(** The budget, with the reservations that point to it. *)
Record writeStagingBudget := {
  limit : Z;
  used : Z;
  bpending : Z;
  reservations : gmap nat writeStagingReservation;
}.

Definition newWriteStagingBudget (lim initialUsed : Z) : writeStagingBudget :=
  {| limit := lim; used := if lim <? initialUsed then lim else initialUsed;
     bpending := 0; reservations := ∅ |}.

(** The directory entries as [Lstat] reports them: regular file, size, or the error. *)
Record StagingEntry := { entry_name : string; entry_info : result string (bool * Z) }.

Fixpoint scanEntries (entries : list StagingEntry) (used : Z) : Z * option StagingError :=
  match entries with
  | [] => (used, None)
  | e :: entries' =>
    match entry_info e with
    | Err cause => (used, Some (ErrIO cause))
    | Ok (regular, size) =>
      if negb regular || (size <? 0) then (used, Some (ErrNotRegular (entry_name e)))
      else
        let size := uint64 size in
        if uint64 (maxUint64 - used) <? size then (maxUint64, Some ErrOverflow)
        else scanEntries entries' (uint64 (used + size))
    end
  end.

(** [scanInitialWriteStagingBytes]; [None] is a nil root, [Err] a failing open or readdir. *)
Definition scanInitialWriteStagingBytes (root : option (result string (list StagingEntry)))
    : Z * option StagingError :=
  match root with
  | None => (0, Some ErrUnavailable)
  | Some (Err cause) => (0, Some (ErrIO cause))
  | Some (Ok entries) => scanEntries entries 0
  end.

Definition newReservation (b : writeStagingBudget) : writeStagingBudget * nat :=
  let r := alloc (reservations b) in
  ({| limit := limit b; used := used b; bpending := bpending b;
      reservations := <[r := {| reserved := 0; pending := 0; released := false |}]> (reservations b) |}, r).

Definition update (b : writeStagingBudget) (u p : Z) (r : nat) (x : writeStagingReservation)
    : writeStagingBudget :=
  {| limit := limit b; used := u; bpending := p; reservations := <[r := x]> (reservations b) |}.

(** [reserve]: [available] is the statfs callback ([None] when it is not set), [minFree] the result
    of the minimum-free-space callback (0 when it is not set). *)
Definition reserve (b : writeStagingBudget) (r : ptr) (available : option (result string Z)) (minFree : Z)
    (bytes : Z) : writeStagingBudget * option StagingError :=
  if bytes =? 0 then (b, None)
  else match deref (reservations b) r with
  | None => (b, Some ErrUnavailable)
  | Some (ra, x) =>
    match available with
    | None => (b, Some (ErrInsufficientStorage "available capacity cannot be determined"))
    | Some avail =>
      if released x then (b, Some ErrReleased)
      else match avail with
      | Err cause => (b, Some (ErrInsufficientStorage cause))
      | Ok available =>
        if (uint64 (maxUint64 - used b) <? bytes) || (uint64 (maxUint64 - reserved x) <? bytes) ||
           (uint64 (maxUint64 - bpending b) <? bytes) || (uint64 (maxUint64 - pending x) <? bytes)
        then (b, Some ErrWriteBusy)
        else if limit b <? uint64 (used b + bytes) then (b, Some ErrWriteBusy)
        else
          let requiredPending := uint64 (bpending b + bytes) in
          if (uint64 (maxUint64 - requiredPending) <? minFree) ||
             (available <? uint64 (minFree + requiredPending))
          then (b, Some (ErrInsufficientStorage "minimum free space"))
          else (update b (uint64 (used b + bytes)) (uint64 (bpending b + bytes)) ra
                  {| reserved := uint64 (reserved x + bytes); pending := uint64 (pending x + bytes);
                     released := released x |}, None)
      end
    end
  end.

Definition consume (b : writeStagingBudget) (r : ptr) (bytes : Z) : writeStagingBudget * option StagingError :=
  if bytes =? 0 then (b, None)
  else match deref (reservations b) r with
  | None => (b, Some ErrUnavailable)
  | Some (ra, x) =>
    if released x || (pending x <? bytes) || (bpending b <? bytes) then (b, Some ErrInconsistent)
    else (update b (used b) (uint64 (bpending b - bytes)) ra
            {| reserved := reserved x; pending := uint64 (pending x - bytes); released := released x |}, None)
  end.

Definition trimPending (b : writeStagingBudget) (r : ptr) : writeStagingBudget :=
  match deref (reservations b) r with
  | None => b
  | Some (ra, x) =>
    if released x || (pending x =? 0) then b
    else
      let unused := pending x in
      update b (uint64 (used b - unused)) (uint64 (bpending b - unused)) ra
        {| reserved := uint64 (reserved x - unused); pending := 0; released := released x |}
  end.

Definition release (b : writeStagingBudget) (r : ptr) : writeStagingBudget :=
  match deref (reservations b) r with
  | None => b
  | Some (ra, x) =>
    if released x then b
    else update b (uint64 (used b - reserved x)) (uint64 (bpending b - pending x)) ra
           {| reserved := 0; pending := 0; released := true |}
  end.

Definition resetAfterVerifiedCleanup (b : writeStagingBudget) : writeStagingBudget :=
  {| limit := limit b; used := 0; bpending := 0; reservations := reservations b |}.

(** ** The writer *)

(** The underlying [io.Writer]: bytes written and the error, for the bytes handed to it. *)
Definition Writer : Type := string -> Z * option StagingError.

Record writeStagingBudgetWriter := {
  writer : option Writer;
  reservation : ptr;
  maxBytes : Z;
  written : Z;
}.

Definition set_written (w : writeStagingBudgetWriter) (n : Z) : writeStagingBudgetWriter :=
  {| writer := writer w; reservation := reservation w; maxBytes := maxBytes w; written := n |}.

Section Write.
(** [isWriteStorageCapacityError]: ENOSPC and EDQUOT on Unix, nothing elsewhere. *)
Context (isWriteStorageCapacityError : StagingError -> bool).

Definition mapWriteStorageCapacityError (err : option StagingError) : option StagingError :=
  match err with
  | Some e => if isWriteStorageCapacityError e then Some (ErrJoin (ErrInsufficientStorage "") e) else Some e
  | None => None
  end.

Definition errors_Join (e1 : option StagingError) (e2 : StagingError) : StagingError :=
  match e1 with Some e => ErrJoin e e2 | None => e2 end.

(** [Write(p)]: the budget after the call, the writer, the byte count and the error. *)
Definition Write (b : writeStagingBudget) (w : writeStagingBudgetWriter)
    (available : option (result string Z)) (minFree : Z) (p : string)
    : writeStagingBudget * writeStagingBudgetWriter * Z * option StagingError :=
  if len p =? 0 then (b, w, 0, None)
  else match writer w, deref (reservations b) (reservation w) with
  | None, _ | _, None => (b, w, 0, Some ErrUnavailable)
  | Some sink, Some (ra, x) =>
    let request := uint64 (len p) in
    if (0 <? maxBytes w) && (maxBytes w <=? written w) then (b, w, 0, Some ErrFileTooLarge)
    else
      let request :=
        if 0 <? maxBytes w then
          let remaining := uint64 (maxBytes w - written w) in
          if remaining <? request then remaining else request
        else request in
      if request =? 0 then (b, w, 0, Some ErrFileTooLarge)
      else
        let '(b1, grown) :=
          if pending x <? request then
            let grow := uint64 (request - pending x) in
            let grow :=
              if 0 <? maxBytes w then
                let remainingReservation := uint64 (uint64 (maxBytes w - written w) - pending x) in
                if remainingReservation <? grow then remainingReservation else grow
              else grow in
            reserve b (Some ra) available minFree grow
          else (b, None) in
        match grown with
        | Some e => (b1, w, 0, Some e)
        | None =>
          let '(n, err) := sink (String.substring 0 (Z.to_nat request) p) in
          let err := mapWriteStorageCapacityError err in
          let finish b w :=
            match err with
            | None =>
              if n <? len p then
                if (uint64 n =? request) && (request <? uint64 (len p))
                then (b, w, n, Some ErrFileTooLarge) else (b, w, n, Some ErrShortWrite)
              else (b, w, n, None)
            | Some _ => (b, w, n, err)
            end in
          if 0 <? n then
            match consume b1 (Some ra) (uint64 n) with
            | (b2, Some ce) => (b2, w, n, Some (errors_Join err ce))
            | (b2, None) => finish b2 (set_written w (uint64 (written w + uint64 n)))
            end
          else finish b1 w
        end
  end.
End Write.

(** ** Specification *)

Definition reservation_ok (x : writeStagingReservation) : Prop :=
  0 <= pending x <= reserved x /\ (released x = true -> reserved x = 0).

(** The counters are exact: [used] is the live reservations on top of [base], the bytes no reservation
    accounts for, [pending] the bytes not written yet, and nothing exceeds the limit. *)
Record budget_ok (base : Z) (b : writeStagingBudget) : Prop := {
  bo_limit : in_uint64 (limit b);
  bo_res : forall r x, reservations b !! r = Some x -> reservation_ok x;
  bo_base : 0 <= base;
  bo_used : used b = base + sum_map reserved (reservations b);
  bo_pending : bpending b = sum_map pending (reservations b);
  bo_bound : used b <= limit b;
}.

(** The budget as the storage layer uses it: the reservations of the writes that are under way, and the
    bytes of the staging directory that belong to none of them. *)
Record ledger := { l_budget : writeStagingBudget; l_base : Z; l_open : gset nat }.

(** The budget without a reservation that nothing refers to any more. *)
Definition forget (b : writeStagingBudget) (r : nat) : writeStagingBudget :=
  {| limit := limit b; used := used b; bpending := bpending b; reservations := delete r (reservations b) |}.

(** A call of the storage layer.  [stageWriteReader] opens a reservation, its writer reserves and
    consumes, and the rest is trimmed; [discard] then releases the reservation, or drops it without
    releasing it, when the staged file is retained: its bytes stay in the directory.  All of this
    happens under the shared staging lock, and [CleanupStaging], which empties the directory and resets
    the budget, under the exclusive one, so that it finds no write under way. *)
Inductive step (l : ledger) : ledger -> Prop :=
| step_new : step l {| l_budget := fst (newReservation (l_budget l)); l_base := l_base l; l_open := {[snd (newReservation (l_budget l))]} ∪ l_open l |}
| step_reserve r available minFree bytes : in_uint64 bytes -> in_uint64 minFree ->
    step l {| l_budget := fst (reserve (l_budget l) r available minFree bytes); l_base := l_base l; l_open := l_open l |}
| step_consume r bytes : in_uint64 bytes ->
    step l {| l_budget := fst (consume (l_budget l) r bytes); l_base := l_base l; l_open := l_open l |}
| step_trim r : step l {| l_budget := trimPending (l_budget l) r; l_base := l_base l; l_open := l_open l |}
| step_release r : step l {| l_budget := release (l_budget l) (Some r); l_base := l_base l; l_open := l_open l ∖ {[r]} |}
| step_retain r x : reservations (trimPending (l_budget l) (Some r)) !! r = Some x ->
    step l {| l_budget := forget (trimPending (l_budget l) (Some r)) r; l_base := l_base l + reserved x; l_open := l_open l ∖ {[r]} |}
| step_reset : l_open l = ∅ -> step l {| l_budget := resetAfterVerifiedCleanup (l_budget l); l_base := 0; l_open := ∅ |}.

(** A new budget: the bytes that were found in the staging directory, up to the limit. *)
Definition initial (l : ledger) : Prop :=
  exists lim init, in_uint64 lim /\ in_uint64 init /\
  l = {| l_budget := newWriteStagingBudget lim init; l_base := Z.min lim init; l_open := ∅ |}.

(** Beside the exact counters: what is not under way holds no bytes. *)
Definition ledger_ok (l : ledger) : Prop :=
  budget_ok (l_base l) (l_budget l) /\
  forall r x, reservations (l_budget l) !! r = Some x -> r ∉ l_open l -> released x = true.

(** ** Lemmas *)

Section Counters.
Context {base : Z}.

Lemma reservation_sums b :
  budget_ok base b ->
  0 <= sum_map pending (reservations b) <= sum_map reserved (reservations b) /\
  forall r x, reservations b !! r = Some x ->
    pending x <= sum_map pending (reservations b) /\ reserved x <= sum_map reserved (reservations b) /\
    reserved x - pending x <= sum_map reserved (reservations b) - sum_map pending (reservations b).
Proof.
  intros [_ Hr _ _ _ _]. generalize dependent (reservations b). clear b. intros m Hm.
  assert (Hp : forall (m' : gmap nat writeStagingReservation), (forall r x, m' !! r = Some x -> reservation_ok x) ->
    0 <= sum_map pending m' <= sum_map reserved m').
  { clear. intros m'. induction m' as [|k v m' Hk IH] using map_ind; intros Hm; [done|].
    rewrite !sum_map_insert by done.
    assert (reservation_ok v) as [? _] by (apply (Hm k), lookup_insert_eq).
    assert (0 <= sum_map pending m' <= sum_map reserved m'); [|lia].
    apply IH. intros r x Hx. apply (Hm r). rewrite lookup_insert_ne; congruence. }
  split; [by apply Hp|]. intros r x Hx.
  rewrite !(sum_map_delete _ _ _ _ Hx). destruct (Hm _ _ Hx) as [? _].
  assert (0 <= sum_map pending (delete r m) <= sum_map reserved (delete r m)); [|lia].
  apply Hp. intros r' x' Hx'. apply lookup_delete_Some in Hx' as [_ Hx']. eauto.
Qed.

(** Changing one reservation and the two totals by the same amounts. *)
Lemma budget_ok_update b r x x' u p :
  budget_ok base b -> reservations b !! r = Some x -> reservation_ok x' ->
  u = used b + (reserved x' - reserved x) -> p = bpending b + (pending x' - pending x) -> u <= limit b ->
  budget_ok base (update b u p r x').
Proof.
  intros [Hl Hr Hb Hu Hp Hle] Hx Hx' -> -> Hlim. split; simpl; [done| |done| | |done].
  - intros r0 x0 H0. destruct (decide (r = r0)) as [<-|]; simplify_map_eq; eauto.
  - rewrite (sum_map_replace _ _ _ _ _ Hx). lia.
  - rewrite (sum_map_replace _ _ _ _ _ Hx). lia.
Qed.

Lemma budget_ranges b :
  budget_ok base b -> 0 <= bpending b <= used b /\ used b <= limit b /\ limit b <= maxUint64.
Proof.
  intros Hb. destruct (reservation_sums b Hb) as [? _]. destruct Hb as [Hl _ ? Hu Hp ?].
  destruct Hl. lia.
Qed.

(** [reserve] decides exactly: on a live reservation it is refused as busy if the staging limit
    would be exceeded, refused as out of space if the minimum free space plus all pending bytes
    plus the request exceed what is available, and otherwise adds the request to the four
    counters; the overflow guards never refuse anything else. *)
Theorem reserve_decision b r x available minFree bytes :
  budget_ok base b -> in_uint64 bytes -> in_uint64 minFree -> in_uint64 available -> bytes <> 0 ->
  reservations b !! r = Some x -> released x = false ->
  reserve b (Some r) (Some (Ok available)) minFree bytes =
    (if limit b <? used b + bytes then (b, Some ErrWriteBusy)
     else if available <? minFree + bpending b + bytes
          then (b, Some (ErrInsufficientStorage "minimum free space"))
          else (update b (used b + bytes) (bpending b + bytes) r
                  {| reserved := reserved x + bytes; pending := pending x + bytes; released := false |}, None)).
Proof.
  intros Hb Hby Hmf Hav Hne Hx Hrel. unfold reserve.
  apply Z.eqb_neq in Hne as ->. simpl. rewrite Hx, Hrel.
  pose proof (budget_ranges b Hb). destruct (reservation_sums b Hb) as [? Hs].
  specialize (Hs _ _ Hx). destruct (bo_res _ _ Hb _ _ Hx) as [? _].
  destruct Hb as [Hl _ ? Hu Hp ?]. unfold in_uint64 in *.
  rewrite !(uint64_id (maxUint64 - _)) by (unfold in_uint64; lia).
  destruct (maxUint64 - used b <? bytes) eqn:E1; simpl; b2p.
  { assert (limit b <? used b + bytes = true) as -> by (apply Z.ltb_lt; lia). done. }
  destruct (maxUint64 - reserved x <? bytes) eqn:E2; simpl; b2p; [lia|].
  destruct (maxUint64 - bpending b <? bytes) eqn:E3; simpl; b2p; [lia|].
  destruct (maxUint64 - pending x <? bytes) eqn:E4; simpl; b2p; [lia|].
  rewrite !(uint64_id (used b + bytes)), !(uint64_id (bpending b + bytes)),
    !(uint64_id (reserved x + bytes)), !(uint64_id (pending x + bytes)) by (unfold in_uint64; lia).
  destruct (limit b <? used b + bytes) eqn:E5; [done|]. b2p.
  rewrite (uint64_id (maxUint64 - _)) by (unfold in_uint64; lia).
  destruct (maxUint64 - (bpending b + bytes) <? minFree) eqn:E6; simpl; b2p.
  { assert (available <? minFree + bpending b + bytes = true) as -> by (apply Z.ltb_lt; lia). done. }
  rewrite (uint64_id (minFree + _)) by (unfold in_uint64; lia).
  by rewrite Z.add_assoc.
Qed.

Lemma reserve_ok b r available minFree bytes :
  budget_ok base b -> in_uint64 bytes -> in_uint64 minFree -> budget_ok base (fst (reserve b r available minFree bytes)).
Proof.
  intros Hb Hby Hmf.
  destruct (decide (bytes = 0)) as [->|Hne]; [done|].
  destruct r as [r|]; [|unfold reserve; apply Z.eqb_neq in Hne; by rewrite Hne].
  destruct (reservations b !! r) as [x|] eqn:Hx;
    [|unfold reserve; apply Z.eqb_neq in Hne; by rewrite Hne; simpl; rewrite Hx].
  unfold reserve. apply Z.eqb_neq in Hne as Hne'. rewrite Hne'. simpl. rewrite Hx.
  destruct available as [[avail|]|]; [|by destruct (released x)|done].
  destruct (released x) eqn:Hrel; [done|].
  pose proof (budget_ranges b Hb). destruct (reservation_sums b Hb) as [? Hs].
  specialize (Hs _ _ Hx). destruct (bo_res _ _ Hb _ _ Hx) as [? _].
  pose proof (bo_pending _ _ Hb). pose proof (bo_base _ _ Hb); pose proof (bo_used _ _ Hb). unfold in_uint64 in *.
  rewrite !(uint64_id (maxUint64 - used b)) by (unfold in_uint64; lia).
  destruct (maxUint64 - used b <? bytes) eqn:E1; simpl; [done|]. b2p.
  rewrite !(uint64_id (used b + bytes)), !(uint64_id (bpending b + bytes)),
    !(uint64_id (reserved x + bytes)), !(uint64_id (pending x + bytes)) by (unfold in_uint64; lia).
  repeat (case_goal; [done|]). b2p. simpl.
  eapply budget_ok_update; eauto; simpl; try lia. split; [simpl; lia|done].
Qed.

Lemma consume_ok b r bytes : budget_ok base b -> in_uint64 bytes -> budget_ok base (fst (consume b r bytes)).
Proof.
  intros Hb Hby. unfold consume. destruct (bytes =? 0); [done|].
  destruct (deref (reservations b) r) as [[ra x]|] eqn:E; [|done]. apply deref_Some in E as [-> Hx].
  destruct (released x) eqn:Hrel; [done|]. simpl. case_goal; [done|]. b2p. simpl.
  pose proof (budget_ranges b Hb). destruct (bo_res _ _ Hb _ _ Hx) as [? _].
  destruct (reservation_sums b Hb) as [? Hs]. specialize (Hs _ _ Hx).
  unfold in_uint64 in *. pose proof (bo_pending _ _ Hb). pose proof (bo_base _ _ Hb); pose proof (bo_used _ _ Hb).
  rewrite !uint64_id by (unfold in_uint64; lia).
  eapply budget_ok_update; eauto; simpl; try lia. split; [simpl; lia|by simpl].
Qed.

Lemma trim_ok b r : budget_ok base b -> budget_ok base (trimPending b r).
Proof.
  intros Hb. unfold trimPending.
  destruct (deref (reservations b) r) as [[ra x]|] eqn:E; [|done]. apply deref_Some in E as [-> Hx].
  destruct (released x) eqn:Hrel; [done|]. simpl. case_goal; [done|]. b2p.
  pose proof (budget_ranges b Hb). destruct (bo_res _ _ Hb _ _ Hx) as [? _].
  destruct (reservation_sums b Hb) as [? Hs]. specialize (Hs _ _ Hx).
  pose proof (bo_pending _ _ Hb). pose proof (bo_base _ _ Hb); pose proof (bo_used _ _ Hb).
  rewrite !uint64_id by (unfold in_uint64; lia).
  eapply budget_ok_update; eauto; simpl; try lia. split; [simpl; lia|done].
Qed.

Lemma release_ok b r : budget_ok base b -> budget_ok base (release b r).
Proof.
  intros Hb. unfold release.
  destruct (deref (reservations b) r) as [[ra x]|] eqn:E; [|done]. apply deref_Some in E as [-> Hx].
  destruct (released x) eqn:Hrel; [done|].
  pose proof (budget_ranges b Hb). destruct (bo_res _ _ Hb _ _ Hx) as [? _].
  destruct (reservation_sums b Hb) as [? Hs]. specialize (Hs _ _ Hx).
  pose proof (bo_pending _ _ Hb). pose proof (bo_base _ _ Hb); pose proof (bo_used _ _ Hb).
  rewrite !uint64_id by (unfold in_uint64; lia).
  eapply budget_ok_update; eauto; simpl; try lia. split; [simpl; lia|done].
Qed.

Lemma new_budget_ok b : budget_ok base b -> budget_ok base (fst (newReservation b)).
Proof.
  intros [Hl Hr Hb Hu Hp Hle]. split; simpl; [done| |done| | |done].
  - intros r x Hx. destruct (decide (alloc (reservations b) = r)) as [<-|]; simplify_map_eq; eauto.
    split; [simpl; lia|done].
  - rewrite sum_map_insert by apply alloc_fresh. simpl. lia.
  - rewrite sum_map_insert by apply alloc_fresh. simpl. lia.
Qed.

(** After a successful [reserve] the reservation holds [bytes] more, pending. *)
Lemma reserve_success b r x available minFree bytes b' :
  budget_ok base b -> in_uint64 bytes -> reservations b !! r = Some x ->
  reserve b (Some r) available minFree bytes = (b', None) ->
  exists x', reservations b' !! r = Some x' /\ pending x' = pending x + bytes /\
    released x' = released x /\ bpending b' = bpending b + bytes.
Proof.
  intros Hb Hby Hx H. unfold reserve in H.
  destruct (bytes =? 0) eqn:E0; b2p; [simplify_eq; exists x; split_and!; by try lia|].
  simpl in H. rewrite Hx in H. destruct available as [[avail|]|]; [| |done]; destruct (released x) eqn:Hrel; try done.
  pose proof (budget_ranges b Hb). destruct (bo_res _ _ Hb _ _ Hx) as [? _].
  destruct (reservation_sums b Hb) as [? Hs]. specialize (Hs _ _ Hx).
  pose proof (bo_pending _ _ Hb). pose proof (bo_base _ _ Hb); pose proof (bo_used _ _ Hb). unfold in_uint64 in *.
  repeat case_in H. b2p. simplify_eq. simpl.
  rewrite uint64_id in * by (unfold in_uint64; lia).
  rewrite lookup_insert_eq. eexists. split; [done|]. simpl.
  rewrite !uint64_id by (unfold in_uint64; lia). done.
Qed.

Lemma consume_success b r x n :
  budget_ok base b -> 0 < n -> n <= pending x -> n <= bpending b -> in_uint64 n ->
  reservations b !! r = Some x -> released x = false ->
  exists b', consume b (Some r) n = (b', None).
Proof.
  intros Hb Hpos Hle Hle' Hn Hx Hrel. unfold consume.
  assert (n =? 0 = false) as -> by (apply Z.eqb_neq; lia). simpl. rewrite Hx, Hrel. simpl.
  assert (pending x <? n = false) as -> by (apply Z.ltb_ge; lia).
  assert (bpending b <? n = false) as -> by (apply Z.ltb_ge; lia). simpl. eauto.
Qed.

Lemma fst_eq {A B} (p : A * B) a b : p = (a, b) -> fst p = a.
Proof. by intros ->. Qed.

Lemma substring_length n s : (String.length (String.substring 0 n s) <= n)%nat.
Proof. revert n. induction s as [|a s IH]; intros [|n]; simpl; try lia. specialize (IH n). lia. Qed.

Lemma len_nonneg s : 0 <= len s.
Proof. unfold len. lia. Qed.

(** The contract of [io.Writer]: at most the bytes handed in, and an error when fewer. *)
Definition writer_ok (sink : Writer) : Prop :=
  forall q, 0 <= fst (sink q) <= len q /\ (fst (sink q) < len q -> snd (sink q) <> None).

(** The bytes requested from the sink are pending before it is called. *)
Lemma grow_covers b b1 w r x available minFree request :
  budget_ok base b -> reservations b !! r = Some x -> 0 < request -> in_uint64 request ->
  in_uint64 minFree -> in_uint64 (maxBytes w) -> in_uint64 (written w) ->
  (0 < maxBytes w -> request <= maxBytes w - written w) ->
  (if pending x <? request
   then reserve b (Some r) available minFree
          (if 0 <? maxBytes w
           then if uint64 (uint64 (maxBytes w - written w) - pending x) <? uint64 (request - pending x)
                then uint64 (uint64 (maxBytes w - written w) - pending x)
                else uint64 (request - pending x)
           else uint64 (request - pending x))
   else (b, None)) = (b1, None) ->
  budget_ok base b1 /\ exists x1, reservations b1 !! r = Some x1 /\ request <= pending x1 /\
    released x1 = released x /\ request <= bpending b1.
Proof.
  intros Hb Hx Hpos Hreq Hmf Hmax Hwr Hle H.
  destruct (bo_res _ _ Hb _ _ Hx) as [? _]. destruct (reservation_sums b Hb) as [? Hs].
  specialize (Hs _ _ Hx). pose proof (bo_pending _ _ Hb). pose proof (budget_ranges _ Hb).
  destruct (pending x <? request) eqn:E; b2p; cycle 1.
  { simplify_eq. split; [done|]. exists x. split_and!; try done; lia. }
  set (g := if 0 <? maxBytes w then _ else _) in H.
  assert (g = request - pending x) as Hg.
  { unfold g, in_uint64 in *. rewrite (uint64_id (request - pending x)) by (unfold in_uint64; lia).
    destruct (0 <? maxBytes w) eqn:Em; [|done]. b2p. specialize (Hle Em).
    rewrite (uint64_id (maxBytes w - written w)) by (unfold in_uint64; lia).
    rewrite (uint64_id (_ - pending x)) by (unfold in_uint64; lia). case_goal; b2p; lia. }
  rewrite Hg in H. clear Hg g. assert (in_uint64 (request - pending x)) by (unfold in_uint64 in *; lia).
  pose proof (reserve_ok b (Some r) available minFree _ Hb ltac:(done) Hmf) as Hok.
  rewrite H in Hok. split; [exact Hok|].
  apply reserve_success with (x := x) in H as (x1 & ? & ? & ? & ?); [|done..].
  exists x1. split_and!; try done; lia.
Qed.

End Counters.

(** *** The ledger *)

Lemma trimmed_pending b r x : reservations (trimPending b (Some r)) !! r = Some x -> released x = false -> pending x = 0.
Proof.
  unfold trimPending. simpl. destruct (reservations b !! r) as [y|] eqn:Hy; [|congruence].
  destruct (released y) eqn:Hr; simpl; [congruence|]. destruct (pending y =? 0) eqn:E; b2p; simpl; [congruence|].
  rewrite lookup_insert_eq. by intros [= <-].
Qed.

Lemma forget_ok base b r x : budget_ok base b -> reservations b !! r = Some x -> pending x = 0 -> budget_ok (base + reserved x) (forget b r).
Proof.
  intros [Hl Hr Hb Hu Hp Hle] Hx Hz. pose proof (Hr _ _ Hx) as [? _]. split; simpl; [done| |lia| | |done].
  - intros r' x' [_ H']%lookup_delete_Some. eauto.
  - rewrite Hu, (sum_map_delete _ _ _ _ Hx). lia.
  - rewrite Hp, (sum_map_delete _ _ _ _ Hx). lia.
Qed.

Lemma reset_ok base b :
  budget_ok base b -> (forall r x, reservations b !! r = Some x -> released x = true) ->
  budget_ok 0 (resetAfterVerifiedCleanup b).
Proof.
  intros [Hl Hr _ _ _ _] Hz.
  assert (Hall : forall r x, reservations b !! r = Some x -> reserved x = 0 /\ pending x = 0).
  { intros r x Hx. destruct (Hr _ _ Hx) as [? Hrel]. specialize (Hrel (Hz _ _ Hx)). lia. }
  split; simpl; [done|done|done| | |by destruct Hl].
  - rewrite sum_map_zero; [done|]. intros r x Hx. by apply (Hall r).
  - rewrite sum_map_zero; [done|]. intros r x Hx. by apply (Hall r).
Qed.

(** What the calls keep of the reservations that are not theirs, and that a released one stays released. *)
Definition still_released (b b' : writeStagingBudget) : Prop :=
  forall r x', reservations b' !! r = Some x' -> exists x, reservations b !! r = Some x /\ (released x = true -> released x' = true).

Lemma still_refl b : still_released b b.
Proof. intros r x Hx. by exists x. Qed.
Lemma still_update b r x u p x' : reservations b !! r = Some x -> released x' = released x -> still_released b (update b u p r x').
Proof.
  intros Hx Hr r0 x0. simpl. destruct (decide (r = r0)) as [<-|]; [|rewrite lookup_insert_ne by done; intros H; by exists x0].
  rewrite lookup_insert_eq. intros [= <-]. exists x. split; [done|congruence].
Qed.
Lemma reserve_still b r available minFree bytes : still_released b (fst (reserve b r available minFree bytes)).
Proof.
  unfold reserve. destruct (bytes =? 0); [apply still_refl|].
  destruct (deref (reservations b) r) as [[ra x]|] eqn:E; [|apply still_refl]. apply deref_Some in E as [_ Hx].
  repeat case_goal; simpl; try apply still_refl. by apply (still_update b ra x).
Qed.
Lemma consume_still b r bytes : still_released b (fst (consume b r bytes)).
Proof.
  unfold consume. destruct (bytes =? 0); [apply still_refl|].
  destruct (deref (reservations b) r) as [[ra x]|] eqn:E; [|apply still_refl]. apply deref_Some in E as [_ Hx].
  case_goal; simpl; [apply still_refl|]. by apply (still_update b ra x).
Qed.
Lemma trim_still b r : still_released b (trimPending b r).
Proof.
  unfold trimPending. destruct (deref (reservations b) r) as [[ra x]|] eqn:E; [|apply still_refl]. apply deref_Some in E as [_ Hx].
  case_goal; [apply still_refl|]. by apply (still_update b ra x).
Qed.
Lemma release_released b r x : reservations (release b (Some r)) !! r = Some x -> released x = true.
Proof.
  unfold release. simpl. destruct (reservations b !! r) as [y|] eqn:Hy; [|congruence].
  destruct (released y) eqn:Hr; simpl; [congruence|]. rewrite lookup_insert_eq. by intros [= <-].
Qed.
Lemma release_other b r r' : r <> r' -> reservations (release b (Some r)) !! r' = reservations b !! r'.
Proof.
  intros Hne. unfold release. simpl. destruct (reservations b !! r) as [y|]; [|done]. destruct (released y); [done|]. simpl. by rewrite lookup_insert_ne.
Qed.

Lemma ledger_step_ok l l' : ledger_ok l -> step l l' -> ledger_ok l'.
Proof.
  intros [Hb Ho]. assert (Hkeep : forall b', still_released (l_budget l) b' -> forall r x, reservations b' !! r = Some x -> r ∉ l_open l -> released x = true).
  { intros b' Hs r x Hx Hr. destruct (Hs _ _ Hx) as (y & Hy & Hrel). eauto. }
  destruct 1 as [|r available minFree bytes ? ?|r bytes ?|r|r|r x Hx|Hempty]; (split; cbn [l_budget l_base l_open]).
  - by apply new_budget_ok.
  - intros r x. simpl. intros Hx Hr. apply not_elem_of_union in Hr as [Hne%not_elem_of_singleton Hr]. rewrite lookup_insert_ne in Hx by done. eauto.
  - by apply reserve_ok.
  - apply Hkeep, reserve_still.
  - by apply consume_ok.
  - apply Hkeep, consume_still.
  - by apply trim_ok.
  - apply Hkeep, trim_still.
  - by apply release_ok.
  - intros r' x Hx Hr. destruct (decide (r = r')) as [<-|Hne]; [by eapply release_released|]. rewrite release_other in Hx by done. apply (Ho r'); [done|set_solver].
  - pose proof (trim_ok (l_budget l) (Some r) Hb) as Ht. destruct (bo_res _ _ Ht _ _ Hx) as [? Hrel]. apply forget_ok; [done|done|].
    destruct (released x) eqn:E; [|by eapply trimmed_pending]. specialize (Hrel eq_refl). lia.
  - intros r' x'. cbn [forget reservations]. intros [Hne H']%lookup_delete_Some Hr. apply (Hkeep _ (trim_still _ _) _ _ H'). set_solver.
  - eapply reset_ok; [exact Hb|]. intros r x Hx. apply (Ho r); [done|]. rewrite Hempty. set_solver.
  - intros r x Hx _. apply (Ho r); [done|]. rewrite Hempty. set_solver.
Qed.

Lemma initial_ok l : initial l -> ledger_ok l.
Proof.
  intros (lim & init & Hl & Hi & ->). destruct Hl, Hi. split; cbn [l_budget l_base l_open].
  - unfold newWriteStagingBudget. split; simpl; [done| |lia| |done|].
    + intros * Hx. by rewrite lookup_empty in Hx.
    + rewrite sum_map_empty. case_goal; b2p; lia.
    + case_goal; b2p; lia.
  - intros r x Hx. simpl in Hx. by rewrite lookup_empty in Hx.
Qed.

(** ** Properties *)

(** C27: in every state the storage layer can reach, the budget is exact.  [used] is the sum of the
    reservations of the writes under way on top of [l_base], which is what was found in the staging
    directory at the start and what retained files have added to it since, and nothing after a cleanup;
    [pending] is the sum of the bytes reserved and not written; a write that is over holds nothing, so that
    without a write under way [used] is [l_base] and [pending] is zero; no reservation has more pending
    than reserved, and [pending <= used <= limit], so no [uint64] counter ever wraps. *)
Theorem staging_budget_exact l :
  reachable initial step l ->
  used (l_budget l) = l_base l + sum_map reserved (reservations (l_budget l)) /\
  bpending (l_budget l) = sum_map pending (reservations (l_budget l)) /\
  (forall r x, reservations (l_budget l) !! r = Some x -> reservation_ok x /\ (r ∉ l_open l -> reserved x = 0)) /\
  (l_open l = ∅ -> used (l_budget l) = l_base l /\ bpending (l_budget l) = 0) /\
  0 <= bpending (l_budget l) <= used (l_budget l) /\ used (l_budget l) <= limit (l_budget l).
Proof.
  intros Hr. destruct (reachable_invariant _ _ _ initial_ok ledger_step_ok l Hr) as [Hb Ho].
  pose proof (budget_ranges _ Hb). destruct Hb as [_ Hres _ Hu Hp _].
  assert (Hz : forall r x, reservations (l_budget l) !! r = Some x -> r ∉ l_open l -> reserved x = 0 /\ pending x = 0).
  { intros r x Hx Hn. destruct (Hres _ _ Hx) as [? Hrel]. specialize (Hrel (Ho _ _ Hx Hn)). lia. }
  split; [done|]. split; [done|]. split; [intros r x Hx; split; [by eapply Hres|by intros ?; apply (Hz r)]|]. split; [|lia].
  intros He. rewrite Hu, Hp, !sum_map_zero; [lia|..]; intros r x Hx; apply (Hz r); try done; rewrite He; set_solver.
Qed.

(** The budget writer over any writer that keeps the [io.Writer] contract: it passes on at most
    [maxBytes] bytes in total, counts every byte that reached the sink, never finds its
    accounting inconsistent, reports an error whenever it wrote less than it was given, and keeps
    the budget exact. *)
Theorem budget_writer_bounded base iscap b w sink available minFree p b' w' n err :
  budget_ok base b -> writer w = Some sink -> writer_ok sink ->
  (forall r x, reservation w = Some r -> reservations b !! r = Some x -> released x = false) ->
  in_uint64 minFree -> in_uint64 (maxBytes w) -> 0 <= written w -> written w + len p <= maxUint64 ->
  (0 < maxBytes w -> written w <= maxBytes w) ->
  Write iscap b w available minFree p = (b', w', n, err) ->
  budget_ok base b' /\ 0 <= n <= len p /\ written w' = written w + n /\
  (0 < maxBytes w -> written w' <= maxBytes w') /\ (n < len p -> err <> None).
Proof.
  intros Hb Hsink Hok Hlive Hmf Hmax Hwr Hlen Hbound H. unfold Write in H. rewrite Hsink in H.
  pose proof (len_nonneg p).
  assert (Hstop : forall e, b' = b /\ w' = w /\ n = 0 /\ err = Some e ->
    budget_ok base b' /\ 0 <= n <= len p /\ written w' = written w + n /\
    (0 < maxBytes w -> written w' <= maxBytes w') /\ (n < len p -> err <> None)).
  { intros e (-> & -> & -> & ->). split_and!; [done|lia|lia|lia|done|done]. }
  destruct (len p =? 0) eqn:E0; b2p.
  { simplify_eq. split_and!; [done|lia|lia|lia|done|lia]. }
  destruct (deref (reservations b) (reservation w)) as [[ra x]|] eqn:Er;
    [|simplify_eq; by eapply Hstop].
  apply deref_Some in Er as [Er Hx]. specialize (Hlive _ _ Er Hx).
  rewrite !(uint64_id (len p)) in H by (unfold in_uint64; lia).
  destruct ((0 <? maxBytes w) && (maxBytes w <=? written w)) eqn:E1; [simplify_eq; by eapply Hstop|].
  set (req := if 0 <? maxBytes w then _ else len p) in H.
  assert (Hreq : 0 < req <= len p /\ (0 < maxBytes w -> req <= maxBytes w - written w)).
  { unfold req. unfold in_uint64 in *. destruct (0 <? maxBytes w) eqn:Em; simpl in E1; b2p; [|lia].
    specialize (Hbound Em). rewrite uint64_id by (unfold in_uint64; lia).
    case_goal; b2p; lia. }
  clearbody req. destruct Hreq as [Hreq Hreq']. unfold in_uint64 in Hmax.
  destruct (req =? 0) eqn:E2; b2p; [lia|].
  destruct (if pending x <? req then _ else _) as [b1 grown] eqn:Eg.
  destruct grown as [e|].
  { simplify_eq. pose proof (f_equal fst Eg) as Eg'. simpl in Eg'.
    assert (budget_ok base b').
    { rewrite <-Eg'. case_goal; [|done]. apply reserve_ok; [done| |done].
      repeat case_goal; apply uint64_range. }
    split_and!; [done|lia|lia|lia|done|done]. }
  apply (grow_covers (base := base)) in Eg as [Hb1 (x1 & Hx1 & Hp1 & Hrel1 & Hbp1)]; try done;
    try (unfold in_uint64; lia).
  destruct (sink (String.substring 0 (Z.to_nat req) p)) as [m serr] eqn:Es.
  pose proof (Hok (String.substring 0 (Z.to_nat req) p)) as [Hm Hme]. rewrite Es in Hm, Hme.
  simpl in Hm, Hme. pose proof (substring_length (Z.to_nat req) p) as Hsub. unfold len at 1 in Hm.
  assert (Hm' : 0 <= m <= req) by lia. clear Hsub Hm.
  destruct (0 <? m) eqn:Em; b2p.
  - rewrite (uint64_id m) in H by (unfold in_uint64; lia).
    destruct (consume_success (base := base) b1 ra x1 m) as [b2 Hc]; try done; try lia; [unfold in_uint64; lia|congruence|].
    rewrite Hc in H. pose proof (consume_ok b1 (Some ra) m Hb1) as Hb2. rewrite Hc in Hb2.
    simpl in Hb2. specialize (Hb2 ltac:(unfold in_uint64; lia)).
    rewrite (uint64_id (written w + m)) in H by (unfold in_uint64; lia).
    assert (b' = b2 /\ w' = set_written w (written w + m) /\ n = m /\ (m < len p -> err <> None)) as (-> & -> & -> & ?).
    { repeat case_in H; simplify_eq; b2p; split_and!; try done; lia. }
    simpl. split_and!; try done; lia.
  - assert (m = 0) as -> by lia.
    assert (b' = b1 /\ w' = w /\ n = 0 /\ (0 < len p -> err <> None)) as (-> & -> & -> & ?).
    { repeat case_in H; simplify_eq; b2p; split_and!; try done; lia. }
    split_and!; try done; lia.
Qed.

(** ** Witnesses *)

Definition example_b0 : writeStagingBudget := newWriteStagingBudget 100 10.
Definition example_b1 : writeStagingBudget := fst (newReservation example_b0).
Definition example_b2 : writeStagingBudget := fst (reserve example_b1 (Some O) (Some (Ok 500)) 50 20).
Definition example_l0 : ledger := {| l_budget := example_b0; l_base := 10; l_open := ∅ |}.
Definition example_l1 : ledger := {| l_budget := example_b1; l_base := 10; l_open := {[snd (newReservation example_b0)]} ∪ ∅ |}.
Definition example_ledger : ledger := {| l_budget := example_b2; l_base := 10; l_open := l_open example_l1 |}.

Lemma example_reach : reachable initial step example_ledger.
Proof.
  apply (reach_step _ _ example_l1); [apply (reach_step _ _ example_l0); [apply reach_init|exact (step_new example_l0)]|].
  - exists 100, 10. by repeat split.
  - apply (step_reserve example_l1 (Some O) (Some (Ok 500)) 50 20); by repeat split.
Qed.

Lemma staging_budget_exact_witness :
  (used example_b2, bpending example_b2) = (30, 20) /\
  used example_b2 = 10 + sum_map reserved (reservations example_b2) /\
  bpending example_b2 = sum_map pending (reservations example_b2).
Proof.
  split; [vm_compute; reflexivity|].
  destruct (staging_budget_exact _ example_reach) as (H1 & H2 & _). split; [exact H1|exact H2].
Defined.

Lemma example_b1_ok : budget_ok 10 example_b1.
Proof. apply new_budget_ok. destruct (initial_ok example_l0) as [H _]; [exists 100, 10; by repeat split|exact H]. Qed.

Lemma reserve_decision_witness :
  reserve example_b1 (Some O) (Some (Ok 500)) 50 20 =
    (update example_b1 30 20 O {| reserved := 20; pending := 20; released := false |}, None).
Proof.
  rewrite (reserve_decision example_b1 O {| reserved := 0; pending := 0; released := false |} 500 50 20
    example_b1_ok); [reflexivity|by repeat split|by repeat split|by repeat split|discriminate|reflexivity|reflexivity].
Defined.

(** A sink that takes everything, behind a writer limited to 3 bytes. *)
Definition example_sink : Writer := fun q => (len q, None).
Definition example_writer : writeStagingBudgetWriter :=
  {| writer := Some example_sink; reservation := Some O; maxBytes := 3; written := 0 |}.
Definition example_write :=
  Write (fun _ => false) example_b1 example_writer (Some (Ok 500)) 50 "hello".

Lemma budget_writer_bounded_witness :
  snd example_write = Some ErrFileTooLarge /\ snd (fst example_write) = 3 /\
  written (snd (fst (fst example_write))) = 3.
Proof.
  destruct example_write as [[[b' w'] n] err] eqn:E.
  assert (n = 3 /\ err = Some ErrFileTooLarge) as [-> ->]
    by (vm_compute in E; injection E as <- <- <- <-; done).
  split; [reflexivity|]. split; [reflexivity|]. simpl.
  refine (proj1 (proj2 (proj2 (budget_writer_bounded 10 (fun _ => false) example_b1 example_writer
    example_sink (Some (Ok 500)) 50 "hello" b' w' 3 (Some ErrFileTooLarge)
    example_b1_ok eq_refl _ _ _ _ _ _ _ E)))).
  - intros q. unfold example_sink. simpl. pose proof (len_nonneg q). lia.
  - intros r x [= <-] Hx. vm_compute in Hx. by injection Hx as <-.
  - by repeat split.
  - by repeat split.
  - vm_compute. discriminate.
  - vm_compute. discriminate.
  - intros _. vm_compute. discriminate.
Defined.

End Staging.
