(* ===== verification/DeleteTree.v ===== *)
(** * internal/storage/delete_tree_merkle.go and delete_tree_merkle_stream.go

    The deletion token of a directory tree: the batch construction from a snapshot
    ([deleteTreeTokenV3]) and the streaming construction from a depth-first walk
    ([deleteTreeMerkleStreamV3]), over SHA-256.  A [hash.Hash] is the string of bytes written so
    far.  The frame stack is kept with its top first. *)

From Stdlib Require Import Ascii.
From stdpp Require Import sorting.
From S2P Require Import Prelude GoStrings GoPath Paths Sha256.

Module DeleteTree.

(** ** Data *)

(** [storage.FileInfo]; [ModTime] is the instant in nanoseconds since the Unix epoch. *)
Record FileInfo := {
  Path : string;
  Name : string;
  IsDir : bool;
  Mode : Z;
  Size : Z;
  ModTime : Z;
  DeleteIdentityToken : string;
  ContentHash : string;
  Versioned : bool;
}.

Record DeleteTargetSnapshot := { Root : FileInfo; Entries : list FileInfo }.

Definition UnixNano (t : Z) : Z := int64 t.

(** [os.FileMode] type bits. *)
Definition ModeDir : Z := 2147483648.
Definition ModeType : Z := 2147483648 + 134217728 + 33554432 + 16777216 + 67108864 + 2097152 + 524288.
Definition mode_type (m : Z) : Z := Z.land m ModeType.
Definition IsRegular (m : Z) : bool := mode_type m =? 0.

Inductive TreeError :=
| EmptyManifest
| NotAbsolute (path : string)
| NotCanonical (path : string)
| NameMismatch (path : string)
| NotDirectoryMode (path : string)
| NotRegularMode (path : string)
| OutsideRoot (path : string)
| DuplicatePath (path : string)
| MissingRoot (path : string)
| RootMismatch (path : string)
| MissingParent (path : string)
| ParentNotDir (path : string)
| NilNode
| AlreadyFinished
| FirstNotRoot (path : string)
| DuplicateRoot (path : string)
| FileRootFollowed (path : string)
| NotInOrder (path : string)
| NoEntries
| EmptyStack
| ClosedWithoutParent (path : string)
| NoRootDigest.

(** ** Encoding *)

Definition writeUint64 (h : string) (v : Z) : string := h +:+ Sha256.be_bytes 8 (Z.to_N (uint64 v)).
Definition writeBytes (h value : string) : string := writeUint64 h (len value) +:+ value.
Definition writeString (h value : string) : string := writeBytes h value.
Definition writeChild (h name digest : string) : string := writeBytes (writeString h name) digest.

Definition deleteTreeFileDomainV3 : string := "mnemonas-delete-file-v3".
Definition deleteTreeDirDomainV3 : string := "mnemonas-delete-dir-v3".
Definition deleteTreeTargetDomainV3 : string := "mnemonas-delete-target-v3".

Definition newNodeHasher (info : FileInfo) : string :=
  let h := writeString "" (if IsDir info then deleteTreeDirDomainV3 else deleteTreeFileDomainV3) in
  let h := writeUint64 h (Mode info) in
  let h := writeUint64 h (uint64 (Size info)) in
  let h := writeUint64 h (uint64 (UnixNano (ModTime info))) in
  let h := writeString h (DeleteIdentityToken info) in
  writeString h (ContentHash info).

Definition finishDigest (h : string) : string := Sha256.Sum256 h.

Definition deleteTreeTargetTokenV3 (rootPath rootDigest : string) (nodeCount : Z) : string :=
  let h := writeString "" deleteTreeTargetDomainV3 in
  let h := writeString h rootPath in
  let h := writeBytes h rootDigest in
  let h := writeUint64 h nodeCount in
  Sha256.EncodeToString (Sha256.Sum256 h).

(** ** Validation *)

Definition validateEntry (info : FileInfo) : result TreeError unit :=
  if negb (HasPrefix (Path info) "/") then Err (NotAbsolute (Path info))
  else match normalizeStorageWorkspacePath (Path info) with
  | Err _ => Err (NotCanonical (Path info))
  | Ok normalized =>
    if negb (String.eqb normalized (Path info)) then Err (NotCanonical (Path info))
    else
      let expectedName := if String.eqb (Path info) "/" then "/" else Base (Path info) in
      if negb (String.eqb (Name info) expectedName) then Err (NameMismatch (Path info))
      else if IsDir info then
        if negb (mode_type (Mode info) =? ModeDir) then Err (NotDirectoryMode (Path info)) else Ok tt
      else if negb (IsRegular (Mode info)) then Err (NotRegularMode (Path info)) else Ok tt
  end.

Definition pathWithinRoot (rootPath entryPath : string) : bool :=
  if String.eqb entryPath rootPath then true
  else if String.eqb rootPath "/" then HasPrefix entryPath "/"
  else HasPrefix entryPath (TrimSuffix rootPath "/" +:+ "/").

Definition sameTokenFields (left right : FileInfo) : bool :=
  String.eqb (Path left) (Path right) && String.eqb (Name left) (Name right) &&
  Bool.eqb (IsDir left) (IsDir right) && (Mode left =? Mode right) && (Size left =? Size right) &&
  (UnixNano (ModTime left) =? UnixNano (ModTime right)) &&
  String.eqb (DeleteIdentityToken left) (DeleteIdentityToken right) &&
  String.eqb (ContentHash left) (ContentHash right).

(** ** The batch construction *)

(** The loop over [snapshot.Entries]. *)
Fixpoint indexEntries (rootPath : string) (entries : list FileInfo) (nodes : gmap string FileInfo)
    : result TreeError (gmap string FileInfo) :=
  match entries with
  | [] => Ok nodes
  | entry :: entries' =>
    match validateEntry entry with
    | Err e => Err e
    | Ok _ =>
      if negb (pathWithinRoot rootPath (Path entry)) then Err (OutsideRoot (Path entry))
      else if bool_decide (is_Some (nodes !! Path entry)) then Err (DuplicatePath (Path entry))
      else indexEntries rootPath entries' (<[Path entry := entry]> nodes)
    end
  end.

(** The loop over [nodes] that appends each node to its parent's children: the children by parent
    path, in the order of the loop. *)
Fixpoint linkNodes (rootPath : string) (nodes : gmap string FileInfo) (l : list (string * FileInfo))
    (children : gmap string (list FileInfo)) : result TreeError (gmap string (list FileInfo)) :=
  match l with
  | [] => Ok children
  | (entryPath, node) :: l' =>
    if String.eqb entryPath rootPath then linkNodes rootPath nodes l' children
    else
      let parentPath := Dir entryPath in
      match nodes !! parentPath with
      | None => Err (MissingParent entryPath)
      | Some parent =>
        if negb (IsDir parent) then Err (ParentNotDir entryPath)
        else linkNodes rootPath nodes l'
               (<[parentPath := default [] (children !! parentPath) ++ [node]]> children)
      end
  end.

Record graph := {
  g_nodes : gmap string FileInfo;
  g_children : gmap string (list FileInfo);
}.

Definition buildDeleteTreeMerkleV3 (snapshot : DeleteTargetSnapshot)
    : result TreeError (graph * FileInfo * Z) :=
  match Entries snapshot with
  | [] => Err EmptyManifest
  | _ =>
    match validateEntry (Root snapshot) with
    | Err e => Err e
    | Ok _ =>
      let rootPath := Path (Root snapshot) in
      let! nodes := indexEntries rootPath (Entries snapshot) ∅ in
      match nodes !! rootPath with
      | None => Err (MissingRoot rootPath)
      | Some root =>
        if negb (sameTokenFields (Root snapshot) root) then Err (RootMismatch rootPath)
        else
          let! children := linkNodes rootPath nodes (map_to_list nodes) ∅ in
          Ok ({| g_nodes := nodes; g_children := children |}, root, Z.of_nat (size nodes))
      end
    end
  end.

Definition name_le (x y : FileInfo) : Prop := String.le (Name x) (Name y).
#[export] Instance name_le_dec : RelDecision name_le.
Proof. intros x y. unfold name_le. apply _. Defined.

(** [node.digest()], the recursion bounded by [fuel]. *)
Fixpoint digest (fuel : nat) (g : graph) (info : FileInfo) : result TreeError string :=
  match fuel with
  | O => Err NilNode
  | S fuel' =>
    let h := newNodeHasher info in
    if IsDir info then
      let children := merge_sort name_le (default [] (g_children g !! Path info)) in
      let fix loop (l : list FileInfo) (h : string) : result TreeError string :=
        match l with
        | [] => Ok h
        | child :: l' =>
          match digest fuel' g child with
          | Err e => Err e
          | Ok d => loop l' (writeChild h (Name child) d)
          end
        end in
      let! h := loop children h in
      Ok (finishDigest (writeUint64 h (Z.of_nat (length children))))
    else Ok (finishDigest h)
  end.

(** A bound on the depth of a node below the root: the length of the longest path. *)
Definition max_path (l : list FileInfo) : nat :=
  fold_right (fun e acc => Nat.max (String.length (Path e)) acc) O l.

Definition deleteTreeTokenV3 (snapshot : DeleteTargetSnapshot) : result TreeError string :=
  let! (g, root, nodeCount) := buildDeleteTreeMerkleV3 snapshot in
  let! rootDigest := digest (S (max_path (Entries snapshot))) g root in
  Ok (deleteTreeTargetTokenV3 (Path (Root snapshot)) rootDigest nodeCount).

(** ** The streaming construction *)

Record frame := {
  f_path : string;
  f_name : string;
  f_hasher : string;
  f_childCount : Z;
  f_lastChildName : string;
}.

Record stream := {
  s_rootPath : string;
  s_frames : list frame;
  s_rootDigest : string;
  s_nodeCount : Z;
  s_started : bool;
  s_finished : bool;
  s_hasRootDigest : bool;
  s_err : option TreeError;
}.

Definition newFrame (info : FileInfo) : frame :=
  {| f_path := Path info; f_name := Name info; f_hasher := newNodeHasher info;
     f_childCount := 0; f_lastChildName := "" |}.

Definition newDeleteTreeMerkleStreamV3 (rootPath : string) : result TreeError stream :=
  if negb (HasPrefix rootPath "/") then Err (NotAbsolute rootPath)
  else match normalizeStorageWorkspacePath rootPath with
  | Err _ => Err (NotCanonical rootPath)
  | Ok normalized =>
    if negb (String.eqb normalized rootPath) then Err (NotCanonical rootPath)
    else Ok {| s_rootPath := rootPath; s_frames := []; s_rootDigest := ""; s_nodeCount := 0;
               s_started := false; s_finished := false; s_hasRootDigest := false; s_err := None |}
  end.

Definition with_frames (s : stream) (fs : list frame) : stream :=
  {| s_rootPath := s_rootPath s; s_frames := fs; s_rootDigest := s_rootDigest s;
     s_nodeCount := s_nodeCount s; s_started := s_started s; s_finished := s_finished s;
     s_hasRootDigest := s_hasRootDigest s; s_err := s_err s |}.

Definition with_root_digest (s : stream) (d : string) : stream :=
  {| s_rootPath := s_rootPath s; s_frames := s_frames s; s_rootDigest := d;
     s_nodeCount := s_nodeCount s; s_started := s_started s; s_finished := s_finished s;
     s_hasRootDigest := true; s_err := s_err s |}.

Definition with_count (s : stream) (n : Z) : stream :=
  {| s_rootPath := s_rootPath s; s_frames := s_frames s; s_rootDigest := s_rootDigest s;
     s_nodeCount := n; s_started := true; s_finished := s_finished s;
     s_hasRootDigest := s_hasRootDigest s; s_err := s_err s |}.

Definition with_finished (s : stream) : stream :=
  {| s_rootPath := s_rootPath s; s_frames := s_frames s; s_rootDigest := s_rootDigest s;
     s_nodeCount := s_nodeCount s; s_started := s_started s; s_finished := true;
     s_hasRootDigest := s_hasRootDigest s; s_err := s_err s |}.

(** [stream.fail]: the first error sticks. *)
Definition fail_stream (s : stream) (e : TreeError) : stream * TreeError :=
  match s_err s with
  | Some e0 => (s, e0)
  | None => ({| s_rootPath := s_rootPath s; s_frames := s_frames s; s_rootDigest := s_rootDigest s;
                s_nodeCount := s_nodeCount s; s_started := s_started s; s_finished := s_finished s;
                s_hasRootDigest := s_hasRootDigest s; s_err := Some e |}, e)
  end.

Definition add_child (f : frame) (name digest : string) : frame :=
  {| f_path := f_path f; f_name := f_name f; f_hasher := writeChild (f_hasher f) name digest;
     f_childCount := uint64 (f_childCount f + 1); f_lastChildName := f_lastChildName f |}.

Definition set_last (f : frame) (name : string) : frame :=
  {| f_path := f_path f; f_name := f_name f; f_hasher := f_hasher f;
     f_childCount := f_childCount f; f_lastChildName := name |}.

Definition closeTopDirectory (s : stream) : stream * option TreeError :=
  match s_frames s with
  | [] => (s, Some EmptyStack)
  | fr :: rest =>
    let digest := finishDigest (writeUint64 (f_hasher fr) (f_childCount fr)) in
    match rest with
    | [] =>
      let s := with_frames s [] in
      if negb (String.eqb (f_path fr) (s_rootPath s)) then (s, Some (ClosedWithoutParent (f_path fr)))
      else (with_root_digest s digest, None)
    | parent :: rest' =>
      if negb (String.eqb (Dir (f_path fr)) (f_path parent)) then
        (with_frames s rest, Some (MissingParent (f_path fr)))
      else (with_frames s (add_child parent (f_name fr) digest :: rest'), None)
    end
  end.

(** The loop of [add] that closes directories until the parent of the entry is on top. *)
Fixpoint closeUntil (fuel : nat) (s : stream) (parentPath : string) : stream * option TreeError :=
  match fuel, s_frames s with
  | S fuel', fr :: _ =>
    if String.eqb (f_path fr) parentPath then (s, None)
    else match closeTopDirectory s with
         | (s', Some e) => (s', Some e)
         | (s', None) => closeUntil fuel' s' parentPath
         end
  | _, _ => (s, None)
  end.

Definition failed (p : stream * TreeError) : stream * option TreeError := (fst p, Some (snd p)).

Definition add (s : stream) (info : FileInfo) : stream * option TreeError :=
  if s_finished s then (s, Some AlreadyFinished)
  else match s_err s with
  | Some e => (s, Some e)
  | None =>
    match validateEntry info with
    | Err e => failed (fail_stream s e)
    | Ok _ =>
      if negb (pathWithinRoot (s_rootPath s) (Path info)) then failed (fail_stream s (OutsideRoot (Path info)))
      else if negb (s_started s) then
        if negb (String.eqb (Path info) (s_rootPath s)) then failed (fail_stream s (FirstNotRoot (Path info)))
        else
          let s := with_count s 1 in
          if IsDir info then (with_frames s (newFrame info :: s_frames s), None)
          else (with_root_digest s (finishDigest (newNodeHasher info)), None)
      else if String.eqb (Path info) (s_rootPath s) then failed (fail_stream s (DuplicateRoot (Path info)))
      else if s_hasRootDigest s then failed (fail_stream s (FileRootFollowed (Path info)))
      else
        let parentPath := Dir (Path info) in
        match closeUntil (length (s_frames s)) s parentPath with
        | (s, Some e) => failed (fail_stream s e)
        | (s, None) =>
          match s_frames s with
          | [] => failed (fail_stream s (MissingParent (Path info)))
          | parent :: rest =>
            if negb (String.eqb (f_path parent) parentPath) then failed (fail_stream s (MissingParent (Path info)))
            else if negb (String.eqb (f_lastChildName parent) "") && String.leb (Name info) (f_lastChildName parent)
            then failed (fail_stream s (NotInOrder (Path info)))
            else
              let parent := set_last parent (Name info) in
              let s := with_count s (uint64 (s_nodeCount s + 1)) in
              if IsDir info then (with_frames s (newFrame info :: parent :: rest), None)
              else (with_frames s (add_child parent (Name info) (finishDigest (newNodeHasher info)) :: rest), None)
          end
        end
    end
  end.

(** The loop of [finish]. *)
Fixpoint closeAll (fuel : nat) (s : stream) : stream * option TreeError :=
  match fuel, s_frames s with
  | S fuel', _ :: _ =>
    match closeTopDirectory s with
    | (s', Some e) => (s', Some e)
    | (s', None) => closeAll fuel' s'
    end
  | _, _ => (s, None)
  end.

Definition finish (s : stream) : stream * result TreeError string :=
  if s_finished s then (s, Err AlreadyFinished)
  else
    let s := with_finished s in
    match s_err s with
    | Some e => (s, Err e)
    | None =>
      if negb (s_started s) then let '(s, e) := fail_stream s NoEntries in (s, Err e)
      else match closeAll (length (s_frames s)) s with
      | (s, Some e) => let '(s, e) := fail_stream s e in (s, Err e)
      | (s, None) =>
        if negb (s_hasRootDigest s) then let '(s, e) := fail_stream s NoRootDigest in (s, Err e)
        else (s, Ok (deleteTreeTargetTokenV3 (s_rootPath s) (s_rootDigest s) (s_nodeCount s)))
      end
    end.

(** A complete use of the stream: every entry added, then [finish]. *)
Fixpoint addAll (s : stream) (infos : list FileInfo) : stream * option TreeError :=
  match infos with
  | [] => (s, None)
  | info :: infos' =>
    match add s info with
    | (s', Some e) => (s', Some e)
    | (s', None) => addAll s' infos'
    end
  end.

Definition streamToken (rootPath : string) (infos : list FileInfo) : result TreeError string :=
  let! s := newDeleteTreeMerkleStreamV3 rootPath in
  match addAll s infos with
  | (_, Some e) => Err e
  | (s, None) => snd (finish s)
  end.

(** ** A concrete tree *)

Definition ex_dir (p n : string) : FileInfo :=
  {| Path := p; Name := n; IsDir := true; Mode := ModeDir + 493; Size := 4096; ModTime := 17;
     DeleteIdentityToken := "dev1"; ContentHash := ""; Versioned := false |}.
Definition ex_file (p n : string) : FileInfo :=
  {| Path := p; Name := n; IsDir := false; Mode := 420; Size := 5; ModTime := 23;
     DeleteIdentityToken := "dev2"; ContentHash := "abc"; Versioned := true |}.
Definition ex_walk : list FileInfo :=
  [ex_dir "/d" "d"; ex_dir "/d/a" "a"; ex_file "/d/a/x" "x"; ex_file "/d/b" "b"].

Example ex_stream_batch :
  streamToken "/d" ex_walk = deleteTreeTokenV3 {| Root := ex_dir "/d" "d"; Entries := rev ex_walk |} /\
  is_ok (streamToken "/d" ex_walk) = true.
Proof. vm_compute. split; reflexivity. Qed.

Example ex_stream_disorder :
  streamToken "/d" [ex_dir "/d" "d"; ex_file "/d/b" "b"; ex_file "/d/a" "a"] = Err (NotInOrder "/d/a").
Proof. vm_compute. reflexivity. Qed.

End DeleteTree.
