(* ===== verification/DeleteTreeSpec.v ===== *)
(** * The deletion token: the trees behind the two constructions

    A well-formed [tree] is a directory tree as the walk sees it.  The streaming construction
    accepts exactly the preorders of well-formed trees and returns their Merkle token
    ([stream_sound], [stream_complete]); the batch construction returns the same token for the
    entries in any order ([batch_token]); equal tokens mean equal trees, or a SHA-256 collision. *)

From Stdlib Require Import Ascii.
From stdpp Require Import sorting.
From S2P Require Import Prelude GoStrings GoPath Paths Sha256 DeleteTree.
Import DeleteTree.

Module DeleteTreeSpec.

(** ** Trees *)

Inductive tree := Node (info : FileInfo) (children : list tree).

Definition info_of (t : tree) : FileInfo := match t with Node i _ => i end.

Lemma tree_ind' (P : tree -> Prop) :
  (forall i cs, Forall P cs -> P (Node i cs)) -> forall t, P t.
Proof.
  intros H. fix IH 1. intros [i cs]. apply H.
  induction cs as [|c cs IHcs]; constructor; [apply IH|apply IHcs].
Qed.

(** The entries in walk order. *)
Fixpoint preorder (t : tree) : list FileInfo :=
  match t with Node i cs => i :: flat_map preorder cs end.

(** The bytes hashed for the children, appended to [h]. *)
Definition child_bytes (dig : tree -> string) (h : string) (cs : list tree) : string :=
  fold_left (fun h c => writeChild h (Name (info_of c)) (dig c)) cs h.

Fixpoint tree_digest (t : tree) : string :=
  match t with
  | Node i cs =>
    finishDigest
      (if IsDir i
       then writeUint64 (fold_left (fun h c => writeChild h (Name (info_of c)) (tree_digest c)) cs (newNodeHasher i))
              (Z.of_nat (length cs))
       else newNodeHasher i)
  end.

Definition tree_token (t : tree) : string :=
  deleteTreeTargetTokenV3 (Path (info_of t)) (tree_digest t) (Z.of_nat (length (preorder t))).

Definition name_lt (x y : FileInfo) : Prop := String.leb (Name y) (Name x) = false.

Definition child_of (p c : FileInfo) : Prop := Dir (Path c) = Path p /\ Path c <> Path p.

(** Entries are valid, only directories have children, a child's path is directly below its
    parent's, and siblings are in strict name order. *)
Inductive wf : tree -> Prop :=
| wf_node i cs :
    validateEntry i = Ok tt ->
    (cs <> [] -> IsDir i = true) ->
    Forall (fun c => child_of i (info_of c)) cs ->
    Sorted name_lt (map info_of cs) ->
    Forall wf cs ->
    wf (Node i cs).

(** ** Paths of valid entries *)

Definition segs (i : FileInfo) : list string := clean_segments (Path i).

Lemma valid_path i : validateEntry i = Ok tt -> Forall good_seg (segs i) /\ Path i = render (segs i).
Proof.
  intros H. assert (Hc : canonical (Path i)).
  { unfold validateEntry in H. destruct (negb (HasPrefix _ _)); [done|].
    unfold normalizeStorageWorkspacePath in H. repeat case_in H; b2p; rewrite <-E1.
    all: apply Clean_canonical, is_rooted_slash. }
  destruct Hc as (l & Hl & Heq). unfold segs. rewrite Heq, clean_segments_render; done.
Qed.

Lemma valid_name i : validateEntry i = Ok tt -> segs i <> [] -> Name i = Base (Path i) /\ Name i <> "".
Proof.
  intros H Hne. destruct (valid_path i H) as [Hg Hp].
  assert (Hn : Name i = Base (Path i)).
  { unfold validateEntry in H. repeat case_in H; b2p; try done.
    all: exfalso; apply Hne; unfold segs;
      match goal with E : Path _ = _ |- _ => by rewrite E end. }
  split; [done|]. rewrite Hn, Hp.
  destruct (exists_last Hne) as (l & w & Hs). rewrite Hs in *.
  rewrite Base_render by done. apply Forall_app in Hg as [_ Hw]. inversion Hw as [|? ? Hw' _]; subst.
  by destruct Hw' as (_ & ? & _).
Qed.

Lemma child_segs p c :
  validateEntry p = Ok tt -> validateEntry c = Ok tt -> child_of p c -> segs c = segs p ++ [Name c].
Proof.
  intros Hp Hc [Hd Hne]. destruct (valid_path p Hp) as [Hgp Hpp]. destruct (valid_path c Hc) as [Hgc Hpc].
  destruct (decide (segs c = [])) as [E|E].
  { exfalso. apply Hne. rewrite <-Hd, Hpc, E. reflexivity. }
  destruct (valid_name c Hc E) as [Hn _].
  destruct (exists_last E) as (l & w & Hs). rewrite Hs in *.
  rewrite Hpc, Dir_render, Hpp in Hd by done. rewrite Hn, Hpc, Base_render by done.
  apply render_inj in Hd; [|by apply Forall_app in Hgc as [? _]|done]. congruence.
Qed.

Lemma strip_render l w : good_seg w -> TrimSuffix (render (l ++ [w])) "/" = render (l ++ [w]).
Proof.
  intros (Hns & Hne & _). unfold TrimSuffix, HasSuffix.
  set (s := render (l ++ [w])).
  assert (Hs : exists d, s = d +:+ w).
  { unfold s. rewrite render_snoc_split.
    exists (match l with [] => "" | _ => render l end +:+ "/"). by rewrite sapp_assoc. }
  destruct Hs as [d Hs]. rewrite Hs. clear s Hs. destruct (Nat.leb _ _) eqn:E0; [|done]. simpl.
  destruct (String.eqb _ "/") eqn:E; [|done]. b2p. exfalso.
  assert (Hdrop : forall d w, w <> "" ->
    exists w', str_drop (String.length (d +:+ w) - 1) (d +:+ w) = w' /\ exists u, w = u +:+ w').
  { clear. intros d w Hw. induction d as [|a d IH].
    - induction w as [|b w IHw]; [done|]. destruct w as [|b' w].
      + exists (String b ""). split; [done|]. by exists "".
      + destruct IHw as (w' & H1 & u & H2); [done|]. exists w'. split.
        * simpl in *. rewrite Nat.sub_0_r in *. exact H1.
        * exists (String b u). simpl. by rewrite <-H2.
    - destruct IH as (w' & H1 & H2). exists w'. split; [|done]. simpl.
      rewrite <-H1. rewrite sapp_length. destruct (String.length d + String.length w)%nat eqn:El.
      + destruct w; [done|]. simpl in El. lia.
      + simpl. by rewrite Nat.sub_0_r. }
  destruct (Hdrop d w Hne) as (w' & H1 & u & H2). simpl in E. rewrite H1 in E. subst w'.
  unfold no_slash in Hns. rewrite H2, contains_byte_app in Hns. simpl in Hns.
  by rewrite orb_true_r in Hns.
Qed.

Lemma within_root r i :
  validateEntry r = Ok tt -> validateEntry i = Ok tt -> segs r `prefix_of` segs i ->
  pathWithinRoot (Path r) (Path i) = true.
Proof.
  intros Hr Hi Hpre. destruct (valid_path r Hr) as [Hgr Hpr]. destruct (valid_path i Hi) as [Hgi Hpi].
  unfold pathWithinRoot. destruct (String.eqb (Path i) (Path r)) eqn:E1; [done|].
  destruct (String.eqb (Path r) "/") eqn:E2; b2p; [rewrite Hpi; apply render_rooted|].
  assert (Hne : segs r <> []) by (intros E; apply E2; by rewrite Hpr, E).
  destruct (exists_last Hne) as (l & w & Hs).
  assert (TrimSuffix (Path r) "/" = Path r) as ->.
  { rewrite Hpr, Hs in *. apply strip_render. apply Forall_app in Hgr as [_ Hw]. by inversion Hw. }
  rewrite Hpr, Hpi. destruct (proj2 (render_prefix_iff (segs r) (segs i) Hgr Hgi Hne) Hpre) as [?|?]; [congruence|done].
Qed.

(** ** Zippers: the frame stack of a stream in progress

    The open directories, innermost first, each with its completed children. *)

Abbreviation zipper := (list (FileInfo * list tree)).

Definition last_name (ch : list tree) : string :=
  match last ch with Some t => Name (info_of t) | None => "" end.

Definition frame_of (lst : string) (i : FileInfo) (ch : list tree) : frame :=
  {| f_path := Path i; f_name := Name i; f_hasher := child_bytes tree_digest (newNodeHasher i) ch;
     f_childCount := uint64 (Z.of_nat (length ch)); f_lastChildName := lst |}.

Fixpoint frames_below (lst : string) (z : zipper) : list frame :=
  match z with
  | [] => []
  | (i, ch) :: rest => frame_of lst i ch :: frames_below (Name i) rest
  end.

Definition frames (z : zipper) : list frame :=
  match z with
  | [] => []
  | (i, ch) :: rest => frame_of (last_name ch) i ch :: frames_below (Name i) rest
  end.

Fixpoint preorder_zip (z : zipper) : list FileInfo :=
  match z with
  | [] => []
  | (i, ch) :: rest => preorder_zip rest ++ i :: flat_map preorder ch
  end.

Record node_ok (i : FileInfo) (ch : list tree) : Prop := {
  no_valid : validateEntry i = Ok tt;
  no_dir : IsDir i = true;
  no_child : Forall (fun c => child_of i (info_of c)) ch;
  no_sorted : Sorted name_lt (map info_of ch);
  no_wf : Forall wf ch;
}.

Fixpoint zip_ok (root : string) (z : zipper) : Prop :=
  match z with
  | [] => False
  | [(i, ch)] => node_ok i ch /\ Path i = root
  | (i, ch) :: (((pi, pch) :: _) as rest) =>
    node_ok i ch /\ child_of pi i /\ Sorted name_lt (map info_of pch ++ [i]) /\ zip_ok root rest
  end.

(** The zipper after closing directories until the one at path [p] is innermost. *)
Fixpoint flush (n : nat) (p : string) (z : zipper) : option zipper :=
  match n, z with
  | S n', (i, ch) :: rest =>
    if String.eqb (Path i) p then Some z
    else match rest with
         | [] => None
         | (pi, pch) :: rest' => flush n' p ((pi, pch ++ [Node i ch]) :: rest')
         end
  | _, _ => None
  end.

Lemma node_wf i ch : node_ok i ch -> wf (Node i ch).
Proof. intros []. by constructor. Qed.

Lemma node_ok_snoc i ch t :
  node_ok i ch -> child_of i (info_of t) -> Sorted name_lt (map info_of ch ++ [info_of t]) -> wf t ->
  node_ok i (ch ++ [t]).
Proof.
  intros [] Hc Hs Hw. split; [done|done| | |].
  - apply Forall_app. by split; [|constructor].
  - by rewrite map_app.
  - apply Forall_app. by split; [|constructor].
Qed.

(** Closing the innermost directory of a zipper. *)
Lemma zip_close root i ch pi pch rest :
  zip_ok root ((i, ch) :: (pi, pch) :: rest) -> zip_ok root ((pi, pch ++ [Node i ch]) :: rest).
Proof.
  intros (Hn & Hc & Hs & Hz). destruct rest as [|[qi qch] rest]; simpl in *.
  - destruct Hz as [Hp ?]. split; [|done]. by apply node_ok_snoc; [| | |apply node_wf].
  - destruct Hz as (Hp & ? & ? & ?). split_and!; try done.
    by apply node_ok_snoc; [| | |apply node_wf].
Qed.

Lemma preorder_close i ch pi pch rest :
  preorder_zip ((pi, pch ++ [Node i ch]) :: rest) = preorder_zip ((i, ch) :: (pi, pch) :: rest).
Proof. simpl. rewrite flat_map_app. simpl. by rewrite app_nil_r, <-app_assoc. Qed.

Lemma flush_ok root n p z z' :
  zip_ok root z -> flush n p z = Some z' ->
  zip_ok root z' /\ preorder_zip z' = preorder_zip z /\
  exists i ch rest, z' = (i, ch) :: rest /\ Path i = p.
Proof.
  revert z. induction n as [|n IH]; intros [|[i ch] rest] Hz H; simpl in H; try done.
  destruct (String.eqb (Path i) p) eqn:E; b2p.
  - simplify_eq. naive_solver.
  - destruct rest as [|[pi pch] rest]; [done|].
    apply IH in H as (? & Hp & ?); [|by eapply zip_close].
    rewrite preorder_close in Hp. done.
Qed.

(** ** The stream follows the zipper *)

Record running (root : string) (s : stream) (infos : list FileInfo) : Prop := {
  ru_root : s_rootPath s = root;
  ru_err : s_err s = None;
  ru_started : s_started s = true;
  ru_nohash : s_hasRootDigest s = false;
  ru_count : s_nodeCount s = uint64 (Z.of_nat (length infos));
}.

Lemma uint64_succ n : uint64 (uint64 (Z.of_nat n) + 1) = uint64 (Z.of_nat (S n)).
Proof. unfold uint64, two64. rewrite Zplus_mod_idemp_l. f_equal. lia. Qed.

Lemma frame_snoc lst i ch t :
  add_child (frame_of lst i ch) (Name (info_of t)) (tree_digest t) = frame_of lst i (ch ++ [t]).
Proof.
  unfold add_child, frame_of. simpl. f_equal.
  - unfold child_bytes. by rewrite fold_left_app.
  - rewrite length_app. simpl. rewrite uint64_succ. f_equal. lia.
Qed.

Lemma last_name_snoc ch t : last_name (ch ++ [t]) = Name (info_of t).
Proof. unfold last_name. by rewrite last_snoc. Qed.

Lemma writeUint64_mod h v : writeUint64 h (uint64 v) = writeUint64 h v.
Proof. unfold writeUint64, uint64. by rewrite Zmod_mod. Qed.

(** The digest of the innermost directory. *)
Lemma close_digest lst i ch :
  IsDir i = true ->
  finishDigest (writeUint64 (f_hasher (frame_of lst i ch)) (f_childCount (frame_of lst i ch))) =
  tree_digest (Node i ch).
Proof. intros Hd. simpl. rewrite Hd, writeUint64_mod. done. Qed.

Lemma close_zip root s i ch pi pch rest :
  zip_ok root ((i, ch) :: (pi, pch) :: rest) -> s_frames s = frames ((i, ch) :: (pi, pch) :: rest) ->
  closeTopDirectory s = (with_frames s (frames ((pi, pch ++ [Node i ch]) :: rest)), None).
Proof.
  intros (Hn & [Hd _] & _ & _) Hf. unfold closeTopDirectory. rewrite Hf.
  cbn [frames frames_below]. rewrite close_digest by apply Hn.
  simpl. rewrite Hd, String.eqb_refl. simpl.
  rewrite last_name_snoc. change (Name i) with (Name (info_of (Node i ch))).
  by rewrite frame_snoc.
Qed.

Lemma with_frames_twice s f g : with_frames (with_frames s f) g = with_frames s g.
Proof. done. Qed.

Lemma closeUntil_flush root p n s z :
  zip_ok root z -> s_rootPath s = root -> s_frames s = frames z -> (length z <= n)%nat ->
  match flush n p z with
  | Some z' => closeUntil n s p = (with_frames s (frames z'), None)
  | None => exists s', closeUntil n s p = (s', None) /\ s_frames s' = []
  end.
Proof.
  revert s z. induction n as [|n IH]; intros s [|[i ch] rest] Hz Hr Hf Hn; simpl in Hn; [done|lia|done|].
  cbn [flush closeUntil]. rewrite Hf. cbn [frames]. simpl f_path.
  destruct (String.eqb (Path i) p) eqn:E.
  { f_equal. destruct s; simpl in *. by subst. }
  destruct rest as [|[pi pch] rest].
  - destruct Hz as [Hno Hp]. unfold closeTopDirectory. rewrite Hf. simpl.
    rewrite Hr, Hp, String.eqb_refl. simpl. destruct n; simpl; eauto.
  - rewrite (close_zip root s i ch pi pch rest) by done.
    specialize (IH (with_frames s (frames ((pi, pch ++ [Node i ch]) :: rest))) ((pi, pch ++ [Node i ch]) :: rest)).
    apply IH; [by eapply zip_close|done|done|simpl in *; lia].
Qed.

Lemma frames_length z : length (frames z) = length z.
Proof.
  assert (forall z l, length (frames_below l z) = length z) as Hb.
  { clear. induction z as [|[i ch] z IH]; intros l; simpl; [done|]. by rewrite IH. }
  destruct z as [|[i ch] z]; simpl; [done|]. by rewrite Hb.
Qed.

(** ** Adding one entry *)

Definition push (info pi : FileInfo) (pch : list tree) (rest : zipper) : zipper :=
  if IsDir info then (info, []) :: (pi, pch) :: rest else (pi, pch ++ [Node info []]) :: rest.

(** The state after an accepted entry. *)
Definition pushed (s : stream) (z : zipper) : stream :=
  with_frames (with_count s (uint64 (s_nodeCount s + 1))) (frames z).

Record adding (root : string) (s : stream) (z : zipper) (infos : list FileInfo) : Prop := {
  ad_running : running root s infos;
  ad_open : s_finished s = false;
  ad_zip : zip_ok root z;
  ad_frames : s_frames s = frames z;
  ad_infos : preorder_zip z = infos;
}.

Definition in_order (info : FileInfo) (pch : list tree) : Prop :=
  last_name pch = "" \/ String.leb (Name info) (last_name pch) = false.

Lemma add_eq root s z infos info pi pch rest :
  adding root s z infos -> validateEntry info = Ok tt -> pathWithinRoot root (Path info) = true ->
  Path info <> root -> flush (length z) (Dir (Path info)) z = Some ((pi, pch) :: rest) ->
  in_order info pch -> add s info = (pushed s (push info pi pch rest), None).
Proof.
  intros [[Hroot Herr Hst Hnh Hcnt] Hopen Hz Hfr Hinf] Hv Hin Hne Hfl Hord.
  unfold add. rewrite Hopen, Herr, Hv, Hroot, Hin, Hst, Hnh. simpl.
  apply String.eqb_neq in Hne as ->.
  pose proof (closeUntil_flush root (Dir (Path info)) (length z) s z Hz Hroot Hfr ltac:(lia)) as Hc.
  rewrite Hfl in Hc. rewrite Hfr, frames_length, Hc. simpl.
  destruct (flush_ok _ _ _ _ _ Hz Hfl) as (_ & _ & i0 & ch0 & r0 & [= <- <- <-] & Hp).
  rewrite Hp, String.eqb_refl. simpl.
  assert (negb (String.eqb (last_name pch) "") && String.leb (Name info) (last_name pch) = false) as ->.
  { destruct Hord as [->| ->]; [done|by rewrite andb_false_r]. }
  unfold pushed, push. destruct (IsDir info) eqn:Ed; [done|].
  do 2 f_equal. unfold pushed. f_equal. cbn [frames frames_below]. rewrite last_name_snoc. f_equal.
  rewrite <-frame_snoc. simpl tree_digest. rewrite Ed. done.
Qed.

Lemma add_inv root s z infos info s' :
  adding root s z infos -> add s info = (s', None) ->
  validateEntry info = Ok tt /\ pathWithinRoot root (Path info) = true /\ Path info <> root /\
  exists pi pch rest, flush (length z) (Dir (Path info)) z = Some ((pi, pch) :: rest) /\ in_order info pch.
Proof.
  intros [[Hroot Herr Hst Hnh Hcnt] Hopen Hz Hfr Hinf] H. unfold add in H.
  rewrite Hopen, Herr, Hroot, Hst, Hnh in H. simpl in H.
  destruct (validateEntry info) as [[]|]; [|done].
  destruct (pathWithinRoot root (Path info)); [|done]. simpl in H.
  destruct (String.eqb (Path info) root) eqn:E; [done|]. b2p. split_and!; [done..|].
  pose proof (closeUntil_flush root (Dir (Path info)) (length z) s z Hz Hroot Hfr ltac:(lia)) as Hc.
  rewrite Hfr, frames_length in H.
  destruct (flush (length z) (Dir (Path info)) z) as [z'|] eqn:Hfl; cycle 1.
  { destruct Hc as (s'' & Hc & Hnil). rewrite Hc, Hnil in H. done. }
  destruct (flush_ok _ _ _ _ _ Hz Hfl) as (_ & _ & i0 & ch0 & r0 & -> & Hp).
  exists i0, ch0, r0. split; [done|]. rewrite Hc in H. simpl in H. rewrite Hp, String.eqb_refl in H.
  simpl in H. unfold in_order.
  destruct (String.eqb (last_name ch0) "") eqn:E1; b2p; [by left|].
  destruct (String.leb (Name info) (last_name ch0)) eqn:E2; [done|by right].
Qed.

(** The bottom of a zipper is the root, and every open directory is below it. *)
Lemma zip_within root i ch rest :
  zip_ok root ((i, ch) :: rest) ->
  validateEntry i = Ok tt /\ clean_segments root `prefix_of` segs i /\
  (exists r, validateEntry r = Ok tt /\ Path r = root) /\ (Path i = root -> rest = []).
Proof.
  revert i ch. induction rest as [|[pi pch] rest IH]; intros i ch Hz.
  - destruct Hz as [[Hv] <-]. split_and!; eauto.
  - destruct Hz as ([Hv] & Hc & _ & Hz). destruct (IH _ _ Hz) as (Hvp & Hpre & Hr & _).
    pose proof (child_segs _ _ Hvp Hv Hc) as Hs.
    split_and!; [done| |done|].
    + etrans; [exact Hpre|]. rewrite Hs. by eexists.
    + intros Heq. exfalso. apply (f_equal clean_segments) in Heq. fold (segs i) in Heq.
      apply prefix_length in Hpre. rewrite <-Heq, Hs, length_app in Hpre. simpl in Hpre. lia.
Qed.

Lemma Sorted_snoc_name ch t :
  Sorted name_lt (map info_of ch) ->
  (forall t', last ch = Some t' -> name_lt (info_of t') t) -> Sorted name_lt (map info_of ch ++ [t]).
Proof.
  induction ch as [|c ch IH]; simpl; intros Hs Hl; [by repeat constructor|].
  inversion Hs as [|? ? Hs' Hhd]; subst. constructor.
  - apply IH; [done|]. intros t' Ht'. apply Hl. destruct ch; [done|]. exact Ht'.
  - destruct ch as [|c' ch]; simpl; constructor.
    + by apply Hl.
    + by inversion Hhd.
Qed.

(** The entry is a child of the directory that receives it. *)
Lemma push_child root i ch rest info :
  zip_ok root ((i, ch) :: rest) -> validateEntry info = Ok tt -> Path info <> root ->
  Path i = Dir (Path info) -> child_of i info.
Proof.
  intros Hz Hv Hne Hp. split; [done|]. intros Heq. destruct (valid_path _ Hv) as [Hg Hr].
  destruct (decide (segs info = [])) as [E|E]; cycle 1.
  { destruct (exists_last E) as (l & w & Hs). rewrite Hs in *.
    rewrite Hr, Dir_render in Hp by done. rewrite Heq, Hp in Hr.
    apply render_inj in Hr; [|by apply Forall_app in Hg as [? _]|done].
    apply (f_equal length) in Hr. rewrite length_app in Hr. simpl in Hr. lia. }
  destruct rest as [|[pi pch] rest].
  - destruct Hz as [_ ?]. congruence.
  - destruct Hz as (_ & [Hd Hn] & _ & _). apply Hn. rewrite <-Hd.
    rewrite <-Heq, Hr, E. reflexivity.
Qed.

Lemma in_order_sorted i pch info :
  node_ok i pch -> in_order info pch -> Sorted name_lt (map info_of pch ++ [info]).
Proof.
  intros [Hv _ Hch Hs Hw] Ho. apply Sorted_snoc_name; [done|]. intros t Ht.
  destruct Ho as [Ho|Ho]; unfold last_name in Ho; rewrite Ht in Ho; [|done].
  exfalso. apply last_Some_elem_of in Ht. rewrite Forall_forall in Hch, Hw.
  assert (Hvt : validateEntry (info_of t) = Ok tt) by (specialize (Hw _ Ht); by destruct Hw).
  pose proof (child_segs _ _ Hv Hvt (Hch _ Ht)) as Hseg.
  apply valid_name in Hvt as [_ ?]; [done|]. rewrite Hseg. by destruct (segs i).
Qed.

(** One accepted entry, from the zipper to the zipper. *)
Lemma add_adding root s z infos info pi pch rest :
  adding root s z infos -> validateEntry info = Ok tt -> pathWithinRoot root (Path info) = true ->
  Path info <> root -> flush (length z) (Dir (Path info)) z = Some ((pi, pch) :: rest) ->
  in_order info pch -> adding root (pushed s (push info pi pch rest)) (push info pi pch rest) (infos ++ [info]).
Proof.
  intros [[Hroot Herr Hst Hnh Hcnt] Hopen Hz Hfr Hinf] Hv Hin Hne Hfl Hord.
  destruct (flush_ok _ _ _ _ _ Hz Hfl) as (Hz' & Hpre & i0 & ch0 & r0 & [= <- <- <-] & Hp).
  assert (Hc : child_of pi info) by by eapply push_child.
  assert (Hno : node_ok pi pch) by (destruct rest as [|[? ?] ?]; by destruct Hz').
  assert (Hs : Sorted name_lt (map info_of pch ++ [info])) by by apply (in_order_sorted pi).
  assert (Hwf : wf (Node info [])) by by constructor.
  split; try done.
  - split; try done. simpl. rewrite Hcnt, uint64_succ, length_app. simpl. do 2 f_equal. lia.
  - unfold push. destruct (IsDir info) eqn:Ed.
    + split_and!; try done.
    + destruct rest as [|[qi qch] rest]; simpl in *.
      * destruct Hz'. split; [by apply node_ok_snoc|done].
      * destruct Hz' as (? & ? & ? & ?). split_and!; try done. by apply node_ok_snoc.
  - rewrite <-Hinf, <-Hpre. unfold push. destruct (IsDir info); simpl; [done|].
    rewrite flat_map_app, <-app_assoc. done.
Qed.

Lemma addAll_adding root s z infos more s' :
  adding root s z infos -> addAll s more = (s', None) -> exists z', adding root s' z' (infos ++ more).
Proof.
  revert s z infos. induction more as [|info more IH]; intros s z infos Ha H; simpl in H.
  - simplify_eq. rewrite app_nil_r. eauto.
  - destruct (add s info) as [s1 [e|]] eqn:E; [done|].
    destruct (add_inv _ _ _ _ _ _ Ha E) as (Hv & Hin & Hne & pi & pch & rest & Hfl & Hord).
    pose proof (add_adding _ _ _ _ _ _ _ _ Ha Hv Hin Hne Hfl Hord) as Ha1.
    rewrite (add_eq _ _ _ _ _ _ _ _ Ha Hv Hin Hne Hfl Hord) in E. simplify_eq.
    destruct (IH _ _ _ Ha1 H) as [z' Hz']. exists z'. by rewrite cons_middle, app_assoc.
Qed.

(** Closing everything yields the whole tree. *)
Lemma closeAll_flush root n s z :
  zip_ok root z -> s_rootPath s = root -> s_frames s = frames z -> (length z <= n)%nat ->
  exists r ch, flush n root z = Some [(r, ch)] /\ node_ok r ch /\ Path r = root /\
    closeAll n s = (with_root_digest (with_frames s []) (tree_digest (Node r ch)), None).
Proof.
  revert s z. induction n as [|n IH]; intros s [|[i ch] rest] Hz Hr Hf Hn; simpl in Hn; [done|lia|done|].
  pose proof (zip_within _ _ _ _ Hz) as (_ & _ & _ & Hroot).
  cbn [flush closeAll]. rewrite Hf. cbn [frames].
  destruct rest as [|[pi pch] rest].
  - destruct Hz as [Hno Hp]. rewrite Hp, String.eqb_refl. exists i, ch. split_and!; [done..|].
    unfold closeTopDirectory. rewrite Hf. cbn [frames frames_below].
    rewrite close_digest by apply Hno. simpl f_path. simpl s_rootPath.
    rewrite Hr, Hp, String.eqb_refl. simpl negb. cbn iota. by destruct n.
  - destruct (String.eqb (Path i) root) eqn:E; b2p; [by specialize (Hroot E)|].
    rewrite (close_zip root s i ch pi pch rest) by done.
    apply (IH (with_frames s (frames ((pi, pch ++ [Node i ch]) :: rest))));
      [by eapply zip_close|done|done|simpl in *; lia].
Qed.

(** ** Soundness of the stream *)

Definition new_stream (rootPath : string) : stream :=
  {| s_rootPath := rootPath; s_frames := []; s_rootDigest := ""; s_nodeCount := 0;
     s_started := false; s_finished := false; s_hasRootDigest := false; s_err := None |}.

Lemma new_stream_inv r s : newDeleteTreeMerkleStreamV3 r = Ok s -> s = new_stream r.
Proof. unfold newDeleteTreeMerkleStreamV3. intros H. repeat case_in H; by simplify_eq. Qed.

Lemma new_stream_valid i : validateEntry i = Ok tt -> newDeleteTreeMerkleStreamV3 (Path i) = Ok (new_stream (Path i)).
Proof.
  unfold validateEntry, newDeleteTreeMerkleStreamV3. intros H.
  destruct (negb (HasPrefix _ _)); [done|]. destruct (normalizeStorageWorkspacePath _) as [n|]; [|done].
  by destruct (negb (String.eqb n _)).
Qed.

(** The first entry of a walk. *)
Lemma add_first r info :
  validateEntry info = Ok tt -> Path info = r ->
  add (new_stream r) info =
    (if IsDir info then with_frames (with_count (new_stream r) 1) [newFrame info]
     else with_root_digest (with_count (new_stream r) 1) (finishDigest (newNodeHasher info)), None).
Proof.
  intros Hv <-. unfold add. simpl. rewrite Hv. unfold pathWithinRoot. rewrite String.eqb_refl. simpl.
  by destruct (IsDir info).
Qed.

Lemma add_first_inv r info s' :
  add (new_stream r) info = (s', None) -> validateEntry info = Ok tt /\ Path info = r.
Proof.
  unfold add. simpl. destruct (validateEntry info) as [[]|]; [|done].
  destruct (pathWithinRoot r (Path info)); [|done]. simpl.
  destruct (String.eqb (Path info) r) eqn:E; [|done]. b2p. done.
Qed.

Lemma first_adding info :
  validateEntry info = Ok tt -> IsDir info = true ->
  adding (Path info) (with_frames (with_count (new_stream (Path info)) 1) [newFrame info]) [(info, [])] [info].
Proof. intros Hv Hd. split; [by split|done| |done|done]. simpl. split; [by split|done]. Qed.

(** After a file root nothing more is accepted. *)
Lemma file_root_closed r d info more s' :
  addAll (with_root_digest (with_count (new_stream r) 1) d) (info :: more) = (s', None) -> False.
Proof.
  simpl. unfold add. simpl. destruct (validateEntry info); [|done].
  destruct (pathWithinRoot r (Path info)); [|done]. simpl.
  by destruct (String.eqb (Path info) r).
Qed.

(** Finishing a walk in progress yields the token of its tree. *)
Lemma finish_adding root s z infos :
  adding root s z infos ->
  exists t, wf t /\ preorder t = infos /\ Path (info_of t) = root /\
    (forall ch, flush (length z) root z = Some [(info_of t, ch)] -> t = Node (info_of t) ch) /\
    snd (finish s) = Ok (tree_token t).
Proof.
  intros [[Hroot Herr Hst Hnh Hcnt] Hopen Hz Hfr Hinf].
  destruct (closeAll_flush root (length z) (with_finished s) z Hz Hroot Hfr ltac:(lia))
    as (r & ch & Hfl & Hno & Hp & Hc).
  destruct (flush_ok _ _ _ _ _ Hz Hfl) as (_ & Hpre & _). simpl in Hpre.
  exists (Node r ch). split_and!; [by apply node_wf|by rewrite <-Hinf, <-Hpre|done| |].
  - intros ch' H'. simpl in H'. rewrite Hfl in H'. by simplify_eq.
  - unfold finish. rewrite Hopen. simpl. rewrite Herr, Hst. simpl.
    rewrite Hfr, frames_length, Hc. simpl. rewrite Hcnt. unfold tree_token. f_equal.
    unfold deleteTreeTargetTokenV3. simpl info_of. rewrite Hroot, Hp, writeUint64_mod.
    assert (infos = preorder (Node r ch)) as -> by (by rewrite <-Hinf, <-Hpre). done.
Qed.

Lemma stream_sound_tree rootPath infos tok :
  streamToken rootPath infos = Ok tok ->
  exists t, wf t /\ preorder t = infos /\ Path (info_of t) = rootPath /\ tok = tree_token t.
Proof.
  unfold streamToken. intros H. destruct (newDeleteTreeMerkleStreamV3 rootPath) as [s|] eqn:En; [|done].
  apply new_stream_inv in En as ->.
  destruct (addAll (new_stream rootPath) infos) as [s' [e|]] eqn:Ea; [done|].
  destruct infos as [|info more]; [simpl in Ea; simplify_eq; done|].
  simpl in Ea. destruct (add (new_stream rootPath) info) as [s1 [e|]] eqn:E1; [done|].
  destruct (add_first_inv _ _ _ E1) as [Hv Hp]. rewrite add_first in E1 by done. simplify_eq.
  destruct (IsDir info) eqn:Ed.
  - destruct (addAll_adding _ _ _ _ _ _ (first_adding info Hv Ed) Ea) as [z' Ha].
    apply finish_adding in Ha as (t & ? & ? & ? & _ & Hf). rewrite H in Hf. simplify_eq. eauto.
  - destruct more; [|by apply file_root_closed in Ea]. simpl in Ea. simplify_eq.
    exists (Node info []). unfold tree_token. simpl in H |- *. rewrite Ed.
    split_and!; try done. unfold finish in H. simpl in H. by simplify_eq.
Qed.

(** ** Completeness of the stream *)

Lemma flush_depth root n p z i ch rest :
  zip_ok root z -> flush n p z = Some ((i, ch) :: rest) ->
  forall j jch zr, z = (j, jch) :: zr -> (length (segs i) <= length (segs j))%nat.
Proof.
  revert z. induction n as [|n IH]; intros z Hz H j jch zr ->; [done|]. simpl in H.
  destruct (String.eqb (Path j) p); [by simplify_eq|].
  destruct zr as [|[pi pch] zr]; [done|].
  pose proof (zip_within _ _ _ _ Hz) as (Hvj & _).
  pose proof (zip_within _ _ _ _ (zip_close _ _ _ _ _ _ Hz)) as (Hvp & _).
  specialize (IH _ (zip_close _ _ _ _ _ _ Hz) H _ _ _ eq_refl).
  destruct Hz as (_ & Hc & _). rewrite (child_segs _ _ Hvp Hvj Hc), length_app. lia.
Qed.

(** Flushing to a directory and then to its parent. *)
Lemma flush_further root n z i ch pi pch rest :
  zip_ok root z -> (length z <= n)%nat ->
  flush n (Path i) z = Some ((i, ch) :: (pi, pch) :: rest) ->
  flush n (Path pi) z = Some ((pi, pch ++ [Node i ch]) :: rest).
Proof.
  intros Hz Hn H.
  pose proof (flush_ok _ _ _ _ _ Hz H) as (Hz' & _ & _).
  pose proof (zip_within _ _ _ _ Hz') as (Hvi & _).
  pose proof (zip_within _ _ _ _ (zip_close _ _ _ _ _ _ Hz')) as (Hvp & _).
  destruct Hz' as (_ & Hc & _). pose proof (child_segs _ _ Hvp Hvi Hc) as Hseg.
  revert z Hz Hn H. induction n as [|n IH]; intros [|[j jch] zr] Hz Hn H; try done.
  pose proof (flush_depth _ _ _ _ _ _ _ Hz H j jch zr eq_refl) as Hdep.
  assert (Hj : Path j <> Path pi).
  { intros Heq. assert (segs j = segs pi) as Hs by (unfold segs; by rewrite Heq).
    rewrite Hs, Hseg, length_app in Hdep. simpl in Hdep. lia. }
  cbn [flush] in H |- *. apply String.eqb_neq in Hj as ->.
  destruct (String.eqb (Path j) (Path i)) eqn:E.
  - simplify_eq. simpl in Hn. destruct n as [|n]; [lia|]. simpl. by rewrite String.eqb_refl.
  - destruct zr as [|[qi qch] zr]; [done|]. apply IH; [by eapply zip_close|simpl in *; lia|done].
Qed.

Lemma addAll_app s l1 l2 :
  addAll s (l1 ++ l2) = match addAll s l1 with (s', Some e) => (s', Some e) | (s', None) => addAll s' l2 end.
Proof. revert s. induction l1 as [|x l1 IH]; intros s; simpl; [done|]. by destruct (add s x) as [? [?|]]. Qed.

(** The state reached: a walk in progress whose directory [pi] has the children [ch]. *)
Definition at_dir (root : string) (s : stream) (infos : list FileInfo) (pi : FileInfo) (ch : list tree)
    (rest : zipper) : Prop :=
  exists z, adding root s z infos /\ flush (length z) (Path pi) z = Some ((pi, ch) :: rest).

Lemma flush_top root z : zip_ok root z -> forall i ch rest, z = (i, ch) :: rest ->
  flush (length z) (Path i) z = Some z.
Proof. intros _ i ch rest ->. simpl. by rewrite String.eqb_refl. Qed.

Definition accepts (t : tree) : Prop := forall root s infos pi pch rest,
  at_dir root s infos pi pch rest -> wf t -> child_of pi (info_of t) ->
  Sorted name_lt (map info_of pch ++ [info_of t]) ->
  exists s', addAll s (preorder t) = (s', None) /\
    at_dir root s' (infos ++ preorder t) pi (pch ++ [t]) rest.

Lemma sorted_in_order pch info : Sorted name_lt (map info_of pch ++ [info]) -> in_order info pch.
Proof.
  intros H. unfold in_order, last_name.
  destruct (last pch) as [t|] eqn:E; [right|by left].
  apply last_Some in E as [l ->]. rewrite map_app, <-app_assoc in H. simpl in H.
  clear -H. induction l as [|x l IH]; simpl in H.
  - inversion H as [|? ? _ Hhd]; subst. by inversion Hhd.
  - inversion H. by apply IH.
Qed.

(** A run of siblings. *)
Lemma accepts_forest cs : Forall accepts cs -> forall root s infos pi pch rest,
  at_dir root s infos pi pch rest -> Forall wf cs -> Forall (fun c => child_of pi (info_of c)) cs ->
  Sorted name_lt (map info_of pch ++ map info_of cs) ->
  exists s', addAll s (flat_map preorder cs) = (s', None) /\
    at_dir root s' (infos ++ flat_map preorder cs) pi (pch ++ cs) rest.
Proof.
  induction 1 as [|c cs Hc _ IH]; intros root s infos pi pch rest Hat Hw Hch Hs; simpl.
  - exists s. by rewrite !app_nil_r.
  - apply Forall_cons in Hw as [Hwc Hw], Hch as [Hcc Hch]. simpl in Hs.
    destruct (Hc root s infos pi pch rest) as (s1 & H1 & Hat1); try done.
    { rewrite cons_middle, app_assoc in Hs. clear -Hs.
      induction (map info_of pch ++ [info_of c]) as [|x l IHl]; [constructor|].
      inversion Hs as [|? ? Hs' Hhd]; subst. constructor; [by apply IHl|].
      destruct l; [constructor|]. simpl in Hhd. inversion Hhd; subst. by constructor. }
    destruct (IH root s1 (infos ++ preorder c) pi (pch ++ [c]) rest) as (s2 & H2 & Hat2); try done.
    { rewrite map_app, <-app_assoc. done. }
    exists s2. rewrite addAll_app, H1. split; [done|]. by rewrite <-!app_assoc in Hat2.
Qed.

Lemma accepts_all t : accepts t.
Proof.
  induction t as [i cs IH] using tree_ind'. intros root s infos pi pch rest (z & Ha & Hfl) Hw Hc Hs.
  inversion Hw as [? ? Hv Hdir Hch Hsort Hws]; subst. simpl info_of in *.
  pose proof (ad_zip _ _ _ _ Ha) as Hz.
  destruct (flush_ok _ _ _ _ _ Hz Hfl) as (Hz' & _ & _).
  destruct (zip_within _ _ _ _ Hz') as (Hvp & Hpre & (r & Hvr & Hr) & _).
  pose proof (child_segs _ _ Hvp Hv Hc) as Hseg. rewrite <-Hr in Hpre. fold (segs r) in Hpre.
  assert (Hin : pathWithinRoot root (Path i) = true).
  { rewrite <-Hr. apply within_root; try done. rewrite Hseg. etrans; [exact Hpre|by eexists]. }
  assert (Hne : Path i <> root).
  { intros Heq. rewrite <-Hr in Heq. apply (f_equal clean_segments) in Heq. fold (segs i) (segs r) in Heq.
    apply prefix_length in Hpre. rewrite <-Heq, Hseg, length_app in Hpre. simpl in Hpre. lia. }
  destruct Hc as [Hd Hnp]. rewrite <-Hd in Hfl.
  pose proof (sorted_in_order _ _ Hs) as Hord.
  pose proof (add_eq _ _ _ _ _ _ _ _ Ha Hv Hin Hne Hfl Hord) as Hadd.
  pose proof (add_adding _ _ _ _ _ _ _ _ Ha Hv Hin Hne Hfl Hord) as Ha1.
  cbn [preorder addAll]. rewrite Hadd. unfold push in *.
  destruct (IsDir i) eqn:Ed.
  - destruct (accepts_forest cs IH root (pushed s ((i, []) :: (pi, pch) :: rest)) (infos ++ [i]) i []
      ((pi, pch) :: rest)) as (s2 & H2 & z2 & Ha2 & Hf2); try done.
    { eexists. split; [exact Ha1|]. simpl. by rewrite String.eqb_refl. }
    exists s2. split; [done|]. exists z2. rewrite <-app_assoc in Ha2. split; [done|].
    eapply flush_further; [apply Ha2|done|exact Hf2].
  - destruct cs as [|c cs]; [|by specialize (Hdir ltac:(done))]. simpl.
    eexists. split; [done|]. eexists. split; [exact Ha1|]. simpl. by rewrite String.eqb_refl.
Qed.

Lemma stream_complete_tree t : wf t -> streamToken (Path (info_of t)) (preorder t) = Ok (tree_token t).
Proof.
  intros Hw. destruct t as [i cs]. inversion Hw as [? ? Hv Hdir Hch Hsort Hws]; subst. simpl info_of.
  unfold streamToken. rewrite new_stream_valid by done. cbn [preorder addAll].
  rewrite add_first by done. destruct (IsDir i) eqn:Ed.
  - destruct (accepts_forest cs) with (root := Path i) (infos := [i]) (pi := i) (pch := @nil tree) (rest := @nil (FileInfo * list tree))
      (s := with_frames (with_count (new_stream (Path i)) 1) [newFrame i])
      as (s2 & H2 & z2 & Ha2 & Hf2); try done.
    { apply Forall_forall. intros c _. apply accepts_all. }
    { exists [(i, [])]. split; [by apply first_adding|]. simpl. by rewrite String.eqb_refl. }
    rewrite H2. destruct (finish_adding _ _ _ _ Ha2) as (t & _ & Hp & Hroot & Ht & Hf).
    rewrite Hf. do 2 f_equal.
    assert (info_of t = i) as Hi by (destruct t; simpl in Hp; by injection Hp).
    rewrite Hi in Ht. by rewrite (Ht _ Hf2).
  - destruct cs as [|c cs]; [|by specialize (Hdir ltac:(done))]. simpl.
    unfold finish, tree_token. simpl. by rewrite Ed.
Qed.

End DeleteTreeSpec.
