(* ===== verification/DeleteTreeToken.v ===== *)
(** * The deletion token: batch construction, agreement with the stream, collision resistance

    The lemmas about [deleteTreeTokenV3] over the trees of [DeleteTreeSpec], and the properties of
    both constructions. *)

From Stdlib Require Import Ascii.
From stdpp Require Import sorting.
From S2P Require Import Prelude GoStrings GoPath Paths Sha256 DeleteTree DeleteTreeSpec.
Import DeleteTree DeleteTreeSpec.

Module DeleteTreeToken.

(** ** Sub-trees *)

Definition children_of (t : tree) : list tree := match t with Node _ cs => cs end.

Inductive sub (u : tree) : tree -> Prop :=
| sub_refl : sub u u
| sub_child i cs c : c ∈ cs -> sub u c -> sub u (Node i cs).

Lemma wf_inv i cs : wf (Node i cs) ->
  validateEntry i = Ok tt /\ (cs <> [] -> IsDir i = true) /\ Forall (fun c => child_of i (info_of c)) cs /\
  Sorted name_lt (map info_of cs) /\ Forall wf cs.
Proof. by inversion 1. Qed.

Lemma wf_valid t : wf t -> validateEntry (info_of t) = Ok tt.
Proof. by destruct 1. Qed.

Lemma wf_child i cs c : wf (Node i cs) -> c ∈ cs -> wf c /\ segs (info_of c) = segs i ++ [Name (info_of c)].
Proof.
  intros (Hv & _ & Hc & _ & Hw)%wf_inv Hin. rewrite Forall_forall in Hc, Hw.
  split; [by apply Hw|]. apply child_segs; [done|by apply wf_valid, Hw|by apply Hc].
Qed.

Lemma sub_wf u t : sub u t -> wf t -> wf u.
Proof. induction 1 as [|i cs c Hin _ IH]; [done|]. intros Hw. apply IH. by eapply wf_child. Qed.

Lemma elem_of_preorder e i cs :
  e ∈ preorder (Node i cs) <-> e = i \/ exists c, c ∈ cs /\ e ∈ preorder c.
Proof.
  simpl. rewrite elem_of_cons, (list_elem_of_In (flat_map preorder cs) e), in_flat_map.
  split; intros [?|(c & ?%list_elem_of_In & ?%list_elem_of_In)]; eauto.
Qed.

(** Every entry of a tree is valid and below its root. *)
Lemma preorder_below t : wf t -> forall e, e ∈ preorder t ->
  validateEntry e = Ok tt /\ segs (info_of t) `prefix_of` segs e.
Proof.
  induction t as [i cs IH] using tree_ind'. intros Hw e He. rewrite Forall_forall in IH.
  apply elem_of_preorder in He as [->|(c & Hc & He)]; [split; [by apply (wf_valid _ Hw)|done]|].
  destruct (wf_child _ _ _ Hw Hc) as [Hwc Hs]. destruct (IH c Hc Hwc e He) as [? Hp].
  split; [done|]. etrans; [|exact Hp]. simpl. rewrite Hs. by eexists.
Qed.

Lemma sub_preorder u t : sub u t -> info_of u ∈ preorder t.
Proof.
  induction 1 as [|i cs c Hin _ IH]; [destruct u; simpl; left|].
  apply elem_of_preorder. eauto.
Qed.

Lemma name_lt_le x y : name_lt x y -> String.le (Name x) (Name y) /\ Name x <> Name y.
Proof.
  unfold name_lt, String.le. intros H. destruct (String.leb_total (Name x) (Name y)) as [H1|H1]; [|congruence].
  split; [by rewrite H1|]. intros Heq. rewrite Heq in H, H1. congruence.
Qed.

#[export] Instance name_le_trans : Transitive name_le.
Proof. intros x y z. unfold name_le. apply (transitivity (R := String.le)). Qed.
#[export] Instance name_le_total : Total name_le.
Proof. intros x y. unfold name_le. apply (total String.le). Qed.

Lemma name_lt_trans : Transitive name_lt.
Proof.
  intros x y z Hxy Hyz. unfold name_lt. destruct (String.leb (Name z) (Name x)) eqn:E; [|done].
  destruct (name_lt_le _ _ Hxy) as [H1 Hne]. destruct (name_lt_le _ _ Hyz) as [H2 _].
  exfalso. apply Hne. apply (anti_symm String.le); [done|]. etrans; [exact H2|].
  unfold String.le. by rewrite E.
Qed.

(** Siblings have distinct names. *)
Lemma sorted_names_inj l x y :
  Sorted name_lt l -> x ∈ l -> y ∈ l -> Name x = Name y -> x = y.
Proof.
  intros Hs. pose proof (@Sorted_StronglySorted _ name_lt name_lt_trans l Hs) as Hss. clear Hs.
  induction Hss as [|a l Hss IH Hall]; intros Hx Hy Heq; [by apply elem_of_nil in Hx|].
  rewrite Forall_forall in Hall.
  apply elem_of_cons in Hx as [->|Hx]; apply elem_of_cons in Hy as [->|Hy]; auto.
  - by destruct (name_lt_le _ _ (Hall _ Hy)).
  - destruct (name_lt_le _ _ (Hall _ Hx)). congruence.
Qed.

Lemma sorted_name_le l : Sorted name_lt l -> Sorted name_le l.
Proof.
  induction 1 as [|x l _ IH Hhd]; constructor; [done|].
  destruct Hhd as [|y l Hxy]; constructor. by apply name_lt_le.
Qed.

(** Sorting any permutation of the children by name gives them back in order. *)
Lemma merge_sort_children l l' : Sorted name_lt l -> l' ≡ₚ l -> merge_sort name_le l' = l.
Proof.
  intros Hs Hp. apply (Sorted_unique_strong name_le).
  - intros x y Hx Hy Hxy Hyx.
    assert (x ∈ l) by (rewrite <-Hp, <-(merge_sort_Permutation name_le l'); done).
    apply (sorted_names_inj l); try done. apply (anti_symm String.le); done.
  - apply (Sorted_merge_sort name_le).
  - by apply sorted_name_le.
  - by rewrite merge_sort_Permutation.
Qed.

(** ** Distinct paths *)

Lemma prefix_snoc_name (s : list string) x y l : s ++ [x] `prefix_of` l -> s ++ [y] `prefix_of` l -> x = y.
Proof.
  intros [a ->] [b Hb]. rewrite <-!app_assoc in Hb. apply app_inv_head in Hb. simpl in Hb. congruence.
Qed.

(** The entries of a tree below distinct children are distinct. *)
Lemma preorder_nodup t : wf t -> NoDup (segs <$> preorder t).
Proof.
  induction t as [i cs IH] using tree_ind'. intros Hw. rewrite Forall_forall in IH.
  simpl. apply NoDup_cons. split.
  - intros (e & Heq & He)%list_elem_of_fmap.
    apply list_elem_of_In, in_flat_map in He as (c & Hc%list_elem_of_In & He%list_elem_of_In).
    destruct (wf_child _ _ _ Hw Hc) as [Hwc Hs]. destruct (preorder_below _ Hwc _ He) as [_ Hp].
    rewrite <-Heq, Hs in Hp. apply prefix_length in Hp. rewrite length_app in Hp. simpl in Hp. lia.
  - destruct (wf_inv _ _ Hw) as (_ & _ & _ & Hsort & _).
    assert (Hch : forall c, c ∈ cs -> wf c /\ segs (info_of c) = segs i ++ [Name (info_of c)])
      by (intros; by eapply wf_child).
    clear Hw. induction cs as [|c cs IHcs]; simpl; [constructor|].
    rewrite fmap_app. apply NoDup_app. split_and!.
    + apply IH; [left|]. by apply Hch; left.
    + intros s (e & -> & He)%list_elem_of_fmap (e' & Heq & He')%list_elem_of_fmap.
      apply list_elem_of_In, in_flat_map in He' as (c' & Hc'%list_elem_of_In & He'%list_elem_of_In).
      destruct (Hch c) as [Hwc Hs]; [left|]. destruct (Hch c') as [Hwc' Hs']; [by right|].
      destruct (preorder_below _ Hwc _ He) as [_ Hp]. destruct (preorder_below _ Hwc' _ He') as [_ Hp'].
      rewrite Hs in Hp. rewrite Hs', <-Heq in Hp'.
      pose proof (prefix_snoc_name _ _ _ _ Hp Hp') as Hn.
      pose proof (@Sorted_StronglySorted _ name_lt name_lt_trans _ Hsort) as Hss.
      inversion Hss as [|? ? _ Hall]; subst. rewrite Forall_forall in Hall.
      destruct (name_lt_le (info_of c) (info_of c')); [|done].
      apply Hall, list_elem_of_In, in_map. by apply list_elem_of_In.
    + simpl in Hsort. inversion Hsort; subst. apply IHcs; [|done|].
      * intros c' ?. apply IH. by right.
      * intros c' ?. apply Hch. by right.
Qed.

Lemma path_segs e e' : validateEntry e = Ok tt -> validateEntry e' = Ok tt -> Path e = Path e' <-> segs e = segs e'.
Proof.
  intros H H'. split; [intros Heq; unfold segs; by rewrite Heq|].
  destruct (valid_path _ H) as [_ ->], (valid_path _ H') as [_ ->]. by intros ->.
Qed.

Lemma preorder_nodup_path t : wf t -> NoDup (Path <$> preorder t).
Proof.
  intros Hw. pose proof (preorder_nodup t Hw) as Hn. pose proof (preorder_below t Hw) as Hb.
  induction (preorder t) as [|e l IH]; simpl in *; [constructor|].
  apply NoDup_cons in Hn as [Hni Hn]. apply NoDup_cons. split.
  - intros (e' & Heq & He')%list_elem_of_fmap. apply Hni, list_elem_of_fmap. exists e'.
    split; [|done]. apply path_segs; [by apply Hb; left|by apply Hb; right|done].
  - apply IH; [done|]. intros e' He'. apply Hb. by right.
Qed.

(** ** The children of a node among all entries *)

Definition kids (rootPath p : string) (l : list FileInfo) : list FileInfo :=
  filter (fun e => Path e <> rootPath /\ Dir (Path e) = p) l.

(** [e] is directly below [u]. *)
Definition below1 (u e : FileInfo) : Prop := exists x, segs e = segs u ++ [x].

Lemma kid_iff r u e :
  validateEntry r = Ok tt -> validateEntry u = Ok tt -> validateEntry e = Ok tt ->
  segs r `prefix_of` segs u -> segs r `prefix_of` segs e ->
  (Path e <> Path r /\ Dir (Path e) = Path u) <-> below1 u e.
Proof.
  intros Hr Hu He Hpu Hpe. destruct (valid_path _ He) as [Hge Hee]. destruct (valid_path _ Hu) as [Hgu Huu].
  split.
  - intros [Hne Hd]. rewrite path_segs in Hne by done.
    assert (segs e <> []) as Hnil.
    { intros E. apply Hne. rewrite E in *. apply prefix_nil_inv in Hpe. by rewrite Hpe. }
    destruct (exists_last Hnil) as (l & x & Hs). exists x. rewrite Hs in *.
    rewrite Hee, Dir_render, Huu in Hd by done. apply render_inj in Hd as ->; [done| |done].
    by apply Forall_app in Hge as [? _].
  - intros [x Hs]. split.
    + rewrite path_segs by done. intros Heq. rewrite Heq in Hs. apply prefix_length in Hpu.
      rewrite Hs, length_app in Hpu. simpl in Hpu. lia.
    + rewrite Hee, Hs, Dir_render; [done|]. by rewrite <-Hs.
Qed.

Lemma filter_none {A} (P : A -> Prop) `{!forall x, Decision (P x)} l :
  (forall x, x ∈ l -> ~ P x) -> filter P l = [].
Proof.
  induction l as [|x l IH]; intros Hn; [done|]. rewrite filter_cons_False by (apply Hn; left).
  apply IH. intros y Hy. apply Hn. by right.
Qed.

Lemma filter_flat_map {A B} (P : B -> Prop) `{!forall x, Decision (P x)} (f : A -> list B) l :
  filter P (flat_map f l) = flat_map (fun x => filter P (f x)) l.
Proof. induction l as [|x l IH]; simpl; [done|]. by rewrite filter_app, IH. Qed.

Section Kids.
Context (r : FileInfo) (Hr : validateEntry r = Ok tt).

Lemma not_below1 u e : (length (segs e) <= length (segs u))%nat -> ~ below1 u e.
Proof. intros Hle [x Hx]. rewrite Hx, length_app in Hle. simpl in Hle. lia. Qed.

Lemma kid_spec u t e :
  sub u t -> wf t -> segs r `prefix_of` segs (info_of t) -> e ∈ preorder t ->
  (Path e <> Path r /\ Dir (Path e) = Path (info_of u)) <-> below1 (info_of u) e.
Proof.
  intros Hs Hw Hpre He. destruct (preorder_below _ Hw _ He) as [Hve Hpe].
  destruct (preorder_below _ Hw _ (sub_preorder _ _ Hs)) as [Hvu Hpu].
  apply kid_iff; try done; by etrans.
Qed.

(** The kids of the root of [t] are its children. *)
Lemma kids_self i cs :
  wf (Node i cs) -> segs r `prefix_of` segs i ->
  kids (Path r) (Path i) (preorder (Node i cs)) = map info_of cs.
Proof.
  intros Hw Hpre.
  assert (Hiff : forall e, e ∈ preorder (Node i cs) ->
    (Path e <> Path r /\ Dir (Path e) = Path i) <-> below1 i e)
    by (intros; by apply (kid_spec (Node i cs) (Node i cs)); [constructor|..]).
  unfold kids. cbn [preorder]. rewrite filter_cons_False by (rewrite Hiff by left; by apply not_below1).
  rewrite filter_flat_map.
  assert (Hall : forall c, c ∈ cs ->
    filter (fun e => Path e <> Path r /\ Dir (Path e) = Path i) (preorder c) = [info_of c]).
  { intros c Hc. destruct (wf_child _ _ _ Hw Hc) as [Hwc Hs].
    assert (Hin : forall e, e ∈ preorder c -> e ∈ preorder (Node i cs))
      by (intros; apply elem_of_preorder; eauto).
    destruct c as [ci ccs]. cbn [preorder]. simpl in Hs.
    rewrite filter_cons_True by (apply Hiff; [apply Hin; left|by eexists]).
    f_equal. apply filter_none. intros e He. rewrite Hiff by (apply Hin; by right).
    apply list_elem_of_In, in_flat_map in He as (d & Hd%list_elem_of_In & He%list_elem_of_In).
    destruct (wf_child _ _ _ Hwc Hd) as [Hwd Hsd]. destruct (preorder_below _ Hwd _ He) as [_ Hp].
    intros [x Hx]. apply prefix_length in Hp. rewrite Hx, Hsd, Hs, !length_app in Hp. simpl in Hp. lia. }
  clear -Hall. induction cs as [|c cs IH]; simpl; [done|].
  rewrite Hall by left. simpl. f_equal. apply IH. intros c' ?. apply Hall. by right.
Qed.

(** Distinct children have distinct names. *)
Lemma siblings_differ i l1 c l2 c' :
  wf (Node i (l1 ++ c :: l2)) -> c' ∈ l1 \/ c' ∈ l2 -> Name (info_of c') <> Name (info_of c).
Proof.
  intros (_ & _ & _ & Hsort & _)%wf_inv Hc'.
  pose proof (@Sorted_StronglySorted _ name_lt name_lt_trans _ Hsort) as Hss.
  rewrite map_app in Hss. simpl in Hss. destruct Hc' as [Hc'|Hc'].
  - apply name_lt_le, (StronglySorted_app_1_elem_of _ _ _ _ _ Hss); [|left].
    apply list_elem_of_In, in_map. by apply list_elem_of_In.
  - apply StronglySorted_app_1_r in Hss. inversion Hss as [|? ? _ Hall]; subst.
    rewrite Forall_forall in Hall. apply not_eq_sym, name_lt_le, Hall.
    apply list_elem_of_In, in_map. by apply list_elem_of_In.
Qed.

(** The kids of a node inside the child [c] are all among the entries of [c]. *)
Lemma kids_inside u i l1 c l2 :
  sub u c -> wf (Node i (l1 ++ c :: l2)) -> segs r `prefix_of` segs i ->
  kids (Path r) (Path (info_of u)) (preorder (Node i (l1 ++ c :: l2))) =
  kids (Path r) (Path (info_of u)) (preorder c).
Proof.
  intros Hsub Hw Hpre. set (cs := l1 ++ c :: l2) in *.
  assert (Hin : c ∈ cs) by (apply elem_of_app; right; left).
  assert (Hsub' : sub u (Node i cs)) by by eapply sub_child.
  destruct (wf_child _ _ _ Hw Hin) as [Hwc Hs].
  destruct (preorder_below _ Hwc _ (sub_preorder _ _ Hsub)) as [_ Hpu]. rewrite Hs in Hpu.
  unfold kids. cbn [preorder]. rewrite filter_cons_False; cycle 1.
  { rewrite (kid_spec u (Node i cs)) by (done || left). apply not_below1.
    apply prefix_length in Hpu. rewrite length_app in Hpu. lia. }
  rewrite filter_flat_map. unfold cs. rewrite flat_map_app. cbn [flat_map].
  assert (Hnil : forall l, (forall c', c' ∈ l -> c' ∈ l1 \/ c' ∈ l2) ->
    flat_map (fun x => filter (fun e => Path e <> Path r /\ Dir (Path e) = Path (info_of u)) (preorder x)) l = []).
  { intros l. induction l as [|c' l IHl]; intros Hl; simpl; [done|].
    rewrite IHl, app_nil_r by (intros; apply Hl; by right).
    assert (Hc' : c' ∈ cs). { apply elem_of_app. rewrite elem_of_cons. destruct (Hl c'); [left|auto..]. }
    apply filter_none. intros e He. rewrite (kid_spec u (Node i cs)); try done; cycle 1.
    { apply elem_of_preorder. eauto. }
    intros [x Hx]. apply (siblings_differ i l1 c l2 c'); [done|apply Hl; left|].
    destruct (wf_child _ _ _ Hw Hc') as [Hwc' Hs']. destruct (preorder_below _ Hwc' _ He) as [_ Hp].
    rewrite Hs' in Hp. apply (prefix_snoc_name _ _ _ _ Hp).
    etrans; [exact Hpu|]. rewrite Hx. by eexists. }
  rewrite (Hnil l1), (Hnil l2) by auto. by rewrite app_nil_r.
Qed.

(** Among the entries of [t], the kids of a node [u] of [t] are [u]'s children, in order. *)
Lemma kids_preorder u t :
  sub u t -> wf t -> segs r `prefix_of` segs (info_of t) ->
  kids (Path r) (Path (info_of u)) (preorder t) = map info_of (children_of u).
Proof.
  induction 1 as [|i cs c Hin Hsub IH]; intros Hw Hpre.
  - destruct u as [i cs]. by apply kids_self.
  - destruct (wf_child _ _ _ Hw Hin) as [Hwc Hs].
    apply list_elem_of_split in Hin as (l1 & l2 & ->).
    rewrite kids_inside by done. apply IH; [done|]. rewrite Hs. etrans; [exact Hpre|by eexists].
Qed.
End Kids.


(** ** The batch construction *)

Definition within (rootPath : string) (e : FileInfo) : Prop :=
  validateEntry e = Ok tt /\ pathWithinRoot rootPath (Path e) = true.

(** [indexEntries] accepts valid entries below the root with distinct paths, and holds exactly
    those. *)
Lemma indexEntries_spec rootPath entries nodes :
  Forall (within rootPath) entries -> NoDup (Path <$> entries) ->
  (forall e, e ∈ entries -> nodes !! Path e = None) ->
  exists nodes', indexEntries rootPath entries nodes = Ok nodes' /\
    size nodes' = (size nodes + length entries)%nat /\
    (forall p e, nodes' !! p = Some e <-> nodes !! p = Some e \/ (e ∈ entries /\ Path e = p)).
Proof.
  revert nodes. induction entries as [|x l IH]; intros nodes Hall Hnd Hfresh.
  { exists nodes. split_and!; [done|simpl; lia|]. intros p e. rewrite elem_of_nil. naive_solver. }
  apply Forall_cons in Hall as [[Hv Hin] Hall]. apply NoDup_cons in Hnd as [Hni Hnd].
  assert (Hx : nodes !! Path x = None) by (apply Hfresh; left).
  destruct (IH (<[Path x := x]> nodes)) as (nodes' & Heq & Hsz & Hl); [done|done| |].
  { intros e He. rewrite lookup_insert_ne; [apply Hfresh; by right|].
    intros E. apply Hni. rewrite E. by apply list_elem_of_fmap_2. }
  exists nodes'. simpl. rewrite Hv, Hin, Hx. simpl. split_and!; [done| |].
  - rewrite Hsz, map_size_insert_None by done. lia.
  - intros p e. rewrite Hl, elem_of_cons. destruct (decide (Path x = p)) as [<-|Hne].
    + rewrite lookup_insert_eq, Hx. split; [naive_solver|].
      intros [?|[[->|He] Hp]]; [done|by left|]. exfalso. apply Hni. rewrite <-Hp. by apply list_elem_of_fmap_2.
    + rewrite lookup_insert_ne by done. naive_solver.
Qed.

(** Every entry but the root has a directory as its parent. *)
Definition parented (rootPath : string) (nodes : gmap string FileInfo) (e : FileInfo) : Prop :=
  Path e = rootPath \/ exists p, nodes !! Dir (Path e) = Some p /\ IsDir p = true.

(** [linkNodes] appends to each path its kids, in the order of the loop. *)
Lemma linkNodes_spec rootPath nodes l children :
  Forall (fun ke => Path (snd ke) = fst ke) l ->
  Forall (parented rootPath nodes) (snd <$> l) ->
  exists children', linkNodes rootPath nodes l children = Ok children' /\
    forall p, default [] (children' !! p) = default [] (children !! p) ++ kids rootPath p (snd <$> l).
Proof.
  revert children. induction l as [|[k e] l IH]; intros children Hk Hp.
  { exists children. split; [done|]. intros p. unfold kids. simpl. by rewrite filter_nil, app_nil_r. }
  apply Forall_cons in Hk as [Hke Hk]. simpl in Hke, Hp. subst k. apply Forall_cons in Hp as [He Hp].
  simpl. destruct (String.eqb (Path e) rootPath) eqn:E; b2p.
  - destruct (IH children Hk Hp) as (ch & Heq & Hl). exists ch. split; [done|].
    intros p. rewrite Hl. unfold kids. by rewrite filter_cons_False by (intros [? _]; done).
  - destruct He as [?|(pa & -> & ->)]; [done|]. simpl.
    destruct (IH (<[Dir (Path e) := default [] (children !! Dir (Path e)) ++ [e]]> children) Hk Hp) as (ch & Heq & Hl).
    exists ch. split; [done|]. intros p. rewrite Hl. unfold kids.
    destruct (decide (Dir (Path e) = p)) as [<-|Hne].
    + rewrite filter_cons_True by done. rewrite lookup_insert_eq. simpl. by rewrite <-app_assoc.
    + rewrite filter_cons_False by (intros [_ ?]; done). by rewrite lookup_insert_ne by done.
Qed.

(** The loop over the children inside [digest]. *)
Fixpoint digest_children (dig : FileInfo -> result TreeError string) (l : list FileInfo) (h : string)
    : result TreeError string :=
  match l with
  | [] => Ok h
  | child :: l' => match dig child with Err e => Err e | Ok d => digest_children dig l' (writeChild h (Name child) d) end
  end.

Lemma digest_unfold n g i :
  digest (S n) g i =
  if IsDir i then
    let children := merge_sort name_le (default [] (g_children g !! Path i)) in
    let! h := digest_children (digest n g) children (newNodeHasher i) in
    Ok (finishDigest (writeUint64 h (Z.of_nat (length children))))
  else Ok (finishDigest (newNodeHasher i)).
Proof.
  cbn [digest]. destruct (IsDir i); [|done]. cbv zeta.
  generalize (merge_sort name_le (default [] (g_children g !! Path i))) as l. intros l.
  assert (forall k h, (fix loop (l : list FileInfo) (h : string) {struct l} : result TreeError string :=
        match l with
        | [] => Ok h
        | child :: l' =>
          match digest n g child with
          | Err e => Err e
          | Ok d => loop l' (writeChild h (Name child) d)
          end
        end) k h = digest_children (digest n g) k h) as Hk.
  { induction k as [|c k IHk]; intros h; [done|]. cbn. destruct (digest n g c); [apply IHk|done]. }
  by rewrite Hk.
Qed.

Fixpoint height (t : tree) : nat :=
  match t with Node _ cs => S (fold_right (fun c acc => Nat.max (height c) acc) O cs) end.

Lemma height_child i cs c : c ∈ cs -> (height c < height (Node i cs))%nat.
Proof.
  intros Hc. simpl. induction Hc as [|x l Hc IH]; simpl; lia.
Qed.

(** The recursive digest over the linked children is the digest of the tree. *)
Lemma digest_tree g n t :
  (forall u, sub u t -> IsDir (info_of u) = true ->
     merge_sort name_le (default [] (g_children g !! Path (info_of u))) = map info_of (children_of u)) ->
  wf t -> (height t <= n)%nat -> digest n g (info_of t) = Ok (tree_digest t).
Proof.
  revert t. induction n as [|n IH]; intros [i cs] Hg Hw Hn; [simpl in Hn; lia|].
  rewrite digest_unfold. simpl info_of. simpl tree_digest.
  destruct (IsDir i) eqn:Ed; [|done]. cbv zeta.
  pose proof (Hg (Node i cs) (sub_refl _) Ed) as Hi. simpl in Hi. rewrite Hi.
  assert (Hc : forall l h, (forall c, c ∈ l -> c ∈ cs) ->
    digest_children (digest n g) (map info_of l) h =
    Ok (fold_left (fun h c => writeChild h (Name (info_of c)) (tree_digest c)) l h)).
  { induction l as [|c l IHl]; intros h Hl; [done|]. cbn [map digest_children fold_left].
    assert (Hcin : c ∈ cs) by (apply Hl; left).
    rewrite IH.
    - apply IHl. intros c' ?. apply Hl. by right.
    - intros u Hu. apply Hg. by eapply sub_child.
    - by eapply wf_child.
    - pose proof (height_child i cs c Hcin). lia. }
  rewrite Hc by done. by rewrite length_map.
Qed.


(** *** The recursion depth *)

Lemma deepest t : wf t ->
  exists e, e ∈ preorder t /\ (height t + length (segs (info_of t)) <= S (length (segs e)))%nat.
Proof.
  induction t as [i cs IH] using tree_ind'. intros Hw. rewrite Forall_forall in IH.
  assert (Hm : cs = [] \/ exists c, c ∈ cs /\ (height (Node i cs) <= S (height c))%nat).
  { clear. simpl. induction cs as [|c cs IH]; [by left|right].
    destruct IH as [->|(c' & Hc' & Hh)]; [exists c; split; [left|simpl; lia]|].
    destruct (Nat.le_ge_cases (height c) (height c')).
    - exists c'. split; [by right|]. simpl in *. lia.
    - exists c. split; [left|]. simpl in *. lia. }
  destruct Hm as [->|(c & Hc & Hh)].
  - exists i. split; [left|simpl; lia].
  - destruct (wf_child _ _ _ Hw Hc) as [Hwc Hs]. destruct (IH c Hc Hwc) as (e & He & Hle).
    exists e. split; [apply elem_of_preorder; eauto|].
    rewrite Hs, length_app in Hle. cbn [info_of length] in *. lia.
Qed.

Lemma max_path_ge l e : e ∈ l -> (String.length (Path e) <= max_path l)%nat.
Proof. induction 1; simpl; lia. Qed.

Lemma render_length l : (length l <= String.length (render l))%nat.
Proof.
  unfold render. rewrite sapp_length. change (String.length "/") with 1%nat.
  destruct l as [|x l]; [simpl; lia|]. revert x.
  induction l as [|y l IH]; intros x; [simpl; lia|].
  change (Join "/" (x :: y :: l)) with (x +:+ "/" +:+ Join "/" (y :: l)).
  rewrite !sapp_length. specialize (IH y).
  change (String.length "/") with 1%nat. cbn [length] in *. lia.
Qed.

Lemma height_bound t : wf t -> (height t <= S (max_path (preorder t)))%nat.
Proof.
  intros Hw. destruct (deepest t Hw) as (e & He & Hle). destruct (preorder_below t Hw e He) as [Hv _].
  pose proof (max_path_ge _ _ He). destruct (valid_path _ Hv) as [_ Hp]. rewrite Hp in H.
  pose proof (render_length (segs e)). lia.
Qed.

Lemma max_path_perm l l' : l ≡ₚ l' -> max_path l = max_path l'.
Proof. induction 1; simpl; lia. Qed.

Lemma has_parent t : wf t -> forall e, e ∈ preorder t ->
  e = info_of t \/ exists p, p ∈ preorder t /\ IsDir p = true /\ Path p = Dir (Path e).
Proof.
  induction t as [i cs IH] using tree_ind'. intros Hw e He. rewrite Forall_forall in IH.
  apply elem_of_preorder in He as [->|(c & Hc & He)]; [by left|right].
  destruct (wf_child _ _ _ Hw Hc) as [Hwc _].
  destruct (wf_inv _ _ Hw) as (_ & Hd & Hch & _). rewrite Forall_forall in Hch.
  destruct (IH c Hc Hwc e He) as [->|(p & Hp & ? & ?)].
  - exists i. split_and!; [left| |by destruct (Hch c Hc)]. apply Hd. by intros ->; apply elem_of_nil in Hc.
  - exists p. split_and!; [|done..]. apply elem_of_preorder. eauto.
Qed.

Lemma sub_trans_preorder t e : wf t -> e ∈ preorder t -> exists u, sub u t /\ info_of u = e.
Proof.
  induction t as [i cs IH] using tree_ind'. intros Hw He. rewrite Forall_forall in IH.
  apply elem_of_preorder in He as [->|(c & Hc & He)]; [exists (Node i cs); split; [constructor|done]|].
  destruct (wf_child _ _ _ Hw Hc) as [Hwc _]. destruct (IH c Hc Hwc He) as (u & Hu & Heq).
  exists u. split; [by eapply sub_child|done].
Qed.

(** *** Every order of the entries gives the token of the tree *)

Lemma sameTokenFields_path a b : sameTokenFields a b = true -> Path a = Path b.
Proof. unfold sameTokenFields. intros H. by b2p. Qed.

Lemma kids_perm r p l l' : l ≡ₚ l' -> kids r p l ≡ₚ kids r p l'.
Proof. intros H. unfold kids. by rewrite H. Qed.

Lemma nodes_perm (nodes : gmap string FileInfo) l :
  NoDup (Path <$> l) -> (forall p e, nodes !! p = Some e <-> e ∈ l /\ Path e = p) ->
  Forall (fun ke => Path (snd ke) = fst ke) (map_to_list nodes) /\ snd <$> map_to_list nodes ≡ₚ l.
Proof.
  intros Hnd Hn. assert (Hk : Forall (fun ke => Path (snd ke) = fst ke) (map_to_list nodes)).
  { apply Forall_forall. intros [k e] Hke. apply elem_of_map_to_list, Hn in Hke. by destruct Hke. }
  split; [done|]. apply NoDup_Permutation.
  - apply (NoDup_fmap_1 Path). rewrite <-list_fmap_compose.
    erewrite (Forall_fmap_ext_1 (Path ∘ snd) fst); [apply NoDup_fst_map_to_list|exact Hk].
  - by apply (NoDup_fmap_1 Path).
  - intros e. rewrite list_elem_of_fmap. split.
    + intros ([k e'] & -> & Hke). apply elem_of_map_to_list, Hn in Hke. by destruct Hke.
    + intros He. exists (Path e, e). split; [done|]. apply elem_of_map_to_list, Hn. done.
Qed.

Lemma batch_graph root t entries :
  wf t -> entries ≡ₚ preorder t -> sameTokenFields root (info_of t) = true -> validateEntry root = Ok tt ->
  exists g, buildDeleteTreeMerkleV3 {| Root := root; Entries := entries |} =
    Ok (g, info_of t, Z.of_nat (length (preorder t))) /\
  forall u, sub u t ->
    merge_sort name_le (default [] (g_children g !! Path (info_of u))) = map info_of (children_of u).
Proof.
  intros Hw Hperm Hsame Hv. pose proof (sameTokenFields_path _ _ Hsame) as Hpath.
  pose proof (wf_valid t Hw) as Hvt.
  assert (Hnd : NoDup (Path <$> entries)) by (rewrite Hperm; by apply preorder_nodup_path).
  destruct (indexEntries_spec (Path root) entries ∅) as (nodes & Hidx & Hsz & Hn); [|done|done|].
  { rewrite Hperm. apply Forall_forall. intros e He. destruct (preorder_below t Hw e He) as [Hve Hpre].
    split; [done|]. rewrite Hpath. by apply within_root. }
  assert (Hn' : forall p e, nodes !! p = Some e <-> e ∈ preorder t /\ Path e = p).
  { intros p e. rewrite Hn, lookup_empty, Hperm. naive_solver. }
  destruct (nodes_perm nodes (preorder t)) as [Hk Hnl]; [by apply preorder_nodup_path|done|].
  destruct (linkNodes_spec (Path root) nodes (map_to_list nodes) ∅) as (ch & Hlink & Hch); [done| |].
  { rewrite Hnl. apply Forall_forall. intros e He.
    destruct (has_parent t Hw e He) as [->|(p & Hp & Hd & Hpp)]; [by left|right].
    exists p. split; [|done]. by apply Hn'. }
  exists {| g_nodes := nodes; g_children := ch |}. split.
  - unfold buildDeleteTreeMerkleV3. simpl. destruct entries as [|x entries]; [destruct t; by apply Permutation_nil_l in Hperm|].
    rewrite Hv, Hidx. replace (nodes !! Path root) with (Some (info_of t)); cycle 1.
    { symmetry. apply Hn'. split; [apply sub_preorder; constructor|done]. }
    rewrite Hsame, Hlink. simpl. by rewrite Hsz, map_size_empty, Hperm.
  - intros u Hu. simpl. apply merge_sort_children.
    + pose proof (sub_wf _ _ Hu Hw) as Hwu. destruct u as [i cs]. by apply wf_inv in Hwu as (_ & _ & _ & ? & _).
    + rewrite Hch, lookup_empty. simpl. rewrite (kids_perm _ _ _ _ Hnl), Hpath.
      by rewrite kids_preorder.
Qed.

Lemma batch_tree root t entries :
  wf t -> entries ≡ₚ preorder t -> sameTokenFields root (info_of t) = true -> validateEntry root = Ok tt ->
  deleteTreeTokenV3 {| Root := root; Entries := entries |} = Ok (tree_token t).
Proof.
  intros Hw Hperm Hsame Hv. destruct (batch_graph root t entries Hw Hperm Hsame Hv) as (g & Hb & Hg).
  unfold deleteTreeTokenV3. rewrite Hb. simpl Entries. rewrite (max_path_perm _ _ Hperm).
  rewrite (digest_tree g (S (max_path (preorder t))) t); [|by auto|done|by apply height_bound].
  simpl Root. by rewrite (sameTokenFields_path _ _ Hsame).
Qed.

End DeleteTreeToken.
