(* ===== verification/DeleteTreeProps.v ===== *)
(** * The deletion token: what a token identifies

    The byte encodings that are hashed are injective on typed entries; a token therefore
    identifies the tree up to a SHA-256 collision.  The properties of the two constructions. *)

From Stdlib Require Import Ascii.
From stdpp Require Import sorting.
From S2P Require Import Prelude GoStrings GoPath Paths Sha256 DeleteTree DeleteTreeSpec DeleteTreeToken.
Import DeleteTree DeleteTreeSpec DeleteTreeToken.

Module DeleteTreeProps.

(** ** Injectivity of the encodings *)

#[local] Opaque Sha256.Sum256 Sha256.be_bytes.

Definition u64 (v : Z) : string := Sha256.be_bytes 8 (Z.to_N (uint64 v)).
Definition bstr (s : string) : string := u64 (len s) +:+ s.

Lemma writeUint64_eq h v : writeUint64 h v = h +:+ u64 v.
Proof. done. Qed.
Lemma writeBytes_eq h s : writeBytes h s = h +:+ bstr s.
Proof. unfold writeBytes, writeUint64, bstr, u64. by rewrite sapp_assoc. Qed.
Lemma writeString_eq h s : writeString h s = h +:+ bstr s.
Proof. apply writeBytes_eq. Qed.

Lemma sapp_inj_length (a b x y : string) :
  String.length a = String.length b -> a +:+ x = b +:+ y -> a = b /\ x = y.
Proof.
  revert b. induction a as [|c a IH]; intros [|d b] Hl H; simpl in *; try done.
  injection H as -> H. injection Hl as Hl. destruct (IH b Hl H) as [-> ->]. done.
Qed.

Lemma u64_length v : String.length (u64 v) = 8%nat.
Proof. apply Sha256.be_bytes_length. Qed.

Lemma u64_inj v w x y : u64 v +:+ x = u64 w +:+ y -> uint64 v = uint64 w /\ x = y.
Proof.
  intros H. apply sapp_inj_length in H as [H ->]; [|by rewrite !u64_length]. split; [|done].
  pose proof (uint64_range v). pose proof (uint64_range w).
  apply Sha256.be_bytes_inj in H; [|int_unfold; lia..]. int_unfold. lia.
Qed.

(** A Go string: its length is an [int]. *)
Definition go_string (s : string) : Prop := len s <= maxInt64.

Lemma bstr_inj s t x y : go_string s -> go_string t -> bstr s +:+ x = bstr t +:+ y -> s = t /\ x = y.
Proof.
  unfold bstr. rewrite !sapp_assoc. intros Hs Ht H. apply u64_inj in H as [Hl H].
  apply sapp_inj_length in H; [done|]. unfold go_string, len in *. int_unfold.
  rewrite !Z.mod_small in Hl by lia. lia.
Qed.

Lemma bstr_length s : String.length (bstr s) = (8 + String.length s)%nat.
Proof. unfold bstr. by rewrite sapp_length, u64_length. Qed.

(** The values the Go types of an entry's fields allow. *)
Record typed (i : FileInfo) : Prop := {
  ty_path : go_string (Path i);
  ty_name : go_string (Name i);
  ty_mode : in_uint64 (Mode i);
  ty_size : in_int64 (Size i);
  ty_id : go_string (DeleteIdentityToken i);
  ty_hash : go_string (ContentHash i);
}.

Lemma typed_iff i : typed i <-> go_string (Path i) /\ go_string (Name i) /\ in_uint64 (Mode i) /\
  in_int64 (Size i) /\ go_string (DeleteIdentityToken i) /\ go_string (ContentHash i).
Proof. split; [by intros []|]. intros (? & ? & ? & ? & ? & ?). by constructor. Qed.

#[export] Instance typed_dec i : Decision (typed i).
Proof.
  refine (cast_if (decide (go_string (Path i) /\ go_string (Name i) /\ in_uint64 (Mode i) /\
    in_int64 (Size i) /\ go_string (DeleteIdentityToken i) /\ go_string (ContentHash i))));
    by rewrite typed_iff.
Defined.

Definition domain (i : FileInfo) : string := if IsDir i then deleteTreeDirDomainV3 else deleteTreeFileDomainV3.

Lemma domain_go_string i : go_string (domain i).
Proof. unfold go_string, domain. destruct (IsDir i); vm_compute; discriminate. Qed.

Lemma newNodeHasher_eq i : newNodeHasher i =
  bstr (domain i) +:+ u64 (Mode i) +:+ u64 (uint64 (Size i)) +:+ u64 (uint64 (UnixNano (ModTime i))) +:+
  bstr (DeleteIdentityToken i) +:+ bstr (ContentHash i).
Proof.
  unfold newNodeHasher. rewrite !writeString_eq, !writeUint64_eq, !sapp_assoc. done.
Qed.

(** The hashed fields agree. *)
Definition same_fields (i j : FileInfo) : Prop :=
  IsDir i = IsDir j /\ Mode i = Mode j /\ Size i = Size j /\ UnixNano (ModTime i) = UnixNano (ModTime j) /\
  DeleteIdentityToken i = DeleteIdentityToken j /\ ContentHash i = ContentHash j.

Lemma newNodeHasher_inj i j x y :
  typed i -> typed j -> newNodeHasher i +:+ x = newNodeHasher j +:+ y -> same_fields i j /\ x = y.
Proof.
  intros [] [] H. rewrite !newNodeHasher_eq, !sapp_assoc in H.
  apply bstr_inj in H as [Hd H]; [|apply domain_go_string..].
  apply u64_inj in H as [Hm H]. apply u64_inj in H as [Hs H]. apply u64_inj in H as [Ht H].
  apply bstr_inj in H as [Hi H]; [|done..]. apply bstr_inj in H as [Hh ->]; [|done..].
  split; [|done]. split_and!; try done.
  - unfold domain in Hd. by destruct (IsDir i), (IsDir j).
  - by rewrite !uint64_id in Hm.
  - rewrite !(uint64_id (uint64 _)) in Hs by apply uint64_range. by apply uint64_int64_inj.
  - rewrite !(uint64_id (uint64 _)) in Ht by apply uint64_range. apply uint64_int64_inj; [apply int64_range..|done].
Qed.

(** The bytes of the children. *)
Definition children_bytes (l : list (string * string)) : string :=
  foldr (fun nd acc => bstr (fst nd) +:+ bstr (snd nd) +:+ acc) "" l.

Lemma writeChild_eq h n d : writeChild h n d = h +:+ bstr n +:+ bstr d.
Proof. unfold writeChild. by rewrite writeBytes_eq, writeString_eq, sapp_assoc. Qed.

Lemma fold_writeChild cs h :
  fold_left (fun h c => writeChild h (Name (info_of c)) (tree_digest c)) cs h =
  h +:+ children_bytes (map (fun c => (Name (info_of c), tree_digest c)) cs).
Proof.
  revert h. induction cs as [|c cs IH]; intros h; cbn [map fold_left children_bytes foldr fst snd].
  { by rewrite sapp_nil_r. }
  rewrite IH, writeChild_eq, !sapp_assoc. reflexivity.
Qed.

Definition go_pair (nd : string * string) : Prop := go_string (fst nd) /\ go_string (snd nd).

Lemma children_bytes_inj l l' n n' :
  Forall go_pair l -> Forall go_pair l' ->
  children_bytes l +:+ u64 n = children_bytes l' +:+ u64 n' -> l = l'.
Proof.
  revert l'. induction l as [|[a d] l IH]; intros [|[a' d'] l'] Hl Hl' H;
    cbn [children_bytes foldr fst snd] in H; [done| | |].
  1-2: exfalso; apply (f_equal String.length) in H;
    rewrite !sapp_length, ?bstr_length, ?u64_length in H; cbn [String.length] in H; lia.
  apply Forall_cons in Hl as [[Ha Hd] Hl], Hl' as [[Ha' Hd'] Hl']. simpl in *.
  rewrite !sapp_assoc in H. apply bstr_inj in H as [-> H]; [|done..].
  apply bstr_inj in H as [-> H]; [|done..]. f_equal. by apply IH.
Qed.

(** ** Tokens identify trees *)

(** Two different messages, one of each list, with the same SHA-256 digest. *)
Definition collision_in (A B : list string) : Prop :=
  exists x y, x ∈ A /\ y ∈ B /\ x <> y /\ Sha256.Sum256 x = Sha256.Sum256 y.

Lemma Sum256_cases A B x y : x ∈ A -> y ∈ B -> Sha256.Sum256 x = Sha256.Sum256 y -> x = y \/ collision_in A B.
Proof. intros Hx Hy H. destruct (decide (x = y)) as [->|Hne]; [by left|]. right. by exists x, y. Qed.
Lemma collision_mono A B A' B' : A ⊆ A' -> B ⊆ B' -> collision_in A B -> collision_in A' B'.
Proof. intros HA HB (x & y & Hx & Hy & H). exists x, y. auto. Qed.

Definition child_pairs (cs : list tree) : list (string * string) :=
  map (fun c => (Name (info_of c), tree_digest c)) cs.

(** The message that is hashed for a node, those hashed for the nodes of a tree, and with them the
    message of the token itself. *)
Definition message (t : tree) : string :=
  match t with
  | Node i cs => newNodeHasher i +:+ if IsDir i then children_bytes (child_pairs cs) +:+ u64 (Z.of_nat (length cs)) else ""
  end.
Fixpoint messages (t : tree) : list string :=
  match t with Node i cs => message (Node i cs) :: flat_map messages cs end.
Definition token_message (t : tree) : string :=
  bstr deleteTreeTargetDomainV3 +:+ bstr (Path (info_of t)) +:+ bstr (tree_digest t) +:+ u64 (Z.of_nat (length (preorder t))).
Definition hashed (t : tree) : list string := token_message t :: messages t.

Lemma message_in t : message t ∈ messages t.
Proof. destruct t. left. Qed.
Lemma messages_child i cs c : c ∈ cs -> messages c ⊆ messages (Node i cs).
Proof. intros Hc x Hx. cbn [messages]. right. apply list_elem_of_In, in_flat_map. exists c. by rewrite <-!list_elem_of_In. Qed.
Lemma messages_hashed t : messages t ⊆ hashed t.
Proof. intros x Hx. by right. Qed.

Lemma tree_digest_eq t : tree_digest t = Sha256.Sum256 (message t).
Proof.
  destruct t as [i cs]. cbn [tree_digest message]. unfold finishDigest. f_equal. destruct (IsDir i); [|by rewrite sapp_nil_r].
  by rewrite fold_writeChild, writeUint64_eq, sapp_assoc.
Qed.

Lemma tree_digest_length t : String.length (tree_digest t) = 32%nat.
Proof. rewrite tree_digest_eq. apply Sha256.Sum256_length. Qed.

Lemma digest_go_string t : go_string (tree_digest t).
Proof. unfold go_string, len. rewrite tree_digest_length. int_unfold. lia. Qed.

Lemma child_pairs_ok i cs :
  Forall typed (preorder (Node i cs)) -> Forall go_pair (child_pairs cs).
Proof.
  intros H. rewrite Forall_forall in H. apply Forall_forall. intros nd Hnd.
  apply list_elem_of_In, in_map_iff in Hnd as (c & <- & Hc%list_elem_of_In).
  split; [|apply digest_go_string]. apply (ty_name (info_of c)), H, elem_of_preorder.
  right. exists c. split; [done|]. apply sub_preorder. constructor.
Qed.

Lemma same_fields_token i j :
  same_fields i j -> Path i = Path j -> Name i = Name j -> sameTokenFields i j = true.
Proof.
  intros (H1 & H2 & H3 & H4 & H5 & H6) H7 H8. unfold sameTokenFields.
  rewrite H1, H2, H3, H4, H5, H6, H7, H8, !String.eqb_refl, !Z.eqb_refl, eqb_reflx. done.
Qed.

(** The trees behind two equal digests. *)
Definition same_walk (l l' : list FileInfo) : Prop := Forall2 (fun e e' => sameTokenFields e e' = true) l l'.

Definition digest_identifies (t : tree) : Prop := forall t',
  wf t -> wf t' -> Forall typed (preorder t) -> Forall typed (preorder t') ->
  Path (info_of t) = Path (info_of t') -> Name (info_of t) = Name (info_of t') ->
  tree_digest t = tree_digest t' -> same_walk (preorder t) (preorder t') \/ collision_in (messages t) (messages t').

Lemma forest_identified i i' cs cs' :
  Forall digest_identifies cs -> validateEntry i = Ok tt -> validateEntry i' = Ok tt -> Path i = Path i' ->
  Forall wf cs -> Forall wf cs' ->
  Forall (fun c => child_of i (info_of c)) cs -> Forall (fun c => child_of i' (info_of c)) cs' ->
  Forall typed (flat_map preorder cs) -> Forall typed (flat_map preorder cs') ->
  child_pairs cs = child_pairs cs' ->
  same_walk (flat_map preorder cs) (flat_map preorder cs') \/ collision_in (flat_map messages cs) (flat_map messages cs').
Proof.
  intros Hall Hi Hi' Hp. revert cs'. induction Hall as [|c cs Hc Hall IH]; intros [|c' cs'] Hw Hw' Hk Hk' Ht Ht' Heq;
    try done; [left; constructor|].
  injection Heq as Hn Hd Heq. simpl in *.
  apply Forall_cons in Hw as [Hwc Hw], Hw' as [Hwc' Hw'], Hk as [Hkc Hk], Hk' as [Hkc' Hk'].
  apply Forall_app in Ht as [Htc Ht], Ht' as [Htc' Ht'].
  destruct (IH cs') as [Hrest|Hcol]; try done; [|right; by eapply collision_mono; [..|exact Hcol]; apply list_subseteq_app_r].
  destruct (Hc c') as [Hfst|Hcol]; try done; [|left; by apply Forall2_app|right; by eapply collision_mono; [..|exact Hcol]; apply list_subseteq_app_l].
  apply path_segs; [by apply wf_valid..|].
  rewrite (child_segs i (info_of c)), (child_segs i' (info_of c')) by (try done; by apply wf_valid).
  rewrite Hn. f_equal. by apply path_segs.
Qed.

Lemma digest_identifies_all t : digest_identifies t.
Proof.
  induction t as [i cs IH] using tree_ind'. intros [i' cs'] Hw Hw' Ht Ht' Hp Hn Hd. simpl in Hp, Hn.
  pose proof (child_pairs_ok _ _ Ht) as Hg. pose proof (child_pairs_ok _ _ Ht') as Hg'.
  rewrite !tree_digest_eq in Hd. eapply Sum256_cases in Hd as [Hd|?]; [|by right|apply message_in..].
  cbn [message] in Hd. cbn [preorder] in *. apply Forall_cons in Ht as [Hti Ht], Ht' as [Hti' Ht'].
  apply newNodeHasher_inj in Hd as [Hf Hd]; [|done..].
  pose proof (same_fields_token _ _ Hf Hp Hn) as Hsame. destruct Hf as [Hdir _].
  apply wf_inv in Hw as (Hv & Hdi & Hch & _ & Hwc), Hw' as (Hv' & Hdi' & Hch' & _ & Hwc').
  rewrite <-Hdir in Hd, Hdi'. destruct (IsDir i) eqn:Ed.
  - apply children_bytes_inj in Hd; [|done..].
    destruct (forest_identified i i' cs cs') as [?|Hcol]; try done; [left; by constructor|right].
    eapply collision_mono; [..|exact Hcol]; intros x Hx; by right.
  - left. destruct cs; [|by specialize (Hdi ltac:(done))]. destruct cs'; [|by specialize (Hdi' ltac:(done))].
    by repeat constructor.
Qed.

Lemma valid_name_path i j : validateEntry i = Ok tt -> validateEntry j = Ok tt -> Path i = Path j -> Name i = Name j.
Proof.
  intros Hi Hj Hp. unfold validateEntry in *. repeat case_in Hi; repeat case_in Hj; b2p; congruence.
Qed.

Lemma tree_token_eq t : tree_token t = Sha256.EncodeToString (Sha256.Sum256 (token_message t)).
Proof. unfold tree_token, deleteTreeTargetTokenV3, token_message. by rewrite !writeUint64_eq, !writeString_eq, ?writeBytes_eq, !sapp_assoc. Qed.

Lemma token_identifies t t' :
  wf t -> wf t' -> Forall typed (preorder t) -> Forall typed (preorder t') ->
  tree_token t = tree_token t' -> same_walk (preorder t) (preorder t') \/ collision_in (hashed t) (hashed t').
Proof.
  intros Hw Hw' Ht Ht' H. rewrite !tree_token_eq in H. apply Sha256.EncodeToString_inj in H.
  eapply Sum256_cases in H as [H|?]; [|by right|left..]. unfold token_message in H.
  assert (Hpath : forall u, wf u -> Forall typed (preorder u) -> go_string (Path (info_of u))).
  { intros [i cs] _ Hu. by apply Forall_cons in Hu as [[] _]. }
  apply bstr_inj in H as [_ H]; [|by vm_compute..].
  apply bstr_inj in H as [Hp H]; [|by apply Hpath..].
  apply bstr_inj in H as [Hd _]; [|apply digest_go_string..].
  destruct (digest_identifies_all t t') as [?|Hcol]; try done; [by apply valid_name_path; [apply wf_valid..|]|by left|right].
  eapply collision_mono; [..|exact Hcol]; apply messages_hashed.
Qed.

(** ** Properties *)

(** C1: the streaming construction is a parser for trees in walk order.  It returns a token for a
    sequence of entries exactly when the sequence is the depth-first walk, siblings in strictly
    increasing name order, of a well-formed tree rooted at [rootPath], and then the token is the
    Merkle token of that tree: every digest the recursive one, every entry counted. *)
Theorem stream_refines_tree rootPath infos tok :
  streamToken rootPath infos = Ok tok <->
  exists t, wf t /\ preorder t = infos /\ Path (info_of t) = rootPath /\ tok = tree_token t.
Proof.
  split.
  - intros H. apply stream_sound_tree in H as (t & ? & ? & ? & ?). eauto.
  - intros (t & Hw & <- & <- & ->). by apply stream_complete_tree.
Qed.

(** C22: the two constructions agree: when the stream returns a token for a walk, the batch
    construction returns the same token for any order of the same entries, whatever the order the
    node map is ranged over, provided the snapshot's root is a valid entry whose token fields are
    those of the walk's first entry. *)
Theorem stream_batch_agree root first rest entries tok :
  streamToken (Path root) (first :: rest) = Ok tok ->
  entries ≡ₚ first :: rest ->
  validateEntry root = Ok tt -> sameTokenFields root first = true ->
  deleteTreeTokenV3 {| Root := root; Entries := entries |} = Ok tok.
Proof.
  intros H Hperm Hv Hsame. apply stream_sound_tree in H as (t & Hw & Hpre & _ & ->).
  apply batch_tree; [done|by rewrite Hpre| |done].
  destruct t as [i cs]. simpl in Hpre. by injection Hpre as -> _.
Qed.

Lemma stream_batch_agree_witness :
  exists tok, deleteTreeTokenV3 {| Root := ex_dir "/d" "d"; Entries := rev ex_walk |} = Ok tok.
Proof.
  eexists. eapply (stream_batch_agree (ex_dir "/d" "d") (ex_dir "/d" "d") (tl ex_walk)).
  - vm_compute. reflexivity.
  - change (ex_dir "/d" "d" :: tl ex_walk) with ex_walk. symmetry. apply Permutation_rev.
  - reflexivity.
  - reflexivity.
Defined.

(** C25: a token identifies what is deleted.  Two walks, of typed entries, with the same token are the
    walks of two well-formed trees, and they have the same length and agree entry by entry on every
    token field (path, name, kind, mode, size, modification time, identity token, content hash),
    unless two of the very messages that were hashed for the two tokens, one for each, are different
    and have the same SHA-256 digest. *)
Theorem token_identifies_walk r1 r2 l1 l2 tok :
  streamToken r1 l1 = Ok tok -> streamToken r2 l2 = Ok tok ->
  Forall typed l1 -> Forall typed l2 ->
  exists t1 t2, wf t1 /\ wf t2 /\ preorder t1 = l1 /\ preorder t2 = l2 /\
  tok = Sha256.EncodeToString (Sha256.Sum256 (token_message t1)) /\
  (Forall2 (fun e e' => sameTokenFields e e' = true) l1 l2 \/ collision_in (hashed t1) (hashed t2)).
Proof.
  intros H1 H2 Ht1 Ht2.
  apply stream_sound_tree in H1 as (t1 & Hw1 & <- & _ & ->), H2 as (t2 & Hw2 & <- & _ & Htok).
  exists t1, t2. split_and!; try done; [by apply tree_token_eq|by apply token_identifies].
Qed.

(** The same walk seen a second time, with an unhashed field changed. *)
Definition ex_walk_again : list FileInfo :=
  map (fun i => {| Path := Path i; Name := Name i; IsDir := IsDir i; Mode := Mode i; Size := Size i;
    ModTime := ModTime i; DeleteIdentityToken := DeleteIdentityToken i; ContentHash := ContentHash i;
    Versioned := negb (Versioned i) |}) ex_walk.

Lemma token_identifies_walk_witness : exists t1 t2, preorder t1 = ex_walk /\ preorder t2 = ex_walk_again /\
  (Forall2 (fun e e' => sameTokenFields e e' = true) ex_walk ex_walk_again \/ collision_in (hashed t1) (hashed t2)).
Proof.
  edestruct (token_identifies_walk "/d" "/d" ex_walk ex_walk_again) as (t1 & t2 & _ & _ & H1 & H2 & _ & H).
  - vm_compute. reflexivity.
  - vm_compute. reflexivity.
  - apply (bool_decide_unpack _). vm_compute. exact I.
  - apply (bool_decide_unpack _). vm_compute. exact I.
  - exists t1, t2. split; [exact H1|]. split; [exact H2|exact H].
Defined.

Lemma fail_stream_err s e s' e' : fail_stream s e = (s', e') -> s_err s' = Some e' /\ s_finished s' = s_finished s.
Proof. unfold fail_stream. intros H. destruct (s_err s) eqn:E; by simplify_eq. Qed.

Lemma closeTopDirectory_finished s s' e :
  closeTopDirectory s = (s', e) -> s_finished s' = s_finished s.
Proof. unfold closeTopDirectory. intros H. by repeat case_in H; simplify_eq. Qed.

Lemma closeUntil_finished n s p s' e : closeUntil n s p = (s', e) -> s_finished s' = s_finished s.
Proof.
  revert s. induction n as [|n IH]; intros s H; simpl in H; [by simplify_eq|].
  repeat case_in H; simplify_eq; try done;
    match goal with E : closeTopDirectory _ = _ |- _ => apply closeTopDirectory_finished in E end;
    [done|apply IH in H; congruence].
Qed.

Lemma closeAll_finished n s s' e : closeAll n s = (s', e) -> s_finished s' = s_finished s.
Proof.
  revert s. induction n as [|n IH]; intros s H; simpl in H; [by simplify_eq|].
  repeat case_in H; simplify_eq; try done;
    match goal with E : closeTopDirectory _ = _ |- _ => apply closeTopDirectory_finished in E end;
    [done|apply IH in H; congruence].
Qed.

(** Errors stick.  Once [add] has refused an entry the stream yields no token: every later
    entry and [finish] are refused with the first error; and after any [finish] the stream is
    closed, every later call being refused with [AlreadyFinished]. *)
Theorem stream_errors_stick :
  (forall s info s' e, s_finished s = false -> add s info = (s', Some e) ->
     (forall info', add s' info' = (s', Some e)) /\ snd (finish s') = Err e) /\
  (forall s s' r, finish s = (s', r) ->
     (forall info', add s' info' = (s', Some AlreadyFinished)) /\ finish s' = (s', Err AlreadyFinished)).
Proof.
  split.
  - intros s info s' e Hf H.
    assert (Hs : s_err s' = Some e /\ s_finished s' = false).
    { unfold add, failed in H. rewrite Hf in H. repeat case_in H; simplify_eq; try done.
      all: repeat match goal with E : closeUntil _ _ _ = _ |- _ => apply closeUntil_finished in E end.
      all: match goal with |- context [fail_stream ?a ?b] => destruct (fail_stream a b) eqn:Ef end;
        apply fail_stream_err in Ef as [? ?]; simpl; split; congruence. }
    destruct Hs as [He Hf']. unfold add, finish. rewrite Hf'. simpl. by rewrite He.
  - intros s s' r H. assert (Hs : s_finished s' = true).
    { unfold finish in H. repeat case_in H; simplify_eq; try done.
      all: repeat match goal with E : closeAll _ _ = _ |- _ => apply closeAll_finished in E end.
      all: repeat match goal with E : fail_stream _ _ = _ |- _ => apply fail_stream_err in E as [_ E] end.
      all: simpl in *; congruence. }
    unfold add, finish. by rewrite Hs.
Qed.
End DeleteTreeProps.
