(* ===== verification/PropfindCache.v ===== *)
(** * internal/webdav/cache.go

    The cache of PROPFIND responses.  Each method runs under the cache's mutex and is one function
    here; the clock is an argument.  Responses are immutable values, so the deep copies made on the
    way in and out ([clonePropfindResponses]) are the values themselves. *)

From Stdlib Require Import Ascii.
From stdpp Require Import sorting.
From S2P Require Import Prelude GoStrings GoPath GoRunes Paths DeleteTree.

Module PropfindCache.

(** ** Data *)

(** [resourceType] keeps whether [Collection] is present; [None] for a nil pointer. *)
Record prop := {
  DisplayName : string;
  GetLastModified : string;
  GetContentLength : Z;
  GetETag : string;
  ResourceType : option bool;
}.
Record propstat := { Prop_ : prop; Status : string }.
Record propfindResponse := { Href : string; Propstat : propstat }.

(** [cachedAt] is an instant in nanoseconds. *)
Record cacheEntry := { responses : list propfindResponse; cachedAt : Z }.

Record PropfindCache := {
  entries : gmap string cacheEntry;
  ttl : Z;
  maxSize : Z;
  gen : Z;
}.

Definition with_entries (c : PropfindCache) (e : gmap string cacheEntry) : PropfindCache :=
  {| entries := e; ttl := ttl c; maxSize := maxSize c; gen := gen c |}.

(** A [time.Duration] saturates. *)
Definition duration (z : Z) : Z := Z.max minInt64 (Z.min maxInt64 z).

Definition NewPropfindCache (ttl maxSize : Z) : PropfindCache :=
  let ttl := if ttl =? 0 then 30 * 1000000000 else ttl in
  let maxSize := if maxSize =? 0 then 1000 else maxSize in
  {| entries := ∅; ttl := ttl; maxSize := maxSize; gen := 0 |}.

Definition pipe : ascii := "|".
Definition cacheKey (path depth : string) : string := path +:+ String pipe depth.

(** ** Operations *)

Definition expired (c : PropfindCache) (now : Z) (entry : cacheEntry) : bool :=
  ttl c <? duration (now - cachedAt entry).

Definition Get (c : PropfindCache) (path depth : string) (now : Z) : option (list propfindResponse) :=
  match entries c !! cacheKey path depth with
  | None => None
  | Some entry => if expired c now entry then None else Some (responses entry)
  end.

Definition SnapshotGeneration (c : PropfindCache) : Z := gen c.

(** The order of eviction: by age, then by key. *)
Definition older (x y : string * cacheEntry) : Prop :=
  cachedAt (snd x) < cachedAt (snd y) \/
  (cachedAt (snd x) = cachedAt (snd y) /\ String.le (fst x) (fst y)).
#[export] Instance older_dec : RelDecision older.
Proof. intros x y. unfold older. apply _. Defined.

Definition evictOldest (c : PropfindCache) : PropfindCache :=
  if bool_decide (size (entries c) = O) then c
  else
    let n := Z.of_nat (size (entries c)) in
    let toRemove := if n / 10 <? 1 then 1 else n / 10 in
    let oldest := merge_sort older (map_to_list (entries c)) in
    with_entries c (foldr (fun k m => delete k m) (entries c) (fst <$> take (Z.to_nat toRemove) oldest)).

Definition setLocked (c : PropfindCache) (path depth : string) (rs : list propfindResponse) (now : Z) : PropfindCache :=
  let c := if maxSize c <=? Z.of_nat (size (entries c)) then evictOldest c else c in
  with_entries c (<[cacheKey path depth := {| responses := rs; cachedAt := now |}]> (entries c)).

Definition Set_ (c : PropfindCache) (path depth : string) (rs : list propfindResponse) (now : Z) : PropfindCache :=
  setLocked c path depth rs now.

Definition SetIfUnchanged (c : PropfindCache) (path depth : string) (rs : list propfindResponse)
    (generation : Z) (now : Z) : PropfindCache * bool :=
  if negb (gen c =? generation) then (c, false) else (setLocked c path depth rs now, true).

Definition isDescendantPath (parentPath childPath : string) : bool :=
  if String.eqb parentPath "/" then negb (String.eqb childPath "/") && HasPrefix childPath "/"
  else HasPrefix childPath (parentPath +:+ "/").

Definition affectsCachedPropfind (changedPath cachedPath : string) : bool :=
  if String.eqb changedPath cachedPath then true
  else isDescendantPath changedPath cachedPath || isDescendantPath cachedPath changedPath.

Definition cachedPath (key : string) : string :=
  let '(before, _, ok) := Cut pipe key in if ok then before else key.

Definition Invalidate (c : PropfindCache) (path : string) : PropfindCache :=
  {| entries := filter (fun ke => affectsCachedPropfind path (cachedPath (fst ke)) = false) (entries c);
     ttl := ttl c; maxSize := maxSize c; gen := uint64 (gen c + 1) |}.

Definition InvalidateAll (c : PropfindCache) : PropfindCache :=
  {| entries := ∅; ttl := ttl c; maxSize := maxSize c; gen := uint64 (gen c + 1) |}.

Definition Stats (c : PropfindCache) (now : Z) : Z * Z :=
  (Z.of_nat (size (entries c)), sum_map (fun e => if expired c now e then 1 else 0) (entries c)).

(** ** Building responses *)

Section Build.
(** [time.Time.Format] with the HTTP date layout. *)
Context (http_date : Z -> string).

Fixpoint baseName (path : string) : string :=
  match path with
  | EmptyString => EmptyString
  | String a rest => if contains_byte slash rest then baseName rest else if Ascii.eqb a slash then rest else path
  end.

Definition quoted (s : string) : string := String (ascii_of_N 34) (s +:+ byte1 34).

Definition buildPropResponse (prefix filePath : string) (info : DeleteTree.FileInfo) : propfindResponse :=
  let href := if String.eqb prefix "" then filePath else prefix +:+ filePath in
  let href :=
    if DeleteTree.IsDir info && (0 <? len href) && negb (HasSuffix href "/") then href +:+ "/" else href in
  let displayName := baseName filePath in
  let modified := http_date (DeleteTree.ModTime info) in
  {| Href := href;
     Propstat := {|
       Status := "HTTP/1.1 200 OK";
       Prop_ :=
         if DeleteTree.IsDir info then
           {| DisplayName := displayName; GetLastModified := modified; GetContentLength := 0; GetETag := "";
              ResourceType := Some true |}
         else
           {| DisplayName := displayName; GetLastModified := modified;
              GetContentLength := DeleteTree.Size info;
              GetETag := if String.eqb (DeleteTree.ContentHash info) "" then "" else quoted (DeleteTree.ContentHash info);
              ResourceType := None |} |} |}.

Definition BuildPropfindResponses (prefix filePath : string) (info : DeleteTree.FileInfo)
    (children : list DeleteTree.FileInfo) (depth : string) : list propfindResponse :=
  buildPropResponse prefix filePath info ::
  if DeleteTree.IsDir info && negb (String.eqb depth "0")
  then map (fun child => buildPropResponse prefix (DeleteTree.Path child) child) children
  else [].
End Build.

(** ** Histories *)

(** The calls that change the cache; [None] for [InvalidateAll]. *)
Inductive call :=
| CallSet (path depth : string) (rs : list propfindResponse) (now : Z)
| CallSetIfUnchanged (path depth : string) (rs : list propfindResponse) (generation now : Z)
| CallInvalidate (path : string)
| CallInvalidateAll.

Definition run_call (c : PropfindCache) (x : call) : PropfindCache :=
  match x with
  | CallSet path depth rs now => Set_ c path depth rs now
  | CallSetIfUnchanged path depth rs generation now => fst (SetIfUnchanged c path depth rs generation now)
  | CallInvalidate path => Invalidate c path
  | CallInvalidateAll => InvalidateAll c
  end.

Definition run (c : PropfindCache) (calls : list call) : PropfindCache := fold_left run_call calls c.

Definition invalidations (calls : list call) : Z :=
  Z.of_nat (length (List.filter (fun x => match x with CallInvalidate _ | CallInvalidateAll => true | _ => false end) calls)).

(** ** Lemmas *)

#[export] Instance older_total : Total older.
Proof.
  intros x y. unfold older. destruct (Z.lt_trichotomy (cachedAt (snd x)) (cachedAt (snd y))) as [?|[?|?]]; [auto| |auto].
  destruct (total String.le (fst x) (fst y)); auto.
Qed.
#[export] Instance older_trans : Transitive older.
Proof.
  intros x y z. unfold older. intros [?|[? ?]] [?|[? ?]]; [left; lia..|].
  right. split; [lia|]. by etrans.
Qed.

Lemma delete_list_lookup {V} (l : list string) (m : gmap string V) k :
  foldr (fun k m => delete k m) m l !! k = if bool_decide (k ∈ l) then None else m !! k.
Proof.
  induction l as [|x l IH]; simpl; [done|].
  destruct (decide (k = x)) as [->|Hne].
  - rewrite lookup_delete_eq, bool_decide_eq_true_2; [done|left].
  - rewrite lookup_delete_ne, IH by done. apply not_eq_sym in Hne.
    destruct (bool_decide (k ∈ l)) eqn:E; b2p.
    + by rewrite bool_decide_eq_true_2 by (by right).
    + rewrite bool_decide_eq_false_2; [done|]. intros [?|?]%elem_of_cons; done.
Qed.

Lemma delete_list_size {V} (l : list string) (m : gmap string V) :
  NoDup l -> (forall k, k ∈ l -> is_Some (m !! k)) ->
  size (foldr (fun k m => delete k m) m l) = (size m - length l)%nat.
Proof.
  induction 1 as [|x l Hni Hnd IH]; simpl; intros Hin; [lia|].
  rewrite map_size_delete, delete_list_lookup, bool_decide_eq_false_2 by done.
  destruct (Hin x) as [v ->]; [left|]. simpl. rewrite IH; [lia|]. intros k ?. apply Hin. by right.
Qed.

(** The keys to evict. *)
Definition victims (c : PropfindCache) (n : nat) : list (string * cacheEntry) :=
  take n (merge_sort older (map_to_list (entries c))).

Lemma sorted_perm c : merge_sort older (map_to_list (entries c)) ≡ₚ map_to_list (entries c).
Proof. apply merge_sort_Permutation. Qed.

Lemma victims_keys c n :
  NoDup (fst <$> victims c n) /\ forall k, k ∈ fst <$> victims c n -> is_Some (entries c !! k).
Proof.
  unfold victims. split.
  - pose proof (NoDup_fst_map_to_list (entries c)) as Hn. rewrite <-(sorted_perm c) in Hn.
    rewrite <-(take_drop n (merge_sort older _)), fmap_app in Hn. by apply NoDup_app in Hn as [? _].
  - intros k ([k' v] & -> & Hk)%list_elem_of_fmap. exists v. simpl.
    apply elem_of_map_to_list. rewrite <-(sorted_perm c).
    rewrite <-(take_drop n (merge_sort older _)). apply elem_of_app. by left.
Qed.

Definition evict_count (c : PropfindCache) : nat :=
  let n := Z.of_nat (size (entries c)) in Z.to_nat (if n / 10 <? 1 then 1 else n / 10).

Lemma evict_count_range c : size (entries c) <> O -> (1 <= evict_count c <= size (entries c))%nat.
Proof.
  intros Hne. unfold evict_count. destruct (_ <? 1) eqn:E; b2p; [lia|].
  assert (Z.of_nat (size (entries c)) / 10 <= Z.of_nat (size (entries c))) by (apply Z.div_le_upper_bound; lia). lia.
Qed.

Lemma evict_size c : size (entries c) <> O ->
  size (entries (evictOldest c)) = (size (entries c) - evict_count c)%nat.
Proof.
  intros Hne. unfold evictOldest. rewrite bool_decide_eq_false_2 by done. simpl.
  fold (evict_count c). fold (victims c (evict_count c)).
  destruct (victims_keys c (evict_count c)) as [H1 H2]. rewrite delete_list_size by done.
  rewrite length_fmap. unfold victims. rewrite length_take, (Permutation_length (sorted_perm c)), length_map_to_list.
  pose proof (evict_count_range c Hne). lia.
Qed.

Lemma setLocked_size c path depth rs now :
  1 <= maxSize c -> Z.of_nat (size (entries c)) <= maxSize c ->
  Z.of_nat (size (entries (setLocked c path depth rs now))) <= maxSize c.
Proof.
  intros Hm Hs. assert (Hins : forall (m : gmap string cacheEntry) k v, (size (<[k:=v]> m) <= S (size m))%nat).
  { intros m k v. rewrite map_size_insert. destruct (m !! k); simpl; lia. }
  unfold setLocked. destruct (maxSize c <=? _) eqn:E; b2p; simpl.
  - assert (size (entries c) <> O) as Hne by lia.
    pose proof (Hins (entries (evictOldest c)) (cacheKey path depth) {| responses := rs; cachedAt := now |}) as Hi.
    rewrite evict_size in Hi by done. pose proof (evict_count_range c Hne). lia.
  - pose proof (Hins (entries c) (cacheKey path depth) {| responses := rs; cachedAt := now |}). lia.
Qed.

Lemma evict_params c : maxSize (evictOldest c) = maxSize c /\ gen (evictOldest c) = gen c /\ ttl (evictOldest c) = ttl c.
Proof. unfold evictOldest. by case_bool_decide. Qed.

Lemma setLocked_params c path depth rs now :
  maxSize (setLocked c path depth rs now) = maxSize c /\ gen (setLocked c path depth rs now) = gen c /\
  ttl (setLocked c path depth rs now) = ttl c.
Proof. unfold setLocked. simpl. destruct (maxSize c <=? _); [apply evict_params|done]. Qed.

#[local] Arguments setLocked : simpl never.
#[local] Arguments Set_ : simpl never.

Lemma run_call_params c x : maxSize (run_call c x) = maxSize c.
Proof.
  destruct x; cbn [run_call]; try done; [apply setLocked_params|]. unfold SetIfUnchanged.
  destruct (negb _); [done|apply setLocked_params].
Qed.

Lemma run_call_size c x :
  1 <= maxSize c -> Z.of_nat (size (entries c)) <= maxSize c -> Z.of_nat (size (entries (run_call c x))) <= maxSize c.
Proof.
  intros Hm Hs. destruct x; cbn [run_call].
  - by apply setLocked_size.
  - unfold SetIfUnchanged. destruct (negb _); [done|by apply setLocked_size].
  - pose proof (map_size_filter (fun ke => affectsCachedPropfind path (cachedPath (fst ke)) = false) (entries c)). simpl. lia.
  - simpl. rewrite map_size_empty. lia.
Qed.

(** ** Properties *)

Definition bounded_cache (c : PropfindCache) : Prop :=
  1 <= maxSize c /\ Z.of_nat (size (entries c)) <= maxSize c.

(** The cache is bounded: from a new cache of a positive (or default) size, no sequence of calls
    makes it hold more entries than that size. *)
Theorem cache_bounded ttl0 maxSize0 calls :
  0 <= maxSize0 ->
  let c := run (NewPropfindCache ttl0 maxSize0) calls in
  Z.of_nat (size (entries c)) <= (if maxSize0 =? 0 then 1000 else maxSize0).
Proof.
  intros Hm c. set (m := if maxSize0 =? 0 then 1000 else maxSize0).
  assert (1 <= m) as Hm1 by (unfold m; destruct (maxSize0 =? 0) eqn:E; b2p; lia).
  assert (Hrun : forall calls c, maxSize c = m -> Z.of_nat (size (entries c)) <= m ->
    maxSize (run c calls) = m /\ Z.of_nat (size (entries (run c calls))) <= m).
  { clear -Hm1. induction calls as [|x calls IH]; intros c Hc Hs; [done|]. simpl. apply IH.
    - by rewrite run_call_params.
    - rewrite <-Hc. apply run_call_size; by rewrite Hc. }
  apply (Hrun calls (NewPropfindCache ttl0 maxSize0)); [done|]. simpl. rewrite map_size_empty. lia.
Qed.

Lemma cache_bounded_witness : 0 <= 1 /\
  Z.of_nat (size (entries (run (NewPropfindCache 0 1) [CallSet "/a" "1" [] 5; CallSet "/b" "1" [] 6]))) <= 1.
Proof. split; [lia|]. apply (cache_bounded 0 1 [CallSet "/a" "1" [] 5; CallSet "/b" "1" [] 6]). lia. Defined.

(** Eviction makes room by age: it removes a tenth of the entries, at least one, keeps the others
    unchanged, and every entry it removes is no younger than any entry it keeps. *)
Theorem eviction_removes_oldest c :
  size (entries c) <> O ->
  let c' := evictOldest c in
  Z.of_nat (size (entries c')) = Z.of_nat (size (entries c)) - Z.max 1 (Z.of_nat (size (entries c)) / 10) /\
  (forall k e, entries c' !! k = Some e -> entries c !! k = Some e) /\
  (forall k e k' e', entries c !! k = Some e -> entries c' !! k = None -> entries c' !! k' = Some e' ->
     cachedAt e <= cachedAt e').
Proof.
  intros Hne c'. split.
  { unfold c'. rewrite evict_size by done. pose proof (evict_count_range c Hne) as Hr.
    rewrite Nat2Z.inj_sub by lia. f_equal. unfold evict_count.
    destruct (_ <? 1) eqn:E; b2p; rewrite Z2Nat.id; lia. }
  assert (Hc : forall k, entries c' !! k = if bool_decide (k ∈ fst <$> victims c (evict_count c)) then None else entries c !! k).
  { intros k. unfold c', evictOldest. rewrite bool_decide_eq_false_2 by done. apply delete_list_lookup. }
  split.
  - intros k e He. rewrite Hc in He. by case_bool_decide.
  - intros k e k' e' He Hk Hk'. rewrite Hc in Hk, Hk'.
    destruct (bool_decide (k ∈ _)) eqn:Hv in Hk; [|congruence].
    destruct (bool_decide (k' ∈ _)) eqn:Hv' in Hk'; [done|]. b2p.
    apply list_elem_of_fmap in Hv as ([k0 e0] & Heq & Hin). simpl in Heq. subst k.
    assert (e0 = e) as ->.
    { assert ((k0, e0) ∈ map_to_list (entries c)) as Hm.
      { rewrite <-(sorted_perm c), <-(take_drop (evict_count c) (merge_sort older _)).
        apply elem_of_app. by left. }
      apply elem_of_map_to_list in Hm. congruence. }
    assert ((k', e') ∈ drop (evict_count c) (merge_sort older (map_to_list (entries c)))) as Hin'.
    { apply elem_of_map_to_list in Hk'. rewrite <-(sorted_perm c) in Hk'.
      rewrite <-(take_drop (evict_count c) (merge_sort older _)) in Hk'.
      apply elem_of_app in Hk' as [Hk'|?]; [|done]. exfalso. apply Hv'.
      by apply (list_elem_of_fmap_2 fst _ (k', e')). }
    pose proof (Sorted_merge_sort older (map_to_list (entries c))) as Hsort.
    apply Sorted_StronglySorted in Hsort; [|exact older_trans].
    rewrite <-(take_drop (evict_count c) (merge_sort older _)) in Hsort.
    pose proof (StronglySorted_app_1_elem_of _ _ _ _ _ Hsort Hin Hin') as [?|[? _]]; simpl in *; lia.
Qed.

Lemma eviction_removes_oldest_witness :
  let c := run (NewPropfindCache 0 5) [CallSet "/a" "1" [] 7; CallSet "/b" "1" [] 6] in
  Z.of_nat (size (entries (evictOldest c))) = 1.
Proof.
  intros c. destruct (eviction_removes_oldest c) as [H _]; [vm_compute; discriminate|].
  rewrite H. vm_compute. reflexivity.
Defined.

(** The bytes of a cache key up to the first pipe. *)
Lemma cachedPath_key path depth : contains_byte pipe path = false -> cachedPath (cacheKey path depth) = path.
Proof.
  intros Hp. unfold cachedPath, cacheKey.
  assert (Cut pipe (path +:+ String pipe depth) = (path, depth, true)) as ->; [|done].
  induction path as [|a path IH]; simpl in *; [done|].
  apply orb_false_elim in Hp as [Ha Hp]. rewrite IH by done. by rewrite Ha.
Qed.

Lemma descendant_iff b t : canonical b -> canonical t ->
  isDescendantPath b t = true <-> clean_segments b `prefix_of` clean_segments t /\ b <> t.
Proof.
  intros (sb & Hb & ->) (st & Ht & ->). rewrite !clean_segments_render by done. unfold isDescendantPath.
  destruct (String.eqb (render sb) "/") eqn:E; b2p.
  - change "/" with (render []) in E. apply render_inj in E as ->; [|done..].
    change (render []) with "/". rewrite andb_true_iff, negb_true_iff, String.eqb_neq.
    split; [intros [? _]; split; [apply prefix_nil|congruence]|].
    intros [_ ?]. split; [congruence|apply render_rooted].
  - assert (sb <> []) as Hne by by intros ->. rewrite render_below_iff by done. split.
    + intros (r & Hr & ->). split; [by eexists|]. intros Heq. apply render_inj in Heq; [|done..].
      apply Hr. by apply (app_inv_head sb); rewrite app_nil_r.
    + intros [[r ->] Hn]. exists r. split; [|done]. intros ->. by rewrite app_nil_r in Hn.
Qed.

(** An invalidation leaves no entry that the change can affect, and drops no other: after a change
    of one path, the responses cached for a path without a pipe in it are gone exactly when one of
    the two paths contains the other, segment by segment; otherwise they are still there. *)
Theorem invalidation_exact c changed path depth :
  canonical changed -> canonical path -> contains_byte pipe path = false ->
  entries (Invalidate c changed) !! cacheKey path depth =
  if pathWithinBase changed path || pathWithinBase path changed then None
  else entries c !! cacheKey path depth.
Proof.
  intros Hc Hp Hpipe. unfold Invalidate. cbn [entries].
  assert (Ha : affectsCachedPropfind changed path = pathWithinBase changed path || pathWithinBase path changed).
  { apply eq_true_iff_eq. unfold affectsCachedPropfind.
    rewrite orb_true_iff, !pathWithinBase_canonical by done.
    destruct (String.eqb changed path) eqn:E; b2p; [subst; split; [by left|done]|].
    rewrite orb_true_iff, !descendant_iff by done. split; [tauto|]. intros [?|?]; [left|right]; split; congruence. }
  rewrite <-Ha. destruct (affectsCachedPropfind changed path) eqn:E.
  - apply map_lookup_filter_None. right. intros e _. simpl. rewrite cachedPath_key by done. congruence.
  - apply option_eq. intros e. rewrite map_lookup_filter_Some. simpl. rewrite cachedPath_key by done. tauto.
Qed.

Definition ex_cache : PropfindCache :=
  run (NewPropfindCache 0 10) [CallSet "/a" "1" [] 7; CallSet "/a/b" "0" [] 8; CallSet "/ab" "1" [] 9].

Lemma invalidation_exact_witness :
  entries (Invalidate ex_cache "/a/b") !! cacheKey "/a" "1" = None /\
  is_Some (entries (Invalidate ex_cache "/a/b") !! cacheKey "/ab" "1").
Proof.
  rewrite (invalidation_exact ex_cache "/a/b" "/a" "1"), (invalidation_exact ex_cache "/a/b" "/ab" "1");
    [split; [reflexivity|by eexists]|..].
  all: first [reflexivity | apply canonical_by_Clean; reflexivity].
Defined.

(** Responses computed before a change are never cached after it: when at least one and fewer than
    [2^64] invalidations happened since the generation was observed, [SetIfUnchanged] refuses and
    leaves the cache as it is; when none happened, it stores the responses and a lookup within the
    lifetime finds them. *)
Theorem stale_fill_refused c calls path depth rs now now' :
  in_uint64 (gen c) -> invalidations calls <= maxUint64 ->
  let c' := run c calls in
  (0 < invalidations calls -> SetIfUnchanged c' path depth rs (SnapshotGeneration c) now = (c', false)) /\
  (invalidations calls = 0 -> exists c'', SetIfUnchanged c' path depth rs (SnapshotGeneration c) now = (c'', true) /\
     (duration (now' - now) <= ttl c'' -> Get c'' path depth now' = Some rs)).
Proof.
  intros Hg Hn c'. assert (Hgen : gen c' = uint64 (gen c + invalidations calls)).
  { unfold c'. clear Hn c'. revert c Hg. induction calls as [|x calls IH]; intros c Hg; [simpl|change (run c (x :: calls)) with (run (run_call c x) calls)].
    - unfold invalidations. simpl. by rewrite Z.add_0_r, uint64_id.
    - assert (Hcase : (gen (run_call c x) = gen c /\ invalidations (x :: calls) = invalidations calls) \/
        (gen (run_call c x) = uint64 (gen c + 1) /\ invalidations (x :: calls) = 1 + invalidations calls)).
      { destruct x; cbn [run_call]; [left| |right; split; [done|unfold invalidations; simpl; lia]..].
        - split; [apply setLocked_params|done].
        - left. unfold SetIfUnchanged. destruct (negb _); [done|]. split; [apply setLocked_params|done]. }
      destruct Hcase as [[H1 H2]|[H1 H2]].
      + rewrite IH by (by rewrite H1). by rewrite H1, H2.
      + rewrite IH by (rewrite H1; apply uint64_range). rewrite H1, H2. unfold uint64.
        rewrite Zplus_mod_idemp_l. f_equal. lia. }
  assert (0 <= invalidations calls) as Hpos by (unfold invalidations; lia).
  unfold SetIfUnchanged, SnapshotGeneration. rewrite Hgen. split.
  - intros Hlt. assert (uint64 (gen c + invalidations calls) <> gen c) as Hne%Z.eqb_neq; [|by rewrite Hne].
    revert Hg Hn. int_unfold. intros Hg Hn. Z.div_mod_to_equations. lia.
  - intros Hz. rewrite Hz, Z.add_0_r, uint64_id, Z.eqb_refl by done. eexists. split; [done|].
    intros Hd. unfold Get, setLocked, expired. simpl. rewrite lookup_insert_eq. simpl.
    destruct (_ <? _) eqn:E; [|done]. b2p. unfold setLocked in Hd. simpl in Hd. lia.
Qed.

Lemma stale_fill_refused_witness :
  SetIfUnchanged (run ex_cache [CallInvalidate "/a/b"]) "/a" "1" [] (SnapshotGeneration ex_cache) 20 =
  (run ex_cache [CallInvalidate "/a/b"], false).
Proof.
  edestruct (stale_fill_refused ex_cache [CallInvalidate "/a/b"] "/a" "1" [] 20 20) as [H _];
    [vm_compute; split; discriminate|vm_compute; discriminate|]. apply H. vm_compute. reflexivity.
Defined.

(** The key of a path with a pipe is cut at its first pipe. *)
Lemma cachedPath_pipe d rest depth : contains_byte pipe d = false -> cachedPath (cacheKey (d +:+ String pipe rest) depth) = d.
Proof.
  intros Hp. unfold cacheKey. rewrite sapp_assoc. change (String pipe rest +:+ String pipe depth) with (String pipe (rest +:+ String pipe depth)).
  by apply cachedPath_key.
Qed.

(** Invalidations reach the entry of such a path exactly when they affect the part before the pipe. *)
Lemma invalidate_pipe c changed d rest depth : contains_byte pipe d = false ->
  entries (Invalidate c changed) !! cacheKey (d +:+ String pipe rest) depth =
  if affectsCachedPropfind changed d then None else entries c !! cacheKey (d +:+ String pipe rest) depth.
Proof.
  intros Hp. unfold Invalidate. cbn [entries]. destruct (affectsCachedPropfind changed d) eqn:E.
  - apply map_lookup_filter_None. right. intros e _. cbn [fst]. rewrite cachedPath_pipe by done. congruence.
  - apply option_eq. intros e. rewrite map_lookup_filter_Some. cbn [fst]. rewrite cachedPath_pipe by done. tauto.
Qed.

Lemma longer_path_not_above d a s : d <> "/" -> a <> slash -> affectsCachedPropfind (d +:+ String a s) d = false.
Proof.
  intros Hd Ha. assert (Hlen : String.length (d +:+ String a s) = (String.length d + S (String.length s))%nat) by by rewrite sapp_length.
  unfold affectsCachedPropfind. destruct (String.eqb _ d) eqn:E; b2p; [rewrite E in Hlen; lia|]. apply orb_false_iff. split; apply not_true_is_false; unfold isDescendantPath.
  - destruct (String.eqb _ "/") eqn:E1; b2p; [rewrite E1 in Hlen; cbn in Hlen; destruct d; [|cbn in Hlen; lia]; by intros [_ ?]%andb_true_iff|].
    intros [t Ht]%HasPrefix_spec. apply (f_equal String.length) in Ht. rewrite !sapp_length in Ht. cbn in Ht. lia.
  - destruct (String.eqb d "/") eqn:E1; b2p; [done|]. intros [t Ht]%HasPrefix_spec. rewrite sapp_assoc in Ht. apply sapp_inj_l in Ht. injection Ht as Ht _. done.
Qed.

(** C35: A path with a pipe in its name escapes invalidation: in any cache, for any depth, a change of such a
    path itself, or of anything below it ([below] is any text), leaves what is cached for it, and the listing stored before the
    change is served until its lifetime is over.  Only a name at the top that begins with the pipe is
    invalidated, because what is left of its key is the root. *)
Theorem pipe_paths_escape_invalidation c d rest below depth :
  contains_byte pipe d = false -> d <> "/" ->
  let path := d +:+ String pipe rest in
  (forall now, Get (Invalidate c (path +:+ below)) path depth now = Get c path depth now) /\
  (forall rs stored now, duration (now - stored) <= ttl c ->
     Get (Invalidate (Set_ c path depth rs stored) (path +:+ below)) path depth now = Some rs).
Proof.
  intros Hp Hd path.
  assert (Hget : forall c now, Get (Invalidate c (path +:+ below)) path depth now = Get c path depth now).
  { clear c. intros c now. unfold Get. unfold path. rewrite invalidate_pipe by done.
    replace (affectsCachedPropfind ((d +:+ String pipe rest) +:+ below) d) with false; [done|].
    rewrite sapp_assoc. symmetry. by apply (longer_path_not_above d pipe (rest +:+ below)). }
  split; [exact (Hget c)|]. intros rs stored now Ht. rewrite Hget. unfold Set_, setLocked, Get, expired, with_entries.
  destruct (maxSize c <=? _); cbn [entries ttl]; rewrite lookup_insert_eq; cbn [cachedAt responses]; rewrite ?(proj2 (proj2 (evict_params c))); by rewrite (proj2 (Z.ltb_ge _ _)).
Qed.

Lemma pipe_paths_escape_invalidation_witness :
  Get (Invalidate (Set_ (NewPropfindCache 0 0) "/a|b" "1" [] 5) "/a|b/new") "/a|b" "1" 6 = Some [].
Proof.
  destruct (pipe_paths_escape_invalidation (NewPropfindCache 0 0) "/a" "b" "/new" "1") as [_ H];
    [reflexivity|discriminate|]. apply (H [] 5 6). vm_compute. discriminate.
Defined.

End PropfindCache.
