(* ===== verification/FileMonad.v ===== *)
(** * Programs of file operations, with faults and crashes

    A store that must survive crashes keeps its records in files.  Its code is a program over the operations
    below (the entry points of internal/rootio and os.File that it calls), on one directory or on a root of
    directories.  A run follows a script: each operation succeeds, fails after a part of its effect, or is
    where the machine crashes or the process is killed.  The assumptions on the file system are these, and no
    more: operations on a directory take effect one after the other; a failed operation reports an error and
    has no effect, except that a failed write may have written a part of its bytes; a crash keeps of every
    file at least the bytes that were synced, followed by a prefix of the bytes that were not, and what it
    keeps is synced ([settle]); a killed process leaves everything as it is, synced or not.  A crash may fall
    before every operation of a program, so also between any two of them.

    Triples in the style of a crash logic say what holds when a program returns and what holds after a
    crash.  Their mode says what the script may hold: nothing but successes, crashes, or one failure and
    then crashes; no triple speaks of killed processes. *)

From Stdlib Require Import Ascii.
From S2P Require Import Prelude GoStrings GoPath.

(** ** Directories *)

(** A regular file of mode 0600; a directory or a symbolic link; anything else. *)
Inductive kind := Regular0600 | DirOrLink | OtherFile.

(** A file: its bytes, how many of them are synced, its persistent identity (device, inode and birth
    time), and what it is. *)
Record file := { f_bytes : string; f_synced : nat; f_identity : string; f_kind : kind }.
Definition f_regular (f : file) : bool := match f_kind f with Regular0600 => true | _ => false end.
Definition dir_or_link (f : file) : bool := match f_kind f with DirOrLink => true | _ => false end.
Notation dir := (gmap string file).

Inductive FileError := NotExist | Exists | IOError.
#[export] Instance FileError_eq_dec : EqDecision FileError.
Proof. solve_decision. Defined.

Definition str_take (n : nat) (s : string) : string := String.substring 0 n s.
Definition with_bytes (f : file) (b : string) (synced : nat) : file :=
  {| f_bytes := b; f_synced := synced; f_identity := f_identity f; f_kind := f_kind f |}.

(** What a crash of the machine leaves of a file: [n] bytes, but all that were synced; they are on disk. *)
Definition settle_file (n : nat) (f : file) : file :=
  let b := str_take (Nat.max n (f_synced f)) (f_bytes f) in with_bytes f b (String.length b).

(** What a crash leaves of a directory, or of a larger part of the file system. *)
Class Crash (D : Type) := settle : nat -> D -> D.
#[export] Instance dir_crash : Crash dir := fun n d => settle_file n <$> d.

(** ** Programs *)

(** [Kill]: the process ends and the machine keeps running, with what was not synced in its memory. *)
Inductive fault := NoFault | FailAfter (n : nat) | CrashAfter (n : nat) | Kill.

Record io {D : Type} := { io_dir : D; io_script : list fault }.
Arguments io : clear implicits.

(** [None] is a crash. *)
Definition program (D A : Type) : Type := io D -> io D * option A.
(** A program on one directory. *)
Notation prog := (program dir).

Definition ret {D A} (a : A) : program D A := fun w => (w, Some a).
Definition bind {D A B} (m : program D A) (k : A -> program D B) : program D B := fun w =>
  match m w with
  | (w', Some a) => k a w'
  | (w', None) => (w', None)
  end.

Notation "'run!' x ':=' m 'in' k" := (bind m (fun x => k))
  (at level 10, x pattern, m at level 100, k at level 200) : go_scope.
(** [try! x := m in k] is Go's [x, err := m; if err != nil { return ..., err }; k]. *)
Notation "'try!' x ':=' m 'in' k" :=
  (bind m (fun r => match r with Ok x => k | Err err => ret (Err err) end))
  (at level 10, x pattern, m at level 100, k at level 200) : go_scope.

Definition effect {D A} `{Crash D} (ok : D -> D * result FileError A) (partial : nat -> D -> D)
    : program D (result FileError A) := fun w =>
  match io_script w with
  | [] => let '(d, r) := ok (io_dir w) in ({| io_dir := d; io_script := [] |}, Some r)
  | NoFault :: s => let '(d, r) := ok (io_dir w) in ({| io_dir := d; io_script := s |}, Some r)
  | FailAfter n :: s => ({| io_dir := partial n (io_dir w); io_script := s |}, Some (Err IOError))
  | CrashAfter n :: s => ({| io_dir := settle n (io_dir w); io_script := s |}, None)
  | Kill :: s => ({| io_dir := io_dir w; io_script := s |}, None)
  end.

Definition no_partial {D} (n : nat) (d : D) : D := d.

Definition create_ok (name identity : string) (d : dir) : dir * result FileError unit :=
  match d !! name with
  | Some _ => (d, Err Exists)
  | None => (<[name := {| f_bytes := ""; f_synced := 0; f_identity := identity; f_kind := Regular0600 |}]> d, Ok tt)
  end.
(** [os.O_CREATE|os.O_EXCL] with mode 0600. *)
Definition create (name identity : string) : prog (result FileError unit) := effect (create_ok name identity) no_partial.

(** The bytes of a write at an offset within the file or at its end. *)
Definition splice (old : string) (offset : nat) (new : string) : string :=
  str_take offset old +:+ new +:+ str_drop (offset + String.length new) old.

Definition put_bytes (name : string) (offset : nat) (new : string) (d : dir) : dir :=
  match d !! name with
  | Some f => <[name := with_bytes f (splice (f_bytes f) offset new) (Nat.min (f_synced f) offset)]> d
  | None => d
  end.
Definition write_ok (name : string) (offset : nat) (new : string) (d : dir) : dir * result FileError unit :=
  (put_bytes name offset new d, Ok tt).
Definition write_at (name : string) (offset : nat) (new : string) : prog (result FileError unit) :=
  effect (write_ok name offset new) (fun n => put_bytes name offset (str_take n new)).

Definition truncate_ok (name : string) (size : nat) (d : dir) : dir * result FileError unit :=
  (match d !! name with
   | Some f => <[name := with_bytes f (str_take size (f_bytes f)) (Nat.min (f_synced f) size)]> d
   | None => d
   end, Ok tt).
Definition truncate (name : string) (size : nat) : prog (result FileError unit) := effect (truncate_ok name size) no_partial.

Definition sync_ok (name : string) (d : dir) : dir * result FileError unit :=
  (match d !! name with
   | Some f => <[name := with_bytes f (f_bytes f) (String.length (f_bytes f))]> d
   | None => d
   end, Ok tt).
Definition sync (name : string) : prog (result FileError unit) := effect (sync_ok name) no_partial.

(** [rootio.RenamePathIntoDirNoFollow] within the directory: the target is replaced. *)
Definition rename_ok (from to : string) (d : dir) : dir * result FileError unit :=
  match d !! from with
  | Some f => (<[to := f]> (delete from d), Ok tt)
  | None => (d, Err NotExist)
  end.
Definition rename (from to : string) : prog (result FileError unit) := effect (rename_ok from to) no_partial.

(** [removeVerifiedRegularFile] *)
Definition remove_ok (name : string) (d : dir) : dir * result FileError unit :=
  match d !! name with
  | Some f => if f_regular f then (delete name d, Ok tt) else (d, Err IOError)
  | None => (d, Err NotExist)
  end.
Definition remove (name : string) : prog (result FileError unit) := effect (remove_ok name) no_partial.

Definition sync_dir : prog (result FileError unit) := effect (fun d => (d, Ok tt)) no_partial.

(** A file opened and read, or inspected; [os.File.ReadDir]. *)
Definition stat_ok (name : string) (d : dir) : dir * result FileError file :=
  (d, match d !! name with Some f => Ok f | None => Err NotExist end).
Definition stat (name : string) : prog (result FileError file) := effect (stat_ok name) no_partial.
Definition read_dir : prog (result FileError (list (string * file))) := effect (fun d => (d, Ok (map_to_list d))) no_partial.

(** ** Triples *)

(** What a script may hold: nothing; crashes of the machine; these and one failing operation. *)
Inductive mode := Reliable | Crashing | Failing.

Fixpoint script_ok (m : mode) (s : list fault) : bool :=
  match s with
  | [] => true
  | NoFault :: s' => script_ok m s'
  | FailAfter _ :: s' => match m with Failing => script_ok Crashing s' | _ => false end
  | CrashAfter _ :: _ => match m with Reliable => false | _ => true end
  | Kill :: _ => false
  end.

(** An operation failed: the script held a failure, and holds no more. *)
Definition failed (m m' : mode) : Prop := m = Failing /\ m' = Crashing.
Definition mode_le (m' m : mode) : Prop := m' = m \/ failed m m'.

(** [Q] and [C] say what holds on return, where [Q] is told what the rest of the script may hold, and
    after a crash. *)
Definition triple {D A} (m : mode) (P : D -> Prop) (c : program D A) (Q : mode -> A -> D -> Prop) (C : D -> Prop) : Prop :=
  forall w, P (io_dir w) -> script_ok m (io_script w) = true ->
  match c w with
  | (w', Some a) => exists m', mode_le m' m /\ script_ok m' (io_script w') = true /\ Q m' a (io_dir w')
  | (w', None) => m <> Reliable /\ C (io_dir w')
  end.

Lemma mode_le_refl m : mode_le m m.
Proof. by left. Qed.
Lemma failed_le m m' : failed m m' -> mode_le m' m.
Proof. by right. Qed.
Lemma mode_le_trans m m' m'' : mode_le m'' m' -> mode_le m' m -> mode_le m'' m.
Proof. intros [->|[-> ->]]; [done|]. intros [<-|[_ E]]; [by right|done]. Qed.
Lemma failed_le_l m m' m'' : mode_le m' m -> failed m' m'' -> failed m m''.
Proof. intros [->|[_ ->]]; [done|]. by intros [E _]. Qed.
Lemma failed_le_r m m' m'' : mode_le m'' m' -> failed m m' -> failed m m''.
Proof. intros [->|[-> ->]]; [done|]. intros [_ E]. done. Qed.
#[export] Hint Resolve mode_le_refl failed_le : core.

Section Triples.
Context {D : Type}.
Implicit Types (P C : D -> Prop) (m : mode).

Lemma triple_ret {A} m P (a : A) (Q : mode -> A -> D -> Prop) C :
  (forall d, P d -> Q m a d) -> triple m P (ret a) Q C.
Proof. intros H w Hw Hs. exists m. split; [done|]. split; [done|by apply H]. Qed.

Lemma triple_bind {A B} m P (c : program D A) (k : A -> program D B) Q R C :
  triple m P c Q C ->
  (forall m' a, mode_le m' m -> triple m' (Q m' a) (k a) R C) ->
  triple m P (bind c k) R C.
Proof.
  intros Hc Hk w Hw Hs. specialize (Hc w Hw Hs). unfold bind.
  destruct (c w) as [w1 [a|]]; [|done]. destruct Hc as (m' & Hle & Hs' & Hq).
  specialize (Hk m' a Hle w1 Hq Hs'). destruct (k a w1) as [w2 [b|]].
  { destruct Hk as (m'' & Hle' & ? & ?). exists m''. split; [by eapply mode_le_trans|done]. }
  destruct Hk as [Hm' HC]. split; [|done]. intros ->. destruct Hle as [->|[Hf _]]; done.
Qed.

Lemma triple_weaken {A} m (P P' : D -> Prop) (c : program D A) (Q Q' : mode -> A -> D -> Prop) (C C' : D -> Prop) :
  triple m P' c Q' C' -> (forall d, P d -> P' d) -> (forall m' a d, Q' m' a d -> Q m' a d) -> (forall d, C' d -> C d) ->
  triple m P c Q C.
Proof.
  intros Hm HP HQ HC w Hw Hs. specialize (Hm w (HP _ Hw) Hs).
  destruct (c w) as [w1 [a|]].
  - destruct Hm as (m' & ? & ? & ?). exists m'. auto.
  - destruct Hm. auto.
Qed.

Lemma triple_effect {A} `{Crash D} m P (ok : D -> D * result FileError A) partial (Q : mode -> result FileError A -> D -> Prop) C :
  (forall d, P d -> Q m (snd (ok d)) (fst (ok d))) ->
  (m = Failing -> forall d n, P d -> Q Crashing (Err IOError) (partial n d)) ->
  (forall d n, P d -> C (settle n d)) ->
  triple m P (effect ok partial) Q C.
Proof.
  intros Hok Hf Hc w Hw Hs. unfold effect. destruct (io_script w) as [|[|n|n|] s] eqn:Es.
  - specialize (Hok _ Hw). destruct (ok (io_dir w)). by exists m.
  - specialize (Hok _ Hw). destruct (ok (io_dir w)). by exists m.
  - destruct m; try done. exists Crashing. split; [by right|]. split; [done|]. by apply Hf.
  - split; [|by apply Hc]. by destruct m.
  - done.
Qed.

(** A precondition that does not depend on the directory, or that is a choice. *)
Lemma triple_pure {A} m (F : Prop) P (c : program D A) Q C : (F -> triple m P c Q C) -> triple m (fun d => F /\ P d) c Q C.
Proof. intros H w [HF Hw]. by apply H. Qed.

Lemma triple_fact {A} m (F : Prop) P (c : program D A) Q C : (forall d, P d -> F) -> (F -> triple m P c Q C) -> triple m P c Q C.
Proof. intros HF H w Hw. apply H; [|done]. by eapply HF. Qed.

Lemma triple_exists {A X} m (P : X -> D -> Prop) (c : program D A) Q C :
  (forall x, triple m (P x) c Q C) -> triple m (fun d => exists x, P x d) c Q C.
Proof. intros H w [x Hw]. by apply (H x). Qed.

(** Nothing crashes and nothing fails. *)
Lemma triple_reliable_crash {A} P (c : program D A) Q C C' : triple Reliable P c Q C -> triple Reliable P c Q C'.
Proof. intros H w Hw Hs. specialize (H w Hw Hs). destruct (c w) as [w' [a|]]; [done|]. by destruct H. Qed.
Lemma triple_reliable_bind {A B} P (c : program D A) (k : A -> program D B) Q R C C' :
  triple Reliable P c Q C' -> (forall a, triple Reliable (Q Reliable a) (k a) R C) -> triple Reliable P (bind c k) R C.
Proof.
  intros Hc Hk. eapply triple_bind; [by eapply triple_reliable_crash|]. intros m' a [->|[? _]]; [apply Hk|done].
Qed.

Lemma triple_or {A} m P P' (c : program D A) Q C : triple m P c Q C -> triple m P' c Q C -> triple m (fun d => P d \/ P' d) c Q C.
Proof. intros H1 H2 w [Hw|Hw]; [by apply H1|by apply H2]. Qed.
End Triples.

Section DirTriples.
Implicit Types (P C : dir -> Prop) (m : mode).

(** ** The operations that only read, and [sync_dir] *)

Definition stat_post (P : dir -> Prop) (m : mode) (name : string) (m' : mode) (r : result FileError file) (d : dir) : Prop :=
  P d /\ match r with
  | Ok f => m' = m /\ d !! name = Some f
  | Err NotExist => m' = m /\ d !! name = None
  | Err _ => failed m m'
  end.

Lemma triple_stat m P name C : (forall d n, P d -> C (settle n d)) -> triple m P (stat name) (stat_post P m name) C.
Proof.
  intros HC. apply triple_effect; [|by intros ->; split|done].
  intros d Hd. unfold stat_ok. simpl. destruct (d !! name) eqn:E; by split.
Qed.

Lemma triple_read_dir m P C : (forall d n, P d -> C (settle n d)) ->
  triple m P read_dir (fun m' r d => P d /\ match r with Ok l => m' = m /\ l = map_to_list d | Err _ => failed m m' end) C.
Proof. intros HC. apply triple_effect; [by intros d Hd|by intros ->; split|done]. Qed.

Lemma triple_sync_dir m P C : (forall d n, P d -> C (settle n d)) ->
  triple m P sync_dir (fun m' r d => P d /\ match r with Ok _ => m' = m | Err _ => failed m m' end) C.
Proof. intros HC. apply triple_effect; [by intros d Hd|by intros ->; split|done]. Qed.

(** ** The operations that change one file *)

Lemma triple_remove m P Q name C :
  (forall d, P d -> exists f, d !! name = Some f /\ f_regular f = true) ->
  (forall d, P d -> Q (delete name d)) -> (forall d n, P d -> C (settle n d)) ->
  triple m P (remove name)
    (fun m' r d => match r with Ok _ => m' = m /\ Q d | Err _ => failed m m' /\ P d end) C.
Proof.
  intros Hf HQ HC. apply triple_effect; [|by intros ->|done].
  intros d Hd. unfold remove_ok. destruct (Hf d Hd) as (f & -> & ->). split; [done|]. by apply HQ.
Qed.

Lemma triple_rename m P Q from to C :
  (forall d, P d -> exists f, d !! from = Some f) ->
  (forall d f, P d -> d !! from = Some f -> Q (<[to := f]> (delete from d))) -> (forall d n, P d -> C (settle n d)) ->
  triple m P (rename from to)
    (fun m' r d => match r with Ok _ => m' = m /\ Q d | Err _ => failed m m' /\ P d end) C.
Proof.
  intros Hf HQ HC. apply triple_effect; [|by intros ->|done].
  intros d Hd. unfold rename_ok. destruct (Hf d Hd) as [f E]. rewrite E. split; [done|]. by apply HQ.
Qed.

(** Any other operation, which changes the directory by a function. *)
Lemma triple_change m P Q (change : dir -> dir) partial (E : dir -> Prop) C :
  (forall d, P d -> Q (change d)) -> (forall d n, P d -> E (partial n d)) -> (forall d n, P d -> C (settle n d)) ->
  triple m P (effect (fun d => (change d, Ok tt)) partial)
    (fun m' r d => match r with Ok tt => m' = m /\ Q d | Err _ => failed m m' /\ E d end) C.
Proof. intros HQ HE HC. apply triple_effect; [intros d Hd; split; [done|by apply HQ]|intros ->; split; [done|by apply HE]|done]. Qed.
End DirTriples.

(** ** Bytes of files *)

Lemma str_take_length n s : String.length (str_take n s) = Nat.min n (String.length s).
Proof.
  unfold str_take. revert n. induction s as [|a s IH]; intros n; [by destruct n|].
  destruct n; simpl; [done|]. by rewrite IH.
Qed.

Lemma str_take_all n s : (String.length s <= n)%nat -> str_take n s = s.
Proof.
  unfold str_take. revert n. induction s as [|a s IH]; intros n H; [by destruct n|].
  destruct n; simpl in *; [lia|]. f_equal. apply IH. lia.
Qed.

Lemma str_take_0 s : str_take 0 s = "".
Proof. by destruct s. Qed.

Lemma str_take_take n m s : str_take n (str_take m s) = str_take (Nat.min n m) s.
Proof.
  unfold str_take. revert n m. induction s as [|a s IH]; intros n m; [by destruct n, m|].
  destruct n, m; simpl; [done..|]. by rewrite IH.
Qed.

Lemma str_take_app n s t : str_take n (s +:+ t) = str_take n s +:+ str_take (n - String.length s) t.
Proof.
  unfold str_take. revert n. induction s as [|a s IH]; intros n; simpl.
  - rewrite Nat.sub_0_r. by destruct n.
  - destruct n; simpl; [by destruct t|]. by rewrite IH.
Qed.

Lemma str_take_app_le n s t : (n <= String.length s)%nat -> str_take n (s +:+ t) = str_take n s.
Proof.
  intros H. rewrite str_take_app. assert ((n - String.length s)%nat = 0%nat) as -> by lia.
  by rewrite str_take_0, sapp_nil_r.
Qed.

Lemma str_take_drop n s : str_take n s +:+ str_drop n s = s.
Proof.
  unfold str_take. revert n. induction s as [|a s IH]; intros n; [by destruct n|].
  destruct n; simpl; [done|]. f_equal. apply IH.
Qed.

Lemma str_drop_all n s : (String.length s <= n)%nat -> str_drop n s = "".
Proof. revert n. induction s as [|a s IH]; intros n H; [by destruct n|]. destruct n; simpl in *; [lia|]. apply IH. lia. Qed.

Lemma splice_end old new : splice old (String.length old) new = old +:+ new.
Proof.
  unfold splice. rewrite str_take_all by done. rewrite str_drop_all by lia. by rewrite sapp_nil_r.
Qed.

Lemma splice_prefix old off new : (off <= String.length old)%nat -> str_take off (splice old off new) = str_take off old.
Proof.
  intros H. unfold splice. rewrite str_take_app_le; [|rewrite str_take_length; lia].
  rewrite str_take_take. f_equal. lia.
Qed.
