(* ===== verification/UserFields.v ===== *)
(** * The fields of accounts

    [internal/auth/user.go]: what names, passwords, roles, home directories and groups an account may have,
    and the canonical forms they are kept in. *)

From Stdlib Require Import Ascii.
From stdpp Require Import sorting.
From S2P Require Import Prelude GoStrings GoPath GoRunes Paths Users.

Module UserFields.

(** The errors of the account store, by the identities that its callers tell apart.  [ErrFileLink] is
    [errUserStoreSymlink] or [errPasswordFileSymlink], [ErrUsersFile] any other refusal of the users file,
    [ErrIO] an error of the operating system, the random source or bcrypt; [ErrRetries] never occurs. *)
Inductive AuthError :=
| ErrUserNotFound | ErrUserExists | ErrUserDisabled | ErrInvalidCredentials | ErrInvalidUsername | ErrInvalidRole
| ErrPasswordTooShort | ErrPasswordTooLong | ErrPasswordChangeRequired | ErrPasswordUnchanged | ErrInitialPasswordActive
| ErrLastAdmin | ErrInvalidUserHomeDir | ErrInvalidUserGroups | ErrInvalidQuotaBytes | ErrUserStoreSchema
| ErrUsersFile | ErrFileLink | ErrIO | ErrPersistenceWarning | ErrRetries.
#[export] Instance AuthError_eq_dec : EqDecision AuthError.
Proof. solve_decision. Defined.

Definition minPasswordLength : Z := 8.
Definition maxPasswordBytes : Z := 72.
Definition maxUsernameRuneCount : Z := 255.

(** [utf8.RuneCountInString] *)
Definition RuneCount (s : string) : Z := Z.of_nat (length (runes s)).

Definition normalizeNewUsername (username : string) : result AuthError string :=
  let trimmed := TrimSpace username in
  if String.eqb trimmed "" || String.eqb trimmed "." || String.eqb trimmed ".." then Err ErrInvalidUsername
  else if maxUsernameRuneCount <? RuneCount trimmed then Err ErrInvalidUsername
  else if contains_any trimmed (String slash (String backslash EmptyString)) then Err ErrInvalidUsername
  else if has_control trimmed then Err ErrInvalidUsername
  else Ok trimmed.

Definition validateNewPassword (password : string) : result AuthError unit :=
  if String.eqb (TrimSpace password) "" || (len password <? minPasswordLength) then Err ErrPasswordTooShort
  else if maxPasswordBytes <? len password then Err ErrPasswordTooLong
  else Ok tt.

Definition validateRole (role : Role) : result AuthError unit :=
  if String.eqb role RoleAdmin || String.eqb role RoleUser || String.eqb role RoleGuest then Ok tt else Err ErrInvalidRole.

Definition validateRoleHomeDir (role : Role) (homeDir : string) : result AuthError unit :=
  if negb (String.eqb role RoleAdmin) && String.eqb (Clean homeDir) "/" then Err ErrInvalidUserHomeDir else Ok tt.

Definition normalizeHomeDir (homeDir : string) : result AuthError string :=
  let normalized := replace_byte backslash slash (TrimSpace homeDir) in
  if has_control normalized then Err ErrInvalidUserHomeDir
  else if String.eqb normalized "" then Err ErrInvalidUserHomeDir
  else if existsb (fun segment => String.eqb segment "." || String.eqb segment "..") (Split slash normalized) then Err ErrInvalidUserHomeDir
  else
    let cleaned := Clean ("/" +:+ normalized) in
    if negb (String.eqb cleaned "/") && negb (HasPrefix cleaned "/") then Err ErrInvalidUserHomeDir
    else Ok cleaned.

(** The loop over the bytes of a name. *)
Definition lower_byte (c : ascii) : ascii := if byte_in 65 90 c then ascii_of_N (N_of_ascii c + 32) else c.
Fixpoint normalizeUsername (username : string) : string :=
  match username with
  | String c username' => String (lower_byte c) (normalizeUsername username')
  | EmptyString => EmptyString
  end.

(** The runes of a group name: [unicode.IsLetter] and [unicode.IsDigit] are asked of ASCII runes only. *)
Definition is_letter (r : rune) : bool := is_upper r || is_lower r.
Definition is_number (r : rune) : bool := ((48 <=? r) && (r <=? 57))%N.
Definition group_rune (r : rune) : bool :=
  negb (127 <? r)%N && (is_letter r || is_number r || (r =? 45)%N || (r =? 95)%N || (r =? 46)%N).

Definition normalizeGroupName (group : string) : result AuthError string :=
  let trimmed := TrimSpace group in
  if String.eqb trimmed "" || (maxUsernameRuneCount <? len trimmed) || (maxUsernameRuneCount <? RuneCount trimmed) then Err ErrInvalidUserGroups
  else if forallb (fun '(r, _) => group_rune r) (runes trimmed) then Ok (normalizeUsername trimmed)
  else Err ErrInvalidUserGroups.

(** The loop over the groups, with what it has [seen] and [normalized]. *)
Fixpoint collectGroups (seen : gset string) (normalized groups : list string) : result AuthError (list string) :=
  match groups with
  | [] => Ok normalized
  | group :: groups' =>
    let! cleaned := normalizeGroupName group in
    if bool_decide (cleaned ∈ seen) then collectGroups seen normalized groups'
    else collectGroups ({[cleaned]} ∪ seen) (normalized ++ [cleaned]) groups'
  end.

Definition normalizeGroupNames (groups : list string) : result AuthError (list string) :=
  match groups with
  | [] => Ok []
  | _ => let! normalized := collectGroups ∅ [] groups in Ok (merge_sort String.le normalized)
  end.

(** ** Canonical forms *)

Lemma normalizeNewUsername_fixed name clean : normalizeNewUsername name = Ok clean -> normalizeNewUsername clean = Ok clean.
Proof.
  unfold normalizeNewUsername. cbv zeta. intros H. repeat case_in H. injection H as <-. rewrite TrimSpace_idem. by rewrite E, E0, E1, E2.
Qed.

Lemma lower_byte_idem c : lower_byte (lower_byte c) = lower_byte c.
Proof.
  apply Ascii.eqb_eq. revert c. apply all_bytes. vm_compute. reflexivity.
Qed.

Lemma normalizeUsername_idem s : normalizeUsername (normalizeUsername s) = normalizeUsername s.
Proof. induction s as [|c s IH]; [done|]. cbn [normalizeUsername]. by rewrite lower_byte_idem, IH. Qed.

Lemma lower_length s : String.length (normalizeUsername s) = String.length s.
Proof. induction s as [|c s IH]; [done|]. cbn. by rewrite IH. Qed.

(** The bytes of a group name. *)
Definition group_byte (c : ascii) : bool := group_rune (N_of_ascii c).

Lemma group_byte_facts c : implb (group_byte c) (ascii_byte c && group_byte (lower_byte c) && ascii_byte (lower_byte c) && negb (IsSpace (N_of_ascii (lower_byte c)))) = true.
Proof. revert c. apply all_bytes. vm_compute. reflexivity. Qed.

Lemma group_bytes_runes s : forallb group_byte (String.list_ascii_of_string s) = true ->
  runes s = map (fun a => (N_of_ascii a, String a EmptyString)) (String.list_ascii_of_string s).
Proof.
  intros H. apply runes_of_ascii. apply List.forallb_forall. intros a Ha. rewrite List.forallb_forall in H.
  pose proof (group_byte_facts a) as Hf. rewrite (H a Ha) in Hf. cbn in Hf. by do 3 apply andb_true_iff in Hf as [Hf _].
Qed.

Lemma group_runes_bytes s : forallb (fun '(r, _) => group_rune r) (runes s) = true -> forallb group_byte (String.list_ascii_of_string s) = true.
Proof.
  intros H. assert (Ha : forallb ascii_byte (String.list_ascii_of_string s) = true).
  { apply runes_ascii_inv. apply List.forallb_forall. intros [r b] Hr. rewrite List.forallb_forall in H. specialize (H _ Hr). cbn in H.
    unfold group_rune in H. apply andb_true_iff in H as [H _]. apply negb_true_iff, N.ltb_ge in H. apply N.ltb_lt. lia. }
  rewrite (runes_of_ascii s Ha) in H. apply List.forallb_forall. intros a Hin. rewrite List.forallb_forall in H.
  apply (H (N_of_ascii a, String a EmptyString)). apply List.in_map_iff. by exists a.
Qed.

Lemma no_space_trimmed s : forallb (fun '(r, _) => negb (IsSpace r)) (runes s) = true -> TrimSpace s = s.
Proof.
  intros H. apply trimmed_TrimSpace. rewrite List.forallb_forall in H.
  assert (Hd : forall l, (forall x, In x l -> In x (runes s)) -> drop_space l = l).
  { intros [|[r b] l] Hl; [done|]. cbn [drop_space]. specialize (H (r, b) (Hl _ (or_introl eq_refl))). cbn in H.
    by destruct (IsSpace r). }
  split; apply Hd; [done|]. intros x. by rewrite <-in_rev.
Qed.

Lemma lower_group_bytes s : forallb group_byte (String.list_ascii_of_string s) = true ->
  forallb group_byte (String.list_ascii_of_string (normalizeUsername s)) = true /\ TrimSpace (normalizeUsername s) = normalizeUsername s.
Proof.
  intros H. assert (Hl : forallb (fun c => group_byte c && negb (IsSpace (N_of_ascii c))) (String.list_ascii_of_string (normalizeUsername s)) = true).
  { induction s as [|c s IH]; [done|]. cbn in H. apply andb_true_iff in H as [Hc Hs].
    pose proof (group_byte_facts c) as Hf. rewrite Hc in Hf. cbn [implb] in Hf. apply andb_true_iff in Hf as [Hf Hsp].
    apply andb_true_iff in Hf as [Hf _]. apply andb_true_iff in Hf as [_ Hf]. cbn [normalizeUsername String.list_ascii_of_string forallb].
    rewrite Hf, Hsp. by apply IH. }
  assert (Hg : forallb group_byte (String.list_ascii_of_string (normalizeUsername s)) = true).
  { apply List.forallb_forall. intros c Hc. rewrite List.forallb_forall in Hl. specialize (Hl c Hc). by apply andb_true_iff in Hl as [Hl _]. }
  split; [done|]. apply no_space_trimmed. rewrite group_bytes_runes by done. apply List.forallb_forall. intros [r b] Hr.
  apply List.in_map_iff in Hr as (c & [= <- <-] & Hc). rewrite List.forallb_forall in Hl. specialize (Hl c Hc). by apply andb_true_iff in Hl as [_ Hl].
Qed.

(** ASCII strings have as many runes as bytes. *)
Lemma group_bytes_count s : forallb group_byte (String.list_ascii_of_string s) = true -> RuneCount s = len s.
Proof.
  intros H. unfold RuneCount, len. rewrite group_bytes_runes, length_map by done. f_equal. clear H.
  induction s as [|c s IH]; [done|]. cbn. by rewrite IH.
Qed.

Lemma group_bytes_accepted s : forallb group_byte (String.list_ascii_of_string s) = true -> forallb (fun '(r, _) => group_rune r) (runes s) = true.
Proof.
  intros H. rewrite group_bytes_runes by done. apply List.forallb_forall. intros [r b] Hr. apply List.in_map_iff in Hr as (c & [= <- <-] & Hc).
  rewrite List.forallb_forall in H. exact (H c Hc).
Qed.

Lemma normalizeGroupName_fixed group clean : normalizeGroupName group = Ok clean -> normalizeGroupName clean = Ok clean.
Proof.
  unfold normalizeGroupName. cbv zeta. set (g := TrimSpace group). intros H. destruct (_ || _ || _) eqn:E in H; [done|]. destruct (forallb _ _) eqn:E0 in H; [|done]. injection H as <-.
  destruct (lower_group_bytes g) as [Hb Ht]; [by apply group_runes_bytes|]. rewrite Ht, normalizeUsername_idem, group_bytes_accepted by done.
  rewrite (group_bytes_count (normalizeUsername g)) by done. b2p.
  assert (String.eqb (normalizeUsername g) "" = false) as -> by (apply String.eqb_neq; destruct g; done).
  assert (Hl : maxUsernameRuneCount <? len (normalizeUsername g) = false) by (apply Z.ltb_ge; unfold len in *; by rewrite lower_length).
  by rewrite Hl.
Qed.

(** Distinct canonical names in order. *)
Definition groups_ok (groups : list string) : Prop :=
  Sorted String.le groups /\ NoDup groups /\ Forall (fun g => normalizeGroupName g = Ok g) groups.

Lemma collectGroups_ok groups : forall seen normalized result,
  (forall g, g ∈ seen <-> g ∈ normalized) -> NoDup normalized -> Forall (fun g => normalizeGroupName g = Ok g) normalized ->
  collectGroups seen normalized groups = Ok result -> NoDup result /\ Forall (fun g => normalizeGroupName g = Ok g) result.
Proof.
  induction groups as [|g groups IH]; intros seen normalized result Hs Hn Hf H; cbn [collectGroups] in H; [by injection H as <-|].
  destruct (normalizeGroupName g) as [clean|] eqn:Eg; [|done]. case_bool_decide as Hin; [by eapply IH|].
  eapply (IH _ (normalized ++ [clean])); [| | |exact H].
  - intros x. rewrite elem_of_app, elem_of_union, elem_of_singleton, list_elem_of_singleton, Hs. tauto.
  - apply NoDup_app. split_and!; [done| |apply NoDup_singleton]. intros x Hx ->%list_elem_of_singleton. by apply Hin, Hs.
  - apply Forall_app. split; [done|]. constructor; [|constructor]. by eapply normalizeGroupName_fixed.
Qed.

Lemma collectGroups_id groups : forall seen normalized,
  Forall (fun g => normalizeGroupName g = Ok g) groups -> NoDup groups -> (forall g, g ∈ groups -> g ∉ seen) ->
  collectGroups seen normalized groups = Ok (normalized ++ groups).
Proof.
  induction groups as [|g groups IH]; intros seen normalized Hf Hn Hs; cbn [collectGroups]; [by rewrite app_nil_r|].
  apply Forall_cons in Hf as [-> Hf]. apply NoDup_cons in Hn as [Hg Hn]. rewrite bool_decide_false by (apply Hs; left).
  rewrite IH; [by rewrite <-app_assoc|done|done|]. intros x Hx [->%elem_of_singleton|Hx']%elem_of_union; [done|]. by eapply Hs; [right|].
Qed.

Lemma normalizeGroupNames_ok groups result : normalizeGroupNames groups = Ok result -> groups_ok result.
Proof.
  unfold normalizeGroupNames. destruct groups as [|g groups]; [intros [= <-]; by repeat constructor|].
  destruct (collectGroups _ _ _) as [l|] eqn:E; [|done]. intros [= <-].
  destruct (collectGroups_ok (g :: groups) ∅ [] l) as [Hn Hf]; [set_solver|constructor|constructor|done|].
  split; [apply (Sorted_merge_sort String.le)|]. by rewrite (merge_sort_Permutation String.le).
Qed.

Lemma normalizeGroupNames_fixed groups : groups_ok groups -> normalizeGroupNames groups = Ok groups.
Proof.
  intros (Hs & Hn & Hf). destruct groups as [|g groups]; [done|]. unfold normalizeGroupNames.
  rewrite collectGroups_id by set_solver. cbn [app]. f_equal.
  apply (Sorted_unique String.le); [apply (Sorted_merge_sort String.le)|done|]. apply (merge_sort_Permutation String.le).
Qed.

(** ** Home directories *)

Definition home_ok (home : string) : Prop := canonical home /\ has_control home = false /\ contains_byte backslash home = false.

(** Cleaning a path without dots only drops segments. *)
Lemma clean_pieces (P : string -> Prop) s : is_rooted s = true -> Forall P (Split slash s) -> Forall P (clean_segments s).
Proof.
  intros Hr Hp. unfold clean_segments. rewrite Hr. apply Forall_rev. assert (H : forall ws out, Forall P ws -> Forall P out -> Forall P (fold_left (clean_step true) ws out)).
  { induction ws as [|w ws IH]; intros out Hw Ho; [done|]. apply Forall_cons in Hw as [Hw Hws]. cbn [fold_left]. apply IH; [done|].
    unfold clean_step. destruct (_ || _); [done|]. destruct (dotdot w); [|by constructor]. destruct out as [|x out]; [constructor|].
    apply Forall_cons in Ho as [Hx Ho]. destruct (dotdot x); [by repeat constructor|done]. }
  by apply H.
Qed.

Lemma contains_byte_Join c ws : c <> slash -> contains_byte c (Join "/" ws) = existsb (contains_byte c) ws.
Proof.
  intros Hc. induction ws as [|w ws IH]; [done|]. destruct ws as [|w' ws]; [cbn; by rewrite orb_false_r|].
  change (Join "/" (w :: w' :: ws)) with (w +:+ String slash (Join "/" (w' :: ws))). rewrite contains_byte_app. cbn [contains_byte].
  destruct (Ascii.eqb_spec slash c); [congruence|]. by rewrite IH.
Qed.

Lemma existsb_false {A} (f : A -> bool) l : existsb f l = false <-> Forall (fun x => f x = false) l.
Proof.
  induction l as [|x l IH]; cbn [existsb]; [by split; [constructor|]|]. rewrite orb_false_iff, IH, Forall_cons. done.
Qed.

Lemma render_ok segs : Forall (fun w => has_control w = false /\ contains_byte backslash w = false) segs ->
  has_control (render segs) = false /\ contains_byte backslash (render segs) = false.
Proof.
  intros H. unfold render. change ("/" +:+ Join "/" segs) with (EmptyString +:+ String slash (Join "/" segs)). rewrite has_control_slash. split.
  - destruct (decide (segs = [])) as [->|Hn]; [done|]. rewrite has_control_Join by done. apply existsb_false. eapply Forall_impl; [exact H|]. by intros ? [].
  - cbn [String.append contains_byte]. rewrite contains_byte_Join by done. cbn [orb]. apply existsb_false. eapply Forall_impl; [exact H|]. by intros ? [].
Qed.

Lemma normalizeHomeDir_ok raw home : normalizeHomeDir raw = Ok home -> home_ok home.
Proof.
  unfold normalizeHomeDir. cbv zeta. set (n := replace_byte backslash slash (TrimSpace raw)). intros H. repeat case_in H. injection H as <-.
  pose proof (is_rooted_slash n) as Hr. split; [by apply Clean_canonical|]. rewrite Clean_rooted by done. apply render_ok, clean_pieces; [done|].
  assert (Hb : contains_byte backslash ("/" +:+ n) = false) by (cbn; by apply replace_no_sep).
  assert (Hc : has_control ("/" +:+ n) = false) by (change ("/" +:+ n) with (EmptyString +:+ String slash n); by rewrite has_control_slash).
  rewrite has_control_Split in Hc. apply existsb_false in Hc. rewrite <-(Join_Split ("/" +:+ n)), contains_byte_Join in Hb by done.
  apply existsb_false in Hb. apply Forall_and. by split.
Qed.

(** A home directory is its own canonical form, unless its last segment ends in a space. *)
Lemma normalizeHomeDir_fixed home : home_ok home -> TrimSpace home = home -> normalizeHomeDir home = Ok home.
Proof.
  intros (Hc & Hcc & Hb) Ht. unfold normalizeHomeDir. rewrite Ht, replace_id by done. cbv zeta. rewrite Hcc.
  destruct Hc as (segs & Hs & ->). assert (String.eqb (render segs) "" = false) as -> by done.
  assert (existsb (fun segment => String.eqb segment "." || String.eqb segment "..") (Split slash (render segs)) = false) as ->.
  { exact (has_dot_seg_render segs Hs). }
  assert (Hcl : Clean ("/" +:+ render segs) = render segs).
  { rewrite Clean_rooted by done. f_equal. unfold clean_segments. rewrite is_rooted_slash.
    change ("/" +:+ render segs) with (EmptyString +:+ String slash (render segs)). rewrite Split_app by done. cbn [fold_left].
    change (clean_step true [] EmptyString) with (@nil string). pose proof (clean_segments_render segs Hs) as H. unfold clean_segments in H. by rewrite render_rooted in H. }
  rewrite Hcl. assert (HasPrefix (render segs) "/" = true) as -> by exact (render_rooted segs). by rewrite andb_false_r.
Qed.

(** The home directory that an account gets by default. *)
Lemma default_home_ok name clean : normalizeNewUsername name = Ok clean ->
  home_ok ("/" +:+ clean) /\ TrimSpace ("/" +:+ clean) = "/" +:+ clean /\ Clean ("/" +:+ clean) <> "/".
Proof.
  unfold normalizeNewUsername. cbv zeta. set (n := TrimSpace name). intros H. repeat case_in H. injection H as <-.
  unfold contains_any in E1. cbn [String.list_ascii_of_string existsb] in E1. b2p.
  assert (Hg : Forall good_seg [n]) by (constructor; [by split_and!|constructor]).
  assert (Hr : render [n] = "/" +:+ n) by done. split_and!.
  - split; [by exists [n]|]. rewrite <-Hr. apply render_ok. by repeat constructor.
  - apply trimmed_TrimSpace. destruct (TrimSpace_runes name) as (_ & _ & _ & Ht1 & Ht2). fold n in Ht1, Ht2.
    assert (En : runes ("/" +:+ n) = (47%N, "/") :: runes n) by done. rewrite En. split; [done|]. cbn [rev].
    destruct (rev (runes n)) as [|[r b] l] eqn:El; [done|]. cbn [app drop_space] in *. destruct (IsSpace r); [|done]. exfalso.
    destruct (drop_space_suffix l) as [pre Hl]. apply (f_equal length) in Ht2. apply (f_equal length) in Hl. rewrite length_app in Hl. cbn in Ht2. lia.
  - rewrite <-Hr, Clean_render by done. change "/" with (render []). intros Hx. by apply render_inj in Hx.
Qed.
End UserFields.
