(* ===== verification/AuthFiles.v ===== *)
(** * The files of the account store

    [internal/auth/user.go], [internal/auth/token.go]: reading, replacing and removing a file of the
    directory of the account store, as programs of [FileMonad] on that directory.  Its root is open and
    registered from the start of the store ([NewUserStore]), so the branches that open it are not taken.
    The mode of a file plays no role here: a regular file is one of kind [Regular0600]. *)

From Stdlib Require Import Ascii.
From S2P Require Import Prelude GoStrings GoPath Sha256 FileMonad UserFields.
Import Sha256 UserFields.

Module AuthFiles.

(** The files of the directory: the users, the initial password, the login sessions. *)
Definition usersFile : string := "users.json".
Definition passwordFile : string := "initial-password.txt".
Definition sessionsFile : string := "auth-sessions.json".
Definition stored (name : string) : Prop := name = usersFile \/ name = passwordFile \/ name = sessionsFile.
Lemma stored_users : stored usersFile. Proof. by left. Qed.
Lemma stored_password : stored passwordFile. Proof. by right; left. Qed.
Lemma stored_sessions : stored sessionsFile. Proof. by right; right. Qed.

(** ** Operations that [FileMonad] does not have *)

(** [os.Root.Remove] *)
Definition unlink_ok (name : string) (d : dir) : dir * result FileError unit :=
  match d !! name with Some _ => (delete name d, Ok tt) | None => (d, Err NotExist) end.
Definition unlink (name : string) : prog (result FileError unit) := effect (unlink_ok name) no_partial.

(** [Chmod] to the mode that the file was created with, and [Close]. *)
Definition touch : prog (result FileError unit) := effect (fun d => (d, Ok tt)) no_partial.

(** ** The calls of the store *)

(** What replacing a file came to: [WrittenUnsynced] is the persistence warning. *)
Inductive write := Written | WrittenUnsynced | NotWritten (e : AuthError).

Definition validateAuthFilePath (name : string) : prog (result AuthError unit) :=
  run! info := stat name in
  ret (match info with
       | Ok f => if dir_or_link f then Err ErrFileLink else Ok tt
       | Err NotExist => Ok tt
       | Err _ => Err ErrIO
       end).

(** [strings.Replace(pattern, "*", randomPart, 1)], or the random part after the pattern; [random] is
    what the random source gave. *)
Definition newAuthTempName (pattern : string) (random : option string) : result AuthError string :=
  match random with
  | None => Err ErrIO
  | Some suffix =>
    let randomPart := EncodeToString suffix in
    let '(before, after, found) := Cut "*" pattern in
    Ok (if found : bool then before +:+ randomPart +:+ after else pattern +:+ randomPart)
  end.

(** Up to [attempts] names; [random] gives the bytes of each attempt. *)
Fixpoint tryTempNames (attempts : nat) (pattern : string) (random : nat -> option string) : prog (result AuthError string) :=
  match attempts with
  | O => ret (Err ErrIO)
  | S attempts' =>
    match newAuthTempName pattern (random O) with
    | Err e => ret (Err e)
    | Ok tmpName =>
      run! created := create tmpName EmptyString in
      match created with
      | Ok _ => ret (Ok tmpName)
      | Err Exists => tryTempNames attempts' pattern (fun i => random (S i))
      | Err _ => ret (Err ErrIO)
      end
    end
  end.
Definition createAuthTempFile (pattern : string) (random : nat -> option string) : prog (result AuthError string) :=
  tryTempNames 32 pattern random.

Definition cleanupAuthTempPath (tmpPath : string) (operationErr : AuthError) : prog AuthError :=
  run! _ := unlink tmpPath in ret operationErr.

(** An error after the temporary file was created: [cleanupAuthTempPath], and the deferred removal. *)
Definition abandon (tmpName : string) : prog write :=
  run! e := cleanupAuthTempPath tmpName ErrIO in
  run! _ := unlink tmpName in
  ret (NotWritten e).

Definition writeAuthFileAtomicallyWithRoot (name data pattern : string) (random : nat -> option string) : prog write :=
  run! valid := validateAuthFilePath name in
  match valid with
  | Err e => ret (NotWritten e)
  | Ok _ =>
    run! created := createAuthTempFile pattern random in
    match created with
    | Err e => ret (NotWritten e)
    | Ok tmpName =>
      run! chmod := touch in
      match chmod with Err _ => run! _ := touch in abandon tmpName | Ok _ =>
      run! written := write_at tmpName 0 data in
      match written with Err _ => run! _ := touch in abandon tmpName | Ok _ =>
      run! synced := sync tmpName in
      match synced with Err _ => run! _ := touch in abandon tmpName | Ok _ =>
      run! closed := touch in
      match closed with Err _ => abandon tmpName | Ok _ =>
      run! renamed := rename tmpName name in
      match renamed with Err _ => abandon tmpName | Ok _ =>
      run! dir_synced := sync_dir in
      ret (match dir_synced with Ok _ => Written | Err _ => WrittenUnsynced end)
      end end end end end
    end
  end.

(** A file opened without following links, and read. *)
Definition open_and_read (name : string) : prog (result AuthError (option string)) :=
  run! file := stat name in
  ret (match file with
       | Ok f => if dir_or_link f then Err ErrFileLink else if f_regular f then Ok (Some (f_bytes f)) else Err ErrIO
       | Err NotExist => Ok None
       | Err _ => Err ErrIO
       end).

(** [None] when there is no file. *)
Definition readAuthFileWithRoot (name : string) : prog (result AuthError (option string)) :=
  try! _ := validateAuthFilePath name in
  open_and_read name.

Definition readRegisteredAuthFileLimited (name : string) (limit : Z) : prog (result AuthError (option string)) :=
  try! _ := validateAuthFilePath name in
  run! data := open_and_read name in
  ret (match data with
       | Ok (Some bytes) => if limit <? len bytes then Err ErrIO else data
       | _ => data
       end).

Definition removeRegisteredAuthFile (name : string) : prog (result AuthError unit) :=
  try! _ := validateAuthFilePath name in
  run! removed := unlink name in
  ret (match removed with Ok _ | Err NotExist => Ok tt | Err _ => Err ErrIO end).

Definition syncRegisteredAuthDir : prog (result FileError unit) := sync_dir.

(** ** Programs under any script *)

(** What holds on return and what holds when the machine crashes or the process is killed, whatever
    operations fail. *)
Definition always {D A} (P : D -> Prop) (c : program D A) (Q : A -> D -> Prop) (C : D -> Prop) : Prop :=
  forall w, P (io_dir w) -> match c w with (w', Some a) => Q a (io_dir w') | (w', None) => C (io_dir w') end.

Section Rules.
Context {D : Type}.
Implicit Types P C : D -> Prop.

Lemma always_ret {A} P (a : A) (Q : A -> D -> Prop) C : (forall d, P d -> Q a d) -> always P (ret a) Q C.
Proof. intros H w Hw. by apply H. Qed.

Lemma always_bind {A B} P (c : program D A) (k : A -> program D B) Q R C :
  always P c Q C -> (forall a, always (Q a) (k a) R C) -> always P (bind c k) R C.
Proof.
  intros Hc Hk w Hw. specialize (Hc w Hw). unfold bind. destruct (c w) as [w1 [a|]]; [|done]. by apply Hk.
Qed.

Lemma always_weaken {A} P P' (c : program D A) (Q Q' : A -> D -> Prop) C C' :
  always P' c Q' C' -> (forall d, P d -> P' d) -> (forall a d, Q' a d -> Q a d) -> (forall d, C' d -> C d) -> always P c Q C.
Proof. intros H HP HQ HC w Hw. specialize (H w (HP _ Hw)). destruct (c w) as [w1 [a|]]; auto. Qed.

Lemma always_effect {A} `{Crash D} P (ok : D -> D * result FileError A) partial (Q : result FileError A -> D -> Prop) C :
  (forall d, P d -> Q (snd (ok d)) (fst (ok d))) -> (forall d n, P d -> Q (Err IOError) (partial n d)) ->
  (forall d n, P d -> C (settle n d)) -> (forall d, P d -> C d) -> always P (effect ok partial) Q C.
Proof.
  intros Hok Hf Hc Hk w Hw. unfold effect. specialize (Hok _ Hw).
  destruct (io_script w) as [|[|n|n|] s]; try (destruct (ok (io_dir w)); exact Hok); [by apply Hf|by apply Hc|by apply Hk].
Qed.

Lemma always_pure {A} (F : Prop) P (c : program D A) Q C : (F -> always P c Q C) -> always (fun d => F /\ P d) c Q C.
Proof. intros H w [HF Hw]. by apply H. Qed.

Lemma always_exists {A X} (P : X -> D -> Prop) (c : program D A) Q C :
  (forall x, always (P x) c Q C) -> always (fun d => exists x, P x d) c Q C.
Proof. intros H w [x Hw]. by apply (H x). Qed.
End Rules.

(** ** What the two files hold *)

(** A file with these bytes, all on disk. *)
Definition durable (b : string) (f : file) : Prop := f_bytes f = b /\ f_synced f = String.length b /\ f_kind f = Regular0600.

Definition file_is (name : string) (v : option string) (d : dir) : Prop :=
  match v with Some b => exists f, d !! name = Some f /\ durable b f | None => d !! name = None end.

(** The files of the store hold the texts of [m]; other names do not matter. *)
Definition files (m : gmap string string) (d : dir) : Prop := forall name, stored name -> file_is name (m !! name) d.

Lemma durable_settled n b f : durable b f -> durable b (settle_file n f).
Proof.
  intros (Hb & Hs & Hk). unfold settle_file, durable. cbn [with_bytes f_bytes f_synced f_kind].
  rewrite str_take_all by (rewrite Hb; lia). by rewrite Hb.
Qed.

Lemma files_empty : files ∅ ∅.
Proof. intros name _. unfold file_is. by rewrite !lookup_empty. Qed.
Lemma files_settle m d n : files m d -> files m (settle n d).
Proof.
  intros H name Hn. specialize (H name Hn). unfold file_is in *. unfold settle, dir_crash. rewrite lookup_fmap.
  destruct (m !! name) as [b|].
  - destruct H as (f & -> & Hf). exists (settle_file n f). split; [done|]. by apply durable_settled.
  - by rewrite H.
Qed.

Lemma files_frame m d d' : (forall name, stored name -> d' !! name = d !! name) -> files m d -> files m d'.
Proof. intros He H name Hn. specialize (H name Hn). unfold file_is in *. by rewrite He. Qed.

Lemma files_delete m d name : files m d -> files (delete name m) (delete name d).
Proof.
  intros H x Hx. specialize (H x Hx). unfold file_is in *. destruct (decide (name = x)) as [->|Hn].
  - by rewrite !lookup_delete_eq.
  - by rewrite !lookup_delete_ne.
Qed.

(** [effect]s that leave the files of the store alone. *)
Lemma always_same {A} m (ok : dir -> dir * result FileError A) partial :
  (forall d, files m d -> files m (fst (ok d))) -> (forall d n, files m d -> files m (partial n d)) ->
  always (files m) (effect ok partial) (fun _ => files m) (files m).
Proof. intros Hok Hp. apply always_effect; auto using files_settle. Qed.

Lemma always_stat m name : stored name -> always (files m) (stat name)
  (fun r d => files m d /\ match r with Ok f => exists b, m !! name = Some b /\ durable b f | Err NotExist => m !! name = None | Err _ => True end) (files m).
Proof.
  intros Hn. apply always_effect; auto using files_settle. intros d Hd. split; [done|]. specialize (Hd name Hn). unfold stat_ok, file_is in *. simpl.
  destruct (m !! name) as [b|].
  - destruct Hd as (f & -> & Hf). by exists b.
  - by rewrite Hd.
Qed.

Lemma always_validate m name : always (files m) (validateAuthFilePath name) (fun _ => files m) (files m).
Proof.
  eapply always_bind; [apply (always_same m); by intros|]. intros r. by apply always_ret.
Qed.

Lemma always_read m name : stored name -> always (files m) (readAuthFileWithRoot name)
  (fun r d => files m d /\ match r with Ok v => v = m !! name | Err _ => True end) (files m).
Proof.
  intros Hn. eapply always_bind; [apply always_validate|]. intros [_|e]; [|by apply always_ret].
  eapply always_bind; [by apply always_stat|]. intros r. apply always_ret. intros d [Hd Hr]. split; [done|].
  destruct r as [f|[]]; [|done..]. destruct Hr as (b & -> & Hb & _ & Hk). unfold dir_or_link, f_regular. by rewrite Hk, Hb.
Qed.

Lemma always_read_limited m name limit : stored name -> always (files m) (readRegisteredAuthFileLimited name limit)
  (fun r d => files m d /\ match r with Ok v => v = m !! name | Err _ => True end) (files m).
Proof.
  intros Hn. eapply always_bind; [apply always_validate|]. intros [_|e]; [|by apply always_ret].
  eapply (always_bind _ _ _ (fun r d => files m d /\ match r with Ok v => v = m !! name | Err _ => True end)).
  - eapply always_bind; [by apply always_stat|]. intros r. apply always_ret. intros d [Hd Hr]. split; [done|].
    destruct r as [f|[]]; [|done..]. destruct Hr as (b & -> & Hb & _ & Hk). unfold dir_or_link, f_regular. by rewrite Hk, Hb.
  - intros r. apply always_ret. intros d [Hd Hr]. split; [done|]. destruct r as [[bytes|]|e]; [by destruct (limit <? _)|done|done].
Qed.

(** Removing: the file is there or not, whatever is reported; when no error is reported it is not. *)
Lemma always_remove m name : stored name -> always (files m) (removeRegisteredAuthFile name)
  (fun r d => match r with Ok _ => files (delete name m) d | Err _ => files m d end) (fun d => files m d \/ files (delete name m) d).
Proof.
  intros Hn. eapply always_bind.
  { eapply always_weaken; [apply always_validate|done|intros a d H; exact H|by left]. }
  intros [_|e]; [|by apply always_ret].
  apply (always_bind _ _ _ (fun r d => match r with Ok _ | Err NotExist => files (delete name m) d | Err _ => files m d end)).
  - apply always_effect; [|done|by intros d n Hd; left; apply files_settle|by left].
    intros d Hd. unfold unlink_ok. destruct (d !! name) eqn:E; [by apply files_delete|].
    simpl. rewrite delete_id; [done|]. specialize (Hd name Hn). unfold file_is in Hd. destruct (m !! name); [|done]. destruct Hd as (f & Hf & _). congruence.
  - intros r. apply always_ret. intros d Hd. destruct r as [|[]]; done.
Qed.

(** ** Replacing a file *)

Lemma temp_name_apart pattern random tmpName :
  HasPrefix pattern "." = true -> newAuthTempName pattern random = Ok tmpName -> ~ stored tmpName.
Proof.
  intros Hp. destruct (proj1 (HasPrefix_spec _ _) Hp) as [rest ->]. unfold newAuthTempName. destruct random as [suffix|]; [|done].
  cbn [String.append Cut]. change (Ascii.eqb "." "*") with false. destruct (Cut "*" rest) as [[before after] found].
  intros [= <-]. destruct found; intros [H|[H|H]]; done.
Qed.

(** The temporary file. *)
Definition temp_is (m : gmap string string) (tmpName : string) (P : file -> Prop) (d : dir) : Prop :=
  files m d /\ exists f, d !! tmpName = Some f /\ P f.
Definition fresh_file (f : file) : Prop := f_bytes f = EmptyString /\ f_kind f = Regular0600.
Definition unsynced (b : string) (f : file) : Prop := f_bytes f = b /\ f_kind f = Regular0600.

Lemma files_temp m d tmpName f : ~ stored tmpName -> files m d -> files m (<[tmpName := f]> d).
Proof. intros Ht. apply files_frame. intros name Hn. apply lookup_insert_ne. by intros ->. Qed.

Lemma always_create m pattern random attempts : HasPrefix pattern "." = true ->
  always (files m) (tryTempNames attempts pattern random)
    (fun r d => match r with Ok tmpName => ~ stored tmpName /\ temp_is m tmpName fresh_file d | Err _ => files m d end) (files m).
Proof.
  intros Hp. revert random. induction attempts as [|attempts IH]; intros random; [by apply always_ret|]. cbn [tryTempNames].
  destruct (newAuthTempName pattern (random O)) as [tmpName|e] eqn:E; [|by apply always_ret].
  pose proof (temp_name_apart _ _ _ Hp E) as Ht.
  apply (always_bind _ _ _ (fun r d => match r with Ok _ => temp_is m tmpName fresh_file d | Err _ => files m d end)).
  - apply always_effect; [|done|auto using files_settle|done]. intros d Hd. unfold create_ok.
    destruct (d !! tmpName) eqn:Ed; [done|]. cbn [fst snd]. split; [by apply files_temp|].
    eexists. rewrite lookup_insert_eq. split; [reflexivity|]. by split.
  - intros [_|[]]; [by apply always_ret|by apply always_ret|apply IH|by apply always_ret].
Qed.

Lemma always_abandon m tmpName : ~ stored tmpName ->
  always (files m) (abandon tmpName) (fun r d => (exists e, r = NotWritten e) /\ files m d) (files m).
Proof.
  intros Ht. assert (Hu : always (files m) (unlink tmpName) (fun _ => files m) (files m)).
  { apply always_same; [|done]. intros d Hd. unfold unlink_ok. destruct (d !! tmpName); [|done]. revert Hd. apply files_frame.
    intros name Hn. apply lookup_delete_ne. by intros ->. }
  eapply always_bind.
  - eapply always_bind; [exact Hu|]. intros r. apply (always_ret _ _ (fun _ => files m)). done.
  - intros e. eapply always_bind; [exact Hu|]. intros r. apply always_ret. eauto.
Qed.

(** One operation on the temporary file, which gives up when it fails. *)
Lemma always_step {A} m tmpName (P Q : file -> Prop) (ok : dir -> dir * result FileError A) partial (k : prog write) R C :
  ~ stored tmpName ->
  (forall d f, files m d -> d !! tmpName = Some f -> P f ->
    match snd (ok d) with Ok _ => temp_is m tmpName Q (fst (ok d)) | Err _ => files m (fst (ok d)) end) ->
  (forall d n, files m d -> files m (partial n d)) ->
  (forall e d, files m d -> R (NotWritten e) d) -> (forall d, files m d -> C d) ->
  always (temp_is m tmpName Q) k R C ->
  forall abandon' : prog write, abandon' = abandon tmpName \/ abandon' = bind touch (fun _ => abandon tmpName) ->
  always (temp_is m tmpName P) (bind (effect ok partial) (fun r => match r with Err _ => abandon' | Ok _ => k end)) R C.
Proof.
  intros Ht Hok Hp HR HC Hk abandon' Hg.
  apply (always_bind _ _ _ (fun r d => match r with Ok _ => temp_is m tmpName Q d | Err _ => files m d end)).
  - apply always_effect.
    + intros d (Hd & f & Hf & HP). specialize (Hok d f Hd Hf HP). by destruct (ok d) as [d' [a|e]].
    + intros d n (Hd & _). by apply Hp.
    + intros d n (Hd & _). by apply HC, files_settle.
    + intros d (Hd & _). by apply HC.
  - intros [a|e]; [done|]. assert (Hgive : always (files m) (abandon tmpName) R C).
    { eapply always_weaken; [by apply always_abandon|done| |done]. intros r d [[e' ->] Hd]. by apply HR. }
    destruct Hg as [->| ->]; [done|]. eapply always_bind; [|intros r; exact Hgive].
    eapply always_weaken; [apply (always_same m); by intros|done|done|done].
Qed.

Lemma always_write m name data pattern random : stored name -> HasPrefix pattern "." = true ->
  always (files m) (writeAuthFileAtomicallyWithRoot name data pattern random)
    (fun r d => match r with Written | WrittenUnsynced => files (<[name := data]> m) d | NotWritten _ => files m d end)
    (fun d => files m d \/ files (<[name := data]> m) d).
Proof.
  intros Hn Hp. eapply always_bind.
  { eapply always_weaken; [apply always_validate|done|intros a d H; exact H|by left]. }
  intros [_|e]; [|by apply always_ret]. eapply always_bind.
  { eapply always_weaken; [by apply always_create|done|intros a d H; exact H|by left]. }
  intros [tmpName|e]; [|by apply always_ret]. apply always_pure. intros Ht.
  assert (Hput : forall n b d, files m d -> files m (put_bytes tmpName n b d)).
  { intros n b d Hd. unfold put_bytes. destruct (d !! tmpName); [by apply files_temp|done]. }
  apply (always_step m tmpName fresh_file fresh_file); eauto.
  { intros d f Hd Hf HP. by split; [|exists f]. }
  apply (always_step m tmpName fresh_file (unsynced data)); eauto.
  { intros d f Hd Hf [Hb Hk]. cbn. split; [by apply Hput|]. unfold put_bytes. rewrite Hf, lookup_insert_eq. eexists. split; [done|].
    unfold unsynced. cbn [with_bytes f_bytes f_kind]. split; [|done]. by rewrite Hb, (splice_end EmptyString). }
  apply (always_step m tmpName (unsynced data) (durable data)); eauto.
  { intros d f Hd Hf [Hb Hk]. cbn. rewrite Hf. split; [by apply files_temp|]. rewrite lookup_insert_eq. eexists. split; [done|].
    unfold durable. cbn [with_bytes f_bytes f_kind f_synced]. by rewrite Hb. }
  apply (always_step m tmpName (durable data) (durable data)); eauto.
  { intros d f Hd Hf HP. by split; [|exists f]. }
  apply (always_bind _ _ _ (fun r d => match r with Ok _ => files (<[name := data]> m) d | Err _ => files m d end)).
  - apply always_effect; [|by intros d n [Hd _]|by intros d n [Hd _]; left; apply files_settle|by intros d [Hd _]; left].
    intros d (Hd & f & Hf & HP). unfold rename_ok. rewrite Hf. cbn. intros x Hx. unfold file_is. destruct (decide (name = x)) as [<-|Hne].
    + rewrite !lookup_insert_eq. by exists f.
    + rewrite !lookup_insert_ne, lookup_delete_ne by (try done; by intros ->). exact (Hd x Hx).
  - intros [_|e].
    + eapply always_bind; [eapply always_weaken; [apply (always_same (<[name := data]> m)); by intros|done|intros r d H; exact H|by right]|].
      intros r. apply always_ret. intros d Hd. by destruct r.
    + eapply always_weaken; [by apply always_abandon|done| |by left]. by intros r d [[e' ->] Hd].
Qed.
End AuthFiles.
