(* ===== verification/UsersFile.v ===== *)
(** * The users file

    [internal/auth/user.go]: the document of the users file ([decodePersistedUserStore], [saveUserState]), and
    loading it ([load]). *)

From Stdlib Require Import Ascii.
From stdpp Require Import sorting.
From S2P Require Import Prelude GoStrings GoPath GoRunes GoFormat Paths Users FileMonad UserFields AuthFiles.
Import UserFields AuthFiles.

Module UsersFile.

(** ** What the file is written with *)

(** A JSON value, as far as [decodePersistedUserStore] looks into it; [JOther] is a string, a boolean, or a
    number that is not an integer.  The fields of an object are in the order of the text. *)
Inductive json :=
| JNull
| JInt (n : Z)
| JOther (text : string)
| JArray (elements : list json)
| JObject (fields : list (string * json)).

(** [json.Unmarshal] into a map: of repeated keys the last one counts. *)
Fixpoint field (name : string) (fields : list (string * json)) : option json :=
  match fields with
  | [] => None
  | (key, value) :: fields' =>
    match field name fields' with
    | Some v => Some v
    | None => if String.eqb key name then Some value else None
    end
  end.

(** Neither missing nor [null]. *)
Definition present (value : option json) : option json := match value with Some JNull | None => None | Some v => Some v end.

(** What JSON can carry: the strings are UTF-8, the integers have their width. *)
Definition storable (u : User) : bool :=
  forallb ValidString (ID u :: Username u :: Email u :: PasswordHash u :: UserRole u :: HomeDir u :: Groups u) &&
  (0 <=? CredentialVersion u) && (CredentialVersion u <=? maxUint64) &&
  (minInt64 <=? QuotaBytes u) && (QuotaBytes u <=? maxInt64) && (minInt64 <=? UsedBytes u) && (UsedBytes u <=? maxInt64).

(** Package [encoding/json]: [parse] gives the value of a text, [decode_user] stores a value in a [User],
    [MarshalIndent] is the text of a [persistedUserStore] of the current version (an instant outside the years
    0 to 9999 has none). *)
Class UserCodec := {
  parse : string -> option json;
  decode_user : json -> option User;
  encode_user : User -> json;
  MarshalIndent : list User -> option string;
  parse_MarshalIndent us text : MarshalIndent us = Some text -> Forall (fun u => storable u = true) us ->
    parse text = Some (JObject [("schema_version", JInt 1); ("users", JArray (encode_user <$> us))]);
  decode_encode_user u : storable u = true -> decode_user (encode_user u) = Some u;
  encode_user_object u : exists fields, encode_user u = JObject fields /\
    is_Some (present (field "must_change_password" fields)) /\ is_Some (present (field "credential_version" fields));
}.

(** Package [bcrypt]: [GenerateFromPassword] with the salt it draws, [CompareHashAndPassword], and whether
    [Cost] accepts a hash. *)
Class Bcrypt := {
  GenerateFromPassword : string -> string -> option string;
  CompareHashAndPassword : string -> string -> bool;
  Cost : string -> bool;
  generated_cost salt password hash : GenerateFromPassword salt password = Some hash -> Cost hash = true;
  generated_compare salt password hash : GenerateFromPassword salt password = Some hash -> CompareHashAndPassword hash password = true;
}.

Definition userStoreSchemaVersion : Z := 1.

Section File.
Context {codec : UserCodec} {bcrypt : Bcrypt}.

(** One element of the array of users. *)
Definition decodeUser (rawUser : json) : result AuthError (option User) :=
  match rawUser with
  | JNull => Ok None
  | JObject fields =>
    match present (field "must_change_password" fields), present (field "credential_version" fields) with
    | Some _, Some _ =>
      match decode_user rawUser with
      | None => Err ErrUserStoreSchema
      | Some user => if CredentialVersion user =? 0 then Err ErrUserStoreSchema else Ok (Some user)
      end
    | _, _ => Err ErrUserStoreSchema
    end
  | _ => Err ErrUserStoreSchema
  end.

Fixpoint decodeUsers (rawUsers : list json) : result AuthError (list (option User)) :=
  match rawUsers with
  | [] => Ok []
  | rawUser :: rawUsers' => let! user := decodeUser rawUser in let! users := decodeUsers rawUsers' in Ok (user :: users)
  end.

Definition decodePersistedUserStore (data : string) : result AuthError (list (option User)) :=
  match parse data with
  | None => Err ErrUsersFile
  | Some document =>
    let! fields := match document with JObject fields => Ok fields | JNull => Ok [] | _ => Err ErrUserStoreSchema end in
    match present (field "schema_version" fields) with
    | Some (JInt version) =>
      if negb ((minInt64 <=? version) && (version <=? maxInt64)) then Err ErrUserStoreSchema
      else if version <? userStoreSchemaVersion then Err ErrUserStoreSchema
      else if userStoreSchemaVersion <? version then Err ErrUserStoreSchema
      else match present (field "users" fields) with
           | Some (JArray rawUsers) => decodeUsers rawUsers
           | _ => Err ErrUserStoreSchema
           end
    | _ => Err ErrUserStoreSchema
    end
  end.

(** A copy with another name, home directory and groups. *)
Definition with_fields (u : User) (username homeDir : string) (groups : list string) : User :=
  {| ID := ID u; Username := username; Email := Email u; PasswordHash := PasswordHash u; UserRole := UserRole u; Groups := groups;
     Disabled := Disabled u; CreatedAt := CreatedAt u; UpdatedAt := UpdatedAt u; LastLoginAt := LastLoginAt u;
     MustChangePassword := MustChangePassword u; PasswordChangedAt := PasswordChangedAt u; CredentialVersion := CredentialVersion u;
     HomeDir := homeDir; QuotaBytes := QuotaBytes u; UsedBytes := UsedBytes u |}.

(** The loop of [load]. *)
Fixpoint loadUsers (users : list (option User)) (loadedUsers loadedByName : gmap string User)
    : result AuthError (gmap string User * gmap string User) :=
  match users with
  | [] => Ok (loadedUsers, loadedByName)
  | None :: _ => Err ErrUsersFile
  | Some u :: users' =>
    if String.eqb (ID u) "" then Err ErrUsersFile else
    let! cleanUsername := normalizeNewUsername (Username u) in
    let! _ := validateRole (UserRole u) in
    let normalizedUsername := normalizeUsername cleanUsername in
    if bool_decide (is_Some (loadedUsers !! ID u)) then Err ErrUsersFile
    else if bool_decide (is_Some (loadedByName !! normalizedUsername)) then Err ErrUsersFile
    else
    let! homeDir := normalizeHomeDir (HomeDir u) in
    let! _ := validateRoleHomeDir (UserRole u) homeDir in
    if QuotaBytes u <? 0 then Err ErrInvalidQuotaBytes
    else if negb (Cost (PasswordHash u)) then Err ErrIO
    else
    let! groups := normalizeGroupNames (Groups u) in
    let loaded := with_fields u cleanUsername homeDir groups in
    loadUsers users' (<[ID loaded := loaded]> loadedUsers) (<[normalizedUsername := loaded]> loadedByName)
  end.

(** What [load] makes of the text of the file. *)
Definition loadText (data : string) : result AuthError (gmap string User * gmap string User) :=
  let! users := decodePersistedUserStore data in loadUsers users ∅ ∅.

(** [None] is a file that does not exist: the store stays empty. *)
Definition load : prog (result AuthError (gmap string User * gmap string User)) :=
  try! data := readAuthFileWithRoot usersFile in
  ret (match data with
       | None => Ok (∅, ∅)
       | Some data => loadText data
       end).

(** [sort.Slice] with the comparison of [sortUsersForList]: a strict total order on users with distinct IDs,
    so that the sorted list does not depend on the algorithm. *)
Definition user_before (x y : User) : bool :=
  let left := normalizeUsername (Username x) in
  let right := normalizeUsername (Username y) in
  if negb (String.eqb left right) then String.ltb left right
  else if negb (String.eqb (Username x) (Username y)) then String.ltb (Username x) (Username y)
  else String.ltb (ID x) (ID y).
Definition user_le (x y : User) : Prop := user_before y x = false.
#[local] Instance user_le_dec : RelDecision user_le.
Proof. intros x y. unfold user_le. apply _. Defined.
Definition sortUsersForList (users : list User) : list User := merge_sort user_le users.

(** The text of the file for these users. *)
Definition serializeUsers (users : gmap string User) : option string := MarshalIndent (sortUsersForList ((map_to_list users).*2)).

Definition saveUserState (users : gmap string User) (random : nat -> option string) : prog write :=
  match serializeUsers users with
  | None => ret (NotWritten ErrIO)
  | Some data => writeAuthFileAtomicallyWithRoot usersFile data ".users-*.tmp" random
  end.

(** The loop of [buildUserNameIndex], over the users in any order. *)
Definition buildUserNameIndex (users : gmap string User) : gmap string User :=
  foldr (fun user byName => <[normalizeUsername (Username user) := user]> byName) ∅ ((map_to_list users).*2).

(** ** Accounts in their canonical form *)

Definition user_ok (u : User) : Prop :=
  ID u <> EmptyString /\ normalizeNewUsername (Username u) = Ok (Username u) /\ validateRole (UserRole u) = Ok tt /\
  home_ok (HomeDir u) /\ validateRoleHomeDir (UserRole u) (HomeDir u) = Ok tt /\ 0 <= QuotaBytes u /\
  Cost (PasswordHash u) = true /\ groups_ok (Groups u).

Definition name_key (u : User) : string := normalizeUsername (Username u).

(** Every account under its own ID, no two with names that differ at most in the case of ASCII letters. *)
Definition users_ok (users : gmap string User) : Prop :=
  (forall id u, users !! id = Some u -> ID u = id /\ user_ok u) /\
  (forall id1 id2 u1 u2, users !! id1 = Some u1 -> users !! id2 = Some u2 -> name_key u1 = name_key u2 -> id1 = id2).

(** [byName] finds exactly the accounts, by their names. *)
Definition index_exact (users byName : gmap string User) : Prop :=
  forall name u, byName !! name = Some u <-> users !! ID u = Some u /\ name_key u = name.

Lemma index_unique users byName1 byName2 : index_exact users byName1 -> index_exact users byName2 -> byName1 = byName2.
Proof.
  intros H1 H2. apply map_eq. intros name. apply option_eq. intros u. rewrite (H1 name u), (H2 name u). done.
Qed.

Lemma with_fields_id u : with_fields u (Username u) (HomeDir u) (Groups u) = u.
Proof. by destruct u. Qed.

Lemma users_ok_empty : users_ok ∅ /\ index_exact ∅ ∅.
Proof. split; [split|]; intros *; rewrite ?lookup_empty; [done|done|]. split; [done|]. by intros [? _]. Qed.

(** One more account. *)
Lemma users_ok_insert users byName u :
  users_ok users -> index_exact users byName -> user_ok u -> users !! ID u = None -> byName !! name_key u = None ->
  users_ok (<[ID u := u]> users) /\ index_exact (<[ID u := u]> users) (<[name_key u := u]> byName).
Proof.
  intros [Hk Hn] Hx Hu Hid Hname.
  assert (Hfresh : forall id v, users !! id = Some v -> name_key v <> name_key u).
  { intros id v Hv He. destruct (Hk id v Hv) as [<- _]. pose proof (proj2 (Hx (name_key u) v) (conj Hv He)). congruence. }
  split; [split|].
  - intros id v. rewrite lookup_insert_Some. intros [[<- <-]|[_ Hv]]; [done|by apply Hk].
  - intros id1 id2 u1 u2. rewrite !lookup_insert_Some. intros [[<- <-]|[_ H1]] [[<- <-]|[_ H2]] He; [done| | |by eapply Hn].
    + exfalso. by eapply Hfresh.
    + exfalso. by eapply Hfresh.
  - intros name v. rewrite !lookup_insert_Some, (Hx name v). split.
    + intros [[<- <-]|[Hne [Hv He]]]; [by split; [left|]|]. split; [|done]. right. split; [|done]. intros He'. rewrite He' in Hid. congruence.
    + intros [[[He <-]|[Hne Hv]] <-]; [by left|]. right. split; [|by split]. intros He. by eapply Hfresh.
Qed.

(** What [load] accepts is in canonical form. *)
Lemma loadUsers_ok users : forall us byName us' byName',
  users_ok us -> index_exact us byName -> loadUsers users us byName = Ok (us', byName') -> users_ok us' /\ index_exact us' byName'.
Proof.
  induction users as [|[u|] users IH]; intros us byName us' byName' Hus Hx H; cbn [loadUsers] in H; [by injection H as <- <-| |done].
  destruct (String.eqb (ID u) "") eqn:Eid; [done|]. destruct (normalizeNewUsername (Username u)) as [name|] eqn:Ename; [|done].
  destruct (validateRole (UserRole u)) as [[]|] eqn:Erole; [|done]. case_bool_decide as Hid; [done|]. case_bool_decide as Hname; [done|].
  destruct (normalizeHomeDir (HomeDir u)) as [home|] eqn:Ehome; [|done].
  destruct (validateRoleHomeDir (UserRole u) home) as [[]|] eqn:Erh; [|done].
  destruct (QuotaBytes u <? 0) eqn:Eq; [done|]. destruct (negb (Cost (PasswordHash u))) eqn:Ec; [done|].
  destruct (normalizeGroupNames (Groups u)) as [groups|] eqn:Eg; [|done]. b2p.
  rewrite <-eq_None_not_Some in Hid, Hname. set (v := with_fields u name home groups) in *.
  assert (Hv : user_ok v).
  { split_and!; [done|by eapply normalizeNewUsername_fixed|done|by eapply normalizeHomeDir_ok|done|done|done|by eapply normalizeGroupNames_ok]. }
  destruct (users_ok_insert us byName v) as [Hok Hix]; [done..|]. by eapply IH.
Qed.

(** The home directory is not changed by reading it again: it does not end in a space. *)
Definition home_stable (u : User) : Prop := TrimSpace (HomeDir u) = HomeDir u.

Definition add_users (users : list User) (us : gmap string User) : gmap string User :=
  foldl (fun us u => <[ID u := u]> us) us users.
Definition add_names (users : list User) (byName : gmap string User) : gmap string User :=
  foldl (fun byName u => <[name_key u := u]> byName) byName users.

(** Accounts in canonical form are loaded as they are. *)
Lemma loadUsers_id users : forall us byName,
  Forall (fun u => user_ok u /\ home_stable u) users -> NoDup (ID <$> users) -> NoDup (name_key <$> users) ->
  Forall (fun u => us !! ID u = None /\ byName !! name_key u = None) users ->
  loadUsers (Some <$> users) us byName = Ok (add_users users us, add_names users byName).
Proof.
  induction users as [|u users IH]; intros us byName Hf Hi Hn Hnew; [done|].
  apply Forall_cons in Hf as [[(H1 & H2 & H3 & H4 & H5 & H6 & H7 & H8) Hst] Hf].
  apply Forall_cons in Hnew as [[Hid Hname] Hnew]. cbn [fmap list_fmap] in Hi, Hn. apply NoDup_cons in Hi as [Hi' Hi]. apply NoDup_cons in Hn as [Hn' Hn].
  cbn [fmap list_fmap loadUsers]. destruct (String.eqb_spec (ID u) ""); [done|]. rewrite H2, H3. change (normalizeUsername (Username u)) with (name_key u).
  rewrite !bool_decide_false by (rewrite ?Hid, ?Hname; apply is_Some_None).
  rewrite (normalizeHomeDir_fixed _ H4 Hst), H5. destruct (Z.ltb_spec (QuotaBytes u) 0); [lia|]. rewrite H7. cbn [negb].
  rewrite normalizeGroupNames_fixed by done. cbv zeta. rewrite with_fields_id. rewrite IH; try done.
  apply Forall_forall. intros v Hv. rewrite Forall_forall in Hnew. destruct (Hnew v Hv) as [Ha Hb]. rewrite !lookup_insert_ne; [done| |].
  - intros He. apply Hn'. rewrite He. by apply list_elem_of_fmap_2.
  - intros He. apply Hi'. rewrite He. by apply list_elem_of_fmap_2.
Qed.

(** ** The order of the file *)

Definition slt (x y : string) : Prop := String.ltb x y = true.

Lemma ltb_leb x y : String.ltb x y = negb (String.leb y x).
Proof. unfold String.ltb, String.leb. rewrite (String.compare_antisym y x). by destruct (String.compare x y). Qed.
Lemma slt_cases x y : slt x y \/ x = y \/ slt y x.
Proof.
  unfold slt. rewrite !ltb_leb. destruct (String.leb y x) eqn:E1; [|by left]. destruct (String.leb x y) eqn:E2; [|by right; right].
  right. left. apply (anti_symm String.le); unfold String.le; by rewrite ?E1, ?E2.
Qed.
Lemma slt_irrefl x : ~ slt x x.
Proof. unfold slt. rewrite ltb_leb. destruct (String.leb x x) eqn:E; [done|]. by destruct (String.leb_total x x); congruence. Qed.
Lemma leb_trans x y z : String.leb x y = true -> String.leb y z = true -> String.leb x z = true.
Proof. intros H1 H2. apply Is_true_true. assert (String.le x y) by (apply Is_true_true; done). assert (String.le y z) by (apply Is_true_true; done). change (String.le x z). by etrans. Qed.
Lemma slt_trans x y z : slt x y -> slt y z -> slt x z.
Proof.
  unfold slt. rewrite !ltb_leb. intros H1 H2. destruct (String.leb z x) eqn:E; [|done]. apply negb_true_iff in H1, H2.
  assert (Hyz : String.leb y z = true) by (destruct (String.leb_total y z); congruence).
  rewrite (leb_trans y z x Hyz E) in H1. done.
Qed.

Lemma user_le_iff x y : user_le x y <->
  slt (name_key x) (name_key y) \/ (name_key x = name_key y /\
    (slt (Username x) (Username y) \/ (Username x = Username y /\ (slt (ID x) (ID y) \/ ID x = ID y)))).
Proof.
  assert (Hn : forall a b, String.ltb b a = false <-> slt a b \/ a = b).
  { intros a b. destruct (slt_cases a b) as [H1|[->|H1]].
    - split; [by left|]. intros _. destruct (String.ltb b a) eqn:E; [|done]. by destruct (slt_irrefl a); apply (slt_trans a b).
    - split; [by right|]. intros _. destruct (String.ltb b b) eqn:E; [|done]. by destruct (slt_irrefl b).
    - split; [unfold slt in H1; congruence|]. intros [H2| ->]; [|by destruct (slt_irrefl b)]. by destruct (slt_irrefl a); apply (slt_trans a b). }
  assert (Hne : forall a b, a <> b -> String.ltb b a = false <-> slt a b) by (intros a b Hab; rewrite Hn; tauto).
  unfold user_le, user_before. cbv zeta. fold (name_key x) (name_key y).
  destruct (String.eqb_spec (name_key y) (name_key x)) as [E|E]; cbn [negb].
  - destruct (String.eqb_spec (Username y) (Username x)) as [E'|E']; cbn [negb].
    + rewrite Hn. rewrite E, E'. split; [tauto|]. intros [H1|[_ [H1|[_ H1]]]]; [by destruct (slt_irrefl (name_key x))|by destruct (slt_irrefl (Username x))|done].
    + rewrite Hne by congruence. rewrite E. split; [tauto|]. intros [H1|[_ [H1|[H1 _]]]]; [by destruct (slt_irrefl (name_key x))|done|congruence].
  - rewrite Hne by congruence. split; [tauto|]. intros [H1|[H1 _]]; [done|congruence].
Qed.

#[local] Instance user_le_trans : Transitive user_le.
Proof.
  intros x y z. rewrite !user_le_iff. pose proof (slt_trans (name_key x) (name_key y) (name_key z)) as T1.
  pose proof (slt_trans (Username x) (Username y) (Username z)) as T2. pose proof (slt_trans (ID x) (ID y) (ID z)) as T3.
  intros [H1|[E1 [H1|[E1' [H1|E1'']]]]] [H2|[E2 [H2|[E2' [H2|E2'']]]]]; intuition congruence.
Qed.
#[local] Instance user_le_total : Total user_le.
Proof.
  intros x y. rewrite !user_le_iff. destruct (slt_cases (name_key x) (name_key y)) as [?|[E1|?]]; [tauto| |tauto].
  destruct (slt_cases (Username x) (Username y)) as [?|[E2|?]]; [tauto| |].
  - destruct (slt_cases (ID x) (ID y)) as [?|[E3|?]]; [tauto| |]; rewrite E1, E2; tauto.
  - rewrite E1. tauto.
Qed.

Lemma sort_users_permutation l : sortUsersForList l ≡ₚ l.
Proof. apply merge_sort_Permutation. Qed.

(** ** Saving and loading *)

Lemma decodeUsers_encoded us : Forall (fun u => storable u = true /\ CredentialVersion u <> 0) us ->
  decodeUsers (encode_user <$> us) = Ok (Some <$> us).
Proof.
  induction 1 as [|u us [Hs Hc] _ IH]; [done|]. cbn [fmap list_fmap decodeUsers].
  assert (E : decodeUser (encode_user u) = Ok (Some u)).
  { unfold decodeUser. destruct (encode_user_object u) as (fields & Ef & [a Ha] & [b Hb]). pose proof (decode_encode_user u Hs) as Hd.
    rewrite Ef in *. rewrite Ha, Hb, Hd. destruct (Z.eqb_spec (CredentialVersion u) 0); done. }
  rewrite E. fold (encode_user <$> us). by rewrite IH.
Qed.

Lemma decode_serialized us text : MarshalIndent us = Some text -> Forall (fun u => storable u = true /\ CredentialVersion u <> 0) us ->
  decodePersistedUserStore text = Ok (Some <$> us).
Proof.
  intros Hm Hs. unfold decodePersistedUserStore. rewrite (parse_MarshalIndent us text Hm); [by apply decodeUsers_encoded|].
  eapply Forall_impl; [exact Hs|]. by intros ? [].
Qed.

Lemma in_users (users : gmap string User) u : u ∈ (map_to_list users).*2 <-> exists id, users !! id = Some u.
Proof.
  rewrite list_elem_of_fmap. split.
  - intros ([id v] & -> & Hin). exists id. by apply elem_of_map_to_list.
  - intros [id Hu]. exists (id, u). split; [done|]. by apply elem_of_map_to_list.
Qed.

Lemma users_list_keys users : users_ok users -> NoDup (ID <$> (map_to_list users).*2) /\ NoDup (name_key <$> (map_to_list users).*2).
Proof.
  intros [Hk Hn]. pose proof (NoDup_fst_map_to_list users) as Hnd.
  assert (Hids : (ID <$> (map_to_list users).*2) = (map_to_list users).*1).
  { rewrite <-list_fmap_compose. apply list_fmap_ext. intros i [id u] Hl. apply list_elem_of_lookup_2, elem_of_map_to_list in Hl. cbn. by apply Hk. }
  rewrite Hids. split; [done|]. rewrite <-Hids in Hnd. apply NoDup_fmap_2_strong; [|by apply NoDup_fmap_1 in Hnd].
  intros u v [id1 H1]%in_users [id2 H2]%in_users He. pose proof (Hn _ _ _ _ H1 H2 He). congruence.
Qed.

Lemma add_users_lookup l : forall us id, NoDup (ID <$> l) -> add_users l us !! id =
  match list_find (fun u => ID u = id) l with Some (_, u) => Some u | None => us !! id end.
Proof.
  induction l as [|u l IH]; intros us id Hn; [done|]. cbn [fmap list_fmap] in Hn. apply NoDup_cons in Hn as [Hu Hn].
  cbn [add_users foldl list_find]. fold (add_users l (<[ID u := u]> us)). rewrite IH by done. case_decide as E.
  - destruct (list_find _ l) as [[i v]|] eqn:Ef; [|by rewrite <-E, lookup_insert_eq].
    apply list_find_Some in Ef as (Hv & Ev & _). exfalso. apply Hu. rewrite E, <-Ev. apply list_elem_of_fmap_2. by apply list_elem_of_lookup_2 in Hv.
  - destruct (list_find _ l) as [[i v]|]; [done|]. cbn. by rewrite lookup_insert_ne.
Qed.

(** Any arrangement of the accounts gives them back. *)
Lemma add_users_all users l : users_ok users -> l ≡ₚ (map_to_list users).*2 -> add_users l ∅ = users.
Proof.
  intros Hok Hp. destruct (users_list_keys users Hok) as [Hn _]. rewrite <-Hp in Hn. apply map_eq. intros id. rewrite add_users_lookup by done.
  destruct Hok as [Hk _]. destruct (list_find _ l) as [[i u]|] eqn:Ef.
  - apply list_find_Some in Ef as (Hu & E & _). apply list_elem_of_lookup_2 in Hu. rewrite Hp, in_users in Hu. destruct Hu as [id' Hu].
    destruct (Hk id' u Hu) as [He _]. congruence.
  - rewrite lookup_empty. destruct (users !! id) as [u|] eqn:Eu; [|done]. exfalso. apply list_find_None in Ef. rewrite Forall_forall in Ef.
    apply (Ef u); [|by apply Hk]. rewrite Hp, in_users. by exists id.
Qed.

(** Accounts that survive being written and read. *)
Definition reloadable (u : User) : Prop := storable u = true /\ CredentialVersion u <> 0 /\ home_stable u.

Lemma load_serialized users text : users_ok users -> map_Forall (fun _ => reloadable) users -> serializeUsers users = Some text ->
  exists byName, index_exact users byName /\
    loadText text = Ok (users, byName).
Proof.
  intros Hok Hr Hs. unfold loadText. unfold serializeUsers in Hs. set (l := sortUsersForList _) in Hs.
  assert (Hp : l ≡ₚ (map_to_list users).*2) by apply sort_users_permutation.
  assert (Hall : Forall (fun u => user_ok u /\ reloadable u) l).
  { apply Forall_forall. intros u Hu. rewrite Hp, in_users in Hu. destruct Hu as [id Hu]. split; [by eapply (proj1 Hok)|by eapply Hr]. }
  rewrite (decode_serialized l text Hs) by (eapply Forall_impl; [exact Hall|]; by intros ? (_ & ? & ? & _)).
  destruct (users_list_keys users Hok) as [Hn1 Hn2]. rewrite <-Hp in Hn1, Hn2.
  assert (Hl : loadUsers (Some <$> l) ∅ ∅ = Ok (add_users l ∅, add_names l ∅)).
  { apply loadUsers_id; [|done|done|].
    - eapply Forall_impl; [exact Hall|]. by intros ? (? & _ & _ & ?).
    - apply Forall_forall. intros u _. by rewrite !lookup_empty. }
  rewrite Hl, (add_users_all users l) in * by done. exists (add_names l ∅). split; [|done].
  destruct users_ok_empty as [He Hx]. by destruct (loadUsers_ok _ _ _ _ _ He Hx Hl).
Qed.

(** The index of a snapshot is exact when no two names are equal, whatever the order of the loop. *)
Lemma build_index l : NoDup (name_key <$> l) -> forall name u,
  foldr (fun user byName => <[normalizeUsername (Username user) := user]> byName) (∅ : gmap string User) l !! name = Some u <-> u ∈ l /\ name_key u = name.
Proof.
  induction l as [|v l IH]; intros Hn name u; cbn [foldr].
  - rewrite lookup_empty, elem_of_nil. naive_solver.
  - cbn [fmap list_fmap] in Hn. apply NoDup_cons in Hn as [Hv Hn]. fold (name_key v). rewrite lookup_insert_Some, IH, elem_of_cons by done. split.
    + intros [[<- <-]|[Hne [Hu He]]]; [by split; [left|]|by split; [right|]].
    + intros [[->|Hu] <-]; [by left|]. right. split; [|done]. intros He. apply Hv. rewrite He. by apply list_elem_of_fmap_2.
Qed.

Lemma buildUserNameIndex_exact users : users_ok users -> index_exact users (buildUserNameIndex users).
Proof.
  intros Hok name u. destruct (users_list_keys users Hok) as [_ Hn]. unfold buildUserNameIndex. rewrite build_index by done.
  rewrite in_users. split; intros [Hu He]; (split; [|done]).
  - destruct Hu as [id Hu]. by destruct (proj1 Hok id u Hu) as [-> _].
  - by exists (ID u).
Qed.
End File.
End UsersFile.
