(* ===== verification/UserStore.v ===== *)
(** * The account store

    [internal/auth/user.go]: the store in memory and its operations.  Accounts are shared by pointers only
    between the two maps of a state and never changed in place, so an account is a value.  Mutations hold
    [writeMu] from beginning to end, so they are programs on the directory of the store that run one after the
    other; readers hold [mu]. *)

From Stdlib Require Import Ascii.
From stdpp Require Import sorting pretty.
From S2P Require Import Prelude GoStrings GoPath GoRunes GoFormat Paths Sha256 Users FileMonad UserFields AuthFiles UsersFile.
Import Sha256 UserFields AuthFiles UsersFile.

Module UserStore.

(** ** The state *)

Record UserStore := { users : gmap string User; byName : gmap string User; version : Z }.
Record userStoreSnapshot := { snap_users : gmap string User; snap_byName : gmap string User; snap_version : Z }.

Definition snapshotState (s : UserStore) : userStoreSnapshot :=
  {| snap_users := users s; snap_byName := buildUserNameIndex (users s); snap_version := version s |}.

Definition commitSnapshot (s : UserStore) (snapshot : userStoreSnapshot) : UserStore * bool :=
  if negb (version s =? snap_version snapshot) then (s, false)
  else ({| users := snap_users snapshot; byName := snap_byName snapshot; version := uint64 (version s + 1) |}, true).

Definition isEnabledAdmin (user : User) : bool := String.eqb (UserRole user) RoleAdmin && negb (Disabled user).
Definition enabledAdminCount (users : gmap string User) : Z := Z.of_nat (length (List.filter isEnabledAdmin ((map_to_list users).*2))).
Definition hasEnabledAdmin (users : gmap string User) : bool := existsb isEnabledAdmin ((map_to_list users).*2).

(** Two entries of a snapshot that are replaced together. *)
Definition put (snapshot : userStoreSnapshot) (id name : string) (user : User) : userStoreSnapshot :=
  {| snap_users := <[id := user]> (snap_users snapshot); snap_byName := <[name := user]> (snap_byName snapshot); snap_version := snap_version snapshot |}.

(** What a mutation returns: a value; a value and a persistence warning; an error. *)
Inductive reply (A : Type) := Done (a : A) | Warned (a : A) | Failed (e : AuthError).
Arguments Done {A} _.
Arguments Warned {A} _.
Arguments Failed {A} _.

(** What the random source gives to each call and each try of [createAuthTempFile]. *)
Definition source : Type := nat -> nat -> option string.
Definition later (n : nat) (names : source) : source := fun i => names (n + i)%nat.

(** The loop [for { snapshot := s.snapshotState(); ... }] of every mutation; an attempt that could not commit
    answers [None] and is repeated.  [warned] is the warning collected so far.  One attempt suffices
    ([retry_once] in UserStoreInvariant). *)
Definition outcome (A : Type) : Type := (UserStore * bool) * option (reply A).
Fixpoint retry {A} (attempts : nat) (s : UserStore) (warned : bool) (names : source)
    (attempt : UserStore -> bool -> source -> prog (outcome A)) : prog (UserStore * reply A) :=
  match attempts with
  | O => ret (s, Failed ErrRetries)
  | S attempts' =>
    run! out := attempt s warned names in
    match out with
    | (s, _, Some r) => ret (s, r)
    | (s, warned, None) => retry attempts' s warned (later 2 names) attempt
    end
  end.
Definition stop {A} (s : UserStore) (warned : bool) (r : reply A) : prog (outcome A) := ret (s, warned, Some r).

(** The end of an attempt: [saved] is what writing the snapshot came to; a warning commits as well. *)
Definition finish {A} (s : UserStore) (warned : bool) (snapshot : userStoreSnapshot) (saved : write) (value : A)
    (failed : AuthError -> prog (outcome A)) : prog (outcome A) :=
  match saved with
  | NotWritten e => failed e
  | WrittenUnsynced =>
    let '(s, committed) := commitSnapshot s snapshot in
    if committed : bool then stop s warned (Warned value) else failed ErrPersistenceWarning
  | Written =>
    let '(s, committed) := commitSnapshot s snapshot in
    if committed : bool then stop s warned (if warned then Warned value else Done value) else ret (s, warned, None)
  end.

(** ** Changed copies of an account *)

Definition with_login (u : User) (now : Z) : User :=
  {| ID := ID u; Username := Username u; Email := Email u; PasswordHash := PasswordHash u; UserRole := UserRole u; Groups := Groups u;
     Disabled := Disabled u; CreatedAt := CreatedAt u; UpdatedAt := UpdatedAt u; LastLoginAt := Some now;
     MustChangePassword := MustChangePassword u; PasswordChangedAt := PasswordChangedAt u; CredentialVersion := CredentialVersion u;
     HomeDir := HomeDir u; QuotaBytes := QuotaBytes u; UsedBytes := UsedBytes u |}.

Definition with_password (u : User) (hash : string) (mustChangePassword : bool) (now : Z) : User :=
  {| ID := ID u; Username := Username u; Email := Email u; PasswordHash := hash; UserRole := UserRole u; Groups := Groups u;
     Disabled := Disabled u; CreatedAt := CreatedAt u; UpdatedAt := now; LastLoginAt := LastLoginAt u;
     MustChangePassword := mustChangePassword; PasswordChangedAt := Some now; CredentialVersion := uint64 (CredentialVersion u + 1);
     HomeDir := HomeDir u; QuotaBytes := QuotaBytes u; UsedBytes := UsedBytes u |}.

(** ** Random values *)

(** [random] is the sixteen bytes of the random source, or its error. *)
Definition generateID (random : option string) : result AuthError string :=
  match random with Some b => Ok (EncodeToString b) | None => Err ErrIO end.

Definition charset : string := "abcdefghijklmnopqrstuvwxyzABCDEFGHIJKLMNOPQRSTUVWXYZ0123456789!@#$%".
Definition maxRandomByte : Z := (256 - 256 mod len charset) mod 256.

Definition char_of (b : ascii) : ascii := default "000"%char (String.get (Z.to_nat (Z.of_N (N_of_ascii b) mod len charset)) charset).

(** The inner loop, on the reads of one byte that the source answers: an error, or the byte.  When there are
    no more the source fails. *)
Fixpoint drawChar (reads : list (option ascii)) : result AuthError (ascii * list (option ascii)) :=
  match reads with
  | [] | None :: _ => Err ErrIO
  | Some b :: reads' => if maxRandomByte <=? Z.of_N (N_of_ascii b) then drawChar reads' else Ok (char_of b, reads')
  end.
Fixpoint generateRandomPassword (length : nat) (reads : list (option ascii)) : result AuthError string :=
  match length with
  | O => Ok EmptyString
  | S length' =>
    let! (c, reads') := drawChar reads in
    let! password := generateRandomPassword length' reads' in
    Ok (String c password)
  end.

(** ** The file of the initial password *)

Definition maxInitialPasswordFileBytes : Z := Z.shiftl 16 10.
Definition newline : ascii := ascii_of_N 10.

Definition passwordContent (username password : string) : string :=
  Join (String newline EmptyString)
    ["MnemoNAS Initial Admin Password"; "================================"; "Username: " +:+ username; "Password: " +:+ password;
     EmptyString; "Please change this password after first login!";
     "This file will be automatically deleted after you change this password."; EmptyString].

Definition names_user (content username : string) : bool :=
  existsb (fun line => String.eqb (TrimSpace line) ("Username: " +:+ username)) (Split newline content).

(** The content, and whether it is for this user. *)
Definition readInitialPasswordFileForUser (username : string) : prog (result AuthError (string * bool)) :=
  try! content := readRegisteredAuthFileLimited passwordFile maxInitialPasswordFileBytes in
  ret (Ok (match content with
           | None => (EmptyString, false)
           | Some content => (content, names_user content username)
           end)).

Record initialPasswordFileRemoval := { content : string; removed : bool }.

(** An error; or the removal, and whether it was synced. *)
Definition removeInitialPasswordFileForUser (username : string) : prog (result AuthError (initialPasswordFileRemoval * bool)) :=
  try! (content, matchedUsername) := readInitialPasswordFileForUser username in
  if negb matchedUsername then ret (Ok ({| content := EmptyString; removed := false |}, true))
  else
    try! _ := removeRegisteredAuthFile passwordFile in
    run! synced := syncRegisteredAuthDir in
    ret (Ok ({| content := content; removed := true |}, match synced with Ok _ => true | Err _ => false end)).

(** [restore]; what it comes to is only added to the text of an error. *)
Definition restore (r : initialPasswordFileRemoval) (random : nat -> option string) : prog unit :=
  if negb (removed r) then ret tt
  else run! _ := writeAuthFileAtomicallyWithRoot passwordFile (content r) ".initial-password-*.tmp" random in ret tt.

Section Store.
Context {codec : UserCodec} {bcrypt : Bcrypt}.

(** ** Reading *)

Definition GetByID (s : UserStore) (id : string) : result AuthError User :=
  match users s !! id with Some user => Ok user | None => Err ErrUserNotFound end.

Definition GetByUsername (s : UserStore) (username : string) : result AuthError User :=
  match byName s !! normalizeUsername username with Some user => Ok user | None => Err ErrUserNotFound end.

Definition VerifyCredentials (s : UserStore) (username password : string) : result AuthError User :=
  match byName s !! normalizeUsername username with
  | None => Err ErrInvalidCredentials
  | Some user =>
    if Disabled user then Err ErrUserDisabled
    else if negb (CompareHashAndPassword (PasswordHash user) password) then Err ErrInvalidCredentials
    else if MustChangePassword user then Err ErrPasswordChangeRequired
    else Ok user
  end.

Definition List (s : UserStore) : list User := sortUsersForList ((map_to_list (users s)).*2).
Definition Count (s : UserStore) : Z := Z.of_nat (size (users s)).

(** ** Logging in *)

Definition authenticateOnce (username password : string) (now : Z) (s : UserStore) (warned : bool) (names : source) : prog (outcome User) :=
  let normalizedUsername := normalizeUsername username in
  let snapshot := snapshotState s in
  match snap_byName snapshot !! normalizedUsername with
  | None => stop s warned (Failed ErrInvalidCredentials)
  | Some user =>
    if Disabled user then stop s warned (Failed ErrUserDisabled)
    else if negb (CompareHashAndPassword (PasswordHash user) password) then stop s warned (Failed ErrInvalidCredentials)
    else
      let updated := with_login user now in
      let snapshot := put snapshot (ID user) normalizedUsername updated in
      run! saved := saveUserState (snap_users snapshot) (names O) in
      finish s warned snapshot saved updated (fun e => stop s warned (Failed e))
  end.
Definition Authenticate (s : UserStore) (username password : string) (now : Z) (names : source) : prog (UserStore * reply User) :=
  retry 1 s false names (authenticateOnce username password now).

(** ** Creating *)

Record CreateUserOptions := { OptGroups : list string; OptHomeDir : option string; OptQuotaBytes : Z }.

(** The account that is created: [salt] and [random] are what bcrypt and [generateID] draw, [created] and
    [now] the two readings of the clock. *)
Definition newUser (username password email : string) (role : Role) (options : CreateUserOptions)
    (salt : string) (random : option string) (created now : Z) : result AuthError User :=
  let! cleanUsername := normalizeNewUsername username in
  let! _ := validateRole role in
  let! normalizedGroups := normalizeGroupNames (OptGroups options) in
  let! homeDir := match OptHomeDir options with Some home => normalizeHomeDir home | None => Ok ("/" +:+ cleanUsername) end in
  let! _ := validateRoleHomeDir role homeDir in
  if OptQuotaBytes options <? 0 then Err ErrInvalidQuotaBytes else
  let! _ := validateNewPassword password in
  match GenerateFromPassword salt password with
  | None => Err ErrIO
  | Some hash =>
    let! userID := generateID random in
    Ok {| ID := userID; Username := cleanUsername; Email := email; PasswordHash := hash; UserRole := role; Groups := normalizedGroups;
          Disabled := false; CreatedAt := created; UpdatedAt := now; LastLoginAt := None; MustChangePassword := false;
          PasswordChangedAt := None; CredentialVersion := 1; HomeDir := homeDir; QuotaBytes := OptQuotaBytes options; UsedBytes := 0 |}
  end.

Definition createOnce (user : User) (s : UserStore) (warned : bool) (names : source) : prog (outcome User) :=
  let normalizedUsername := normalizeUsername (Username user) in
  let snapshot := snapshotState s in
  match snap_byName snapshot !! normalizedUsername with
  | Some _ => stop s warned (Failed ErrUserExists)
  | None =>
    let snapshot := put snapshot (ID user) normalizedUsername user in
    run! saved := saveUserState (snap_users snapshot) (names O) in
    finish s warned snapshot saved user (fun e => stop s warned (Failed e))
  end.

Definition CreateWithOptions (s : UserStore) (username password email : string) (role : Role) (options : CreateUserOptions)
    (salt : string) (random : option string) (created now : Z) (names : source) : prog (UserStore * reply User) :=
  match newUser username password email role options salt random created now with
  | Err e => ret (s, Failed e)
  | Ok user => retry 1 s false names (createOnce user)
  end.
Definition CreateWithGroups (s : UserStore) (username password email : string) (role : Role) (groups : list string) :=
  CreateWithOptions s username password email role {| OptGroups := groups; OptHomeDir := None; OptQuotaBytes := 0 |}.
Definition Create (s : UserStore) (username password email : string) (role : Role) := CreateWithGroups s username password email role [].

(** ** Changing *)

(** The record that [Update] stores: what administrators do not manage stays as it is. *)
Definition updateUser (existing user : User) (username homeDir : string) (groups : list string) (now : Z) : User :=
  {| ID := ID user; Username := username; Email := Email user; PasswordHash := PasswordHash existing; UserRole := UserRole user; Groups := groups;
     Disabled := Disabled user; CreatedAt := CreatedAt existing; UpdatedAt := now; LastLoginAt := LastLoginAt existing;
     MustChangePassword := MustChangePassword existing; PasswordChangedAt := PasswordChangedAt existing;
     CredentialVersion := CredentialVersion existing; HomeDir := homeDir; QuotaBytes := QuotaBytes user; UsedBytes := UsedBytes user |}.

Definition losesLastAdmin (users : gmap string User) (existing updated : User) : bool :=
  isEnabledAdmin existing && negb (isEnabledAdmin updated) && (enabledAdminCount users <=? 1).

(** The checks of [Update] before it looks at any file. *)
Definition checkUpdate (users : gmap string User) (existing user : User) (now : Z) : result AuthError User :=
  let! cleanUsername := normalizeNewUsername (Username user) in
  let! _ := validateRole (UserRole user) in
  let! groups := normalizeGroupNames (Groups user) in
  let! homeDir := normalizeHomeDir (HomeDir user) in
  let updated := updateUser existing user cleanUsername homeDir groups now in
  if losesLastAdmin users existing updated then Err ErrLastAdmin else
  let! _ := validateRoleHomeDir (UserRole user) homeDir in
  if QuotaBytes user <? 0 then Err ErrInvalidQuotaBytes
  else Ok updated.

(** [ErrInitialPasswordActive] when the name changes while the file of the initial password is for it. *)
Definition checkRename (existing updated : User) : prog (result AuthError unit) :=
  if String.eqb (Username existing) (Username updated) then ret (Ok tt)
  else
    try! (_, initialPasswordActive) := readInitialPasswordFileForUser (Username existing) in
    ret (if initialPasswordActive : bool then Err ErrInitialPasswordActive else Ok tt).

Definition updateOnce (user : User) (now : Z) (s : UserStore) (warned : bool) (names : source) : prog (outcome unit) :=
  let snapshot := snapshotState s in
  match snap_users snapshot !! ID user with
  | None => stop s warned (Failed ErrUserNotFound)
  | Some existing =>
    match checkUpdate (snap_users snapshot) existing user now with
    | Err e => stop s warned (Failed e)
    | Ok updated =>
      let oldName := normalizeUsername (Username existing) in
      let newName := normalizeUsername (Username updated) in
      run! renamed := checkRename existing updated in
      match renamed with
      | Err e => stop s warned (Failed e)
      | Ok _ =>
        if match snap_byName snapshot !! newName with Some other => negb (String.eqb (ID other) (ID user)) | None => false end
        then stop s warned (Failed ErrUserExists)
        else
          let snapshot := {| snap_users := <[ID user := updated]> (snap_users snapshot);
                             snap_byName := <[newName := updated]> (delete oldName (snap_byName snapshot));
                             snap_version := snap_version snapshot |} in
          run! saved := saveUserState (snap_users snapshot) (names O) in
          finish s warned snapshot saved tt (fun e => stop s warned (Failed e))
      end
    end
  end.
Definition Update (s : UserStore) (user : User) (now : Z) (names : source) : prog (UserStore * reply unit) :=
  retry 1 s false names (updateOnce user now).

Record UserPatch := {
  PatchEmail : option string;
  PatchRole : option Role;
  PatchGroups : option (list string);
  PatchHomeDir : option string;
  PatchQuotaBytes : option Z;
  PatchDisabled : option bool;
}.

(** The checks of [Patch], and the record that it stores. *)
Definition checkPatch (users : gmap string User) (existing : User) (patch : UserPatch) (now : Z) : result AuthError User :=
  let role := default (UserRole existing) (PatchRole patch) in
  let quota := default (QuotaBytes existing) (PatchQuotaBytes patch) in
  let! _ := validateRole role in
  let! groups := normalizeGroupNames (default (Groups existing) (PatchGroups patch)) in
  let! homeDir := normalizeHomeDir (default (HomeDir existing) (PatchHomeDir patch)) in
  let updated :=
    {| ID := ID existing; Username := Username existing; Email := match PatchEmail patch with Some email => TrimSpace email | None => Email existing end;
       PasswordHash := PasswordHash existing; UserRole := role; Groups := groups; Disabled := default (Disabled existing) (PatchDisabled patch);
       CreatedAt := CreatedAt existing; UpdatedAt := now; LastLoginAt := LastLoginAt existing; MustChangePassword := MustChangePassword existing;
       PasswordChangedAt := PasswordChangedAt existing; CredentialVersion := CredentialVersion existing; HomeDir := homeDir;
       QuotaBytes := quota; UsedBytes := UsedBytes existing |} in
  if losesLastAdmin users existing updated then Err ErrLastAdmin else
  let! _ := validateRoleHomeDir role homeDir in
  if quota <? 0 then Err ErrInvalidQuotaBytes
  else Ok updated.

Definition patchOnce (id : string) (patch : UserPatch) (now : Z) (s : UserStore) (warned : bool) (names : source) : prog (outcome User) :=
  let snapshot := snapshotState s in
  match snap_users snapshot !! id with
  | None => stop s warned (Failed ErrUserNotFound)
  | Some existing =>
    match checkPatch (snap_users snapshot) existing patch now with
    | Err e => stop s warned (Failed e)
    | Ok updated =>
      let snapshot := put snapshot id (normalizeUsername (Username updated)) updated in
      run! saved := saveUserState (snap_users snapshot) (names O) in
      finish s warned snapshot saved updated (fun e => stop s warned (Failed e))
    end
  end.
Definition Patch (s : UserStore) (id : string) (patch : UserPatch) (now : Z) (names : source) : prog (UserStore * reply User) :=
  retry 1 s false names (patchOnce id patch now).

(** ** Passwords *)

(** The end of [ChangePassword] and [resetPassword], which are the same from the removal of the file on. *)
Definition replacePassword (id : string) (user : User) (hash : string) (mustChangePassword : bool) (now : Z) (snapshot : userStoreSnapshot)
    (s : UserStore) (warned : bool) (names : source) : prog (outcome unit) :=
  run! removal := removeInitialPasswordFileForUser (Username user) in
  match removal with
  | Err e => stop s warned (Failed e)
  | Ok (removal, synced) =>
    let warned := warned || negb synced in
    let updated := with_password user hash mustChangePassword now in
    let snapshot := put snapshot id (normalizeUsername (Username updated)) updated in
    run! saved := saveUserState (snap_users snapshot) (names O) in
    finish s warned snapshot saved tt (fun e => run! _ := restore removal (names 1%nat) in stop s warned (Failed e))
  end.

Definition changePasswordOnce (id oldPassword newPassword hash : string) (now : Z) (s : UserStore) (warned : bool) (names : source) : prog (outcome unit) :=
  let snapshot := snapshotState s in
  match snap_users snapshot !! id with
  | None => stop s warned (Failed ErrUserNotFound)
  | Some user =>
    if negb (CompareHashAndPassword (PasswordHash user) oldPassword) then stop s warned (Failed ErrInvalidCredentials)
    else if CompareHashAndPassword (PasswordHash user) newPassword then stop s warned (Failed ErrPasswordUnchanged)
    else replacePassword id user hash false now snapshot s warned names
  end.
Definition resetPasswordOnce (id hash : string) (mustChangePassword : bool) (now : Z) (s : UserStore) (warned : bool) (names : source) : prog (outcome unit) :=
  let snapshot := snapshotState s in
  match snap_users snapshot !! id with
  | None => stop s warned (Failed ErrUserNotFound)
  | Some user => replacePassword id user hash mustChangePassword now snapshot s warned names
  end.

(** The new hash, computed before any lock is taken. *)
Definition hashPassword (salt newPassword : string) : result AuthError string :=
  let! _ := validateNewPassword newPassword in
  match GenerateFromPassword salt newPassword with Some hash => Ok hash | None => Err ErrIO end.

Definition ChangePassword (s : UserStore) (id oldPassword newPassword salt : string) (now : Z) (names : source) : prog (UserStore * reply unit) :=
  match hashPassword salt newPassword with
  | Err e => ret (s, Failed e)
  | Ok hash => retry 1 s false names (changePasswordOnce id oldPassword newPassword hash now)
  end.
Definition resetPassword (s : UserStore) (id newPassword : string) (mustChangePassword : bool) (salt : string) (now : Z) (names : source)
    : prog (UserStore * reply unit) :=
  match hashPassword salt newPassword with
  | Err e => ret (s, Failed e)
  | Ok hash => retry 1 s false names (resetPasswordOnce id hash mustChangePassword now)
  end.
Definition ResetPassword (s : UserStore) (id newPassword : string) := resetPassword s id newPassword true.
Definition ResetOwnPassword (s : UserStore) (id newPassword : string) := resetPassword s id newPassword false.

(** ** Deleting *)

(** A removal of the initial password file that is not synced is undone. *)
Definition deleteOnce (id : string) (s : UserStore) (warned : bool) (names : source) : prog (outcome unit) :=
  let snapshot := snapshotState s in
  match snap_users snapshot !! id with
  | None => stop s warned (Failed ErrUserNotFound)
  | Some user =>
    if String.eqb (UserRole user) RoleAdmin && (enabledAdminCount (snap_users snapshot) <=? 1) then stop s warned (Failed ErrLastAdmin)
    else
      run! removal := removeInitialPasswordFileForUser (Username user) in
      match removal with
      | Err e => stop s warned (Failed e)
      | Ok (removal, false) => run! _ := restore removal (names 1%nat) in stop s warned (Failed ErrIO)
      | Ok (removal, true) =>
        let snapshot := {| snap_users := delete id (snap_users snapshot);
                           snap_byName := delete (normalizeUsername (Username user)) (snap_byName snapshot);
                           snap_version := snap_version snapshot |} in
        run! saved := saveUserState (snap_users snapshot) (names O) in
        finish s warned snapshot saved tt (fun e => run! _ := restore removal (names 1%nat) in stop s warned (Failed e))
      end
  end.
Definition Delete (s : UserStore) (id : string) (names : source) : prog (UserStore * reply unit) :=
  retry 1 s false names (deleteOnce id).

(** ** Starting *)

Definition recoveryPrefix : string := "admin-recovery".
(** [fmt.Sprintf("%s-%d", recoveryPrefix, suffix)] *)
Definition recoveryName (suffix : N) : string := recoveryPrefix +:+ "-" +:+ pretty suffix.

(** The loop over the suffixes, for at most [fuel] names. *)
Fixpoint freeName (fuel : nat) (byName : gmap string User) (candidate : string) (suffix : N) : option string :=
  match fuel with
  | O => None
  | S fuel' =>
    if bool_decide (is_Some (byName !! normalizeUsername candidate)) then freeName fuel' byName (recoveryName suffix) (suffix + 1)%N
    else Some candidate
  end.

Definition bootstrapAdminUsername (byName : gmap string User) : option string :=
  if bool_decide (byName !! normalizeUsername "admin" = None) then Some "admin"
  else freeName (S (size byName)) byName recoveryPrefix 2.

(** What the random source, bcrypt and the clock give to [createDefaultAdmin]. *)
Record Seeds := { seed_reads : list (option ascii); seed_id : option string; seed_salt : string; seed_created : Z; seed_now : Z }.

Definition defaultAdmin (id username hash : string) (created now : Z) : User :=
  {| ID := id; Username := username; Email := EmptyString; PasswordHash := hash; UserRole := RoleAdmin; Groups := []; Disabled := false;
     CreatedAt := created; UpdatedAt := now; LastLoginAt := None; MustChangePassword := true; PasswordChangedAt := None; CredentialVersion := 1;
     HomeDir := "/"; QuotaBytes := 0; UsedBytes := 0 |}.

(** The state before any other goroutine knows the store; the password, or an error.  The notices on the
    terminal are left out. *)
Definition createDefaultAdmin (s : UserStore) (seeds : Seeds) (names : source) : prog (UserStore * reply string) :=
  match generateRandomPassword 16 (seed_reads seeds), generateID (seed_id seeds), bootstrapAdminUsername (byName s) with
  | Ok password, Ok adminID, Some username =>
    match GenerateFromPassword (seed_salt seeds) password with
    | None => ret (s, Failed ErrIO)
    | Some hash =>
      let admin := defaultAdmin adminID username hash (seed_created seeds) (seed_now seeds) in
      run! written := writeAuthFileAtomicallyWithRoot passwordFile (passwordContent username password) ".initial-password-*.tmp" (names O) in
      match written with
      | NotWritten e => ret (s, Failed e)
      | _ =>
        let warned := match written with WrittenUnsynced => true | _ => false end in
        let s' := {| users := <[ID admin := admin]> (users s); byName := <[normalizeUsername (Username admin) := admin]> (byName s); version := version s |} in
        run! saved := saveUserState (users s') (names 1%nat) in
        match saved with
        | Written => ret (s', if warned then Warned password else Done password)
        | WrittenUnsynced => ret (s', Warned password)
        | NotWritten e =>
          run! _ := removeRegisteredAuthFile passwordFile in
          ret ({| users := delete (ID admin) (users s'); byName := delete (normalizeUsername (Username admin)) (byName s'); version := version s' |}, Failed e)
        end
      end
    end
  | Err e, _, _ | _, Err e, _ => ret (s, Failed e)
  | _, _, None => ret (s, Failed ErrRetries)
  end.

(** The store and the initial password of an administrator that had to be created, which is empty when there
    was one. *)
Definition NewUserStore (seeds : Seeds) (names : source) : prog (reply (UserStore * string)) :=
  run! loaded := load in
  match loaded with
  | Err e => ret (Failed e)
  | Ok (loadedUsers, loadedByName) =>
    let store := {| users := loadedUsers; byName := loadedByName; version := 0 |} in
    if negb (hasEnabledAdmin (users store)) then
      run! (store, r) := createDefaultAdmin store seeds names in
      ret (match r with
           | Done password => Done (store, password)
           | Warned password => Warned (store, password)
           | Failed e => Failed e
           end)
    else ret (Done (store, EmptyString))
  end.
End Store.
End UserStore.
