(* ===== verification/UserSpec.v ===== *)
(** * What the account store promises

    The operations as changes of the set of accounts, without files, indexes and versions; and what every
    change keeps: canonical accounts, distinct names, an enabled administrator. *)

From Stdlib Require Import Ascii.
From S2P Require Import Prelude GoStrings GoPath GoRunes Paths Users FileMonad UserFields AuthFiles UsersFile UserStore.
Import UserFields AuthFiles UsersFile UserStore.

Module UserSpec.

(** The mutations, with what the clock, the random source and bcrypt give to them. *)
Inductive op :=
| OpAuthenticate (username password : string) (now : Z)
| OpCreate (username password email : string) (role : Role) (options : CreateUserOptions) (salt : string) (random : option string) (created now : Z)
| OpUpdate (user : User) (now : Z)
| OpPatch (id : string) (patch : UserPatch) (now : Z)
| OpChangePassword (id oldPassword newPassword salt : string) (now : Z)
| OpResetPassword (id newPassword : string) (mustChangePassword : bool) (salt : string) (now : Z)
| OpDelete (id : string).

Section Spec.
Context {codec : UserCodec} {bcrypt : Bcrypt}.

(** The change of the accounts by an operation that succeeds. *)
Definition effect (o : op) (us us' : gmap string User) : Prop :=
  match o with
  | OpAuthenticate username password now => exists u, us !! ID u = Some u /\ name_key u = normalizeUsername username /\
      Disabled u = false /\ CompareHashAndPassword (PasswordHash u) password = true /\ us' = <[ID u := with_login u now]> us
  | OpCreate username password email role options salt random created now => exists u,
      newUser username password email role options salt random created now = Ok u /\
      (forall id v, us !! id = Some v -> name_key v <> name_key u) /\ us' = <[ID u := u]> us
  | OpUpdate user now => exists existing u, us !! ID user = Some existing /\ checkUpdate us existing user now = Ok u /\
      (forall id v, us !! id = Some v -> name_key v = name_key u -> id = ID user) /\ us' = <[ID user := u]> us
  | OpPatch id patch now => exists existing u, us !! id = Some existing /\ checkPatch us existing patch now = Ok u /\ us' = <[id := u]> us
  | OpChangePassword id oldPassword newPassword salt now => exists u hash, us !! id = Some u /\ hashPassword salt newPassword = Ok hash /\
      CompareHashAndPassword (PasswordHash u) oldPassword = true /\ CompareHashAndPassword (PasswordHash u) newPassword = false /\
      us' = <[id := with_password u hash false now]> us
  | OpResetPassword id newPassword mustChangePassword salt now => exists u hash, us !! id = Some u /\ hashPassword salt newPassword = Ok hash /\
      us' = <[id := with_password u hash mustChangePassword now]> us
  | OpDelete id => exists u, us !! id = Some u /\ (UserRole u = RoleAdmin -> 1 < enabledAdminCount us) /\ us' = delete id us
  end.

(** The ID that a creation draws is not one that is in use. *)
Definition fresh_id (o : op) (us : gmap string User) : Prop :=
  match o with
  | OpCreate _ _ _ _ _ _ random _ _ => forall id, generateID random = Ok id -> us !! id = None
  | _ => True
  end.

(** ** Administrators *)

Definition some_admin (us : gmap string User) : Prop := exists id u, us !! id = Some u /\ isEnabledAdmin u = true.

Lemma hasEnabledAdmin_iff us : hasEnabledAdmin us = true <-> some_admin us.
Proof.
  unfold hasEnabledAdmin. rewrite existsb_exists. split.
  - intros (u & Hu & Ha). apply list_elem_of_In, in_users in Hu as [id Hu]. by exists id, u.
  - intros (id & u & Hu & Ha). exists u. split; [|done]. apply list_elem_of_In, in_users. by exists id.
Qed.

Lemma filter_length_Permutation {A} (f : A -> bool) l l' : l ≡ₚ l' -> length (List.filter f l) = length (List.filter f l').
Proof. induction 1 as [|x l l' _ IH|x y l|l l' l'' _ IH1 _ IH2]; cbn; repeat case_match; cbn; congruence. Qed.

Lemma admin_count_delete us id u : us !! id = Some u ->
  enabledAdminCount us = (if isEnabledAdmin u then 1 else 0) + enabledAdminCount (delete id us).
Proof.
  intros Hu. unfold enabledAdminCount. rewrite <-(filter_length_Permutation isEnabledAdmin ((id, u) :: map_to_list (delete id us)).*2).
  2:{ apply fmap_Permutation. by apply map_to_list_delete. }
  cbn [fmap list_fmap List.filter snd]. destruct (isEnabledAdmin u); cbn [length]; lia.
Qed.

Lemma admin_count_some us : 0 < enabledAdminCount us <-> some_admin us.
Proof.
  rewrite <-hasEnabledAdmin_iff. unfold enabledAdminCount, hasEnabledAdmin. induction ((map_to_list us).*2) as [|u l IH]; [cbn; split; [lia|done]|].
  cbn [List.filter existsb]. destruct (isEnabledAdmin u); cbn [length orb]; [split; [done|lia]|done].
Qed.

(** Replacing an account keeps an administrator, unless it was the last one and is one no longer. *)
Lemma some_admin_insert us id u v : us !! id = Some u -> losesLastAdmin us u v = false -> some_admin us -> some_admin (<[id := v]> us).
Proof.
  intros Hu Hl Hs. apply admin_count_some in Hs. rewrite (admin_count_delete _ _ _ Hu) in Hs. unfold losesLastAdmin in Hl.
  destruct (isEnabledAdmin v) eqn:Ev; [exists id, v; by rewrite lookup_insert_eq|].
  assert (0 < enabledAdminCount (delete id us)) as (i & w & Hw & Ha)%admin_count_some.
  { rewrite (admin_count_delete _ _ _ Hu) in Hl. destruct (isEnabledAdmin u); cbn [andb negb] in *; b2p; lia. }
  exists i, w. apply lookup_delete_Some in Hw as [Hne Hw]. by rewrite lookup_insert_ne.
Qed.

Lemma same_admin us u v : UserRole v = UserRole u -> Disabled v = Disabled u -> losesLastAdmin us u v = false.
Proof. unfold losesLastAdmin, isEnabledAdmin. intros -> ->. by destruct (String.eqb _ _), (Disabled u). Qed.

(** ** Canonical accounts *)

(** Replacing an account by one of a name that no other has. *)
Lemma users_ok_replace us id u v : users_ok us -> us !! id = Some u -> ID v = id -> user_ok v ->
  (forall i w, us !! i = Some w -> name_key w = name_key v -> i = id) -> users_ok (<[id := v]> us).
Proof.
  intros [Hk Hn] Hu Hid Hv Hname. split.
  - intros i w. rewrite lookup_insert_Some. intros [[<- <-]|[_ Hw]]; [done|by apply Hk].
  - intros i j w x. rewrite !lookup_insert_Some. intros [[<- <-]|[Hi Hw]] [[<- <-]|[Hj Hx]] He; [done| | |by eapply Hn].
    + by rewrite (Hname j x Hx (eq_sym He)).
    + by apply (Hname i w).
Qed.

(** A changed copy that keeps what identifies the account. *)
Lemma users_ok_same_name us id u v : users_ok us -> us !! id = Some u -> ID v = ID u -> Username v = Username u -> user_ok v -> users_ok (<[id := v]> us).
Proof.
  intros Hok Hu Hid Hname Hv. destruct (proj1 Hok id u Hu) as [He _]. eapply users_ok_replace; [done..|congruence|done|].
  intros i w Hw Hkey. apply (proj2 Hok i id w u Hw Hu). by rewrite Hkey; unfold name_key; rewrite Hname.
Qed.

Lemma users_ok_delete us id : users_ok us -> users_ok (delete id us).
Proof.
  intros [Hk Hn]. split.
  - intros i u. rewrite lookup_delete_Some. intros [_ Hu]. by apply Hk.
  - intros i j u v. rewrite !lookup_delete_Some. intros [_ Hu] [_ Hv]. by apply Hn.
Qed.

Lemma with_login_ok u now : user_ok u -> user_ok (with_login u now).
Proof. done. Qed.
Lemma with_password_ok u hash must now : user_ok u -> Cost hash = true -> user_ok (with_password u hash must now).
Proof. intros (? & ? & ? & ? & ? & ? & _ & ?) Hc. by split_and!. Qed.

Lemma hashPassword_ok salt newPassword hash : hashPassword salt newPassword = Ok hash ->
  validateNewPassword newPassword = Ok tt /\ Cost hash = true /\ CompareHashAndPassword hash newPassword = true.
Proof.
  unfold hashPassword. destruct (validateNewPassword newPassword) as [[]|]; [|done]. destruct (GenerateFromPassword salt newPassword) as [h|] eqn:E; [|done].
  intros [= <-]. split_and!; [done|by eapply generated_cost|by eapply generated_compare].
Qed.

Lemma EncodeToString_empty s : Sha256.Sha256.EncodeToString s = EmptyString -> s = EmptyString.
Proof. by destruct s. Qed.

(** What is asked of the random source: it gives at least one byte. *)
Definition draws (random : option string) : Prop := random <> Some EmptyString.

Lemma newUser_ok username password email role options salt random created now u : draws random ->
  newUser username password email role options salt random created now = Ok u -> user_ok u /\ generateID random = Ok (ID u).
Proof.
  intros Hd. unfold newUser. destruct (normalizeNewUsername username) as [name|] eqn:En; [|done]. destruct (validateRole role) as [[]|] eqn:Er; [|done].
  destruct (normalizeGroupNames _) as [groups|] eqn:Eg; [|done]. destruct (match OptHomeDir options with Some _ => _ | None => _ end) as [home|] eqn:Eh; [|done].
  destruct (validateRoleHomeDir role home) as [[]|] eqn:Erh; [|done]. destruct (Z.ltb_spec (OptQuotaBytes options) 0) as [|Hq]; [done|].
  destruct (validateNewPassword password) as [[]|]; [|done]. destruct (GenerateFromPassword salt password) as [hash|] eqn:Ehash; [|done].
  destruct (generateID random) as [id|] eqn:Eid; [|done]. intros [= <-]. split; [|done].
  split_and!; [|by eapply normalizeNewUsername_fixed|done| |done|done|by eapply generated_cost|by eapply normalizeGroupNames_ok].
  - cbn. unfold generateID in Eid. destruct random as [b|]; [|done]. injection Eid as <-. intros He. apply Hd. by rewrite (EncodeToString_empty b He).
  - cbn. destruct (OptHomeDir options); [by eapply normalizeHomeDir_ok|]. injection Eh as <-. by destruct (default_home_ok _ _ En).
Qed.

Lemma checkUpdate_ok us existing user now u : user_ok existing -> ID existing = ID user -> checkUpdate us existing user now = Ok u ->
  user_ok u /\ ID u = ID user /\ losesLastAdmin us existing u = false.
Proof.
  intros Hok Hid. unfold checkUpdate. destruct (normalizeNewUsername _) as [name|] eqn:En; [|done]. destruct (validateRole _) as [[]|] eqn:Er; [|done].
  destruct (normalizeGroupNames _) as [groups|] eqn:Eg; [|done]. destruct (normalizeHomeDir _) as [home|] eqn:Eh; [|done].
  destruct (losesLastAdmin _ _ _) eqn:El; [done|]. destruct (validateRoleHomeDir _ _) as [[]|] eqn:Erh; [|done].
  destruct (Z.ltb_spec (QuotaBytes user) 0); [done|]. intros [= <-]. split_and!; [|done|done]. destruct Hok as (Hi & _ & _ & _ & _ & _ & Hc & _).
  split_and!; cbn; [congruence|by eapply normalizeNewUsername_fixed|done|by eapply normalizeHomeDir_ok|done|done|done|by eapply normalizeGroupNames_ok].
Qed.

Lemma checkPatch_ok us existing patch now u : user_ok existing -> checkPatch us existing patch now = Ok u ->
  user_ok u /\ ID u = ID existing /\ Username u = Username existing /\ losesLastAdmin us existing u = false.
Proof.
  intros (Hi & Hn & _ & _ & _ & _ & Hc & _). unfold checkPatch. cbv zeta. destruct (validateRole _) as [[]|] eqn:Er; [|done].
  destruct (normalizeGroupNames _) as [groups|] eqn:Eg; [|done]. destruct (normalizeHomeDir _) as [home|] eqn:Eh; [|done].
  destruct (losesLastAdmin _ _ _) eqn:El; [done|]. destruct (validateRoleHomeDir _ _) as [[]|] eqn:Erh; [|done].
  destruct (Z.ltb_spec (default (QuotaBytes existing) (PatchQuotaBytes patch)) 0); [done|]. intros [= <-]. split_and!; [|done|done|done].
  split_and!; cbn; [done|done|done|by eapply normalizeHomeDir_ok|done|done|done|by eapply normalizeGroupNames_ok].
Qed.

(** Every change keeps the accounts canonical and an administrator enabled. *)
Definition draws_of (o : op) : Prop := match o with OpCreate _ _ _ _ _ _ random _ _ => draws random | _ => True end.

Lemma effect_users_ok o us us' : effect o us us' -> fresh_id o us -> draws_of o -> users_ok us -> users_ok us'.
Proof.
  intros He Hf Hd Hok. destruct o as [username password now|username password email role options salt random created now|user now|id patch now|
    id oldPassword newPassword salt now|id newPassword must salt now|id]; cbn [effect fresh_id draws_of] in *.
  - destruct He as (u & Hu & _ & _ & _ & ->). eapply users_ok_same_name; [done|exact Hu|done|done|]. apply with_login_ok. by eapply (proj1 Hok).
  - destruct He as (u & Hn & Hname & ->). destruct (newUser_ok _ _ _ _ _ _ _ _ _ _ Hd Hn) as [Hu Hid].
    eapply (users_ok_insert us (buildUserNameIndex us)); [done|by apply buildUserNameIndex_exact|done|by apply Hf|].
    destruct (buildUserNameIndex us !! name_key u) as [v|] eqn:Ev; [|done]. apply (buildUserNameIndex_exact us Hok) in Ev as [Hv Hkey]. by destruct (Hname _ _ Hv).
  - destruct He as (existing & u & Hu & Hc & Hname & ->). destruct (proj1 Hok _ _ Hu) as [Hid Huok].
    destruct (checkUpdate_ok _ _ _ _ _ Huok Hid Hc) as (Hv & Hvid & _). by eapply users_ok_replace.
  - destruct He as (existing & u & Hu & Hc & ->). destruct (checkPatch_ok us existing patch now u) as (Hv & Hid & Hname & _); [by eapply (proj1 Hok)|done|].
    by eapply users_ok_same_name.
  - destruct He as (u & hash & Hu & Hh & _ & _ & ->). eapply users_ok_same_name; [done|exact Hu|done|done|].
    apply with_password_ok; [by eapply (proj1 Hok)|]. by destruct (hashPassword_ok _ _ _ Hh) as (_ & ? & _).
  - destruct He as (u & hash & Hu & Hh & ->). eapply users_ok_same_name; [done|exact Hu|done|done|].
    apply with_password_ok; [by eapply (proj1 Hok)|]. by destruct (hashPassword_ok _ _ _ Hh) as (_ & ? & _).
  - destruct He as (u & _ & _ & ->). by apply users_ok_delete.
Qed.

Lemma effect_some_admin o us us' : effect o us us' -> fresh_id o us -> draws_of o -> users_ok us -> some_admin us -> some_admin us'.
Proof.
  intros He Hf Hd Hok Hs. destruct o as [username password now|username password email role options salt random created now|user now|id patch now|
    id oldPassword newPassword salt now|id newPassword must salt now|id]; cbn [effect fresh_id draws_of] in *.
  - destruct He as (u & Hu & _ & _ & _ & ->). eapply some_admin_insert; [exact Hu|by apply same_admin|done].
  - destruct He as (u & Hn & Hname & ->). destruct (newUser_ok _ _ _ _ _ _ _ _ _ _ Hd Hn) as [_ Hid]. destruct Hs as (i & v & Hv & Ha).
    exists i, v. split; [|done]. rewrite lookup_insert_ne; [done|]. intros <-. by rewrite (Hf _ Hid) in Hv.
  - destruct He as (existing & u & Hu & Hc & _ & ->). destruct (proj1 Hok _ _ Hu) as [Hid Huok].
    destruct (checkUpdate_ok _ _ _ _ _ Huok Hid Hc) as (_ & _ & Hl). by eapply some_admin_insert.
  - destruct He as (existing & u & Hu & Hc & ->). destruct (checkPatch_ok us existing patch now u) as (_ & _ & _ & Hl); [by eapply (proj1 Hok)|done|].
    by eapply some_admin_insert.
  - destruct He as (u & hash & Hu & _ & _ & _ & ->). eapply some_admin_insert; [exact Hu|by apply same_admin|done].
  - destruct He as (u & hash & Hu & _ & ->). eapply some_admin_insert; [exact Hu|by apply same_admin|done].
  - destruct He as (u & Hu & Hc & ->). apply admin_count_some. apply admin_count_some in Hs. rewrite (admin_count_delete _ _ _ Hu) in Hs, Hc.
    destruct (isEnabledAdmin u) eqn:Ea; [|lia]. unfold isEnabledAdmin in Ea. b2p. specialize (Hc ltac:(done)). lia.
Qed.
End Spec.
End UserSpec.
