(* ===== verification/UserAtomic.v ===== *)
(** * The account store and its file

    Every operation, under any sequence of failures of the file system and wherever the machine crashes or
    the process is killed: when it returns, the memory and the users file agree, and both have been changed
    as [UserSpec] says or not at all; when it does not, the file is that of one of the two. *)

From Stdlib Require Import Ascii.
From S2P Require Import Prelude GoStrings GoPath GoRunes Paths Users FileMonad UserFields AuthFiles UsersFile UserStore UserSpec.
Import UserFields AuthFiles UsersFile UserStore UserSpec.

Module UserAtomic.
Section Atomic.
Context {codec : UserCodec} {bcrypt : Bcrypt}.

(** A reply without its value. *)
Definition discard {A} (p : prog (UserStore * reply A)) : prog (UserStore * reply unit) :=
  run! (s, r) := p in
  ret (s, match r with Done _ => Done tt | Warned _ => Warned tt | Failed e => Failed e end).

(** The call of an operation. *)
Definition run (o : op) (s : UserStore) (names : source) : prog (UserStore * reply unit) :=
  match o with
  | OpAuthenticate username password now => discard (Authenticate s username password now names)
  | OpCreate username password email role options salt random created now =>
      discard (CreateWithOptions s username password email role options salt random created now names)
  | OpUpdate user now => Update s user now names
  | OpPatch id patch now => discard (Patch s id patch now names)
  | OpChangePassword id oldPassword newPassword salt now => ChangePassword s id oldPassword newPassword salt now names
  | OpResetPassword id newPassword mustChangePassword salt now => resetPassword s id newPassword mustChangePassword salt now names
  | OpDelete id => Delete s id names
  end.

(** The memory is in order. *)
Definition store_ok (s : UserStore) : Prop := users_ok (users s) /\ index_exact (users s) (byName s).

(** The users file holds these accounts: it was written for them, or they were loaded from it. *)
Definition saved (us : gmap string User) (m : gmap string string) : Prop := exists text,
  (serializeUsers us = Some text \/ exists byName, loadText text = Ok (us, byName)) /\ m !! usersFile = Some text.

(** What holds after a crash: the old accounts or the new ones. *)
Definition crashed (us : gmap string User) (E : gmap string User -> Prop) (d : dir) : Prop :=
  exists m, files m d /\ exists us', (us' = us \/ E us') /\ saved us' m.

(** What holds when an operation on [s] returns: it failed and [s] is as it was, or [s] was changed as [E] says
    and has the next version. *)
Definition settled {A} (s : UserStore) (E : gmap string User -> Prop) (s' : UserStore) (r : reply A) (d : dir) : Prop :=
  (exists m, files m d /\ saved (users s') m) /\ store_ok s' /\
  match r with
  | Failed _ => s' = s
  | Done _ | Warned _ => E (users s') /\ version s' = uint64 (version s + 1)
  end.

(** ... and when an attempt returns: it does not ask to be repeated. *)
Definition attempted {A} (s : UserStore) (E : gmap string User -> Prop) (out : outcome A) (d : dir) : Prop :=
  match out with
  | (s', _, Some r) => settled s E s' r d
  | (_, _, None) => False
  end.

Lemma snapshot_index s : store_ok s -> snap_byName (snapshotState s) = byName s.
Proof. intros [Hok Hx]. eapply index_unique; [by apply buildUserNameIndex_exact|done]. Qed.

Lemma retry_once {A} s names P (attempt : UserStore -> bool -> source -> prog (outcome A)) E C :
  always P (attempt s false names) (attempted s E) C ->
  always P (retry 1 s false names attempt) (fun '(s', r) => settled s E s' r) C.
Proof.
  intros H. cbn [retry]. eapply always_bind; [exact H|]. intros [[s' warned] [r|]]; [by apply always_ret|]. by apply always_ret.
Qed.

Lemma always_discard {A} s P E (p : prog (UserStore * reply A)) C :
  always P p (fun '(s', r) => settled s E s' r) C -> always P (discard p) (fun '(s', r) => settled s E s' r) C.
Proof. intros H. eapply always_bind; [exact H|]. intros [s' r]. apply always_ret. intros d Hd. by destruct r. Qed.

(** ** The index *)

Lemma index_replace us byName id u v : users_ok us -> index_exact us byName -> us !! id = Some u -> ID v = id ->
  (forall i w, us !! i = Some w -> name_key w = name_key v -> i = id) ->
  index_exact (<[id := v]> us) (<[name_key v := v]> (delete (name_key u) byName)).
Proof.
  intros Hok Hx Hu Hid Hname n w. destruct (proj1 Hok id u Hu) as [Huid _]. rewrite lookup_insert_Some, lookup_delete_Some, (Hx n w), lookup_insert_Some. split.
  - intros [[<- <-]|(Hne & Hold & Hw & <-)]; [by split; [left|]|]. split; [|done]. right. split; [|done]. intros He. apply Hold. congruence.
  - intros [[[He <-]|[Hne Hw]] <-]; [by left|]. right. split; [intros He; apply Hne; symmetry; by apply (Hname _ _ Hw)|]. split; [|done].
    intros He. apply Hne. by apply (proj2 Hok _ _ _ _ Hu Hw).
Qed.

Lemma index_same_name us byName id u v : users_ok us -> index_exact us byName -> us !! id = Some u -> ID v = id -> Username v = Username u ->
  index_exact (<[id := v]> us) (<[name_key v := v]> byName).
Proof.
  intros Hok Hx Hu Hid Hname. assert (Hkey : name_key v = name_key u) by (unfold name_key; by rewrite Hname).
  rewrite <-(insert_delete_eq byName), Hkey, <-Hkey at 1. replace (delete (name_key v) byName) with (delete (name_key u) byName) by (by rewrite Hkey).
  eapply index_replace; [done..|].
  intros i w Hw Hk. apply (proj2 Hok i id w u Hw Hu). congruence.
Qed.

Lemma index_delete us byName id u : users_ok us -> index_exact us byName -> us !! id = Some u -> index_exact (delete id us) (delete (name_key u) byName).
Proof.
  intros Hok Hx Hu n w. rewrite !lookup_delete_Some, (Hx n w). destruct (proj1 Hok id u Hu) as [Huid _]. split.
  - intros (Hne & Hw & <-). split_and!; [|done|done]. intros He. apply Hne. congruence.
  - intros [[Hne Hw] <-]. split_and!; [|done|done]. intros He. apply Hne. by apply (proj2 Hok _ _ _ _ Hu Hw).
Qed.

Section Attempt.
(** An attempt on the store [s], whose files hold [m]. *)
Variables (s : UserStore) (m : gmap string string) (E : gmap string User -> Prop).
Hypothesis (Hok : store_ok s) (Hsaved : saved (users s) m).

Lemma files_crashed d : files m d -> crashed (users s) E d.
Proof. intros Hd. exists m. split; [done|]. exists (users s). by split; [left|]. Qed.

(** The file of the initial password does not matter for the accounts. *)
Lemma password_crashed d : files (delete passwordFile m) d -> crashed (users s) E d.
Proof.
  intros Hd. exists (delete passwordFile m). split; [done|]. exists (users s). split; [by left|].
  destruct Hsaved as (text & Ht & Hm). exists text. split; [done|]. by rewrite lookup_delete_ne.
Qed.

Lemma always_stop {A} warned (e : AuthError) m' : (forall d, files m' d -> exists m'', files m'' d /\ saved (users s) m'') ->
  always (files m') (stop s warned (Failed e)) (attempted (A := A) s E) (crashed (users s) E).
Proof. intros Hm'. apply always_ret. intros d Hd. split_and!; [by apply Hm'|done|done]. Qed.

(** Writing the snapshot and finishing. *)
Lemma always_finish {A} warned snapshot names (value : A) (failed : AuthError -> prog (outcome A)) m' :
  snap_version snapshot = version s -> E (snap_users snapshot) -> users_ok (snap_users snapshot) ->
  index_exact (snap_users snapshot) (snap_byName snapshot) -> saved (users s) m' ->
  (forall e, always (files m') (failed e) (attempted s E) (crashed (users s) E)) ->
  always (files m') (run! saved := saveUserState (snap_users snapshot) names in finish s warned snapshot saved value failed)
    (attempted s E) (crashed (users s) E).
Proof.
  intros Hv HE Hus Hx Hs Hf. unfold saveUserState. destruct (serializeUsers (snap_users snapshot)) as [text|] eqn:Et.
  - eapply always_bind.
    + eapply always_weaken; [apply always_write; [by left|done]|done|intros r d H; exact H|]. intros d [Hd|Hd].
      * exists m'. split; [done|]. exists (users s). by split; [left|].
      * exists (<[usersFile := text]> m'). split; [done|]. exists (snap_users snapshot). split; [by right|].
        exists text. rewrite lookup_insert_eq. by split; [left|].
    + assert (Hc : commitSnapshot s snapshot = ({| users := snap_users snapshot; byName := snap_byName snapshot; version := uint64 (version s + 1) |}, true)).
      { unfold commitSnapshot. by rewrite Hv, Z.eqb_refl. }
      assert (Hset : forall d, files (<[usersFile := text]> m') d -> exists m, files m d /\ saved (snap_users snapshot) m).
      { intros d Hd. exists (<[usersFile := text]> m'). split; [done|]. exists text. rewrite lookup_insert_eq. by split; [left|]. }
      intros r. destruct r as [| |e]; cbn [finish]; rewrite ?Hc; [| |apply Hf]; apply always_ret; intros d Hd; (split; [by apply Hset|]); (split; [by split|]); by destruct warned.
  - eapply always_bind; [by apply always_ret with (Q := fun r d => r = NotWritten ErrIO /\ files m' d)|].
    intros r. apply always_pure. intros ->. apply Hf.
Qed.

Lemma always_inspect username : always (files m) (readInitialPasswordFileForUser username)
  (fun r d => files m d /\ match r with Ok (content, true) => m !! passwordFile = Some content | _ => True end) (files m).
Proof.
  eapply always_bind; [apply always_read_limited, stored_password|]. intros [v|e]; apply always_ret.
  - intros d [Hd Hv]. split; [done|]. destruct v as [c|]; [|done]. by destruct (names_user c username).
  - by intros d [Hd _].
Qed.

(** The accounts as they are, whatever became of the file of the initial password. *)
Definition unchanged (d : dir) : Prop := exists m, files m d /\ saved (users s) m.

Lemma unchanged_files d : files m d -> unchanged d.
Proof. intros Hd. by exists m. Qed.

Lemma unchanged_crashed d : unchanged d -> crashed (users s) E d.
Proof. intros (m' & Hd & Hs). exists m'. split; [done|]. exists (users s). by split; [left|]. Qed.

Lemma always_remove_password username : always (files m) (removeInitialPasswordFileForUser username)
  (fun _ => unchanged) unchanged.
Proof.
  assert (Hdel : forall d, files (delete passwordFile m) d -> unchanged d).
  { intros d Hd. exists (delete passwordFile m). split; [done|]. destruct Hsaved as (text & Ht & Hm). exists text. split; [done|]. by rewrite lookup_delete_ne. }
  eapply always_bind.
  { eapply always_weaken; [apply always_inspect|done|intros r d [H _]; exact H|apply unchanged_files]. }
  intros [[content [|]]|e]; cbn [negb]; [|by apply always_ret; apply unchanged_files|by apply always_ret; apply unchanged_files].
  eapply always_bind.
  { eapply always_weaken; [apply always_remove, stored_password|done|intros r d H; exact H|]. intros d [Hd|Hd]; [by apply unchanged_files|by apply Hdel]. }
  intros [_|e]; [|by apply always_ret; apply unchanged_files].
  apply (always_bind _ _ _ (fun _ => unchanged)); [|by intros r; apply always_ret].
  eapply always_weaken; [apply (always_same (delete passwordFile m)); by intros|done|intros r; apply Hdel|apply Hdel].
Qed.

Lemma always_unchanged {A} (c : prog A) Q C :
  (forall m', saved (users s) m' -> always (files m') c Q C) -> always unchanged c Q C.
Proof. intros H w (m' & Hd & Hs). by apply (H m' Hs). Qed.

Lemma always_restore r names : always unchanged (restore r names) (fun _ => unchanged) unchanged.
Proof.
  unfold restore. destruct (negb (removed r)); [by apply always_ret|]. apply always_unchanged. intros m' Hs.
  assert (Hput : forall d, files (<[passwordFile := content r]> m') d -> unchanged d).
  { intros d Hd. eexists. split; [exact Hd|]. destruct Hs as (text & Ht & Hm). exists text. split; [done|]. by rewrite lookup_insert_ne. }
  assert (Hsame : forall d, files m' d -> unchanged d) by (intros d Hd; by exists m').
  apply (always_bind _ _ _ (fun _ => unchanged)); [|by intros x; apply always_ret].
  eapply always_weaken; [apply always_write; [apply stored_password|done]|done| |by intros d [Hd|Hd]; auto].
  intros x d Hd. destruct x; auto.
Qed.

Lemma always_stop_unchanged {A} warned (e : AuthError) : always unchanged (stop s warned (Failed e)) (attempted (A := A) s E) (crashed (users s) E).
Proof. apply always_ret. intros d Hd. by split_and!. Qed.
End Attempt.

(** ** The operations *)

Section Operations.
Variables (s : UserStore) (m : gmap string string).
Hypothesis (Hok : store_ok s) (Hsaved : saved (users s) m).

Notation atomically o p := (always (files m) p (attempted s (effect o (users s))) (crashed (users s) (effect o (users s)))).

Ltac finish_up := lazymatch goal with |- context [finish _ _ ?sn] => apply always_finish with (snapshot := sn) end; try done.
Ltac refuse := eapply always_stop; [done|intros d Hd; by exists m].

(** Writing a changed copy of an account under its name. *)
Lemma put_finish {A} o id u v m' warned names (value : A) failed :
  users s !! id = Some u -> ID v = id -> Username v = Username u -> user_ok v -> effect o (users s) (<[id := v]> (users s)) -> saved (users s) m' ->
  (forall e, always (files m') (failed e) (attempted s (effect o (users s))) (crashed (users s) (effect o (users s)))) ->
  let snapshot := put (snapshotState s) id (normalizeUsername (Username v)) v in
  always (files m') (run! saved := saveUserState (snap_users snapshot) names in finish s warned snapshot saved value failed)
    (attempted s (effect o (users s))) (crashed (users s) (effect o (users s))).
Proof.
  intros Hu Hid Hname Hv HE Hs Hf snapshot. pose proof Hok as [Hus Hx]. finish_up.
  - cbn. destruct (proj1 Hus id u Hu) as [He _]. by eapply users_ok_same_name; [done|exact Hu|congruence|done|done].
  - unfold snapshot. cbn [put snap_users snap_byName]. rewrite snapshot_index by done. by eapply index_same_name.
Qed.

Lemma authenticate_atomic username password now warned names :
  atomically (OpAuthenticate username password now) (authenticateOnce username password now s warned names).
Proof.
  unfold authenticateOnce. rewrite snapshot_index by done. destruct (byName s !! normalizeUsername username) as [u|] eqn:Eu; [|refuse].
  pose proof Hok as [Hus Hx]. apply Hx in Eu as [Hu Hkey]. destruct (Disabled u) eqn:Ed; [refuse|].
  destruct (CompareHashAndPassword (PasswordHash u) password) eqn:Ec; cbn [negb]; [|refuse]. cbv zeta. rewrite <-Hkey.
  apply (put_finish _ (ID u) u (with_login u now)); try done.
  - apply with_login_ok. by destruct (proj1 Hus _ _ Hu).
  - by exists u.
  - intros e. refuse.
Qed.

Lemma create_atomic username password email role options salt random created now u warned names :
  newUser username password email role options salt random created now = Ok u -> user_ok u -> users s !! ID u = None ->
  atomically (OpCreate username password email role options salt random created now) (createOnce u s warned names).
Proof.
  intros Hn Hu Hid. unfold createOnce. rewrite snapshot_index by done. pose proof Hok as [Hus Hx].
  destruct (byName s !! normalizeUsername (Username u)) as [v|] eqn:Ev; [refuse|]. cbv zeta.
  destruct (users_ok_insert (users s) (byName s) u) as [Hus' Hx']; try done. finish_up.
  - exists u. split_and!; [done| |done]. intros id v Hv He. destruct (proj1 Hus id v Hv) as [<- _].
    pose proof (proj2 (Hx (name_key u) v) (conj Hv He)) as H. unfold name_key in H. congruence.
  - cbn [put snap_users snap_byName]. by rewrite snapshot_index.
  - intros e. refuse.
Qed.

Lemma update_atomic user now warned names : atomically (OpUpdate user now) (updateOnce user now s warned names).
Proof.
  unfold updateOnce. cbv zeta. cbn [snapshotState snap_users]. rewrite snapshot_index by done. pose proof Hok as [Hus Hx].
  destruct (users s !! ID user) as [existing|] eqn:Eu; [|refuse]. destruct (checkUpdate (users s) existing user now) as [u|e] eqn:Ec; [|refuse].
  destruct (proj1 Hus _ _ Eu) as [Hid Huok]. destruct (checkUpdate_ok _ _ _ _ _ Huok Hid Ec) as (Hv & Hvid & _).
  apply (always_bind _ _ _ (fun _ => files m)).
  { unfold checkRename. destruct (String.eqb _ _); [by apply always_ret|]. apply (always_bind _ _ _ (fun _ => files m)).
    - eapply always_weaken; [by apply always_inspect|done|by intros r d []|]. intros d Hd. by apply (files_crashed s m).
    - intros [[c b]|e]; by apply always_ret. }
  intros [_|e]; [|refuse]. destruct (match byName s !! _ with Some _ => _ | None => _ end) eqn:Eother; [refuse|].
  assert (Hname : forall i w, users s !! i = Some w -> name_key w = name_key u -> i = ID user).
  { intros i w Hw He. destruct (proj1 Hus i w Hw) as [<- _]. fold (name_key u) in Eother. rewrite (proj2 (Hx _ w) (conj Hw He)) in Eother. by b2p. }
  finish_up.
  - by exists existing, u.
  - cbn. by eapply users_ok_replace.
  - cbn. by eapply index_replace.
  - intros e. refuse.
Qed.

Lemma patch_atomic id patch now warned names : atomically (OpPatch id patch now) (patchOnce id patch now s warned names).
Proof.
  unfold patchOnce. cbv zeta. cbn [snapshotState snap_users]. pose proof Hok as [Hus Hx].
  destruct (users s !! id) as [existing|] eqn:Eu; [|refuse]. destruct (checkPatch (users s) existing patch now) as [u|e] eqn:Ec; [|refuse].
  destruct (proj1 Hus _ _ Eu) as [Hid Huok]. destruct (checkPatch_ok (users s) existing patch now u) as (Hv & Hvid & Hname & _); [done|done|].
  apply (put_finish _ id existing u); try done; [congruence|by exists existing, u|]. intros e. refuse.
Qed.

Lemma replace_atomic o id u hash must now warned names :
  users s !! id = Some u -> Cost hash = true -> effect o (users s) (<[id := with_password u hash must now]> (users s)) ->
  atomically o (replacePassword id u hash must now (snapshotState s) s warned names).
Proof.
  intros Hu Hh HE. unfold replacePassword. pose proof Hok as [Hus Hx]. destruct (proj1 Hus _ _ Hu) as [Hid Huok].
  apply (always_bind _ _ _ (fun _ => unchanged s)).
  { eapply always_weaken; [by apply (always_remove_password s m)|done|done|apply unchanged_crashed]. }
  intros [[removal synced]|e]; [|apply always_stop_unchanged; done]. apply always_unchanged. intros m' Hs'. cbv zeta.
  apply (put_finish o id u (with_password u hash must now)); try done; [by apply with_password_ok|]. intros e.
  apply (always_bind _ _ _ (fun _ => unchanged s)); [|intros _; by apply always_stop_unchanged].
  eapply always_weaken; [apply always_restore|intros d Hd; by exists m'|done|apply unchanged_crashed].
Qed.

Lemma change_atomic id oldPassword newPassword salt hash now warned names : hashPassword salt newPassword = Ok hash ->
  atomically (OpChangePassword id oldPassword newPassword salt now) (changePasswordOnce id oldPassword newPassword hash now s warned names).
Proof.
  intros Hh. unfold changePasswordOnce. cbv zeta. cbn [snapshotState snap_users]. destruct (users s !! id) as [u|] eqn:Eu; [|refuse].
  destruct (CompareHashAndPassword _ oldPassword) eqn:E1; cbn [negb]; [|refuse]. destruct (CompareHashAndPassword _ newPassword) eqn:E2; [refuse|].
  destruct (hashPassword_ok _ _ _ Hh) as (_ & Hc & _). apply replace_atomic; [done|done|]. by exists u, hash.
Qed.

Lemma reset_atomic id newPassword must salt hash now warned names : hashPassword salt newPassword = Ok hash ->
  atomically (OpResetPassword id newPassword must salt now) (resetPasswordOnce id hash must now s warned names).
Proof.
  intros Hh. unfold resetPasswordOnce. cbv zeta. cbn [snapshotState snap_users]. destruct (users s !! id) as [u|] eqn:Eu; [|refuse].
  destruct (hashPassword_ok _ _ _ Hh) as (_ & Hc & _). apply replace_atomic; [done|done|]. by exists u, hash.
Qed.

Lemma delete_atomic id warned names : atomically (OpDelete id) (deleteOnce id s warned names).
Proof.
  unfold deleteOnce. cbv zeta. cbn [snapshotState snap_users]. rewrite snapshot_index by done. pose proof Hok as [Hus Hx].
  destruct (users s !! id) as [u|] eqn:Eu; [|refuse]. destruct (_ && _) eqn:Ea; [refuse|].
  apply (always_bind _ _ _ (fun _ => unchanged s)).
  { eapply always_weaken; [by apply (always_remove_password s m)|done|done|apply unchanged_crashed]. }
  assert (Hrestore : forall removal e, always (unchanged s) (run! _ := restore removal (names 1%nat) in stop s warned (Failed e))
    (attempted (A := unit) s (effect (OpDelete id) (users s))) (crashed (users s) (effect (OpDelete id) (users s)))).
  { intros removal e. apply (always_bind _ _ _ (fun _ => unchanged s)); [|intros _; by apply always_stop_unchanged].
    eapply always_weaken; [apply always_restore|done|done|apply unchanged_crashed]. }
  intros [[removal [|]]|e]; [|apply Hrestore|apply always_stop_unchanged; done]. apply always_unchanged. intros m' Hs'.
  finish_up.
  - exists u. split_and!; [done| |done]. intros Hr. rewrite Hr in Ea. cbn in Ea. by b2p.
  - cbn. by apply users_ok_delete.
  - cbn. by apply index_delete.
  - intros e. eapply always_weaken; [apply Hrestore|intros d Hd; by exists m'|done|done].
Qed.
End Operations.

Lemma run_atomic o s m names : store_ok s -> saved (users s) m -> fresh_id o (users s) -> draws_of o ->
  always (files m) (run o s names) (fun '(s', r) => settled s (effect o (users s)) s' r) (crashed (users s) (effect o (users s))).
Proof.
  intros Hok Hs Hf Hd.
  assert (Hfail : forall A e, always (files m) (ret (s, Failed e) : prog (UserStore * reply A)) (fun '(s', r) => settled s (effect o (users s)) s' r) (crashed (users s) (effect o (users s)))).
  { intros A e. apply always_ret. intros d Hm. split; [by exists m|]. by split. }
  destruct o as [username password now|username password email role options salt random created now|user now|id patch now|
    id oldPassword newPassword salt now|id newPassword must salt now|id]; cbn [run fresh_id draws_of] in *.
  - apply always_discard, retry_once. by apply authenticate_atomic.
  - apply always_discard. unfold CreateWithOptions. destruct (newUser _ _ _ _ _ _ _ _ _) as [u|e] eqn:En; [|apply Hfail].
    destruct (newUser_ok _ _ _ _ _ _ _ _ _ _ Hd En) as [Hu Hid]. apply retry_once. apply create_atomic; [done|done|done|done|by apply Hf].
  - apply retry_once. by apply update_atomic.
  - apply always_discard, retry_once. by apply patch_atomic.
  - unfold ChangePassword. destruct (hashPassword salt newPassword) as [hash|e] eqn:Eh; [|apply Hfail]. apply retry_once. by apply change_atomic.
  - unfold resetPassword. destruct (hashPassword salt newPassword) as [hash|e] eqn:Eh; [|apply Hfail]. apply retry_once. by apply reset_atomic.
  - apply retry_once. by apply delete_atomic.
Qed.
End Atomic.
End UserAtomic.

(** ** What programs return

    What holds of the result of a program whenever it returns, whatever the files hold and whatever fails; and the
    errors of the account store: a change that fails is never reported as a mere persistence warning. *)
Import UserFields AuthFiles UsersFile UserStore UserSpec UserAtomic.

Module Returns.

Definition returns {D A} (c : program D A) (P : A -> Prop) : Prop := forall w w' a, c w = (w', Some a) -> P a.

Section Rules.
Context {D : Type}.

Lemma returned_ret {A} (a : A) (P : A -> Prop) : P a -> returns (ret (D := D) a) P.
Proof. by intros H w w' b [= _ <-]. Qed.
Lemma bind_returned {A B} (c : program D A) (k : A -> program D B) w w' b :
  bind c k w = (w', Some b) -> exists w1 a, c w = (w1, Some a) /\ k a w1 = (w', Some b).
Proof. unfold bind. destruct (c w) as [w1 [a|]]; [|done]. intros H. by exists w1, a. Qed.
Lemma returned_bind {A B} (c : program D A) (k : A -> program D B) (P : A -> Prop) Q :
  returns c P -> (forall a, P a -> returns (k a) Q) -> returns (bind c k) Q.
Proof. intros Hc Hk w w' b (w1 & a & H1 & H2)%bind_returned. by eapply Hk; [eapply Hc|]. Qed.
Lemma returned_any {A} (c : program D A) : returns c (fun _ => True).
Proof. done. Qed.
Lemma returns_then {A B} (c : program D A) (k : A -> program D B) Q : (forall a, returns (k a) Q) -> returns (bind c k) Q.
Proof. intros H. by eapply returned_bind; [apply returned_any|]. Qed.
Lemma returns_weaken {A} (c : program D A) (P Q : A -> Prop) : returns c P -> (forall a, P a -> Q a) -> returns c Q.
Proof. intros H HPQ w w' a Hr. by eapply HPQ, H. Qed.
Lemma returns_and {A} (c : program D A) (P Q : A -> Prop) : returns c P -> returns c Q -> returns c (fun a => P a /\ Q a).
Proof. intros HP HQ w w' a Hr. split; [by eapply HP|by eapply HQ]. Qed.
End Rules.

(** Steps through a program: what it calls is arbitrary, what it returns is checked. *)
Ltac walk :=
  repeat first
    [ solve [apply returned_ret; cbn; done]
    | apply returns_then; intros ?
    | match goal with |- returns (match ?x with _ => _ end) _ => destruct x end ].

(** ** Errors of the account store *)

Definition other_error {A} (r : result AuthError A) : Prop := r <> Err ErrPersistenceWarning.
Definition other_write (r : write) : Prop := r <> NotWritten ErrPersistenceWarning.

Lemma validate_error name : returns (validateAuthFilePath name) other_error.
Proof. unfold validateAuthFilePath. walk; apply returned_ret; by repeat case_match. Qed.
Lemma open_error name : returns (open_and_read name) other_error.
Proof. unfold open_and_read. walk; apply returned_ret; by repeat case_match. Qed.
Lemma temp_error attempts pattern : forall random, returns (tryTempNames attempts pattern random) other_error.
Proof.
  induction attempts as [|n IH]; intros random; cbn [tryTempNames]; [by apply returned_ret|]. unfold newAuthTempName. destruct (random 0%nat); [|by apply returned_ret].
  destruct (Cut _ _) as [[? ?] ?]. apply returns_then. intros [|[]]; [by apply returned_ret|by apply returned_ret|apply IH|by apply returned_ret].
Qed.
Lemma abandon_error tmpName : returns (abandon tmpName) other_write.
Proof.
  unfold abandon. eapply returned_bind with (P := fun e => e = ErrIO); [unfold cleanupAuthTempPath; apply returns_then; intros ?; by apply returned_ret|].
  intros e ->. apply returns_then. intros ?. by apply returned_ret.
Qed.
Lemma write_error name data pattern random : returns (writeAuthFileAtomicallyWithRoot name data pattern random) other_write.
Proof.
  unfold writeAuthFileAtomicallyWithRoot. eapply returned_bind; [apply validate_error|]. intros [|e] He; [|apply returned_ret; intros [= ->]; by apply He].
  eapply returned_bind; [apply temp_error|]. intros [tmpName|e'] He'; [|apply returned_ret; intros [= ->]; by apply He']. clear.
  repeat first [apply abandon_error | apply returns_then; intros ? | match goal with |- returns (match ?x with _ => _ end) _ => destruct x end].
  apply returned_ret. by case_match.
Qed.
Lemma read_error name limit : returns (readRegisteredAuthFileLimited name limit) other_error.
Proof.
  unfold readRegisteredAuthFileLimited. eapply returned_bind; [apply validate_error|]. intros [|e] He; [|apply returned_ret; intros [= ->]; by apply He].
  eapply returned_bind; [apply open_error|]. intros r Hr. apply returned_ret. by repeat case_match.
Qed.
Lemma remove_error name : returns (removeRegisteredAuthFile name) other_error.
Proof.
  unfold removeRegisteredAuthFile. eapply returned_bind; [apply validate_error|]. intros [|e] He; [|apply returned_ret; intros [= ->]; by apply He].
  apply returns_then. intros ?. apply returned_ret. by repeat case_match.
Qed.

Section Store.
Context {codec : UserCodec} {bcrypt : Bcrypt}.

Lemma remove_password_error username : returns (removeInitialPasswordFileForUser username) other_error.
Proof.
  unfold removeInitialPasswordFileForUser. eapply returned_bind with (P := other_error).
  - unfold readInitialPasswordFileForUser. eapply returned_bind; [apply read_error|]. intros [|e] He; apply returned_ret; [by case_match|]. intros [= ->]. by apply He.
  - intros [[content matched]|e] He; [|apply returned_ret; intros [= ->]; by apply He]. destruct (negb matched); [by apply returned_ret|].
    eapply returned_bind; [apply remove_error|]. intros [|e] He'; [|apply returned_ret; intros [= ->]; by apply He']. apply returns_then. intros ?. by apply returned_ret.
Qed.

Lemma save_error us names : returns (saveUserState us names) other_write.
Proof. unfold saveUserState. destruct (serializeUsers us); [apply write_error|by apply returned_ret]. Qed.

(** An attempt that ends: it does not fail with a warning. *)
Definition ends_well {A} (out : outcome A) : Prop := match out with (_, _, Some (Failed e)) => e <> ErrPersistenceWarning | _ => True end.

Lemma finish_error {A} s warned snapshot names (value : A) failed : snap_version snapshot = version s -> (forall e, e <> ErrPersistenceWarning -> returns (failed e) ends_well) ->
  returns (run! saved := saveUserState (snap_users snapshot) names in finish s warned snapshot saved value failed) ends_well.
Proof.
  intros Hv Hf. eapply returned_bind; [apply save_error|].
  assert (Hc : exists s', commitSnapshot s snapshot = (s', true)) by (unfold commitSnapshot; rewrite Hv, Z.eqb_refl; by eexists). destruct Hc as [s' Hc].
  intros [| |e] He; cbn [finish]; rewrite ?Hc; [apply returned_ret; by destruct warned|by apply returned_ret|]. apply Hf. intros ->. by apply He.
Qed.

Lemma replace_error id user hash must now s warned names : returns (replacePassword id user hash must now (snapshotState s) s warned names) ends_well.
Proof.
  unfold replacePassword. eapply returned_bind; [apply remove_password_error|]. intros [[removal synced]|e] He; [|apply returned_ret; cbn; intros ->; by apply He].
  cbv zeta. apply finish_error; [done|]. intros e Hne. apply returns_then. intros ?. by apply returned_ret.
Qed.

Lemma retry_error {A} s names (attempt : UserStore -> bool -> source -> prog (outcome A)) : returns (attempt s false names) ends_well ->
  returns (retry 1 s false names attempt) (fun '(_, r) => r <> Failed ErrPersistenceWarning).
Proof.
  intros H. cbn [retry]. eapply returned_bind; [exact H|]. intros [[s' warned] [r|]] Hr; apply returned_ret; [|done]. cbn in Hr. destruct r; try done. congruence.
Qed.

Lemma hash_error salt newPassword : hashPassword salt newPassword <> Err ErrPersistenceWarning.
Proof.
  unfold hashPassword, validateNewPassword. destruct (_ || _); [done|]. destruct (_ <? _); [done|]. by destruct (GenerateFromPassword salt newPassword).
Qed.

(** Changing and resetting passwords, and deleting and disabling accounts. *)
Lemma change_error s id oldPassword newPassword salt now names :
  returns (ChangePassword s id oldPassword newPassword salt now names) (fun '(_, r) => r <> Failed ErrPersistenceWarning).
Proof.
  unfold ChangePassword. pose proof (hash_error salt newPassword) as Hh. destruct (hashPassword salt newPassword) as [hash|e]; [|apply returned_ret; intros [= ->]; by apply Hh].
  apply retry_error. unfold changePasswordOnce. cbv zeta. cbn [snapshotState snap_users]. destruct (users s !! id) as [user|]; [|by apply returned_ret]. destruct (negb _); [by apply returned_ret|].
  destruct (CompareHashAndPassword _ _); [by apply returned_ret|]. apply replace_error.
Qed.
Lemma reset_error s id newPassword must salt now names : returns (resetPassword s id newPassword must salt now names) (fun '(_, r) => r <> Failed ErrPersistenceWarning).
Proof.
  unfold resetPassword. pose proof (hash_error salt newPassword) as Hh. destruct (hashPassword salt newPassword) as [hash|e]; [|apply returned_ret; intros [= ->]; by apply Hh].
  apply retry_error. unfold resetPasswordOnce. cbv zeta. cbn [snapshotState snap_users]. destruct (users s !! id) as [user|]; [|by apply returned_ret]. apply replace_error.
Qed.
Lemma delete_error s id names : returns (Delete s id names) (fun '(_, r) => r <> Failed ErrPersistenceWarning).
Proof.
  apply retry_error. unfold deleteOnce. cbv zeta. destruct (_ !! id); [|by apply returned_ret]. destruct (_ && _); [by apply returned_ret|].
  eapply returned_bind; [apply remove_password_error|]. intros [[removal [|]]|e] He; [|apply returns_then; intros ?; by apply returned_ret|apply returned_ret; cbn; intros ->; by apply He].
  lazymatch goal with |- context [finish _ _ ?snapshot] => apply (finish_error s false snapshot) end; [done|]. intros e Hne. apply returns_then. intros ?. by apply returned_ret.
Qed.
Lemma group_name_error group : normalizeGroupName group <> Err ErrPersistenceWarning.
Proof. unfold normalizeGroupName. destruct (_ || _); [done|]. by destruct (forallb _ _). Qed.
Lemma groups_error seen normalized l : collectGroups seen normalized l <> Err ErrPersistenceWarning.
Proof.
  revert seen normalized. induction l as [|g l IH]; intros seen normalized; cbn [collectGroups]; [done|].
  pose proof (group_name_error g). destruct (normalizeGroupName g); [|congruence]. destruct (bool_decide _); apply IH.
Qed.
Lemma check_patch_error us u patch now : checkPatch us u patch now <> Err ErrPersistenceWarning.
Proof.
  unfold checkPatch. cbv zeta. intros H.
  assert (Hg : forall l, normalizeGroupNames l <> Err ErrPersistenceWarning).
  { intros [|g l]; [done|]. cbn [normalizeGroupNames]. pose proof (groups_error ∅ [] (g :: l)). destruct (collectGroups ∅ [] (g :: l)); congruence. }
  revert H. unfold validateRole. destruct (_ || _); [|done]. specialize (Hg (default (Groups u) (PatchGroups patch))). destruct (normalizeGroupNames _); [|congruence].
  assert (Hh : forall home, normalizeHomeDir home <> Err ErrPersistenceWarning).
  { intros home. unfold normalizeHomeDir. destruct (has_control _); [done|]. destruct (String.eqb _ _); [done|]. destruct (existsb _ _); [done|]. by destruct (_ && _). }
  specialize (Hh (default (HomeDir u) (PatchHomeDir patch))). destruct (normalizeHomeDir _); [|congruence]. destruct (losesLastAdmin _ _ _); [done|].
  unfold validateRoleHomeDir. destruct (_ && _); [done|]. by destruct (_ <? _).
Qed.
Lemma patch_error s id patch now names : returns (Patch s id patch now names) (fun '(_, r) => r <> Failed ErrPersistenceWarning).
Proof.
  apply retry_error. unfold patchOnce. cbv zeta. cbn [snapshotState snap_users]. destruct (users s !! id) as [u|]; [|by apply returned_ret].
  pose proof (check_patch_error (users s) u patch now) as Hc. destruct (checkPatch (users s) u patch now) as [v|e]; [|apply returned_ret; cbn; intros ->; by apply Hc].
  lazymatch goal with |- context [finish _ _ ?snapshot] => apply (finish_error s false snapshot) end; [done|]. intros e Hne. by apply returned_ret.
Qed.
End Store.
End Returns.
