(* ===== verification/UserStart.v ===== *)
(** * The start of the account store

    [NewUserStore]: the name, the password and the file of the administrator that is created when none is
    enabled. *)

From Stdlib Require Import Ascii.
From stdpp Require Import pretty.
From S2P Require Import Prelude GoStrings GoPath GoRunes Paths Users FileMonad UserFields AuthFiles UsersFile UserStore UserSpec UserAtomic.
Import UserFields AuthFiles UsersFile UserStore UserSpec UserAtomic.

Module UserStart.

(** ** Names of the form admin-recovery-N *)

Definition digit_byte (c : ascii) : bool := byte_in 48 57 c.

Lemma list_ascii_append s t : String.list_ascii_of_string (s +:+ t) = String.list_ascii_of_string s ++ String.list_ascii_of_string t.
Proof. induction s as [|c s IH]; [done|]. cbn. by rewrite IH. Qed.

Lemma pretty_char_digit x : digit_byte (pretty_N_char x) = true.
Proof. unfold pretty_N_char. repeat case_match; done. Qed.

Lemma pretty_go_digits (k : nat) : forall x s, (x < 10 ^ N.of_nat k)%N -> exists ds,
  pretty_N_go x s = ds +:+ s /\ forallb digit_byte (String.list_ascii_of_string ds) = true /\ (String.length ds <= k)%nat.
Proof.
  induction k as [|k IH]; intros x s Hx.
  - exists EmptyString. assert (x = 0%N) as -> by (cbn in Hx; lia). done.
  - destruct (decide (0 < x)%N) as [Hp|Hp]; [|exists EmptyString; assert (x = 0%N) as -> by lia; split_and!; [done|done|cbn; lia]].
    rewrite pretty_N_go_step by done. destruct (IH (x `div` 10)%N (String (pretty_N_char (x mod 10)) s)) as (ds & E & Hd & Hl).
    { apply N.Div0.div_lt_upper_bound. rewrite Nat2N.inj_succ, N.pow_succ_r' in Hx. lia. }
    exists (ds +:+ String (pretty_N_char (x mod 10)) EmptyString). split_and!.
    + rewrite E, sapp_assoc. done.
    + rewrite list_ascii_append, forallb_app, Hd. cbn. by rewrite pretty_char_digit.
    + rewrite sapp_length. cbn. lia.
Qed.

Lemma pretty_digits n : (n < 10 ^ 18)%N -> forallb digit_byte (String.list_ascii_of_string (pretty n)) = true /\ (String.length (pretty n) <= 18)%nat.
Proof.
  intros Hn. unfold pretty, pretty_N. case_decide; [by split; [|cbn; lia]|].
  destruct (pretty_go_digits 18 n EmptyString) as (ds & E & Hd & Hl); [exact Hn|]. rewrite E, sapp_nil_r. done.
Qed.

Lemma lower_app a b : normalizeUsername (a +:+ b) = normalizeUsername a +:+ normalizeUsername b.
Proof. induction a as [|c a IH]; [done|]. cbn. by rewrite IH. Qed.

Lemma lower_digits s : forallb digit_byte (String.list_ascii_of_string s) = true -> normalizeUsername s = s.
Proof.
  induction s as [|c s IH]; [done|]. cbn. intros H. apply andb_true_iff in H as [Hc Hs]. rewrite IH by done. f_equal.
  unfold digit_byte, byte_in in Hc. unfold lower_byte, byte_in. apply andb_true_iff in Hc as [_ Hc]. apply N.leb_le in Hc.
  by assert ((65 <=? N_of_ascii c)%N = false) as -> by (apply N.leb_gt; lia).
Qed.

Lemma recoveryName_key n : (n < 10 ^ 18)%N -> normalizeUsername (recoveryName n) = recoveryPrefix +:+ "-" +:+ pretty n.
Proof. intros Hn. unfold recoveryName. rewrite !lower_app, (lower_digits (pretty n)) by (by apply pretty_digits). done. Qed.

(** A name of letters, digits, dots, dashes and underscores is a user name. *)
Lemma plain_username s : forallb group_byte (String.list_ascii_of_string s) = true -> s <> EmptyString -> s <> "." -> s <> ".." -> len s <= 255 ->
  normalizeNewUsername s = Ok s.
Proof.
  intros Hb H0 H1 H2 Hl. assert (Hsafe : forall c, implb (group_byte c) (negb (IsControl (N_of_ascii c)) && negb (IsSpace (N_of_ascii c)) && negb (Ascii.eqb c slash) && negb (Ascii.eqb c backslash)) = true).
  { apply all_bytes. vm_compute. reflexivity. }
  assert (Hall : forall c, In c (String.list_ascii_of_string s) -> IsControl (N_of_ascii c) = false /\ IsSpace (N_of_ascii c) = false /\ c <> slash /\ c <> backslash).
  { intros c Hc. rewrite List.forallb_forall in Hb. pose proof (Hsafe c) as Hs. rewrite (Hb c Hc) in Hs. cbn [implb] in Hs.
    repeat (apply andb_true_iff in Hs as [Hs ?]). repeat match goal with H : negb _ = true |- _ => apply negb_true_iff in H end.
    split_and!; [done|done|by apply Ascii.eqb_neq|by apply Ascii.eqb_neq]. }
  pose proof (group_bytes_runes s Hb) as Hr.
  assert (Ht : TrimSpace s = s).
  { apply no_space_trimmed. rewrite Hr. apply List.forallb_forall. intros [r b] Hin. apply List.in_map_iff in Hin as (c & [= <- <-] & Hc).
    by destruct (Hall c Hc) as (_ & -> & _). }
  assert (Hc : has_control s = false).
  { unfold has_control. rewrite Hr. apply existsb_false, Forall_forall. intros [r b] Hin. apply list_elem_of_In, List.in_map_iff in Hin as (c & [= <- <-] & Hc).
    by destruct (Hall c Hc) as (-> & _). }
  assert (Hnc : forall x, x = slash \/ x = backslash -> contains_byte x s = false).
  { intros x Hx. destruct (contains_byte x s) eqn:E; [|done]. apply contains_byte_iff, list_elem_of_In in E. destruct (Hall x E) as (_ & _ & ? & ?). naive_solver. }
  unfold normalizeNewUsername. rewrite Ht. cbv zeta. rewrite (proj2 (String.eqb_neq _ _) H0), (proj2 (String.eqb_neq _ _) H1), (proj2 (String.eqb_neq _ _) H2).
  rewrite group_bytes_count by done. unfold maxUsernameRuneCount. destruct (Z.ltb_spec 255 (len s)); [lia|].
  unfold contains_any. cbn [String.list_ascii_of_string existsb]. rewrite !Hnc by auto. by rewrite Hc.
Qed.

Lemma digits_plain s : forallb digit_byte (String.list_ascii_of_string s) = true -> forallb group_byte (String.list_ascii_of_string s) = true.
Proof.
  intros H. apply List.forallb_forall. intros c Hc. rewrite List.forallb_forall in H. specialize (H c Hc).
  assert (Hd : forall c, implb (digit_byte c) (group_byte c) = true) by (apply all_bytes; vm_compute; reflexivity).
  specialize (Hd c). rewrite H in Hd. exact Hd.
Qed.

Lemma recoveryName_ok n : (n < 10 ^ 18)%N -> normalizeNewUsername (recoveryName n) = Ok (recoveryName n).
Proof.
  intros Hn. destruct (pretty_digits n Hn) as [Hd Hl]. apply plain_username; try done.
  - unfold recoveryName. rewrite !list_ascii_append, !forallb_app, (digits_plain (pretty n)) by done. done.
  - unfold recoveryName, len. rewrite !sapp_length. cbn [String.length recoveryPrefix]. lia.
Qed.

(** ** The name is found *)

Lemma freeName_some fuel : forall byName candidate suffix name,
  freeName fuel byName candidate suffix = Some name ->
  byName !! normalizeUsername name = None /\ (name = candidate \/ exists n, name = recoveryName n /\ (suffix <= n < suffix + N.of_nat fuel)%N).
Proof.
  induction fuel as [|fuel IH]; intros byName candidate suffix name H; [done|]. cbn [freeName] in H. case_bool_decide as Hs.
  - destruct (IH _ _ _ _ H) as [Hfree [->|(n & -> & Hn)]]; (split; [done|right]); eexists; (split; [done|lia]).
  - injection H as <-. split; [by apply eq_None_not_Some|by left].
Qed.

(** The keys that are tried. *)
Fixpoint tried (fuel : nat) (candidate : string) (suffix : N) : list string :=
  match fuel with O => [] | S fuel' => normalizeUsername candidate :: tried fuel' (recoveryName suffix) (suffix + 1)%N end.

Lemma freeName_none fuel : forall byName candidate suffix,
  freeName fuel byName candidate suffix = None -> Forall (fun key => is_Some (byName !! key)) (tried fuel candidate suffix).
Proof.
  induction fuel as [|fuel IH]; intros byName candidate suffix H; [constructor|]. cbn [freeName] in H. case_bool_decide as Hs; [|done].
  constructor; [done|]. by apply IH.
Qed.

Lemma tried_later fuel : forall suffix key, key ∈ tried fuel (recoveryName suffix) (suffix + 1)%N ->
  exists n, key = normalizeUsername (recoveryName n) /\ (suffix <= n < suffix + N.of_nat fuel)%N.
Proof.
  induction fuel as [|fuel IH]; intros suffix key H; [by apply elem_of_nil in H|]. cbn [tried] in H. apply elem_of_cons in H as [->|H].
  - exists suffix. split; [done|lia].
  - destruct (IH _ _ H) as (n & -> & Hn). exists n. split; [done|lia].
Qed.

Lemma recoveryName_inj n m : (n < 10 ^ 18)%N -> (m < 10 ^ 18)%N -> normalizeUsername (recoveryName n) = normalizeUsername (recoveryName m) -> n = m.
Proof. intros Hn Hm. rewrite !recoveryName_key by done. intros H. apply sapp_inj_l, sapp_inj_l in H. by apply (inj pretty) in H. Qed.

Lemma tried_NoDup fuel : forall suffix, (suffix + N.of_nat fuel < 10 ^ 18)%N -> NoDup (tried fuel (recoveryName suffix) (suffix + 1)%N).
Proof.
  induction fuel as [|fuel IH]; intros suffix Hs; [constructor|]. cbn [tried]. constructor; [|apply IH; lia].
  intros (n & E & Hn)%tried_later. apply recoveryName_inj in E; lia.
Qed.


Lemma tried_length fuel : forall candidate suffix, length (tried fuel candidate suffix) = fuel.
Proof. induction fuel as [|fuel IH]; intros candidate suffix; [done|]. cbn. by rewrite IH. Qed.

(** The loop over the suffixes ends: it tries more names than there are accounts. *)
Lemma bootstrap_found (byName : gmap string User) : (N.of_nat (size byName) < 10 ^ 17)%N -> exists name,
  bootstrapAdminUsername byName = Some name /\ byName !! normalizeUsername name = None /\ normalizeNewUsername name = Ok name.
Proof.
  intros Hsize. assert (Hlt : (10 ^ 17 + 100 < 10 ^ 18)%N) by (vm_compute; reflexivity).
  unfold bootstrapAdminUsername. destruct (bool_decide (byName !! normalizeUsername "admin" = None)) eqn:Ha.
  { exists "admin". split; [done|]. split; [by apply bool_decide_eq_true in Ha|]. vm_compute. reflexivity. }
  destruct (freeName (S (size byName)) byName recoveryPrefix 2) as [name|] eqn:E.
  - exists name. destruct (freeName_some _ _ _ _ _ E) as [Hf [->|(n & -> & Hn)]]; (split; [done|]); (split; [done|]); [vm_compute; reflexivity|]. apply recoveryName_ok. lia.
  - exfalso. apply freeName_none in E. set (keys := tried _ _ _) in E.
    assert (Hnd : NoDup keys).
    { unfold keys. cbn [tried]. constructor; [|apply tried_NoDup; lia]. intros (n & Hk & Hn)%tried_later. rewrite recoveryName_key in Hk by lia.
      apply (f_equal String.length) in Hk. cbn in Hk. lia. }
    assert (Hsub : keys ⊆+ elements (dom byName)).
    { apply NoDup_submseteq; [done|]. intros key Hkey. rewrite Forall_forall in E. apply elem_of_elements, elem_of_dom. by apply E. }
    apply submseteq_length in Hsub. unfold keys in Hsub. rewrite tried_length in Hsub. change (length (elements (dom byName))) with (size (dom byName)) in Hsub.
    rewrite size_dom in Hsub. lia.
Qed.

(** ** The password *)

Definition accepted (b : ascii) : bool := negb (maxRandomByte <=? Z.of_N (N_of_ascii b)).
Definition in_charset (c : ascii) : bool := contains_byte c charset.

(** Every character of the set comes from exactly three of the bytes that are accepted. *)
Lemma char_of_uniform : forallb (fun c => Nat.eqb (length (List.filter (fun n => accepted (ascii_of_nat n) && Ascii.eqb (char_of (ascii_of_nat n)) c) (seq 0 256))) 3)
  (String.list_ascii_of_string charset) = true.
Proof. vm_compute. reflexivity. Qed.

Lemma char_of_charset b : implb (accepted b) (in_charset (char_of b)) = true.
Proof. revert b. apply all_bytes. vm_compute. reflexivity. Qed.

Lemma drawChar_ok reads c reads' : drawChar reads = Ok (c, reads') -> in_charset c = true.
Proof.
  induction reads as [|[b|] reads IH]; [done| |done]. cbn [drawChar]. pose proof (char_of_charset b) as Hb. unfold accepted in Hb.
  destruct (maxRandomByte <=? _); [done|]. by intros [= <- <-].
Qed.

Lemma generateRandomPassword_ok length : forall reads password, generateRandomPassword length reads = Ok password ->
  String.length password = length /\ forallb in_charset (String.list_ascii_of_string password) = true.
Proof.
  induction length as [|length IH]; intros reads password H; cbn [generateRandomPassword] in H; [by injection H as <-|].
  destruct (drawChar reads) as [[c reads']|] eqn:Ec; [|done]. destruct (generateRandomPassword length reads') as [p|] eqn:Ep; [|done].
  injection H as <-. destruct (IH _ _ Ep) as [Hl Hf]. cbn [String.length String.list_ascii_of_string forallb]. rewrite Hl, Hf. by rewrite (drawChar_ok _ _ _ Ec).
Qed.

(** ** The file names the administrator *)

Lemma Split_line c w s : contains_byte c w = false -> Split c (w +:+ String c EmptyString +:+ s) = w :: Split c s.
Proof. intros H. exact (Split_app c w s H). Qed.

Lemma normalized_facts name : normalizeNewUsername name = Ok name ->
  name <> EmptyString /\ TrimSpace name = name /\ has_control name = false.
Proof.
  unfold normalizeNewUsername. cbv zeta. intros H. repeat case_in H. injection H as H. rewrite H in *. b2p. by split_and!.
Qed.

Lemma passwordContent_names name password : normalizeNewUsername name = Ok name -> names_user (passwordContent name password) name = true.
Proof.
  intros (Hne & Ht & Hc)%normalized_facts. unfold names_user, passwordContent. cbn [Join].
  assert (Hn : contains_byte newline ("Username: " +:+ name) = false).
  { rewrite contains_byte_app. destruct (contains_byte newline name) eqn:E; [|done]. exfalso.
    apply ascii_in_runes in E as [b Hb]; [|done]. unfold has_control in Hc. apply existsb_false in Hc. rewrite Forall_forall in Hc.
    specialize (Hc _ (proj2 (list_elem_of_In _ _) Hb)). done. }
  rewrite !(Split_line newline) by done. cbn [existsb].
  rewrite (TrimSpace_label "Username: " name), String.eqb_refl by done. by rewrite !orb_true_r.
Qed.

(** ** Creating the administrator *)

Section Start.
Context {codec : UserCodec} {bcrypt : Bcrypt}.

(** What the users file says when the store starts. *)
Definition loaded_from (m : gmap string string) : result AuthError (gmap string User * gmap string User) :=
  match m !! usersFile with None => Ok (∅, ∅) | Some text => loadText text end.

Lemma loaded_from_ok m us byName : loaded_from m = Ok (us, byName) -> users_ok us /\ index_exact us byName.
Proof.
  destruct users_ok_empty as [He Hx]. unfold loaded_from. destruct (m !! usersFile) as [text|]; [|by intros [= <- <-]].
  unfold loadText. destruct (decodePersistedUserStore text) as [l|]; [|done]. intros H. by eapply loadUsers_ok.
Qed.

(** The random source gives an ID that is not in use; there are not more accounts than names of eighteen digits. *)
Definition seeds_fresh (seeds : Seeds) (us : gmap string User) : Prop :=
  draws (seed_id seeds) /\ (forall id, generateID (seed_id seeds) = Ok id -> us !! id = None) /\ (N.of_nat (size us) < 10 ^ 17)%N.

(** The administrator of a new store: enabled, with the password that is in the file of the initial password
    and has to be changed. *)
Definition bootstrapped (us us' : gmap string User) (password : string) (m' : gmap string string) : Prop :=
  exists admin, us' = <[ID admin := admin]> us /\ us !! ID admin = None /\ isEnabledAdmin admin = true /\ MustChangePassword admin = true /\
    CompareHashAndPassword (PasswordHash admin) password = true /\ String.length password = 16%nat /\
    exists content, m' !! passwordFile = Some content /\ names_user content (Username admin) = true.

Lemma index_size us byName : users_ok us -> index_exact us byName -> (size byName <= size us)%nat.
Proof.
  intros [Hk Hn] Hx. rewrite <-(length_map_to_list byName), <-(length_map_to_list us), <-(length_fmap snd (map_to_list byName)), <-(length_fmap snd (map_to_list us)).
  apply submseteq_length, NoDup_submseteq.
  - apply NoDup_fmap_2_strong; [|apply NoDup_map_to_list]. intros [n1 u1] [n2 u2] H1 H2 He. cbn in He. subst u2.
    apply elem_of_map_to_list, Hx in H1 as [_ <-]. by apply elem_of_map_to_list, Hx in H2 as [_ <-].
  - intros u (n & Hu)%in_users. apply Hx in Hu as [Hu _]. apply in_users. by exists (ID u).
Qed.

Lemma admin_ok id username hash created now : id <> EmptyString -> normalizeNewUsername username = Ok username -> Cost hash = true ->
  user_ok (defaultAdmin id username hash created now).
Proof.
  intros Hi Hn Hc. split_and!; try done; [|by repeat constructor]. split_and!; [apply canonical_root|done|done].
Qed.

(** What holds when [createDefaultAdmin] returns, and after a crash in it. *)
Definition created (m : gmap string string) (us : gmap string User) (out : UserStore * reply string) (d : dir) : Prop :=
  exists m', files m' d /\ let '(s', r) := out in
  match r with
  | Done password | Warned password => store_ok s' /\ saved (users s') m' /\ bootstrapped us (users s') password m'
  | Failed _ => m' !! usersFile = m !! usersFile
  end.
Definition start_crashed (m : gmap string string) (us : gmap string User) (d : dir) : Prop :=
  exists m', files m' d /\ (m' !! usersFile = m !! usersFile \/ exists us' password, saved us' m' /\ bootstrapped us us' password m').

Lemma start_crashed_old m us m' d : m' !! usersFile = m !! usersFile -> files m' d -> start_crashed m us d.
Proof. intros He Hd. exists m'. by split; [|left]. Qed.

(** The end of [createDefaultAdmin]: saving the accounts with the administrator [admin]. *)
Lemma save_admin_atomic m us s' content password failed names (warned : bool) :
  store_ok s' -> m !! passwordFile = Some content -> (forall m', m' !! passwordFile = Some content -> bootstrapped us (users s') password m') ->
  (forall e, always (files m) (failed e) (created m us) (start_crashed m us)) ->
  always (files m)
    (run! saved := saveUserState (users s') names in
     match saved with
     | Written => ret (s', if warned then Warned password else Done password)
     | WrittenUnsynced => ret (s', Warned password)
     | NotWritten e => failed e
     end) (created m us) (start_crashed m us).
Proof.
  intros Hok Hm Hb Hf. unfold saveUserState. destruct (serializeUsers (users s')) as [text|] eqn:Et.
  - set (m2 := <[usersFile := text]> m). assert (Hs2 : saved (users s') m2) by (exists text; unfold m2; rewrite lookup_insert_eq; by split; [left|]).
    assert (Hb2 : bootstrapped us (users s') password m2) by (apply Hb; unfold m2; by rewrite lookup_insert_ne).
    eapply always_bind.
    + eapply always_weaken; [apply always_write; [by left|done]|done|intros r d H; exact H|].
      intros d [Hd|Hd]; [by eapply start_crashed_old|]. exists m2. split; [done|right]. by exists (users s'), password.
    + intros [| |e]; [| |by apply Hf]; apply always_ret; intros d Hd; exists m2; (split; [done|]); by destruct warned.
  - eapply always_bind; [by apply always_ret with (Q := fun r d => r = NotWritten ErrIO /\ files m d)|].
    intros r. apply always_pure. intros ->. apply Hf.
Qed.

Lemma create_default_atomic s m seeds names : store_ok s -> seeds_fresh seeds (users s) ->
  always (files m) (createDefaultAdmin s seeds names) (created m (users s)) (start_crashed m (users s)).
Proof.
  intros [Hus Hx] (Hd & Hfresh & Hsize). unfold createDefaultAdmin.
  assert (Hfail : forall s e, always (files m) (ret (s, Failed e)) (created m (users s)) (start_crashed m (users s))).
  { intros s' e. apply always_ret. intros d Hm. by exists m. }
  destruct (generateRandomPassword 16 (seed_reads seeds)) as [password|] eqn:Ep; [|apply Hfail].
  destruct (generateID (seed_id seeds)) as [id|] eqn:Eid; [|apply Hfail].
  destruct (bootstrap_found (byName s)) as (name & En & Hfree & Hname); [pose proof (index_size _ _ Hus Hx); lia|].
  rewrite En. destruct (GenerateFromPassword (seed_salt seeds) password) as [hash|] eqn:Eh; [|apply Hfail]. cbv zeta.
  set (admin := defaultAdmin id name hash (seed_created seeds) (seed_now seeds)). set (content := passwordContent name password).
  set (m1 := <[passwordFile := content]> m).
  assert (Hu : user_ok admin).
  { apply admin_ok; [|done|by eapply generated_cost]. unfold generateID in Eid. destruct (seed_id seeds) as [b|]; [|done]. injection Eid as <-.
    intros He. apply Hd. by rewrite (EncodeToString_empty b He). }
  destruct (users_ok_insert (users s) (byName s) admin) as [Hus' Hx']; [done|done|done|by apply Hfresh|done|].
  assert (Hb : forall m', m' !! passwordFile = Some content -> bootstrapped (users s) (<[id := admin]> (users s)) password m').
  { intros m' Hm'. exists admin. destruct (generateRandomPassword_ok _ _ _ Ep) as [Hl _]. split_and!; [done|by apply Hfresh|done|done|by eapply generated_compare|done|].
    exists content. split; [done|]. by apply passwordContent_names. }
  assert (Hold : forall m' : gmap string string, m' !! usersFile = m1 !! usersFile -> m' !! usersFile = m !! usersFile) by (intros m' ->; unfold m1; by rewrite lookup_insert_ne).
  eapply always_bind.
  { eapply always_weaken; [apply always_write; [apply stored_password|done]|done|intros r d H; exact H|]. intros d [Hm|Hm]; (eapply start_crashed_old; [|exact Hm]); [done|by apply Hold]. }
  intros written. cbn [ID admin defaultAdmin Username].
  assert (Hrest : forall warned : bool, always (files m1) (run! saved := saveUserState (<[id := admin]> (users s)) (names 1%nat) in
      match saved with
      | Written => ret ({| users := <[id := admin]> (users s); byName := <[normalizeUsername name := admin]> (byName s); version := version s |}, if warned then Warned password else Done password)
      | WrittenUnsynced => ret ({| users := <[id := admin]> (users s); byName := <[normalizeUsername name := admin]> (byName s); version := version s |}, Warned password)
      | NotWritten e => run! _ := removeRegisteredAuthFile passwordFile in
          ret ({| users := delete id (<[id := admin]> (users s)); byName := delete (normalizeUsername name) (<[normalizeUsername name := admin]> (byName s)); version := version s |}, Failed e)
      end) (created m (users s)) (start_crashed m (users s))).
  { intros warned. eapply always_weaken.
    - pose proof (save_admin_atomic m1 (users s) {| users := <[id := admin]> (users s); byName := <[normalizeUsername name := admin]> (byName s); version := version s |} content password
        (fun e => run! _ := removeRegisteredAuthFile passwordFile in
          ret ({| users := delete id (<[id := admin]> (users s)); byName := delete (normalizeUsername name) (<[normalizeUsername name := admin]> (byName s)); version := version s |}, Failed e)) (names 1%nat) warned) as H. cbn [users] in H. refine (H _ _ _ _); clear H;
        [done|by apply lookup_insert_eq|done|].
      intros e. apply (always_bind _ _ _ (fun _ d => exists m', files m' d /\ m' !! usersFile = m1 !! usersFile)).
      + eapply always_weaken; [apply always_remove, stored_password|done| |].
        * intros [[]|e'] d Hd'; eexists; (split; [exact Hd'|]); [|done]. by rewrite lookup_delete_ne.
        * intros d [Hd'|Hd']; (eapply start_crashed_old; [|exact Hd']); [done|by rewrite lookup_delete_ne].
      + intros r. apply always_ret. intros d (m' & Hd' & He). by exists m'.
    - done.
    - intros [s' [p|p|e]] d (m' & Hd' & Hr); exists m'; (split; [done|]); [done|done|by apply Hold].
    - intros d (m' & Hd' & [He|He]); exists m'; (split; [done|]); [left; by apply Hold|by right]. }
  destruct written as [| |e]; [apply (Hrest false)|apply (Hrest true)|apply Hfail].
Qed.

(** [NewUserStore]: the accounts that the file has, or these and a new administrator. *)
Definition started (m : gmap string string) (r : reply (UserStore * string)) (d : dir) : Prop :=
  exists m', files m' d /\
  match r with
  | Failed _ => m' !! usersFile = m !! usersFile
  | Done (s, password) | Warned (s, password) => store_ok s /\ saved (users s) m' /\ exists us byName', loaded_from m = Ok (us, byName') /\
      ((password = EmptyString /\ m' = m /\ users s = us /\ some_admin us) \/ (~ some_admin us /\ bootstrapped us (users s) password m'))
  end.
Definition start_crash (m : gmap string string) (d : dir) : Prop :=
  exists m', files m' d /\ (m' !! usersFile = m !! usersFile \/
    exists us byName' us' password, loaded_from m = Ok (us, byName') /\ ~ some_admin us /\ saved us' m' /\ bootstrapped us us' password m').

Lemma start_atomic m seeds names : (forall us byName', loaded_from m = Ok (us, byName') -> seeds_fresh seeds us) ->
  always (files m) (NewUserStore seeds names) (started m) (start_crash m).
Proof.
  intros Hseeds. assert (Hold : forall d, files m d -> start_crash m d) by (intros d Hd; exists m; by split; [|left]).
  apply (always_bind _ _ _ (fun r d => files m d /\ match r with Ok v => loaded_from m = Ok v | Err _ => True end)).
  { unfold load. eapply always_bind; [eapply always_weaken; [apply always_read; by left|done|intros r d H; exact H|done]|].
    intros [data|e]; apply always_ret; intros d [Hd Hr]; (split; [done|]); [|done]. subst data. unfold loaded_from. destruct (m !! usersFile) as [text|]; [|done].
    by destruct (loadText text). }
  intros [[us byName']|e]; [|apply always_ret; intros d [Hd _]; by exists m].
  eapply always_weaken; [|intros d [Hd Hr]; exact (conj Hr Hd)|intros r d H; exact H|intros d H; exact H]. apply always_pure. intros Hl.
  destruct (loaded_from_ok _ _ _ Hl) as [Hus Hx]. cbn [users]. destruct (hasEnabledAdmin us) eqn:Ea; cbn [negb].
  { apply always_ret. intros d Hd. apply hasEnabledAdmin_iff in Ea. exists m. split; [done|]. split; [by split|]. split; [|exists us, byName'; split; [done|]; by left].
    unfold loaded_from in Hl. destruct (m !! usersFile) as [text|] eqn:Em; [exists text; split; [right; by exists byName'|done]|].
    injection Hl as <- <-. destruct Ea as (i & u & Hu & _). by rewrite lookup_empty in Hu. }
  assert (Hna : ~ some_admin us) by (rewrite <-hasEnabledAdmin_iff; congruence).
  eapply always_bind.
  - eapply always_weaken; [apply (create_default_atomic {| users := us; byName := byName'; version := 0 |} m); [by split|by eapply Hseeds]|done|intros r d H; exact H|].
    intros d (m' & Hd & [He|(us' & p & Hs & Hb)]); exists m'; (split; [done|]); [by left|right]. exists us, byName', us', p. by split_and!.
  - intros [s' r]. apply always_ret. intros d (m' & Hd & Hr). exists m'. split; [done|]. destruct r as [p|p|e]; [| |done];
      destruct Hr as (Hok & Hs & Hb); (split; [done|]); (split; [done|]); exists us, byName'; (split; [done|]); right; by split.
Qed.

Lemma bootstrapped_admin us us' password m : bootstrapped us us' password m -> some_admin us'.
Proof. intros (admin & -> & _ & Ha & _). exists (ID admin), admin. by rewrite lookup_insert_eq. Qed.
End Start.
End UserStart.
