(* ===== verification/UserInstances.v ===== *)
(** * Instances of what the account store relies on

    A codec of accounts and a password hash that can be run: they show that the laws of [UserCodec] and
    [Bcrypt] can hold, and the examples of UserProps are evaluated with them.  They are neither JSON nor
    bcrypt: a text is the binary code of the accounts, a hash is the password itself after a letter. *)

From Stdlib Require Import Ascii.
From stdpp Require Import countable.
From S2P Require Import Prelude GoStrings GoPath Users UserQuotaHistory UserFields AuthFiles UsersFile.
Import UserQuotaHistory UserFields AuthFiles UsersFile.

Module UserInstances.

#[export] Instance user_countable : Countable User.
Proof.
  refine (inj_countable'
    (fun u => ((((ID u, Username u), (Email u, PasswordHash u)), ((UserRole u, Groups u), (Disabled u, CreatedAt u))),
               (((UpdatedAt u, LastLoginAt u), (MustChangePassword u, PasswordChangedAt u)), ((CredentialVersion u, HomeDir u), (QuotaBytes u, UsedBytes u)))))
    (fun '((((a, b), (c, d)), ((e, f), (g, h))), (((i, j), (k, l)), ((m, n), (o, p)))) =>
      {| ID := a; Username := b; Email := c; PasswordHash := d; UserRole := e; Groups := f; Disabled := g; CreatedAt := h; UpdatedAt := i;
         LastLoginAt := j; MustChangePassword := k; PasswordChangedAt := l; CredentialVersion := m; HomeDir := n; QuotaBytes := o; UsedBytes := p |}) _).
  by intros [].
Defined.

Definition encode_fields (u : User) : json :=
  JObject [("must_change_password", JOther EmptyString); ("credential_version", JInt (CredentialVersion u)); ("user", JOther (bits (encode u)))].
Definition decode_fields (j : json) : option User :=
  match j with
  | JObject fields => match field "user" fields with Some (JOther text) => decode (of_bits text) | _ => None end
  | _ => None
  end.

#[export] Instance bit_codec : UserCodec.
Proof.
  refine {| parse := fun text => match decode (of_bits text) with
              | Some us => Some (JObject [("schema_version", JInt 1); ("users", JArray (encode_fields <$> us))])
              | None => None
              end;
            decode_user := decode_fields; encode_user := encode_fields; MarshalIndent := fun us => Some (bits (encode us)) |}.
  - intros us text [= <-] _. by rewrite of_bits_bits, decode_encode.
  - intros u _. cbn. by rewrite of_bits_bits, decode_encode.
  - intros u. eexists. split; [reflexivity|]. split; eexists; reflexivity.
Defined.

#[export] Instance plain_hash : Bcrypt.
Proof.
  refine {| GenerateFromPassword := fun salt password => Some ("h" +:+ password);
            CompareHashAndPassword := fun hash password => String.eqb hash ("h" +:+ password);
            Cost := fun hash => HasPrefix hash "h" |}.
  - intros salt password hash [= <-]. exact (HasPrefix_app "h" password).
  - intros salt password hash [= <-]. apply String.eqb_refl.
Defined.
End UserInstances.
