(* ===== verification/UserProps.v ===== *)
(** * Properties of the account store *)

From Stdlib Require Import Ascii.
From stdpp Require Import pretty.
From S2P Require Import Prelude GoStrings GoPath GoRunes Paths Users FileMonad UserFields AuthFiles UsersFile UserStore UserSpec UserAtomic UserStart UserInstances.
Import UserFields AuthFiles UsersFile UserStore UserSpec UserAtomic UserStart.

Module UserProps.
Section Props.
Context {codec : UserCodec} {bcrypt : Bcrypt}.

(** C7: Every mutation of the account store is atomic, whatever file operations fail (any number of them,
    writes after a part of their bytes) and wherever the machine crashes or the process is killed: when the
    call returns, the memory is in order and the users file holds exactly the accounts in memory; either the
    call failed and nothing changed, or the accounts changed as the operation promises; when it does not
    return, the file holds the old accounts or the changed ones. *)
Theorem user_store_atomic o s d m script names :
  store_ok s -> files m d -> saved (users s) m -> fresh_id o (users s) -> draws_of o ->
  match run o s names {| io_dir := d; io_script := script |} with
  | (w, Some (s', r)) =>
    (exists m', files m' (io_dir w) /\ saved (users s') m') /\ store_ok s' /\
    match r with
    | Failed _ => s' = s
    | Done _ | Warned _ => effect o (users s) (users s') /\ version s' = uint64 (version s + 1)
    end
  | (w, None) => exists m', files m' (io_dir w) /\ exists us', (us' = users s \/ effect o (users s) us') /\ saved us' m'
  end.
Proof.
  intros Hok Hd Hs Hf Hdr. pose proof (run_atomic o s m names Hok Hs Hf Hdr {| io_dir := d; io_script := script |} Hd) as H.
  destruct (run o s names _) as [w [[s' r]|]]; exact H.
Qed.

(** The states of a store that was opened on a directory with whatever users file, and then used. *)
Inductive reach : UserStore -> dir -> Prop :=
| reach_start m d script seeds names w s password : files m d -> (forall us byName', loaded_from m = Ok (us, byName') -> seeds_fresh seeds us) ->
    (NewUserStore seeds names {| io_dir := d; io_script := script |} = (w, Some (Done (s, password))) \/
     NewUserStore seeds names {| io_dir := d; io_script := script |} = (w, Some (Warned (s, password)))) -> reach s (io_dir w)
| reach_run o s d script names w s' r : reach s d -> fresh_id o (users s) -> draws_of o ->
    run o s names {| io_dir := d; io_script := script |} = (w, Some (s', r)) -> reach s' (io_dir w).

(** C8: In every reachable state of the account store every account is in canonical form (a valid name, role,
    home directory, quota, hash and groups) and stored under its ID, no two names differ at most in the case
    of ASCII letters, the index by name finds exactly the accounts, the users file holds them, and at least
    one administrator is enabled. *)
Theorem user_store_invariant s d : reach s d ->
  users_ok (users s) /\ index_exact (users s) (byName s) /\ (exists m, files m d /\ saved (users s) m) /\
  exists id u, users s !! id = Some u /\ UserRole u = RoleAdmin /\ Disabled u = false.
Proof.
  intros H. assert (Hinv : store_ok s /\ (exists m, files m d /\ saved (users s) m) /\ some_admin (users s)).
  { induction H as [m d script seeds names w s password Hd Hseeds Hnew|o s d script names w s' r _ IH Hf Hdr Hrun].
    - pose proof (start_atomic m seeds names Hseeds {| io_dir := d; io_script := script |} Hd) as H.
      destruct Hnew as [E|E]; rewrite E in H; destruct H as (m' & Hd' & Hok & Hs & us & byName' & _ & Hr);
        (split; [done|]); (split; [by exists m'|]); destruct Hr as [(_ & _ & -> & Ha)|[_ Hb]]; try done; by eapply bootstrapped_admin.
    - destruct IH as (Hok & (m & Hd & Hs) & Ha). pose proof (run_atomic o s m names Hok Hs Hf Hdr {| io_dir := d; io_script := script |} Hd) as H.
      rewrite Hrun in H. destruct H as (Hm & Hok' & Hr). split; [done|]. split; [done|].
      destruct r as [a|a|e]; [| |by rewrite Hr]; destruct Hr as [He _]; eapply effect_some_admin; try done; by destruct Hok. }
  destruct Hinv as ([Hus Hx] & Hm & id & u & Hu & Ha). split_and!; [done..|]. exists id, u. unfold isEnabledAdmin in Ha. b2p. by split_and!.
Qed.

(** Loading without failures. *)
Lemma load_run d f : d !! usersFile = Some f -> f_kind f = Regular0600 ->
  load {| io_dir := d; io_script := [] |} = ({| io_dir := d; io_script := [] |}, Some (loadText (f_bytes f))).
Proof.
  intros Hf Hk. assert (Hr : readAuthFileWithRoot usersFile {| io_dir := d; io_script := [] |} = ({| io_dir := d; io_script := [] |}, Some (Ok (Some (f_bytes f))))).
  { unfold readAuthFileWithRoot, validateAuthFilePath, open_and_read, bind, stat, FileMonad.effect, stat_ok, ret. cbn [io_script io_dir].
    rewrite Hf. unfold dir_or_link, f_regular. rewrite Hk. cbn [io_script io_dir]. by rewrite Hf, Hk. }
  unfold load, bind. by rewrite Hr.
Qed.

(** A store that is started again has the accounts it had: when accounts are in canonical form, can be
    written as JSON, have a home directory that does not end in a space and one of them is an enabled
    administrator, loading the file that was written for them gives the same accounts under the same IDs and
    names, and no administrator is created. *)
Theorem user_store_restart us text m d seeds names :
  users_ok us -> some_admin us -> map_Forall (fun _ => reloadable) us -> serializeUsers us = Some text ->
  files m d -> m !! usersFile = Some text ->
  exists byName', index_exact us byName' /\
    NewUserStore seeds names {| io_dir := d; io_script := [] |} =
      ({| io_dir := d; io_script := [] |}, Some (Done ({| users := us; byName := byName'; version := 0 |}, EmptyString))).
Proof.
  intros Hok Ha Hr Ht Hd Hm. destruct (load_serialized us text Hok Hr Ht) as (byName' & Hx & Hl). exists byName'. split; [done|].
  pose proof (Hd usersFile (or_introl eq_refl)) as Hf. rewrite Hm in Hf. destruct Hf as (f & Hf & Hb & Hs & Hk).
  unfold NewUserStore, bind at 1. rewrite (load_run d f) by done. rewrite Hb, Hl. cbn [users].
  by rewrite (proj2 (hasEnabledAdmin_iff us) Ha).
Qed.

(** ** Credentials *)

(** The account whose credentials an operation replaces, when it does. *)
Definition password_of (o : op) : option string :=
  match o with
  | OpChangePassword id _ _ _ _ | OpResetPassword id _ _ _ _ => Some id
  | _ => None
  end.

Definition same_credentials (u v : User) : Prop :=
  PasswordHash v = PasswordHash u /\ CredentialVersion v = CredentialVersion u /\ MustChangePassword v = MustChangePassword u /\
  PasswordChangedAt v = PasswordChangedAt u.

Lemma effect_credentials o us us' : effect o us us' -> fresh_id o us -> draws_of o -> users_ok us -> forall id u v, us !! id = Some u -> us' !! id = Some v ->
  if decide (password_of o = Some id) then CredentialVersion v = uint64 (CredentialVersion u + 1) /\ is_Some (PasswordChangedAt v) else same_credentials u v.
Proof.
  intros He Hf Hd Hok id u v Hu Hv.
  assert (Hsame : forall i w x, us' = <[i := x]> us -> us !! i = Some w -> same_credentials w x -> same_credentials u v).
  { intros i w x -> Hw Hc. apply lookup_insert_Some in Hv as [[<- <-]|[_ Hv]]; [by replace u with w by congruence|]. by replace v with u by congruence. }
  assert (Hnew : forall i w hash must now, us' = <[i := with_password w hash must now]> us -> us !! i = Some w ->
    if decide (Some i = Some id) then CredentialVersion v = uint64 (CredentialVersion u + 1) /\ is_Some (PasswordChangedAt v) else same_credentials u v).
  { intros i w hash must now -> Hw. case_decide as Hi.
    - injection Hi as ->. rewrite lookup_insert_eq in Hv. injection Hv as <-. replace w with u by congruence. by split; [|eexists].
    - rewrite lookup_insert_ne in Hv by congruence. by replace v with u by congruence. }
  destruct o as [username password now|username password email role options salt random created now|user now|i patch now|
    i oldPassword newPassword salt now|i newPassword must salt now|i]; cbn [effect fresh_id draws_of password_of] in *; try (rewrite decide_False by done).
  - destruct He as (w & Hw & _ & _ & _ & E). by eapply Hsame.
  - destruct He as (w & Hn & _ & ->). destruct (newUser_ok _ _ _ _ _ _ _ _ _ _ Hd Hn) as [_ Hid].
    rewrite lookup_insert_ne in Hv by (intros <-; by rewrite (Hf _ Hid) in Hu). by replace v with u by congruence.
  - destruct He as (w & x & Hw & Hc & _ & E). eapply Hsame; [exact E|exact Hw|]. unfold checkUpdate in Hc. repeat case_in Hc. by injection Hc as <-.
  - destruct He as (w & x & Hw & Hc & E). eapply Hsame; [exact E|exact Hw|]. unfold checkPatch in Hc. cbv zeta in Hc. repeat case_in Hc; by injection Hc as <-.
  - destruct He as (w & hash & Hw & _ & _ & _ & E). by eapply Hnew.
  - destruct He as (w & hash & Hw & _ & E). by eapply Hnew.
  - destruct He as (w & Hw & _ & ->). apply lookup_delete_Some in Hv as [_ Hv]. by replace v with u by congruence.
Qed.

(** The credential version of an account counts the replacements of its password: an operation that
    changes or resets the password of an account raises its version by one (in 64 bits), and no other
    operation changes the hash, the version, the duty to change the password or the time of the last change
    of any account, whatever an administrator puts into the record. *)
Theorem credentials_versioned o s d m script names w s' r id u v :
  store_ok s -> files m d -> saved (users s) m -> fresh_id o (users s) -> draws_of o ->
  run o s names {| io_dir := d; io_script := script |} = (w, Some (s', r)) ->
  users s !! id = Some u -> users s' !! id = Some v ->
  same_credentials u v \/
  (password_of o = Some id /\ CredentialVersion v = uint64 (CredentialVersion u + 1) /\ is_Some (PasswordChangedAt v)).
Proof.
  intros Hok Hd Hs Hf Hdr Hrun Hu Hv. pose proof (run_atomic o s m names Hok Hs Hf Hdr {| io_dir := d; io_script := script |} Hd) as H.
  rewrite Hrun in H. destruct H as (_ & _ & Hr).
  assert (Hc : s' = s \/ effect o (users s) (users s')) by (destruct r; [right|right|left]; tauto). destruct Hc as [->|He].
  - left. by replace v with u by congruence.
  - pose proof (effect_credentials o _ _ He Hf Hdr (proj1 Hok) id u v Hu Hv) as Hc. case_decide; [right|left]; tauto.
Qed.

(** A password that was changed counts: the old password was required and the new one is different, from
    then on the account accepts the new password and no account but this one has changed. *)
Theorem changed_password_counts s d m script names w s' id oldPassword newPassword salt now warned u :
  store_ok s -> files m d -> saved (users s) m ->
  ChangePassword s id oldPassword newPassword salt now names {| io_dir := d; io_script := script |} = (w, Some (s', if warned : bool then Warned tt else Done tt)) ->
  users s !! id = Some u ->
  CompareHashAndPassword (PasswordHash u) oldPassword = true /\ CompareHashAndPassword (PasswordHash u) newPassword = false /\
  8 <= len newPassword <= 72 /\
  exists hash, CompareHashAndPassword hash newPassword = true /\ users s' = <[id := with_password u hash false now]> (users s) /\
    VerifyCredentials s' (Username u) newPassword =
      if Disabled u then Err ErrUserDisabled else Ok (with_password u hash false now).
Proof.
  intros Hok Hd Hs Hrun Hu. set (o := OpChangePassword id oldPassword newPassword salt now).
  pose proof (run_atomic o s m names Hok Hs I I {| io_dir := d; io_script := script |} Hd) as H. cbn [run o] in H. rewrite Hrun in H.
  destruct H as (_ & [Hus Hx] & Hr). assert (He : effect o (users s) (users s')) by (by destruct warned; destruct Hr).
  destruct He as (u' & hash & Hu' & Hh & Hold & Hnew & He). replace u' with u in * by congruence.
  destruct (hashPassword_ok _ _ _ Hh) as (Hv & _ & Hc). unfold validateNewPassword in Hv. repeat case_in Hv.
  unfold minPasswordLength, maxPasswordBytes in *. b2p. split_and!; [done|done|lia|lia|]. exists hash. split_and!; [done|done|].
  set (v := with_password u hash false now) in *. destruct (proj1 (proj1 Hok) id u Hu) as [Hid _].
  assert (Hby : byName s' !! normalizeUsername (Username u) = Some v).
  { apply Hx. split; [|done]. rewrite He. change (ID v) with (ID u). rewrite Hid. apply lookup_insert_eq. }
  unfold VerifyCredentials. rewrite Hby. cbn [v with_password Disabled PasswordHash MustChangePassword]. by rewrite Hc.
Qed.

(** ** The file of the initial password *)

(** No file of the initial password is for this user. *)
Definition no_initial_password (username : string) (d : dir) : Prop :=
  exists m, files m d /\ forall content, m !! passwordFile = Some content -> names_user content username = false.

Lemma always_any {A} (c : prog A) : always (fun _ => True) c (fun _ _ => True) (fun _ => True).
Proof. intros w _. by destruct (c w) as [w' [a|]]. Qed.

(** An attempt that fails, whatever it does before. *)
Lemma always_fails {A B} P (c : prog A) s warned (e : AuthError) username :
  always P (run! _ := c in stop s warned (Failed e))
    (fun (out : outcome B) d => match out with (_, _, Some (Failed _)) | (_, _, None) => True | _ => no_initial_password username d end) (fun _ => True).
Proof.
  eapply always_weaken with (P' := fun _ => True); [|done|intros r d H; exact H|done].
  eapply always_bind; [apply always_any|]. intros a. by apply always_ret.
Qed.

Notation removed_for username := (fun out d => match out with (_, _, Some (Failed _)) | (_, _, None) => True | _ => no_initial_password username d end).

Lemma remove_names m username : always (files m) (removeInitialPasswordFileForUser username)
  (fun r d => match r with Ok _ => no_initial_password username d | Err _ => True end) (fun _ => True).
Proof.
  eapply always_bind with (Q := fun r d => match r with Ok (content, matched) => files m d /\ (matched = false -> forall c, m !! passwordFile = Some c -> names_user c username = false) | Err _ => True end).
  - eapply always_weaken with (C' := files m); [|done|intros r d H; exact H|done].
    eapply always_bind; [apply always_read_limited, stored_password|]. intros [v|e]; apply always_ret; [|done].
    intros d [Hd ->]. destruct (m !! passwordFile) as [c|]; (split; [done|]); [intros Hn c' [= <-]; exact Hn|done].
  - intros [[content [|]]|e]; cbn [negb]; [|apply always_ret; intros d [Hd Hn]; exists m; split; [done|by apply Hn]|by apply always_ret].
    apply (always_bind _ _ _ (fun r d => match r with Ok _ => files (delete passwordFile m) d | Err _ => True end)).
    + eapply always_weaken; [apply always_remove, stored_password|by intros d []|intros [[]|] d Hd; done|done].
    + intros [_|e]; [|by apply always_ret]. apply (always_bind _ _ _ (fun _ => files (delete passwordFile m))).
      * eapply always_weaken; [apply (always_same (delete passwordFile m)); by intros|done|done|done].
      * intros r. apply always_ret. intros d Hd. exists (delete passwordFile m). split; [done|]. intros c. by rewrite lookup_delete_eq.
Qed.

Lemma finish_names {A} s warned snapshot names (value : A) failed username :
  (forall e, always (no_initial_password username) (failed e) (removed_for username) (fun _ => True)) ->
  always (no_initial_password username) (run! saved := saveUserState (snap_users snapshot) names in finish s warned snapshot saved value failed)
    (removed_for username) (fun _ => True).
Proof.
  intros Hf. apply (always_bind _ _ _ (fun _ => no_initial_password username)).
  - intros w (m & Hd & Hn). revert w Hd. change (always (files m) (saveUserState (snap_users snapshot) names) (fun _ => no_initial_password username) (fun _ => True)).
    unfold saveUserState. destruct (serializeUsers _) as [text|]; [|by apply always_ret; intros d Hd; exists m].
    assert (Hsame : forall d, files m d -> no_initial_password username d) by (intros d Hd; by exists m).
    assert (Hput : forall d, files (<[usersFile := text]> m) d -> no_initial_password username d).
    { intros d Hd. eexists. split; [exact Hd|]. intros c. rewrite lookup_insert_ne by done. by apply Hn. }
    eapply always_weaken; [apply always_write; [by left|done]|done| |done]. intros [] d Hd; auto.
  - intros [| |e]; cbn [finish]; [| |apply Hf].
    + destruct (commitSnapshot s snapshot) as [s' []]; apply always_ret; [by destruct warned|done].
    + destruct (commitSnapshot s snapshot) as [s' []]; [by apply always_ret|apply Hf].
Qed.

(** When changing or resetting a password, or deleting an account, succeeds, no file of an initial password
    for this user is left, whatever else fails on the way. *)
Theorem initial_password_gone o s d m script names w s' warned id u :
  files m d -> users s !! id = Some u -> (password_of o = Some id \/ o = OpDelete id) ->
  run o s names {| io_dir := d; io_script := script |} = (w, Some (s', if warned : bool then Warned tt else Done tt)) ->
  exists m', files m' (io_dir w) /\ forall content, m' !! passwordFile = Some content -> names_user content (Username u) = false.
Proof.
  intros Hd Hu Ho Hrun.
  assert (Hretry : forall attempt, always (files m) (attempt s false names) (removed_for (Username u)) (fun _ => True) ->
    always (files m) (retry (A := unit) 1 s false names attempt) (fun '(_, r) d => match r with Failed _ => True | _ => no_initial_password (Username u) d end) (fun _ => True)).
  { intros attempt Ha. cbn [retry]. eapply always_bind; [exact Ha|]. intros [[s'' b] [r|]]; apply always_ret; [|done]. intros d' Hd'. by destruct r. }
  assert (Hreplace : forall i hash must now snapshot, users s !! i = Some u -> always (files m) (replacePassword i u hash must now snapshot s false names) (removed_for (Username u)) (fun _ => True)).
  { intros i hash must now snapshot _. unfold replacePassword. eapply always_bind; [apply remove_names|].
    intros [[removal synced]|e]; [|by apply always_ret]. cbv zeta. apply finish_names. intros e. apply always_fails. }
  assert (H : always (files m) (run o s names) (fun '(_, r) d => match r with Failed _ => True | _ => no_initial_password (Username u) d end) (fun _ => True)).
  { destruct Ho as [Ho| ->].
    - destruct o as [| | | |i oldPassword newPassword salt now|i newPassword must salt now|]; try done; injection Ho as ->; cbn [run].
      + unfold ChangePassword. destruct (hashPassword salt newPassword) as [hash|e]; [|by apply always_ret]. apply Hretry. unfold changePasswordOnce. cbn [snapshotState snap_users].
        rewrite Hu. destruct (negb _); [by apply always_ret|]. destruct (CompareHashAndPassword _ _); [by apply always_ret|]. by apply Hreplace.
      + unfold resetPassword. destruct (hashPassword salt newPassword) as [hash|e]; [|by apply always_ret]. apply Hretry. unfold resetPasswordOnce. cbn [snapshotState snap_users].
        rewrite Hu. by apply Hreplace.
    - cbn [run]. apply Hretry. unfold deleteOnce. cbn [snapshotState snap_users]. rewrite Hu. destruct (_ && _); [by apply always_ret|].
      eapply always_bind; [apply remove_names|]. intros [[removal [|]]|e]; [| |by apply always_ret].
      + cbv zeta. lazymatch goal with |- context [finish _ _ ?snapshot] => apply (finish_names s false snapshot) end. intros e. apply always_fails.
      + apply always_fails. }
  specialize (H {| io_dir := d; io_script := script |} Hd). rewrite Hrun in H. by destruct warned.
Qed.

(** ** Starting *)

(** Starting the store, whatever file operations fail: it fails and leaves the users file as it was; or it
    has the accounts of the file, among them an enabled administrator; or there was none, and it has one more
    account, an enabled administrator with a new name and ID whose password of sixteen characters is accepted,
    has to be changed and is in the file of the initial password, which names the account.  After a crash the
    users file is the old one or has that administrator. *)
Theorem new_store_has_admin m d script seeds names :
  files m d -> (forall us byName', loaded_from m = Ok (us, byName') -> seeds_fresh seeds us) ->
  match NewUserStore seeds names {| io_dir := d; io_script := script |} with
  | (w, Some r) => started m r (io_dir w)
  | (w, None) => start_crash m (io_dir w)
  end.
Proof. intros Hd Hs. exact (start_atomic m seeds names Hs {| io_dir := d; io_script := script |} Hd). Qed.

(** The search for the name of a new administrator ends, after at most one try more than there are
    accounts, with a valid name that no account has. *)
Theorem bootstrap_name_found (byName' : gmap string User) : (N.of_nat (size byName') < 10 ^ 17)%N ->
  exists name, bootstrapAdminUsername byName' = Some name /\ byName' !! normalizeUsername name = None /\ normalizeNewUsername name = Ok name.
Proof. apply bootstrap_found. Qed.

(** The characters of a generated password are drawn without bias: each of the sixty-seven characters comes
    from exactly three of the bytes that are not rejected; a password that is generated has the length asked
    for and only these characters, and one of sixteen characters is a valid password. *)
Theorem password_unbiased :
  (forall c, contains_byte c charset = true ->
    length (List.filter (fun n => accepted (ascii_of_nat n) && Ascii.eqb (char_of (ascii_of_nat n)) c) (seq 0 256)) = 3%nat) /\
  (forall length reads password, generateRandomPassword length reads = Ok password ->
    String.length password = length /\ forallb in_charset (String.list_ascii_of_string password) = true) /\
  (forall reads password, generateRandomPassword 16 reads = Ok password -> validateNewPassword password = Ok tt).
Proof.
  split_and!.
  - intros c Hc. apply contains_byte_iff, list_elem_of_In in Hc. pose proof char_of_uniform as H. rewrite List.forallb_forall in H.
    by apply Nat.eqb_eq, H.
  - apply generateRandomPassword_ok.
  - intros reads password Hp. destruct (generateRandomPassword_ok _ _ _ Hp) as [Hl Hc]. unfold validateNewPassword, len. rewrite Hl.
    assert (Ht : TrimSpace password = password).
    { assert (Hsafe : forall c, implb (in_charset c) (ascii_byte c && negb (IsSpace (N_of_ascii c))) = true) by (apply all_bytes; vm_compute; reflexivity).
      assert (Hall : forall c, In c (String.list_ascii_of_string password) -> ascii_byte c = true /\ negb (IsSpace (N_of_ascii c)) = true).
      { intros c Hin. rewrite List.forallb_forall in Hc. specialize (Hsafe c). rewrite (Hc c Hin) in Hsafe. by apply andb_true_iff in Hsafe. }
      apply no_space_trimmed. rewrite runes_of_ascii by (apply List.forallb_forall; intros c Hin; by apply Hall). apply List.forallb_forall. intros [r b] Hin.
      apply List.in_map_iff in Hin as (c & [= <- <-] & Hin). by apply Hall. }
    rewrite Ht. destruct (String.eqb_spec password ""); [by subst password|done].
Qed.

(** ** Two defects *)

Lemma loadUsers_homes l : forall us byName' r, loadUsers l us byName' = Ok r ->
  Forall (fun v => exists u home, v = Some u /\ normalizeHomeDir (HomeDir u) = Ok home /\ validateRoleHomeDir (UserRole u) home = Ok tt) l.
Proof.
  induction l as [|[u|] l IH]; intros us byName' r H; [constructor| |done]. cbn [loadUsers] in H.
  destruct (String.eqb (ID u) ""); [done|]. destruct (normalizeNewUsername _); [|done]. destruct (validateRole _); [|done].
  do 2 (case_bool_decide; [done|]). destruct (normalizeHomeDir (HomeDir u)) as [home|] eqn:Eh; [|done].
  destruct (validateRoleHomeDir (UserRole u) home) as [[]|] eqn:Er; [|done]. destruct (QuotaBytes u <? 0); [done|]. destruct (negb _); [done|].
  destruct (normalizeGroupNames _); [|done]. constructor; [by exists u, home|]. by eapply IH.
Qed.

(** C37: A home directory can make the store unable to start: "/ /" is accepted as the home directory of a user
    who is no administrator and stored as "/ ", which is not the root; when the file is read again the space is
    trimmed, the home directory is the root, and the whole file is refused.  (A code defect: the form in which
    home directories are stored is not one that reading leaves alone.) *)
Theorem home_dir_blocks_start us text id u :
  normalizeHomeDir "/ /" = Ok "/ " /\ validateRoleHomeDir RoleUser "/ " = Ok tt /\
  (map_Forall (fun _ v => storable v = true /\ CredentialVersion v <> 0) us -> serializeUsers us = Some text ->
   us !! id = Some u -> HomeDir u = "/ " -> UserRole u = RoleUser ->
   exists e, loadText text = Err e).
Proof.
  split; [vm_compute; reflexivity|]. split; [vm_compute; reflexivity|]. intros Hs Ht Hu Hh Hr. unfold loadText, serializeUsers in *.
  set (l := sortUsersForList _) in Ht. assert (Hin : forall v, v ∈ l <-> exists id, us !! id = Some v) by (intros v; unfold l; rewrite sort_users_permutation; apply in_users).
  rewrite (decode_serialized l text Ht) by (apply Forall_forall; intros v [i Hv]%Hin; by eapply Hs).
  destruct (loadUsers (Some <$> l) ∅ ∅) as [r|e] eqn:E; [|by exists e]. exfalso. apply loadUsers_homes in E. rewrite Forall_forall in E.
  destruct (E (Some u)) as (v & home & [= <-] & Hn & Hv); [apply list_elem_of_fmap_2, Hin; by exists id|].
  rewrite Hh in Hn. vm_compute in Hn. injection Hn as <-. rewrite Hr in Hv. vm_compute in Hv. done.
Qed.

(** A disabled administrator cannot be deleted while there is only one enabled administrator, although the
    enabled one would remain: the deletion is refused as that of the last administrator.  (A code defect: the
    update of the same account checks that it is an enabled administrator first.) *)
Theorem delete_refuses_disabled_admin s id u names w :
  users s !! id = Some u -> UserRole u = RoleAdmin -> Disabled u = true -> enabledAdminCount (users s) = 1 ->
  some_admin (delete id (users s)) /\ Delete s id names w = (w, Some (s, Failed ErrLastAdmin)).
Proof.
  intros Hu Hr Hd Hc. split.
  - apply admin_count_some. rewrite (admin_count_delete _ _ _ Hu) in Hc. unfold isEnabledAdmin in Hc. rewrite Hd in Hc. rewrite andb_false_r in Hc. lia.
  - unfold Delete, retry, deleteOnce, bind, stop, ret. cbn [snapshotState snap_users]. rewrite Hu, Hr. cbn [String.eqb andb RoleAdmin].
    by rewrite Hc.
Qed.
End Props.

(** ** Concrete inputs *)

Import UserInstances.

Definition demo_names : source := fun _ _ => Some "tempname".
Definition demo_seeds : Seeds :=
  {| seed_reads := repeat (Some (ascii_of_nat 48)) 16; seed_id := Some "id"; seed_salt := EmptyString; seed_created := 5; seed_now := 6 |}.
Definition demo_start : io dir * option (reply (UserStore * string)) := NewUserStore demo_seeds demo_names {| io_dir := ∅; io_script := [] |}.
Definition demo_dir : dir := io_dir (fst demo_start).
Definition no_store : UserStore := {| users := ∅; byName := ∅; version := 0 |}.
Definition demo_store : UserStore := match snd demo_start with Some (Done (s, _)) => s | _ => no_store end.
Definition demo_id : string := "6964".
Definition demo_password : string := "WWWWWWWWWWWWWWWW".

(** An operation on the demo store without failures, the memory after it, and its reply. *)
Definition demo_run (o : op) : io dir * option (UserStore * reply unit) := run o demo_store demo_names {| io_dir := demo_dir; io_script := [] |}.
Definition store_of (out : io dir * option (UserStore * reply unit)) : UserStore := match snd out with Some (s, _) => s | None => no_store end.
Definition is_done (out : io dir * option (UserStore * reply unit)) : bool := match snd out with Some (_, Done _) => true | _ => false end.
Lemma done_cases out : is_done out = true -> exists w, out = (w, Some (store_of out, Done tt)).
Proof. destruct out as [w [[s' [[]|[]|e]]|]]; try done. by exists w. Qed.


Lemma demo_fresh us byName' : loaded_from ∅ = Ok (us, byName') -> seeds_fresh demo_seeds us.
Proof. intros [= <- <-]. split_and!; [done| |by vm_compute]. intros id _. apply lookup_empty. Qed.

Lemma demo_started : exists w, NewUserStore demo_seeds demo_names {| io_dir := ∅; io_script := [] |} = (w, Some (Done (demo_store, demo_password))) /\ io_dir w = demo_dir.
Proof.
  assert (Hp : match snd demo_start with Some (Done (_, p)) => Some p | _ => None end = Some demo_password) by (vm_compute; reflexivity).
  unfold demo_store, demo_dir. fold demo_start. destruct demo_start as [w [[[s p]|[s p]|e]|]]; try discriminate Hp. injection Hp as ->. by exists w.
Qed.

#[local] Opaque demo_dir demo_store.
Definition isSome {A} (x : option A) : bool := match x with Some _ => true | None => false end.

Lemma demo_ok : store_ok demo_store /\ some_admin (users demo_store) /\ exists m, files m demo_dir /\ saved (users demo_store) m.
Proof.
  destruct demo_started as (w & E & Ew). pose proof (start_atomic ∅ demo_seeds demo_names demo_fresh {| io_dir := ∅; io_script := [] |} files_empty) as H.
  rewrite E, Ew in H. destruct H as (m & Hd & Hok & Hs & us & byName' & _ & Hr). split; [exact Hok|]. split; [|exists m; exact (conj Hd Hs)].
  destruct Hr as [(_ & _ & -> & Ha)|[_ Hb]]; [exact Ha|]. exact (bootstrapped_admin _ _ _ _ Hb).
Qed.

Lemma user_store_atomic_witness : exists w s', demo_run (OpAuthenticate "ADMIN" demo_password 9) = (w, Some (s', Done tt)) /\
  effect (OpAuthenticate "ADMIN" demo_password 9) (users demo_store) (users s') /\ exists m', files m' (io_dir w) /\ saved (users s') m'.
Proof.
  destruct demo_ok as (Hok & _ & m & Hd & Hs).
  pose proof (user_store_atomic (OpAuthenticate "ADMIN" demo_password 9) demo_store demo_dir m [] demo_names Hok Hd Hs I I) as H.
  destruct (done_cases (demo_run (OpAuthenticate "ADMIN" demo_password 9))) as [w E]; [vm_compute; reflexivity|].
  exists w, (store_of (demo_run (OpAuthenticate "ADMIN" demo_password 9))). unfold demo_run in E at 1. rewrite E in H. destruct H as (Hm & _ & He & _).
  split; [exact E|]. split; [exact He|exact Hm].
Defined.

Lemma user_store_invariant_witness : reach demo_store demo_dir /\ exists id u, users demo_store !! id = Some u /\ UserRole u = RoleAdmin /\ Disabled u = false.
Proof.
  destruct demo_started as (w & E & Ew).
  assert (Hr : reach demo_store demo_dir) by (rewrite <-Ew; eapply reach_start; [exact files_empty|exact demo_fresh|left; exact E]).
  split; [exact Hr|]. by destruct (user_store_invariant demo_store demo_dir Hr) as (_ & _ & _ & H).
Defined.

Definition reloadableb (u : User) : bool := storable u && negb (CredentialVersion u =? 0) && String.eqb (TrimSpace (HomeDir u)) (HomeDir u).
Lemma reloadable_all (us : gmap string User) : forallb (fun x => reloadableb (snd x)) (map_to_list us) = true -> map_Forall (fun _ => reloadable) us.
Proof.
  intros H id u Hu. rewrite List.forallb_forall in H. apply elem_of_map_to_list, list_elem_of_In in Hu. specialize (H _ Hu). unfold reloadableb in H. cbn in H.
  b2p. by split_and!.
Qed.

Lemma user_store_restart_witness : exists text byName', serializeUsers (users demo_store) = Some text /\
  snd (NewUserStore demo_seeds demo_names {| io_dir := demo_dir; io_script := [] |}) =
    Some (Done ({| users := users demo_store; byName := byName'; version := 0 |}, EmptyString)).
Proof.
  destruct demo_ok as ([Hok _] & Ha & m & Hd & (text' & _ & Hm)).
  assert (Ht : isSome (serializeUsers (users demo_store)) = true) by (vm_compute; reflexivity). destruct (serializeUsers (users demo_store)) as [text|] eqn:Et; [clear Ht|discriminate Ht].
  assert (Htext : default EmptyString (serializeUsers (users demo_store)) = from_option f_bytes EmptyString (demo_dir !! usersFile)) by (vm_compute; reflexivity).
  assert (Heq : text = text').
  { rewrite Et in Htext. cbn [default from_option] in Htext. pose proof (Hd usersFile (or_introl eq_refl)) as Hf. rewrite Hm in Hf. destruct Hf as (f & Hf & <- & _). by rewrite Hf in Htext. }
  assert (Hr : map_Forall (fun _ => reloadable) (users demo_store)) by (apply reloadable_all; vm_compute; reflexivity).
  rewrite <-Heq in Hm. destruct (user_store_restart (users demo_store) text m demo_dir demo_seeds demo_names Hok Ha Hr Et Hd Hm) as (byName' & _ & H).
  exists text, byName'. split; [reflexivity|]. by rewrite H.
Defined.

(** A change of the administrator's password. *)
Definition demo_change : op := OpChangePassword demo_id demo_password "another one" "salt" 7.

Lemma demo_user {B} (f : User -> B) x : f <$> users demo_store !! demo_id = Some x -> exists u, users demo_store !! demo_id = Some u /\ f u = x.
Proof. intros H. apply fmap_Some in H as (u & Hu & ->). exists u. exact (conj Hu eq_refl). Qed.

Lemma credentials_versioned_witness : exists u v, users demo_store !! demo_id = Some u /\ users (store_of (demo_run demo_change)) !! demo_id = Some v /\
  CredentialVersion u = 1 /\ CredentialVersion v = 2.
Proof.
  destruct demo_ok as (Hok & _ & m & Hd & Hs). destruct (done_cases (demo_run demo_change)) as [w E]; [vm_compute; reflexivity|].
  destruct (demo_user CredentialVersion 1) as (u & Eu & Hu); [vm_compute; reflexivity|].
  assert (Hv : CredentialVersion <$> users (store_of (demo_run demo_change)) !! demo_id = Some 2) by (vm_compute; reflexivity).
  apply fmap_Some in Hv as (v & Ev & Hv). exists u, v. split; [exact Eu|]. split; [exact Ev|]. split; [exact Hu|].
  destruct (credentials_versioned demo_change demo_store demo_dir m [] demo_names w _ _ demo_id u v Hok Hd Hs I I E Eu Ev) as [(_ & Hc & _)|(_ & Hc & _)]; rewrite Hu in Hc; [congruence|exact Hc].
Defined.

Lemma changed_password_counts_witness : exists u, users demo_store !! demo_id = Some u /\
  exists hash, VerifyCredentials (store_of (demo_run demo_change)) (Username u) "another one" = Ok (with_password u hash false 7).
Proof.
  destruct demo_ok as (Hok & _ & m & Hd & Hs). destruct (done_cases (demo_run demo_change)) as [w E]; [vm_compute; reflexivity|].
  destruct (demo_user Disabled false) as (u & Eu & Hu); [vm_compute; reflexivity|]. exists u. split; [exact Eu|].
  destruct (changed_password_counts demo_store demo_dir m [] demo_names w _ demo_id demo_password "another one" "salt" 7 false u Hok Hd Hs E Eu) as (_ & _ & _ & hash & _ & _ & H).
  exists hash. rewrite Hu in H. exact H.
Defined.

Lemma initial_password_gone_witness : is_Some (demo_dir !! passwordFile) /\
  exists w, fst (demo_run demo_change) = w /\ exists m', files m' (io_dir w) /\ forall content, m' !! passwordFile = Some content -> names_user content "admin" = false.
Proof.
  destruct demo_ok as (_ & _ & m & Hd & _). split; [eexists; vm_compute; reflexivity|].
  destruct (demo_user Username "admin") as (u & Eu & Hn); [vm_compute; reflexivity|].
  destruct (done_cases (demo_run demo_change)) as [w E]; [vm_compute; reflexivity|]. exists w. split; [by rewrite E|].
  rewrite <-Hn. exact (initial_password_gone demo_change demo_store demo_dir m [] demo_names w _ false demo_id u Hd Eu (or_introl eq_refl) E).
Defined.

Lemma new_store_has_admin_witness : started ∅ (Done (demo_store, demo_password)) demo_dir.
Proof.
  destruct demo_started as (w & E & Ew). pose proof (new_store_has_admin ∅ ∅ [] demo_seeds demo_names files_empty demo_fresh) as H.
  rewrite E, Ew in H. exact H.
Defined.

Lemma bootstrap_name_found_witness : exists name, bootstrapAdminUsername (byName demo_store) = Some name /\ byName demo_store !! normalizeUsername name = None.
Proof.
  destruct (bootstrap_name_found (byName demo_store)) as (name & E & Hf & _); [vm_compute; reflexivity|]. exists name. exact (conj E Hf).
Defined.

(** An account with the home directory that blocks the next start. *)
Definition demo_create : op := OpCreate "bob" "a password" EmptyString RoleUser {| OptGroups := []; OptHomeDir := Some "/ /"; OptQuotaBytes := 0 |} EmptyString (Some "b") 8 9.

Lemma home_dir_blocks_start_witness : exists w s' text, demo_run demo_create = (w, Some (s', Done tt)) /\ serializeUsers (users s') = Some text /\
  exists e, loadText text = Err e.
Proof.
  destruct (done_cases (demo_run demo_create)) as [w E]; [vm_compute; reflexivity|]. set (s' := store_of (demo_run demo_create)) in *.
  assert (Ht : isSome (serializeUsers (users s')) = true) by (vm_compute; reflexivity). destruct (serializeUsers (users s')) as [text|] eqn:Et; [clear Ht|discriminate Ht].
  exists w, s', text. split; [exact E|]. split; [exact Et|].
  assert (Hall : forallb (fun x => storable (snd x) && negb (CredentialVersion (snd x) =? 0)) (map_to_list (users s')) = true) by (vm_compute; reflexivity).
  assert (Hh : (fun v => (HomeDir v, UserRole v)) <$> users s' !! "62" = Some ("/ ", RoleUser)) by (vm_compute; reflexivity).
  apply fmap_Some in Hh as (u & Eu & Hh). injection Hh as Hh Hr. clearbody s'.
  destruct (home_dir_blocks_start (users s') text "62" u) as (_ & _ & H). apply H; [|exact Et|exact Eu|exact (eq_sym Hh)|exact (eq_sym Hr)].
  intros id v Hv. rewrite List.forallb_forall in Hall. apply elem_of_map_to_list, list_elem_of_In in Hv. specialize (Hall _ Hv). cbn in Hall. b2p. split; [exact H0|exact H1].
Defined.

(** The administrator and a second one, disabled. *)
Definition demo_admins : UserStore :=
  let s := store_of (demo_run (OpCreate "eve" "a password" EmptyString RoleAdmin {| OptGroups := []; OptHomeDir := None; OptQuotaBytes := 0 |} EmptyString (Some "b") 8 9)) in
  let patch := {| PatchEmail := None; PatchRole := None; PatchGroups := None; PatchHomeDir := None; PatchQuotaBytes := None; PatchDisabled := Some true |} in
  store_of (run (OpPatch "62" patch 10) s demo_names {| io_dir := demo_dir; io_script := [] |}).

Lemma delete_refuses_disabled_admin_witness : exists u, users demo_admins !! "62" = Some u /\ some_admin (delete "62" (users demo_admins)) /\
  Delete demo_admins "62" demo_names {| io_dir := demo_dir; io_script := [] |} = ({| io_dir := demo_dir; io_script := [] |}, Some (demo_admins, Failed ErrLastAdmin)).
Proof.
  assert (Hu : (fun v => (UserRole v, Disabled v)) <$> users demo_admins !! "62" = Some (RoleAdmin, true)) by (vm_compute; reflexivity).
  apply fmap_Some in Hu as (u & Eu & Hu). injection Hu as Hr Hd. exists u. split; [exact Eu|].
  apply (delete_refuses_disabled_admin demo_admins "62" u demo_names _ Eu (eq_sym Hr) (eq_sym Hd)). vm_compute. reflexivity.
Defined.
End UserProps.
