(* ===== verification/TokenTypes.v ===== *)
(** * Tokens and login sessions: data

    [internal/auth/token.go]: the records of the sessions, their file, the claims of the two kinds of tokens,
    the JWT library and the JSON codec that the token manager relies on. *)

From Stdlib Require Import Ascii.
From S2P Require Import Prelude GoStrings GoPath GoFormat GoTime MonoTime Sha256 Users FileMonad UserFields AuthFiles UsersFile.
Import MonoTime Sha256 AuthFiles UsersFile.

Module TokenTypes.

(** [ErrTokenOther] stands for the errors without an identity. *)
Inductive TokenError :=
| ErrInvalidToken | ErrTokenExpired | ErrTokenRevoked | ErrRefreshRateLimited | ErrRefreshSessionLimit
| ErrTokenStateUnavailable | errRefreshTokenReused | ErrTokenOther.
#[export] Instance TokenError_eq_dec : EqDecision TokenError.
Proof. solve_decision. Defined.

Definition second : Z := 1000000000.
Definition tokenSessionSchemaVersion : Z := 3.
Definition maxTrackedRefreshSessions : Z := 4096.
Definition maxTrackedRefreshSessionsPerUser : Z := 64.
Definition maxTokenSessionStateFileBytes : Z := 2 * 2 ^ 20.
Definition maxPersistedSessionUserIDBytes : Z := 256.
Definition minimumRefreshRotationInterval : Z := 30 * second.
Definition tokenValidationLeeway : Z := second.
Definition defaultRestartTimeLease : Z := 60 * second.
Definition defaultTimeLeaseRenewalLead : Z := 15 * second.
Definition maxSessionIDGenerationAttempts : nat := 32.

(** ** Sessions *)

Record sessionRegistryRecord := {
  rec_UserID : string; rec_ExpiresAt : Time; rec_NextRefreshGeneration : Z; rec_LastRotatedAt : Time }.
#[export] Instance record_eq_dec : EqDecision sessionRegistryRecord.
Proof. solve_decision. Defined.

Record tokenSessionState := {
  st_SchemaVersion : Z; st_RestartTimeFloor : Time; st_Sessions : gmap string sessionRegistryRecord }.

(** What is decoded: a field that is missing or [null] is [None]. *)
Record encodedSessionRegistryRecord := {
  enc_UserID : option string; enc_ExpiresAt : option Z; enc_NextRefreshGeneration : option Z; enc_LastRotatedAt : option Z }.
Record encodedTokenSessionState := {
  enc_SchemaVersion : option Z; enc_RestartTimeFloor : option Z; enc_Sessions : option (gmap string encodedSessionRegistryRecord) }.

(** ** Tokens *)

(** The claims that the code sets and reads; times are in nanoseconds, as [NumericDate] has them. *)
Record RegisteredClaims := {
  Issuer : string; Subject : string; ClaimExpiresAt : option Z; IssuedAt : option Z; NotBefore : option Z; ClaimID : string }.
#[export] Instance registered_eq_dec : EqDecision RegisteredClaims.
Proof. solve_decision. Defined.
Record TokenClaims := {
  ac_Registered : RegisteredClaims; ac_UserID : string; ac_Username : string; ac_Role : Role; ac_SessionID : string;
  ac_SessionExpiresAt : option Z; ac_CredentialVersion : Z }.
#[export] Instance access_eq_dec : EqDecision TokenClaims.
Proof. solve_decision. Defined.
Record refreshTokenClaims := {
  rc_Registered : RegisteredClaims; rc_CredentialVersion : Z; rc_SessionID : string; rc_Generation : Z }.
#[export] Instance refresh_eq_dec : EqDecision refreshTokenClaims.
Proof. solve_decision. Defined.

Record TokenPair := {
  AccessToken : string; RefreshToken : string; PairExpiresAt : Time; PairRefreshExpiresAt : Time; TokenType : string }.

Definition jwtTimestamp (now : Time) : Time := Truncate (UTC now).
(** [jwt.NewNumericDate]: [jwt.TimePrecision] is a second. *)
Definition NewNumericDate (t : Time) : option Z := Some (wall (Truncate t)).

(** ** What the token manager relies on *)

(** The answers of [jwt.ParseWithClaims]: the error is [jwt.ErrTokenExpired], or another one. *)
Inductive jwtError := JwtExpired | JwtOther.

(** What the library documents for the registered claims under the options of the code: an expiry that is
    required, [nbf] and [iat] that are checked, a leeway, and the issuer. *)
Definition jwt_accepts (issuer : string) (leeway now : Z) (c : RegisteredClaims) : option jwtError :=
  match ClaimExpiresAt c with
  | None => Some JwtOther
  | Some e =>
    if e + leeway <=? now then Some JwtExpired
    else if match NotBefore c with Some t => now <? t - leeway | None => false end then Some JwtOther
    else if match IssuedAt c with Some t => now <? t - leeway | None => false end then Some JwtOther
    else if String.eqb (Issuer c) issuer then None else Some JwtOther
  end.

(** Claims that survive their encoding as JSON: UTF-8 text, 64-bit counters, whole seconds that a float64
    holds. *)
Definition numeric_date (t : Z) : bool := (t mod second =? 0) && (Z.abs (t / second) <? 2 ^ 53).
Definition wire_time (t : option Z) : bool := match t with Some t => numeric_date t | None => true end.
Definition wire_registered (c : RegisteredClaims) : bool :=
  ValidString (Issuer c) && ValidString (Subject c) && ValidString (ClaimID c) &&
  wire_time (ClaimExpiresAt c) && wire_time (IssuedAt c) && wire_time (NotBefore c).
Definition is_uint64 (z : Z) : bool := (0 <=? z) && (z <=? maxUint64).
Definition wire_access (c : TokenClaims) : bool :=
  wire_registered (ac_Registered c) && ValidString (ac_UserID c) && ValidString (ac_Username c) && ValidString (ac_Role c) &&
  ValidString (ac_SessionID c) && wire_time (ac_SessionExpiresAt c) && is_uint64 (ac_CredentialVersion c).
Definition wire_refresh (c : refreshTokenClaims) : bool :=
  wire_registered (rc_Registered c) && is_uint64 (rc_CredentialVersion c) && ValidString (rc_SessionID c) && is_uint64 (rc_Generation c).

(** Package [jwt] with HS256: signing under a key, and [ParseWithClaims] under a key, an issuer, a leeway and
    the time of the validation.  The laws say that a signed token is read back and judged as documented. *)
Class Jwt := {
  SignAccess : string -> TokenClaims -> option string;
  SignRefresh : string -> refreshTokenClaims -> option string;
  ParseAccess : string -> string -> Z -> Z -> string -> result jwtError TokenClaims;
  ParseRefresh : string -> string -> Z -> Z -> string -> result jwtError refreshTokenClaims;
  parse_signed_access key c token issuer leeway now : SignAccess key c = Some token -> wire_access c = true ->
    ParseAccess key issuer leeway now token = match jwt_accepts issuer leeway now (ac_Registered c) with None => Ok c | Some e => Err e end;
  parse_signed_refresh key c token issuer leeway now : SignRefresh key c = Some token -> wire_refresh c = true ->
    ParseRefresh key issuer leeway now token = match jwt_accepts issuer leeway now (rc_Registered c) with None => Ok c | Some e => Err e end;
}.

(** A state that survives its encoding as JSON. *)
Definition storable_record (r : sessionRegistryRecord) : bool := ValidString (rec_UserID r) && is_uint64 (rec_NextRefreshGeneration r).
Definition storable_state (s : tokenSessionState) : Prop :=
  map_Forall (fun id r => ValidString id = true /\ storable_record r = true) (st_Sessions s).

Definition encode_record (r : sessionRegistryRecord) : encodedSessionRegistryRecord :=
  {| enc_UserID := Some (rec_UserID r); enc_ExpiresAt := Some (wall (rec_ExpiresAt r));
     enc_NextRefreshGeneration := Some (rec_NextRefreshGeneration r); enc_LastRotatedAt := Some (wall (rec_LastRotatedAt r)) |}.
Definition encode_state (s : tokenSessionState) : encodedTokenSessionState :=
  {| enc_SchemaVersion := Some (st_SchemaVersion s); enc_RestartTimeFloor := Some (wall (st_RestartTimeFloor s));
     enc_Sessions := Some (encode_record <$> st_Sessions s) |}.

(** No object of the document names a key twice. *)
Fixpoint walkJSONToken (j : json) : bool :=
  match j with
  | JObject fields => bool_decide (NoDup (fst <$> fields)) && (fix walk (fields : list (string * json)) : bool :=
      match fields with [] => true | (_, value) :: fields' => walkJSONToken value && walk fields' end) fields
  | JArray elements => (fix walk (elements : list json) : bool :=
      match elements with [] => true | value :: elements' => walkJSONToken value && walk elements' end) elements
  | _ => true
  end.

(** Package [encoding/json]: [parse_session] gives the value of a text that is one JSON value, [decode_session]
    stores it in an [encodedTokenSessionState] and refuses unknown fields, [MarshalSession] is the text of a
    state (an instant outside the years 0 to 9999 has none). *)
Class SessionCodec := {
  parse_session : string -> option json;
  decode_session : json -> option encodedTokenSessionState;
  MarshalSession : tokenSessionState -> option string;
  parse_empty : parse_session EmptyString = None;
  marshal_session_ok s text : MarshalSession s = Some text -> storable_state s ->
    exists j, parse_session text = Some j /\ walkJSONToken j = true /\ decode_session j = Some (encode_state s);
  decoded_storable j s sessions id r : decode_session j = Some s -> enc_Sessions s = Some sessions -> sessions !! id = Some r ->
    ValidString id = true /\ (forall userID, enc_UserID r = Some userID -> ValidString userID = true) /\
    (forall generation, enc_NextRefreshGeneration r = Some generation -> is_uint64 generation = true);
}.

(** ** The file of the sessions *)

(** [hex.DecodeString] *)
Definition fromHexChar (a : ascii) : option N :=
  let c := N_of_ascii a in
  if ((48 <=? c) && (c <=? 57))%N then Some (c - 48)%N
  else if ((97 <=? c) && (c <=? 102))%N then Some (c - 87)%N
  else if ((65 <=? c) && (c <=? 70))%N then Some (c - 55)%N
  else None.
Fixpoint DecodeString (s : string) : option string :=
  match s with
  | EmptyString => Some EmptyString
  | String a (String b s') =>
    match fromHexChar a, fromHexChar b, DecodeString s' with
    | Some x, Some y, Some rest => Some (String (ascii_of_N (16 * x + y)) rest)
    | _, _, _ => None
    end
  | String _ EmptyString => None
  end.

Section Decode.
Context `{Unicode}.

Definition validSessionID (sessionID : string) : bool :=
  if negb (len sessionID =? 32) || negb (String.eqb (ToLower sessionID) sessionID) then false
  else match DecodeString sessionID with Some decoded => len decoded =? 16 | None => false end.

Definition validatePersistedSessionRecord (sessionID : string) (record : sessionRegistryRecord) : bool :=
  if negb (validSessionID sessionID) then false
  else if String.eqb (rec_UserID record) EmptyString || (maxPersistedSessionUserIDBytes <? len (rec_UserID record)) then false
  else if IsZero (rec_ExpiresAt record) then false
  else if IsZero (rec_LastRotatedAt record) || After (rec_LastRotatedAt record) (rec_ExpiresAt record) then false
  else true.

Definition decodeRecord (sessionID : string) (encoded : encodedSessionRegistryRecord) : option sessionRegistryRecord :=
  match enc_UserID encoded, enc_ExpiresAt encoded, enc_NextRefreshGeneration encoded, enc_LastRotatedAt encoded with
  | Some userID, Some expiresAt, Some generation, Some lastRotatedAt =>
    let record := {| rec_UserID := userID; rec_ExpiresAt := at_wall expiresAt; rec_NextRefreshGeneration := generation;
                     rec_LastRotatedAt := at_wall lastRotatedAt |} in
    if validatePersistedSessionRecord sessionID record then Some record else None
  | _, _, _, _ => None
  end.

(** The loop over the sessions, which may come in any order. *)
Fixpoint decodeRecords (l : list (string * encodedSessionRegistryRecord)) : option (gmap string sessionRegistryRecord) :=
  match l with
  | [] => Some ∅
  | (sessionID, encoded) :: l' =>
    match decodeRecord sessionID encoded, decodeRecords l' with
    | Some record, Some sessions => Some (<[sessionID := record]> sessions)
    | _, _ => None
    end
  end.

Context {codec : SessionCodec}.

Definition decodeTokenSessionState (data : string) : option tokenSessionState :=
  match parse_session data with
  | None => None
  | Some j =>
    if negb (walkJSONToken j) then None else
    match decode_session j with
    | None => None
    | Some encoded =>
      match enc_SchemaVersion encoded, enc_RestartTimeFloor encoded, enc_Sessions encoded with
      | Some version, Some floor, Some sessions =>
        if negb (version =? tokenSessionSchemaVersion) then None
        else if IsZero (at_wall floor) then None
        else if maxTrackedRefreshSessions <? Z.of_nat (size sessions) then None
        else match decodeRecords (map_to_list sessions) with
             | Some records => Some {| st_SchemaVersion := version; st_RestartTimeFloor := at_wall floor; st_Sessions := records |}
             | None => None
             end
      | _, _, _ => None
      end
    end
  end.

Definition newTokenSessionState : tokenSessionState :=
  {| st_SchemaVersion := tokenSessionSchemaVersion; st_RestartTimeFloor := zero_time; st_Sessions := ∅ |}.

(** The state of the file and whether there is one. *)
Definition loadTokenSessionState : prog (result TokenError (tokenSessionState * bool)) :=
  run! data := readRegisteredAuthFileLimited sessionsFile maxTokenSessionStateFileBytes in
  ret (match data with
       | Err _ => Err ErrTokenOther
       | Ok None => Ok (newTokenSessionState, false)
       | Ok (Some bytes) =>
         if len bytes =? 0 then Err ErrTokenOther
         else match decodeTokenSessionState bytes with Some state => Ok (state, true) | None => Err ErrTokenOther end
       end).
End Decode.
End TokenTypes.
