(* ===== verification/Tokens.v ===== *)
(** * Tokens and login sessions: the token manager

    [internal/auth/token.go]: the registry of the sessions in memory and on disk, the clock of the manager with
    the lease that keeps it from running backwards across restarts, issuing, validating, rotating and revoking
    tokens.  Every critical section of [tm.mu] is a program on the directory of the registry's file; the file's
    root is open and registered, and the base name of [sessionStorePath] is [sessionsFile], as server.go sets
    it.  A user is given, never [nil]. *)

From Stdlib Require Import Ascii.
From S2P Require Import Prelude GoStrings GoPath GoFormat GoTime MonoTime Sha256 Users FileMonad UserFields AuthFiles UsersFile TokenTypes.
Import MonoTime Sha256 AuthFiles UsersFile TokenTypes.

Module Tokens.

(** ** The state *)

Record TokenManager := {
  secretKey : string; accessExpiry : Z; refreshExpiry : Z; issuer : string; sessionStorePath : string;
  sessionRegistry : gmap string sessionRegistryRecord;
  timeHighWater : Time; timeHighWaterObservedAt : Time; restartTimeFloor : Time;
  timeLeaseDuration : Z; timeLeaseRenewalLead : Z; refreshRotationInterval : Z;
  refreshSessionLimit : Z; refreshUserSessionLimit : Z }.

Definition with_registry (tm : TokenManager) (registry : gmap string sessionRegistryRecord) : TokenManager :=
  {| secretKey := secretKey tm; accessExpiry := accessExpiry tm; refreshExpiry := refreshExpiry tm; issuer := issuer tm;
     sessionStorePath := sessionStorePath tm; sessionRegistry := registry; timeHighWater := timeHighWater tm;
     timeHighWaterObservedAt := timeHighWaterObservedAt tm; restartTimeFloor := restartTimeFloor tm;
     timeLeaseDuration := timeLeaseDuration tm; timeLeaseRenewalLead := timeLeaseRenewalLead tm;
     refreshRotationInterval := refreshRotationInterval tm; refreshSessionLimit := refreshSessionLimit tm;
     refreshUserSessionLimit := refreshUserSessionLimit tm |}.
Definition with_floor (tm : TokenManager) (floor : Time) : TokenManager :=
  {| secretKey := secretKey tm; accessExpiry := accessExpiry tm; refreshExpiry := refreshExpiry tm; issuer := issuer tm;
     sessionStorePath := sessionStorePath tm; sessionRegistry := sessionRegistry tm; timeHighWater := timeHighWater tm;
     timeHighWaterObservedAt := timeHighWaterObservedAt tm; restartTimeFloor := floor;
     timeLeaseDuration := timeLeaseDuration tm; timeLeaseRenewalLead := timeLeaseRenewalLead tm;
     refreshRotationInterval := refreshRotationInterval tm; refreshSessionLimit := refreshSessionLimit tm;
     refreshUserSessionLimit := refreshUserSessionLimit tm |}.
Definition with_clock (tm : TokenManager) (highWater observedAt : Time) : TokenManager :=
  {| secretKey := secretKey tm; accessExpiry := accessExpiry tm; refreshExpiry := refreshExpiry tm; issuer := issuer tm;
     sessionStorePath := sessionStorePath tm; sessionRegistry := sessionRegistry tm; timeHighWater := highWater;
     timeHighWaterObservedAt := observedAt; restartTimeFloor := restartTimeFloor tm;
     timeLeaseDuration := timeLeaseDuration tm; timeLeaseRenewalLead := timeLeaseRenewalLead tm;
     refreshRotationInterval := refreshRotationInterval tm; refreshSessionLimit := refreshSessionLimit tm;
     refreshUserSessionLimit := refreshUserSessionLimit tm |}.
Definition with_path (tm : TokenManager) (path : string) : TokenManager :=
  {| secretKey := secretKey tm; accessExpiry := accessExpiry tm; refreshExpiry := refreshExpiry tm; issuer := issuer tm;
     sessionStorePath := path; sessionRegistry := sessionRegistry tm; timeHighWater := timeHighWater tm;
     timeHighWaterObservedAt := timeHighWaterObservedAt tm; restartTimeFloor := restartTimeFloor tm;
     timeLeaseDuration := timeLeaseDuration tm; timeLeaseRenewalLead := timeLeaseRenewalLead tm;
     refreshRotationInterval := refreshRotationInterval tm; refreshSessionLimit := refreshSessionLimit tm;
     refreshUserSessionLimit := refreshUserSessionLimit tm |}.

(** [random]: what the random source answers when 32 bytes are asked for, in place of a key that is too short. *)
Definition NewTokenManager (secret : string) (access refresh : Z) (random : option string) : TokenManager :=
  {| secretKey := if len secret <? 32 then match random with
                    | Some key => if len key =? 32 then key else Sum256 secret
                    | None => Sum256 secret
                    end
                  else secret;
     accessExpiry := access; refreshExpiry := refresh; issuer := "mnemonas"; sessionStorePath := EmptyString;
     sessionRegistry := ∅; timeHighWater := zero_time; timeHighWaterObservedAt := zero_time; restartTimeFloor := zero_time;
     timeLeaseDuration := defaultRestartTimeLease; timeLeaseRenewalLead := defaultTimeLeaseRenewalLead;
     refreshRotationInterval := minimumRefreshRotationInterval; refreshSessionLimit := maxTrackedRefreshSessions;
     refreshUserSessionLimit := maxTrackedRefreshSessionsPerUser |}.

Definition UpdateExpiries (tm : TokenManager) (access refresh : Z) : TokenManager :=
  {| secretKey := secretKey tm; accessExpiry := access; refreshExpiry := refresh; issuer := issuer tm;
     sessionStorePath := sessionStorePath tm; sessionRegistry := sessionRegistry tm; timeHighWater := timeHighWater tm;
     timeHighWaterObservedAt := timeHighWaterObservedAt tm; restartTimeFloor := restartTimeFloor tm;
     timeLeaseDuration := timeLeaseDuration tm; timeLeaseRenewalLead := timeLeaseRenewalLead tm;
     refreshRotationInterval := refreshRotationInterval tm; refreshSessionLimit := refreshSessionLimit tm;
     refreshUserSessionLimit := refreshUserSessionLimit tm |}.

(** ** Time *)

(** The two readings of the clocks: [tm.now()] and then [tm.monotonicNow()]. *)
Record clock := { clock_now : Time; clock_observed : Time }.

Definition effectiveNowLocked (tm : TokenManager) (c : clock) : TokenManager * Time :=
  let wallNow := clock_now c in
  let observedAt := clock_observed c in
  let high :=
    if IsZero (timeHighWater tm) then wallNow
    else if negb (IsZero (timeHighWaterObservedAt tm)) && After observedAt (timeHighWaterObservedAt tm)
    then Add (timeHighWater tm) (Sub observedAt (timeHighWaterObservedAt tm))
    else timeHighWater tm in
  let high := if After wallNow high then wallNow else high in
  (with_clock tm high observedAt, high).

Definition extendRestartTimeLeaseLocked (tm : TokenManager) (now : Time) : TokenManager :=
  if String.eqb (sessionStorePath tm) EmptyString || (timeLeaseDuration tm <=? 0) then tm
  else
    let candidate := Add now (timeLeaseDuration tm) in
    if After candidate (restartTimeFloor tm) then with_floor tm candidate else tm.

(** ** The registry *)

Definition active (now : Time) (record : sessionRegistryRecord) : bool := After (rec_ExpiresAt record) now.

(** The manager without its expired sessions, and these. *)
Definition cleanupExpiredSessionsLocked (tm : TokenManager) (now : Time) : TokenManager * gmap string sessionRegistryRecord :=
  (with_registry tm (filter (fun '(_, record) => active now record = true) (sessionRegistry tm)),
   filter (fun '(_, record) => active now record = false) (sessionRegistry tm)).
Definition restoreRemovedSessionsLocked (tm : TokenManager) (removed : gmap string sessionRegistryRecord) : TokenManager :=
  with_registry tm (removed ∪ sessionRegistry tm).

Definition activeSessionCountLocked (tm : TokenManager) (now : Time) : Z :=
  Z.of_nat (size (filter (fun '(_, record) => active now record = true) (sessionRegistry tm))).
Definition activeSessionCountForUserLocked (tm : TokenManager) (userID : string) (now : Time) : Z :=
  Z.of_nat (size (filter (fun '(_, record) => String.eqb (rec_UserID record) userID && active now record = true) (sessionRegistry tm))).

(** The loop over the records, which counts the active sessions of every user. *)
Fixpoint userLimitsExceeded (limit : Z) (now : Time) (records : list sessionRegistryRecord) (perUser : gmap string Z) : bool :=
  match records with
  | [] => false
  | record :: records' =>
    if negb (active now record) then userLimitsExceeded limit now records' perUser
    else
      let count := default 0 (perUser !! rec_UserID record) + 1 in
      if limit <? count then true
      else userLimitsExceeded limit now records' (<[rec_UserID record := count]> perUser)
  end.
Definition validateActiveSessionLimitsLocked (tm : TokenManager) (now : Time) : bool :=
  if refreshSessionLimit tm <? activeSessionCountLocked tm now then false
  else negb (userLimitsExceeded (refreshUserSessionLimit tm) now ((map_to_list (sessionRegistry tm)).*2) ∅).

(** What a call returns: a value; a value and a persistence warning; an error. *)
Inductive reply (A : Type) := Done (a : A) | Warned (a : A) | Failed (e : TokenError).
Arguments Done {A} _.
Arguments Warned {A} _.
Arguments Failed {A} _.

Section Manager.
Context {case_tables : Unicode} {codec : SessionCodec} {jwt : Jwt}.

Definition stateOf (tm : TokenManager) : tokenSessionState :=
  {| st_SchemaVersion := tokenSessionSchemaVersion; st_RestartTimeFloor := restartTimeFloor tm; st_Sessions := sessionRegistry tm |}.

Definition persistSessionStateLocked (tm : TokenManager) (random : nat -> option string) : prog write :=
  if String.eqb (sessionStorePath tm) EmptyString then ret Written
  else if IsZero (restartTimeFloor tm) then ret (NotWritten UserFields.ErrIO)
  else if maxTrackedRefreshSessions <? Z.of_nat (size (sessionRegistry tm)) then ret (NotWritten UserFields.ErrIO)
  else match MarshalSession (stateOf tm) with
       | None => ret (NotWritten UserFields.ErrIO)
       | Some data =>
         if maxTokenSessionStateFileBytes <? len data then ret (NotWritten UserFields.ErrIO)
         else writeAuthFileAtomicallyWithRoot sessionsFile data ".auth-sessions-*.tmp" random
       end.

Definition prepareValidationTime (tm : TokenManager) (c : clock) (random : nat -> option string)
    : prog (TokenManager * result TokenError Time) :=
  let '(tm, now) := effectiveNowLocked tm c in
  if String.eqb (sessionStorePath tm) EmptyString then ret (tm, Ok now)
  else if (timeLeaseDuration tm <=? 0) || (timeLeaseRenewalLead tm <? 0) || (timeLeaseDuration tm <=? timeLeaseRenewalLead tm)
  then ret (tm, Err ErrTokenStateUnavailable)
  else if negb (IsZero (restartTimeFloor tm)) && Before (Add now (timeLeaseRenewalLead tm)) (restartTimeFloor tm) then ret (tm, Ok now)
  else
    let previousFloor := restartTimeFloor tm in
    let '(tm, removed) := cleanupExpiredSessionsLocked tm now in
    let tm := extendRestartTimeLeaseLocked tm now in
    run! saved := persistSessionStateLocked tm random in
    match saved with
    | NotWritten _ =>
      let tm := restoreRemovedSessionsLocked (with_floor tm previousFloor) removed in
      if IsZero previousFloor || negb (Before now previousFloor) then ret (tm, Err ErrTokenStateUnavailable)
      else ret (tm, Ok now)
    | _ => ret (tm, Ok now)
    end.

(** [persistTokenSessionState] at the end of a mutation: the manager that was changed, and the one with the
    change taken back. *)
Definition persisted {A} (tm : TokenManager) (restored : TokenManager) (a : A) (random : nat -> option string)
    : prog (TokenManager * reply A) :=
  run! saved := persistSessionStateLocked tm random in
  ret (match saved with
       | Written => (tm, Done a)
       | WrittenUnsynced => (tm, Warned a)
       | NotWritten _ => (restored, Failed ErrTokenOther)
       end).

(** ** Enabling persistence *)

Definition restorePersistenceEnableLocked (tm : TokenManager) (path : string) (registry : gmap string sessionRegistryRecord)
    (floor highWater observedAt : Time) : TokenManager :=
  with_clock (with_floor (with_registry (with_path tm path) registry) floor) highWater observedAt.

Definition conflicts (registry : gmap string sessionRegistryRecord) (same : string -> bool)
    (session : string * sessionRegistryRecord) : bool :=
  let '(sessionID, record) := session in
  match registry !! sessionID with
  | Some existing => negb (bool_decide (existing = record) && same sessionID)
  | None => false
  end.

(** [same id] is whether Go's comparison of the two records of a session, equal as values, finds their instants
    represented alike; [c1] and [c2] are the readings before and within [effectiveNowLocked]. *)
Definition EnableSessionPersistence (tm : TokenManager) (filePath : string) (same : string -> bool) (c1 c2 : clock)
    (random : nat -> option string) : prog (TokenManager * reply unit) :=
  if String.eqb filePath EmptyString then ret (tm, Done tt) else
  run! loaded := loadTokenSessionState in
  match loaded with
  | Err e => ret (tm, Failed e)
  | Ok (state, exists_) =>
    let restore tm' := restorePersistenceEnableLocked tm' (sessionStorePath tm) (sessionRegistry tm) (restartTimeFloor tm)
                         (timeHighWater tm) (timeHighWaterObservedAt tm) in
    let tm1 := with_path tm filePath in
    if existsb (conflicts (sessionRegistry tm) same) (map_to_list (st_Sessions state)) then ret (restore tm1, Failed ErrTokenOther)
    else
      let tm1 := with_registry tm1 (st_Sessions state ∪ sessionRegistry tm1) in
      let floor := st_RestartTimeFloor state in
      let high := if After floor (timeHighWater tm1) then floor else timeHighWater tm1 in
      let tm1 := if After floor (restartTimeFloor tm1) then with_floor tm1 floor else tm1 in
      let high := if After (clock_now c1) high then clock_now c1 else high in
      let tm1 := with_clock tm1 high (clock_observed c1) in
      let '(tm1, now) := effectiveNowLocked tm1 c2 in
      let '(tm1, _) := cleanupExpiredSessionsLocked tm1 now in
      if negb (validateActiveSessionLimitsLocked tm1 now) then ret (restore tm1, Failed ErrRefreshSessionLimit)
      else
        let oldFloor := restartTimeFloor tm1 in
        let tm1 := extendRestartTimeLeaseLocked tm1 now in
        run! saved := persistSessionStateLocked tm1 random in
        match saved with
        | NotWritten _ => ret (restore (with_floor tm1 oldFloor), Failed ErrTokenOther)
        | Written | WrittenUnsynced =>
          if negb exists_ && IsZero (restartTimeFloor tm1) then ret (restore tm1, Failed ErrTokenOther)
          else ret (tm1, match saved with Written => Done tt | _ => Warned tt end)
        end
  end.
End Manager.
End Tokens.
