(* ===== verification/TokenOps.v ===== *)
(** * Tokens and login sessions: the calls of the token manager

    [internal/auth/token.go]: issuing, validating, rotating and revoking tokens.  A call that holds [tm.mu] twice
    ([ValidateAccessToken], the refresh) is one program here; what it does under the second lock is a function
    of its own ([access_session], [validateRefreshTokenClaimsLocked]), of which the theorems speak, because
    other calls may come in between. *)

From Stdlib Require Import Ascii.
From S2P Require Import Prelude GoStrings GoPath GoFormat GoTime MonoTime Sha256 Users FileMonad UserFields AuthFiles UsersFile TokenTypes Tokens.
Import MonoTime Sha256 AuthFiles UsersFile TokenTypes Tokens.

Module TokenOps.

(** ** Random identifiers *)

(** [draw] is what the random source answers when 16 bytes are asked for. *)
Definition generateTokenID (draw : option string) : option string :=
  match draw with
  | Some b => if len b =? 16 then Some (EncodeToString b) else None
  | None => None
  end.

Fixpoint uniqueSessionID (attempts : nat) (registry : gmap string sessionRegistryRecord) (draws : nat -> option string) : option string :=
  match attempts with
  | O => None
  | S attempts' =>
    match generateTokenID (draws O) with
    | None => None
    | Some sessionID =>
      if bool_decide (is_Some (registry !! sessionID)) then uniqueSessionID attempts' registry (fun i => draws (S i))
      else Some sessionID
    end
  end.
Definition generateUniqueSessionIDLocked (tm : TokenManager) (draws : nat -> option string) : option string :=
  uniqueSessionID maxSessionIDGenerationAttempts (sessionRegistry tm) draws.

Definition validateTokenUser (user : User) : bool :=
  negb (String.eqb (ID user) EmptyString || (maxPersistedSessionUserIDBytes <? len (ID user)) || String.eqb (Username user) EmptyString).

Section Calls.
Context {case_tables : Unicode} {codec : SessionCodec} {jwt : Jwt}.

(** ** Issuing *)

Definition registered (issuer_ : string) (user : User) (expires now : Time) (tokenID : string) : RegisteredClaims :=
  {| Issuer := issuer_; Subject := ID user; ClaimExpiresAt := NewNumericDate expires; IssuedAt := NewNumericDate now;
     NotBefore := NewNumericDate now; ClaimID := tokenID |}.

Definition signTokenPair (user : User) (sessionID : string) (sessionExpiresAt : Time) (refreshGeneration : Z) (tokenID : string)
    (now : Time) (accessDuration : Z) (issuer_ key : string) : option TokenPair :=
  let expiry := Add now accessDuration in
  let expiry := if After expiry sessionExpiresAt then sessionExpiresAt else expiry in
  let accessClaims :=
    {| ac_Registered := registered issuer_ user expiry now tokenID; ac_UserID := ID user; ac_Username := Username user;
       ac_Role := UserRole user; ac_SessionID := sessionID; ac_SessionExpiresAt := NewNumericDate sessionExpiresAt;
       ac_CredentialVersion := CredentialVersion user |} in
  let refreshClaims :=
    {| rc_Registered := registered issuer_ user sessionExpiresAt now (tokenID +:+ "-refresh");
       rc_CredentialVersion := CredentialVersion user; rc_SessionID := sessionID; rc_Generation := refreshGeneration |} in
  match SignAccess key accessClaims with
  | None => None
  | Some accessToken =>
    match SignRefresh key refreshClaims with
    | None => None
    | Some refreshToken =>
      Some {| AccessToken := accessToken; RefreshToken := refreshToken; PairExpiresAt := expiry;
              PairRefreshExpiresAt := sessionExpiresAt; TokenType := "Bearer" |}
    end
  end.

Definition GenerateTokenPair (tm : TokenManager) (user : User) (c : clock) (draws random : nat -> option string)
    : prog (TokenManager * reply TokenPair) :=
  if negb (validateTokenUser user) then ret (tm, Failed ErrInvalidToken) else
  let '(tm, high) := effectiveNowLocked tm c in
  let now := jwtTimestamp high in
  let '(tm, removed) := cleanupExpiredSessionsLocked tm now in
  if (refreshSessionLimit tm <=? activeSessionCountLocked tm now) ||
     (refreshUserSessionLimit tm <=? activeSessionCountForUserLocked tm (ID user) now)
  then ret (restoreRemovedSessionsLocked tm removed, Failed ErrRefreshSessionLimit)
  else
    match generateUniqueSessionIDLocked tm draws with
    | None => ret (restoreRemovedSessionsLocked tm removed, Failed ErrTokenOther)
    | Some sessionID =>
      let sessionExpiresAt := jwtTimestamp (Add now (refreshExpiry tm)) in
      if negb (After sessionExpiresAt now) then ret (restoreRemovedSessionsLocked tm removed, Failed ErrTokenExpired)
      else
        match signTokenPair user sessionID sessionExpiresAt 0 sessionID now (accessExpiry tm) (issuer tm) (secretKey tm) with
        | None => ret (restoreRemovedSessionsLocked tm removed, Failed ErrTokenOther)
        | Some tokenPair =>
          let lastRotatedAt := if 0 <? refreshRotationInterval tm then Add now (- refreshRotationInterval tm) else now in
          let record := {| rec_UserID := ID user; rec_ExpiresAt := sessionExpiresAt; rec_NextRefreshGeneration := 0;
                           rec_LastRotatedAt := lastRotatedAt |} in
          let added := with_registry tm (<[sessionID := record]> (sessionRegistry tm)) in
          let previousFloor := restartTimeFloor added in
          let extended := extendRestartTimeLeaseLocked added now in
          let dropped := with_registry extended (delete sessionID (sessionRegistry extended)) in
          persisted extended (with_floor (restoreRemovedSessionsLocked dropped removed) previousFloor) tokenPair random
        end
    end.

(** [generation] is the optional argument. *)
Definition generateTokenPairForSession (tm : TokenManager) (user : User) (sessionID : string) (sessionExpiresAt : Time)
    (generation : option Z) (c : clock) (draw : option string) (random : nat -> option string)
    : prog (TokenManager * result TokenError TokenPair) :=
  if negb (validateTokenUser user) || negb (validSessionID sessionID) || IsZero sessionExpiresAt then ret (tm, Err ErrInvalidToken) else
  run! (tm, prepared) := prepareValidationTime tm c random in
  ret (tm,
    let! now := prepared in
    match sessionRegistry tm !! sessionID with
    | None => Err ErrTokenRevoked
    | Some record =>
      let sessionExpiresAt := jwtTimestamp sessionExpiresAt in
      if negb (String.eqb (rec_UserID record) (ID user)) || negb (Equal (rec_ExpiresAt record) sessionExpiresAt) then Err ErrInvalidToken
      else if negb (After (rec_ExpiresAt record) now) then Err ErrTokenExpired
      else if rec_NextRefreshGeneration record =? maxUint64 then Err ErrInvalidToken
      else
        let refreshGeneration := uint64 (rec_NextRefreshGeneration record + 1) in
        if match generation with Some g => negb (g =? refreshGeneration) | None => false end then Err ErrInvalidToken
        else
          match generateTokenID draw with
          | None => Err ErrTokenOther
          | Some tokenID =>
            match signTokenPair user sessionID sessionExpiresAt refreshGeneration tokenID (jwtTimestamp now) (accessExpiry tm) (issuer tm) (secretKey tm) with
            | Some tokenPair => Ok tokenPair
            | None => Err ErrTokenOther
            end
          end
    end).

(** ** Access tokens *)

Definition access_claims_complete (claims : TokenClaims) : bool :=
  negb (String.eqb (ac_UserID claims) EmptyString || negb (String.eqb (Subject (ac_Registered claims)) (ac_UserID claims)) ||
    String.eqb (ac_Username claims) EmptyString || String.eqb (ClaimID (ac_Registered claims)) EmptyString ||
    negb (validSessionID (ac_SessionID claims)) ||
    match ac_SessionExpiresAt claims, ClaimExpiresAt (ac_Registered claims) with
    | Some session, Some token => session <? token
    | _, _ => true
    end).

Definition parse_access (tm : TokenManager) (validationNow : Time) (tokenString : string) : result TokenError TokenClaims :=
  match ParseAccess (secretKey tm) (issuer tm) tokenValidationLeeway (wall validationNow) tokenString with
  | Err JwtExpired => Err ErrTokenExpired
  | Err JwtOther => Err ErrInvalidToken
  | Ok claims => if access_claims_complete claims then Ok claims else Err ErrInvalidToken
  end.

(** What is done with the registry, after the claims are known. *)
Definition access_session (tm : TokenManager) (validationNow : Time) (claims : TokenClaims) : result TokenError TokenClaims :=
  match sessionRegistry tm !! ac_SessionID claims with
  | None => Err ErrTokenRevoked
  | Some record =>
    if negb (String.eqb (rec_UserID record) (ac_UserID claims)) ||
       match ac_SessionExpiresAt claims with Some e => negb (Equal (rec_ExpiresAt record) (at_wall e)) | None => true end
    then Err ErrInvalidToken
    else if negb (After (rec_ExpiresAt record) validationNow) then Err ErrTokenExpired
    else Ok claims
  end.

Definition ValidateAccessToken (tm : TokenManager) (tokenString : string) (c : clock) (random : nat -> option string)
    : prog (TokenManager * result TokenError TokenClaims) :=
  run! (tm, prepared) := prepareValidationTime tm c random in
  ret (tm, let! validationNow := prepared in
           let! claims := parse_access tm validationNow tokenString in
           access_session tm validationNow claims).

(** ** Refresh tokens *)

Definition refresh_claims_complete (claims : refreshTokenClaims) : bool :=
  let claimID := ClaimID (rc_Registered claims) in
  let accessTokenID := TrimSuffix claimID "-refresh" in
  negb (String.eqb (Subject (rc_Registered claims)) EmptyString || negb (validSessionID (rc_SessionID claims)) ||
    match ClaimExpiresAt (rc_Registered claims) with Some _ => false | None => true end ||
    String.eqb accessTokenID EmptyString || String.eqb accessTokenID claimID).

Definition parse_refresh (tm : TokenManager) (validationNow : Time) (tokenString : string) : result TokenError refreshTokenClaims :=
  match ParseRefresh (secretKey tm) (issuer tm) tokenValidationLeeway (wall validationNow) tokenString with
  | Err JwtExpired => Err ErrTokenExpired
  | Err JwtOther => Err ErrInvalidToken
  | Ok claims => if refresh_claims_complete claims then Ok claims else Err ErrInvalidToken
  end.

Definition parseRefreshTokenClaimsAtCurrentTime (tm : TokenManager) (tokenString : string) (c : clock) (random : nat -> option string)
    : prog (TokenManager * result TokenError (refreshTokenClaims * Time)) :=
  run! (tm, prepared) := prepareValidationTime tm c random in
  ret (tm, let! validationNow := prepared in
           let! claims := parse_refresh tm validationNow tokenString in
           Ok (claims, validationNow)).

Definition parseRefreshTokenClaims (tm : TokenManager) (tokenString : string) (c : clock) (random : nat -> option string)
    : prog (TokenManager * result TokenError refreshTokenClaims) :=
  run! (tm, parsed) := parseRefreshTokenClaimsAtCurrentTime tm tokenString c random in
  ret (tm, let! (claims, _) := parsed in Ok claims).

(** [None] is [nil]. *)
Definition validateRefreshTokenClaimsLocked (tm : TokenManager) (claims : refreshTokenClaims) (now : Time) : option TokenError :=
  match sessionRegistry tm !! rc_SessionID claims with
  | None => Some ErrTokenRevoked
  | Some record =>
    if negb (String.eqb (rec_UserID record) (Subject (rc_Registered claims))) ||
       match ClaimExpiresAt (rc_Registered claims) with Some e => negb (Equal (rec_ExpiresAt record) (at_wall e)) | None => true end
    then Some ErrInvalidToken
    else if negb (After (rec_ExpiresAt record) now) then Some ErrTokenExpired
    else if rc_Generation claims <? rec_NextRefreshGeneration record then Some errRefreshTokenReused
    else if rec_NextRefreshGeneration record <? rc_Generation claims then Some ErrInvalidToken
    else None
  end.

(** The claims come with [errRefreshTokenReused], and no other error. *)
Definition validateRefreshTokenClaims (tm : TokenManager) (tokenString : string) (c : clock) (random : nat -> option string)
    : prog (TokenManager * result (TokenError * option refreshTokenClaims) refreshTokenClaims) :=
  run! (tm, parsed) := parseRefreshTokenClaimsAtCurrentTime tm tokenString c random in
  ret (tm, match parsed with
           | Err e => Err (e, None)
           | Ok (claims, validationNow) =>
             match validateRefreshTokenClaimsLocked tm claims validationNow with
             | None => Ok claims
             | Some errRefreshTokenReused => Err (errRefreshTokenReused, Some claims)
             | Some e => Err (e, None)
             end
           end).

Definition ValidateRefreshToken (tm : TokenManager) (tokenString : string) (c : clock) (random : nat -> option string)
    : prog (TokenManager * result TokenError string) :=
  run! (tm, validated) := validateRefreshTokenClaims tm tokenString c random in
  ret (tm, match validated with
           | Err (errRefreshTokenReused, _) => Err ErrTokenRevoked
           | Err (e, _) => Err e
           | Ok claims => Ok (Subject (rc_Registered claims))
           end).

Definition consumeRefreshTokenClaims (tm : TokenManager) (claims : refreshTokenClaims) (c : clock) (random : nat -> option string)
    : prog (TokenManager * reply unit) :=
  let claimID := ClaimID (rc_Registered claims) in
  match ClaimExpiresAt (rc_Registered claims) with
  | None => ret (tm, Failed ErrInvalidToken)
  | Some expiresAt =>
    if String.eqb (Subject (rc_Registered claims)) EmptyString || negb (validSessionID (rc_SessionID claims)) ||
       String.eqb (TrimSuffix claimID "-refresh") EmptyString || negb (HasSuffix claimID "-refresh")
    then ret (tm, Failed ErrInvalidToken)
    else
      let '(tm, now) := effectiveNowLocked tm c in
      if negb (After (at_wall expiresAt) now) then ret (tm, Failed ErrTokenExpired)
      else
        match validateRefreshTokenClaimsLocked tm claims now, sessionRegistry tm !! rc_SessionID claims with
        | Some e, _ => ret (tm, Failed e)
        | None, None => ret (tm, Failed ErrTokenRevoked)
        | None, Some previous =>
          if rc_Generation claims =? maxUint64 then ret (tm, Failed ErrInvalidToken)
          else if (0 <? refreshRotationInterval tm) && Before now (Add (rec_LastRotatedAt previous) (refreshRotationInterval tm))
          then ret (tm, Failed ErrRefreshRateLimited)
          else
            let updated := {| rec_UserID := rec_UserID previous; rec_ExpiresAt := rec_ExpiresAt previous;
                              rec_NextRefreshGeneration := uint64 (rc_Generation claims + 1); rec_LastRotatedAt := now |} in
            let rotated := with_registry tm (<[rc_SessionID claims := updated]> (sessionRegistry tm)) in
            let previousFloor := restartTimeFloor rotated in
            let extended := extendRestartTimeLeaseLocked rotated now in
            persisted extended (with_floor (with_registry extended (<[rc_SessionID claims := previous]> (sessionRegistry extended))) previousFloor) tt random
        end
  end.

(** ** Revoking *)

(** The registry without the sessions of [chosen], and what was removed. *)
Definition remove_sessions (tm : TokenManager) (chosen : string -> sessionRegistryRecord -> bool)
    : TokenManager * gmap string sessionRegistryRecord :=
  (with_registry tm (filter (fun '(id, record) => chosen id record = false) (sessionRegistry tm)),
   filter (fun '(id, record) => chosen id record = true) (sessionRegistry tm)).

(** The end of the calls that remove: nothing is written when nothing was removed. *)
Definition persist_removal (tm : TokenManager) (now : Time) (removedExpired removed : gmap string sessionRegistryRecord)
    (random : nat -> option string) : prog (TokenManager * reply unit) :=
  if Nat.eqb (size removedExpired) 0 && Nat.eqb (size removed) 0 then ret (tm, Done tt)
  else
    let previousFloor := restartTimeFloor tm in
    let extended := extendRestartTimeLeaseLocked tm now in
    persisted extended
      (with_floor (restoreRemovedSessionsLocked (restoreRemovedSessionsLocked extended removedExpired) removed) previousFloor) tt random.

Definition RevokeSessions (tm : TokenManager) (sessions : gmap string Time) (c : clock) (random : nat -> option string)
    : prog (TokenManager * reply unit) :=
  if Nat.eqb (size sessions) 0 then ret (tm, Done tt)
  else if existsb (fun '(sessionID, expiresAt) => negb (validSessionID sessionID) || IsZero expiresAt) (map_to_list sessions)
  then ret (tm, Failed ErrInvalidToken)
  else
    let '(tm, now) := effectiveNowLocked tm c in
    let '(tm, removedExpired) := cleanupExpiredSessionsLocked tm now in
    let '(tm, removedRequested) := remove_sessions tm (fun sessionID _ => bool_decide (is_Some (sessions !! sessionID))) in
    persist_removal tm now removedExpired removedRequested random.

Definition RevokeSession (tm : TokenManager) (sessionID : string) (expiresAt : Time) (c : clock) (random : nat -> option string)
    : prog (TokenManager * reply unit) :=
  RevokeSessions tm {[sessionID := expiresAt]} c random.

Definition RevokeByUser (tm : TokenManager) (userID : string) (c : clock) (random : nat -> option string)
    : prog (TokenManager * reply unit) :=
  if String.eqb userID EmptyString then ret (tm, Failed ErrInvalidToken)
  else
    let '(tm, now) := effectiveNowLocked tm c in
    let '(tm, removedExpired) := cleanupExpiredSessionsLocked tm now in
    let '(tm, removedUser) := remove_sessions tm (fun _ record => String.eqb (rec_UserID record) userID) in
    persist_removal tm now removedExpired removedUser random.

Definition CleanupExpiredSessions (tm : TokenManager) (c : clock) (random : nat -> option string) : prog (TokenManager * reply unit) :=
  let '(tm, now) := effectiveNowLocked tm c in
  let '(tm, removed) := cleanupExpiredSessionsLocked tm now in
  persist_removal tm now removed ∅ random.
End Calls.
End TokenOps.
