(* ===== verification/TokenSpec.v ===== *)
(** * Tokens and login sessions: what the calls promise

    The invariant of the token manager, what the file of the sessions holds, the mutations as a type with what
    each of them does to the registry, and the lemmas on the file. *)

From Stdlib Require Import Ascii.
From S2P Require Import Prelude GoStrings GoPath GoFormat GoTime MonoTime Sha256 Users FileMonad UserFields AuthFiles UsersFile TokenTypes Tokens TokenOps.
Import MonoTime Sha256 AuthFiles UsersFile TokenTypes Tokens TokenOps.

Module TokenSpec.

Notation registry := (gmap string sessionRegistryRecord).

(** A record as the file keeps it: without monotonic readings. *)
Definition plain (r : sessionRegistryRecord) : sessionRegistryRecord :=
  {| rec_UserID := rec_UserID r; rec_ExpiresAt := at_wall (wall (rec_ExpiresAt r));
     rec_NextRefreshGeneration := rec_NextRefreshGeneration r; rec_LastRotatedAt := at_wall (wall (rec_LastRotatedAt r)) |}.

Section Spec.
Context {case_tables : Unicode} {codec : SessionCodec} {jwt : Jwt}.

(** ** The invariant *)

Definition record_ok (id : string) (r : sessionRegistryRecord) : Prop :=
  validatePersistedSessionRecord id r = true /\ ValidString id = true /\ storable_record r = true /\ mono (rec_ExpiresAt r) = None.
Definition registry_ok (reg : registry) : Prop := map_Forall record_ok reg.

(** What the file of the sessions holds. *)
Definition loadable (text : string) (floor : Time) (reg : registry) : Prop :=
  0 < len text <= maxTokenSessionStateFileBytes /\
  decodeTokenSessionState text =
    Some {| st_SchemaVersion := tokenSessionSchemaVersion; st_RestartTimeFloor := at_wall (wall floor); st_Sessions := plain <$> reg |}.
Definition holds (floor : Time) (reg : registry) (m : gmap string string) : Prop :=
  exists text, m !! sessionsFile = Some text /\ loadable text floor reg.

(** The file is the memory, once there is one. *)
Definition persistent (tm : TokenManager) : bool := negb (String.eqb (sessionStorePath tm) EmptyString).
Definition saved (tm : TokenManager) (m : gmap string string) : Prop :=
  persistent tm = true -> holds (restartTimeFloor tm) (sessionRegistry tm) m.

(** The time has been in the present era since it was first read. *)
Definition era : Z := zero_instant + 3600 * second.
Definition time_ok (tm : TokenManager) : Prop := IsZero (timeHighWater tm) = true \/ era < wall (timeHighWater tm).

(** The limits on the sessions. *)
Definition sessions_of (userID : string) (reg : registry) : registry := filter (fun '(_, r) => rec_UserID r = userID) reg.
Definition within (tm : TokenManager) (reg : registry) : Prop :=
  Z.of_nat (size reg) <= refreshSessionLimit tm /\
  forall userID, Z.of_nat (size (sessions_of userID reg)) <= refreshUserSessionLimit tm.

Definition tm_ok (tm : TokenManager) : Prop :=
  registry_ok (sessionRegistry tm) /\ within tm (sessionRegistry tm) /\ time_ok tm /\ refreshRotationInterval tm <= 1800 * second.

(** What no call changes. *)
Definition same_config (tm tm' : TokenManager) : Prop :=
  sessionStorePath tm' = sessionStorePath tm /\ refreshSessionLimit tm' = refreshSessionLimit tm /\
  refreshUserSessionLimit tm' = refreshUserSessionLimit tm /\ refreshRotationInterval tm' = refreshRotationInterval tm.

(** ** The mutations *)

Inductive op :=
| OpPrepare (c : clock)
| OpGenerate (user : User) (c : clock) (draws : nat -> option string)
| OpConsume (claims : refreshTokenClaims) (c : clock)
| OpRevokeSessions (sessions : gmap string Time) (c : clock)
| OpRevokeByUser (userID : string) (c : clock)
| OpCleanup (c : clock)
| OpUpdateExpiries (access refresh : Z).

Definition discard {A} (p : prog (TokenManager * reply A)) : prog (TokenManager * reply unit) :=
  run! (tm, r) := p in ret (tm, match r with Done _ => Done tt | Warned _ => Warned tt | Failed e => Failed e end).

(** [OpPrepare] is what every validation begins with; the rest of a validation changes nothing. *)
Definition run (o : op) (tm : TokenManager) (random : nat -> option string) : prog (TokenManager * reply unit) :=
  match o with
  | OpPrepare c => run! (tm, r) := prepareValidationTime tm c random in ret (tm, match r with Ok _ => Done tt | Err e => Failed e end)
  | OpGenerate user c draws => discard (GenerateTokenPair tm user c draws random)
  | OpConsume claims c => consumeRefreshTokenClaims tm claims c random
  | OpRevokeSessions sessions c => RevokeSessions tm sessions c random
  | OpRevokeByUser userID c => RevokeByUser tm userID c random
  | OpCleanup c => CleanupExpiredSessions tm c random
  | OpUpdateExpiries access refresh => ret (UpdateExpiries tm access refresh, Done tt)
  end.

Definition unexpired (now : Time) (reg : registry) : registry := filter (fun '(_, r) => active now r = true) reg.

(** The identifier that a login draws. *)
Definition drawn (o : op) (tm : TokenManager) : option string :=
  match o with
  | OpGenerate user c draws =>
    uniqueSessionID maxSessionIDGenerationAttempts (unexpired (jwtTimestamp (snd (effectiveNowLocked tm c))) (sessionRegistry tm)) draws
  | _ => None
  end.

(** What a mutation does to the registry when it succeeds. *)
Definition effect (o : op) (tm : TokenManager) (reg reg' : registry) : Prop :=
  let now c := snd (effectiveNowLocked tm c) in
  match o with
  | OpUpdateExpiries _ _ => reg' = reg
  | OpPrepare c => reg' = reg \/ reg' = unexpired (now c) reg
  | OpGenerate user c draws =>
    let kept := unexpired (jwtTimestamp (now c)) reg in
    exists sessionID record, drawn o tm = Some sessionID /\ kept !! sessionID = None /\ record_ok sessionID record /\
      rec_UserID record = ID user /\ rec_NextRefreshGeneration record = 0 /\ active (jwtTimestamp (now c)) record = true /\
      Z.of_nat (size kept) < refreshSessionLimit tm /\
      Z.of_nat (size (sessions_of (ID user) kept)) < refreshUserSessionLimit tm /\
      reg' = <[sessionID := record]> kept
  | OpConsume claims c =>
    exists previous record, reg !! rc_SessionID claims = Some previous /\
      rec_UserID previous = Subject (rc_Registered claims) /\ rec_NextRefreshGeneration previous = rc_Generation claims /\
      active (now c) previous = true /\ record_ok (rc_SessionID claims) record /\
      rec_UserID record = rec_UserID previous /\ rec_ExpiresAt record = rec_ExpiresAt previous /\
      rec_NextRefreshGeneration record = rc_Generation claims + 1 /\
      reg' = <[rc_SessionID claims := record]> reg
  | OpRevokeSessions sessions c =>
    sessions = ∅ /\ reg' = reg \/ reg' = filter (fun '(id, _) => sessions !! id = None) (unexpired (now c) reg)
  | OpRevokeByUser userID c => reg' = filter (fun '(_, r) => rec_UserID r <> userID) (unexpired (now c) reg)
  | OpCleanup c => reg' = unexpired (now c) reg
  end.

(** The wall clock is not set during a call, nor has it been since the instants that the manager holds were read. *)
Definition clock_of (o : op) : option clock :=
  match o with
  | OpPrepare c | OpGenerate _ c _ | OpConsume _ c | OpRevokeSessions _ c | OpRevokeByUser _ c | OpCleanup c => Some c
  | OpUpdateExpiries _ _ => None
  end.
Definition clocks_agree (k : Z) (tm : TokenManager) (o : op) : Prop :=
  agrees k (timeHighWater tm) /\ agrees k (timeHighWaterObservedAt tm) /\ agrees k (restartTimeFloor tm) /\
  forall c, clock_of o = Some c -> agrees k (clock_now c) /\ agrees k (clock_observed c).

(** Then the floor only rises. *)
Definition rising (o : op) (tm : TokenManager) (floor : Time) : Prop :=
  forall k, clocks_agree k tm o -> agrees k floor /\ wall (restartTimeFloor tm) <= wall floor.

(** What the arguments of the calls are assumed to be: strings that were decoded from JSON are UTF-8, the
    readings of the clock are in the present era, and a token's generation has 64 bits. *)
Definition readings_ok (c : clock) : Prop := era < wall (clock_now c).
Definition arguments_ok (o : op) : Prop :=
  match o with
  | OpGenerate user c _ => ValidString (ID user) = true /\ readings_ok c
  | OpConsume claims c => 0 <= rc_Generation claims <= maxUint64 /\ readings_ok c
  | OpPrepare c | OpRevokeSessions _ c | OpRevokeByUser _ c | OpCleanup c => readings_ok c
  | OpUpdateExpiries _ _ => True
  end.

(** ** The file *)

Lemma decode_encode_record id r : record_ok id r -> decodeRecord id (encode_record r) = Some (plain r).
Proof.
  intros (Hv & _ & _ & Hm). unfold decodeRecord, encode_record. cbn [enc_UserID enc_ExpiresAt enc_NextRefreshGeneration enc_LastRotatedAt].
  fold (plain r). enough (validatePersistedSessionRecord id (plain r) = true) as -> by done.
  revert Hv. unfold validatePersistedSessionRecord. cbn [plain rec_UserID rec_ExpiresAt rec_LastRotatedAt].
  unfold IsZero, After, on_clocks. cbn [at_wall wall mono]. rewrite Hm. by destruct (mono (rec_LastRotatedAt r)).
Qed.

Lemma decode_records (l : list (string * sessionRegistryRecord)) : NoDup l.*1 -> Forall (fun '(id, r) => record_ok id r) l ->
  decodeRecords (prod_map id encode_record <$> l) = Some (list_to_map (prod_map id plain <$> l)).
Proof.
  induction l as [|[sessionID r] l IH]; [done|]. cbn [fmap list_fmap prod_map fst snd]. intros [_ Hn]%NoDup_cons [Hr Hl]%Forall_cons.
  change (id sessionID) with sessionID. cbn [decodeRecords]. by rewrite decode_encode_record, IH.
Qed.

Lemma decode_stateOf tm text : registry_ok (sessionRegistry tm) -> IsZero (restartTimeFloor tm) = false ->
  Z.of_nat (size (sessionRegistry tm)) <= maxTrackedRefreshSessions -> MarshalSession (stateOf tm) = Some text ->
  decodeTokenSessionState text =
    Some {| st_SchemaVersion := tokenSessionSchemaVersion; st_RestartTimeFloor := at_wall (wall (restartTimeFloor tm));
            st_Sessions := plain <$> sessionRegistry tm |}.
Proof.
  intros Hok Hz Hsize Ht. destruct (marshal_session_ok _ _ Ht) as (j & Hp & Hw & Hd).
  { intros id r Hr. destruct (Hok id r Hr) as (_ & Hi & Hs & _). done. }
  unfold decodeTokenSessionState. rewrite Hp, Hw, Hd. cbn [negb encode_state stateOf st_SchemaVersion st_RestartTimeFloor st_Sessions enc_SchemaVersion enc_RestartTimeFloor enc_Sessions].
  rewrite Z.eqb_refl. cbn [negb]. change (IsZero (at_wall (wall (restartTimeFloor tm)))) with (IsZero (restartTimeFloor tm)). rewrite Hz.
  rewrite map_size_fmap. rewrite (proj2 (Z.ltb_ge _ _)) by done.
  rewrite map_to_list_fmap. rewrite decode_records.
  - rewrite list_to_map_fmap, list_to_map_to_list. done.
  - apply NoDup_fst_map_to_list.
  - apply Forall_forall. intros [id r] Hin. apply elem_of_map_to_list in Hin. by apply Hok.
Qed.

(** Writing the state: the file holds it when no error is reported, and what it held otherwise. *)
Definition committed (tm : TokenManager) (m m' : gmap string string) : Prop :=
  if persistent tm then exists text, m' = <[sessionsFile := text]> m /\ loadable text (restartTimeFloor tm) (sessionRegistry tm) else m' = m.

Lemma committed_holds tm m m' : committed tm m m' -> saved tm m'.
Proof.
  unfold committed, saved. destruct (persistent tm); [|done]. intros (text & -> & Hl) _. exists text. split; [by rewrite lookup_insert_eq|done].
Qed.

Lemma always_persist tm m random : registry_ok (sessionRegistry tm) ->
  always (files m) (persistSessionStateLocked tm random)
    (fun r d => match r with NotWritten _ => files m d | _ => exists m', committed tm m m' /\ files m' d end)
    (fun d => files m d \/ exists m', committed tm m m' /\ files m' d).
Proof.
  intros Hok. unfold persistSessionStateLocked. destruct (String.eqb (sessionStorePath tm) EmptyString) eqn:Ep.
  { apply always_ret. intros d Hd. exists m. split; [|done]. unfold committed, persistent. by rewrite Ep. }
  destruct (IsZero (restartTimeFloor tm)) eqn:Ez; [by apply always_ret|]. destruct (maxTrackedRefreshSessions <? _) eqn:Es; [by apply always_ret|].
  destruct (MarshalSession (stateOf tm)) as [text|] eqn:Et; [|by apply always_ret]. destruct (maxTokenSessionStateFileBytes <? len text) eqn:El; [by apply always_ret|].
  apply Z.ltb_ge in Es, El. pose proof (decode_stateOf tm text Hok Ez Es Et) as Hdec.
  assert (Hc : committed tm m (<[sessionsFile := text]> m)).
  { unfold committed, persistent. rewrite Ep. cbn [negb]. exists text. split; [done|]. split; [|done]. split; [|done].
    destruct text as [|a text]; [|unfold len; cbn [String.length]; lia]. unfold decodeTokenSessionState in Hdec. by rewrite parse_empty in Hdec. }
  eapply always_weaken; [by apply always_write; [apply stored_sessions|]|done| |].
  - intros [| |e] d Hd; [by eexists|by eexists|done].
  - intros d [Hd|Hd]; [by left|right; by eexists].
Qed.
End Spec.
End TokenSpec.
