(* ===== verification/TokenAtomic.v ===== *)
(** * Tokens and login sessions: every call is atomic

    The calls of the token manager keep its invariant and do to the registry and its file what [effect] says or
    nothing, under any failing file operations and any crash. *)

From Stdlib Require Import Ascii.
From S2P Require Import Prelude GoStrings GoPath GoRunes GoFormat GoTime MonoTime Sha256 Users FileMonad UserFields AuthFiles UsersFile TokenTypes Tokens TokenOps TokenSpec.
Import MonoTime Sha256 AuthFiles UsersFile TokenTypes Tokens TokenOps TokenSpec.

Module TokenAtomic.

(** ** Identifiers *)

Lemma fromHexChar_digit n : (n < 16)%N -> fromHexChar (hex_digit n) = Some n.
Proof.
  intros H. assert (Hin : In n (List.map N.of_nat (seq 0 16))).
  { apply in_map_iff. exists (N.to_nat n). split; [lia|]. apply in_seq. lia. }
  cbn in Hin. repeat (destruct Hin as [<-|Hin]; [vm_compute; reflexivity|]). done.
Qed.

Lemma DecodeString_EncodeToString s : DecodeString (EncodeToString s) = Some s.
Proof.
  induction s as [|a s IH]; [done|]. cbn [EncodeToString DecodeString].
  pose proof (N_ascii_bounded a) as Ha.
  assert (H1 : (N.shiftr (N_of_ascii a) 4 < 16)%N) by (rewrite N.shiftr_div_pow2; apply N.Div0.div_lt_upper_bound; lia).
  assert (H2 : N.land (N_of_ascii a) 15 = (N_of_ascii a mod 16)%N) by exact (N.land_ones (N_of_ascii a) 4).
  rewrite !fromHexChar_digit; [|rewrite H2; by apply N.mod_lt|done]. rewrite IH. do 2 f_equal. rewrite H2, N.shiftr_div_pow2.
  change (2 ^ 4)%N with 16%N. rewrite <-(N.div_mod (N_of_ascii a) 16) by done. apply ascii_N_embedding.
Qed.

Lemma encoded_lower s : forallb (fun a => ascii_byte a && negb (is_upper (N_of_ascii a))) (String.list_ascii_of_string (EncodeToString s)) = true.
Proof.
  assert (Hd : forall a, let c := fun x => ascii_byte x && negb (is_upper (N_of_ascii x)) in
    c (hex_digit (N.shiftr (N_of_ascii a) 4)) && c (hex_digit (N.land (N_of_ascii a) 15)) = true) by (apply all_bytes; vm_compute; reflexivity).
  induction s as [|a s IH]; [done|]. cbn [EncodeToString String.list_ascii_of_string forallb]. specialize (Hd a). cbv zeta in Hd.
  apply andb_true_iff in Hd as [H1 H2]. by rewrite H1, H2, IH.
Qed.

Section Ids.
Context {case_tables : Unicode}.

Lemma encode_ascii a : implb (ascii_byte a) (String.eqb (encode_rune (N_of_ascii a)) (String a EmptyString)) = true.
Proof. revert a. apply all_bytes. vm_compute. reflexivity. Qed.

Lemma ToLower_plain s : forallb (fun a => ascii_byte a && negb (is_upper (N_of_ascii a))) (String.list_ascii_of_string s) = true -> ToLower s = s.
Proof.
  intros H. unfold ToLower. rewrite runes_of_ascii.
  - induction s as [|a s IH]; [done|]. cbn [String.list_ascii_of_string forallb map fold_right] in *. apply andb_true_iff in H as [Ha Hs].
    apply andb_true_iff in Ha as [Ha Hu]. rewrite IH by done. unfold rune_lower. unfold ascii_byte in Ha. rewrite Ha.
    destruct (is_upper (N_of_ascii a)); [done|]. pose proof (encode_ascii a) as He. unfold ascii_byte in He. rewrite Ha in He.
    apply String.eqb_eq in He. by rewrite He.
  - apply List.forallb_forall. intros a Hin. rewrite List.forallb_forall in H. specialize (H a Hin). by apply andb_true_iff in H as [].
Qed.

Lemma ValidString_ascii s : forallb ascii_byte (String.list_ascii_of_string s) = true -> ValidString s = true.
Proof.
  intros H. unfold ValidString. rewrite runes_of_ascii by done. apply List.forallb_forall. intros [r b] Hin.
  apply in_map_iff in Hin as (a & [= <- <-] & Ha). rewrite List.forallb_forall in H. specialize (H a Ha). unfold ascii_byte in H.
  destruct (N.eqb_spec (N_of_ascii a) RuneError) as [E|]; [|done]. rewrite E in H. done.
Qed.

Lemma valid_generated draw id : generateTokenID draw = Some id -> validSessionID id = true /\ ValidString id = true.
Proof.
  unfold generateTokenID. destruct draw as [b|]; [|done]. destruct (Z.eqb_spec (len b) 16) as [Hl|]; [|done]. intros [= <-].
  pose proof (encoded_lower b) as Hlow. split.
  - unfold validSessionID. rewrite ToLower_plain, String.eqb_refl, DecodeString_EncodeToString, Hl by done.
    assert (He : len (EncodeToString b) = 32).
    { unfold len in *. enough (String.length (EncodeToString b) = 2 * String.length b)%nat by lia. clear. induction b as [|a b IH]; [done|]. cbn. rewrite IH. lia. }
    by rewrite He.
  - apply ValidString_ascii. apply List.forallb_forall. intros a Hin. rewrite List.forallb_forall in Hlow. by apply Hlow, andb_true_iff in Hin as [].
Qed.

Lemma uniqueSessionID_ok attempts reg draws id : uniqueSessionID attempts reg draws = Some id ->
  reg !! id = None /\ validSessionID id = true /\ ValidString id = true.
Proof.
  revert draws. induction attempts as [|attempts IH]; intros draws; [done|]. cbn [uniqueSessionID].
  destruct (generateTokenID (draws O)) as [id'|] eqn:E; [|done]. case_bool_decide as Hin; [apply IH|].
  intros [= <-]. apply eq_None_not_Some in Hin. split; [done|by eapply valid_generated].
Qed.
End Ids.

(** ** Time *)

Lemma effective_clock tm c : exists high, effectiveNowLocked tm c = (with_clock tm high (clock_observed c), high) /\
  (readings_ok c -> time_ok tm -> era < wall high).
Proof.
  unfold effectiveNowLocked, readings_ok, time_ok. cbv zeta. eexists. split; [reflexivity|]. intros Hc Ht.
  destruct (IsZero (timeHighWater tm)) eqn:Ez.
  - by destruct (After _ _).
  - destruct Ht as [|Ht]; [done|]. destruct (After (clock_now c) _); [done|].
    destruct (negb _ && _) eqn:Ea; [|done]. apply andb_true_iff in Ea as [_ Ea]. pose proof (Sub_pos _ _ Ea). unfold Add. cbn [wall]. lia.
Qed.

(** ** Registries *)

Section Registries.
Context {case_tables : Unicode} {codec : SessionCodec} {jwt : Jwt}.

Lemma subset_ok tm reg reg' : reg' ⊆ reg -> registry_ok reg -> within tm reg -> registry_ok reg' /\ within tm reg'.
Proof.
  intros Hs Hok [Hn Hu]. split.
  - intros id r Hr. apply Hok. by eapply lookup_weaken.
  - split; [pose proof (map_subseteq_size _ _ Hs); lia|]. intros userID. specialize (Hu userID).
    pose proof (map_subseteq_size _ _ (map_filter_subseteq_mono (fun '(_, r) => rec_UserID r = userID) _ _ Hs)). unfold sessions_of in *. lia.
Qed.

Lemma unexpired_subset now reg : unexpired now reg ⊆ reg.
Proof. apply map_filter_subseteq. Qed.

(** Putting back what was removed. *)
Lemma restore_cleanup tm now : let '(tm', removed) := cleanupExpiredSessionsLocked tm now in
  removed ∪ sessionRegistry tm' = sessionRegistry tm.
Proof.
  cbn. apply map_eq. intros id. rewrite lookup_union, !map_lookup_filter. destruct (sessionRegistry tm !! id) as [r|]; [|done]. cbn.
  destruct (active now r) eqn:E; repeat case_guard; try done; congruence.
Qed.

Lemma restore_removal tm now chosen : let '(tm', removedExpired) := cleanupExpiredSessionsLocked tm now in
  let '(tm'', removed) := remove_sessions tm' chosen in
  removed ∪ (removedExpired ∪ sessionRegistry tm'') = sessionRegistry tm.
Proof.
  cbn. apply map_eq. intros id. rewrite !lookup_union, !map_lookup_filter. destruct (sessionRegistry tm !! id) as [r|]; [|done]. cbn.
  destruct (active now r) eqn:E; repeat case_guard; cbn; repeat case_guard; cbn; try done; destruct (chosen id r); congruence.
Qed.

(** ** The end of every mutation *)

(** The manager that a call returns, and what the files hold then; [E] is what it does when it succeeds. *)
Definition settled {A} (tm : TokenManager) (m : gmap string string) (F : Time -> Prop) (E : registry -> Prop) (out : TokenManager * reply A) (d : dir) : Prop :=
  let '(tm', r) := out in
  tm_ok tm' /\ same_config tm tm' /\ F (restartTimeFloor tm') /\
  exists m', files m' d /\ saved tm' m' /\ (forall name, name <> sessionsFile -> m' !! name = m !! name) /\
  match r with Failed _ => sessionRegistry tm' = sessionRegistry tm | _ => E (sessionRegistry tm') end.

(** What a crash leaves: the old file, or one with the sessions after the call. *)
Definition crashed (tm : TokenManager) (m : gmap string string) (F : Time -> Prop) (E : registry -> Prop) (d : dir) : Prop :=
  exists m', files m' d /\ (forall name, name <> sessionsFile -> m' !! name = m !! name) /\
  (m' = m \/ exists floor reg, F floor /\ registry_ok reg /\ holds floor reg m' /\ E reg).

Lemma committed_frame tm m m' name : committed tm m m' -> name <> sessionsFile -> m' !! name = m !! name.
Proof.
  unfold committed. destruct (persistent tm); [|by intros ->]. intros (text & -> & _) Hn. by rewrite lookup_insert_ne.
Qed.

Lemma committed_crashed tm1 tm m m' (F : Time -> Prop) E d : F (restartTimeFloor tm1) -> committed tm1 m m' -> registry_ok (sessionRegistry tm1) -> E (sessionRegistry tm1) -> files m' d -> crashed tm m F E d.
Proof.
  intros Hlater Hc Hok HE Hd. exists m'. split; [done|]. split; [intros name; by eapply committed_frame|].
  unfold committed in Hc. destruct (persistent tm1); [|by left]. destruct Hc as (text & -> & Hl). right. exists (restartTimeFloor tm1), (sessionRegistry tm1).
  split_and!; [done|done| |done]. exists text. by rewrite lookup_insert_eq.
Qed.

(** [tm] before the call, [tm1] changed, [tm0] restored; [k] is what is returned. *)
Lemma always_persist_then {A} tm m tm1 tm0 random (F : Time -> Prop) (E : registry -> Prop) (k : write -> TokenManager * reply A) :
  saved tm m ->
  tm_ok tm1 -> same_config tm tm1 -> F (restartTimeFloor tm) -> F (restartTimeFloor tm1) -> E (sessionRegistry tm1) ->
  tm_ok tm0 -> same_config tm tm0 -> sessionRegistry tm0 = sessionRegistry tm -> restartTimeFloor tm0 = restartTimeFloor tm ->
  (forall w, match w with
   | NotWritten _ => fst (k w) = tm0 /\ match snd (k w) with Failed _ => True | _ => E (sessionRegistry tm) end
   | _ => fst (k w) = tm1 /\ match snd (k w) with Failed _ => False | _ => True end
   end) ->
  always (files m) (run! saved := persistSessionStateLocked tm1 random in ret (k saved)) (settled tm m F E) (crashed tm m F E).
Proof.
  intros Hs Hok1 Hc1 HF Hl1 HE Hok0 Hc0 Hr Hf Hk. eapply always_bind.
  - eapply always_weaken; [apply (always_persist tm1 m random), Hok1|done|intros r d H; exact H|].
    intros d [Hd|(m' & Hm & Hd)]; [by exists m; split_and!; try done; left|eapply committed_crashed; try done; apply Hok1].
  - intros w. apply always_ret. intros d Hd. specialize (Hk w).
    assert (Hgood : fst (k w) = tm1 /\ match snd (k w) with Failed _ => False | _ => True end -> (exists m', committed tm1 m m' /\ files m' d) -> settled tm m F E (k w) d).
    { destruct (k w) as [tm' r]. cbn. intros [-> Hr'] (m' & Hm & Hd'). split; [done|]. split; [done|]. split; [done|]. exists m'.
      split_and!; [done|by eapply committed_holds|intros name; by eapply committed_frame|]. by destruct r. }
    destruct w; [by apply Hgood|by apply Hgood|]. destruct (k _) as [tm' r]. cbn in Hk. destruct Hk as [-> Hr']. split; [done|]. split; [done|]. split; [by rewrite Hf|].
    exists m. split_and!; try done; [|rewrite Hr; by destruct r]. unfold saved, persistent. destruct Hc0 as (-> & _). rewrite Hr, Hf. exact Hs.
Qed.

Lemma always_persisted {A} tm m tm1 tm0 (a : A) random (F : Time -> Prop) (E : registry -> Prop) :
  saved tm m ->
  tm_ok tm1 -> same_config tm tm1 -> F (restartTimeFloor tm) -> F (restartTimeFloor tm1) -> E (sessionRegistry tm1) ->
  tm_ok tm0 -> same_config tm tm0 -> sessionRegistry tm0 = sessionRegistry tm -> restartTimeFloor tm0 = restartTimeFloor tm ->
  always (files m) (persisted tm1 tm0 a random) (settled tm m F E) (crashed tm m F E).
Proof. intros. apply always_persist_then with tm0; try done. by intros []. Qed.

(** Programs that run alike. *)
Lemma always_ext {A} (P : dir -> Prop) (p q : prog A) Q C : (forall w, q w = p w) -> always P p Q C -> always P q Q C.
Proof. intros He H w Hw. rewrite He. by apply H. Qed.

Lemma always_discarded {A} tm m F E (p : prog (TokenManager * reply A)) :
  always (files m) p (settled tm m F E) (crashed tm m F E) -> always (files m) (discard p) (settled tm m F E) (crashed tm m F E).
Proof.
  intros H. eapply always_bind; [exact H|]. intros [tm' r]. apply always_ret. intros d (H1 & H2 & Hl & m' & H3 & H4 & H5 & H6).
  split; [done|]. split; [done|]. split; [done|]. exists m'. split_and!; try done. by destruct r.
Qed.

(** A call that ends without writing: an error, or nothing to do. *)
Lemma always_stopped {A} tm m tm' (r : reply A) (F : Time -> Prop) E : saved tm m -> F (restartTimeFloor tm) -> tm_ok tm' -> same_config tm tm' ->
  sessionRegistry tm' = sessionRegistry tm -> restartTimeFloor tm' = restartTimeFloor tm ->
  match r with Failed _ => True | _ => E (sessionRegistry tm) end ->
  always (files m) (ret (tm', r)) (settled tm m F E) (crashed tm m F E).
Proof.
  intros Hs HF Hok Hc Hr Hf HE. apply always_ret. intros d Hd. split; [done|]. split; [done|]. split; [by rewrite Hf|]. exists m. split_and!; try done.
  - unfold saved, persistent. destruct Hc as (-> & _). rewrite Hr, Hf. exact Hs.
  - rewrite Hr. by destruct r.
Qed.

Lemma extend_floor tm now : exists floor, extendRestartTimeLeaseLocked tm now = with_floor tm floor /\
  (floor = restartTimeFloor tm \/ floor = Add now (timeLeaseDuration tm) /\ After floor (restartTimeFloor tm) = true).
Proof.
  unfold extendRestartTimeLeaseLocked. destruct (_ || _); [exists (restartTimeFloor tm); split; [by destruct tm|by left]|]. cbv zeta.
  destruct (After _ _) eqn:E; [eexists; split; [done|by right]|exists (restartTimeFloor tm); split; [by destruct tm|by left]].
Qed.

Lemma rising_same o tm : rising o tm (restartTimeFloor tm).
Proof. intros k (_ & _ & H & _). by split. Qed.

(** With clocks that agree, the time of the manager agrees and does not go back. *)
Lemma effective_agrees k tm c : agrees k (timeHighWater tm) -> agrees k (timeHighWaterObservedAt tm) -> agrees k (clock_now c) -> agrees k (clock_observed c) ->
  agrees k (snd (effectiveNowLocked tm c)) /\ (readings_ok c -> wall (timeHighWater tm) <= wall (snd (effectiveNowLocked tm c))) /\
  wall (clock_now c) <= wall (snd (effectiveNowLocked tm c)).
Proof.
  intros Hh Ho Hn Hc. unfold effectiveNowLocked. cbv zeta. cbn [snd]. unfold readings_ok, era, second.
  set (high := if IsZero _ then _ else _).
  assert (Ha : agrees k high /\ (zero_instant + 3600 * 1000000000 < wall (clock_now c) -> wall (timeHighWater tm) <= wall high)).
  { unfold high. destruct (IsZero (timeHighWater tm)) eqn:Ez; [unfold IsZero in Ez; apply Z.eqb_eq in Ez; split; [done|lia]|].
    destruct (_ && _) eqn:Ea; [|split; [done|lia]]. apply andb_true_iff in Ea as [_ Ea]. pose proof (Sub_pos _ _ Ea).
    split; [by apply agrees_Add|]. unfold Add. cbn [wall]. lia. }
  clearbody high. destruct Ha as [Ha Hw]. destruct (After (clock_now c) high) eqn:Ea; rewrite (After_wall k) in Ea by done.
  - apply Z.ltb_lt in Ea. split_and!; [done| |lia]. intros H. specialize (Hw H). lia.
  - apply Z.ltb_ge in Ea. by split_and!.
Qed.

Lemma rising_extended o tm c now floor lease : clock_of o = Some c -> (now = snd (effectiveNowLocked tm c) \/ now = jwtTimestamp (snd (effectiveNowLocked tm c))) ->
  (floor = restartTimeFloor tm \/ floor = Add now lease /\ After floor (restartTimeFloor tm) = true) -> rising o tm floor.
Proof.
  intros Hc Hnow [->|[-> Ha]]; [apply rising_same|]. intros k (H1 & H2 & H3 & H4). destruct (H4 c Hc) as [H5 H6].
  destruct (effective_agrees k tm c H1 H2 H5 H6) as [Hk _].
  assert (Hk' : agrees k (Add now lease)) by (apply agrees_Add; destruct Hnow as [->| ->]; [done|apply agrees_at_wall]).
  split; [done|]. rewrite (After_wall k) in Ha by done. apply Z.ltb_lt in Ha. lia.
Qed.
End Registries.

(** ** The calls *)

Section Calls.
Context {case_tables : Unicode} {codec : SessionCodec} {jwt : Jwt}.
Context (tm : TokenManager) (m : gmap string string) (Hok : tm_ok tm) (Hs : saved tm m).

(** The manager with the time of a call, and with the registry and the floor of a call besides. *)
Lemma clocked_ok high observed : (era < wall high) -> tm_ok (with_clock tm high observed).
Proof. destruct Hok as (H1 & H2 & _ & H4). intros He. split_and!; [done..|by right|done]. Qed.
Lemma changed_ok high observed reg floor : era < wall high -> registry_ok reg -> within tm reg ->
  tm_ok (with_floor (with_registry (with_clock tm high observed) reg) floor).
Proof. destruct Hok as (H1 & H2 & _ & H4). intros He Hr Hw. split_and!; [done..|by right|done]. Qed.

Lemma unexpired_ok now : registry_ok (unexpired now (sessionRegistry tm)) /\ within tm (unexpired now (sessionRegistry tm)).
Proof. destruct Hok as (H1 & H2 & _). eapply subset_ok; [apply unexpired_subset|done..]. Qed.

Lemma restored_ok tm' : sessionRegistry tm' = sessionRegistry tm -> same_config tm tm' -> time_ok tm' -> tm_ok tm'.
Proof.
  destruct Hok as (H1 & H2 & H3 & H4). intros Hr (_ & Ha & Hb & Hc) Ht. unfold tm_ok, within. rewrite Hr, Ha, Hb, Hc. split_and!; [done|apply H2|apply H2|done|done].
Qed.

(** The end of the calls that remove sessions. *)
Lemma removal_atomic high observed (kept removedExpired removed : registry) random (F : Time -> Prop) (E : registry -> Prop) :
  era < wall high -> F (restartTimeFloor tm) ->
  (forall floor, floor = restartTimeFloor tm \/ floor = Add high (timeLeaseDuration tm) /\ After floor (restartTimeFloor tm) = true -> F floor) -> kept ⊆ sessionRegistry tm -> removed ∪ (removedExpired ∪ kept) = sessionRegistry tm -> E kept ->
  always (files m) (persist_removal (with_registry (with_clock tm high observed) kept) high removedExpired removed random)
    (settled tm m F E) (crashed tm m F E).
Proof.
  intros Hera HF0 HF Hsub Hback HE. destruct Hok as (H1 & H2 & H3 & H4). destruct (subset_ok tm _ _ Hsub H1 H2) as [Hk Hw].
  unfold persist_removal. destruct (_ && _) eqn:En.
  - apply andb_true_iff in En as [Ea Eb]. apply Nat.eqb_eq, map_size_empty_iff in Ea, Eb.
    assert (Hsame : kept = sessionRegistry tm) by (rewrite Ea, Eb in Hback; by rewrite !(left_id_L ∅ (∪)) in Hback).
    apply always_stopped; [done|done| |done|done|done|by rewrite <-Hsame]. split_and!; [done..|by right|done].
  - cbv zeta. destruct (extend_floor (with_registry (with_clock tm high observed) kept) high) as (floor & -> & Hlater).
    apply always_persisted; try done.
    + split_and!; [done..|by right|done].
    + by apply HF.
    + by apply restored_ok; [exact Hback| |right].
Qed.

Lemma start_call c : readings_ok c ->
  exists high, effectiveNowLocked tm c = (with_clock tm high (clock_observed c), high) /\ era < wall high.
Proof.
  intros Hc. destruct (effective_clock tm c) as (high & -> & Hera). exists high. split; [done|]. by apply Hera, Hok.
Qed.

Notation atomically o p := (always (files m) p (settled tm m (rising o tm) (effect o tm (sessionRegistry tm))) (crashed tm m (rising o tm) (effect o tm (sessionRegistry tm)))).

Ltac rise := let floor := fresh "floor" in let H := fresh in intros floor H; eapply rising_extended; [reflexivity| |exact H]; left;
  match goal with He : effectiveNowLocked _ _ = _ |- _ => by rewrite He end.

Lemma cleanup_atomic c random : readings_ok c -> atomically (OpCleanup c) (CleanupExpiredSessions tm c random).
Proof.
  intros Hc. unfold CleanupExpiredSessions. destruct (start_call c Hc) as (high & He & Hera). rewrite He. cbn [cleanupExpiredSessionsLocked].
  apply removal_atomic; [done|apply rising_same|rise|apply map_filter_subseteq| |by unfold effect; rewrite He].
  rewrite (left_id_L ∅ (∪)). apply (restore_cleanup (with_clock tm high (clock_observed c)) high).
Qed.

Lemma revoke_user_atomic userID c random : readings_ok c -> atomically (OpRevokeByUser userID c) (RevokeByUser tm userID c random).
Proof.
  intros Hc. unfold RevokeByUser. destruct (String.eqb userID EmptyString); [apply always_stopped; try done; apply rising_same|].
  destruct (start_call c Hc) as (high & He & Hera). rewrite He. cbn [cleanupExpiredSessionsLocked remove_sessions].
  apply removal_atomic; [done|apply rising_same|rise|etrans; apply map_filter_subseteq| |].
  - apply (restore_removal (with_clock tm high (clock_observed c)) high (fun _ r => String.eqb (rec_UserID r) userID)).
  - unfold effect. rewrite He. apply map_filter_ext. intros id r _. cbn. by rewrite String.eqb_neq.
Qed.

Lemma revoke_atomic sessions c random : readings_ok c -> atomically (OpRevokeSessions sessions c) (RevokeSessions tm sessions c random).
Proof.
  intros Hc. unfold RevokeSessions. destruct (Nat.eqb_spec (size sessions) 0) as [Hz|]; [apply always_stopped; try done; [apply rising_same|left; split; [by apply map_size_empty_iff|done]]|].
  destruct (existsb _ _); [apply always_stopped; try done; apply rising_same|].
  destruct (start_call c Hc) as (high & He & Hera). rewrite He. cbn [cleanupExpiredSessionsLocked remove_sessions].
  apply removal_atomic; [done|apply rising_same|rise|etrans; apply map_filter_subseteq| |].
  - apply (restore_removal (with_clock tm high (clock_observed c)) high (fun id _ => bool_decide (is_Some (sessions !! id)))).
  - unfold effect. rewrite He. right. apply map_filter_ext. intros id r _. cbn. by rewrite bool_decide_eq_false, eq_None_not_Some.
Qed.

Lemma prepare_atomic c random : readings_ok c ->
  atomically (OpPrepare c) (run! (tm, r) := prepareValidationTime tm c random in ret (tm, match r with Ok _ => Done tt | Err e => Failed e end)).
Proof.
  intros Hc. unfold prepareValidationTime. destruct (start_call c Hc) as (high & He & Hera). rewrite He.
  set (E := effect (OpPrepare c) tm (sessionRegistry tm)). set (F := rising (OpPrepare c) tm).
  assert (Hstop : forall tm' (r : result TokenError Time), sessionRegistry tm' = sessionRegistry tm -> same_config tm tm' -> restartTimeFloor tm' = restartTimeFloor tm -> time_ok tm' ->
    always (files m) (run! (tm, r) := ret (tm', r) in ret (tm, match r with Ok _ => Done tt | Err e => Failed (A := unit) e end)) (settled tm m F E) (crashed tm m F E)).
  { intros tm' r Hr Hcfg Hf Ht. apply (always_stopped tm m tm' (match r with Ok _ => Done tt | Err e => Failed e end)); [done|apply rising_same|by apply restored_ok|done..|].
    destruct r; [by left|done]. }
  assert (Ht : forall tm', timeHighWater tm' = high -> time_ok tm') by (by intros tm' E'; right; rewrite E').
  destruct (String.eqb _ _); [by apply Hstop; try done; apply Ht|]. destruct (_ || _); [by apply Hstop; try done; apply Ht|]. destruct (_ && _); [by apply Hstop; try done; apply Ht|].
  cbn [cleanupExpiredSessionsLocked]. pose proof (restore_cleanup (with_clock tm high (clock_observed c)) high) as Hback.
  cbn [cleanupExpiredSessionsLocked] in Hback. fold (unexpired high (sessionRegistry (with_clock tm high (clock_observed c)))) in *. cbn [sessionRegistry with_clock] in *.
  destruct (extend_floor (with_registry (with_clock tm high (clock_observed c)) (unexpired high (sessionRegistry tm))) high) as (floor & -> & Hlater).
  destruct (unexpired_ok high) as [Hu Hw]. set (tm1 := with_floor _ floor).
  assert (Hok1 : tm_ok tm1) by (by apply changed_ok).
  set (tm0 := restoreRemovedSessionsLocked (with_floor tm1 (restartTimeFloor (with_clock tm high (clock_observed c)))) (filter (fun '(_, record) => active high record = false) (sessionRegistry tm))).
  set (unavailable := IsZero _ || negb _).
  apply (always_ext _ (run! saved := persistSessionStateLocked tm1 random in
    ret (match saved with
         | NotWritten _ => (tm0, if unavailable then Failed ErrTokenStateUnavailable else Done tt)
         | _ => (tm1, Done tt)
         end))).
  { intros w. unfold bind. destruct (persistSessionStateLocked tm1 random w) as [w' [[]|]]; try done. by destruct unavailable. }
  apply always_persist_then with tm0; try done.
  - apply rising_same.
  - eapply rising_extended; [reflexivity| |exact Hlater]. left. by rewrite He.
  - unfold E, effect. rewrite He. by right.
  - apply restored_ok; [exact Hback|done|by apply Ht].
  - intros []; [done..|]. cbn. split; [done|]. destruct unavailable; [done|by left].
Qed.

Lemma counts_kept now reg : filter (fun '(_, r) => active now r = true) (unexpired now reg) = unexpired now reg /\
  forall userID, filter (fun '(_, r) => String.eqb (rec_UserID r) userID && active now r = true) (unexpired now reg) = sessions_of userID (unexpired now reg).
Proof.
  split.
  - apply map_filter_id. by intros id r [_ ?]%map_lookup_filter_Some.
  - intros userID. apply map_filter_ext. intros id r [_ Ha]%map_lookup_filter_Some. cbn in *. rewrite Ha, andb_true_r. apply String.eqb_eq.
Qed.

Lemma within_insert kept id r : kept !! id = None -> within tm kept -> Z.of_nat (size kept) < refreshSessionLimit tm ->
  Z.of_nat (size (sessions_of (rec_UserID r) kept)) < refreshUserSessionLimit tm -> within tm (<[id := r]> kept).
Proof.
  intros Hn [Hw Hu] Ha Hb. split; [rewrite map_size_insert_None by done; lia|]. intros userID. unfold sessions_of in *. destruct (decide (rec_UserID r = userID)) as [<-|Hne].
  - rewrite map_filter_insert_True by done. rewrite map_size_insert_None; [lia|]. apply map_lookup_filter_None. by left.
  - rewrite map_filter_insert_False by done. rewrite delete_id by done. apply Hu.
Qed.

Lemma generate_atomic user c draws random : ValidString (ID user) = true -> readings_ok c ->
  always (files m) (GenerateTokenPair tm user c draws random)
    (settled tm m (rising (OpGenerate user c draws) tm) (effect (OpGenerate user c draws) tm (sessionRegistry tm))) (crashed tm m (rising (OpGenerate user c draws) tm) (effect (OpGenerate user c draws) tm (sessionRegistry tm))).
Proof.
  intros Hid Hc. unfold GenerateTokenPair. destruct (validateTokenUser user) eqn:Euser; cbn [negb]; [|apply always_stopped; try done; apply rising_same].
  destruct (start_call c Hc) as (high & He & Hera). rewrite He. set (E := effect _ tm _). set (F := rising _ tm). set (now := jwtTimestamp high).
  pose proof (restore_cleanup (with_clock tm high (clock_observed c)) now) as Hback. cbn [cleanupExpiredSessionsLocked] in *.
  fold (unexpired now (sessionRegistry (with_clock tm high (clock_observed c)))) in *. cbn [sessionRegistry with_clock] in *.
  set (kept := unexpired now (sessionRegistry tm)) in *. set (removed := filter _ (sessionRegistry tm)) in *.
  set (tm1 := with_registry (with_clock tm high (clock_observed c)) kept).
  assert (Hstop : forall e : TokenError, always (files m) (ret (restoreRemovedSessionsLocked tm1 removed, Failed (A := TokenPair) e)) (settled tm m F E) (crashed tm m F E)).
  { intros e. apply always_stopped; try done; [apply rising_same|]. apply restored_ok; [exact Hback|done|by right]. }
  destruct (_ || _) eqn:Elim; [apply Hstop|]. apply orb_false_iff in Elim as [El1 El2]. apply Z.leb_gt in El1, El2.
  unfold activeSessionCountLocked, activeSessionCountForUserLocked in El1, El2. cbn [sessionRegistry with_registry tm1 refreshSessionLimit refreshUserSessionLimit with_clock] in El1, El2.
  destruct (counts_kept now (sessionRegistry tm)) as [Ec1 Ec2]. fold kept in Ec1, Ec2. rewrite Ec1 in El1. rewrite Ec2 in El2.
  destruct (generateUniqueSessionIDLocked tm1 draws) as [sessionID|] eqn:Egen; [|apply Hstop]. unfold generateUniqueSessionIDLocked in Egen. cbn [sessionRegistry tm1 with_registry] in Egen.
  destruct (uniqueSessionID_ok _ _ _ _ Egen) as (Hnew & Hvalid & Hutf).
  set (expires := jwtTimestamp _). destruct (After expires now) eqn:Eafter; cbn [negb]; [|apply Hstop].
  destruct (signTokenPair _ _ _ _ _ _ _ _ _) as [tokenPair|]; [|apply Hstop]. cbv zeta.
  match goal with |- context [insert sessionID ?r] => set (record := r) end.
  destruct (extend_floor (with_registry tm1 (<[sessionID := record]> (sessionRegistry tm1))) now) as (floor & -> & Hlater).
  destruct (unexpired_ok now) as [Hkept Hwithin]. fold kept in Hkept, Hwithin.
  assert (Hrecord : record_ok sessionID record).
  { unfold validateTokenUser in Euser. apply negb_true_iff, orb_false_iff in Euser as [Euser _]. split_and!; [|done|by unfold storable_record; cbn [record rec_UserID rec_NextRefreshGeneration]; rewrite Hid|done].
    unfold validatePersistedSessionRecord. cbn [record rec_UserID rec_ExpiresAt rec_LastRotatedAt]. rewrite Hvalid, Euser. cbn [negb].
    destruct Hok as (_ & _ & _ & Hrot). unfold era, second in *. pose proof (Truncate_le (UTC high)) as Hnow. unfold second_ns in Hnow. fold (jwtTimestamp high) in Hnow. fold now in Hnow. cbn [UTC at_wall wall] in Hnow.
    unfold After, on_clocks in Eafter. cbn [mono expires jwtTimestamp Truncate at_wall] in Eafter. apply Z.ltb_lt in Eafter.
    assert (Hlast : wall now - 1800 * 1000000000 <= wall (if 0 <? refreshRotationInterval tm then Add now (- refreshRotationInterval tm) else now) <= wall now).
    { destruct (Z.ltb_spec 0 (refreshRotationInterval tm)); [unfold Add; cbn [wall]|]; lia. }
    set (last := if 0 <? _ then _ else _) in *. unfold IsZero. assert (Hmono : mono expires = None) by done. clearbody last expires now.
    destruct (Z.eqb_spec (wall expires) zero_instant) as [Hz|_]; [lia|]. destruct (Z.eqb_spec (wall last) zero_instant) as [Hz|_]; [lia|].
    assert (After last expires = false) as ->; [|done]. unfold After, on_clocks. rewrite Hmono. destruct (mono last); apply Z.ltb_ge; lia. }
  apply always_persisted; try done.
  - apply changed_ok; [done| |by apply within_insert]. intros id r [[<- <-]|[_ Hr]]%lookup_insert_Some; [done|by apply Hkept].
  - apply rising_same.
  - eapply rising_extended; [reflexivity| |exact Hlater]. right. by rewrite He.
  - unfold E, effect, drawn. rewrite He. cbn [snd]. fold now. fold kept. exists sessionID, record. split_and!; try done.
  - apply restored_ok; [|done|by right]. unfold with_floor at 1. cbn. rewrite delete_insert_id by done. exact Hback.
  - cbn. rewrite delete_insert_id by done. exact Hback.
Qed.

(** What the checks of a refresh token have established when they find nothing wrong. *)
Lemma refresh_checked (tm' : TokenManager) claims now : validateRefreshTokenClaimsLocked tm' claims now = None ->
  exists previous, sessionRegistry tm' !! rc_SessionID claims = Some previous /\ rec_UserID previous = Subject (rc_Registered claims) /\
    (exists e, ClaimExpiresAt (rc_Registered claims) = Some e /\ Equal (rec_ExpiresAt previous) (at_wall e) = true) /\
    active now previous = true /\ rec_NextRefreshGeneration previous = rc_Generation claims.
Proof.
  unfold validateRefreshTokenClaimsLocked. destruct (sessionRegistry tm' !! rc_SessionID claims) as [previous|]; [|done].
  destruct (String.eqb_spec (rec_UserID previous) (Subject (rc_Registered claims))) as [Hu|]; cbn [negb orb]; [|done].
  destruct (ClaimExpiresAt (rc_Registered claims)) as [e|]; [|done]. destruct (Equal _ _) eqn:Ee; [|done]. cbn [negb].
  destruct (After _ now) eqn:Ea; [|done]. cbn [negb]. destruct (Z.ltb_spec (rc_Generation claims) (rec_NextRefreshGeneration previous)); [done|].
  destruct (Z.ltb_spec (rec_NextRefreshGeneration previous) (rc_Generation claims)); [done|]. intros _. exists previous. split_and!; try done; [by exists e|lia].
Qed.

Lemma within_replace reg id previous record : reg !! id = Some previous -> rec_UserID record = rec_UserID previous ->
  within tm reg -> within tm (<[id := record]> reg).
Proof.
  intros Hp Hu [Hn Hw]. split; [by rewrite map_size_insert_Some|]. intros userID. specialize (Hw userID).
  assert (Hsub : dom (sessions_of userID (<[id := record]> reg)) ⊆ dom (sessions_of userID reg)).
  { intros i [r Hr]%elem_of_dom. apply elem_of_dom. apply map_lookup_filter_Some in Hr as [Hr Hi].
    apply lookup_insert_Some in Hr as [[<- <-]|[_ Hr]]; [exists previous|exists r]; apply map_lookup_filter_Some; (split; [done|congruence]). }
  apply subseteq_size in Hsub. rewrite !size_dom in Hsub. lia.
Qed.

Lemma consume_atomic claims c random : 0 <= rc_Generation claims <= maxUint64 -> readings_ok c ->
  atomically (OpConsume claims c) (consumeRefreshTokenClaims tm claims c random).
Proof.
  intros Hgen Hc. unfold consumeRefreshTokenClaims. cbv zeta. destruct (ClaimExpiresAt (rc_Registered claims)) as [expiresAt|] eqn:Eexp; [|apply always_stopped; try done; apply rising_same].
  destruct (_ || _ || _ || _); [apply always_stopped; try done; apply rising_same|]. destruct (start_call c Hc) as (high & He & Hera). rewrite He. set (E := effect _ tm _). set (F := rising _ tm).
  assert (Hstop : forall e : TokenError, always (files m) (ret (with_clock tm high (clock_observed c), Failed (A := unit) e)) (settled tm m F E) (crashed tm m F E)).
  { intros e. apply always_stopped; try done; [apply rising_same|]. apply restored_ok; [done|done|by right]. }
  destruct (After _ high); cbn [negb]; [|apply Hstop].
  destruct (validateRefreshTokenClaimsLocked _ claims high) as [e|] eqn:Ev; [apply Hstop|]. cbn [sessionRegistry with_clock].
  destruct (refresh_checked _ _ _ Ev) as (previous & Hp & Huser & Hexp & Hactive & Hg). cbn [sessionRegistry with_clock] in Hp. rewrite Hp.
  destruct (Z.eqb_spec (rc_Generation claims) maxUint64) as [|Hmax]; [apply Hstop|]. destruct (_ && _) eqn:Erate; [apply Hstop|]. cbv zeta.
  match goal with |- context [insert (rc_SessionID claims) ?r] => set (record := r) end.
  destruct (extend_floor (with_registry (with_clock tm high (clock_observed c)) (<[rc_SessionID claims := record]> (sessionRegistry tm))) high) as (floor & -> & Hlater).
  pose proof Hok as (Hreg & Hwith & _). destruct (Hreg _ _ Hp) as (Hv & Hutf & Hst & Hmono).
  assert (Hrecord : record_ok (rc_SessionID claims) record).
  { unfold active, After, on_clocks in Hactive. rewrite Hmono in Hactive. apply Z.ltb_lt in Hactive.
    split_and!; [|done| |done].
    - revert Hv. unfold validatePersistedSessionRecord. cbn [record rec_UserID rec_ExpiresAt rec_LastRotatedAt].
      destruct (validSessionID _); [|done]. cbn [negb]. destruct (_ || _); [done|]. destruct (IsZero (rec_ExpiresAt previous)); [done|]. intros _.
      unfold IsZero, After, on_clocks. rewrite Hmono. unfold era, second in Hera.
      destruct (Z.eqb_spec (wall high) zero_instant); [lia|]. assert ((wall (rec_ExpiresAt previous) <? wall high) = false) as Hlt by (apply Z.ltb_ge; lia).
      destruct (mono high); by rewrite Hlt.
    - unfold storable_record in *. cbn [record rec_UserID rec_NextRefreshGeneration]. apply andb_true_iff in Hst as [-> _].
      cbn [andb]. unfold is_uint64. apply andb_true_iff. rewrite uint64_id by (unfold in_uint64, maxUint64 in *; lia). split; apply Z.leb_le; lia. }
  assert (Hback : <[rc_SessionID claims := previous]> (<[rc_SessionID claims := record]> (sessionRegistry tm)) = sessionRegistry tm).
  { rewrite insert_insert_eq. by apply insert_id. }
  apply always_persisted; try done.
  - apply changed_ok; [done| |by eapply within_replace]. intros id r [[<- <-]|[_ Hr]]%lookup_insert_Some; [done|by apply Hreg].
  - apply rising_same.
  - eapply rising_extended; [reflexivity| |exact Hlater]. left. by rewrite He.
  - unfold E, effect. rewrite He. cbn [snd]. exists previous, record. split_and!; try done.
    cbn [record rec_NextRefreshGeneration]. apply uint64_id. unfold in_uint64, maxUint64 in *. lia.
  - by apply restored_ok; [exact Hback| |right].
Qed.

(** Every call is atomic. *)
Lemma call_atomic o random : arguments_ok o -> atomically o (run o tm random).
Proof.
  destruct o as [c|user c draws|claims c|sessions c|userID c|c|access refresh]; cbn [arguments_ok run].
  - intros Hc. by apply prepare_atomic.
  - intros [Hu Hc]. by apply always_discarded, generate_atomic.
  - intros [Hg Hc]. by apply consume_atomic.
  - apply revoke_atomic.
  - apply revoke_user_atomic.
  - apply cleanup_atomic.
  - intros _. apply always_stopped; try done. apply rising_same.
Qed.
End Calls.
End TokenAtomic.
