(* ===== verification/TokenStart.v ===== *)
(** * Tokens and login sessions: loading the file

    Enabling persistence ([EnableSessionPersistence] of internal/auth/token.go) keeps the invariant, takes over
    the sessions of the file that have not expired, and is atomic like every other call. *)

From Stdlib Require Import Ascii.
From S2P Require Import Prelude GoStrings GoPath GoFormat GoTime MonoTime Sha256 Users FileMonad UserFields AuthFiles UsersFile TokenTypes Tokens TokenOps TokenSpec TokenAtomic.
Import MonoTime Sha256 AuthFiles UsersFile TokenTypes Tokens TokenOps TokenSpec TokenAtomic.

Module TokenStart.

Section Start.
Context {case_tables : Unicode} {codec : SessionCodec} {jwt : Jwt}.

(** ** What is read *)

Lemma decodeRecords_lookup l reg id r : decodeRecords l = Some reg -> reg !! id = Some r ->
  exists encoded, (id, encoded) ∈ l /\ decodeRecord id encoded = Some r.
Proof.
  revert reg. induction l as [|[id' encoded] l IH]; intros reg; cbn [decodeRecords]; [by intros [= <-]|].
  destruct (decodeRecord id' encoded) as [r'|] eqn:Er; [|done]. destruct (decodeRecords l) as [reg'|]; [|done]. intros [= <-].
  intros [[<- <-]|[_ Hr]]%lookup_insert_Some; [exists encoded; split; [by left|done]|].
  destruct (IH reg' eq_refl Hr) as (e & He & Hd). exists e. split; [by right|done].
Qed.

Lemma decoded_registry_ok text st : decodeTokenSessionState text = Some st -> registry_ok (st_Sessions st).
Proof.
  unfold decodeTokenSessionState. destruct (parse_session text) as [j|]; [|done]. destruct (negb (walkJSONToken j)); [done|].
  destruct (decode_session j) as [encoded|] eqn:Ej; [|done]. destruct (enc_SchemaVersion encoded) as [version|]; [|done].
  destruct (enc_RestartTimeFloor encoded) as [floor|]; [|done]. destruct (enc_Sessions encoded) as [sessions|] eqn:Es; [|done].
  destruct (negb _); [done|]. destruct (IsZero _); [done|]. destruct (maxTrackedRefreshSessions <? _); [done|].
  destruct (decodeRecords _) as [records|] eqn:Er; [|done]. intros [= <-] id r Hr. cbn [st_Sessions] in Hr.
  destruct (decodeRecords_lookup _ _ _ _ Er Hr) as (e & He%elem_of_map_to_list & Hd).
  destruct (decoded_storable _ _ _ _ _ Ej Es He) as (Hid & Hu & Hg). unfold decodeRecord in Hd.
  destruct (enc_UserID e) as [u|]; [|done]. destruct (enc_ExpiresAt e); [|done]. destruct (enc_NextRefreshGeneration e) as [g|]; [|done].
  destruct (enc_LastRotatedAt e); [|done]. destruct (validatePersistedSessionRecord _ _) eqn:Ev; [|done]. injection Hd as <-.
  split_and!; [done|done| |done]. unfold storable_record. cbn [rec_UserID rec_NextRefreshGeneration]. by rewrite (Hu u), (Hg g).
Qed.

(** The sessions and the floor that the files hold, when they can be read. *)
Definition loaded (m : gmap string string) (state : tokenSessionState) (exists_ : bool) : Prop :=
  match m !! sessionsFile with
  | None => exists_ = false /\ state = newTokenSessionState
  | Some text => exists_ = true /\ decodeTokenSessionState text = Some state
  end.

Lemma loaded_ok m state exists_ : loaded m state exists_ -> registry_ok (st_Sessions state).
Proof.
  unfold loaded. destruct (m !! sessionsFile) as [text|]; intros [_ H]; [by eapply decoded_registry_ok|]. subst. apply map_Forall_empty.
Qed.

Lemma loaded_floor m state exists_ : loaded m state exists_ -> mono (st_RestartTimeFloor state) = None.
Proof.
  unfold loaded. destruct (m !! sessionsFile) as [text|]; intros [_ H]; [|by subst]. revert H. unfold decodeTokenSessionState.
  repeat case_match; try done. by intros [= <-].
Qed.

Lemma always_load m : always (files m) loadTokenSessionState
  (fun r d => files m d /\ match r with Ok (state, exists_) => loaded m state exists_ | Err _ => True end) (files m).
Proof.
  unfold loadTokenSessionState. eapply always_bind; [apply always_read_limited, stored_sessions|]. intros r. apply always_ret. intros d [Hd Hr].
  split; [done|]. destruct r as [[text|]|e]; [|by unfold loaded; rewrite <-Hr|done]. destruct (len text =? 0); [done|].
  destruct (decodeTokenSessionState text) as [state|] eqn:Ed; [|done]. unfold loaded. by rewrite <-Hr.
Qed.

(** ** The limits *)

Lemma size_filter_list (P : string * sessionRegistryRecord -> Prop) `{forall x, Decision (P x)} (reg : registry) :
  size (filter P reg) = length (filter P (map_to_list reg)).
Proof.
  rewrite map_filter_alt, <-length_map_to_list, map_to_list_to_map; [done|].
  eapply sublist_NoDup; [apply (NoDup_fst_map_to_list reg)|]. apply fmap_sublist, sublist_filter.
Qed.

Lemma userLimitsExceeded_false limit now l perUser : userLimitsExceeded limit now l perUser = false ->
  (forall u, default 0 (perUser !! u) <= limit) ->
  forall u, default 0 (perUser !! u) + Z.of_nat (length (filter (fun r => rec_UserID r = u /\ active now r = true) l)) <= limit.
Proof.
  revert perUser. induction l as [|r l IH]; intros perUser; cbn [userLimitsExceeded]; [intros _ H u; specialize (H u); cbn; lia|].
  intros H Hle u. rewrite filter_cons. destruct (active now r) eqn:Ea; cbn [negb] in H.
  - destruct (limit <? _) eqn:El; [done|]. apply Z.ltb_ge in El. set (perUser' := insert _ _ perUser) in H.
    assert (Hle' : forall v, default 0 (perUser' !! v) <= limit).
    { intros v. unfold perUser'. destruct (decide (rec_UserID r = v)) as [<-|?]; [by rewrite lookup_insert_eq|by rewrite lookup_insert_ne]. }
    specialize (IH _ H Hle' u). unfold perUser' in IH. destruct (decide (rec_UserID r = u)) as [Hu|Hu].
    + rewrite decide_True by done. subst u. rewrite lookup_insert_eq in IH. cbn [length default from_option id] in *. lia.
    + rewrite decide_False by tauto. by rewrite lookup_insert_ne in IH.
  - rewrite decide_False by (intros [_ ?]; congruence). by apply IH.
Qed.

Lemma limits_within tm now : sessionRegistry tm = unexpired now (sessionRegistry tm) -> 0 <= refreshUserSessionLimit tm ->
  validateActiveSessionLimitsLocked tm now = true -> within tm (sessionRegistry tm).
Proof.
  intros Hun H0. unfold validateActiveSessionLimitsLocked, activeSessionCountLocked. fold (unexpired now (sessionRegistry tm)). rewrite <-Hun.
  destruct (refreshSessionLimit tm <? _) eqn:El; [done|]. apply Z.ltb_ge in El. rewrite negb_true_iff. intros Hu. split; [done|]. intros userID.
  pose proof (userLimitsExceeded_false _ _ _ ∅ Hu ltac:(intros v; by rewrite lookup_empty) userID) as H. rewrite lookup_empty in H. cbn [default from_option] in H.
  enough (Hs : (size (sessions_of userID (sessionRegistry tm)) <= length (filter (fun r => rec_UserID r = userID /\ active now r = true) (map_to_list (sessionRegistry tm)).*2))%nat) by lia.
  unfold sessions_of. rewrite size_filter_list. clear H Hu El.
  assert (Hall : Forall (fun '(_, r) => active now r = true) (map_to_list (sessionRegistry tm))).
  { apply Forall_forall. intros [id r] Hin%elem_of_map_to_list. rewrite Hun in Hin. by apply map_lookup_filter_Some in Hin as [_ ?]. }
  induction (map_to_list (sessionRegistry tm)) as [|[id r] l IH]; [done|]. apply Forall_cons in Hall as [Ha Hl]. cbn [fmap list_fmap snd]. rewrite !filter_cons.
  specialize (IH Hl). destruct (decide (rec_UserID r = userID)), (decide (_ /\ active now r = true)); cbn [length]; [lia|tauto|tauto|exact IH].
Qed.

Lemma userLimitsExceeded_true limit now l perUser :
  (forall u, default 0 (perUser !! u) + Z.of_nat (length (filter (fun r => rec_UserID r = u /\ active now r = true) l)) <= limit) ->
  userLimitsExceeded limit now l perUser = false.
Proof.
  revert perUser. induction l as [|r l IH]; intros perUser H; [done|]. cbn [userLimitsExceeded]. destruct (active now r) eqn:Ea; cbn [negb].
  - assert (Hr : default 0 (perUser !! rec_UserID r) + 1 + Z.of_nat (length (filter (fun r' => rec_UserID r' = rec_UserID r /\ active now r' = true) l)) <= limit).
    { specialize (H (rec_UserID r)). rewrite filter_cons, decide_True in H by done. cbn [length] in H. lia. }
    rewrite (proj2 (Z.ltb_ge _ _)) by lia. apply IH. intros u. destruct (decide (rec_UserID r = u)) as [<-|Hne].
    + rewrite lookup_insert_eq. exact Hr.
    + rewrite lookup_insert_ne by done. specialize (H u). by rewrite filter_cons, decide_False in H by tauto.
  - apply IH. intros u. specialize (H u). rewrite filter_cons, decide_False in H; [done|]. intros [_ ?]. congruence.
Qed.

Lemma within_limits tm now : within tm (sessionRegistry tm) -> validateActiveSessionLimitsLocked tm now = true.
Proof.
  intros [Hn Hu]. unfold validateActiveSessionLimitsLocked, activeSessionCountLocked.
  pose proof (map_subseteq_size _ _ (map_filter_subseteq (fun '(_, r) => active now r = true) (sessionRegistry tm))) as Hs.
  rewrite (proj2 (Z.ltb_ge _ _)) by lia. apply negb_true_iff, userLimitsExceeded_true. intros u. rewrite lookup_empty. cbn [default from_option id].
  specialize (Hu u). unfold sessions_of in Hu. rewrite size_filter_list in Hu. enough (Hle : (length (filter (fun r => rec_UserID r = u /\ active now r = true) (map_to_list (sessionRegistry tm)).*2) <=
    length (filter (fun '(_, r) => rec_UserID r = u) (map_to_list (sessionRegistry tm))))%nat) by lia.
  clear Hn Hu Hs. induction (map_to_list (sessionRegistry tm)) as [|[id r] l IH]; [done|]. cbn [fmap list_fmap snd]. rewrite !filter_cons.
  destruct (decide (rec_UserID r = u /\ active now r = true)) as [[]|], (decide (rec_UserID r = u)); cbn [length]; unfold fmap in *; try tauto; lia.
Qed.

(** ** Enabling persistence *)

(** The manager when the file was read, before its clock is, ... *)
Definition enable_base (tm : TokenManager) (filePath : string) (c1 : clock) (state : tokenSessionState) : TokenManager :=
  let floor := st_RestartTimeFloor state in
  let high := if After floor (timeHighWater tm) then floor else timeHighWater tm in
  let high := if After (clock_now c1) high then clock_now c1 else high in
  with_clock (with_floor (with_registry (with_path tm filePath) (st_Sessions state ∪ sessionRegistry tm))
    (if After floor (restartTimeFloor tm) then floor else restartTimeFloor tm)) high (clock_observed c1).
(** ... and when persistence is enabled. *)
Definition enabled (tm : TokenManager) (filePath : string) (c1 c2 : clock) (state : tokenSessionState) : TokenManager :=
  let '(tm1, now) := effectiveNowLocked (enable_base tm filePath c1 state) c2 in
  extendRestartTimeLeaseLocked (with_registry tm1 (unexpired now (sessionRegistry tm1))) now.

Definition started (tm : TokenManager) (m : gmap string string) (filePath : string) (c1 c2 : clock) (out : TokenManager * reply unit) (d : dir) : Prop :=
  let '(tm', r) := out in
  exists m', files m' d /\ (forall name, name <> sessionsFile -> m' !! name = m !! name) /\
  match r with
  | Failed _ => tm' = tm /\ m' = m
  | _ => exists state exists_, loaded m state exists_ /\ tm' = enabled tm filePath c1 c2 state /\ tm_ok tm' /\ saved tm' m'
  end.
Definition start_crashed (tm : TokenManager) (m : gmap string string) (filePath : string) (c1 c2 : clock) (d : dir) : Prop :=
  exists m', files m' d /\ (forall name, name <> sessionsFile -> m' !! name = m !! name) /\
  (m' = m \/ exists state exists_, loaded m state exists_ /\ tm_ok (enabled tm filePath c1 c2 state) /\ saved (enabled tm filePath c1 c2 state) m').

Lemma loadable_floor text floor reg : loadable text floor reg -> IsZero floor = false.
Proof.
  intros [_ H]. revert H. unfold decodeTokenSessionState. repeat case_match; try done. intros E.
  apply (f_equal (fun s => wall (st_RestartTimeFloor (default newTokenSessionState s)))) in E. cbn in E.
  match goal with H : IsZero (at_wall ?z) = false |- _ => unfold IsZero in *; cbn in H; by rewrite E in H end.
Qed.

Lemma enabled_ok tm filePath c1 c2 state m exists_ : tm_ok tm -> readings_ok c1 -> readings_ok c2 -> loaded m state exists_ ->
  exists high floor, let base := enable_base tm filePath c1 state in
    effectiveNowLocked base c2 = (with_clock base high (clock_observed c2), high) /\ era < wall high /\
    enabled tm filePath c1 c2 state = with_floor (with_registry (with_clock base high (clock_observed c2)) (unexpired high (sessionRegistry base))) floor /\
    registry_ok (unexpired high (sessionRegistry base)) /\ refreshRotationInterval base <= 1800 * second.
Proof.
  intros (Hreg & Hwith & Ht & Hrot) Hc1 Hc2 Hl. cbv zeta. unfold enabled.
  destruct (effective_clock (enable_base tm filePath c1 state) c2) as (high & -> & Hera).
  destruct (extend_floor (with_registry (with_clock (enable_base tm filePath c1 state) high (clock_observed c2))
    (unexpired high (sessionRegistry (with_clock (enable_base tm filePath c1 state) high (clock_observed c2))))) high) as (floor & Hf & _).
  exists high, floor. split; [done|]. split.
  { apply Hera; [done|]. unfold time_ok, enable_base. cbv zeta. cbn [timeHighWater with_clock]. unfold readings_ok in Hc1.
    pose proof (loaded_floor _ _ _ Hl) as Hfl. destruct (After (clock_now c1) _) eqn:Ea; [by right|].
    destruct (After (st_RestartTimeFloor state) _); [|done]. right. unfold After, on_clocks in Ea. rewrite Hfl in Ea.
    destruct (mono (clock_now c1)); apply Z.ltb_ge in Ea; lia. }
  split; [exact Hf|]. split; [|done]. intros id r [Hr _]%map_lookup_filter_Some. unfold enable_base in Hr. cbn in Hr.
  apply lookup_union_Some_raw in Hr as [Hr|[_ Hr]]; [by eapply loaded_ok|by apply Hreg].
Qed.

Lemma enable_atomic tm m filePath same c1 c2 random : tm_ok tm -> filePath <> EmptyString -> readings_ok c1 -> readings_ok c2 ->
  always (files m) (EnableSessionPersistence tm filePath same c1 c2 random) (started tm m filePath c1 c2) (start_crashed tm m filePath c1 c2).
Proof.
  intros Hok Hpath Hc1 Hc2. unfold EnableSessionPersistence. rewrite (proj2 (String.eqb_neq _ _) Hpath).
  eapply always_bind; [eapply always_weaken; [apply (always_load m)|done|intros r d H; exact H|intros d Hd; exists m; split_and!; try done; by left]|].
  assert (Hfail : forall e tm', tm' = tm -> always (files m) (ret (tm', Failed e)) (started tm m filePath c1 c2) (start_crashed tm m filePath c1 c2)).
  { intros e tm' ->. apply always_ret. intros d Hd. by exists m. }
  intros [[state exists_]|e]; [|eapply always_weaken; [by apply Hfail|by intros d []|done|done]].
  eapply (always_weaken _ (fun d => loaded m state exists_ /\ files m d)); [|tauto|done|done].
  apply always_pure. intros Hl. destruct (existsb _ _); [apply Hfail; by destruct tm|].
  destruct (enabled_ok tm filePath c1 c2 state m exists_ Hok Hc1 Hc2 Hl) as (high & floor & He & Hera & Hen & Hreg & Hrot).
  set (base := enable_base tm filePath c1 state) in *.
  match goal with |- context [effectiveNowLocked ?b c2] => replace b with base by (unfold base, enable_base; by destruct (After _ (restartTimeFloor _))) end.
  unfold enabled in Hen. fold base in Hen. rewrite He in Hen |- *. cbn [cleanupExpiredSessionsLocked]. cbn [sessionRegistry with_clock] in Hen.
  change (filter _ (sessionRegistry (with_clock base high (clock_observed c2)))) with (unexpired high (sessionRegistry base)).
  set (tm1 := with_registry (with_clock base high (clock_observed c2)) (unexpired high (sessionRegistry base))) in *.
  destruct (validateActiveSessionLimitsLocked tm1 high) eqn:Elim; cbn [negb]; [|apply Hfail; by destruct tm].
  assert (Hw : within tm1 (sessionRegistry tm1)).
  { eapply limits_within; [|by destruct Hok as (_ & [_ Hu] & _); specialize (Hu EmptyString); cbn; lia|exact Elim].
    cbn [tm1 sessionRegistry with_registry]. symmetry. apply map_filter_id. by intros id r [_ ?]%map_lookup_filter_Some. }
  rewrite Hen. set (tm2 := with_floor tm1 floor) in *.
  assert (Hok2 : tm_ok tm2) by (split; [exact Hreg|]; split; [exact Hw|]; split; [by right|exact Hrot]).
  assert (Hpers : persistent tm2 = true).
  { unfold persistent. cbn. apply negb_true_iff. by apply String.eqb_neq. }
  assert (Henabled : tm2 = enabled tm filePath c1 c2 state) by (unfold enabled; fold base; by rewrite He).
  eapply always_bind.
  { eapply always_weaken; [apply (always_persist tm2 m random); exact Hreg|done|intros r d H; exact H|].
    intros d [Hd|(m' & Hc & Hd)]; [by exists m; split_and!; try done; left|]. exists m'. split; [done|]. split; [intros name; by eapply committed_frame|].
    right. exists state, exists_. rewrite <-Henabled. split_and!; try done. by eapply committed_holds. }
  assert (Hgood : forall r' : reply unit, match r' with Failed _ => False | _ => True end ->
    always (fun d => exists m', committed tm2 m m' /\ files m' d)
      (if negb exists_ && IsZero (restartTimeFloor tm2) then ret (restorePersistenceEnableLocked tm2 (sessionStorePath tm) (sessionRegistry tm) (restartTimeFloor tm) (timeHighWater tm) (timeHighWaterObservedAt tm), Failed ErrTokenOther)
       else ret (tm2, r')) (started tm m filePath c1 c2) (start_crashed tm m filePath c1 c2)).
  { intros r' Hr. apply always_exists. intros m'. apply always_pure. intros Hc.
    assert (IsZero (restartTimeFloor tm2) = false) as ->.
    { pose proof Hc as Hc'. unfold committed in Hc'. rewrite Hpers in Hc'. destruct Hc' as (text & _ & Hload). by eapply loadable_floor. }
    rewrite andb_false_r. apply always_ret. intros d Hd. exists m'. split; [done|]. split; [intros name; by eapply committed_frame|].
    assert (Hgoal : exists state0 exists_0, loaded m state0 exists_0 /\ tm2 = enabled tm filePath c1 c2 state0 /\ tm_ok tm2 /\ saved tm2 m').
    { exists state, exists_. split_and!; try done. by eapply committed_holds. }
    by destruct r'. }
  intros [| |e]; [by apply (Hgood (Done tt))|by apply (Hgood (Warned tt))|apply Hfail; by destruct tm].
Qed.
End Start.
End TokenStart.
