(* ===== verification/TokenSystem.v ===== *)
(** * Tokens and login sessions: a server over its lifetime

    Processes that run the calls of the token manager one after the other, fail, end, crash with the machine and
    start again on what is left of the file.  Along every such history the sessions only age: a session that is
    gone does not come back, and the generation of its refresh tokens never decreases. *)

From Stdlib Require Import Ascii.
From S2P Require Import Prelude GoStrings GoPath GoFormat GoTime MonoTime Sha256 Users FileMonad UserFields AuthFiles UsersFile TokenTypes Tokens TokenOps TokenSpec TokenAtomic TokenStart.
Import MonoTime Sha256 AuthFiles UsersFile TokenTypes Tokens TokenOps TokenSpec TokenAtomic TokenStart.

Module TokenSystem.

(** The identifiers that were ever drawn, the running process, the directory. *)
Record config := { used : gset string; process : option TokenManager; disk : dir }.

Section System.
Context {case_tables : Unicode} {codec : SessionCodec} {jwt : Jwt}.

(** What is assumed of the readings of the clock in the calls of one process; see [TokenTime]. *)
Context (calls_ok : TokenManager -> op -> Prop) (start_ok : clock -> clock -> Prop).

Definition add_used (id : option string) (U : gset string) : gset string := match id with Some id => {[id]} ∪ U | None => U end.

Inductive step : config -> config -> Prop :=
| step_call U tm d o random script w tm' r :
    arguments_ok o -> calls_ok tm o -> (forall id, drawn o tm = Some id -> id ∉ U) ->
    run o tm random {| io_dir := d; io_script := script |} = (w, Some (tm', r)) ->
    step {| used := U; process := Some tm; disk := d |} {| used := add_used (drawn o tm) U; process := Some tm'; disk := io_dir w |}
| step_crash U tm d o random script w :
    arguments_ok o -> calls_ok tm o -> (forall id, drawn o tm = Some id -> id ∉ U) ->
    run o tm random {| io_dir := d; io_script := script |} = (w, None) ->
    step {| used := U; process := Some tm; disk := d |} {| used := add_used (drawn o tm) U; process := None; disk := io_dir w |}
| step_exit U tm d : step {| used := U; process := Some tm; disk := d |} {| used := U; process := None; disk := d |}
| step_power U p d n : step {| used := U; process := p; disk := d |} {| used := U; process := None; disk := settle n d |}
| step_start U d secret access refresh key filePath same c1 c2 random script w tm r :
    filePath <> EmptyString -> readings_ok c1 -> readings_ok c2 -> start_ok c1 c2 ->
    EnableSessionPersistence (NewTokenManager secret access refresh key) filePath same c1 c2 random {| io_dir := d; io_script := script |} = (w, Some (tm, r)) ->
    step {| used := U; process := None; disk := d |}
      {| used := U; process := match r with Failed _ => None | _ => Some tm end; disk := io_dir w |}
| step_start_crash U d secret access refresh key filePath same c1 c2 random script w :
    filePath <> EmptyString -> readings_ok c1 -> readings_ok c2 -> start_ok c1 c2 ->
    EnableSessionPersistence (NewTokenManager secret access refresh key) filePath same c1 c2 random {| io_dir := d; io_script := script |} = (w, None) ->
    step {| used := U; process := None; disk := d |} {| used := U; process := None; disk := io_dir w |}.

(** ** The sessions on disk *)

Definition decoded (text : string) : tokenSessionState := default newTokenSessionState (decodeTokenSessionState text).
Definition state_on (m : gmap string string) : tokenSessionState := match m !! sessionsFile with Some text => decoded text | None => newTokenSessionState end.
Definition sessions_on (m : gmap string string) : registry := st_Sessions (state_on m).

(** [files] says what a directory holds. *)
Definition table (d : dir) (reg : registry) : Prop := exists m, files m d /\ sessions_on m = reg.

Definition default_limits (tm : TokenManager) : Prop :=
  refreshSessionLimit tm = maxTrackedRefreshSessions /\ refreshUserSessionLimit tm = maxTrackedRefreshSessionsPerUser.
Definition process_ok (m : gmap string string) (tm : TokenManager) : Prop :=
  tm_ok tm /\ persistent tm = true /\ saved tm m /\ default_limits tm.
Definition config_ok (c : config) : Prop :=
  exists m, files m (disk c) /\ dom (sessions_on m) ⊆ used c /\
  match process c with Some tm => process_ok m tm | None => True end.

Lemma holds_state floor reg m : holds floor reg m ->
  state_on m = {| st_SchemaVersion := tokenSessionSchemaVersion; st_RestartTimeFloor := at_wall (wall floor); st_Sessions := plain <$> reg |}.
Proof. intros (text & Ht & _ & Hd). unfold state_on, decoded. by rewrite Ht, Hd. Qed.
Lemma holds_sessions floor reg m : holds floor reg m -> sessions_on m = plain <$> reg.
Proof. intros H. unfold sessions_on. by rewrite (holds_state _ _ _ H). Qed.

(** Two descriptions of one directory agree. *)
Lemma files_agree m m' d name : files m d -> files m' d -> stored name -> m !! name = m' !! name.
Proof.
  intros H H' Hn. specialize (H name Hn). specialize (H' name Hn). unfold file_is in *. destruct (m !! name) as [b|], (m' !! name) as [b'|]; try done.
  - destruct H as (f & Hf & Hb & _), H' as (f' & Hf' & Hb' & _). congruence.
  - destruct H as (f & Hf & _). congruence.
  - destruct H' as (f & Hf & _). congruence.
Qed.
Lemma state_on_agree m m' d : files m d -> files m' d -> state_on m = state_on m'.
Proof. intros H H'. unfold state_on. by rewrite (files_agree m m' d _ H H' stored_sessions). Qed.

(** ** Sessions only age *)

(** Of the sessions with identifiers in [U], [reg'] holds none that [reg] does not, for the same user, with the
    same expiry, and with the same or a later generation. *)
Definition aged (U : gset string) (reg reg' : registry) : Prop :=
  forall id r', id ∈ U -> reg' !! id = Some r' -> exists r, reg !! id = Some r /\
  rec_UserID r' = rec_UserID r /\ wall (rec_ExpiresAt r') = wall (rec_ExpiresAt r) /\ rec_NextRefreshGeneration r <= rec_NextRefreshGeneration r'.

Lemma aged_refl U reg : aged U reg reg.
Proof. intros id r _ Hr. exists r. by split_and!. Qed.
Lemma aged_trans U U' a b c : U ⊆ U' -> aged U a b -> aged U' b c -> aged U a c.
Proof.
  intros Hs Hab Hbc id r Hin Hr. destruct (Hbc id r ltac:(set_solver) Hr) as (r1 & Hr1 & -> & -> & H1).
  destruct (Hab id r1 Hin Hr1) as (r0 & Hr0 & -> & -> & H0). exists r0. split_and!; try done. lia.
Qed.
Lemma aged_subset U reg reg' : reg' ⊆ reg -> aged U reg reg'.
Proof. intros Hs id r _ Hr. exists r. split_and!; try done. by eapply lookup_weaken. Qed.
Lemma aged_plain U reg reg' : aged U reg reg' -> aged U (plain <$> reg) (plain <$> reg').
Proof.
  intros H id r' Hin Hr. apply lookup_fmap_Some in Hr as (r & <- & Hr). destruct (H id r Hin Hr) as (r0 & H0 & Hu & He & Hg).
  exists (plain r0). rewrite lookup_fmap, H0. by split_and!.
Qed.

(** What a call does to the sessions lets them age. *)
Lemma effect_aged o tm reg reg' U : effect o tm reg reg' -> (forall id, drawn o tm = Some id -> id ∉ U) -> dom reg ⊆ U ->
  aged U reg reg' /\ dom reg' ⊆ add_used (drawn o tm) U.
Proof.
  intros He Hf Hd. assert (Hsub : forall reg0, reg0 ⊆ reg -> aged U reg reg0 /\ dom reg0 ⊆ U).
  { intros reg0 Hs. split; [by apply aged_subset|]. apply subseteq_dom in Hs. set_solver. }
  assert (Hun : forall now, unexpired now reg ⊆ reg) by (intros; apply map_filter_subseteq).
  destruct o as [c|user c draws|claims c|sessions c|userID c|c|access refresh]; cbn [effect] in He.
  - destruct He as [-> | ->]; by apply Hsub.
  - destruct He as (id & record & Hdr & _ & _ & _ & _ & _ & _ & _ & ->). rewrite Hdr. specialize (Hf id Hdr).
    destruct (Hsub _ (Hun (jwtTimestamp (effectiveNowLocked tm c).2))) as [Ha Hdom]. cbn [add_used]. split; [|rewrite dom_insert; set_solver].
    intros i r Hi [[<- _]|[_ Hr]]%lookup_insert_Some; [done|]. by apply Ha.
  - destruct He as (previous & record & Hp & _ & Hg & _ & _ & Hu & Hx & Hg' & ->). cbn [drawn add_used]. split.
    + intros i r Hi [[<- <-]|[_ Hr]]%lookup_insert_Some; [|exists r; by split_and!]. exists previous. split_and!; [done..|by rewrite Hx|lia].
    + rewrite dom_insert. assert (rc_SessionID claims ∈ dom reg) by by apply elem_of_dom. set_solver.
  - destruct He as [[_ ->] | ->]; apply Hsub; [done|]. etrans; [apply map_filter_subseteq|apply Hun].
  - subst. apply Hsub. etrans; [apply map_filter_subseteq|apply Hun].
  - subst. apply Hsub, Hun.
  - subst. by apply Hsub.
Qed.

Lemma dom_plain (reg : registry) : dom (plain <$> reg) = dom reg.
Proof. apply set_eq. intros id. by rewrite dom_fmap. Qed.

Lemma loaded_state m state exists_ : loaded m state exists_ -> state_on m = state.
Proof. unfold loaded, state_on. destruct (m !! sessionsFile) as [text|]; intros [_ H]; [unfold decoded; by rewrite H|done]. Qed.

Lemma new_manager_ok secret access refresh key : tm_ok (NewTokenManager secret access refresh key).
Proof.
  split; [apply map_Forall_empty|]. split; [|split; [by left|vm_compute; done]].
  split; [vm_compute; done|]. intros userID. cbn. unfold sessions_of. rewrite map_filter_empty, map_size_empty. vm_compute. done.
Qed.

Lemma plain_plain r : plain (plain r) = plain r.
Proof. done. Qed.

(** The sessions of a manager that has just been started. *)
Lemma enabled_sessions secret access refresh key filePath c1 c2 state :
  let tm := NewTokenManager secret access refresh key in
  sessionRegistry (enabled tm filePath c1 c2 state) ⊆ st_Sessions state /\ sessionStorePath (enabled tm filePath c1 c2 state) = filePath /\
  default_limits (enabled tm filePath c1 c2 state).
Proof.
  cbv zeta. unfold enabled. destruct (effective_clock (enable_base (NewTokenManager secret access refresh key) filePath c1 state) c2) as (high & -> & _).
  match goal with |- context [extendRestartTimeLeaseLocked ?t high] => destruct (extend_floor t high) as (floor & -> & _) end.
  unfold enable_base. cbn. split; [|done]. etrans; [apply map_filter_subseteq|]. by rewrite (right_id_L ∅ (∪)).
Qed.

Lemma decoded_plain text st : decodeTokenSessionState text = Some st -> plain <$> st_Sessions st = st_Sessions st.
Proof.
  intros Hd. apply map_eq. intros id. rewrite lookup_fmap. destruct (st_Sessions st !! id) as [r|] eqn:Er; [|done]. cbn. f_equal.
  revert Hd Er. unfold decodeTokenSessionState. repeat case_match; try done. intros [= <-] Er. cbn in Er.
  match goal with H : decodeRecords _ = Some _ |- _ => destruct (decodeRecords_lookup _ _ _ _ H Er) as (encoded & _ & He) end.
  unfold decodeRecord in He. repeat case_match; try done. by injection He as <-.
Qed.
Lemma state_plain m : plain <$> sessions_on m = sessions_on m.
Proof.
  unfold sessions_on, state_on, decoded. destruct (m !! sessionsFile) as [text|]; [|done].
  destruct (decodeTokenSessionState text) as [st|] eqn:E; [|done]. by eapply decoded_plain.
Qed.

Lemma enabled_sub m m' secret access refresh key filePath c1 c2 state exists_ : filePath <> EmptyString -> loaded m state exists_ ->
  saved (enabled (NewTokenManager secret access refresh key) filePath c1 c2 state) m' ->
  sessions_on m' ⊆ sessions_on m /\ persistent (enabled (NewTokenManager secret access refresh key) filePath c1 c2 state) = true.
Proof.
  intros Hpath Hl Hs. destruct (enabled_sessions secret access refresh key filePath c1 c2 state) as (Hsub & Hp & _).
  assert (Hpers : persistent (enabled (NewTokenManager secret access refresh key) filePath c1 c2 state) = true).
  { unfold persistent. rewrite Hp. by apply negb_true_iff, String.eqb_neq. }
  split; [|done]. rewrite (holds_sessions _ _ _ (Hs Hpers)), <-(state_plain m). unfold sessions_on at 1. rewrite (loaded_state _ _ _ Hl).
  by apply map_fmap_mono.
Qed.

Lemma step_aged c c' : config_ok c -> step c c' ->
  config_ok c' /\ used c ⊆ used c' /\ forall reg reg', table (disk c) reg -> table (disk c') reg' -> aged (used c) reg reg'.
Proof.
  intros Hok Hstep.
  assert (Hkey : exists m m', files m (disk c) /\ files m' (disk c') /\ used c ⊆ used c' /\ aged (used c) (sessions_on m) (sessions_on m') /\
    dom (sessions_on m') ⊆ used c' /\ match process c' with Some tm => process_ok m' tm | None => True end).
  { destruct Hok as (m & Hm & Hdom & Hp). destruct Hstep as [U tm d o random script w tm' r Harg _ Hf Hrun|U tm d o random script w Harg _ Hf Hrun|U tm d|U p d n|
      U d secret access refresh key filePath same c1 c2 random script w tm r Hpath Hc1 Hc2 _ Hrun|U d secret access refresh key filePath same c1 c2 random script w Hpath Hc1 Hc2 _ Hrun];
    cbn [disk used process] in *.
    - destruct Hp as (Htm & Hpers & Hsaved & Hlim). pose proof (call_atomic tm m Htm Hsaved o random Harg {| io_dir := d; io_script := script |} Hm) as H. rewrite Hrun in H.
      destruct H as (Hok' & (Hpath & Hcfg1 & Hcfg2 & _) & _ & m' & Hm' & Hsaved' & _ & Hr). exists m, m'.
      assert (Hpers' : persistent tm' = true) by (unfold persistent in *; by rewrite Hpath).
      rewrite (holds_sessions _ _ _ (Hsaved Hpers)), (holds_sessions _ _ _ (Hsaved' Hpers')), !dom_plain in *.
      assert (Hsub : U ⊆ add_used (drawn o tm) U) by (destruct (drawn o tm); cbn; set_solver).
      assert (Ha : aged U (sessionRegistry tm) (sessionRegistry tm') /\ dom (sessionRegistry tm') ⊆ add_used (drawn o tm) U).
      { destruct r as [[]|[]|e]; [by apply effect_aged|by apply effect_aged|]. rewrite Hr. split; [apply aged_refl|set_solver]. }
      destruct Ha as [Ha Hd']. split_and!; try done; [by apply aged_plain|]. split_and!; try done. unfold default_limits in *. by rewrite Hcfg1, Hcfg2.
    - destruct Hp as (Htm & Hpers & Hsaved & Hlim). pose proof (call_atomic tm m Htm Hsaved o random Harg {| io_dir := d; io_script := script |} Hm) as H. rewrite Hrun in H.
      destruct H as (m' & Hm' & _ & Hr). exists m, m'. assert (Hsub : U ⊆ add_used (drawn o tm) U) by (destruct (drawn o tm); cbn; set_solver).
      destruct Hr as [->|(floor & reg & _ & _ & Hh & He)]; [split_and!; try done; [apply aged_refl|set_solver]|].
      rewrite (holds_sessions _ _ _ (Hsaved Hpers)), (holds_sessions _ _ _ Hh), !dom_plain in *.
      destruct (effect_aged _ _ _ _ U He Hf Hdom) as [Ha Hd']. split_and!; try done. by apply aged_plain.
    - exists m, m. split_and!; try done. apply aged_refl.
    - exists m, m. split_and!; try done; [by apply files_settle|apply aged_refl].
    - pose proof (enable_atomic _ m filePath same c1 c2 random (new_manager_ok secret access refresh key) Hpath Hc1 Hc2 {| io_dir := d; io_script := script |} Hm) as H.
      rewrite Hrun in H. destruct H as (m' & Hm' & _ & Hr). exists m, m'.
      assert (Hgood : (exists state exists_, loaded m state exists_ /\ tm = enabled (NewTokenManager secret access refresh key) filePath c1 c2 state /\ tm_ok tm /\ saved tm m') ->
        aged U (sessions_on m) (sessions_on m') /\ dom (sessions_on m') ⊆ U /\ process_ok m' tm).
      { intros (state & exists_ & Hl & -> & Hok' & Hs'). destruct (enabled_sub m m' _ _ _ _ _ _ _ _ _ Hpath Hl Hs') as [Hsub Hpers].
        split; [by apply aged_subset|]. split; [apply subseteq_dom in Hsub; set_solver|]. repeat (split; [done|]). apply enabled_sessions. }
      destruct r as [[]|[]|e]; [split_and!; try done; by apply Hgood|split_and!; try done; by apply Hgood|].
      destruct Hr as [_ ->]. split_and!; try done. apply aged_refl.
    - pose proof (enable_atomic _ m filePath same c1 c2 random (new_manager_ok secret access refresh key) Hpath Hc1 Hc2 {| io_dir := d; io_script := script |} Hm) as H.
      rewrite Hrun in H. destruct H as (m' & Hm' & _ & Hr). exists m, m'. destruct Hr as [->|(state & exists_ & Hl & _ & Hs')]; [split_and!; try done; apply aged_refl|].
      destruct (enabled_sub m m' _ _ _ _ _ _ _ _ _ Hpath Hl Hs') as [Hsub Hpers].
      split_and!; try done; [by apply aged_subset|]. apply subseteq_dom in Hsub. set_solver. }
  destruct Hkey as (m & m' & Hm & Hm' & Hu & Ha & Hdom & Hp). split; [by exists m'|]. split; [done|].
  intros reg reg' (n & Hn & <-) (n' & Hn' & <-). unfold sessions_on in *. by rewrite (state_on_agree n m (disk c)), (state_on_agree n' m' (disk c')).
Qed.


Lemma steps_aged c c' : config_ok c -> rtc step c c' ->
  config_ok c' /\ used c ⊆ used c' /\ forall reg reg', table (disk c) reg -> table (disk c') reg' -> aged (used c) reg reg'.
Proof.
  intros Hok Hs. induction Hs as [c|c c1 c2 Hs _ IH].
  - split; [done|]. split; [done|]. intros reg reg' (m & Hm & <-) (m' & Hm' & <-). unfold sessions_on. rewrite (state_on_agree m m' (disk c)) by done. apply aged_refl.
  - destruct (step_aged _ _ Hok Hs) as (Hok1 & Hu1 & Ha1). destruct (IH Hok1) as (Hok2 & Hu2 & Ha2). split; [done|]. split; [set_solver|].
    intros reg reg2 Ht Ht2. destruct Hok1 as (m1 & Hm1 & _). eapply aged_trans; [exact Hu1|apply Ha1; [done|by exists m1]|apply Ha2; [by exists m1|done]].
Qed.

(** The table of a running process is its registry. *)
Lemma running_table c tm : config_ok c -> process c = Some tm -> table (disk c) (plain <$> sessionRegistry tm) /\ dom (sessionRegistry tm) ⊆ used c.
Proof.
  intros (m & Hm & Hd & Hp) E. rewrite E in Hp. destruct Hp as (_ & Hpers & Hs & _). pose proof (holds_sessions _ _ _ (Hs Hpers)) as Hh.
  split; [by exists m|]. by rewrite Hh, dom_plain in Hd.
Qed.

(** From one running process to a later one. *)
Lemma running_aged c c' tm tm' : config_ok c -> rtc step c c' -> process c = Some tm -> process c' = Some tm' ->
  used c ⊆ used c' /\ aged (used c) (sessionRegistry tm) (sessionRegistry tm') /\ config_ok c'.
Proof.
  intros Hok Hs Hp Hp'. destruct (steps_aged _ _ Hok Hs) as (Hok' & Hu & Ha). split; [done|]. split; [|done].
  specialize (Ha _ _ (proj1 (running_table _ _ Hok Hp)) (proj1 (running_table _ _ Hok' Hp'))). intros id r' Hin Hr'.
  destruct (Ha id (plain r') Hin) as (r & Hr & Hu' & He & Hg); [by rewrite lookup_fmap, Hr'|].
  apply lookup_fmap_Some in Hr as (r0 & <- & Hr0). exists r0. by split_and!.
Qed.
End System.
End TokenSystem.
