(* ===== verification/TokenTime.v ===== *)
(** * Tokens and login sessions: the time of the server

    While the wall clock is not set during a process, the time that the token manager uses never goes back, not
    even when the machine starts again with another time: the file holds a time that the process has not
    reached ([restartTimeFloor]), below which no later process starts.  When the wall clock is set during a
    process, the manager does not notice: its instants carry readings of the monotonic clock, and these are
    what is compared. *)

From Stdlib Require Import Ascii.
From S2P Require Import Prelude GoStrings GoPath GoFormat GoTime MonoTime Sha256 Users FileMonad UserFields AuthFiles UsersFile TokenTypes Tokens TokenOps TokenSpec TokenAtomic TokenStart TokenSystem.
Import MonoTime Sha256 AuthFiles UsersFile TokenTypes Tokens TokenOps TokenSpec TokenAtomic TokenStart TokenSystem.

Module TokenTime.

Section Time.
Context {case_tables : Unicode} {codec : SessionCodec} {jwt : Jwt}.

(** What a call that returns leaves as the time of the manager. *)
Definition ticked (tm : TokenManager) (o : op) (tm' : TokenManager) : Prop :=
  timeHighWater tm' = timeHighWater tm \/ exists c, clock_of o = Some c /\ timeHighWater tm' = snd (effectiveNowLocked tm c).
Definition returns {D A} (p : program D A) (Q : A -> Prop) : Prop := always (fun _ => True) p (fun a _ => Q a) (fun _ => True).

Lemma returns_ret {A} (a : A) (Q : A -> Prop) : Q a -> returns (ret a : prog A) Q.
Proof. intros H. by apply always_ret. Qed.
Lemma returns_bind {A B} (p : prog A) (k : A -> prog B) (Q : A -> Prop) R : returns p Q -> (forall a, Q a -> returns (k a) R) -> returns (bind p k) R.
Proof. intros Hp Hk. eapply always_bind; [exact Hp|]. intros a w Ha. by apply Hk. Qed.
Lemma returns_any {A} (p : prog A) : returns p (fun _ => True).
Proof. intros w _. by destruct (p w) as [w' [a|]]. Qed.

Lemma persisted_returns {A} tm1 tm0 (a : A) random (Q : TokenManager -> Prop) : Q tm1 -> Q tm0 -> returns (persisted tm1 tm0 a random) (fun out => Q (fst out)).
Proof. intros H1 H0. eapply returns_bind; [apply returns_any|]. intros r _. apply returns_ret. by destruct r. Qed.

Lemma removal_returns tm now a b random (Q : TokenManager -> Prop) : (forall floor reg, Q (with_floor (with_registry tm reg) floor)) ->
  returns (persist_removal tm now a b random) (fun out => Q (fst out)).
Proof.
  intros H. assert (Heta : forall tm', with_floor (with_registry tm' (sessionRegistry tm')) (restartTimeFloor tm') = tm') by (by intros []).
  unfold persist_removal. destruct (_ && _); [apply returns_ret; cbn; rewrite <-Heta; apply H|]. cbv zeta.
  destruct (extend_floor tm now) as (floor & -> & _).
  assert (Hf : Q (with_floor tm floor)) by exact (H floor (sessionRegistry tm)).
  by apply persisted_returns; [done|apply H].
Qed.

Lemma run_ticked o tm random : returns (run o tm random) (fun out => ticked tm o (fst out)).
Proof.
  assert (Hd : forall A (p : prog (TokenManager * reply A)), returns p (fun out => ticked tm o (fst out)) -> returns (discard p) (fun out => ticked tm o (fst out))).
  { intros A p H. eapply returns_bind; [exact H|]. intros [tm' r] Ht. by apply returns_ret. }
  assert (Hsame : forall A (r : A), returns (ret (tm, r) : prog _) (fun out => ticked tm o (fst out))) by (intros; apply returns_ret; by left).
  destruct o as [c|user c draws|claims c|sessions c|userID c|c|access refresh]; cbn [run].
  - unfold prepareValidationTime. destruct (effective_clock tm c) as (high & He & _). rewrite He.
    assert (Hgo : forall tm' (r : result TokenError Time), timeHighWater tm' = high ->
      returns (run! (tm, r) := ret (tm', r) in ret (tm, match r with Ok _ => Done tt | Err e => Failed (A := unit) e end) : prog _) (fun out => ticked tm (OpPrepare c) (fst out))).
    { intros tm' r Ht. apply returns_ret. right. exists c. by rewrite He. }
    destruct (String.eqb _ _); [by apply Hgo|]. destruct (_ || _); [by apply Hgo|]. destruct (_ && _); [by apply Hgo|]. cbn [cleanupExpiredSessionsLocked].
    match goal with |- context [extendRestartTimeLeaseLocked ?t high] => destruct (extend_floor t high) as (floor & -> & _) end.
    intros w _. unfold bind. destruct (persistSessionStateLocked _ random w) as [w' [[]|]]; cbn; try done; [right; exists c; by rewrite He..|].
    destruct (_ || _); cbn; right; exists c; by rewrite He.
  - apply Hd. unfold GenerateTokenPair. destruct (negb _); [apply Hsame|]. destruct (effective_clock tm c) as (high & He & _). rewrite He. cbn [cleanupExpiredSessionsLocked].
    assert (Ht : forall tm', timeHighWater tm' = high -> ticked tm (OpGenerate user c draws) tm') by (intros tm' E; right; exists c; by rewrite He).
    destruct (_ || _); [by apply returns_ret, Ht|]. destruct (generateUniqueSessionIDLocked _ _); [|by apply returns_ret, Ht].
    destruct (negb _); [by apply returns_ret, Ht|]. destruct (signTokenPair _ _ _ _ _ _ _ _ _); [|by apply returns_ret, Ht]. cbv zeta.
    match goal with |- context [extendRestartTimeLeaseLocked ?t (jwtTimestamp high)] => destruct (extend_floor t (jwtTimestamp high)) as (floor & -> & _) end.
    by apply (persisted_returns _ _ _ _ (ticked tm (OpGenerate user c draws))); apply Ht.
  - unfold consumeRefreshTokenClaims. cbv zeta. destruct (ClaimExpiresAt _); [|apply Hsame]. destruct (_ || _ || _ || _); [apply Hsame|].
    destruct (effective_clock tm c) as (high & He & _). rewrite He.
    assert (Ht : forall tm', timeHighWater tm' = high -> ticked tm (OpConsume claims c) tm') by (intros tm' E; right; exists c; by rewrite He).
    destruct (negb _); [by apply returns_ret, Ht|]. destruct (validateRefreshTokenClaimsLocked _ _ _); [by apply returns_ret, Ht|].
    destruct (sessionRegistry _ !! _); [|by apply returns_ret, Ht]. destruct (_ =? _); [by apply returns_ret, Ht|]. destruct (_ && _); [by apply returns_ret, Ht|].
    match goal with |- context [extendRestartTimeLeaseLocked ?t high] => destruct (extend_floor t high) as (floor & -> & _) end.
    by apply (persisted_returns _ _ _ _ (ticked tm (OpConsume claims c))); apply Ht.
  - unfold RevokeSessions. destruct (Nat.eqb _ _); [apply Hsame|]. destruct (existsb _ _); [apply Hsame|].
    destruct (effective_clock tm c) as (high & He & _). rewrite He. apply (removal_returns _ _ _ _ _ (ticked tm (OpRevokeSessions sessions c))).
    intros floor reg. right. exists c. by rewrite He.
  - unfold RevokeByUser. destruct (String.eqb _ _); [apply Hsame|].
    destruct (effective_clock tm c) as (high & He & _). rewrite He. apply (removal_returns _ _ _ _ _ (ticked tm (OpRevokeByUser userID c))).
    intros floor reg. right. exists c. by rewrite He.
  - unfold CleanupExpiredSessions. destruct (effective_clock tm c) as (high & He & _). rewrite He. apply (removal_returns _ _ _ _ _ (ticked tm (OpCleanup c))).
    intros floor reg. right. exists c. by rewrite He.
  - by apply returns_ret; left.
Qed.

(** ** Clocks that agree within a process *)

Definition calls_agree (tm : TokenManager) (o : op) : Prop := exists k, clocks_agree k tm o.
Definition start_agrees (c1 c2 : clock) : Prop :=
  exists k, agrees k (clock_now c1) /\ agrees k (clock_observed c1) /\ agrees k (clock_now c2) /\ agrees k (clock_observed c2).

Notation honest_step := (step calls_agree start_agrees).

(** The server has passed the instant [t]: no process will be behind it. *)
Definition passed (t : Z) (c : config) : Prop :=
  config_ok c /\ (exists m, files m (disk c) /\ t <= wall (st_RestartTimeFloor (state_on m))) /\
  match process c with Some tm => t <= wall (timeHighWater tm) | None => True end.

Lemma saved_floor tm m : persistent tm = true -> saved tm m -> wall (st_RestartTimeFloor (state_on m)) = wall (restartTimeFloor tm).
Proof. intros Hp Hs. by rewrite (holds_state _ _ _ (Hs Hp)). Qed.

Lemma enabled_time secret access refresh key filePath c1 c2 state m exists_ : loaded m state exists_ -> readings_ok c2 -> start_agrees c1 c2 ->
  let tm := enabled (NewTokenManager secret access refresh key) filePath c1 c2 state in
  wall (st_RestartTimeFloor state) <= wall (timeHighWater tm) /\ wall (st_RestartTimeFloor state) <= wall (restartTimeFloor tm).
Proof.
  intros Hl Hc2 (k & H1 & H2 & H3 & H4). cbv zeta. pose proof (loaded_floor _ _ _ Hl) as Hm. unfold enabled.
  set (base := enable_base _ filePath c1 state).
  assert (Hbase : agrees k (timeHighWater base) /\ wall (st_RestartTimeFloor state) <= wall (timeHighWater base) /\
    mono (restartTimeFloor base) = None /\ wall (st_RestartTimeFloor state) <= wall (restartTimeFloor base)).
  { unfold base, enable_base. cbv zeta. cbn [timeHighWater restartTimeFloor with_clock with_floor NewTokenManager].
    assert (Hf : agrees k (st_RestartTimeFloor state)) by (intros x Hx; by rewrite Hm in Hx).
    rewrite (After_wall k (st_RestartTimeFloor state) zero_time) by (done || apply agrees_at_wall).
    destruct (Z.ltb_spec (wall zero_time) (wall (st_RestartTimeFloor state))) as [Hz|Hz].
    - rewrite (After_wall k) by done. destruct (Z.ltb_spec (wall (st_RestartTimeFloor state)) (wall (clock_now c1))); split_and!; try done; lia.
    - rewrite (After_wall k) by (done || apply agrees_at_wall). destruct (Z.ltb_spec (wall zero_time) (wall (clock_now c1))); split_and!; try done; lia. }
  destruct Hbase as (Ha & Hh & Hn & Hfl). destruct (effective_agrees k base c2 Ha H2 H3 H4) as (_ & Hle & _). specialize (Hle Hc2).
  destruct (effective_clock base c2) as (high & He & _). rewrite He in *. cbn [snd] in Hle.
  match goal with |- context [extendRestartTimeLeaseLocked ?t high] => destruct (extend_floor t high) as (floor & -> & Hfloor) end.
  cbn [timeHighWater restartTimeFloor with_floor with_registry with_clock] in *. split; [lia|].
  destruct Hfloor as [->|[_ Hafter]]; [done|]. unfold After, on_clocks in Hafter. rewrite Hn in Hafter. destruct (mono floor); b2p; lia.
Qed.

Lemma step_passed t c c' : passed t c -> honest_step c c' -> passed t c'.
Proof.
  intros (Hok & (m & Hm & Ht) & Hp) Hstep. destruct (step_aged _ _ _ _ Hok Hstep) as (Hok' & _). split; [done|].
  destruct Hok as (m0 & Hm0 & _ & Hproc). rewrite (state_on_agree m m0 _ Hm Hm0) in Ht. clear Hok' m Hm. rename m0 into m, Hm0 into Hm.
  destruct Hstep as [U tm d o random script w tm' r Harg [k Hk] _ Hrun|U tm d o random script w Harg [k Hk] _ Hrun|U tm d|U p d n|
    U d secret access refresh key filePath same c1 c2 random script w tm r Hpath Hc1 Hc2 Hagree Hrun|U d secret access refresh key filePath same c1 c2 random script w Hpath Hc1 Hc2 Hagree Hrun];
    cbn [disk used process] in *.
  - destruct Hproc as (Htm & Hpers & Hsaved & _). pose proof (call_atomic tm m Htm Hsaved o random Harg {| io_dir := d; io_script := script |} Hm) as H. rewrite Hrun in H.
    destruct H as (_ & (Hpath & _) & Hrise & m' & Hm' & Hsaved' & _ & _). destruct (Hrise k Hk) as [_ Hle].
    assert (Hpers' : persistent tm' = true) by (unfold persistent in *; by rewrite Hpath). rewrite (saved_floor _ _ Hpers Hsaved) in Ht.
    split; [exists m'; split; [done|]; rewrite (saved_floor _ _ Hpers' Hsaved'); lia|].
    pose proof (run_ticked o tm random {| io_dir := d; io_script := script |} I) as Htick. rewrite Hrun in Htick. unfold ticked in Htick. cbn [fst] in Htick. destruct Htick as [->|(c & Hc & ->)]; [done|].
    destruct Hk as (H1 & H2 & _ & H4). destruct (H4 c Hc) as [H5 H6]. destruct (effective_agrees k tm c H1 H2 H5 H6) as (_ & Hw & _).
    enough (readings_ok c) by (specialize (Hw ltac:(done)); lia). destruct o; cbn in *; try done; injection Hc as ->; tauto.
  - destruct Hproc as (Htm & Hpers & Hsaved & _). pose proof (call_atomic tm m Htm Hsaved o random Harg {| io_dir := d; io_script := script |} Hm) as H. rewrite Hrun in H.
    destruct H as (m' & Hm' & _ & [->|(floor & reg & Hrise & _ & Hh & _)]); (split; [|done]); [by exists m|]. exists m'. split; [done|].
    rewrite (holds_state _ _ _ Hh). cbn. rewrite (saved_floor _ _ Hpers Hsaved) in Ht. destruct (Hrise k Hk). lia.
  - split; [by exists m|done].
  - split; [|done]. exists m. split; [by apply files_settle|done].
  - pose proof (enable_atomic _ m filePath same c1 c2 random (new_manager_ok secret access refresh key) Hpath Hc1 Hc2 {| io_dir := d; io_script := script |} Hm) as H.
    rewrite Hrun in H. destruct H as (m' & Hm' & _ & Hr).
    assert (Hgood : (exists state exists_, loaded m state exists_ /\ tm = enabled (NewTokenManager secret access refresh key) filePath c1 c2 state /\ tm_ok tm /\ saved tm m') ->
      (exists m', files m' (io_dir w) /\ t <= wall (st_RestartTimeFloor (state_on m'))) /\ t <= wall (timeHighWater tm)).
    { intros (state & exists_ & Hl & -> & _ & Hs'). destruct (enabled_sub m m' _ _ _ _ _ _ _ _ _ Hpath Hl Hs') as [_ Hpers].
      destruct (enabled_time secret access refresh key filePath c1 c2 state m exists_ Hl Hc2 Hagree) as [Hh Hf].
      rewrite (loaded_state _ _ _ Hl) in Ht. split; [|lia]. exists m'. split; [done|]. rewrite (saved_floor _ _ Hpers Hs'). lia. }
    destruct r as [[]|[]|e]; [by apply Hgood|by apply Hgood|]. destruct Hr as [_ ->]. split; [by exists m|done].
  - pose proof (enable_atomic _ m filePath same c1 c2 random (new_manager_ok secret access refresh key) Hpath Hc1 Hc2 {| io_dir := d; io_script := script |} Hm) as H.
    rewrite Hrun in H. destruct H as (m' & Hm' & _ & [->|(state & exists_ & Hl & _ & Hs')]); (split; [|done]); [by exists m|]. exists m'. split; [done|].
    destruct (enabled_sub m m' _ _ _ _ _ _ _ _ _ Hpath Hl Hs') as [_ Hpers]. rewrite (saved_floor _ _ Hpers Hs').
    destruct (enabled_time secret access refresh key filePath c1 c2 state m exists_ Hl Hc2 Hagree) as [_ Hf]. rewrite (loaded_state _ _ _ Hl) in Ht. lia.
Qed.

(** ** Validation times *)

(** The time that a validation is given is one that the server has passed. *)
Lemma prepare_ahead tm c random k : persistent tm = true -> clocks_agree k tm (OpPrepare c) ->
  returns (prepareValidationTime tm c random)
    (fun out => forall now, snd out = Ok now -> timeHighWater (fst out) = now /\ wall now <= wall (restartTimeFloor (fst out))).
Proof.
  intros Hp (H1 & H2 & H3 & H4). destruct (H4 c eq_refl) as [H5 H6]. destruct (effective_agrees k tm c H1 H2 H5 H6) as (Ha & _ & _).
  unfold prepareValidationTime. destruct (effective_clock tm c) as (high & He & _). rewrite He in *. cbn [snd] in Ha.
  assert (Hnot : String.eqb (sessionStorePath (with_clock tm high (clock_observed c))) EmptyString = false) by (unfold persistent in Hp; by apply negb_true_iff in Hp).
  rewrite Hnot. destruct (_ || _ || _) eqn:Econf; [by apply returns_ret|]. apply orb_false_iff in Econf as [Econf E3]. apply orb_false_iff in Econf as [E1 E2].
  cbn [timeLeaseDuration timeLeaseRenewalLead with_clock] in *. apply Z.leb_gt in E1, E3. apply Z.ltb_ge in E2.
  destruct (negb _ && _) eqn:Elease.
  { apply returns_ret. cbn [fst snd]. intros now [= <-]. split; [done|]. apply andb_true_iff in Elease as [_ Eb]. cbn [restartTimeFloor with_clock] in Eb |- *.
    rewrite (Before_wall k) in Eb by (done || by apply agrees_Add). unfold Add in Eb. cbn in Eb. b2p. lia. }
  cbn [cleanupExpiredSessionsLocked]. set (tm1 := with_registry _ _).
  assert (Hext : wall high <= wall (restartTimeFloor (extendRestartTimeLeaseLocked tm1 high)) /\ timeHighWater (extendRestartTimeLeaseLocked tm1 high) = high).
  { unfold extendRestartTimeLeaseLocked. change (sessionStorePath tm1) with (sessionStorePath (with_clock tm high (clock_observed c))). rewrite Hnot.
    change (timeLeaseDuration tm1) with (timeLeaseDuration tm). rewrite (proj2 (Z.leb_gt _ _) E1). cbn [orb]. cbv zeta.
    change (restartTimeFloor tm1) with (restartTimeFloor tm). rewrite (After_wall k) by (done || by apply agrees_Add).
    destruct (Z.ltb_spec (wall (restartTimeFloor tm)) (wall (Add high (timeLeaseDuration tm)))) as [Hlt|Hge]; (split; [|done]); unfold Add in *; cbn in *; lia. }
  eapply returns_bind; [apply returns_any|]. intros [| |e] _; [apply returns_ret; cbn [fst snd]; intros now [= <-]; tauto..|].
  destruct (IsZero _ || _) eqn:Eu; apply returns_ret; cbn [fst snd]; [done|]. intros now [= <-]. split; [apply Hext|].
  apply orb_false_iff in Eu as [_ Eb]. apply negb_false_iff in Eb. cbn [restartTimeFloor with_clock restoreRemovedSessionsLocked with_floor with_registry] in *.
  rewrite (Before_wall k) in Eb by done. b2p. lia.
Qed.

Lemma prepare_passed U tm d c random script w tm' now :
  config_ok {| used := U; process := Some tm; disk := d |} -> readings_ok c -> calls_agree tm (OpPrepare c) ->
  prepareValidationTime tm c random {| io_dir := d; io_script := script |} = (w, Some (tm', Ok now)) ->
  passed (wall now) {| used := U; process := Some tm'; disk := io_dir w |}.
Proof.
  intros Hok Hc [k Hk] Hrun.
  assert (Hrun' : run (OpPrepare c) tm random {| io_dir := d; io_script := script |} = (w, Some (tm', Done tt))).
  { cbn [run]. unfold bind. by rewrite Hrun. }
  assert (Hstep : honest_step {| used := U; process := Some tm; disk := d |} {| used := U; process := Some tm'; disk := io_dir w |}).
  { apply (step_call _ _ U tm d (OpPrepare c) random script w tm' (Done tt)); try done. by exists k. }
  destruct (step_aged _ _ _ _ Hok Hstep) as (Hok' & _). split; [done|]. destruct Hok as (m & _ & _ & _ & Hpers & _).
  pose proof (prepare_ahead tm c random k Hpers Hk {| io_dir := d; io_script := script |} I) as H. rewrite Hrun in H. destruct (H now eq_refl) as [Hh Hf]. cbn [fst] in *.
  destruct Hok' as (m' & Hm' & _ & _ & Hpers' & Hsaved' & _). cbn [disk process] in *. split; [|rewrite Hh; lia].
  exists m'. split; [done|]. by rewrite (saved_floor _ _ Hpers' Hsaved').
Qed.

Lemma steps_passed t c c' : passed t c -> rtc honest_step c c' -> passed t c'.
Proof. intros H Hs. induction Hs as [|c c1 c2 Hs _ IH]; [done|]. by eapply IH, step_passed. Qed.
End Time.
End TokenTime.
