(* ===== verification/TokenIssue.v ===== *)
(** * Tokens and login sessions: the tokens that are issued

    A pair that [signTokenPair] signs is read back by the parsers with the claims that were signed, as long as it
    has not expired and the key and the issuer are the same. *)

From Stdlib Require Import Ascii.
From S2P Require Import Prelude GoStrings GoPath GoFormat GoTime MonoTime Sha256 Users FileMonad UserFields AuthFiles UsersFile TokenTypes Tokens TokenOps TokenSpec TokenAtomic TokenStart TokenSystem TokenTime.
Import MonoTime Sha256 AuthFiles UsersFile TokenTypes Tokens TokenOps TokenSpec TokenAtomic TokenStart TokenSystem TokenTime.

Module TokenIssue.

(** ** Instants in claims *)

(** An instant and a duration of 64 bits, as far as the present era goes. *)
Definition wire_range (w : Z) : Prop := zero_instant <= w <= 4 * maxInt64.

Lemma numeric_truncated w : wire_range w -> numeric_date (w - w mod second) = true.
Proof.
  unfold wire_range, numeric_date, zero_instant, maxInt64, second. intros Hw.
  replace (w - w mod 1000000000) with (w / 1000000000 * 1000000000) by (rewrite Z.mod_eq; lia). rewrite Z.mod_mul, Z.div_mul by done.
  apply andb_true_iff. split; [done|]. apply Z.ltb_lt. change (2 ^ 53) with 9007199254740992. pose proof (Z.div_mod w 1000000000 ltac:(lia)). pose proof (Z.mod_pos_bound w 1000000000 ltac:(lia)). lia.
Qed.
Lemma wire_numeric t : wire_range (wall t) -> wire_time (NewNumericDate t) = true.
Proof. apply numeric_truncated. Qed.

Lemma truncated_le t u : wall t <= wall u -> wall (Truncate t) <= wall (Truncate u).
Proof.
  unfold Truncate, second_ns. cbn. intros H. rewrite !Z.mod_eq by done. pose proof (Z.div_le_mono _ _ 1000000000 ltac:(lia) H). lia.
Qed.

(** ** Identifiers *)

Lemma append_substring (s t : string) : String.substring 0 (String.length s) (s +:+ t) = s.
Proof. induction s as [|a s IH]; [by destruct t|]. cbn. by f_equal. Qed.

Lemma str_drop_append s t : str_drop (String.length s) (s +:+ t) = t.
Proof. induction s as [|a s IH]; [by destruct t|done]. Qed.
Lemma TrimSuffix_append s t : HasSuffix (s +:+ t) t = true /\ TrimSuffix (s +:+ t) t = s.
Proof.
  assert (Hl : String.length (s +:+ t) = (String.length s + String.length t)%nat) by (induction s as [|a s IH]; cbn; [done|by rewrite IH]).
  assert (Hs : HasSuffix (s +:+ t) t = true).
  { unfold HasSuffix. rewrite Hl, Nat.add_sub, str_drop_append, String.eqb_refl. by rewrite (proj2 (Nat.leb_le _ _)) by lia. }
  split; [done|]. unfold TrimSuffix. by rewrite Hs, Hl, Nat.add_sub, append_substring.
Qed.

Section Issue.
Context {case_tables : Unicode} {codec : SessionCodec} {jwt : Jwt}.

(** What [generateTokenID] gives. *)
Definition token_id (id : string) : Prop := exists draw, generateTokenID draw = Some id.

Lemma token_id_text id : token_id id ->
  validSessionID id = true /\ ValidString id = true /\ ValidString (id +:+ "-refresh") = true /\ id <> EmptyString /\ id <> (id +:+ "-refresh").
Proof.
  intros [draw Hid]. destruct (valid_generated draw id Hid) as [Hv Hs]. split; [done|]. split; [done|]. split; [|split].
  - unfold generateTokenID in Hid. destruct draw as [b|]; [|done]. destruct (_ =? _); [|done]. injection Hid as <-. apply ValidString_ascii.
    clear Hs Hv. pose proof (encoded_lower b) as Hlow. induction (EncodeToString b) as [|a e IH]; [done|]. cbn in *. apply andb_true_iff in Hlow as [Ha He].
    apply andb_true_iff in Ha as [Ha _]. by rewrite Ha, IH by done.
  - by intros ->.
  - intros E. apply (f_equal String.length) in E. clear -E. induction id as [|a id IH]; [done|]. cbn in E. injection E as E. by apply IH.
Qed.

Lemma drawn_token_id attempts reg draws id : uniqueSessionID attempts reg draws = Some id -> token_id id.
Proof.
  revert draws. induction attempts as [|attempts IH]; intros draws; [done|]. cbn [uniqueSessionID].
  destruct (generateTokenID (draws O)) as [id'|] eqn:E; [|done]. case_bool_decide; [apply IH|]. intros [= <-]. by eexists.
Qed.

(** A user whose claims survive their encoding. *)
Definition wire_user (user : User) : bool :=
  ValidString (ID user) && ValidString (Username user) && ValidString (UserRole user) && is_uint64 (CredentialVersion user).

Lemma wire_user_texts user : wire_user user = true ->
  ValidString (ID user) = true /\ ValidString (Username user) = true /\ ValidString (UserRole user) = true /\ is_uint64 (CredentialVersion user) = true.
Proof. intros [[[H1 H2]%andb_true_iff H3]%andb_true_iff H4]%andb_true_iff. done. Qed.

(** ** A signed pair *)

Section Pair.
Context (user : User) (sessionID tokenID : string) (sessionExpires now : Time) (generation duration : Z) (issuer_ key : string) (pair : TokenPair).
Hypothesis (Hpair : signTokenPair user sessionID sessionExpires generation tokenID now duration issuer_ key = Some pair).
Hypothesis (Huser : validateTokenUser user = true) (Hwire : wire_user user = true) (Hissuer : ValidString issuer_ = true).
Hypothesis (Hid : token_id tokenID) (Hsession : validSessionID sessionID = true) (Hutf : ValidString sessionID = true).
Hypothesis (Hgen : is_uint64 generation = true).
Hypothesis (Hx : wire_range (wall sessionExpires)) (Hnow : wire_range (wall now)) (Hnow_dur : wire_range (wall (Add now duration))).
Hypothesis (Hno_mono : mono sessionExpires = None).

Lemma pair_expiry : wire_range (wall (PairExpiresAt pair)) /\ wall (PairExpiresAt pair) <= wall sessionExpires /\ PairRefreshExpiresAt pair = sessionExpires.
Proof.
  revert Hpair. unfold signTokenPair. cbv zeta. set (expiry := if After _ _ then _ else _).
  destruct (SignAccess _ _); [|done]. destruct (SignRefresh _ _); [|done]. intros [= <-]. cbn [PairExpiresAt PairRefreshExpiresAt].
  unfold expiry. unfold After, on_clocks. rewrite Hno_mono. destruct (mono (Add now duration)); destruct (Z.ltb_spec (wall sessionExpires) (wall (Add now duration))); (split; [done|]; split; [lia|done]).
Qed.

Lemma issued_registered t tid : wire_range (wall t) -> ValidString tid = true -> wire_registered (registered issuer_ user t now tid) = true.
Proof.
  intros Ht Htid. unfold wire_registered, registered. cbn [Issuer Subject ClaimID ClaimExpiresAt IssuedAt NotBefore].
  destruct (wire_user_texts _ Hwire) as (-> & _). by rewrite Hissuer, Htid, !wire_numeric by done.
Qed.

(** What the library says of the claims at a later instant. *)
Lemma issued_judged t tid later : wall (Truncate now) <= later + tokenValidationLeeway ->
  jwt_accepts issuer_ tokenValidationLeeway later (registered issuer_ user t now tid) =
  if wall (Truncate t) + tokenValidationLeeway <=? later then Some JwtExpired else None.
Proof.
  intros Hl. unfold jwt_accepts, registered, NewNumericDate. cbn [Issuer Subject ClaimID ClaimExpiresAt IssuedAt NotBefore].
  destruct (_ <=? later); [done|]. by rewrite (proj2 (Z.ltb_ge _ _)), String.eqb_refl by lia.
Qed.

Lemma access_read : exists claims, ac_UserID claims = ID user /\ ac_Username claims = Username user /\ ac_Role claims = UserRole user /\
  ac_CredentialVersion claims = CredentialVersion user /\ ac_SessionID claims = sessionID /\
  ac_SessionExpiresAt claims = Some (wall (Truncate sessionExpires)) /\
  forall tm validationNow, secretKey tm = key -> issuer tm = issuer_ -> wall (Truncate now) <= wall validationNow + tokenValidationLeeway ->
  parse_access tm validationNow (AccessToken pair) =
    if wall (Truncate (PairExpiresAt pair)) + tokenValidationLeeway <=? wall validationNow then Err ErrTokenExpired else Ok claims.
Proof.
  destruct pair_expiry as (Hr & Hle & _). revert Hpair Hr Hle. unfold signTokenPair. cbv zeta. set (expiry := if After _ _ then _ else _).
  set (claims := {| ac_Registered := _ |}). destruct (SignAccess key claims) as [token|] eqn:Es; [|done]. destruct (SignRefresh _ _); [|done]. intros [= <-].
  cbn [PairExpiresAt AccessToken]. intros Hr Hle. exists claims. do 6 (split; [done|]). intros tm v Hk Hi Hv. unfold parse_access. rewrite Hk, Hi.
  destruct (token_id_text tokenID Hid) as (_ & Htid & _ & Hne & _). rewrite (parse_signed_access _ _ _ _ _ _ Es).
  - cbn [claims ac_Registered]. rewrite issued_judged by done. destruct (_ <=? wall v); [done|].
    unfold access_claims_complete. cbn [claims ac_UserID ac_Registered registered Subject ac_Username ClaimID ac_SessionID ac_SessionExpiresAt ClaimExpiresAt NewNumericDate].
    unfold validateTokenUser in Huser. apply negb_true_iff, orb_false_iff in Huser as [[Hu _]%orb_false_iff Hn].
    rewrite Hu, Hn, String.eqb_refl, (proj2 (String.eqb_neq _ _) Hne), Hsession. cbn [negb orb].
    by rewrite (proj2 (Z.ltb_ge _ _)) by (by apply truncated_le).
  - unfold wire_access. cbn [claims ac_UserID ac_Registered ac_Username ac_Role ac_SessionID ac_SessionExpiresAt ac_CredentialVersion].
    rewrite issued_registered, wire_numeric, Hutf by done. by destruct (wire_user_texts _ Hwire) as (-> & -> & -> & ->).
Qed.

Lemma refresh_read : exists claims, Subject (rc_Registered claims) = ID user /\ rc_CredentialVersion claims = CredentialVersion user /\
  rc_SessionID claims = sessionID /\ rc_Generation claims = generation /\
  ClaimExpiresAt (rc_Registered claims) = Some (wall (Truncate sessionExpires)) /\
  forall tm validationNow, secretKey tm = key -> issuer tm = issuer_ -> wall (Truncate now) <= wall validationNow + tokenValidationLeeway ->
  parse_refresh tm validationNow (RefreshToken pair) =
    if wall (Truncate sessionExpires) + tokenValidationLeeway <=? wall validationNow then Err ErrTokenExpired else Ok claims.
Proof.
  revert Hpair. unfold signTokenPair. cbv zeta. set (claims := {| rc_Registered := _ |}).
  destruct (SignAccess _ _); [|done]. destruct (SignRefresh key claims) as [token|] eqn:Es; [|done]. intros [= <-].
  cbn [RefreshToken]. exists claims. do 5 (split; [done|]). intros tm v Hk Hi Hv. unfold parse_refresh. rewrite Hk, Hi.
  destruct (token_id_text tokenID Hid) as (_ & _ & Htid & Hne & Hne2). rewrite (parse_signed_refresh _ _ _ _ _ _ Es).
  - cbn [claims rc_Registered]. rewrite issued_judged by done. destruct (_ <=? wall v); [done|].
    unfold refresh_claims_complete. cbn [claims rc_Registered registered Subject ClaimID rc_SessionID ClaimExpiresAt NewNumericDate].
    destruct (TrimSuffix_append tokenID "-refresh") as [_ ->]. unfold validateTokenUser in Huser. apply negb_true_iff, orb_false_iff in Huser as [[Hu _]%orb_false_iff Hn].
    by rewrite Hu, (proj2 (String.eqb_neq _ _) Hne), (proj2 (String.eqb_neq _ _) Hne2), Hsession.
  - unfold wire_refresh. cbn [claims rc_Registered rc_CredentialVersion rc_SessionID rc_Generation].
    rewrite issued_registered, Hutf, Hgen by done. by destruct (wire_user_texts _ Hwire) as (_ & _ & _ & ->).
Qed.
End Pair.

(** ** A login *)

(** What [GenerateTokenPair] returns when it succeeds: the pair of a session that it has registered. *)
Definition logged_in (tm : TokenManager) (user : User) (c : clock) (draws : nat -> option string) (tm' : TokenManager) (pair : TokenPair) : Prop :=
  validateTokenUser user = true /\
  let now := jwtTimestamp (snd (effectiveNowLocked tm c)) in
  let expires := jwtTimestamp (Add now (refreshExpiry tm)) in
  exists sessionID record, drawn (OpGenerate user c draws) tm = Some sessionID /\ After expires now = true /\
  sessionRegistry tm' !! sessionID = Some record /\ rec_UserID record = ID user /\ rec_ExpiresAt record = expires /\
  signTokenPair user sessionID expires 0 sessionID now (accessExpiry tm) (issuer tm) (secretKey tm) = Some pair.

Lemma persisted_value {A} tm1 tm0 (a : A) random (Q : TokenManager -> A -> Prop) : Q tm1 a ->
  returns (persisted tm1 tm0 a random) (fun out => match snd out with Done x | Warned x => Q (fst out) x | Failed _ => True end).
Proof. intros H. eapply returns_bind; [apply returns_any|]. intros r _. apply returns_ret. by destruct r. Qed.

Lemma generate_logged_in tm user c draws random :
  returns (GenerateTokenPair tm user c draws random) (fun out => match snd out with Done p | Warned p => logged_in tm user c draws (fst out) p | Failed _ => True end).
Proof.
  unfold GenerateTokenPair. destruct (validateTokenUser user) eqn:Eu; cbn [negb]; [|by apply returns_ret].
  destruct (effective_clock tm c) as (high & He & _). rewrite He. cbn [cleanupExpiredSessionsLocked].
  destruct (_ || _); [by apply returns_ret|]. destruct (generateUniqueSessionIDLocked _ draws) as [sessionID|] eqn:Eid; [|by apply returns_ret].
  destruct (After _ _) eqn:Ea; cbn [negb]; [|by apply returns_ret]. destruct (signTokenPair _ _ _ _ _ _ _ _ _) as [pair|] eqn:Es; [|by apply returns_ret].
  apply persisted_value. split; [done|]. rewrite He. cbv zeta. cbn [snd].
  match goal with |- context [extendRestartTimeLeaseLocked ?t ?n] => destruct (extend_floor t n) as (floor & -> & _) end.
  eexists sessionID, _. split_and!; [| |by cbn; rewrite lookup_insert_eq|done|done|done].
  - unfold drawn. rewrite He. exact Eid.
  - exact Ea.
Qed.

(** The instants of a login can be written in claims. *)
Lemma login_range tm c : readings_ok c -> time_ok tm -> wall (snd (effectiveNowLocked tm c)) <= maxInt64 ->
  let now := jwtTimestamp (snd (effectiveNowLocked tm c)) in
  wire_range (wall now) /\
  (0 <= accessExpiry tm <= maxInt64 -> wire_range (wall (Add now (accessExpiry tm)))) /\
  (refreshExpiry tm <= maxInt64 -> After (jwtTimestamp (Add now (refreshExpiry tm))) now = true -> wire_range (wall (jwtTimestamp (Add now (refreshExpiry tm))))).
Proof.
  intros Hc Ht. destruct (effective_clock tm c) as (high & -> & Hera). specialize (Hera Hc Ht). cbn [snd]. cbv zeta. intros Hmax.
  pose proof (Truncate_le (UTC high)) as Hn. fold (jwtTimestamp high) in Hn. cbn [UTC at_wall wall] in Hn. set (now := jwtTimestamp high) in *.
  unfold wire_range, era, second, second_ns, maxInt64 in *. split; [lia|]. split; [unfold Add; cbn [wall]; lia|]. intros Hr Ha.
  pose proof (Truncate_le (UTC (Add now (refreshExpiry tm)))) as Hx. fold (jwtTimestamp (Add now (refreshExpiry tm))) in Hx. cbn [UTC at_wall wall Add] in Hx.
  unfold After, on_clocks in Ha. cbn [mono jwtTimestamp Truncate at_wall] in Ha. apply Z.ltb_lt in Ha. fold (jwtTimestamp (Add now (refreshExpiry tm))) in Ha. 
  set (expires := jwtTimestamp _) in *. cbn [Add wall] in *. unfold second_ns in *. lia.
Qed.
End Issue.
End TokenIssue.
