(* ===== verification/TokenInstances.v ===== *)
(** * Instances of what the token manager relies on

    A codec of session files and a signature that can be run: they show that the laws of [SessionCodec] and
    [Jwt] can hold, and the examples of TokenProps are evaluated with them.  They are neither JSON nor HS256: a
    text is the binary code of the sessions, a token that of the key and the claims. *)

From Stdlib Require Import Ascii.
From stdpp Require Import countable.
From S2P Require Import Prelude GoStrings GoPath GoFormat GoTime MonoTime Users UserQuotaHistory AuthFiles UsersFile TokenTypes.
Import UserQuotaHistory MonoTime UsersFile TokenTypes.

Module TokenInstances.

#[export] Instance registered_countable : Countable RegisteredClaims.
Proof.
  refine (inj_countable' (fun c => ((Issuer c, Subject c, ClaimExpiresAt c), (IssuedAt c, NotBefore c, ClaimID c)))
    (fun '((a, b, c), (d, e, f)) => {| Issuer := a; Subject := b; ClaimExpiresAt := c; IssuedAt := d; NotBefore := e; ClaimID := f |}) _).
  by intros [].
Defined.
#[export] Instance access_countable : Countable TokenClaims.
Proof.
  refine (inj_countable' (fun c => ((ac_Registered c, ac_UserID c, ac_Username c), (ac_Role c, ac_SessionID c, ac_SessionExpiresAt c, ac_CredentialVersion c)))
    (fun '((a, b, c), (d, e, f, g)) => {| ac_Registered := a; ac_UserID := b; ac_Username := c; ac_Role := d; ac_SessionID := e;
       ac_SessionExpiresAt := f; ac_CredentialVersion := g |}) _).
  by intros [].
Defined.
#[export] Instance refresh_countable : Countable refreshTokenClaims.
Proof.
  refine (inj_countable' (fun c => (rc_Registered c, rc_CredentialVersion c, rc_SessionID c, rc_Generation c))
    (fun '(a, b, c, d) => {| rc_Registered := a; rc_CredentialVersion := b; rc_SessionID := c; rc_Generation := d |}) _).
  by intros [].
Defined.

(** A code as digits of six bits, the last one first. *)
Definition bit_first (b : bool) (n : N) : N := if b then N.succ_double n else N.double n.
Lemma bit_first_odd n : bit_first (N.odd n) (N.div2 n) = n.
Proof. by destruct n as [|[]]. Qed.
Definition six (n : N) : N := N.div2 (N.div2 (N.div2 (N.div2 (N.div2 (N.div2 n))))).
Lemma six_bound n m : (n < 64 * m)%N -> (six n < m)%N.
Proof. unfold six. intros H. rewrite !N.div2_div. zify. Z.div_mod_to_equations. lia. Qed.
Fixpoint digits (fuel : nat) (n : N) : string :=
  match fuel, n with
  | O, _ | _, N0 => EmptyString
  | S fuel, n =>
    let n1 := N.div2 n in let n2 := N.div2 n1 in let n3 := N.div2 n2 in let n4 := N.div2 n3 in let n5 := N.div2 n4 in
    String (Ascii (N.odd n) (N.odd n1) (N.odd n2) (N.odd n3) (N.odd n4) (N.odd n5) true false) (digits fuel (N.div2 n5))
  end.
Fixpoint of_digits (s : string) : N :=
  match s with
  | EmptyString => 0%N
  | String (Ascii b0 b1 b2 b3 b4 b5 _ _) s => bit_first b0 (bit_first b1 (bit_first b2 (bit_first b3 (bit_first b4 (bit_first b5 (of_digits s))))))
  end.
Lemma of_digits_digits fuel : forall n, (n < 64 ^ N.of_nat fuel)%N -> of_digits (digits fuel n) = n.
Proof.
  induction fuel as [|fuel IH]; intros n Hn; [change (64 ^ N.of_nat 0)%N with 1%N in Hn; cbn; lia|]. destruct n as [|p]; [done|]. set (n := Npos p) in *.
  change (digits (S fuel) n) with (String (Ascii (N.odd n) (N.odd (N.div2 n)) (N.odd (N.div2 (N.div2 n))) (N.odd (N.div2 (N.div2 (N.div2 n))))
    (N.odd (N.div2 (N.div2 (N.div2 (N.div2 n))))) (N.odd (N.div2 (N.div2 (N.div2 (N.div2 (N.div2 n)))))) true false) (digits fuel (six n))).
  cbn [of_digits]. rewrite IH; [unfold six; by rewrite !bit_first_odd|]. apply six_bound. by rewrite Nat2N.inj_succ, N.pow_succ_r' in Hn.
Qed.
Definition text_of {A} `{Countable A} (a : A) : string := digits (Pos.size_nat (encode a)) (Npos (encode a)).
Definition of_text {A} `{Countable A} (s : string) : option A := match of_digits s with Npos p => decode p | N0 => None end.
Lemma of_text_of {A} `{Countable A} (a : A) : of_text (text_of a) = Some a.
Proof.
  unfold of_text, text_of. rewrite of_digits_digits; [by rewrite decode_encode|].
  assert (Hs : forall p : positive, (Npos p < 64 ^ N.of_nat (Pos.size_nat p))%N).
  { induction p as [p IH|p IH|]; cbn [Pos.size_nat]; [rewrite Nat2N.inj_succ, N.pow_succ_r'; lia..|done]. }
  apply Hs.
Qed.

Definition open_token {C} `{Countable C} (registered : C -> RegisteredClaims) (key issuer : string) (leeway now : Z) (token : string) : result jwtError C :=
  match of_text (A := string * C) token with
  | Some (key', c) =>
    if String.eqb key' key then match jwt_accepts issuer leeway now (registered c) with None => Ok c | Some e => Err e end else Err JwtOther
  | None => Err JwtOther
  end.

#[export] Instance bit_jwt : Jwt.
Proof.
  refine {| SignAccess := fun key c => Some (text_of (key, c)); SignRefresh := fun key c => Some (text_of (key, c));
            ParseAccess := open_token ac_Registered; ParseRefresh := open_token rc_Registered |}.
  - intros key c token issuer leeway now [= <-] _. unfold open_token. by rewrite of_text_of, String.eqb_refl.
  - intros key c token issuer leeway now [= <-] _. unfold open_token. by rewrite of_text_of, String.eqb_refl.
Defined.

(** A session in a file, and the file. *)
Notation row := (string * Z * Z * Z)%type.
Definition row_of (r : sessionRegistryRecord) : row :=
  (rec_UserID r, wall (rec_ExpiresAt r), rec_NextRefreshGeneration r, wall (rec_LastRotatedAt r)).
Definition encoded_row (x : row) : encodedSessionRegistryRecord :=
  let '(userID, expires, generation, last) := x in
  {| enc_UserID := Some userID; enc_ExpiresAt := Some expires; enc_NextRefreshGeneration := Some generation; enc_LastRotatedAt := Some last |}.
Definition good_row (id : string) (x : row) : bool :=
  let '(userID, _, generation, _) := x in ValidString id && ValidString userID && is_uint64 generation.

Notation document := (Z * Z * gmap string row)%type.
Definition document_of (s : tokenSessionState) : document := (st_SchemaVersion s, wall (st_RestartTimeFloor s), row_of <$> st_Sessions s).
Definition read_document (text : string) : option encodedTokenSessionState :=
  match decode (A := document) (of_bits text) with
  | Some (version, floor, rows) =>
    if forallb (fun '(id, x) => good_row id x) (map_to_list rows)
    then Some {| enc_SchemaVersion := Some version; enc_RestartTimeFloor := Some floor; enc_Sessions := Some (encoded_row <$> rows) |}
    else None
  | None => None
  end.

#[export] Instance bit_sessions : SessionCodec.
Proof.
  refine {| parse_session := fun text => match text with String _ text => Some (JOther text) | EmptyString => None end;
            decode_session := fun j => match j with JOther text => read_document text | _ => None end;
            MarshalSession := fun s => Some (String "s" (bits (encode (document_of s)))) |}.
  - done.
  - intros s text [= <-] Hs. eexists. split; [reflexivity|]. split; [done|]. unfold read_document. rewrite of_bits_bits, decode_encode. cbn [document_of].
    assert (forallb (fun '(id, x) => good_row id x) (map_to_list (row_of <$> st_Sessions s)) = true) as ->.
    { apply List.forallb_forall. intros [id x] Hin%list_elem_of_In%elem_of_map_to_list. apply lookup_fmap_Some in Hin as (r & <- & Hr).
      destruct (Hs id r Hr) as [Hi Hst]. unfold storable_record in Hst. apply andb_true_iff in Hst as [Hu Hg]. cbn. by rewrite Hi, Hu, Hg. }
    unfold encode_state. do 3 f_equal. rewrite <-map_fmap_compose. done.
  - intros j s sessions id r Hj Hs Hr. destruct j as [| |text| |]; try done. unfold read_document in Hj.
    destruct (decode (of_bits text)) as [[[version floor] rows]|]; [|done]. destruct (forallb _ _) eqn:Ef; [|done]. injection Hj as <-. injection Hs as <-.
    apply lookup_fmap_Some in Hr as ([[[userID expires] generation] last] & <- & Hr). rewrite List.forallb_forall in Ef.
    specialize (Ef (id, (userID, expires, generation, last))). cbn in Ef. rewrite <-list_elem_of_In, elem_of_map_to_list in Ef. specialize (Ef Hr).
    apply andb_true_iff in Ef as [Ef Hg]. apply andb_true_iff in Ef as [Hi Hu]. split; [done|]. split; [by intros ? [= <-]|by intros ? [= <-]].
Defined.
End TokenInstances.
