(* ===== verification/TokenProps.v ===== *)
(** * Tokens and login sessions: properties *)

From Stdlib Require Import Ascii.
From S2P Require Import Prelude GoStrings GoPath GoFormat GoTime MonoTime Sha256 Users FileMonad UserFields AuthFiles UsersFile TokenTypes Tokens TokenOps TokenSpec TokenAtomic TokenStart TokenSystem TokenTime TokenIssue TokenInstances.
Import MonoTime Sha256 AuthFiles UsersFile TokenTypes Tokens TokenOps TokenSpec TokenAtomic TokenStart TokenSystem TokenTime TokenIssue.

Module TokenProps.
Section Props.
Context {case_tables : Unicode} {codec : SessionCodec} {jwt : Jwt}.

(** C4: Every call that changes the sessions is atomic, whatever file operations fail (any number of them, writes
    after a part of their bytes) and wherever the machine crashes or the process is killed: when the call
    returns, the file holds exactly the sessions in memory, which are as the call promises, or as they were if
    it reports an error; when it does not return, the file holds the sessions before the call or those after
    it. *)
Theorem token_store_atomic o tm m d script random :
  tm_ok tm -> files m d -> saved tm m -> arguments_ok o ->
  match run o tm random {| io_dir := d; io_script := script |} with
  | (w, Some (tm', r)) =>
    (exists m', files m' (io_dir w) /\ saved tm' m') /\ tm_ok tm' /\
    match r with
    | Failed _ => sessionRegistry tm' = sessionRegistry tm
    | Done _ | Warned _ => effect o tm (sessionRegistry tm) (sessionRegistry tm')
    end
  | (w, None) =>
    exists m', files m' (io_dir w) /\
      (m' = m \/ exists floor reg, holds floor reg m' /\ effect o tm (sessionRegistry tm) reg)
  end.
Proof.
  intros Hok Hd Hs Ha. pose proof (call_atomic tm m Hok Hs o random Ha {| io_dir := d; io_script := script |} Hd) as H.
  destruct (run o tm random _) as [w [[tm' r]|]].
  - destruct H as (Hok' & _ & _ & m' & Hm' & Hs' & _ & Hr). split; [by exists m'|]. split; [done|]. by destruct r.
  - destruct H as (m' & Hm' & _ & H). exists m'. split; [done|]. destruct H as [H|(floor & reg & _ & _ & Hh & He)]; [by left|right; by exists floor, reg].
Qed.

(** Any history: the clocks may do what they like. *)
Notation any_step := (step (fun _ _ => True) (fun _ _ => True)).

Lemma config_after c tm o random script w tm' r : config_ok c -> process c = Some tm -> arguments_ok o ->
  (forall id, drawn o tm = Some id -> id ∉ used c) ->
  run o tm random {| io_dir := disk c; io_script := script |} = (w, Some (tm', r)) ->
  config_ok {| used := add_used (drawn o tm) (used c); process := Some tm'; disk := io_dir w |}.
Proof.
  intros Hok Hp Ha Hf Hrun. destruct c as [U p d]. cbn in *. subst p.
  by eapply (step_aged (fun _ _ => True) (fun _ _ => True)); [|eapply step_call].
Qed.

Lemma run_effect c tm o random script w tm' (warned : bool) : config_ok c -> process c = Some tm -> arguments_ok o ->
  run o tm random {| io_dir := disk c; io_script := script |} = (w, Some (tm', if warned then Warned tt else Done tt)) ->
  effect o tm (sessionRegistry tm) (sessionRegistry tm').
Proof.
  intros (m & Hm & _ & Hproc) Hp Ha Hrun. rewrite Hp in Hproc. destruct Hproc as (Htm & _ & Hs & _).
  pose proof (call_atomic tm m Htm Hs o random Ha {| io_dir := disk c; io_script := script |} Hm) as H. rewrite Hrun in H.
  destruct H as (_ & _ & _ & m' & _ & _ & _ & H). by destruct warned.
Qed.

(** C5: A refresh token is used at most once: after it was exchanged, it and every earlier refresh token of its
    session are refused for good, by that process and every later one, whatever fails or crashes in between. *)
Theorem refresh_once c c' tm tm' claims claims' clk random script w tm1 warned :
  config_ok c -> process c = Some tm -> 0 <= rc_Generation claims <= maxUint64 -> readings_ok clk ->
  consumeRefreshTokenClaims tm claims clk random {| io_dir := disk c; io_script := script |} =
    (w, Some (tm1, if warned : bool then Warned tt else Done tt)) ->
  rtc any_step {| used := used c; process := Some tm1; disk := io_dir w |} c' -> process c' = Some tm' ->
  rc_SessionID claims' = rc_SessionID claims -> rc_Generation claims' <= rc_Generation claims ->
  (forall now, exists e, validateRefreshTokenClaimsLocked tm' claims' now = Some e) /\
  (forall clk' random' io' w' tm2 r, consumeRefreshTokenClaims tm' claims' clk' random' io' = (w', Some (tm2, r)) -> exists e, r = Failed e).
Proof.
  intros Hok Hp Hg Hc Hrun Hsteps Hp' Hid Hgen. set (o := OpConsume claims clk).
  pose proof (config_after c tm o random script w tm1 _ Hok Hp (conj Hg Hc) ltac:(done) Hrun) as Hok1. cbn [drawn o add_used] in Hok1.
  destruct (running_aged _ _ _ _ _ _ Hok1 Hsteps eq_refl Hp') as (_ & Haged & _). cbn [used] in Haged.
  pose proof (run_effect c tm o random script w tm1 warned Hok Hp (conj Hg Hc) Hrun) as Heff.
  destruct Heff as (previous & record & Hprev & _ & _ & _ & _ & _ & _ & Hnext & Hreg).
  assert (Hused : rc_SessionID claims ∈ used c).
  { destruct (running_table _ _ Hok Hp) as [_ Hd]. apply Hd. by apply elem_of_dom. }
  assert (Hno : forall r, sessionRegistry tm' !! rc_SessionID claims' = Some r -> rc_Generation claims' < rec_NextRefreshGeneration r).
  { intros r Hr. rewrite Hid in Hr. destruct (Haged _ r Hused Hr) as (r0 & Hr0 & _ & _ & Hle).
    rewrite Hreg, lookup_insert_eq in Hr0. injection Hr0 as <-. lia. }
  assert (Hval : forall now, exists e, validateRefreshTokenClaimsLocked tm' claims' now = Some e).
  { intros now. destruct (validateRefreshTokenClaimsLocked tm' claims' now) as [e|] eqn:E; [by exists e|]. exfalso.
    destruct (refresh_checked _ _ _ E) as (r & Hr & _ & _ & _ & Heq). specialize (Hno r Hr). lia. }
  split; [done|]. intros clk' random' io' w' tm2 r Hcons. unfold consumeRefreshTokenClaims in Hcons.
  destruct (ClaimExpiresAt _); [|by injection Hcons as <- <- <-; eexists]. destruct (_ || _ || _ || _); [by injection Hcons as <- <- <-; eexists|].
  destruct (effective_clock tm' clk') as (high & He & _). rewrite He in Hcons. destruct (negb _); [by injection Hcons as <- <- <-; eexists|].
  destruct (Hval high) as [e Hv]. change (validateRefreshTokenClaimsLocked (with_clock tm' high (clock_observed clk')) claims' high) with (validateRefreshTokenClaimsLocked tm' claims' high) in Hcons.
  rewrite Hv in Hcons. injection Hcons as <- <- <-. by eexists.
Qed.

(** The sessions that a call revokes. *)
Definition revokes (o : op) (userID sessionID : string) : Prop :=
  match o with
  | OpRevokeByUser u _ => u = userID
  | OpRevokeSessions sessions _ => is_Some (sessions !! sessionID)
  | _ => False
  end.

(** C12: Revocation is for good: when the sessions of a user, or some sessions, were revoked, no token that was
    issued for them before is accepted again, access or refresh token, by that process or any later one,
    whatever fails or crashes in between. *)
Theorem revoked_for_good c c' tm tm' o random script w tm1 warned userID sessionID :
  config_ok c -> process c = Some tm -> arguments_ok o -> revokes o userID sessionID -> sessionID ∈ used c ->
  run o tm random {| io_dir := disk c; io_script := script |} = (w, Some (tm1, if warned : bool then Warned tt else Done tt)) ->
  rtc any_step {| used := used c; process := Some tm1; disk := io_dir w |} c' -> process c' = Some tm' ->
  (forall claims now, ac_SessionID claims = sessionID -> ac_UserID claims = userID -> exists e, access_session tm' now claims = Err e) /\
  (forall claims now, rc_SessionID claims = sessionID -> Subject (rc_Registered claims) = userID ->
     exists e, validateRefreshTokenClaimsLocked tm' claims now = Some e).
Proof.
  intros Hok Hp Ha Hrev Hused Hrun Hsteps Hp'. assert (Hdr : drawn o tm = None) by (by destruct o).
  pose proof (config_after c tm o random script w tm1 _ Hok Hp Ha ltac:(by rewrite Hdr) Hrun) as Hok1. rewrite Hdr in Hok1. cbn [add_used] in Hok1.
  destruct (running_aged _ _ _ _ _ _ Hok1 Hsteps eq_refl Hp') as (_ & Haged & _). cbn [used] in Haged.
  pose proof (run_effect c tm o random script w tm1 warned Hok Hp Ha Hrun) as Heff.
  assert (Hgone : forall r, sessionRegistry tm' !! sessionID = Some r -> rec_UserID r <> userID).
  { intros r Hr He. destruct (Haged _ r Hused Hr) as (r0 & Hr0 & Hu & _). rewrite He in Hu.
    destruct o as [c0|user c0 draws|claims c0|sessions c0|u c0|c0|access refresh]; try done; cbn [effect revokes] in *.
    - destruct Heff as [[-> _]|Hreg]; [by rewrite lookup_empty in Hrev; destruct Hrev|]. rewrite Hreg in Hr0.
      apply map_lookup_filter_Some in Hr0 as [_ Hn]. cbn in Hn. rewrite Hn in Hrev. by destruct Hrev.
    - rewrite Heff in Hr0. apply map_lookup_filter_Some in Hr0 as [_ Hn]. cbn in Hn. congruence. }
  split; intros claims now Hid Hu.
  - unfold access_session. rewrite Hid. destruct (sessionRegistry tm' !! sessionID) as [r|] eqn:Er; [|by eexists].
    destruct (String.eqb_spec (rec_UserID r) (ac_UserID claims)) as [E|]; [|by eexists]. exfalso. apply (Hgone r eq_refl). congruence.
  - unfold validateRefreshTokenClaimsLocked. rewrite Hid. destruct (sessionRegistry tm' !! sessionID) as [r|] eqn:Er; [|by eexists].
    destruct (String.eqb_spec (rec_UserID r) (Subject (rc_Registered claims))) as [E|]; [|by eexists]. exfalso. apply (Hgone r eq_refl). congruence.
Qed.

(** C14: The time of the server does not go back: when a validation was given the instant [now], every call that
    any process makes later works with an instant that is not before it, although the machine may have crashed
    and come back with any other time; provided the wall clock is not set while a process runs. *)
Theorem time_never_goes_back U tm d clk random script w tm1 now c' tm' clk' k :
  config_ok {| used := U; process := Some tm; disk := d |} -> readings_ok clk -> calls_agree tm (OpPrepare clk) ->
  prepareValidationTime tm clk random {| io_dir := d; io_script := script |} = (w, Some (tm1, Ok now)) ->
  rtc (step calls_agree start_agrees) {| used := U; process := Some tm1; disk := io_dir w |} c' -> process c' = Some tm' ->
  readings_ok clk' -> clocks_agree k tm' (OpCleanup clk') ->
  wall now <= wall (snd (effectiveNowLocked tm' clk')).
Proof.
  intros Hok Hc Hagree Hrun Hsteps Hp' Hc' (H1 & H2 & _ & H4). destruct (H4 clk' eq_refl) as [H5 H6].
  pose proof (prepare_passed U tm d clk random script w tm1 now Hok Hc Hagree Hrun) as Hpassed.
  destruct (steps_passed _ _ _ Hpassed Hsteps) as (_ & _ & Hle). rewrite Hp' in Hle.
  destruct (effective_agrees k tm' clk' H1 H2 H5 H6) as (_ & Hw & _). specialize (Hw Hc'). lia.
Qed.

(** Readings of the two clocks: [tm.now()] says [w] and [x], and then [tm.monotonicNow()] says [v] and [y]. *)
Definition reading (w x v y : Z) : clock := {| clock_now := {| wall := w; mono := Some x |}; clock_observed := {| wall := v; mono := Some y |} |}.

(** The manager after calls at these readings, one after the other. *)
Definition after_readings (tm : TokenManager) (cs : list clock) : TokenManager := fold_left (fun tm c => fst (effectiveNowLocked tm c)) cs tm.

(** Readings after [y0], by a monotonic clock that runs, with at least [lag] between the two of a call, while
    [wall_at] is a time that can carry a monotonic reading; and the last of them. *)
Fixpoint lagging (lag y0 : Z) (wall_at : Z -> Z) (l : list (Z * Z * Z * Z)) : Prop :=
  match l with
  | [] => True
  | (w, x, v, y) :: l =>
    v <> zero_instant /\ lag <= y - x /\ y0 <= y <= maxInt64 /\ y - y0 <= maxInt64 /\ keeps_mono (wall_at y) = true /\ wall_at y <> zero_instant /\ lagging lag y wall_at l
  end.
Definition last_reading (y0 : Z) (l : list (Z * Z * Z * Z)) : Z := default y0 (last ((fun '(_, _, _, y) => y) <$> l)).

(** One call, when the time of the manager carries a reading of the monotonic clock: the wall clock is looked at
    only when the two readings of the call are closer together than [lag]. *)
Lemma effective_mono tm h m o lag w x v y :
  timeHighWater tm = {| wall := h; mono := Some m |} -> timeHighWaterObservedAt tm = {| wall := o; mono := Some (m + lag) |} ->
  h <> zero_instant -> o <> zero_instant -> 0 <= lag -> minInt64 <= m -> m + lag <= y <= maxInt64 -> y - (m + lag) <= maxInt64 -> keeps_mono (h + (y - (m + lag))) = true ->
  effectiveNowLocked tm (reading w x v y) =
  (let high := if y - x <? lag then {| wall := w; mono := Some x |} else {| wall := h + (y - (m + lag)); mono := Some (y - lag) |} in
   (with_clock tm high {| wall := v; mono := Some y |}, high)).
Proof.
  intros Eh Eo Hh Ho Hlag Hm Hy Hd Hk. unfold effectiveNowLocked, reading. cbn [clock_now clock_observed]. rewrite Eh, Eo. unfold IsZero. cbn [wall].
  destruct (Z.eqb_spec h zero_instant); [done|]. destruct (Z.eqb_spec o zero_instant); [done|]. cbn [negb andb].
  set (high := if After {| wall := v; mono := Some y |} _ then _ else _).
  assert (E : high = {| wall := h + (y - (m + lag)); mono := Some (y - lag) |}).
  { unfold high. destruct (After _ _) eqn:Ea; unfold After, on_clocks in Ea; cbn [mono] in Ea; b2p; cycle 1.
    { replace (h + (y - (m + lag))) with h by lia. by replace (y - lag) with m by lia. }
    unfold Sub, on_clocks. cbn [mono]. replace (Z.max minInt64 (Z.min maxInt64 (y - (m + lag)))) with (y - (m + lag)) by (unfold minInt64, maxInt64 in *; lia).
    unfold Add. cbn [mono wall]. rewrite Hk, (proj2 (Z.leb_le minInt64 _)), (proj2 (Z.leb_le _ maxInt64)) by lia. cbn [andb]. f_equal. f_equal. lia. }
  rewrite E. unfold After, on_clocks. cbn [mono]. replace (y - lag <? x) with (y - x <? lag); [done|]. apply eq_true_iff_eq. rewrite !Z.ltb_lt. lia.
Qed.

Lemma readings_mono h m lag : 0 <= lag -> minInt64 <= m -> forall l h1 m1 o1 tm1,
  timeHighWater tm1 = {| wall := h1; mono := Some m1 |} -> timeHighWaterObservedAt tm1 = {| wall := o1; mono := Some (m1 + lag) |} ->
  h1 <> zero_instant -> o1 <> zero_instant -> m <= m1 -> h1 - m1 = h - m -> lagging lag (m1 + lag) (fun y => h + (y - (m + lag))) l ->
  timeHighWater (after_readings tm1 ((fun '(w, x, v, y) => reading w x v y) <$> l)) =
  {| wall := h + (last_reading (m1 + lag) l - (m + lag)); mono := Some (last_reading (m1 + lag) l - lag) |}.
Proof.
  intros Hlag Hm. induction l as [|[[[w x] v] y] l IH]; intros h1 m1 o1 tm1 Eh Eo Hh1 Ho1 Hle Hoff Hl; cbn [fmap list_fmap after_readings fold_left].
  { rewrite Eh. unfold last_reading. cbn. f_equal; [lia|f_equal; lia]. }
  destruct Hl as (Hv & Hgap & Hy & Hd & Hk & Hz & Hl). assert (Ew : h1 + (y - (m1 + lag)) = h + (y - (m + lag))) by lia.
  rewrite (effective_mono tm1 h1 m1 o1 lag) by (try done; try lia; by rewrite Ew). rewrite (proj2 (Z.ltb_ge _ _)) by lia. cbn [fst]. cbv zeta. rewrite Ew.
  assert (El : last_reading (m1 + lag) ((w, x, v, y) :: l) = last_reading y l).
  { unfold last_reading. cbn [fmap list_fmap]. rewrite last_cons. by destruct (last _). }
  rewrite El. pose proof (IH (h + (y - (m + lag))) (y - lag) v (with_clock tm1 {| wall := h + (y - (m + lag)); mono := Some (y - lag) |} {| wall := v; mono := Some y |})) as H.
  replace (y - lag + lag) with y in H by lia. apply H; try done; lia.
Qed.

(** C38: While the time of the manager carries a reading of the monotonic clock, a wall clock that is set is not
    noticed.  Let [lag] be the time between the two readings of the clocks behind the present time.  However
    many calls follow, whatever the wall clock says in each, as long as the two readings of none of them are
    closer together than [lag] the time is what the monotonic clock has counted on top of the time before, and
    sessions expire by it; the wall clock is adopted only by a call whose readings are closer together.  Only a
    time without a monotonic reading, which is the floor of a file that lies ahead when the server is started,
    is compared with the wall clock.  (A code defect: [effectiveNowLocked] is to take the wall clock when it is
    ahead, but it compares two instants that both carry readings of the monotonic clock.) *)
Theorem wall_clock_not_noticed tm h m o lag :
  timeHighWater tm = {| wall := h; mono := Some m |} -> timeHighWaterObservedAt tm = {| wall := o; mono := Some (m + lag) |} ->
  h <> zero_instant -> o <> zero_instant -> 0 <= lag -> minInt64 <= m ->
  (forall l, lagging lag (m + lag) (fun y => h + (y - (m + lag))) l ->
     let now := timeHighWater (after_readings tm ((fun '(w, x, v, y) => reading w x v y) <$> l)) in
     wall now = h + (last_reading (m + lag) l - (m + lag)) /\
     forall r, mono (rec_ExpiresAt r) = None -> active now r = (h + (last_reading (m + lag) l - (m + lag)) <? wall (rec_ExpiresAt r))) /\
  (forall w x v y, m + lag <= y <= maxInt64 -> y - (m + lag) <= maxInt64 -> keeps_mono (h + (y - (m + lag))) = true -> y - x < lag ->
     snd (effectiveNowLocked tm (reading w x v y)) = {| wall := w; mono := Some x |}) /\
  (forall tm' w x v y, mono (timeHighWater tm') = None -> timeHighWater tm' <> zero_time ->
     wall (snd (effectiveNowLocked tm' (reading w x v y))) =
     Z.max w (wall (timeHighWater tm') + (if negb (IsZero (timeHighWaterObservedAt tm')) && After {| wall := v; mono := Some y |} (timeHighWaterObservedAt tm')
                                          then Sub {| wall := v; mono := Some y |} (timeHighWaterObservedAt tm') else 0))).
Proof.
  intros Eh Eo Hh Ho Hlag Hm. split; [|split].
  - intros l Hl now. assert (E : now = {| wall := h + (last_reading (m + lag) l - (m + lag)); mono := Some (last_reading (m + lag) l - lag) |}).
    { unfold now. by apply (readings_mono h m lag Hlag Hm l h m o tm). }
    rewrite E. split; [done|]. intros r Hr. unfold active, After, on_clocks. by rewrite Hr.
  - intros w x v y Hy Hd Hk Hgap. rewrite (effective_mono tm h m o lag) by done. cbn [snd]. by rewrite (proj2 (Z.ltb_lt _ _)).
  - intros tm' w x v y Hn Hz. unfold effectiveNowLocked, reading. cbn [clock_now clock_observed snd].
    destruct (timeHighWater tm') as [h' m'] eqn:Eh'. cbn [mono] in Hn. subst m'.
    assert (IsZero {| wall := h'; mono := None |} = false) as -> by (unfold IsZero; cbn [wall]; destruct (Z.eqb_spec h' zero_instant) as [->|]; done). set (ahead := _ && _).
    assert (E : forall d, (if After {| wall := w; mono := Some x |} {| wall := h' + d; mono := None |} then {| wall := w; mono := Some x |} else {| wall := h' + d; mono := None |}).(wall) = Z.max w (h' + d)).
    { intros d. unfold After, on_clocks. cbn [mono wall]. destruct (Z.ltb_spec (h' + d) w); cbn [wall]; lia. }
    destruct ahead; [unfold Add; cbn [mono wall]; apply E|specialize (E 0); by rewrite !Z.add_0_r in E |- *].
Qed.

(** C24: In every state that a server can reach from whatever its directory held, the file holds exactly the
    sessions in memory, every session is one that the file may hold (so that it can be read again), there are at
    most 4096, and at most 64 of one user. *)
Theorem sessions_invariant U m d c tm : files m d -> dom (sessions_on m) ⊆ U ->
  rtc any_step {| used := U; process := None; disk := d |} c -> process c = Some tm ->
  (exists m', files m' (disk c) /\ holds (restartTimeFloor tm) (sessionRegistry tm) m') /\
  map_Forall (fun id r => validatePersistedSessionRecord id r = true) (sessionRegistry tm) /\
  Z.of_nat (size (sessionRegistry tm)) <= 4096 /\
  forall userID, Z.of_nat (size (filter (fun '(_, r) => rec_UserID r = userID) (sessionRegistry tm))) <= 64.
Proof.
  intros Hm Hd Hsteps Hp. assert (Hok : config_ok {| used := U; process := None; disk := d |}) by (by exists m).
  destruct (steps_aged _ _ _ _ Hok Hsteps) as ((m' & Hm' & _ & Hproc) & _). rewrite Hp in Hproc.
  destruct Hproc as ((Hreg & [Hn Hu] & _) & Hpers & Hs & Hl1 & Hl2). rewrite Hl1 in Hn. split; [exists m'; split; [done|by apply Hs]|]. split; [|split; [done|]].
  - intros id r Hr. by destruct (Hreg id r Hr).
  - intros userID. specialize (Hu userID). by rewrite Hl2 in Hu.
Qed.

(** ** Starting again, when no file operation fails *)

Lemma bind_reliable {A B} (ok : dir -> dir * result FileError A) partial (k : result FileError A -> prog B) d :
  bind (FileMonad.effect ok partial) k {| io_dir := d; io_script := [] |} = k (snd (ok d)) {| io_dir := fst (ok d); io_script := [] |}.
Proof. unfold bind, FileMonad.effect. cbn [io_script io_dir]. by destruct (ok d). Qed.

Lemma validate_reliable m d : files m d ->
  validateAuthFilePath sessionsFile {| io_dir := d; io_script := [] |} = ({| io_dir := d; io_script := [] |}, Some (Ok tt)).
Proof.
  intros Hd. unfold validateAuthFilePath, stat. rewrite bind_reliable. unfold stat_ok. specialize (Hd _ stored_sessions). unfold file_is in Hd. cbn [fst snd].
  destruct (m !! sessionsFile) as [b|]; [|by rewrite Hd]. destruct Hd as (f & -> & _ & _ & Hk). unfold dir_or_link. by rewrite Hk.
Qed.

Lemma write_succeeds m d data random suffix tmpName : files m d -> random O = Some suffix ->
  newAuthTempName ".auth-sessions-*.tmp" (Some suffix) = Ok tmpName -> d !! tmpName = None ->
  exists d', writeAuthFileAtomicallyWithRoot sessionsFile data ".auth-sessions-*.tmp" random {| io_dir := d; io_script := [] |} =
    ({| io_dir := d'; io_script := [] |}, Some Written).
Proof.
  intros Hd Hr Hname Hfree. unfold writeAuthFileAtomicallyWithRoot. unfold bind at 1.
  rewrite (validate_reliable m) by done.
  assert (Hcreate : createAuthTempFile ".auth-sessions-*.tmp" random {| io_dir := d; io_script := [] |} =
    ({| io_dir := <[tmpName := {| f_bytes := EmptyString; f_synced := 0; f_identity := EmptyString; f_kind := Regular0600 |}]> d; io_script := [] |}, Some (Ok tmpName))).
  { unfold createAuthTempFile. cbn [tryTempNames]. rewrite Hr, Hname. unfold create. rewrite bind_reliable. unfold create_ok. by rewrite Hfree. }
  unfold bind at 1. rewrite Hcreate. unfold touch, write_at, sync, rename, sync_dir. rewrite bind_reliable. cbn [fst snd].
  rewrite bind_reliable. unfold write_ok, put_bytes. rewrite lookup_insert_eq. cbn [fst snd].
  rewrite bind_reliable. unfold sync_ok. rewrite lookup_insert_eq. cbn [fst snd].
  rewrite bind_reliable. cbn [fst snd]. rewrite bind_reliable. unfold rename_ok. rewrite lookup_insert_eq. cbn [fst snd].
  rewrite bind_reliable. by eexists.
Qed.

Lemma load_reliable m d text : files m d -> m !! sessionsFile = Some text -> 0 < len text <= maxTokenSessionStateFileBytes ->
  loadTokenSessionState {| io_dir := d; io_script := [] |} =
    ({| io_dir := d; io_script := [] |}, Some (match decodeTokenSessionState text with Some state => Ok (state, true) | None => Err ErrTokenOther end)).
Proof.
  intros Hd Hm Hl. pose proof (Hd _ stored_sessions) as Hf. unfold file_is in Hf. rewrite Hm in Hf. destruct Hf as (f & Hf & Hb & _ & Hk).
  assert (Hread : open_and_read sessionsFile {| io_dir := d; io_script := [] |} = ({| io_dir := d; io_script := [] |}, Some (Ok (Some text)))).
  { unfold open_and_read, stat. rewrite bind_reliable. unfold stat_ok. cbn [fst snd]. rewrite Hf. unfold dir_or_link, f_regular. by rewrite Hk, Hb. }
  unfold loadTokenSessionState, readRegisteredAuthFileLimited, bind. rewrite (validate_reliable m), Hread by done. unfold ret.
  rewrite (proj2 (Z.ltb_ge _ _)), (proj2 (Z.eqb_neq _ _)) by lia. by destruct (decodeTokenSessionState text).
Qed.

Lemma within_plain tm now reg : refreshSessionLimit tm = maxTrackedRefreshSessions -> refreshUserSessionLimit tm = maxTrackedRefreshSessionsPerUser ->
  Z.of_nat (size reg) <= maxTrackedRefreshSessions /\ (forall u, Z.of_nat (size (sessions_of u reg)) <= maxTrackedRefreshSessionsPerUser) ->
  within tm (unexpired now (plain <$> reg)).
Proof.
  intros H1 H2 [Hn Hu]. pose proof (map_filter_subseteq (fun '(_, r) => active now r = true) (plain <$> reg)) as Hsub. fold (unexpired now (plain <$> reg)) in Hsub.
  unfold within. rewrite H1, H2. split.
  - pose proof (map_subseteq_size _ _ Hsub) as Hs. rewrite map_size_fmap in Hs. lia.
  - intros u. specialize (Hu u). unfold sessions_of in *. pose proof (map_subseteq_size _ _ (map_filter_subseteq_mono (fun '(_, r) => rec_UserID r = u) _ _ Hsub)) as Hs.
    rewrite map_filter_fmap, map_size_fmap in Hs. etrans; [|exact Hu]. apply Nat2Z.inj_le. exact Hs.
Qed.

(** The floor of a manager that has just been started lies ahead. *)
Lemma enabled_floor secret access refresh key filePath c1 c2 state m exists_ : filePath <> EmptyString -> readings_ok c1 -> readings_ok c2 -> loaded m state exists_ ->
  IsZero (restartTimeFloor (enabled (NewTokenManager secret access refresh key) filePath c1 c2 state)) = false.
Proof.
  intros Hpath Hc1 Hc2 Hl. destruct (enabled_ok _ filePath c1 c2 state m exists_ (new_manager_ok secret access refresh key) Hc1 Hc2 Hl) as (high & floor & He & Hera & _).
  unfold enabled. rewrite He. set (base := enable_base _ filePath c1 state) in *. unfold extendRestartTimeLeaseLocked. cbn [sessionStorePath with_registry with_clock].
  assert (String.eqb (sessionStorePath base) EmptyString = false) as -> by (by apply String.eqb_neq). cbn [orb].
  change (timeLeaseDuration _ <=? 0) with false. cbn iota. cbv zeta. cbn [restartTimeFloor with_registry with_clock].
  assert (Hn : mono (restartTimeFloor base) = None).
  { unfold base, enable_base. cbn. pose proof (loaded_floor _ _ _ Hl). by destruct (After _ zero_time). }
  change (timeLeaseDuration _) with (60 * second). unfold era, second in *.
  destruct (After (Add high _) (restartTimeFloor base)) eqn:Ea; unfold IsZero; apply Z.eqb_neq.
  - cbn [restartTimeFloor with_floor]. unfold Add. cbn [wall]. lia.
  - cbn [restartTimeFloor with_registry with_clock]. unfold After, on_clocks in Ea. rewrite Hn in Ea. assert (Hle : wall (Add high (60 * 1000000000)) <= wall (restartTimeFloor base)) by (destruct (mono (Add high _)); by apply Z.ltb_ge in Ea).
    unfold Add in Hle. cbn [wall] in Hle. lia.
Qed.

(** A server that is started again has its sessions: when no file operation fails and the new state can be
    written, persistence is enabled with exactly the sessions that have not expired, for the same users, with
    the same expiry and generation; a state that the server has written is never refused. *)
Theorem session_restart c tm secret access refresh key filePath same c1 c2 random suffix tmpName text :
  config_ok c -> process c = Some tm -> filePath <> EmptyString -> readings_ok c1 -> readings_ok c2 ->
  random O = Some suffix -> newAuthTempName ".auth-sessions-*.tmp" (Some suffix) = Ok tmpName -> disk c !! tmpName = None ->
  let state := {| st_SchemaVersion := tokenSessionSchemaVersion; st_RestartTimeFloor := at_wall (wall (restartTimeFloor tm)); st_Sessions := plain <$> sessionRegistry tm |} in
  let tm' := enabled (NewTokenManager secret access refresh key) filePath c1 c2 state in
  MarshalSession (stateOf tm') = Some text -> len text <= maxTokenSessionStateFileBytes ->
  exists d', EnableSessionPersistence (NewTokenManager secret access refresh key) filePath same c1 c2 random {| io_dir := disk c; io_script := [] |} =
    ({| io_dir := d'; io_script := [] |}, Some (tm', Done tt)) /\
  sessionRegistry tm' = unexpired (timeHighWater tm') (plain <$> sessionRegistry tm).
Proof.
  intros (m & Hm & _ & Hproc) Hp Hpath Hc1 Hc2 Hrand Hname Hfree state tm' Htext Hlen. rewrite Hp in Hproc. destruct Hproc as (Htm & Hpers & Hs & Hl1 & Hl2).
  destruct (Hs Hpers) as (old & Hold & Hsize & Hdec). set (fresh := NewTokenManager secret access refresh key) in *.
  assert (Hload : loaded m state true) by (unfold loaded; by rewrite Hold).
  destruct (enabled_ok fresh filePath c1 c2 state m true (new_manager_ok _ _ _ _) Hc1 Hc2 Hload) as (high & floor & He & Hera & Hen & Hreg & Hrot).
  set (base := enable_base fresh filePath c1 state) in *. fold tm' in Hen.
  assert (Hbase : sessionRegistry base = plain <$> sessionRegistry tm) by (unfold base; cbn; by rewrite (right_id_L ∅ (∪))).
  assert (Hfinal : sessionRegistry tm' = unexpired (timeHighWater tm') (plain <$> sessionRegistry tm)) by (rewrite Hen, <-Hbase; done).
  assert (Hmono : map_Forall (fun _ r => mono (rec_ExpiresAt r) = None) (sessionRegistry tm)) by (intros id r Hr; by destruct (proj1 Htm id r Hr) as (_ & _ & _ & ?)).
  assert (Hwithin : within tm' (sessionRegistry tm')).
  { rewrite Hfinal. apply (within_plain tm'); [by rewrite Hen|by rewrite Hen|]. unfold within in *. rewrite <-Hl1, <-Hl2. apply Htm. }
  assert (Hzero : IsZero (restartTimeFloor tm') = false) by (apply enabled_floor with m true; done).
  assert (Hw : exists d', persistSessionStateLocked tm' random {| io_dir := disk c; io_script := [] |} = ({| io_dir := d'; io_script := [] |}, Some Written)).
  { unfold persistSessionStateLocked. assert (String.eqb (sessionStorePath tm') EmptyString = false) as -> by (rewrite Hen; by apply String.eqb_neq).
    rewrite Hzero, (proj2 (Z.ltb_ge _ _)), Htext, (proj2 (Z.ltb_ge _ _)) by (done || (destruct Hwithin as [Hn _]; rewrite Hen in Hn |- *; exact Hn)).
    by eapply write_succeeds. }
  destruct Hw as [d' Hw]. exists d'. split; [|done]. unfold EnableSessionPersistence. rewrite (proj2 (String.eqb_neq _ _) Hpath). unfold bind at 1.
  rewrite (load_reliable m (disk c) old), Hdec by done.
  assert (Hnone : existsb (conflicts (sessionRegistry fresh) same) (map_to_list (st_Sessions state)) = false).
  { apply not_true_iff_false. intros [[id r] [_ Hc]]%existsb_exists. unfold conflicts in Hc. cbn in Hc. by rewrite lookup_empty in Hc. }
  fold state. rewrite Hnone. cbv zeta.
  match goal with |- context [effectiveNowLocked ?b c2] => replace b with base by (unfold base, enable_base; by destruct (After _ (restartTimeFloor _))) end.
  rewrite He. cbn [cleanupExpiredSessionsLocked]. 
  change (filter _ (sessionRegistry (with_clock base high (clock_observed c2)))) with (unexpired high (sessionRegistry base)).
  set (tm1 := with_registry (with_clock base high (clock_observed c2)) (unexpired high (sessionRegistry base))) in *.
  assert (Hext : extendRestartTimeLeaseLocked tm1 high = tm') by (unfold tm', enabled; fold base; by rewrite He).
  assert (Hlim : validateActiveSessionLimitsLocked tm1 high = true).
  { apply within_limits. rewrite Hen in Hwithin. exact Hwithin. }
  rewrite Hlim. cbn [negb]. rewrite Hext. unfold bind. rewrite Hw, Hzero, andb_false_r. done.
Qed.

End Props.

(** ** Concrete inputs *)

Import TokenInstances.

Definition demo_random : nat -> option string := fun _ => Some "tempname".
(** The clocks [t] seconds after the start of the machine, in November 2023. *)
Definition demo_clock (t : Z) : clock :=
  {| clock_now := {| wall := 1700000000 * second + t * second; mono := Some (t * second) |};
     clock_observed := {| wall := 1700000000 * second + t * second + 1; mono := Some (t * second + 1) |} |}.
Definition demo_key : string := "a key that has thirty-two bytes.".
Definition demo_path : string := "/srv/.mnemonas/sessions.json".
Definition demo_new : TokenManager := NewTokenManager demo_key (900 * second) (604800 * second) None.
Definition demo_user : User := profile "u1" "alice" RoleUser [] false "/alice" 0 0.
Definition demo_draws : nat -> option string := fun _ => Some "0123456789abcdef".
Definition no_dir : io dir := {| io_dir := ∅; io_script := [] |}.

(** The manager and the value that a call leaves. *)
Definition manager_of {A} (out : io dir * option (TokenManager * A)) : TokenManager := match snd out with Some (tm, _) => tm | None => demo_new end.
Definition answer_of {A} (out : io dir * option (TokenManager * reply A)) : option A := match snd out with Some (_, Done a) => Some a | _ => None end.
Lemma answered {A} (out : io dir * option (TokenManager * reply A)) a : answer_of out = Some a -> out = (fst out, Some (manager_of out, Done a)).
Proof. destruct out as [w [[tm [x|x|e]]|]]; intros H; try discriminate H. by injection H as ->. Qed.

Definition demo_start : io dir * option (TokenManager * reply unit) :=
  EnableSessionPersistence demo_new demo_path (fun _ => false) (demo_clock 1) (demo_clock 2) demo_random no_dir.
Definition demo_tm0 : TokenManager := manager_of demo_start.
Definition demo_dir0 : dir := io_dir (fst demo_start).
Definition demo_login : io dir * option (TokenManager * reply TokenPair) :=
  GenerateTokenPair demo_tm0 demo_user (demo_clock 3) demo_draws demo_random {| io_dir := demo_dir0; io_script := [] |}.
Definition demo_tm1 : TokenManager := manager_of demo_login.
Definition demo_dir1 : dir := io_dir (fst demo_login).
Definition demo_pair : TokenPair :=
  match answer_of demo_login with
  | Some p => p
  | None => {| AccessToken := EmptyString; RefreshToken := EmptyString; PairExpiresAt := zero_time; PairRefreshExpiresAt := zero_time; TokenType := EmptyString |}
  end.
Definition demo_session : string := EncodeToString "0123456789abcdef".
Definition demo_op : op := OpGenerate demo_user (demo_clock 3) demo_draws.

Lemma demo_readings t : 0 <= t -> readings_ok (demo_clock t).
Proof. intros H. unfold readings_ok, demo_clock, era, zero_instant, second. cbn [clock_now wall]. lia. Qed.

Definition demo_config (U : gset string) (tm : TokenManager) (d : dir) : config := {| used := U; process := Some tm; disk := d |}.
Definition nothing_yet : config := {| used := ∅; process := None; disk := ∅ |}.

Lemma demo_enabled : demo_start = (fst demo_start, Some (demo_tm0, Done tt)).
Proof. apply answered. vm_compute. reflexivity. Qed.
Lemma demo_first : step (fun _ _ => True) (fun _ _ => True) nothing_yet (demo_config ∅ demo_tm0 demo_dir0).
Proof.
  eapply (step_start (fun _ _ => True) (fun _ _ => True) ∅ ∅ demo_key (900 * second) (604800 * second) None demo_path (fun _ => false) (demo_clock 1) (demo_clock 2) demo_random []
    (fst demo_start) demo_tm0 (Done tt)); [done|by apply demo_readings|by apply demo_readings|done|exact demo_enabled].
Qed.
Lemma no_sessions : dom (sessions_on ∅) ⊆ (∅ : gset string).
Proof. change (dom (∅ : registry) ⊆ (∅ : gset string)). set_solver. Qed.
Lemma nothing_ok : config_ok nothing_yet.
Proof. exists ∅. split; [exact files_empty|]. split; [exact no_sessions|done]. Qed.
Lemma demo_ok0 : config_ok (demo_config ∅ demo_tm0 demo_dir0).
Proof. eapply (step_aged (fun _ _ => True) (fun _ _ => True)); [exact nothing_ok|exact demo_first]. Qed.

Lemma demo_logged_in : demo_login = (fst demo_login, Some (demo_tm1, Done demo_pair)).
Proof.
  apply answered. unfold demo_pair. assert (H : match answer_of demo_login with Some _ => true | None => false end = true) by (vm_compute; reflexivity).
  destruct (answer_of demo_login) as [p|]; [done|discriminate H].
Qed.
Lemma demo_drawn : drawn demo_op demo_tm0 = Some demo_session.
Proof. vm_compute. reflexivity. Qed.
Lemma demo_arguments : arguments_ok demo_op.
Proof. split; [vm_compute; reflexivity|by apply demo_readings]. Qed.
Lemma demo_unused id : drawn demo_op demo_tm0 = Some id -> id ∉ (∅ : gset string).
Proof. intros _. apply not_elem_of_empty. Qed.
Lemma demo_login_run : run demo_op demo_tm0 demo_random {| io_dir := demo_dir0; io_script := [] |} = (fst demo_login, Some (demo_tm1, Done tt)).
Proof. cbn [run demo_op]. fold demo_login. unfold discard, bind. fold demo_login. by rewrite demo_logged_in. Qed.
Lemma demo_second : step (fun _ _ => True) (fun _ _ => True) (demo_config ∅ demo_tm0 demo_dir0) (demo_config {[demo_session]} demo_tm1 demo_dir1).
Proof.
  assert (E : add_used (drawn demo_op demo_tm0) ∅ = {[demo_session]}) by (rewrite demo_drawn; exact (right_id_L ∅ (∪) _)). unfold demo_config. rewrite <-E.
  eapply step_call; [exact demo_arguments|done|exact demo_unused|exact demo_login_run].
Qed.
Lemma demo_ok1 : config_ok (demo_config {[demo_session]} demo_tm1 demo_dir1).
Proof. eapply (step_aged (fun _ _ => True) (fun _ _ => True)); [exact demo_ok0|exact demo_second]. Qed.

Lemma token_store_atomic_witness : exists m, files m demo_dir0 /\
  effect demo_op demo_tm0 (sessionRegistry demo_tm0) (sessionRegistry demo_tm1) /\ exists m', files m' demo_dir1 /\ saved demo_tm1 m'.
Proof.
  destruct demo_ok0 as (m & Hm & _ & Htm & _ & Hs & _). exists m. split; [exact Hm|].
  pose proof (token_store_atomic demo_op demo_tm0 m demo_dir0 [] demo_random Htm Hm Hs demo_arguments) as H. rewrite demo_login_run in H.
  destruct H as (H & _ & He). exact (conj He H).
Defined.

Lemma sessions_invariant_witness : size (sessionRegistry demo_tm1) = 1%nat /\
  map_Forall (fun id r => validatePersistedSessionRecord id r = true) (sessionRegistry demo_tm1).
Proof.
  split; [vm_compute; reflexivity|].
  apply (sessions_invariant ∅ ∅ ∅ (demo_config {[demo_session]} demo_tm1 demo_dir1) demo_tm1); [exact files_empty|exact no_sessions| |reflexivity].
  eapply rtc_l; [exact demo_first|]. eapply rtc_l; [exact demo_second|]. apply rtc_refl.
Defined.

(** The claims of the refresh token, and its exchange half a minute later. *)
Definition demo_refresh : refreshTokenClaims :=
  {| rc_Registered := registered "mnemonas" demo_user (at_wall (1700604803 * second)) (at_wall (1700000003 * second)) (demo_session +:+ "-refresh");
     rc_CredentialVersion := 1; rc_SessionID := demo_session; rc_Generation := 0 |}.
Definition demo_exchange : io dir * option (TokenManager * reply unit) :=
  consumeRefreshTokenClaims demo_tm1 demo_refresh (demo_clock 40) demo_random {| io_dir := demo_dir1; io_script := [] |}.

Lemma refresh_once_witness : demo_exchange = (fst demo_exchange, Some (manager_of demo_exchange, Done tt)) /\
  exists e, validateRefreshTokenClaimsLocked (manager_of demo_exchange) demo_refresh (snd (effectiveNowLocked (manager_of demo_exchange) (demo_clock 50))) = Some e.
Proof.
  assert (E : demo_exchange = (fst demo_exchange, Some (manager_of demo_exchange, Done tt))) by (apply answered; vm_compute; reflexivity).
  split; [exact E|]. unfold demo_exchange in E at 1.
  assert (Hg : 0 <= rc_Generation demo_refresh <= maxUint64) by (vm_compute; split; discriminate).
  destruct (refresh_once (demo_config {[demo_session]} demo_tm1 demo_dir1) (demo_config {[demo_session]} (manager_of demo_exchange) (io_dir (fst demo_exchange)))
    demo_tm1 (manager_of demo_exchange) demo_refresh demo_refresh (demo_clock 40) demo_random [] (fst demo_exchange) (manager_of demo_exchange) false
    demo_ok1 eq_refl Hg (demo_readings 40 ltac:(lia)) E (rtc_refl _ _) eq_refl eq_refl (Z.le_refl _)) as [H _]. apply H.
Defined.

Definition demo_revoke : op := OpRevokeByUser "u1" (demo_clock 40).
Definition demo_revoked : io dir * option (TokenManager * reply unit) := run demo_revoke demo_tm1 demo_random {| io_dir := demo_dir1; io_script := [] |}.

Lemma revoked_for_good_witness : is_Some (sessionRegistry demo_tm1 !! demo_session) /\
  exists e, validateRefreshTokenClaimsLocked (manager_of demo_revoked) demo_refresh (at_wall (1700000050 * second)) = Some e.
Proof.
  split; [vm_compute; by eexists|].
  assert (E : demo_revoked = (fst demo_revoked, Some (manager_of demo_revoked, Done tt))) by (apply answered; vm_compute; reflexivity).
  unfold demo_revoked in E at 1.
  destruct (revoked_for_good (demo_config {[demo_session]} demo_tm1 demo_dir1) (demo_config {[demo_session]} (manager_of demo_revoked) (io_dir (fst demo_revoked)))
    demo_tm1 (manager_of demo_revoked) demo_revoke demo_random [] (fst demo_revoked) (manager_of demo_revoked) false "u1" demo_session
    demo_ok1 eq_refl (demo_readings 40 ltac:(lia)) eq_refl (proj2 (elem_of_singleton _ _) eq_refl) E (rtc_refl _ _) eq_refl) as [_ H].
  by apply H.
Defined.

(** A validation, after which the machine crashes and comes back in 1970. *)
Definition demo_prepared : io dir * option (TokenManager * result TokenError Time) :=
  prepareValidationTime demo_tm1 (demo_clock 100) demo_random {| io_dir := demo_dir1; io_script := [] |}.
Definition demo_instant : Time := match snd demo_prepared with Some (_, Ok now) => now | _ => zero_time end.
Definition past_clock (t : Z) : clock :=
  {| clock_now := {| wall := t * second; mono := Some (t * second) |}; clock_observed := {| wall := t * second + 1; mono := Some (t * second + 1) |} |}.
Definition demo_dir2 : dir := settle O (io_dir (fst demo_prepared)).
Definition demo_again : io dir * option (TokenManager * reply unit) :=
  EnableSessionPersistence demo_new demo_path (fun _ => false) (past_clock 1) (past_clock 2) demo_random {| io_dir := demo_dir2; io_script := [] |}.

Lemma past_readings t : 0 <= t -> readings_ok (past_clock t) /\ agrees 0 (clock_now (past_clock t)) /\ agrees 0 (clock_observed (past_clock t)).
Proof.
  intros H. split; [unfold readings_ok, past_clock, era, zero_instant, second; cbn [clock_now wall]; lia|]. split; intros x [= <-]; cbn [past_clock clock_now clock_observed wall]; lia.
Qed.
Definition agreesb (k : Z) (t : Time) : bool := match mono t with Some x => wall t =? x + k | None => true end.
Lemma agreesb_ok k t : agreesb k t = true -> agrees k t.
Proof. unfold agreesb. intros H x Hx. rewrite Hx in H. by apply Z.eqb_eq. Qed.

Lemma time_never_goes_back_witness : wall demo_instant = 1700000100 * second /\
  wall demo_instant <= wall (snd (effectiveNowLocked (manager_of demo_again) (past_clock 3))).
Proof.
  split; [vm_compute; reflexivity|]. set (tm2 := manager_of demo_prepared).
  assert (E : demo_prepared = (fst demo_prepared, Some (tm2, Ok demo_instant))) by (vm_compute; reflexivity).
  assert (E' : demo_again = (fst demo_again, Some (manager_of demo_again, Done tt))) by (apply answered; vm_compute; reflexivity).
  unfold demo_prepared in E at 1. unfold demo_again in E' at 1.
  destruct (past_readings 1) as (P1 & P2 & P3), (past_readings 2) as (Q1 & Q2 & Q3), (past_readings 3) as (R1 & R2 & R3); try lia.
  apply (time_never_goes_back {[demo_session]} demo_tm1 demo_dir1 (demo_clock 100) demo_random [] (fst demo_prepared) tm2 demo_instant
    (demo_config {[demo_session]} (manager_of demo_again) (io_dir (fst demo_again))) (manager_of demo_again) (past_clock 3) 0).
  - exact demo_ok1.
  - apply demo_readings. lia.
  - exists (1700000000 * second). split_and!; [apply agreesb_ok; vm_compute; reflexivity..|]. intros c [= <-]. split; apply agreesb_ok; vm_compute; reflexivity.
  - exact E.
  - eapply rtc_l; [apply (step_power _ _ _ (Some tm2) (io_dir (fst demo_prepared)) O)|]. fold demo_dir2.
    eapply rtc_l; [|apply rtc_refl].
    apply (step_start calls_agree start_agrees {[demo_session]} demo_dir2 demo_key (900 * second) (604800 * second) None demo_path (fun _ => false) (past_clock 1) (past_clock 2)
      demo_random [] (fst demo_again) (manager_of demo_again) (Done tt)); [done|exact P1|exact Q1|exists 0; exact (conj P2 (conj P3 (conj Q2 Q3)))|exact E'].
  - reflexivity.
  - exact R1.
  - split_and!; [apply agreesb_ok; vm_compute; reflexivity..|]. intros c [= <-]. exact (conj R2 R3).
Defined.

(** The wall clock jumps ahead by thirty days, which is after the end of the session. *)
Lemma wall_clock_not_noticed_witness :
  let started := fst (effectiveNowLocked demo_new (reading (1700000000 * second) 0 (1700000000 * second + 40) 40)) in
  let later := timeHighWater (after_readings started [reading (1702592060 * second) (60 * second) (1702592060 * second + 50) (60 * second + 50)]) in
  wall later = 1700000060 * second + 10.
Proof.
  intros started later.
  destruct (wall_clock_not_noticed started (1700000000 * second) 0 (1700000000 * second + 40) 40) as [H _];
    [reflexivity|reflexivity|vm_compute; discriminate|vm_compute; discriminate|vm_compute; discriminate|vm_compute; discriminate|].
  destruct (H [(1702592060 * second, 60 * second, 1702592060 * second + 50, 60 * second + 50)]) as [E _]; [|exact E].
  split; [vm_compute; discriminate|]. split; [vm_compute; discriminate|]. split; [split; vm_compute; discriminate|]. split; [vm_compute; discriminate|].
  split; [vm_compute; reflexivity|]. split; [vm_compute; discriminate|exact I].
Defined.

(** The server ends and is started again a minute later. *)
Definition demo_restart : io dir * option (TokenManager * reply unit) :=
  EnableSessionPersistence demo_new demo_path (fun _ => false) (demo_clock 60) (demo_clock 61) demo_random {| io_dir := demo_dir1; io_script := [] |}.
Lemma session_restart_witness : exists d' tm', demo_restart = ({| io_dir := d'; io_script := [] |}, Some (tm', Done tt)) /\
  is_Some (sessionRegistry tm' !! demo_session).
Proof.
  set (state := {| st_SchemaVersion := tokenSessionSchemaVersion; st_RestartTimeFloor := at_wall (wall (restartTimeFloor demo_tm1)); st_Sessions := plain <$> sessionRegistry demo_tm1 |}).
  set (tm' := enabled demo_new demo_path (demo_clock 60) (demo_clock 61) state).
  set (name := match newAuthTempName ".auth-sessions-*.tmp" (Some "tempname") with Ok n => n | Err _ => EmptyString end).
  set (text := match MarshalSession (stateOf tm') with Some t => t | None => EmptyString end).
  destruct (session_restart (demo_config {[demo_session]} demo_tm1 demo_dir1) demo_tm1 demo_key (900 * second) (604800 * second) None demo_path (fun _ => false)
    (demo_clock 60) (demo_clock 61) demo_random "tempname" name text demo_ok1 eq_refl ltac:(done) (demo_readings 60 ltac:(lia)) (demo_readings 61 ltac:(lia)) eq_refl
    eq_refl ltac:(vm_compute; reflexivity) eq_refl ltac:(vm_compute; discriminate)) as (d' & H & _).
  exists d', tm'. split; [exact H|]. vm_compute. by eexists.
Defined.

End TokenProps.
