(* ===== verification/LoginThrottle.v ===== *)
(** * The login throttle

    [loginAttemptTracker] of [internal/auth/handler.go]: the failed logins of every user name and client, the
    locks they lead to, and the number of password checks of every client in a window.  A call is one critical
    section of [t.mu], given the reading of the clock. *)

From Stdlib Require Import Ascii.
From stdpp Require Import countable.
From S2P Require Import Prelude MonoTime.
Import MonoTime.

Module LoginThrottle.

(** ** Package [container/list]

    A list of the addresses of its elements with their values; an element is in one list at most. *)

Notation order A := (list (nat * A)).
Definition Remove {A} (e : nat) (l : order A) : order A := filter (fun x => x.1 <> e) l.
Definition MoveToBack {A} (e : nat) (l : order A) : order A := Remove e l ++ filter (fun x => x.1 = e) l.
Definition PushBack {A} (e : nat) (a : A) (l : order A) : order A := l ++ [(e, a)].

(** ** Data *)

Definition millisecond : Z := 1000000.
Definition second : Z := 1000 * millisecond.
Definition minute : Z := 60 * second.

Record loginAttemptKey := { usernameDigest : string; clientIP : string }.
#[export] Instance key_eq_dec : EqDecision loginAttemptKey.
Proof. solve_decision. Defined.
#[export] Instance key_countable : Countable loginAttemptKey.
Proof.
  refine (inj_countable' (fun k => (usernameDigest k, clientIP k)) (fun '(d, ip) => {| usernameDigest := d; clientIP := ip |}) _).
  by intros [].
Defined.

Record loginAttemptState := {
  failures : Z; lastFailure : Time; lockedUntil : Time; globalOrderElement : option nat; ipOrderElement : option nat }.
Definition no_attempts : loginAttemptState :=
  {| failures := 0; lastFailure := zero_time; lockedUntil := zero_time; globalOrderElement := None; ipOrderElement := None |}.

Record loginCredentialCheckState := { windowStartedAt : Time; checks : Z; orderElement : option nat }.

(** [nextElement] is the address of the next element that is allocated. *)
Record loginAttemptTracker := {
  attempts : gmap loginAttemptKey loginAttemptState;
  entriesByIP : gmap string Z;
  credentialChecksByIP : gmap string loginCredentialCheckState;
  credentialCheckOrder : order string;
  unlockedFailures : order loginAttemptKey;
  unlockedFailuresByIP : gmap string (order loginAttemptKey);
  maxEntries : Z; maxEntriesPerIP : Z; maxCredentialCheckIPs : Z;
  lastPrunedAt : Time; lastCredentialChecksPrunedAt : Time;
  nextElement : nat }.

Definition defaultLoginFailureLimit : Z := 5.
Definition defaultLoginFailureWindow : Z := 15 * minute.
Definition defaultLoginLockDuration : Z := 5 * minute.
Definition defaultLoginAttemptMaxEntries : Z := 4096.
Definition defaultLoginAttemptMaxEntriesPerIP : Z := 64.
Definition defaultLoginAttemptPruneInterval : Z := minute.
Definition defaultLoginCredentialCheckLimit : Z := 12.
Definition defaultLoginCredentialCheckWindow : Z := 10 * second.
Definition defaultLoginCredentialCheckMaxIPs : Z := 4096.

Record LoginRateLimitPolicy := {
  Enabled : bool; FailureLimit : Z; FailureWindow : Z; LockDuration : Z; CredentialCheckLimit : Z; CredentialCheckWindow : Z }.
(** The policy that [NewHandler] sets. *)
Definition default_policy : LoginRateLimitPolicy :=
  {| Enabled := true; FailureLimit := defaultLoginFailureLimit; FailureWindow := defaultLoginFailureWindow;
     LockDuration := defaultLoginLockDuration; CredentialCheckLimit := defaultLoginCredentialCheckLimit;
     CredentialCheckWindow := defaultLoginCredentialCheckWindow |}.

Definition newLoginAttemptTracker : loginAttemptTracker :=
  {| attempts := ∅; entriesByIP := ∅; credentialChecksByIP := ∅; credentialCheckOrder := []; unlockedFailures := [];
     unlockedFailuresByIP := ∅; maxEntries := defaultLoginAttemptMaxEntries; maxEntriesPerIP := defaultLoginAttemptMaxEntriesPerIP;
     maxCredentialCheckIPs := defaultLoginCredentialCheckMaxIPs; lastPrunedAt := zero_time; lastCredentialChecksPrunedAt := zero_time;
     nextElement := O |}.

(** The tracker with other failures, or with other password checks. *)
Definition with_failures (t : loginAttemptTracker) (m : gmap loginAttemptKey loginAttemptState) (entries : gmap string Z)
    (global : order loginAttemptKey) (byIP : gmap string (order loginAttemptKey)) (next : nat) : loginAttemptTracker :=
  {| attempts := m; entriesByIP := entries; credentialChecksByIP := credentialChecksByIP t; credentialCheckOrder := credentialCheckOrder t;
     unlockedFailures := global; unlockedFailuresByIP := byIP; maxEntries := maxEntries t; maxEntriesPerIP := maxEntriesPerIP t;
     maxCredentialCheckIPs := maxCredentialCheckIPs t; lastPrunedAt := lastPrunedAt t;
     lastCredentialChecksPrunedAt := lastCredentialChecksPrunedAt t; nextElement := next |}.
Definition with_checks (t : loginAttemptTracker) (m : gmap string loginCredentialCheckState) (checkOrder : order string) (next : nat) : loginAttemptTracker :=
  {| attempts := attempts t; entriesByIP := entriesByIP t; credentialChecksByIP := m; credentialCheckOrder := checkOrder;
     unlockedFailures := unlockedFailures t; unlockedFailuresByIP := unlockedFailuresByIP t; maxEntries := maxEntries t;
     maxEntriesPerIP := maxEntriesPerIP t; maxCredentialCheckIPs := maxCredentialCheckIPs t; lastPrunedAt := lastPrunedAt t;
     lastCredentialChecksPrunedAt := lastCredentialChecksPrunedAt t; nextElement := next |}.
Definition with_pruned (t : loginAttemptTracker) (failures_at checks_at : Time) : loginAttemptTracker :=
  {| attempts := attempts t; entriesByIP := entriesByIP t; credentialChecksByIP := credentialChecksByIP t; credentialCheckOrder := credentialCheckOrder t;
     unlockedFailures := unlockedFailures t; unlockedFailuresByIP := unlockedFailuresByIP t; maxEntries := maxEntries t;
     maxEntriesPerIP := maxEntriesPerIP t; maxCredentialCheckIPs := maxCredentialCheckIPs t; lastPrunedAt := failures_at;
     lastCredentialChecksPrunedAt := checks_at; nextElement := nextElement t |}.

(** ** Failures *)

Definition unordered (state : loginAttemptState) : loginAttemptState :=
  {| failures := failures state; lastFailure := lastFailure state; lockedUntil := lockedUntil state;
     globalOrderElement := None; ipOrderElement := None |}.

(** The lists after the removal; [state] becomes [unordered state]. *)
Definition removeUnlockedFailureOrderLocked (t : loginAttemptTracker) (state : loginAttemptState) (ip : string) : loginAttemptTracker :=
  let global := match globalOrderElement state with Some e => Remove e (unlockedFailures t) | None => unlockedFailures t end in
  let byIP :=
    match ipOrderElement state, unlockedFailuresByIP t !! ip with
    | Some e, Some perIPOrder =>
      match Remove e perIPOrder with
      | [] => delete ip (unlockedFailuresByIP t)
      | removed => <[ip := removed]> (unlockedFailuresByIP t)
      end
    | _, _ => unlockedFailuresByIP t
    end in
  with_failures t (attempts t) (entriesByIP t) global byIP (nextElement t).

Definition deleteEntryLocked (t : loginAttemptTracker) (key : loginAttemptKey) : loginAttemptTracker :=
  match attempts t !! key with
  | None => t
  | Some state =>
    let t := removeUnlockedFailureOrderLocked t state (clientIP key) in
    let count := default 0 (entriesByIP t !! clientIP key) in
    let entries := if count <=? 1 then delete (clientIP key) (entriesByIP t) else <[clientIP key := int64 (count - 1)]> (entriesByIP t) in
    with_failures t (delete key (attempts t)) entries (unlockedFailures t) (unlockedFailuresByIP t) (nextElement t)
  end.

Definition loginAttemptFailureExpired (state : loginAttemptState) (now : Time) (failureWindow : Z) : bool :=
  (0 <? failureWindow) && negb (IsZero (lastFailure state)) && (failureWindow <? Sub now (lastFailure state)).

(** One turn of the loop over the entries. *)
Definition prune_entry (now : Time) (failureWindow : Z) (t : loginAttemptTracker) (entry : loginAttemptKey * loginAttemptState) : loginAttemptTracker :=
  let '(key, state) := entry in
  if After (lockedUntil state) now then t
  else if negb (IsZero (lockedUntil state)) && negb (After (lockedUntil state) now) then deleteEntryLocked t key
  else if loginAttemptFailureExpired state now failureWindow then deleteEntryLocked t key
  else t.

Definition pruneExpiredIfDueLocked (t : loginAttemptTracker) (now : Time) (failureWindow : Z) : loginAttemptTracker :=
  let pruneInterval :=
    if (0 <? failureWindow) && (failureWindow <? defaultLoginAttemptPruneInterval) then failureWindow else defaultLoginAttemptPruneInterval in
  if negb (IsZero (lastPrunedAt t)) && negb (Before now (lastPrunedAt t)) && (Sub now (lastPrunedAt t) <? pruneInterval) then t
  else with_pruned (fold_left (prune_entry now failureWindow) (map_to_list (attempts t)) t) now (lastCredentialChecksPrunedAt t).

(** [None] is the order of all failures, [Some ip] that of a client. *)
Definition evictOldestUnlockedFailureLocked (t : loginAttemptTracker) (ip : option string) : loginAttemptTracker * bool :=
  let failureOrder := match ip with None => unlockedFailures t | Some ip => default [] (unlockedFailuresByIP t !! ip) end in
  match failureOrder with
  | [] => (t, false)
  | (_, key) :: _ => (deleteEntryLocked t key, true)
  end.

(** The empty string names no client, and selects the order of all failures. *)
Definition order_of (ip : string) : option string := if String.eqb ip EmptyString then None else Some ip.

Definition ensureFailureCapacityLocked (t : loginAttemptTracker) (ip : string) : loginAttemptTracker * bool :=
  let '(t, room) :=
    if (0 <? maxEntriesPerIP t) && (maxEntriesPerIP t <=? default 0 (entriesByIP t !! ip))
    then evictOldestUnlockedFailureLocked t (order_of ip) else (t, true) in
  if negb room then (t, false)
  else if (0 <? maxEntries t) && (maxEntries t <=? Z.of_nat (size (attempts t)))
  then evictOldestUnlockedFailureLocked t None else (t, true).

(** The lists and the state that has its elements. *)
Definition touchUnlockedFailureOrderLocked (t : loginAttemptTracker) (key : loginAttemptKey) (state : loginAttemptState)
    : loginAttemptTracker * loginAttemptState :=
  let '(e, global, next) :=
    match globalOrderElement state with
    | None => (nextElement t, PushBack (nextElement t) key (unlockedFailures t), S (nextElement t))
    | Some e => (e, MoveToBack e (unlockedFailures t), nextElement t)
    end in
  let perIPOrder := default [] (unlockedFailuresByIP t !! clientIP key) in
  let '(ipe, perIPOrder, next) :=
    match ipOrderElement state with
    | None => (next, PushBack next key perIPOrder, S next)
    | Some ipe => (ipe, MoveToBack ipe perIPOrder, next)
    end in
  (with_failures t (attempts t) (entriesByIP t) global (<[clientIP key := perIPOrder]> (unlockedFailuresByIP t)) next,
   {| failures := failures state; lastFailure := lastFailure state; lockedUntil := lockedUntil state;
      globalOrderElement := Some e; ipOrderElement := Some ipe |}).

Definition set_attempt (t : loginAttemptTracker) (key : loginAttemptKey) (state : loginAttemptState) : loginAttemptTracker :=
  with_failures t (<[key := state]> (attempts t)) (entriesByIP t) (unlockedFailures t) (unlockedFailuresByIP t) (nextElement t).
Definition count_entry (t : loginAttemptTracker) (ip : string) : loginAttemptTracker :=
  with_failures t (attempts t) (<[ip := int64 (default 0 (entriesByIP t !! ip) + 1)]> (entriesByIP t))
    (unlockedFailures t) (unlockedFailuresByIP t) (nextElement t).

(** The end of [recordFailure], with the state of the entry so far. *)
Definition count_failure (t : loginAttemptTracker) (key : loginAttemptKey) (state : loginAttemptState) (limit lockDuration : Z) (now : Time)
    : loginAttemptTracker * bool :=
  let counted := int64 (failures state + 1) in
  let '(t, state) :=
    if limit <=? counted
    then
      let state := {| failures := counted; lastFailure := now; lockedUntil := Add now lockDuration;
                      globalOrderElement := globalOrderElement state; ipOrderElement := ipOrderElement state |} in
      (removeUnlockedFailureOrderLocked t state (clientIP key), unordered state)
    else
      touchUnlockedFailureOrderLocked t key
        {| failures := counted; lastFailure := now; lockedUntil := lockedUntil state;
           globalOrderElement := globalOrderElement state; ipOrderElement := ipOrderElement state |} in
  (set_attempt t key state, negb (IsZero (lockedUntil state))).

Definition isLocked (t : loginAttemptTracker) (key : loginAttemptKey) (failureWindow : Z) (now : Time) : loginAttemptTracker * bool :=
  let t := pruneExpiredIfDueLocked t now failureWindow in
  match attempts t !! key with
  | None => (t, false)
  | Some state =>
    if After (lockedUntil state) now then (t, true)
    else if negb (IsZero (lockedUntil state)) || loginAttemptFailureExpired state now failureWindow
    then (deleteEntryLocked t key, false)
    else (t, false)
  end.

Definition recordFailure (t : loginAttemptTracker) (key : loginAttemptKey) (limit failureWindow lockDuration : Z) (now : Time)
    : loginAttemptTracker * bool :=
  let t := pruneExpiredIfDueLocked t now failureWindow in
  let fresh (t : loginAttemptTracker) :=
    let '(t, room) := ensureFailureCapacityLocked t (clientIP key) in
    if negb room then (t, false) else count_failure (count_entry t (clientIP key)) key no_attempts limit lockDuration now in
  match attempts t !! key with
  | None => fresh t
  | Some state =>
    if After (lockedUntil state) now then (t, true)
    else if negb (IsZero (lockedUntil state)) && negb (After (lockedUntil state) now) || loginAttemptFailureExpired state now failureWindow
    then fresh (deleteEntryLocked t key)
    else count_failure t key state limit lockDuration now
  end.

Definition reset (t : loginAttemptTracker) (key : loginAttemptKey) : loginAttemptTracker := deleteEntryLocked t key.

(** ** Password checks *)

Definition deleteCredentialCheckLocked (t : loginAttemptTracker) (ip : string) : loginAttemptTracker :=
  match credentialChecksByIP t !! ip with
  | None => t
  | Some state =>
    with_checks t (delete ip (credentialChecksByIP t))
      (match orderElement state with Some e => Remove e (credentialCheckOrder t) | None => credentialCheckOrder t end) (nextElement t)
  end.

Definition window_over (state : loginCredentialCheckState) (now : Time) (window : Z) : bool :=
  Before now (windowStartedAt state) || (window <=? Sub now (windowStartedAt state)).

Definition prune_check (now : Time) (window : Z) (t : loginAttemptTracker) (entry : string * loginCredentialCheckState) : loginAttemptTracker :=
  let '(ip, state) := entry in if window_over state now window then deleteCredentialCheckLocked t ip else t.

Definition pruneCredentialChecksIfDueLocked (t : loginAttemptTracker) (now : Time) (window : Z) : loginAttemptTracker :=
  let pruneInterval := if defaultLoginAttemptPruneInterval <? window then defaultLoginAttemptPruneInterval else window in
  if negb (IsZero (lastCredentialChecksPrunedAt t)) && negb (Before now (lastCredentialChecksPrunedAt t)) &&
     (Sub now (lastCredentialChecksPrunedAt t) <? pruneInterval) then t
  else with_pruned (fold_left (prune_check now window) (map_to_list (credentialChecksByIP t)) t) (lastPrunedAt t) now.

Definition ensureCredentialCheckCapacityLocked (t : loginAttemptTracker) : loginAttemptTracker :=
  if (maxCredentialCheckIPs t <=? 0) || (Z.of_nat (size (credentialChecksByIP t)) <? maxCredentialCheckIPs t) then t
  else match credentialCheckOrder t with
       | [] => t
       | (_, ip) :: _ => deleteCredentialCheckLocked t ip
       end.

(** The check of a client whose window has begun. *)
Definition count_check (t : loginAttemptTracker) (ip : string) (state : loginCredentialCheckState) (limit : Z) : loginAttemptTracker * bool :=
  let store state := with_checks t (<[ip := state]> (credentialChecksByIP t)) (credentialCheckOrder t) (nextElement t) in
  if limit <=? checks state then (store state, false)
  else (store {| windowStartedAt := windowStartedAt state; checks := int64 (checks state + 1); orderElement := orderElement state |}, true).

Definition allowCredentialCheck (t : loginAttemptTracker) (ip : string) (limit window : Z) (now : Time) : loginAttemptTracker * bool :=
  if (limit <=? 0) || (window <=? 0) then (t, true)
  else
    let t := pruneCredentialChecksIfDueLocked t now window in
    let begin (t : loginAttemptTracker) :=
      let t := ensureCredentialCheckCapacityLocked t in
      count_check (with_checks t (credentialChecksByIP t) (PushBack (nextElement t) ip (credentialCheckOrder t)) (S (nextElement t)))
        ip {| windowStartedAt := now; checks := 0; orderElement := Some (nextElement t) |} limit in
    match credentialChecksByIP t !! ip with
    | None => begin t
    | Some state =>
      if window_over state now window then begin (deleteCredentialCheckLocked t ip)
      else
        let order := match orderElement state with Some e => MoveToBack e (credentialCheckOrder t) | None => credentialCheckOrder t end in
        count_check (with_checks t (credentialChecksByIP t) order (nextElement t)) ip state limit
    end.
End LoginThrottle.
