(* ===== verification/LoginThrottleSpec.v ===== *)
(** * The login throttle: invariants

    The lists of the tracker hold exactly the entries that they are to order, its counters are exact, and its
    tables are bounded; every call keeps this so. *)

From Stdlib Require Import Ascii.
From S2P Require Import Prelude GoTime MonoTime LoginThrottle.
Import MonoTime LoginThrottle.

Module LoginThrottleSpec.

(** ** Lists and the tables they order *)

Section Linked.
Context {K S : Type} `{Countable K} (elem : S -> option nat) (sel : K -> Prop).
Implicit Types (m : gmap K S) (l : order K).

(** [l] holds exactly the elements that the entries of [sel] in [m] point to. *)
Definition linked m l : Prop :=
  NoDup l.*1 /\ forall e k, (e, k) ∈ l <-> sel k /\ exists s, m !! k = Some s /\ elem s = Some e.

Lemma elem_Remove e l x : x ∈ Remove e l <-> x.1 <> e /\ x ∈ l.
Proof. unfold Remove. by rewrite list_elem_of_filter. Qed.
Lemma NoDup_Remove e l : NoDup l.*1 -> NoDup (Remove e l).*1.
Proof. intros Hn. by apply (sublist_NoDup _ _ Hn), fmap_sublist, sublist_filter. Qed.
Lemma MoveToBack_perm e l : MoveToBack e l ≡ₚ l.
Proof.
  unfold MoveToBack, Remove. rewrite Permutation_app_comm. apply (filter_app_complement (fun x : nat * K => x.1 = e)).
Qed.

Lemma NoDup_entry l e k k' : NoDup l.*1 -> (e, k) ∈ l -> (e, k') ∈ l -> k = k'.
Proof.
  induction l as [|[e0 k0] l IH]; [by intros _ ?%elem_of_nil|]. cbn. intros [Hn Hl]%NoDup_cons.
  assert (Hin : forall k1, (e0, k1) ∈ l -> False) by (intros k1 Hk; apply Hn, list_elem_of_fmap; by exists (e0, k1)).
  intros [H1|H1]%elem_of_cons [H2|H2]%elem_of_cons; simplify_eq; [done|by destruct (Hin k')|by destruct (Hin k)|by apply IH].
Qed.

(** The list without the element of an entry that leaves. *)
Definition dropped (s : S) l : order K := match elem s with Some e => Remove e l | None => l end.

Lemma linked_delete m l k s : linked m l -> sel k -> m !! k = Some s -> linked (delete k m) (dropped s l).
Proof.
  intros [Hn Hl] Hsel Hk. unfold dropped. destruct (elem s) as [e|] eqn:Ee.
  - split; [by apply NoDup_Remove|]. intros e' k'. rewrite elem_Remove, Hl. cbn [fst]. setoid_rewrite lookup_delete_Some. split.
    + intros (Hne & Hs & s' & Hs' & He). split; [done|]. exists s'. split_and!; try done. intros <-. congruence.
    + intros (Hs & s' & [Hne Hs'] & He). split; [|split; [done|by exists s']]. intros ->. apply Hne.
      apply (NoDup_entry l e); [done| |]; apply Hl; (split; [done|]); [by exists s|by exists s'].
  - split; [done|]. intros e' k'. rewrite Hl. setoid_rewrite lookup_delete_Some. split.
    + intros (Hs & s' & Hs' & He). split; [done|]. exists s'. split_and!; try done. intros <-. congruence.
    + intros (Hs & s' & [_ Hs'] & He). split; [done|]. by exists s'.
Qed.
Lemma linked_elsewhere m m' l k : linked m l -> ~ sel k -> (forall k', k' <> k -> m' !! k' = m !! k') -> linked m' l.
Proof.
  intros [Hn Hl] Hsel Hk. split; [done|]. intros e k'. rewrite Hl. split; intros [Hs (s & Hm & He)]; (split; [done|]); exists s; rewrite ?Hk in * by congruence; done.
Qed.

(** An entry that arrives, at the end of the list or outside of it. *)
Definition appended (k : K) (s : S) l : order K := match elem s with Some e => PushBack e k l | None => l end.

Lemma linked_insert m l k s : linked m l -> sel k -> m !! k = None -> (forall e, elem s = Some e -> e ∉ l.*1) -> linked (<[k := s]> m) (appended k s l).
Proof.
  intros [Hn Hl] Hsel Hk Hnew. unfold appended. destruct (elem s) as [e|] eqn:Ee.
  - split.
    + unfold PushBack. rewrite fmap_app. apply NoDup_app. split; [done|]. split; [|by apply NoDup_singleton].
      intros x Hx ->%list_elem_of_singleton. by apply (Hnew e).
    + intros e' k'. unfold PushBack. rewrite elem_of_app, list_elem_of_singleton, Hl. setoid_rewrite lookup_insert_Some. split.
      * intros [(Hs & s' & Hs' & He)|[= -> ->]]; [|split; [done|]; exists s; by split; [left|]].
        split; [done|]. exists s'. split; [right; split; [congruence|done]|done].
      * intros (Hs & s' & [[<- <-]|[Hne Hs']] & He); [right; congruence|left]. split; [done|]. by exists s'.
  - split; [done|]. intros e' k'. rewrite Hl. setoid_rewrite lookup_insert_Some. split.
    + intros (Hs & s' & Hs' & He). split; [done|]. exists s'. split; [right; split; [congruence|done]|done].
    + intros (Hs & s' & [[<- <-]|[Hne Hs']] & He); [congruence|]. split; [done|]. by exists s'.
Qed.
Lemma linked_same m l k s s' : linked m l -> m !! k = Some s -> elem s' = elem s -> linked (<[k := s']> m) l.
Proof.
  intros [Hn Hl] Hk He. split; [done|]. intros e k'. rewrite Hl. setoid_rewrite lookup_insert_Some. split; intros [Hs (x & Hx & Hex)]; (split; [done|]).
  - destruct (decide (k' = k)) as [->|Hne]; [exists s'; split; [by left|congruence]|exists x; split; [by right|done]].
  - destruct Hx as [[<- <-]|[_ Hx]]; [exists s; split; [done|congruence]|by exists x].
Qed.
Lemma linked_perm m l l' : l ≡ₚ l' -> linked m l -> linked m l'.
Proof. intros Hp [Hn Hl]. split; [by rewrite <-Hp|]. intros e k. by rewrite <-Hp. Qed.
(** Every entry with an element is there once. *)
Lemma linked_values m l : linked m l -> NoDup l.*2 /\ forall k, k ∈ l.*2 <-> sel k /\ exists s, m !! k = Some s /\ is_Some (elem s).
Proof.
  intros [Hn Hl]. split.
  - apply NoDup_fmap_2_strong; [|by apply NoDup_fmap_1 in Hn]. intros [e k] [e' k'] [_ (s & Hs & He)]%Hl [_ (s' & Hs' & He')]%Hl. cbn. intros <-. congruence.
  - intros k. rewrite list_elem_of_fmap. split.
    + intros ([e k'] & -> & [Hs (s & Hk & He)]%Hl). split; [done|]. exists s. split; [done|by exists e].
    + intros (Hs & s & Hk & e & He). exists (e, k). split; [done|]. apply Hl. split; [done|]. by exists s.
Qed.
Lemma linked_empty : linked ∅ [].
Proof.
  split; [by apply NoDup_nil_2|]. intros e k. setoid_rewrite lookup_empty. split; [by intros ?%elem_of_nil|by intros (_ & s & ? & _)].
Qed.
End Linked.

(** ** Failures *)

Notation table := (gmap loginAttemptKey loginAttemptState).
Definition by_ip (t : loginAttemptTracker) (ip : string) : order loginAttemptKey := default [] (unlockedFailuresByIP t !! ip).
Definition any (k : loginAttemptKey) : Prop := True.
Definition from (ip : string) (k : loginAttemptKey) : Prop := clientIP k = ip.

(** An entry is in both lists, or it is locked. *)
Definition placed (s : loginAttemptState) : Prop :=
  match globalOrderElement s, ipOrderElement s with
  | Some _, Some _ => lockedUntil s = zero_time
  | None, None => IsZero (lockedUntil s) = false
  | _, _ => False
  end.

(** The lists order the failures of [m] that have not led to a lock. *)
Record ordered (m : table) (t : loginAttemptTracker) : Prop := {
  ord_global : linked globalOrderElement any m (unlockedFailures t);
  ord_ip ip : linked ipOrderElement (from ip) m (by_ip t ip);
  ord_nonempty ip l : unlockedFailuresByIP t !! ip = Some l -> l <> [];
  ord_state k s : m !! k = Some s -> placed s;
  ord_fresh e k : (e, k) ∈ unlockedFailures t \/ (exists ip, (e, k) ∈ by_ip t ip) -> (e < nextElement t)%nat }.

(** The entries of a client, and their number as it is kept. *)
Definition count_of (m : table) (ip : string) : nat := size (filter (fun '(k, _) => clientIP k = ip) m).
Definition kept_count (n : nat) : option Z := match n with O => None | _ => Some (Z.of_nat n) end.

Record counted (t : loginAttemptTracker) : Prop := {
  cnt_entries ip : entriesByIP t !! ip = kept_count (count_of (attempts t) ip);
  cnt_total : Z.of_nat (size (attempts t)) <= maxEntries t;
  cnt_ip ip : ip <> EmptyString -> Z.of_nat (count_of (attempts t) ip) <= maxEntriesPerIP t }.

(** The limits are positive numbers of the machine. *)
Definition limits_ok (t : loginAttemptTracker) : Prop :=
  0 < maxEntries t < maxInt64 /\ 0 < maxEntriesPerIP t < maxInt64 /\ 0 < maxCredentialCheckIPs t < maxInt64.

Lemma kept_default n : default 0 (kept_count n) = Z.of_nat n.
Proof. by destruct n. Qed.

Lemma entries_insert m k s ip : m !! k = None -> count_of (<[k := s]> m) ip = if decide (clientIP k = ip) then S (count_of m ip) else count_of m ip.
Proof.
  intros Hk. unfold count_of. rewrite map_filter_insert. destruct (decide (clientIP k = ip)).
  - apply map_size_insert_None. rewrite map_lookup_filter_None. by left.
  - rewrite delete_id; [done|]. done.
Qed.
Lemma count_replace m k s s0 ip : m !! k = Some s0 -> count_of (<[k := s]> m) ip = count_of m ip.
Proof.
  intros Hk. rewrite <-(insert_delete_id m k s0) at 2 by done. rewrite <-(insert_delete_eq m k s).
  rewrite !entries_insert by apply lookup_delete_eq. done.
Qed.
Lemma entries_delete m k s ip : m !! k = Some s -> count_of m ip = if decide (clientIP k = ip) then S (count_of (delete k m) ip) else count_of (delete k m) ip.
Proof. intros Hk. rewrite <-(insert_delete_id m k s) at 1 by done. apply entries_insert, lookup_delete_eq. Qed.
Lemma count_le m ip : (count_of m ip <= size m)%nat.
Proof. apply map_subseteq_size, map_filter_subseteq. Qed.

(** Leaving the lists. *)
Lemma by_ip_removed t state ip ip' : by_ip (removeUnlockedFailureOrderLocked t state ip) ip' =
  if decide (ip' = ip) then dropped ipOrderElement state (by_ip t ip) else by_ip t ip'.
Proof.
  unfold by_ip, removeUnlockedFailureOrderLocked, dropped. cbn. destruct (ipOrderElement state) as [e|].
  - destruct (unlockedFailuresByIP t !! ip) as [l|] eqn:El; cbn; [|destruct (decide _) as [->|]; by rewrite ?El].
    destruct (decide (ip' = ip)) as [->|Hne].
    + destruct (Remove e l) as [|x l'] eqn:Er; [by rewrite lookup_delete_eq|by rewrite lookup_insert_eq].
    + destruct (Remove e l) as [|x l'] eqn:Er; [by rewrite lookup_delete_ne|by rewrite lookup_insert_ne].
  - by destruct (decide _) as [->|].
Qed.
Lemma remove_nonempty t state ip : (forall ip l, unlockedFailuresByIP t !! ip = Some l -> l <> []) ->
  forall ip' l, unlockedFailuresByIP (removeUnlockedFailureOrderLocked t state ip) !! ip' = Some l -> l <> [].
Proof.
  intros Hne ip' l. cbn. destruct (ipOrderElement state) as [e|]; [|apply Hne]. destruct (unlockedFailuresByIP t !! ip) as [l0|]; [|apply Hne].
  destruct (Remove e l0) as [|x l'] eqn:Er.
  - intros [_ Hl]%lookup_delete_Some. by eapply Hne.
  - intros [[<- <-]|[_ Hl]]%lookup_insert_Some; [done|by eapply Hne].
Qed.

Lemma dropped_sub {K S} (elem : S -> option nat) (s : S) (l : order K) x : x ∈ dropped elem s l -> x ∈ l.
Proof. unfold dropped. destruct (elem s); [|done]. by intros [_ Hx]%elem_Remove. Qed.

Lemma unlisted m t k s : ordered m t -> m !! k = Some s -> ordered (delete k m) (removeUnlockedFailureOrderLocked t s (clientIP k)).
Proof.
  intros [Hg Hi Hne Hs Hf] Hk. split.
  - by apply linked_delete.
  - intros ip. rewrite by_ip_removed. destruct (decide _) as [->|Hip]; [by apply linked_delete|].
    apply (linked_elsewhere _ _ m _ _ k); [done|by intros ?|]. intros k' Hk'. by rewrite lookup_delete_ne.
  - by apply remove_nonempty.
  - intros k' s' [_ H']%lookup_delete_Some. by eapply Hs.
  - intros e k' Hin. apply (Hf e k'). destruct Hin as [Hin|[ip Hin]]; [left; by apply dropped_sub in Hin|right].
    rewrite by_ip_removed in Hin. destruct (decide _) as [->|]; [apply dropped_sub in Hin; by eexists|by exists ip].
Qed.

Lemma listed_locked m t k s : ordered m t -> m !! k = None -> globalOrderElement s = None -> ipOrderElement s = None -> IsZero (lockedUntil s) = false ->
  ordered (<[k := s]> m) t.
Proof.
  intros [Hg Hi Hne Hs Hf] Hk E1 E2 Hz. split; [| |done| |done].
  - pose proof (linked_insert globalOrderElement any m (unlockedFailures t) k s Hg I Hk ltac:(by rewrite E1)) as H. unfold appended in H. by rewrite E1 in H.
  - intros ip. destruct (decide (clientIP k = ip)) as [<-|Hip].
    + pose proof (linked_insert ipOrderElement (from (clientIP k)) m _ k s (Hi _) eq_refl Hk ltac:(by rewrite E2)) as H. unfold appended in H. by rewrite E2 in H.
    + apply (linked_elsewhere _ _ m _ _ k); [done|done|]. intros k' Hk'. by rewrite lookup_insert_ne.
  - intros k' s' [[<- <-]|[_ H']]%lookup_insert_Some; [|by eapply Hs]. unfold placed. by rewrite E1, E2.
Qed.

Lemma by_ip_insert t m entries global byIP next ip l ip' : by_ip (with_failures t m entries global (<[ip := l]> byIP) next) ip' =
  if decide (ip' = ip) then l else default [] (byIP !! ip').
Proof. unfold by_ip. cbn. destruct (decide _) as [->|]; [by rewrite lookup_insert_eq|by rewrite lookup_insert_ne]. Qed.

Lemma ord_new m t e : ordered m t -> (e >= nextElement t)%nat -> e ∉ (unlockedFailures t).*1 /\ forall ip, e ∉ (by_ip t ip).*1.
Proof.
  intros [_ _ _ _ Hf] He. split; [|intros ip]; intros ([e' k'] & -> & Hin)%list_elem_of_fmap; cbn in He; enough (e' < nextElement t)%nat by lia; apply (Hf e' k'); [by left|right; by exists ip].
Qed.

(** An entry that becomes the last of both lists. *)
Lemma listed_last m t k s : ordered m t -> m !! k = None -> globalOrderElement s = Some (nextElement t) -> ipOrderElement s = Some (S (nextElement t)) ->
  lockedUntil s = zero_time ->
  ordered (<[k := s]> m) (with_failures t (attempts t) (entriesByIP t) (PushBack (nextElement t) k (unlockedFailures t))
    (<[clientIP k := PushBack (S (nextElement t)) k (by_ip t (clientIP k))]> (unlockedFailuresByIP t)) (S (S (nextElement t)))).
Proof.
  intros Hord Hk E1 E2 Hz. destruct (ord_new _ _ (nextElement t) Hord) as [Hn _]; [lia|]. destruct (ord_new _ _ (S (nextElement t)) Hord) as [_ Hni]; [lia|].
  destruct Hord as [Hg Hi Hne Hs Hf]. split.
  - pose proof (linked_insert globalOrderElement any m (unlockedFailures t) k s Hg I Hk) as H. unfold appended in H. rewrite E1 in H. apply H. by intros e [= <-].
  - intros ip. rewrite by_ip_insert. destruct (decide _) as [->|Hip].
    + pose proof (linked_insert ipOrderElement (from (clientIP k)) m _ k s (Hi _) eq_refl Hk) as H. unfold appended in H. rewrite E2 in H. apply H. by intros e [= <-].
    + apply (linked_elsewhere _ _ m _ _ k); [apply Hi|by intros ?|]. intros k' Hk'. by rewrite lookup_insert_ne.
  - cbn. intros ip l [[<- <-]|[_ Hl]]%lookup_insert_Some; [unfold PushBack; by destruct (by_ip t _)|by eapply Hne].
  - intros k' s' [[<- <-]|[_ H']]%lookup_insert_Some; [|by eapply Hs]. unfold placed. by rewrite E1, E2.
  - intros e k' Hin. cbn. enough ((e < nextElement t)%nat \/ e = nextElement t \/ e = S (nextElement t)) by lia. destruct Hin as [Hin|[ip Hin]].
    + cbn in Hin. unfold PushBack in Hin. apply elem_of_app in Hin as [Hin|Hin%list_elem_of_singleton]; [left; apply (Hf e k'); by left|right; left; congruence].
    + rewrite by_ip_insert in Hin. destruct (decide _) as [->|]; [|left; apply (Hf e k'); right; by exists ip]. unfold PushBack in Hin.
      apply elem_of_app in Hin as [Hin|Hin%list_elem_of_singleton]; [left; apply (Hf e k'); right; by eexists|right; right; congruence].
Qed.

(** Counting a failure that does not lead to a lock. *)
Lemma listed_touched m t k s : ordered m t -> (m !! k = None /\ globalOrderElement s = None /\ ipOrderElement s = None \/
    exists s0, m !! k = Some s0 /\ globalOrderElement s = globalOrderElement s0 /\ ipOrderElement s = ipOrderElement s0 /\ lockedUntil s0 = zero_time) ->
  lockedUntil s = zero_time ->
  let '(t', s') := touchUnlockedFailureOrderLocked t k s in ordered (<[k := s']> m) t'.
Proof.
  intros Hord Hk Hz. unfold touchUnlockedFailureOrderLocked. fold (by_ip t (clientIP k)).
  destruct Hk as [(Hk & E1 & E2)|(s0 & Hk & E1 & E2 & Hz0)]; [rewrite E1, E2; by apply listed_last|].
  destruct Hord as [Hg Hi Hne Hs Hf]. specialize (Hs k s0 Hk) as Hp. unfold placed in Hp. rewrite <-E1, <-E2, Hz0 in Hp.
  destruct (globalOrderElement s) as [e|]; [|by destruct (ipOrderElement s)]. destruct (ipOrderElement s) as [ipe|]; [|done].
  split.
  - cbn [unlockedFailures with_failures]. eapply linked_same; [|exact Hk|exact E1]. eapply linked_perm; [symmetry; apply MoveToBack_perm|done].
  - intros ip. rewrite by_ip_insert. destruct (decide _) as [->|Hip].
    + eapply linked_same; [|exact Hk|exact E2]. eapply linked_perm; [symmetry; apply MoveToBack_perm|done].
    + eapply linked_same; [apply Hi|exact Hk|exact E2].
  - cbn. intros ip l [[<- <-]|[_ Hl]]%lookup_insert_Some; [|by eapply Hne]. intros Hnil. pose proof (MoveToBack_perm ipe (by_ip t (clientIP k))) as Hperm. rewrite Hnil in Hperm.
    apply Permutation_nil_l in Hperm. assert (Hin : (ipe, k) ∈ by_ip t (clientIP k)) by (apply Hi; split; [done|]; by exists s0). rewrite <-Hperm in Hin. by apply elem_of_nil in Hin.
  - intros k' s' [[<- <-]|[_ H']]%lookup_insert_Some; [done|by eapply Hs].
  - intros e' k' Hin. cbn. apply (Hf e' k'). destruct Hin as [Hin|[ip Hin]]; [left; cbn in Hin; by rewrite MoveToBack_perm in Hin|right].
    rewrite by_ip_insert in Hin. destruct (decide _) as [->|]; [rewrite MoveToBack_perm in Hin; by eexists|by exists ip].
Qed.

(** *** The tracker *)

Definition failures_ok (t : loginAttemptTracker) : Prop := ordered (attempts t) t /\ counted t.

(** What a call that is about failures leaves as it is. *)
Definition same_checks (t t' : loginAttemptTracker) : Prop :=
  maxEntries t' = maxEntries t /\ maxEntriesPerIP t' = maxEntriesPerIP t /\ maxCredentialCheckIPs t' = maxCredentialCheckIPs t /\
  credentialChecksByIP t' = credentialChecksByIP t /\ credentialCheckOrder t' = credentialCheckOrder t /\ (nextElement t <= nextElement t')%nat.
#[export] Instance same_checks_preorder : PreOrder same_checks.
Proof.
  split; [by intros t; split_and!|]. intros t1 t2 t3 (A1 & A2 & A3 & A4 & A5 & A6) (B1 & B2 & B3 & B4 & B5 & B6). split_and!; try congruence. lia.
Qed.
Lemma same_limits t t' : same_checks t t' -> limits_ok t -> limits_ok t'.
Proof. unfold limits_ok. by intros (-> & -> & -> & _). Qed.

Lemma delete_attempts t k : attempts (deleteEntryLocked t k) = delete k (attempts t) /\ same_checks t (deleteEntryLocked t k).
Proof.
  unfold deleteEntryLocked. destruct (attempts t !! k) as [s|] eqn:Ek; [split; [done|by split_and!]|]. split; [by rewrite delete_id|reflexivity].
Qed.

Lemma ordered_lists m t t' : unlockedFailures t' = unlockedFailures t -> unlockedFailuresByIP t' = unlockedFailuresByIP t -> nextElement t' = nextElement t ->
  ordered m t -> ordered m t'.
Proof.
  intros E1 E2 E3 [Hg Hi Hne Hs Hf]. assert (E4 : forall ip, by_ip t' ip = by_ip t ip) by (intros ip; unfold by_ip; by rewrite E2). split.
  - by rewrite E1.
  - intros ip. by rewrite E4.
  - intros ip l. rewrite E2. apply Hne.
  - done.
  - intros e k. rewrite E1, E3. setoid_rewrite E4. apply Hf.
Qed.

Lemma delete_ok t k : limits_ok t -> failures_ok t -> failures_ok (deleteEntryLocked t k).
Proof.
  intros (Hmax & _) [Hord [Hent Htot Hip]]. unfold deleteEntryLocked. destruct (attempts t !! k) as [s|] eqn:Ek; [|by split]. split.
  - cbn [attempts with_failures]. eapply ordered_lists; [| | |by apply unlisted]; done.
  - assert (Hc : forall ip, count_of (attempts t) ip = if decide (clientIP k = ip) then S (count_of (delete k (attempts t)) ip) else count_of (delete k (attempts t)) ip)
      by (intros ip; by apply entries_delete with s).
    assert (Hsz : size (attempts t) = S (size (delete k (attempts t)))).
    { rewrite <-(insert_delete_id (attempts t) k s) at 1 by done. apply map_size_insert_None, lookup_delete_eq. }
    split; cbn [attempts entriesByIP with_failures maxEntries maxEntriesPerIP removeUnlockedFailureOrderLocked].
    + intros ip. rewrite Hent, kept_default, (Hc (clientIP k)), decide_True by done. specialize (Hc ip). specialize (Hent ip).
      assert (Hle : Z.of_nat (count_of (delete k (attempts t)) (clientIP k)) < maxInt64).
      { pose proof (count_le (delete k (attempts t)) (clientIP k)). lia. }
      destruct (count_of (delete k (attempts t)) (clientIP k)) as [|n] eqn:En.
      * change (Z.of_nat 1 <=? 1) with true. cbn iota. destruct (decide (clientIP k = ip)) as [<-|Hne]; [by rewrite lookup_delete_eq, En|by rewrite lookup_delete_ne, Hent, Hc].
      * rewrite (proj2 (Z.leb_gt _ _)) by lia. replace (Z.of_nat (S (S n)) - 1) with (Z.of_nat (S n)) by lia. rewrite int64_id by (unfold in_int64, minInt64; lia).
        destruct (decide (clientIP k = ip)) as [<-|Hne]; [by rewrite lookup_insert_eq, En|by rewrite lookup_insert_ne, Hent, Hc].
    + lia.
    + intros ip Hne. specialize (Hip ip Hne). rewrite Hc in Hip. destruct (decide _); lia.
Qed.

Lemma failures_pruned t a b : failures_ok t -> failures_ok (with_pruned t a b).
Proof. intros [Hord [H1 H2 H3]]. split; [by apply (ordered_lists _ t)|done]. Qed.

(** A loop that deletes some of the entries. *)
Definition kept (t t' : loginAttemptTracker) (gone : loginAttemptKey -> loginAttemptState -> Prop) : Prop :=
  failures_ok t' /\ same_checks t t' /\
  (forall k s, attempts t' !! k = Some s -> attempts t !! k = Some s) /\
  (forall k s, attempts t !! k = Some s -> attempts t' !! k = Some s \/ gone k s).

Lemma kept_refl t gone : failures_ok t -> kept t t gone.
Proof. intros H. split_and!; [done|reflexivity|done|by left]. Qed.
Lemma kept_trans t1 t2 t3 gone : kept t1 t2 gone -> kept t2 t3 gone -> kept t1 t3 gone.
Proof.
  intros (_ & A2 & A3 & A4) (B1 & B2 & B3 & B4). split_and!; [done|by etrans| |].
  - intros k s Hk. by apply A3, B3.
  - intros k s Hk. destruct (A4 k s Hk) as [H|]; [|by right]. by apply B4.
Qed.
Lemma kept_delete t k (gone : loginAttemptKey -> loginAttemptState -> Prop) : limits_ok t -> failures_ok t ->
  (forall s, attempts t !! k = Some s -> gone k s) -> kept t (deleteEntryLocked t k) gone.
Proof.
  intros Hl Hok Hg. destruct (delete_attempts t k) as [Ha Hs]. split_and!; [by apply delete_ok|done| |].
  - rewrite Ha. by intros k' s [_ ?]%lookup_delete_Some.
  - intros k' s Hk. rewrite Ha. destruct (decide (k = k')) as [<-|Hne]; [right; by apply Hg|left; by rewrite lookup_delete_ne].
Qed.

(** An entry whose lock is not over. *)
Definition live (s : loginAttemptState) (now : Time) : bool := After (lockedUntil s) now.
Definition not_live (now : Time) (k : loginAttemptKey) (s : loginAttemptState) : Prop := live s now = false.


(** *** Room for an entry *)

Definition unlocked (k : loginAttemptKey) (s : loginAttemptState) : Prop := lockedUntil s = zero_time.

Lemma evict_kept t ip : limits_ok t -> failures_ok t ->
  let '(t', room) := evictOldestUnlockedFailureLocked t ip in
  kept t t' unlocked /\
  if room then exists k s, attempts t !! k = Some s /\ unlocked k s /\ attempts t' = delete k (attempts t) /\ match ip with Some ip => clientIP k = ip | None => True end
  else t' = t /\ forall k s, attempts t !! k = Some s -> match ip with Some ip => clientIP k = ip | None => True end -> ~ unlocked k s.
Proof.
  intros Hl Hok. pose proof Hok as [[Hg Hi Hne Hs Hf] _]. unfold evictOldestUnlockedFailureLocked.
  assert (Hcase : exists elem sel l, match ip with None => unlockedFailures t | Some ip => default [] (unlockedFailuresByIP t !! ip) end = l /\
    linked elem sel (attempts t) l /\ (forall k, sel k <-> match ip with Some ip => clientIP k = ip | None => True end) /\
    (forall k s, attempts t !! k = Some s -> is_Some (elem s) <-> unlocked k s)).
  { destruct ip as [ip|]; eexists _, _, _; (split; [reflexivity|]); [split; [apply Hi|]|split; [apply Hg|]]; (split; [done|]);
      intros k s Hk; specialize (Hs k s Hk); unfold placed, unlocked in *; destruct (globalOrderElement s), (ipOrderElement s); try done;
      (split; [by intros []|intros E; by rewrite E in Hs]). }
  destruct Hcase as (elem & sel & l & -> & [Hn Hlink] & Hsel & Helem). destruct l as [|[e k] l].
  - split; [by apply kept_refl|]. split; [done|]. intros k s Hk Hk' Hun. apply (Helem k s Hk) in Hun as [e He].
    assert (Hin : (e, k) ∈ ([] : order loginAttemptKey)) by (apply Hlink; split; [by apply Hsel|by exists s]). by apply elem_of_nil in Hin.
  - destruct (proj1 (Hlink e k) ltac:(left)) as [Hk (s & Hs' & He)]. assert (Hun : unlocked k s) by (apply (Helem k s Hs'); by exists e). split.
    + apply kept_delete; [done|done|]. intros s' E. by assert (s' = s) as -> by congruence.
    + exists k, s. split_and!; [done|done|apply delete_attempts|by apply Hsel].
Qed.

(** Why there is no room for a client. *)
Definition full (t : loginAttemptTracker) (ip : string) : Prop :=
  maxEntriesPerIP t <= Z.of_nat (count_of (attempts t) ip) /\ (forall k s, attempts t !! k = Some s -> clientIP k = ip -> ~ unlocked k s) \/
  maxEntries t <= Z.of_nat (size (attempts t)) /\ (forall k s, attempts t !! k = Some s -> ~ unlocked k s).

Lemma deleted_count t k s : failures_ok t -> attempts t !! k = Some s ->
  Z.of_nat (size (delete k (attempts t))) < maxEntries t /\
  (clientIP k <> EmptyString -> Z.of_nat (count_of (delete k (attempts t)) (clientIP k)) < maxEntriesPerIP t).
Proof.
  intros [_ [_ Htot Hip]] Hk. split.
  - rewrite map_size_delete, Hk. assert (size (attempts t) <> 0%nat) by (apply map_size_ne_0_lookup_2 with k; by exists s). lia.
  - intros Hne. specialize (Hip _ Hne). rewrite (entries_delete _ k s), decide_True in Hip by done. lia.
Qed.

Lemma room_made t ip : limits_ok t -> failures_ok t ->
  let '(t', room) := ensureFailureCapacityLocked t ip in
  kept t t' unlocked /\
  if room then Z.of_nat (size (attempts t')) < maxEntries t /\ (ip <> EmptyString -> Z.of_nat (count_of (attempts t') ip) < maxEntriesPerIP t)
  else t' = t /\ full t ip.
Proof.
  intros Hl Hok. pose proof Hok as [_ [Hent Htot Hip]]. pose proof Hl as ((Hm & _) & (Hp & _) & _). unfold ensureFailureCapacityLocked.
  rewrite Hent, kept_default, (proj2 (Z.ltb_lt 0 (maxEntriesPerIP t))) by done. cbn [andb].
  destruct (Z.leb_spec (maxEntriesPerIP t) (Z.of_nat (count_of (attempts t) ip))) as [Hfull|Hroom].
  - pose proof (evict_kept t (order_of ip) Hl Hok) as He. destruct (evictOldestUnlockedFailureLocked t (order_of ip)) as [t1 [|]]; cbn [negb].
    + destruct He as (Hk & k & s & Hks & _ & Ha & Hc). destruct (deleted_count t k s Hok Hks) as [D1 D2].
      destruct Hk as (H1 & H2 & H3). assert (maxEntries t1 = maxEntries t) as -> by apply H2. rewrite Ha, (proj2 (Z.leb_gt _ _)), andb_false_r by done. split; [done|]. rewrite Ha. split; [done|].
      intros Hne. unfold order_of in Hc. destruct (String.eqb_spec ip EmptyString); [done|]. subst ip. by apply D2.
    + destruct He as (Hk & -> & Hno). split; [done|]. split; [done|]. left. split; [done|]. intros k s Hks Hc. apply (Hno k s Hks).
      unfold order_of. by destruct (String.eqb_spec ip EmptyString).
  - cbn [negb]. rewrite (proj2 (Z.ltb_lt 0 (maxEntries t))) by done. cbn [andb].
    destruct (Z.leb_spec (maxEntries t) (Z.of_nat (size (attempts t)))) as [Hfull|Hsz]; [|split; [by apply kept_refl|done]].
    pose proof (evict_kept t None Hl Hok) as He. destruct (evictOldestUnlockedFailureLocked t None) as [t1 [|]].
    + destruct He as (Hk & k & s & Hks & _ & Ha & _). destruct (deleted_count t k s Hok Hks) as [D1 _]. split; [done|]. rewrite Ha. split; [done|].
      intros _. enough (count_of (delete k (attempts t)) ip <= count_of (attempts t) ip)%nat by lia. rewrite (entries_delete (attempts t) k s) by done. destruct (decide _); lia.
    + destruct He as (Hk & -> & Hno). split; [done|]. split; [done|]. right. split; [done|]. intros k s Hks. by apply (Hno k s Hks).
Qed.

(** *** Counting a failure *)

(** The readings of the clock are in the present era, and a lock does not end before it begins. *)
Definition reading_ok (now : Time) : Prop := zero_instant < wall now.

(** An entry after one more failure. *)
Definition failed_again (old : Z) (limit lockDuration : Z) (now : Time) (s : loginAttemptState) : Prop :=
  failures s = int64 (old + 1) /\ lastFailure s = now /\
  lockedUntil s = if limit <=? int64 (old + 1) then Add now lockDuration else zero_time.

Lemma lock_nonzero now d : reading_ok now -> 0 <= d -> IsZero (Add now d) = false.
Proof. unfold reading_ok, IsZero, Add. cbn [wall]. intros H1 H2. apply Z.eqb_neq. lia. Qed.
Lemma locked_answer old limit d now s : reading_ok now -> 0 <= d -> failed_again old limit d now s -> negb (IsZero (lockedUntil s)) = (limit <=? int64 (old + 1)).
Proof. intros H1 H2 (_ & _ & ->). destruct (_ <=? _); [by rewrite lock_nonzero|done]. Qed.

Lemma counted_arrival t t' k s : limits_ok t -> counted t -> attempts t !! k = None -> attempts t' = <[k := s]> (attempts t) ->
  entriesByIP t' = <[clientIP k := int64 (default 0 (entriesByIP t !! clientIP k) + 1)]> (entriesByIP t) -> same_checks t t' ->
  Z.of_nat (size (attempts t)) < maxEntries t -> (clientIP k <> EmptyString -> Z.of_nat (count_of (attempts t) (clientIP k)) < maxEntriesPerIP t) ->
  counted t'.
Proof.
  intros (Hmax & _) [Hent Htot Hip] Hk Ea Ee (E1 & E2 & _) Hsz Hroom. split.
  - intros ip. rewrite Ea, Ee, entries_insert, Hent, kept_default by done. pose proof (count_le (attempts t) (clientIP k)).
    rewrite int64_id by (unfold in_int64, minInt64; lia). destruct (decide (clientIP k = ip)) as [<-|Hne].
    + rewrite lookup_insert_eq. cbn [kept_count]. f_equal. lia.
    + by rewrite lookup_insert_ne.
  - rewrite Ea, E1, map_size_insert_None by done. lia.
  - intros ip Hne. rewrite Ea, E2, entries_insert by done. specialize (Hip ip Hne). destruct (decide (clientIP k = ip)) as [<-|]; [specialize (Hroom Hne); lia|done].
Qed.

Lemma counted_again t t' k s s0 : counted t -> attempts t !! k = Some s0 -> attempts t' = <[k := s]> (attempts t) -> entriesByIP t' = entriesByIP t ->
  same_checks t t' -> counted t'.
Proof.
  intros [Hent Htot Hip] Hk Ea Ee (E1 & E2 & _). split.
  - intros ip. by rewrite Ea, Ee, (count_replace _ _ _ s0).
  - by rewrite Ea, E1, map_size_insert_Some by (by exists s0).
  - intros ip Hne. rewrite Ea, E2, (count_replace _ _ _ s0) by done. by apply Hip.
Qed.

(** What [count_failure] does to the entries. *)
Lemma count_failure_parts t key state limit d now : lockedUntil state = zero_time ->
  let '(t', locked) := count_failure t key state limit d now in
  same_checks t t' /\ entriesByIP t' = entriesByIP t /\
  exists s, attempts t' = <[key := s]> (attempts t) /\ failed_again (failures state) limit d now s /\ locked = negb (IsZero (lockedUntil s)).
Proof.
  intros Hz. unfold count_failure. set (counted := int64 _). destruct (limit <=? counted) eqn:El.
  - split; [by split_and!|]. split; [done|]. eexists. split; [reflexivity|]. split; [|done]. unfold failed_again. fold counted. by rewrite El.
  - unfold touchUnlockedFailureOrderLocked. destruct (globalOrderElement _), (ipOrderElement _); cbn;
      (split; [split_and!; cbn; done || lia|]); (split; [done|]); (eexists; split; [reflexivity|]); (split; [|done]);
      unfold failed_again; fold counted; by rewrite El.
Qed.

Lemma count_failure_ordered t key state limit d now : ordered (attempts t) t -> reading_ok now -> 0 <= d -> lockedUntil state = zero_time ->
  (attempts t !! key = None /\ state = no_attempts \/ attempts t !! key = Some state) ->
  let '(t', _) := count_failure t key state limit d now in ordered (attempts t') t'.
Proof.
  intros Hord Hnow Hd Hz Hk. unfold count_failure. set (counted := int64 _). destruct (limit <=? counted).
  - set (state' := {| failures := counted; lockedUntil := Add now d |}). cbn [attempts set_attempt with_failures removeUnlockedFailureOrderLocked].
    destruct Hk as [[Hk ->]|Hk].
    + eapply ordered_lists; [| | |apply listed_locked; [exact Hord|exact Hk|done|done|by apply lock_nonzero]]; done.
    + rewrite <-(insert_delete_eq (attempts t) key). eapply ordered_lists; [| | |apply listed_locked; [by apply (unlisted _ t key state)|apply lookup_delete_eq|done|done|by apply lock_nonzero]]; try done.
  - match goal with |- context [touchUnlockedFailureOrderLocked t key ?s] => set (state' := s) end.
    pose proof (listed_touched (attempts t) t key state' Hord) as H. destruct (touchUnlockedFailureOrderLocked t key state') as [t' s'] eqn:Et.
    assert (Ea : attempts t' = attempts t).
    { unfold touchUnlockedFailureOrderLocked in Et. destruct (globalOrderElement state'), (ipOrderElement state'); by injection Et as <- <-. }
    cbn [attempts set_attempt with_failures]. rewrite Ea. eapply ordered_lists; [| | |apply H]; try done.
    destruct Hk as [[Hk ->]|Hk]; [by left|right]. by exists state.
Qed.

(** *** The calls *)

(** The entry that counts at [now]: not one whose lock or window is over. *)
Definition current (t : loginAttemptTracker) (key : loginAttemptKey) (window : Z) (now : Time) : option loginAttemptState :=
  match attempts t !! key with
  | None => None
  | Some s =>
    if live s now then Some s
    else if negb (IsZero (lockedUntil s)) || loginAttemptFailureExpired s now window then None else Some s
  end.

Lemma unlocked_not_live now k s : reading_ok now -> unlocked k s -> live s now = false.
Proof. unfold reading_ok, unlocked, live. intros Hn ->. unfold After, on_clocks. cbn [mono zero_time at_wall wall]. apply Z.ltb_ge. unfold zero_instant in *. lia. Qed.

Lemma kept_weaken t t' (P Q : loginAttemptKey -> loginAttemptState -> Prop) : (forall k s, P k s -> Q k s) -> kept t t' P -> kept t t' Q.
Proof. intros HPQ (H1 & H2 & H3 & H4). split_and!; try done. intros k s Hk. destruct (H4 k s Hk); [by left|right; by apply HPQ]. Qed.
Lemma kept_live t t' now k s : kept t t' (not_live now) -> attempts t !! k = Some s -> live s now = true -> attempts t' !! k = Some s.
Proof. intros (_ & _ & _ & H) Hk Hl. destruct (H k s Hk) as [|Hn]; [done|]. unfold not_live in Hn. congruence. Qed.

(** An entry without lock that is still in its window leaves only to make room. *)
Definition over (window : Z) (now : Time) (k : loginAttemptKey) (s : loginAttemptState) : Prop :=
  live s now = false /\ (negb (IsZero (lockedUntil s)) || loginAttemptFailureExpired s now window) = true.
Lemma over_not_live window now k s : over window now k s -> not_live now k s.
Proof. by intros [H _]. Qed.

Lemma prune_over t now window : limits_ok t -> failures_ok t -> kept t (pruneExpiredIfDueLocked t now window) (over window now).
Proof.
  intros Hl Hok. unfold pruneExpiredIfDueLocked. destruct (_ && _); [by apply kept_refl|].
  assert (Hfold : forall l t1, kept t t1 (over window now) -> Forall (fun '(k, s) => attempts t !! k = Some s) l ->
    kept t (fold_left (prune_entry now window) l t1) (over window now)).
  { induction l as [|[k s] l IH]; intros t1 Ht1 Hall; [done|]. apply Forall_cons in Hall as [Hk Hall]. cbn [fold_left]. apply IH; [|done].
    assert (Hdel : over window now k s -> kept t (deleteEntryLocked t1 k) (over window now)).
    { intros Hover. eapply kept_trans; [exact Ht1|]. destruct Ht1 as (Hok1 & Hs1 & Hsub & _). apply kept_delete; [by eapply same_limits|done|].
      intros s' Hs'. apply Hsub in Hs'. by assert (s' = s) as -> by congruence. }
    unfold over in Hdel. cbn [prune_entry]. fold (live s now). destruct (live s now) eqn:El; [done|]. destruct (IsZero (lockedUntil s)) eqn:Ez; cbn [negb andb orb] in *; [|by apply Hdel].
    destruct (loginAttemptFailureExpired s now window); [by apply Hdel|done]. }
  destruct (Hfold (map_to_list (attempts t)) t) as (H1 & H2 & H3 & H4); [by apply kept_refl| |].
  - apply Forall_forall. intros [k s] Hin. by apply elem_of_map_to_list.
  - by split_and!; [apply failures_pruned| | |].
Qed.

Lemma kept_current t t' key window now : kept t t' (over window now) -> current t' key window now = current t key window now.
Proof.
  intros (_ & _ & Hsub & Hkeep). unfold current. destruct (attempts t' !! key) as [s'|] eqn:E'.
  - by rewrite (Hsub _ _ E').
  - destruct (attempts t !! key) as [s|] eqn:E; [|done]. destruct (Hkeep _ _ E) as [|[Hl Ho]]; [congruence|]. by rewrite Hl, Ho.
Qed.

Lemma isLocked_spec t key window now : limits_ok t -> failures_ok t ->
  let '(t', locked) := isLocked t key window now in
  kept t t' (over window now) /\ locked = match current t key window now with Some s => live s now | None => false end.
Proof.
  intros Hl Hok. unfold isLocked. pose proof (prune_over t now window Hl Hok) as Hk. rewrite <-(kept_current _ _ key _ _ Hk).
  set (t1 := pruneExpiredIfDueLocked t now window) in *. pose proof Hk as (Hok1 & Hs1 & _). unfold current.
  destruct (attempts t1 !! key) as [s|] eqn:Es; [|done]. fold (live s now). destruct (live s now) eqn:El; [by rewrite El|].
  destruct (negb (IsZero _) || _) eqn:Eo; [|by rewrite El]. split; [|done]. eapply kept_trans; [exact Hk|]. apply kept_delete; [by eapply same_limits|done|].
  intros s' E. by assert (s' = s) as -> by congruence.
Qed.

(** What [recordFailure] leaves: the other entries, but those that are over or make room, and every live one. *)
Definition others (t t' : loginAttemptTracker) (key : loginAttemptKey) (now : Time) : Prop :=
  failures_ok t' /\ same_checks t t' /\
  (forall k s, k <> key -> attempts t' !! k = Some s -> attempts t !! k = Some s) /\
  (forall k s, attempts t !! k = Some s -> live s now = true -> attempts t' !! k = Some s).

(** An entry that is counted again, after the expired ones were pruned. *)
Lemma counts_again t t1 key s limit window d now : failures_ok t1 -> kept t t1 (over window now) -> reading_ok now -> 0 <= d ->
  attempts t1 !! key = Some s -> live s now = false -> IsZero (lockedUntil s) = true ->
  let '(t', locked) := count_failure t1 key s limit d now in
  others t t' key now /\ locked = (limit <=? int64 (failures s + 1)) /\ exists s', attempts t' !! key = Some s' /\ failed_again (failures s) limit d now s'.
Proof.
  intros Hok1 Hk Hnow Hd Es Hlive Hz. pose proof Hk as (_ & Hs1 & Hsub1 & _).
  assert (Hlive1 : forall k s, attempts t !! k = Some s -> live s now = true -> attempts t1 !! k = Some s).
  { intros k sk. apply kept_live. eapply kept_weaken; [apply over_not_live|exact Hk]. }
  destruct Hok1 as [Hord Hcnt]. pose proof (ord_state _ _ Hord _ _ Es) as Hp. unfold placed in Hp.
  assert (Hz0 : lockedUntil s = zero_time) by (destruct (globalOrderElement s), (ipOrderElement s); try done; congruence).
  pose proof (count_failure_parts t1 key s limit d now Hz0) as Hparts. pose proof (count_failure_ordered t1 key s limit d now Hord Hnow Hd Hz0 (or_intror Es)) as Hord'.
  destruct (count_failure t1 key s limit d now) as [t' locked]. destruct Hparts as (Hs' & Ee & s' & Ea & Hf & ->). split_and!.
  - split_and!; [split; [done|by apply (counted_again t1 t' key s' s)]|by etrans| |].
    + intros k sk Hne. rewrite Ea, lookup_insert_ne by done. apply Hsub1.
    + intros k sk Hsk Hlk. specialize (Hlive1 k sk Hsk Hlk). rewrite Ea. destruct (decide (key = k)) as [<-|Hne]; [congruence|by rewrite lookup_insert_ne].
  - by apply (locked_answer _ _ d now).
  - exists s'. by rewrite Ea, lookup_insert_eq.
Qed.

(** An entry that begins. *)
Lemma counts_anew t t2 key limit window d now : limits_ok t -> kept t t2 (over window now) -> reading_ok now -> 0 <= d -> attempts t2 !! key = None ->
  let '(t', locked) := (let '(t3, room) := ensureFailureCapacityLocked t2 (clientIP key) in
    if negb room then (t3, false) else count_failure (count_entry t3 (clientIP key)) key no_attempts limit d now) in
  others t t' key now /\
  ((locked = (limit <=? 1) /\ exists s', attempts t' !! key = Some s' /\ failed_again 0 limit d now s') \/
   (locked = false /\ attempts t' !! key = None /\ full t' (clientIP key))).
Proof.
  intros Hl Hk2 Hnow Hd Hnone. pose proof Hk2 as (Hok2 & Hs2 & Hsub2 & _). pose proof (room_made t2 (clientIP key) (same_limits _ _ Hs2 Hl) Hok2) as Hroom.
  destruct (ensureFailureCapacityLocked t2 (clientIP key)) as [t3 room]. destruct Hroom as [Hk3 Hroom].
  assert (Hkt : kept t t3 (not_live now)).
  { eapply kept_trans; [eapply kept_weaken; [apply over_not_live|exact Hk2]|]. eapply kept_weaken; [|exact Hk3]. intros k s. by apply unlocked_not_live. }
  pose proof Hkt as (Hok3 & Hs3 & Hsub3 & _). pose proof Hok3 as [Hord3 Hcnt3].
  assert (Hnone3 : attempts t3 !! key = None).
  { destruct (attempts t3 !! key) as [s|] eqn:E; [|done]. destruct Hk3 as (_ & _ & Hsub & _). apply Hsub in E. congruence. }
  destruct room; cbn [negb].
  2:{ destruct Hroom as [-> Hfull]. split; [|by right]. split_and!; [done|done|intros k s _; apply Hsub3|]. intros k s. by apply kept_live. }
  set (t4 := count_entry t3 (clientIP key)).
  assert (Hord4 : ordered (attempts t4) t4) by (by apply (ordered_lists _ t3)).
  pose proof (count_failure_parts t4 key no_attempts limit d now eq_refl) as Hparts.
  pose proof (count_failure_ordered t4 key no_attempts limit d now Hord4 Hnow Hd eq_refl (or_introl (conj Hnone3 eq_refl))) as Hord'.
  destruct (count_failure t4 key no_attempts limit d now) as [t' locked]. destruct Hparts as (Hs' & Ee & s' & Ea & Hf & ->). change (attempts t4) with (attempts t3) in Ea.
  assert (Hs3' : same_checks t3 t') by exact Hs'. assert (Elim : maxEntries t3 = maxEntries t2 /\ maxEntriesPerIP t3 = maxEntriesPerIP t2) by (destruct Hk3 as (_ & (E1 & E2 & _) & _); done).
  split.
  - split_and!; [split; [done|]|by etrans| |].
    + eapply (counted_arrival t3 t' key s'); [by apply (same_limits _ _ Hs3)|done|done|done|exact Ee|done| |]; destruct Elim as [E1 E2]; rewrite ?E1, ?E2; apply Hroom.
    + intros k sk Hne. rewrite Ea, lookup_insert_ne by done. apply Hsub3.
    + intros k sk Hsk Hlk. pose proof (kept_live _ _ _ _ _ Hkt Hsk Hlk) as Hin. rewrite Ea. destruct (decide (key = k)) as [<-|Hne]; [congruence|by rewrite lookup_insert_ne].
  - left. split; [by apply (locked_answer 0 _ d now)|]. exists s'. by rewrite Ea, lookup_insert_eq.
Qed.

Lemma recordFailure_spec t key limit window d now : limits_ok t -> failures_ok t -> reading_ok now -> 0 <= d ->
  let '(t', locked) := recordFailure t key limit window d now in
  others t t' key now /\
  match current t key window now with
  | Some s =>
    if live s now then locked = true
    else locked = (limit <=? int64 (failures s + 1)) /\ exists s', attempts t' !! key = Some s' /\ failed_again (failures s) limit d now s'
  | None =>
    (locked = (limit <=? 1) /\ exists s', attempts t' !! key = Some s' /\ failed_again 0 limit d now s') \/
    (locked = false /\ attempts t' !! key = None /\ full t' (clientIP key))
  end.
Proof.
  intros Hl Hok Hnow Hd. unfold recordFailure. pose proof (prune_over t now window Hl Hok) as Hk. rewrite <-(kept_current _ _ key _ _ Hk).
  set (t1 := pruneExpiredIfDueLocked t now window) in *. pose proof Hk as (Hok1 & Hs1 & Hsub1 & _).
  unfold current. destruct (attempts t1 !! key) as [s|] eqn:Es; [|by eapply counts_anew].
  fold (live s now). destruct (live s now) eqn:El; cbn [negb]; [rewrite El; split; [split_and!; [done|done|intros k sk _; apply Hsub1|]; intros k sk; apply kept_live; eapply kept_weaken; [apply over_not_live|exact Hk]|done]|].
  rewrite andb_true_r. destruct (negb (IsZero (lockedUntil s)) || loginAttemptFailureExpired s now window) eqn:Eo.
  - eapply counts_anew; try done; [|rewrite (proj1 (delete_attempts t1 key)); apply lookup_delete_eq]. eapply kept_trans; [exact Hk|]. apply kept_delete; [by eapply same_limits|done|].
    intros s' E. by assert (s' = s) as -> by congruence.
  - rewrite El. eapply counts_again; try done. apply orb_false_iff in Eo as [Eo _]. by apply negb_false_iff in Eo.
Qed.

(** Removing an entry by hand, after a login. *)
Lemma reset_spec t key : limits_ok t -> failures_ok t ->
  failures_ok (reset t key) /\ same_checks t (reset t key) /\ attempts (reset t key) = delete key (attempts t).
Proof. intros Hl Hok. destruct (delete_attempts t key). by split_and!; [apply delete_ok| |]. Qed.
End LoginThrottleSpec.
