(* ===== verification/LoginChecks.v ===== *)
(** * The login throttle: password checks

    The order of the clients whose checks are counted is exact and bounded, a call decides by the checks of the
    current window, and a client has at most twice the limit of checks in any time as long as a window, unless
    it was evicted. *)

From Stdlib Require Import Ascii.
From S2P Require Import Prelude GoTime MonoTime LoginThrottle LoginThrottleSpec.
Import MonoTime LoginThrottle LoginThrottleSpec.

Module LoginChecks.

Notation checks_table := (gmap string loginCredentialCheckState).
Definition any_ip (ip : string) : Prop := True.

Record checks_ok (t : loginAttemptTracker) : Prop := {
  chk_order : linked orderElement any_ip (credentialChecksByIP t) (credentialCheckOrder t);
  chk_state ip s : credentialChecksByIP t !! ip = Some s -> is_Some (orderElement s) /\ 0 <= checks s <= maxInt64;
  chk_fresh e ip : (e, ip) ∈ credentialCheckOrder t -> (e < nextElement t)%nat;
  chk_total : Z.of_nat (size (credentialChecksByIP t)) <= maxCredentialCheckIPs t }.

(** What a call that is about password checks leaves as it is. *)
Definition same_failures (t t' : loginAttemptTracker) : Prop :=
  maxEntries t' = maxEntries t /\ maxEntriesPerIP t' = maxEntriesPerIP t /\ maxCredentialCheckIPs t' = maxCredentialCheckIPs t /\
  attempts t' = attempts t /\ entriesByIP t' = entriesByIP t /\ unlockedFailures t' = unlockedFailures t /\
  unlockedFailuresByIP t' = unlockedFailuresByIP t /\ (nextElement t <= nextElement t')%nat.
#[export] Instance same_failures_preorder : PreOrder same_failures.
Proof.
  split; [by intros t; split_and!|].
  intros t1 t2 t3 (A1 & A2 & A3 & A4 & A5 & A6 & A7 & A8) (B1 & B2 & B3 & B4 & B5 & B6 & B7 & B8). split_and!; try congruence. lia.
Qed.

Lemma failures_kept t t' : same_failures t t' -> failures_ok t -> failures_ok t'.
Proof.
  intros (E1 & E2 & E3 & E4 & E5 & E6 & E7 & E8) [[Hg Hi Hne Hs Hf] [Hent Htot Hip]].
  assert (Eb : forall ip, by_ip t' ip = by_ip t ip) by (intros ip; unfold by_ip; by rewrite E7). split; split; rewrite ?E4, ?E5, ?E6, ?E1, ?E2; try done.
  - intros ip. by rewrite Eb.
  - intros ip l. rewrite E7. apply Hne.
  - intros e k. setoid_rewrite Eb. intros H. apply Hf in H. lia.
Qed.
Lemma checks_kept t t' : same_checks t t' -> checks_ok t -> checks_ok t'.
Proof.
  intros (E1 & E2 & E3 & E4 & E5 & E6) [Ho Hs Hf Ht]. split; rewrite ?E3, ?E4, ?E5; try done. intros e ip H. apply Hf in H. lia.
Qed.

(** ** Deleting *)

Definition checks_gone (t t' : loginAttemptTracker) (gone : string -> loginCredentialCheckState -> Prop) : Prop :=
  checks_ok t' /\ same_failures t t' /\
  (forall ip s, credentialChecksByIP t' !! ip = Some s -> credentialChecksByIP t !! ip = Some s) /\
  (forall ip s, credentialChecksByIP t !! ip = Some s -> credentialChecksByIP t' !! ip = Some s \/ gone ip s).

Lemma gone_refl t gone : checks_ok t -> checks_gone t t gone.
Proof. intros H. split_and!; [done|reflexivity|done|by left]. Qed.
Lemma gone_trans t1 t2 t3 gone : checks_gone t1 t2 gone -> checks_gone t2 t3 gone -> checks_gone t1 t3 gone.
Proof.
  intros (_ & A2 & A3 & A4) (B1 & B2 & B3 & B4). split_and!; [done|by etrans| |].
  - intros ip s H. by apply A3, B3.
  - intros ip s H. destruct (A4 ip s H) as [H'|]; [by apply B4|by right].
Qed.

Lemma delete_check_ok t ip : checks_ok t ->
  credentialChecksByIP (deleteCredentialCheckLocked t ip) = delete ip (credentialChecksByIP t) /\ checks_ok (deleteCredentialCheckLocked t ip) /\
  same_failures t (deleteCredentialCheckLocked t ip).
Proof.
  intros [Ho Hs Hf Ht]. unfold deleteCredentialCheckLocked. destruct (credentialChecksByIP t !! ip) as [s|] eqn:E.
  - split; [done|]. split; [|by split_and!]. split; cbn [credentialChecksByIP credentialCheckOrder with_checks nextElement maxCredentialCheckIPs].
    + apply (linked_delete orderElement any_ip _ _ ip s Ho I E).
    + intros ip' s' [_ H]%lookup_delete_Some. by eapply Hs.
    + intros e ip' H. apply (Hf e ip'). by apply (dropped_sub orderElement s).
    + rewrite map_size_delete, E. lia.
  - split; [by rewrite delete_id|]. split; [by split|reflexivity].
Qed.
Lemma gone_delete t ip (gone : string -> loginCredentialCheckState -> Prop) : checks_ok t ->
  (forall s, credentialChecksByIP t !! ip = Some s -> gone ip s) -> checks_gone t (deleteCredentialCheckLocked t ip) gone.
Proof.
  intros Hok Hg. destruct (delete_check_ok t ip Hok) as (E & Hok' & Hs). split_and!; [done|done| |]; intros ip' s; rewrite E.
  - by intros [_ ?]%lookup_delete_Some.
  - intros H. destruct (decide (ip = ip')) as [<-|Hne]; [right; by apply Hg|left; by rewrite lookup_delete_ne].
Qed.

Lemma prune_checks_gone t now window : checks_ok t -> checks_gone t (pruneCredentialChecksIfDueLocked t now window) (fun _ s => window_over s now window = true).
Proof.
  intros Hok. unfold pruneCredentialChecksIfDueLocked. destruct (_ && _); [by apply gone_refl|]. set (gone := fun _ s => _).
  assert (Hfold : forall l t1, checks_gone t t1 gone -> Forall (fun '(ip, s) => credentialChecksByIP t !! ip = Some s) l ->
    checks_gone t (fold_left (prune_check now window) l t1) gone).
  { induction l as [|[ip s] l IH]; intros t1 Ht1 Hall; [done|]. apply Forall_cons in Hall as [Hk Hall]. cbn [fold_left]. apply IH; [|done].
    cbn [prune_check]. destruct (window_over s now window) eqn:Ew; [|done]. eapply gone_trans; [exact Ht1|]. destruct Ht1 as (Hok1 & _ & Hsub & _).
    apply gone_delete; [done|]. intros s' Hs'. apply Hsub in Hs'. unfold gone. by assert (s' = s) as -> by congruence. }
  destruct (Hfold (map_to_list (credentialChecksByIP t)) t) as ([H1 H2 H3 H4] & (H5 & H6 & H7 & H8 & H9 & H10 & H11 & H12) & Hsub & Hkeep); [by apply gone_refl| |].
  - apply Forall_forall. intros [ip s] Hin. by apply elem_of_map_to_list.
  - split; [by split|]. split; [by split_and!|done].
Qed.

(** ** Room for a client *)

Lemma room_for_client t : limits_ok t -> checks_ok t ->
  let t' := ensureCredentialCheckCapacityLocked t in
  Z.of_nat (size (credentialChecksByIP t')) < maxCredentialCheckIPs t' /\
  checks_gone t t' (fun _ _ => maxCredentialCheckIPs t <= Z.of_nat (size (credentialChecksByIP t))).
Proof.
  intros (_ & _ & Hm & _) Hok. cbv zeta. unfold ensureCredentialCheckCapacityLocked. rewrite (proj2 (Z.leb_gt _ _)) by lia. cbn [orb].
  destruct (Z.ltb_spec (Z.of_nat (size (credentialChecksByIP t))) (maxCredentialCheckIPs t)) as [Hlt|Hge]; [split; [done|by apply gone_refl]|].
  pose proof Hok as [[Hn Hl] Hs Hf Ht]. destruct (credentialCheckOrder t) as [|[e ip] l].
  - exfalso. assert (Hsz : size (credentialChecksByIP t) <> 0%nat) by lia. apply map_size_ne_0_lookup in Hsz as (ip & s & Hip).
    destruct (Hs ip s Hip) as [[e He] _]. assert (Hin : (e, ip) ∈ ([] : order string)) by (apply Hl; split; [done|by exists s]). by apply elem_of_nil in Hin.
  - destruct (proj1 (Hl e ip) ltac:(left)) as [_ (s & Hip & He)]. destruct (delete_check_ok t ip Hok) as (E & Hok' & Hsame). split.
    + rewrite E, map_size_delete, Hip. assert (maxCredentialCheckIPs (deleteCredentialCheckLocked t ip) = maxCredentialCheckIPs t) as -> by apply Hsame.
      assert (size (credentialChecksByIP t) <> 0%nat) by (apply map_size_ne_0_lookup_2 with ip; by exists s). lia.
    + by apply gone_delete.
Qed.

(** ** A check *)

(** The window of a client that counts at [now]. *)
Definition current_window (t : loginAttemptTracker) (ip : string) (window : Z) (now : Time) : option loginCredentialCheckState :=
  match credentialChecksByIP t !! ip with
  | Some s => if window_over s now window then None else Some s
  | None => None
  end.

Lemma gone_window t t' ip window now : checks_gone t t' (fun _ s => window_over s now window = true) -> current_window t' ip window now = current_window t ip window now.
Proof.
  intros (_ & _ & Hsub & Hkeep). unfold current_window. destruct (credentialChecksByIP t' !! ip) as [s'|] eqn:E'.
  - by rewrite (Hsub _ _ E').
  - destruct (credentialChecksByIP t !! ip) as [s|] eqn:E; [|done]. destruct (Hkeep _ _ E) as [|Hg]; [congruence|by rewrite Hg].
Qed.

(** The window after the check was counted or refused. *)
Definition counted_check (s s' : loginCredentialCheckState) (limit : Z) : Prop :=
  windowStartedAt s' = windowStartedAt s /\ checks s' = if limit <=? checks s then checks s else checks s + 1.

Lemma count_check_spec t ip s limit : checks_ok (with_checks t (<[ip := s]> (credentialChecksByIP t)) (credentialCheckOrder t) (nextElement t)) -> limit <= maxInt64 ->
  let '(t', ok) := count_check t ip s limit in
  checks_ok t' /\ same_failures t t' /\ ok = negb (limit <=? checks s) /\
  exists s', credentialChecksByIP t' = <[ip := s']> (credentialChecksByIP t) /\ counted_check s s' limit.
Proof.
  intros Hok Hlim. unfold count_check, counted_check. destruct (Z.leb_spec limit (checks s)) as [Hle|Hgt].
  - split; [done|]. split; [by split_and!|]. split; [done|]. by exists s.
  - pose proof Hok as [Ho Hs Hf Ht]. cbn [credentialChecksByIP credentialCheckOrder with_checks nextElement maxCredentialCheckIPs] in *.
    destruct (Hs ip s ltac:(apply lookup_insert_eq)) as [He Hc]. assert (Hint : int64 (checks s + 1) = checks s + 1) by (apply int64_id; unfold in_int64, minInt64; lia).
    split; [|split; [by split_and!|split; [done|]]].
    + split; cbn [credentialChecksByIP credentialCheckOrder with_checks nextElement maxCredentialCheckIPs].
      * rewrite <-(insert_insert_eq (credentialChecksByIP t) ip _ s). eapply linked_same; [exact Ho|apply lookup_insert_eq|done].
      * intros ip' s' [[<- <-]|[Hne H]]%lookup_insert_Some; [cbn [orderElement checks]; rewrite Hint; split; [done|lia]|].
        apply (Hs ip'). by rewrite lookup_insert_ne.
      * done.
      * etrans; [|exact Ht]. rewrite <-(insert_insert_eq (credentialChecksByIP t) ip _ s). rewrite map_size_insert_Some by (exists s; apply lookup_insert_eq). done.
    + eexists. split; [reflexivity|]. cbn [windowStartedAt checks]. by rewrite Hint.
Qed.

Lemma check_begins t ip now limit : limits_ok t -> checks_ok t -> credentialChecksByIP t !! ip = None -> 0 < limit <= maxInt64 ->
  let t1 := ensureCredentialCheckCapacityLocked t in
  let '(t', ok) := count_check (with_checks t1 (credentialChecksByIP t1) (PushBack (nextElement t1) ip (credentialCheckOrder t1)) (S (nextElement t1)))
    ip {| windowStartedAt := now; checks := 0; orderElement := Some (nextElement t1) |} limit in
  checks_ok t' /\ same_failures t t' /\ ok = true /\
  (exists s', credentialChecksByIP t' !! ip = Some s' /\ windowStartedAt s' = now /\ checks s' = 1) /\
  (forall ip' s, ip' <> ip -> credentialChecksByIP t' !! ip' = Some s -> credentialChecksByIP t !! ip' = Some s) /\
  (forall ip' s, credentialChecksByIP t !! ip' = Some s ->
     credentialChecksByIP t' !! ip' = Some s \/ maxCredentialCheckIPs t <= Z.of_nat (size (credentialChecksByIP t))).
Proof.
  intros Hl Hok Hnone Hlim. cbv zeta. destruct (room_for_client t Hl Hok) as [Hroom Hgone]. set (t1 := ensureCredentialCheckCapacityLocked t) in *.
  set (s := {| windowStartedAt := now; checks := 0; orderElement := Some (nextElement t1) |}).
  pose proof Hgone as ([Ho Hs Hf Ht] & Hsame & Hsub & Hkeep).
  assert (Hnone1 : credentialChecksByIP t1 !! ip = None) by (destruct (credentialChecksByIP t1 !! ip) eqn:E; [apply Hsub in E; congruence|done]).
  set (t2 := with_checks t1 (credentialChecksByIP t1) (PushBack (nextElement t1) ip (credentialCheckOrder t1)) (S (nextElement t1))).
  pose proof (count_check_spec t2 ip s limit) as Hcount. destruct (count_check t2 ip s limit) as [t' ok].
  destruct Hcount as (H1 & H2 & H3 & s' & Ea & Hw & Hc); [|lia|].
  - split; cbn [t2 credentialChecksByIP credentialCheckOrder with_checks nextElement maxCredentialCheckIPs].
    + pose proof (linked_insert orderElement any_ip _ (credentialCheckOrder t1) ip s Ho I Hnone1) as H. apply H. intros e He Hin. injection He as <-.
      apply list_elem_of_fmap in Hin as ([e' ip'] & E & Hin). cbn in E. apply Hf in Hin. lia.
    + intros ip' s1 [[<- <-]|[_ H]]%lookup_insert_Some; [|by eapply Hs]. split; [by eexists|]. cbn. unfold maxInt64. lia.
    + unfold PushBack. intros e ip' [Hin|Hin%list_elem_of_singleton]%elem_of_app; [apply Hf in Hin; lia|]. injection Hin as -> _. lia.
    + rewrite map_size_insert_None by done. lia.
  - change (credentialChecksByIP t2) with (credentialChecksByIP t1) in Ea. rewrite (proj2 (Z.leb_gt limit (checks s))) in * by (cbn; lia). split_and!.
    + done.
    + etrans; [exact Hsame|]. etrans; [|exact H2]. split_and!; try done. cbn. lia.
    + done.
    + exists s'. by rewrite Ea, lookup_insert_eq.
    + intros ip' s1 Hne. rewrite Ea, lookup_insert_ne by done. apply Hsub.
    + intros ip' s1 H. rewrite Ea. destruct (decide (ip = ip')) as [<-|Hne]; [congruence|rewrite lookup_insert_ne by done]. by apply Hkeep.
Qed.

(** The clients with a window. *)
Definition clients (t : loginAttemptTracker) : gset string := dom (credentialChecksByIP t).

Lemma crowded t t1 ip : (forall ip s, credentialChecksByIP t1 !! ip = Some s -> credentialChecksByIP t !! ip = Some s) -> credentialChecksByIP t1 !! ip = None ->
  maxCredentialCheckIPs t <= Z.of_nat (size (credentialChecksByIP t1)) -> maxCredentialCheckIPs t < Z.of_nat (size (clients t ∪ {[ip]})).
Proof.
  intros Hsub Hnone Hge. enough (S (size (credentialChecksByIP t1)) <= size (clients t ∪ {[ip]}))%nat by lia.
  rewrite <-size_dom. assert (Hnot : ip ∉ dom (credentialChecksByIP t1)) by (by apply not_elem_of_dom).
  transitivity (size ({[ip]} ∪ dom (credentialChecksByIP t1))); [rewrite size_union, size_singleton by set_solver; lia|].
  apply subseteq_size. intros x [Hx|Hx]%elem_of_union; [set_solver|]. apply elem_of_dom in Hx as [s Hs]. apply elem_of_union_l, elem_of_dom. exists s. by apply Hsub.
Qed.

Definition decided (t t' : loginAttemptTracker) (ip : string) (limit window : Z) (now : Time) (ok : bool) : Prop :=
  checks_ok t' /\ same_failures t t' /\
  ok = match current_window t ip window now with Some s => negb (limit <=? checks s) | None => true end /\
  (exists s', credentialChecksByIP t' !! ip = Some s' /\
     match current_window t ip window now with Some s => counted_check s s' limit | None => windowStartedAt s' = now /\ checks s' = 1 end) /\
  (forall ip' s, ip' <> ip -> credentialChecksByIP t' !! ip' = Some s -> credentialChecksByIP t !! ip' = Some s) /\
  (forall ip' s, ip' <> ip -> credentialChecksByIP t !! ip' = Some s ->
     credentialChecksByIP t' !! ip' = Some s \/ window_over s now window = true \/ maxCredentialCheckIPs t < Z.of_nat (size (clients t ∪ {[ip]}))).

(** A window that begins, after those that are over were deleted. *)
Lemma window_begins t t2 ip limit window now : limits_ok t -> 0 < limit <= maxInt64 -> checks_gone t t2 (fun _ s => window_over s now window = true) ->
  credentialChecksByIP t2 !! ip = None ->
  let '(t', ok) := (let t3 := ensureCredentialCheckCapacityLocked t2 in
    count_check (with_checks t3 (credentialChecksByIP t3) (PushBack (nextElement t3) ip (credentialCheckOrder t3)) (S (nextElement t3)))
      ip {| windowStartedAt := now; checks := 0; orderElement := Some (nextElement t3) |} limit) in
  checks_ok t' /\ same_failures t t' /\ ok = true /\ (exists s', credentialChecksByIP t' !! ip = Some s' /\ windowStartedAt s' = now /\ checks s' = 1) /\
  (forall ip' s, ip' <> ip -> credentialChecksByIP t' !! ip' = Some s -> credentialChecksByIP t !! ip' = Some s) /\
  (forall ip' s, ip' <> ip -> credentialChecksByIP t !! ip' = Some s ->
     credentialChecksByIP t' !! ip' = Some s \/ window_over s now window = true \/ maxCredentialCheckIPs t < Z.of_nat (size (clients t ∪ {[ip]}))).
Proof.
  intros Hl Hlim (Hok2 & Hsame2 & Hsub2 & Hkeep2) Hnone. pose proof (check_begins t2 ip now limit) as H. cbv zeta in *. destruct (count_check _ ip _ limit) as [t' ok].
  assert (Em : maxCredentialCheckIPs t2 = maxCredentialCheckIPs t) by apply Hsame2.
  destruct H as (H1 & H2 & H3 & H4 & H5 & H6); [destruct Hsame2 as (E1 & E2 & E3 & _); unfold limits_ok; by rewrite E1, E2, E3|done|done|done|].
  split_and!; try done; [by etrans|intros ip' s Hne Hs; by apply Hsub2, H5|]. intros ip' s Hne Hs. destruct (Hkeep2 _ _ Hs) as [Hs2|Hw]; [|by right; left].
  destruct (H6 _ _ Hs2) as [|Hge]; [by left|right; right]. rewrite Em in Hge. by apply (crowded t t2).
Qed.

Lemma allow_spec t ip limit window now : limits_ok t -> checks_ok t -> 0 < limit <= maxInt64 -> 0 < window ->
  let '(t', ok) := allowCredentialCheck t ip limit window now in decided t t' ip limit window now ok.
Proof.
  intros Hl Hok Hlim Hwin. unfold allowCredentialCheck. rewrite (proj2 (Z.leb_gt limit 0)), (proj2 (Z.leb_gt window 0)) by lia. cbn [orb].
  pose proof (prune_checks_gone t now window Hok) as Hg. unfold decided. rewrite <-(gone_window _ _ ip _ _ Hg).
  set (t1 := pruneCredentialChecksIfDueLocked t now window) in *. pose proof Hg as (Hok1 & Hsame1 & Hsub1 & Hkeep1).
  destruct (credentialChecksByIP t1 !! ip) as [s|] eqn:Es.
  - assert (Ecur : current_window t1 ip window now = if window_over s now window then None else Some s) by (unfold current_window; by rewrite Es).
    rewrite Ecur. destruct (window_over s now window) eqn:Ew.
    + eapply window_begins; [done|done| |rewrite (proj1 (delete_check_ok t1 ip Hok1)); apply lookup_delete_eq]. eapply gone_trans; [exact Hg|]. apply gone_delete; [done|].
      intros s' E. by assert (s' = s) as -> by congruence.
    + destruct Hok1 as [Ho Hs Hf Ht]. destruct (Hs ip s Es) as [[e He] Hc]. rewrite He. set (t2 := with_checks t1 _ _ _).
      pose proof (count_check_spec t2 ip s limit) as H. destruct (count_check t2 ip s limit) as [t' ok]. destruct H as (H1 & H2 & H3 & s' & Ea & Hs'); [|lia|].
      * split; cbn [t2 credentialChecksByIP credentialCheckOrder with_checks nextElement maxCredentialCheckIPs]; rewrite ?(insert_id _ _ _ Es); try done.
        -- eapply linked_perm; [symmetry; apply MoveToBack_perm|done].
        -- intros e' ip'. rewrite MoveToBack_perm. apply Hf.
      * change (credentialChecksByIP t2) with (credentialChecksByIP t1) in Ea. split_and!; try done.
        -- etrans; [exact Hsame1|exact H2].
        -- exists s'. by rewrite Ea, lookup_insert_eq.
        -- intros ip' s1 Hne. rewrite Ea, lookup_insert_ne by done. apply Hsub1.
        -- intros ip' s1 Hne Hs1. rewrite Ea, lookup_insert_ne by done. destruct (Hkeep1 _ _ Hs1); [by left|by right; left].
  - assert (Ecur : current_window t1 ip window now = None) by (unfold current_window; by rewrite Es). rewrite Ecur. by eapply window_begins.
Qed.

(** ** Calls one after the other *)

Definition tick (t : Time) : Z := default 0 (mono t).
Definition monotonic (t : Time) : Prop := is_Some (mono t).

Lemma window_over_ticks s now window : monotonic (windowStartedAt s) -> monotonic now -> 0 < window <= maxInt64 ->
  window_over s now window = (tick now <? tick (windowStartedAt s)) || (window <=? tick now - tick (windowStartedAt s)).
Proof.
  intros [x Hx] [y Hy] Hw. unfold window_over, Before, Sub, on_clocks, tick. rewrite Hx, Hy. cbn. f_equal.
  apply Bool.eq_iff_eq_true. rewrite !Z.leb_le. unfold minInt64, maxInt64 in *. lia.
Qed.

(** How many of the calls a client has admitted. *)
Fixpoint admitted (t : loginAttemptTracker) (ip : string) (limit window : Z) (calls : list (string * Time)) : Z :=
  match calls with
  | [] => 0
  | (ip', now) :: calls =>
    let '(t', ok) := allowCredentialCheck t ip' limit window now in
    (if String.eqb ip' ip && ok then 1 else 0) + admitted t' ip limit window calls
  end.

(** The windows have begun by [lo], as the monotonic clock has it. *)
Definition begun (t : loginAttemptTracker) (lo : Z) : Prop :=
  forall ip s, credentialChecksByIP t !! ip = Some s -> monotonic (windowStartedAt s) /\ tick (windowStartedAt s) <= lo.

(** What is left for a client in the time from [a]: of a window that begins in it, or of one that began before and of the next. *)
Definition left_over (t : loginAttemptTracker) (ip : string) (limit a : Z) : Z :=
  match credentialChecksByIP t !! ip with
  | None => limit
  | Some s => Z.max 0 (limit - checks s) + (if a <=? tick (windowStartedAt s) then 0 else limit)
  end.

Section Run.
Context (limit window a : Z) (Hlim : 0 < limit <= maxInt64) (Hwin : 0 < window <= maxInt64).

Lemma left_over_step t ip ip' now lo : limits_ok t -> checks_ok t -> begun t lo -> monotonic now -> lo <= tick now -> a <= tick now < a + window ->
  Z.of_nat (size (clients t ∪ {[ip']})) <= maxCredentialCheckIPs t ->
  let '(t', ok) := allowCredentialCheck t ip' limit window now in
  begun t' (tick now) /\ (if String.eqb ip' ip && ok then 1 else 0) + left_over t' ip limit a <= left_over t ip limit a.
Proof.
  intros Hl Hok Hbegun Hmono Hlo Ha Hsize. pose proof (allow_spec t ip' limit window now Hl Hok Hlim (proj1 Hwin)) as H.
  destruct (allowCredentialCheck t ip' limit window now) as [t' ok]. destruct H as (_ & _ & Hans & (s' & Hs' & Hdec) & Hsub & Hkeep).
  assert (Hover : forall i s, credentialChecksByIP t !! i = Some s -> window_over s now window = true -> tick (windowStartedAt s) < a).
  { intros i s Hi Hw. destruct (Hbegun i s Hi) as [Hm Hle]. rewrite window_over_ticks in Hw by done. b2p. lia. }
  split.
  - intros i s Hi. destruct (decide (i = ip')) as [->|Hne].
    + assert (s = s') as -> by congruence. unfold current_window in Hdec. destruct (credentialChecksByIP t !! ip') as [s0|] eqn:E0.
      * destruct (window_over s0 now window); [destruct Hdec as [-> _]; split; [done|lia]|]. destruct Hdec as [-> _]. destruct (Hbegun _ _ E0). split; [done|lia].
      * destruct Hdec as [-> _]. split; [done|lia].
    + destruct (Hbegun i s (Hsub _ _ Hne Hi)). split; [done|lia].
  - unfold left_over. destruct (String.eqb_spec ip' ip) as [->|Hne]; cbn [andb].
    + rewrite Hs', Hans. unfold current_window in Hdec |- *. destruct (credentialChecksByIP t !! ip) as [s0|] eqn:E0.
      * destruct (window_over s0 now window) eqn:Ew.
        -- destruct Hdec as [-> ->]. pose proof (Hover _ _ E0 Ew). rewrite (proj2 (Z.leb_le _ _)), (proj2 (Z.leb_gt _ _)) by lia. lia.
        -- destruct Hdec as [-> ->]. destruct (Z.leb_spec limit (checks s0)); cbn [negb]; lia.
      * destruct Hdec as [-> ->]. rewrite (proj2 (Z.leb_le _ _)) by lia. lia.
    + destruct (credentialChecksByIP t !! ip) as [s|] eqn:E.
      * destruct (Hkeep ip s ltac:(by intros <-) E) as [->|[Hw|Hbig]]; [lia| |lia]. pose proof (Hover _ _ E Hw). rewrite (proj2 (Z.leb_gt a _)) by lia.
        destruct (credentialChecksByIP t' !! ip) as [s1|] eqn:E1; [|lia]. apply Hsub in E1; [|by intros <-]. assert (s1 = s) as -> by congruence.
        rewrite (proj2 (Z.leb_gt a _)) by lia. lia.
      * destruct (credentialChecksByIP t' !! ip) as [s1|] eqn:E1; [|lia]. apply Hsub in E1; [congruence|by intros <-].
Qed.
(** Calls in the order of the clock, in the time from [a]. *)
Fixpoint timely (lo : Z) (calls : list (string * Time)) : Prop :=
  match calls with
  | [] => True
  | (_, now) :: calls => monotonic now /\ lo <= tick now /\ a <= tick now < a + window /\ timely (tick now) calls
  end.

Lemma allowed_limits t ip now : limits_ok t -> checks_ok t ->
  let t' := fst (allowCredentialCheck t ip limit window now) in limits_ok t' /\ checks_ok t' /\ clients t' ⊆ clients t ∪ {[ip]} /\ maxCredentialCheckIPs t' = maxCredentialCheckIPs t.
Proof.
  intros Hl Hok. pose proof (allow_spec t ip limit window now Hl Hok Hlim (proj1 Hwin)) as H. destruct (allowCredentialCheck t ip limit window now) as [t' ok].
  destruct H as (H1 & H2 & _ & _ & H5 & _). cbn [fst]. pose proof H2 as (E1 & E2 & E3 & _). split_and!; [unfold limits_ok; by rewrite E1, E2, E3|done| |done].
  intros i Hi. destruct (decide (i = ip)) as [->|Hne]; [set_solver|]. unfold clients in *. apply elem_of_dom in Hi as [s Hs]. apply elem_of_union_l, elem_of_dom. exists s. by apply H5.
Qed.

Lemma admitted_left calls : forall t ip lo, limits_ok t -> checks_ok t -> begun t lo -> timely lo calls ->
  Z.of_nat (size (clients t ∪ list_to_set calls.*1)) <= maxCredentialCheckIPs t ->
  admitted t ip limit window calls <= left_over t ip limit a.
Proof.
  induction calls as [|[ip' now] calls IH]; intros t ip lo Hl Hok Hbegun Ht Hsize.
  { cbn. unfold left_over. destruct (_ !! ip) as [s|]; [|lia]. destruct (a <=? _); lia. }
  destruct Ht as (Hm & Hlo & Ha & Hrest). cbn [admitted fmap list_fmap list_to_set fst] in *.
  assert (Hone : Z.of_nat (size (clients t ∪ {[ip']})) <= maxCredentialCheckIPs t).
  { etrans; [|exact Hsize]. apply inj_le, subseteq_size. intros x [Hx|Hx]%elem_of_union; [by apply elem_of_union_l|]. by apply elem_of_union_r, elem_of_union_l. }
  pose proof (left_over_step t ip ip' now lo Hl Hok Hbegun Hm Hlo Ha Hone) as Hstep. pose proof (allowed_limits t ip' now Hl Hok) as Hnext.
  destruct (allowCredentialCheck t ip' limit window now) as [t' ok]. destruct Hstep as [Hb Hle], Hnext as (Hl' & Hok' & Hsub & Em). cbn [fst] in *.
  etrans; [|exact Hle]. apply Z.add_le_mono_l. apply (IH t' ip (tick now)); try done. rewrite Em. etrans; [|exact Hsize]. apply inj_le, subseteq_size.
  intros x [Hx|Hx]%elem_of_union; [apply Hsub in Hx; apply elem_of_union in Hx as [Hx|Hx]; [by apply elem_of_union_l|by apply elem_of_union_r, elem_of_union_l]|by apply elem_of_union_r, elem_of_union_r].
Qed.

Lemma left_over_twice t ip : checks_ok t -> left_over t ip limit a <= 2 * limit.
Proof. intros [_ Hs _ _]. unfold left_over. destruct (_ !! ip) as [s|] eqn:E; [|lia]. destruct (Hs _ _ E). destruct (a <=? _); lia. Qed.
End Run.
End LoginChecks.
