(* ===== verification/LoginThrottleProps.v ===== *)
(** * The login throttle: properties *)

From Stdlib Require Import Ascii.
From stdpp Require Import sorting.
From S2P Require Import Prelude GoTime MonoTime LoginThrottle LoginThrottleSpec LoginChecks.
Import MonoTime LoginThrottle LoginThrottleSpec LoginChecks.

Module LoginThrottleProps.

(** ** Calls *)

Inductive throttle_call :=
| CallIsLocked (key : loginAttemptKey)
| CallRecordFailure (key : loginAttemptKey)
| CallAllowCheck (ip : string)
| CallReset (key : loginAttemptKey).

(** The tracker after a call, and what the call answers. *)
Definition throttle (p : LoginRateLimitPolicy) (now : Time) (c : throttle_call) (t : loginAttemptTracker) : loginAttemptTracker * bool :=
  match c with
  | CallIsLocked key => isLocked t key (FailureWindow p) now
  | CallRecordFailure key => recordFailure t key (FailureLimit p) (FailureWindow p) (LockDuration p) now
  | CallAllowCheck ip => allowCredentialCheck t ip (CredentialCheckLimit p) (CredentialCheckWindow p) now
  | CallReset key => (reset t key, true)
  end.

Definition policy_ok (p : LoginRateLimitPolicy) : Prop :=
  0 < FailureLimit p <= maxInt64 /\ 0 < FailureWindow p <= maxInt64 /\ 0 <= LockDuration p <= maxInt64 /\
  0 < CredentialCheckLimit p <= maxInt64 /\ 0 < CredentialCheckWindow p <= maxInt64.

Inductive throttle_step (p : LoginRateLimitPolicy) : loginAttemptTracker -> loginAttemptTracker -> Prop :=
| throttle_called now c t : reading_ok now -> throttle_step p t (fst (throttle p now c t)).

Definition tracker_ok (t : loginAttemptTracker) : Prop := limits_ok t /\ failures_ok t /\ checks_ok t.

Lemma new_tracker_ok : tracker_ok newLoginAttemptTracker.
Proof.
  split; [by unfold limits_ok; vm_compute|]. split; [split; split|split]; cbn -[count_of]; try done.
  - apply linked_empty.
  - intros ip. apply linked_empty.
  - intros e k [H|[ip H]]; by apply elem_of_nil in H.
  - apply linked_empty.
  - intros e ip H. by apply elem_of_nil in H.
Qed.

(** What a call keeps: the bounds, and with the entries those that are locked. *)
Lemma throttle_kept p now c t : policy_ok p -> reading_ok now -> tracker_ok t ->
  let t' := fst (throttle p now c t) in
  tracker_ok t' /\ maxEntries t' = maxEntries t /\ maxEntriesPerIP t' = maxEntriesPerIP t /\ maxCredentialCheckIPs t' = maxCredentialCheckIPs t /\
  forall k s, c <> CallReset k -> attempts t !! k = Some s -> live s now = true -> attempts t' !! k = Some s.
Proof.
  intros (Hlim & Hwin & Hdur & Hclim & Hcwin) Hnow (Hl & Hf & Hc).
  assert (Hdone : forall t', failures_ok t' -> same_checks t t' -> (forall k s, c <> CallReset k -> attempts t !! k = Some s -> live s now = true -> attempts t' !! k = Some s) ->
    tracker_ok t' /\ maxEntries t' = maxEntries t /\ maxEntriesPerIP t' = maxEntriesPerIP t /\ maxCredentialCheckIPs t' = maxCredentialCheckIPs t /\
    forall k s, c <> CallReset k -> attempts t !! k = Some s -> live s now = true -> attempts t' !! k = Some s).
  { intros t' Hf' Hs Hk. pose proof Hs as (E1 & E2 & E3 & _). split_and!; [split_and!; [by eapply same_limits|done|by eapply checks_kept]|done..]. }
  destruct c as [key|key|ip|key]; cbn [throttle].
  - pose proof (isLocked_spec t key (FailureWindow p) now Hl Hf) as H. destruct (isLocked _ _ _ _) as [t' b]. destruct H as [Hk _]. cbn [fst]. pose proof Hk as (Hf' & Hs & _).
    apply Hdone; [done|done|]. intros k s _. apply kept_live. eapply kept_weaken; [apply over_not_live|exact Hk].
  - pose proof (recordFailure_spec t key (FailureLimit p) (FailureWindow p) (LockDuration p) now Hl Hf Hnow (proj1 Hdur)) as H. destruct (recordFailure _ _ _ _ _ _) as [t' b].
    destruct H as [(Hf' & Hs & _ & Hk) _]. cbn [fst]. apply Hdone; [done|done|]. intros k s _. apply Hk.
  - pose proof (allow_spec t ip (CredentialCheckLimit p) (CredentialCheckWindow p) now Hl Hc Hclim (proj1 Hcwin)) as H.
    destruct (allowCredentialCheck _ _ _ _ _) as [t' b]. destruct H as (Hc' & Hs & _). cbn [fst]. pose proof Hs as (E1 & E2 & E3 & Ea & _).
    split_and!; [split_and!; [unfold limits_ok; by rewrite E1, E2, E3|by eapply failures_kept|done]|done..|]. intros k s _. by rewrite Ea.
  - cbn [fst]. destruct (reset_spec t key Hl Hf) as (Hf' & Hs & Ea). apply Hdone; [done|done|]. intros k s Hne Hk _. rewrite Ea.
    destruct (decide (key = k)) as [->|]; [done|by rewrite lookup_delete_ne].
Qed.

Lemma reached_ok p t : policy_ok p -> rtc (throttle_step p) newLoginAttemptTracker t ->
  tracker_ok t /\ maxEntries t = 4096 /\ maxEntriesPerIP t = 64 /\ maxCredentialCheckIPs t = 4096.
Proof.
  intros Hp. apply (rtc_ind_r (fun t => tracker_ok t /\ maxEntries t = 4096 /\ maxEntriesPerIP t = 64 /\ maxCredentialCheckIPs t = 4096)); [split; [exact new_tracker_ok|done]|].
  intros t1 t2 _ Hstep (Hok & E1 & E2 & E3). destruct Hstep as [now c t1 Hnow]. destruct (throttle_kept p now c t1 Hp Hnow Hok) as (H1 & H2 & H3 & H4 & _). split; [done|]. by rewrite H2, H3, H4.
Qed.

(** C20: Whatever calls are made, the tables of the login throttle are exact and bounded: the counter of a client is
    the number of its entries, the order of the failures that can be evicted holds each entry without lock once
    and no other, in total and by client, there are at most 4096 entries, 64 of a client that has an address, and
    windows of at most 4096 clients. *)
Theorem throttle_invariant p t : policy_ok p -> rtc (throttle_step p) newLoginAttemptTracker t ->
  (forall ip, default 0 (entriesByIP t !! ip) = Z.of_nat (count_of (attempts t) ip)) /\
  NoDup (unlockedFailures t).*2 /\ (forall k, k ∈ (unlockedFailures t).*2 <-> exists s, attempts t !! k = Some s /\ lockedUntil s = zero_time) /\
  (forall ip k, k ∈ (by_ip t ip).*2 <-> clientIP k = ip /\ exists s, attempts t !! k = Some s /\ lockedUntil s = zero_time) /\
  Z.of_nat (size (attempts t)) <= 4096 /\ (forall ip, ip <> EmptyString -> Z.of_nat (count_of (attempts t) ip) <= 64) /\
  Z.of_nat (size (credentialChecksByIP t)) <= 4096 /\ list_to_set (credentialCheckOrder t).*2 = clients t.
Proof.
  intros Hp Hr. destruct (reached_ok p t Hp Hr) as ((_ & [[Hg Hi _ Hs _] [Hent Htot Hip]] & [Ho Hcs _ Hct]) & E1 & E2 & E3). rewrite E1 in Htot. rewrite E2 in Hip. rewrite E3 in Hct.
  assert (Hunlocked : forall k s, attempts t !! k = Some s ->
    (is_Some (globalOrderElement s) <-> lockedUntil s = zero_time) /\ (is_Some (ipOrderElement s) <-> lockedUntil s = zero_time)).
  { intros k s Hk. specialize (Hs k s Hk). unfold placed in Hs. destruct (globalOrderElement s), (ipOrderElement s); try done; (split; split; first [done|by intros []|by intros E; rewrite E in Hs]). }
  destruct (linked_values _ _ _ _ Hg) as [Hn Hk]. split_and!; try done.
  - intros ip. by rewrite Hent, kept_default.
  - intros k. rewrite Hk. split; [intros (_ & s & Hs' & He)|intros (s & Hs' & He); split; [done|]]; exists s; (split; [done|]); by apply (proj1 (Hunlocked k s Hs')).
  - intros ip k. destruct (linked_values _ _ _ _ (Hi ip)) as [_ ->]. unfold from.
    split; intros (Hc & s & Hs' & He); (split; [done|]); exists s; (split; [done|]); by apply (proj2 (Hunlocked k s Hs')).
  - apply set_eq. intros ip. rewrite elem_of_list_to_set. destruct (linked_values _ _ _ _ Ho) as [_ ->]. unfold clients. rewrite elem_of_dom. split.
    + intros (_ & s & Hs' & _). by exists s.
    + intros [s Hs']. split; [done|]. exists s. split; [done|]. by destruct (Hcs _ _ Hs').
Qed.

(** Calls at their instants, one after the other. *)
Fixpoint throttle_all (p : LoginRateLimitPolicy) (calls : list (Time * throttle_call)) (t : loginAttemptTracker) : loginAttemptTracker :=
  match calls with
  | [] => t
  | (now, c) :: calls => throttle_all p calls (fst (throttle p now c t))
  end.

(** C19: A lock holds: when a failed login led to a lock, or found one, that user name stays locked for that client
    until the lock is over, whatever calls are made for other names and clients, however full the tables are; only
    a login with the password lifts it. *)
Theorem lock_holds p t now key t' : policy_ok p -> reading_ok now -> tracker_ok t -> throttle p now (CallRecordFailure key) t = (t', true) ->
  exists s, attempts t' !! key = Some s /\
  (lockedUntil s = Add now (LockDuration p) \/ attempts t !! key = Some s /\ live s now = true) /\
  forall calls now', Forall (fun '(n, c) => reading_ok n /\ After (lockedUntil s) n = true /\ c <> CallReset key) calls ->
  After (lockedUntil s) now' = true -> snd (throttle p now' (CallIsLocked key) (throttle_all p calls t')) = true.
Proof.
  intros Hp Hnow Hok Hrun. pose proof Hp as (Hlim & Hwin & Hdur & _). pose proof Hok as (Hl & Hf & _). cbn [throttle] in Hrun.
  pose proof (recordFailure_spec t key (FailureLimit p) (FailureWindow p) (LockDuration p) now Hl Hf Hnow (proj1 Hdur)) as H. rewrite Hrun in H.
  destruct H as [(_ & _ & _ & Hlive) H].
  assert (Hs : exists s, attempts t' !! key = Some s /\ (lockedUntil s = Add now (LockDuration p) \/ attempts t !! key = Some s /\ live s now = true)).
  { destruct (current t key (FailureWindow p) now) as [s|] eqn:Ec.
    - destruct (live s now) eqn:El.
      + assert (E : attempts t !! key = Some s) by (unfold current in Ec; destruct (attempts t !! key) as [s0|]; [|done]; destruct (live s0 now); [congruence|]; destruct (_ || _); congruence).
        exists s. split; [by apply Hlive|by right].
      + destruct H as (Hb & s' & Hs' & _ & _ & Hu). exists s'. split; [done|left]. by rewrite <-Hb in Hu.
    - destruct H as [(Hb & s' & Hs' & _ & _ & Hu)|(? & _)]; [|done]. exists s'. split; [done|left]. change (int64 (0 + 1)) with 1 in Hu. by rewrite <-Hb in Hu. }
  destruct Hs as (s & Hs & Hu). exists s. split; [done|]. split; [done|]. intros calls now' Hcalls Hnow'.
  assert (Hok' : tracker_ok t') by (pose proof (throttle_kept p now (CallRecordFailure key) t Hp Hnow Hok) as H'; cbn [throttle] in H'; rewrite Hrun in H'; apply H').
  clear H Hlive Hrun Hu. revert t' Hs Hok'. induction Hcalls as [|[n c] calls (Hn & Ha & Hc) Hcalls IH]; intros t1 Hs1 Hok1; cbn [throttle_all].
  - destruct Hok1 as (Hl1 & Hf1 & _). pose proof (isLocked_spec t1 key (FailureWindow p) now' Hl1 Hf1) as H. cbn [throttle].
    destruct (isLocked t1 key (FailureWindow p) now') as [t2 b]. destruct H as [_ ->]. unfold current. rewrite Hs1. unfold live. by rewrite Hnow'.
  - destruct (throttle_kept p n c t1 Hp Hn Hok1) as (Hok2 & _ & _ & _ & Hk). apply IH; [|done]. by apply Hk.
Qed.





(** Password checks are rationed: in any time as long as a window, a client has at most twice as many password
    checks admitted as the limit says (a window begins with the first check, so that the end of one and the next
    one may fall into that time), as long as no client has to make room for another. *)
Theorem password_checks_rationed p t ip a calls : policy_ok p -> limits_ok t -> checks_ok t -> begun t a ->
  timely (CredentialCheckWindow p) a a calls -> Z.of_nat (size (clients t ∪ list_to_set calls.*1)) <= maxCredentialCheckIPs t ->
  admitted t ip (CredentialCheckLimit p) (CredentialCheckWindow p) calls <= 2 * CredentialCheckLimit p.
Proof.
  intros (_ & _ & _ & Hlim & Hwin) Hl Hok Hb Ht Hs. etrans; [by apply (admitted_left _ _ a Hlim Hwin calls t ip a)|by apply (left_over_twice (CredentialCheckLimit p) a Hlim)].
Qed.

(** ** The order of the failures

    By their keys: all failures without lock, and those of a client. *)

Definition order_keys (t : loginAttemptTracker) : list loginAttemptKey := (unlockedFailures t).*2.
Definition keys_of (t : loginAttemptTracker) (ip : string) : list loginAttemptKey := (by_ip t ip).*2.

Section Keys.
Context {S : Type} (elem : S -> option nat) (sel : loginAttemptKey -> Prop).
Implicit Types (m : gmap loginAttemptKey S) (l : order loginAttemptKey).

Lemma filter_absent (k : loginAttemptKey) (l : list loginAttemptKey) : k ∉ l -> filter (fun k' => k' <> k) l = l.
Proof.
  induction l as [|x l IH]; [done|]. intros [Hx Hl]%not_elem_of_cons. rewrite filter_cons_True by congruence. by rewrite IH.
Qed.
Lemma filter_by_key l (P : nat * loginAttemptKey -> Prop) (Q : loginAttemptKey -> Prop) `{!forall x, Decision (P x), !forall k, Decision (Q k)} :
  (forall x, x ∈ l -> P x <-> Q x.2) -> (filter P l).*2 = filter Q l.*2.
Proof.
  induction l as [|x l IH]; intros HPQ; [done|]. rewrite fmap_cons, !filter_cons. specialize (HPQ x ltac:(left)) as Hx.
  assert (E : (filter P l).*2 = filter Q l.*2) by (apply IH; intros y Hy; apply HPQ; by right).
  destruct (decide (P x)), (decide (Q x.2)); rewrite ?fmap_cons, ?E; tauto.
Qed.

Lemma linked_key m l k s e e' k' : linked elem sel m l -> sel k -> m !! k = Some s -> elem s = Some e -> (e', k') ∈ l -> (e' = e <-> k' = k).
Proof.
  intros [Hn Hl] Hsel Hk He Hin. split.
  - intros ->. apply (NoDup_entry l e); [done|done|]. apply Hl. split; [done|]. by exists s.
  - intros ->. apply Hl in Hin as (_ & s' & Hs' & He'). congruence.
Qed.
Lemma removed_keys m l k s e : linked elem sel m l -> sel k -> m !! k = Some s -> elem s = Some e -> (Remove e l).*2 = filter (fun k' => k' <> k) l.*2.
Proof.
  intros Hl Hsel Hk He. apply filter_by_key. intros [e' k'] Hin. cbn. by rewrite (linked_key m l k s e e' k' Hl Hsel Hk He Hin).
Qed.
Lemma linked_absent m l k : linked elem sel m l -> (~ sel k \/ m !! k = None \/ exists s, m !! k = Some s /\ elem s = None) -> filter (fun k' => k' <> k) l.*2 = l.*2.
Proof.
  intros Hl Hk. apply filter_absent. intros Hin. apply (linked_values _ _ _ _ Hl) in Hin as (Hs & s & Hm & [e He]).
  destruct Hk as [?|[?|(s' & Hs' & He')]]; [done|congruence|congruence].
Qed.
Lemma dropped_keys m l k s : linked elem sel m l -> sel k -> m !! k = Some s -> (dropped elem s l).*2 = filter (fun k' => k' <> k) l.*2.
Proof.
  intros Hl Hsel Hk. unfold dropped. destruct (elem s) as [e|] eqn:He; [by eapply removed_keys|]. symmetry. eapply linked_absent; [done|]. right; right. by exists s.
Qed.
Lemma moved_keys m l k s e : linked elem sel m l -> sel k -> m !! k = Some s -> elem s = Some e -> (MoveToBack e l).*2 = filter (fun k' => k' <> k) l.*2 ++ [k].
Proof.
  intros Hl Hsel Hk He. unfold MoveToBack. rewrite fmap_app, (removed_keys m l k s e) by done. f_equal.
  rewrite (filter_by_key l _ (fun k' => k' = k)) by (intros [e' k'] Hin; apply (linked_key m l k s e e' k' Hl Hsel Hk He Hin)).
  destruct (linked_values _ _ _ _ Hl) as [Hn Hv]. assert (Hin : k ∈ l.*2) by (apply Hv; split; [done|]; exists s; split; [done|by exists e]).
  clear -Hn Hin. induction l.*2 as [|x ks IH]; [by apply elem_of_nil in Hin|]. apply NoDup_cons in Hn as [Hx Hn]. apply elem_of_cons in Hin as [->|Hin].
  - rewrite filter_cons_True by done. f_equal. clear -Hx. induction ks as [|y ks IH]; [done|]. apply not_elem_of_cons in Hx as [? ?].
    rewrite filter_cons_False by congruence. by apply IH.
  - rewrite filter_cons_False by by intros ->. by apply IH.
Qed.
End Keys.

(** The two orders agree. *)
Definition consistent (t : loginAttemptTracker) : Prop := forall ip, keys_of t ip = filter (fun k => clientIP k = ip) (order_keys t).

Lemma delete_orders t k : ordered (attempts t) t ->
  order_keys (deleteEntryLocked t k) = filter (fun k' => k' <> k) (order_keys t) /\
  forall ip, keys_of (deleteEntryLocked t k) ip = filter (fun k' => k' <> k) (keys_of t ip).
Proof.
  intros [Hg Hi _ _ _]. unfold deleteEntryLocked, order_keys, keys_of. destruct (attempts t !! k) as [s|] eqn:Ek; cycle 1.
  { split; [|intros ip]; symmetry; (eapply linked_absent; [done|]); right; by left. }
  split; [by apply (dropped_keys globalOrderElement any (attempts t))|]. intros ip.
  change (by_ip (with_failures _ _ _ _ _ _) ip) with (by_ip (removeUnlockedFailureOrderLocked t s (clientIP k)) ip).
  rewrite by_ip_removed. destruct (decide _) as [->|Hne]; [by apply (dropped_keys ipOrderElement (from (clientIP k)) (attempts t))|].
  symmetry. eapply linked_absent; [apply Hi|]. left. intros E. by apply Hne.
Qed.
Lemma delete_ordered t k : ordered (attempts t) t -> ordered (attempts (deleteEntryLocked t k)) (deleteEntryLocked t k).
Proof.
  intros Hord. unfold deleteEntryLocked. destruct (attempts t !! k) as [s|] eqn:Ek; [|done]. cbn [attempts with_failures].
  eapply ordered_lists; [| | |by apply unlisted]; done.
Qed.
Lemma filter_swap (P Q : loginAttemptKey -> Prop) `{!forall k, Decision (P k), !forall k, Decision (Q k)} (l : list loginAttemptKey) : filter P (filter Q l) = filter Q (filter P l).
Proof. rewrite !list_filter_filter. apply list_filter_iff. intros k. tauto. Qed.
Lemma delete_consistent t k : ordered (attempts t) t -> consistent t -> consistent (deleteEntryLocked t k).
Proof. intros Hord Hc ip. destruct (delete_orders t k Hord) as [-> ->]. by rewrite Hc, filter_swap. Qed.

(** What counting a failure does to the orders. *)
Lemma count_orders t key state limit d now : ordered (attempts t) t ->
  (attempts t !! key = None /\ state = no_attempts \/ attempts t !! key = Some state) ->
  let '(t', _) := count_failure t key state limit d now in
  let moved := if limit <=? int64 (failures state + 1) then [] else [key] in
  order_keys t' = filter (fun k => k <> key) (order_keys t) ++ moved /\
  forall ip, keys_of t' ip = if decide (ip = clientIP key) then filter (fun k => k <> key) (keys_of t ip) ++ moved else keys_of t ip.
Proof.
  intros [Hg Hi _ Hs _] Hk. unfold count_failure. destruct (limit <=? _).
  - set (state' := {| failures := _ |}). unfold order_keys, keys_of. cbn [unlockedFailures set_attempt with_failures]. rewrite app_nil_r. split.
    + destruct Hk as [[Hk ->]|Hk]; [symmetry; eapply linked_absent; [done|]; right; by left|].
      by apply (dropped_keys globalOrderElement any (attempts t) (unlockedFailures t) key state).
    + intros ip. change (by_ip (set_attempt _ _ _) ip) with (by_ip (removeUnlockedFailureOrderLocked t state' (clientIP key)) ip).
      rewrite by_ip_removed, ?app_nil_r. destruct (decide _) as [->|]; [|done].
      destruct Hk as [[Hk ->]|Hk]; [symmetry; eapply linked_absent; [apply Hi|]; right; by left|].
      by apply (dropped_keys ipOrderElement (from (clientIP key)) (attempts t) (by_ip t (clientIP key)) key state).
  - unfold touchUnlockedFailureOrderLocked. cbn [globalOrderElement ipOrderElement]. fold (by_ip t (clientIP key)).
    assert (Hcase : globalOrderElement state = None /\ ipOrderElement state = None /\ (attempts t !! key = None \/ exists s, attempts t !! key = Some s /\ globalOrderElement s = None /\ ipOrderElement s = None) \/
      exists e ipe, globalOrderElement state = Some e /\ ipOrderElement state = Some ipe /\ attempts t !! key = Some state).
    { destruct Hk as [[Hk ->]|Hk]; [left; split; [done|]; split; [done|]; by left|]. specialize (Hs _ _ Hk). unfold placed in Hs.
      destruct (globalOrderElement state) as [e|] eqn:E1, (ipOrderElement state) as [ipe|] eqn:E2; try done; [right; by exists e, ipe|left].
      split; [done|]. split; [done|]. right. by exists state. }
    destruct Hcase as [(-> & -> & Hno)|(e & ipe & E1 & E2 & Hst)].
    + unfold order_keys, keys_of. cbn [unlockedFailures set_attempt with_failures]. unfold PushBack at 1. rewrite fmap_app. cbn [fmap list_fmap snd].
      assert (Hg' : filter (fun k => k <> key) (unlockedFailures t).*2 = (unlockedFailures t).*2).
      { eapply linked_absent; [done|]. destruct Hno as [?|(s & ? & ? & _)]; [right; by left|right; right; by exists s]. }
      rewrite Hg'. split; [done|]. intros ip. unfold by_ip at 1. cbn [unlockedFailuresByIP with_failures set_attempt].
      destruct (decide _) as [->|Hne]; [|by rewrite lookup_insert_ne by congruence]. rewrite lookup_insert_eq. cbn [default from_option id]. unfold PushBack. rewrite fmap_app.
      cbn [fmap list_fmap snd]. f_equal. symmetry. eapply linked_absent; [apply Hi|]. destruct Hno as [?|(s & ? & _ & ?)]; [right; by left|right; right; by exists s].
    + rewrite E1, E2. unfold order_keys, keys_of. cbn [unlockedFailures set_attempt with_failures].
      split; [by apply (moved_keys globalOrderElement any (attempts t) _ key state)|].
      intros ip. unfold by_ip at 1. cbn [unlockedFailuresByIP with_failures set_attempt].
      destruct (decide _) as [->|Hne]; [|by rewrite lookup_insert_ne by congruence]. rewrite lookup_insert_eq. cbn [default from_option id].
      by apply (moved_keys ipOrderElement (from (clientIP key)) (attempts t) _ key state).
Qed.
Lemma count_consistent t key state limit d now : ordered (attempts t) t -> consistent t ->
  (attempts t !! key = None /\ state = no_attempts \/ attempts t !! key = Some state) -> consistent (fst (count_failure t key state limit d now)).
Proof.
  intros Hord Hc Hk ip. pose proof (count_orders t key state limit d now Hord Hk) as H. destruct (count_failure t key state limit d now) as [t' b]. cbn [fst].
  destruct H as [-> ->]. rewrite filter_app, filter_swap, <-Hc. destruct (decide (ip = clientIP key)) as [->|Hne].
  - f_equal. destruct (limit <=? _); [done|]. by rewrite filter_cons_True.
  - assert (E : filter (fun k => clientIP k = ip) (if limit <=? int64 (failures state + 1) then [] else [key]) = []) by (destruct (_ <=? _); [done|by rewrite filter_cons_False]).
    rewrite E, app_nil_r. symmetry. apply filter_absent. rewrite Hc, list_elem_of_filter. by intros [E' _].
Qed.

(** *** The failures of one client

    [H] are the failures of the client so far, each at its instant.  Those of its entries that have not
    expired are the last ones of [H] that have not. *)

Section Spray.
Context (ip : string) (window : Z).
Hypothesis window_pos : 0 < window.

Notation failure := (Time * loginAttemptKey)%type.
Implicit Types (H : list failure) (t : loginAttemptTracker).

Definition recent (now : Time) (x : failure) : Prop := Sub now x.1 <= window.
#[export] Instance recent_dec now x : Decision (recent now x).
Proof. unfold recent. apply _. Defined.

(** The entries of the client, in their order, with their instants. *)
Definition stamp (t : loginAttemptTracker) (k : loginAttemptKey) : failure := (from_option lastFailure zero_time (attempts t !! k), k).
Definition stamps (t : loginAttemptTracker) : list failure := stamp t <$> keys_of t ip.

Record sprayed (now : Time) H t : Prop := {
  sp_ordered : ordered (attempts t) t;
  sp_consistent : consistent t;
  sp_entry k s : attempts t !! k = Some s -> clientIP k = ip -> lockedUntil s = zero_time /\ monotonic (lastFailure s) /\ reading_ok (lastFailure s);
  sp_order : suffix (filter (recent now) (stamps t)) (filter (recent now) H) }.

Lemma stamp_in t x : ordered (attempts t) t -> x ∈ stamps t -> exists s, attempts t !! x.2 = Some s /\ clientIP x.2 = ip /\ x.1 = lastFailure s.
Proof.
  intros [_ Hi _ _ _] (k & -> & Hk)%list_elem_of_fmap. apply (linked_values _ _ _ _ (Hi ip)) in Hk as (Hc & s & Hs & _). exists s. cbn. by rewrite Hs.
Qed.

(** Time goes by. *)
Lemma recent_before now now' (x : failure) : monotonic x.1 -> monotonic now -> monotonic now' -> tick now <= tick now' -> recent now' x -> recent now x.
Proof.
  unfold recent, Sub, on_clocks, tick. intros [x0 ->] [y ->] [y' ->]. cbn. lia.
Qed.
Lemma filter_later now now' H : Forall (fun x => monotonic x.1) H -> monotonic now -> monotonic now' -> tick now <= tick now' ->
  filter (recent now') H = filter (recent now') (filter (recent now) H).
Proof.
  intros HH Hn Hn' Hle. induction HH as [|x H Hx _ IH]; [done|]. rewrite !filter_cons. destruct (decide (recent now x)).
  - rewrite filter_cons. by destruct (decide (recent now' x)); rewrite IH.
  - rewrite decide_False; [done|]. intros Hr. by apply (recent_before now now') in Hr.
Qed.
Lemma sprayed_later now now' H t : Forall (fun x => monotonic x.1) H -> monotonic now -> monotonic now' -> tick now <= tick now' ->
  sprayed now H t -> sprayed now' H t.
Proof.
  intros HH Hn Hn' Hle [Ho Hc He Hs]. split; [done..|]. rewrite (filter_later now now' H), (filter_later now now' (stamps t)) by (try done; apply Forall_forall; intros x Hx;
    destruct (stamp_in t x Ho Hx) as (s & Hs' & Hip & ->); by apply (He x.2)).
  destruct Hs as [l ->]. rewrite filter_app. by eexists.
Qed.

(** An entry leaves: it is the first of its client, or has expired, or is one of another client. *)
Definition may_leave (now : Time) t (k : loginAttemptKey) : Prop :=
  k ∉ keys_of t ip \/ head (keys_of t ip) = Some k \/ ~ recent now (stamp t k).

Lemma stamps_delete t k : ordered (attempts t) t -> stamps (deleteEntryLocked t k) = filter (fun x => x.2 <> k) (stamps t).
Proof.
  intros Ho. unfold stamps. rewrite (proj2 (delete_orders t k Ho)). generalize (keys_of t ip). intros l. induction l as [|k' l IH]; [done|].
  rewrite fmap_cons, !filter_cons. change (stamp t k').2 with k'. destruct (decide (k' <> k)); [|exact IH]. rewrite fmap_cons, IH. f_equal.
  unfold stamp. by rewrite (proj1 (delete_attempts t k)), lookup_delete_ne.
Qed.

Lemma sprayed_delete now H t k : sprayed now H t -> may_leave now t k -> sprayed now H (deleteEntryLocked t k).
Proof.
  intros [Ho Hc He Hs] Hk. split; [by apply delete_ordered|by apply delete_consistent| |].
  - intros k' s. rewrite (proj1 (delete_attempts t k)). intros [_ Hk']%lookup_delete_Some. by apply He.
  - rewrite stamps_delete by done. unfold stamps in *. destruct Hk as [Hk|[Hk|Hk]].
    + replace (filter (fun x => x.2 <> k) (stamp t <$> keys_of t ip)) with (stamp t <$> keys_of t ip); [done|]. symmetry. clear Hs.
      induction (keys_of t ip) as [|k' l IH]; [done|]. apply not_elem_of_cons in Hk as [? ?]. rewrite fmap_cons, filter_cons_True by (cbn; congruence). by rewrite IH.
    + assert (Hn : NoDup (keys_of t ip)) by (destruct Ho as [_ Hi _ _ _]; apply (linked_values _ _ _ _ (Hi ip))).
      destruct (keys_of t ip) as [|k' l]; [done|]. injection Hk as ->. apply NoDup_cons in Hn as [Hk Hn]. rewrite fmap_cons in Hs |- *.
      rewrite filter_cons_False by (cbn; tauto).
      replace (filter (fun x => x.2 <> k) (stamp t <$> l)) with (stamp t <$> l).
      2:{ clear Hs Hn. induction l as [|k' l IH]; [done|]. apply not_elem_of_cons in Hk as [? ?]. rewrite fmap_cons, filter_cons_True by (cbn; congruence). by rewrite IH at 1. }
      rewrite filter_cons in Hs. destruct (decide _); [by eapply suffix_cons_l|done].
    + replace (filter (recent now) (filter (fun x => x.2 <> k) (stamp t <$> keys_of t ip))) with (filter (recent now) (stamp t <$> keys_of t ip)); [done|]. clear Hs.
      induction (keys_of t ip) as [|k' l IH]; [done|]. rewrite fmap_cons, (filter_cons (fun x => x.2 <> k)). cbn [snd stamp]. destruct (decide (k' <> k)) as [|Hk'].
      * rewrite !filter_cons. by rewrite IH.
      * apply dec_stable in Hk' as ->. by rewrite filter_cons_False.
Qed.

Lemma sprayed_lists now H t t' : attempts t' = attempts t -> unlockedFailures t' = unlockedFailures t -> unlockedFailuresByIP t' = unlockedFailuresByIP t ->
  (nextElement t <= nextElement t')%nat -> sprayed now H t -> sprayed now H t'.
Proof.
  intros E1 E2 E3 E4 [[Hg Hi Hne Hs Hf] Hc He Ho]. assert (Eb : forall i, by_ip t' i = by_ip t i) by (intros i; unfold by_ip; by rewrite E3).
  split; [split|..]; unfold consistent, stamps, stamp, keys_of, order_keys in *; rewrite ?E1, ?E2; try done.
  - intros i. by rewrite Eb.
  - intros i l. rewrite E3. apply Hne.
  - intros e k. setoid_rewrite Eb. intros Hin. apply Hf in Hin. lia.
  - intros i. by rewrite Eb.
  - by rewrite Eb.
Qed.

(** What has expired may leave. *)
Lemma over_leaves now H t k : sprayed now H t -> (forall s, attempts t !! k = Some s -> over window now k s) -> may_leave now t k.
Proof.
  intros [Ho _ He _] Hk. destruct (decide (k ∈ keys_of t ip)) as [Hin|]; [right; right|by left].
  apply (list_elem_of_fmap_2 (stamp t)) in Hin. destruct (stamp_in t _ Ho Hin) as (s & Hs & Hip & Et). cbn [fst snd stamp] in Hs, Hip.
  destruct (He k s Hs Hip) as (Hz & _). destruct (Hk s Hs) as [_ Hover]. rewrite Hz in Hover. change (negb (IsZero zero_time)) with false in Hover. cbn [orb] in Hover.
  unfold loginAttemptFailureExpired in Hover. apply andb_true_iff in Hover as [_ Hover]. apply Z.ltb_lt in Hover. unfold recent. rewrite Et. lia.
Qed.
Lemma prune_sprayed now H t : sprayed now H t -> sprayed now H (pruneExpiredIfDueLocked t now window).
Proof.
  intros Ht. unfold pruneExpiredIfDueLocked. destruct (_ && _); [done|].
  assert (Hfold : forall l t1, sprayed now H t1 -> (forall k s, attempts t1 !! k = Some s -> attempts t !! k = Some s) -> Forall (fun '(k, s) => attempts t !! k = Some s) l ->
    sprayed now H (fold_left (prune_entry now window) l t1)).
  { induction l as [|[k s] l IH]; intros t1 Ht1 Hsub Hall; [done|]. apply Forall_cons in Hall as [Hk Hall]. cbn [fold_left].
    assert (Hdel : over window now k s -> sprayed now H (deleteEntryLocked t1 k) /\ forall k' s', attempts (deleteEntryLocked t1 k) !! k' = Some s' -> attempts t !! k' = Some s').
    { intros Hover. split.
      - apply sprayed_delete; [done|]. apply (over_leaves now H); [done|]. intros s' Hs'. apply Hsub in Hs'. by assert (s' = s) as -> by congruence.
      - intros k' s'. rewrite (proj1 (delete_attempts t1 k)). intros [_ ?]%lookup_delete_Some. by apply Hsub. }
    cbn [prune_entry]. fold (live s now). unfold over in Hdel. destruct (live s now) eqn:El; [by apply IH|].
    destruct (IsZero (lockedUntil s)) eqn:Ez; cbn [negb andb orb] in *; [|by destruct (Hdel (conj eq_refl eq_refl)); apply IH].
    destruct (loginAttemptFailureExpired s now window); [by destruct (Hdel (conj eq_refl eq_refl)); apply IH|by apply IH]. }
  eapply sprayed_lists; [..|apply (Hfold (map_to_list (attempts t)) t); [done|done|]]; try done.
  apply Forall_forall. intros [k s] Hin. by apply elem_of_map_to_list.
Qed.

(** Making room. *)
Lemma evict_sprayed now H t who : sprayed now H t -> sprayed now H (fst (evictOldestUnlockedFailureLocked t who)).
Proof.
  intros Ht. unfold evictOldestUnlockedFailureLocked. destruct (match who with None => _ | Some _ => _ end) as [|[e k] l] eqn:E; [done|]. cbn [fst].
  apply sprayed_delete; [done|]. destruct Ht as [[_ Hi _ _ _] Hc _ _]. destruct who as [i|].
  - fold (by_ip t i) in E. destruct (decide (i = ip)) as [->|Hne].
    + right; left. unfold keys_of. by rewrite E.
    + left. intros Hin. assert (Hk : k ∈ keys_of t i) by (unfold keys_of; rewrite E; left).
      apply (linked_values _ _ _ _ (Hi i)) in Hk as [Hk _]. apply (linked_values _ _ _ _ (Hi ip)) in Hin as [Hk' _]. unfold from in *. congruence.
  - unfold may_leave. rewrite Hc. assert (Eo : order_keys t = k :: l.*2) by (unfold order_keys; by rewrite E). rewrite Eo. destruct (decide (clientIP k = ip)) as [Hk|Hk].
    + right; left. by rewrite filter_cons_True.
    + left. rewrite list_elem_of_filter. by intros [? _].
Qed.
Lemma ensure_sprayed now H t who : sprayed now H t -> sprayed now H (fst (ensureFailureCapacityLocked t who)).
Proof.
  intros Ht. unfold ensureFailureCapacityLocked.
  assert (Hfirst : sprayed now H (fst (if (0 <? maxEntriesPerIP t) && (maxEntriesPerIP t <=? default 0 (entriesByIP t !! who)) then evictOldestUnlockedFailureLocked t (order_of who) else (t, true)))).
  { destruct (_ && _); [by apply evict_sprayed|done]. }
  destruct (if _ && _ then evictOldestUnlockedFailureLocked t (order_of who) else _) as [t1 room]. cbn [fst] in Hfirst. destruct (negb room); [done|].
  destruct (_ && _); [by apply evict_sprayed|done].
Qed.

(** A failure of another client, and one of this client whose entry has gone. *)
Lemma count_other now H t key state limit d : sprayed now H t -> reading_ok now -> 0 <= d -> clientIP key <> ip -> lockedUntil state = zero_time ->
  (attempts t !! key = None /\ state = no_attempts \/ attempts t !! key = Some state) -> sprayed now H (fst (count_failure t key state limit d now)).
Proof.
  intros [Ho Hc He Hs] Hnow Hd Hne Hz Hk. pose proof (count_failure_ordered t key state limit d now Ho Hnow Hd Hz Hk) as H1.
  pose proof (count_consistent t key state limit d now Ho Hc Hk) as H2. pose proof (count_orders t key state limit d now Ho Hk) as H3.
  pose proof (count_failure_parts t key state limit d now Hz) as H4. destruct (count_failure t key state limit d now) as [t' b]. cbn [fst] in *.
  destruct H4 as (_ & _ & s' & Ea & _). destruct H3 as [_ Hkeys]. specialize (Hkeys ip). rewrite decide_False in Hkeys by congruence. split; [done|done|..].
  - intros k s. rewrite Ea. intros [[<- <-]|[_ ?]]%lookup_insert_Some Hip; [done|by apply (He k)].
  - unfold stamps in *. rewrite Hkeys. erewrite list_fmap_ext; [exact Hs|]. intros i k Hik. cbn. unfold stamp. rewrite Ea, lookup_insert_ne; [done|]. intros <-.
    apply list_elem_of_lookup_2 in Hik. destruct Ho as [_ Hi _ _ _]. apply (linked_values _ _ _ _ (Hi ip)) in Hik as [Hik _]. done.
Qed.
Lemma count_own now H t key limit d : sprayed now H t -> reading_ok now -> monotonic now -> 0 <= d -> 1 < limit -> clientIP key = ip -> attempts t !! key = None ->
  sprayed now (H ++ [(now, key)]) (fst (count_failure t key no_attempts limit d now)).
Proof.
  intros [Ho Hc He Hs] Hnow Hmono Hd Hlim Hip Hk. assert (Hk' : attempts t !! key = None /\ no_attempts = no_attempts \/ attempts t !! key = Some no_attempts) by by left.
  pose proof (count_failure_ordered t key no_attempts limit d now Ho Hnow Hd eq_refl Hk') as H1.
  pose proof (count_consistent t key no_attempts limit d now Ho Hc Hk') as H2. pose proof (count_orders t key no_attempts limit d now Ho Hk') as H3.
  pose proof (count_failure_parts t key no_attempts limit d now eq_refl) as H4. destruct (count_failure t key no_attempts limit d now) as [t' b]. cbn [fst] in *.
  change (int64 (failures no_attempts + 1)) with 1 in *. rewrite (proj2 (Z.leb_gt _ _)) in H3 by done.
  destruct H4 as (_ & _ & s' & Ea & (_ & El & Ez) & _). change (int64 (failures no_attempts + 1)) with 1 in Ez. rewrite (proj2 (Z.leb_gt _ _)) in Ez by done.
  destruct H3 as [_ Hkeys]. specialize (Hkeys ip). rewrite decide_True in Hkeys by done.
  assert (Habs : key ∉ keys_of t ip).
  { intros Hin. destruct Ho as [_ Hi _ _ _]. apply (linked_values _ _ _ _ (Hi ip)) in Hin as (_ & s & Hs' & _). congruence. }
  rewrite filter_absent in Hkeys by done. split; [done|done|..].
  - intros k s. rewrite Ea. intros [[<- <-]|[_ ?]]%lookup_insert_Some Hk0; [by rewrite El|by apply (He k)].
  - unfold stamps in *. rewrite Hkeys, fmap_app, !filter_app. cbn [fmap list_fmap].
    assert (E1 : stamp t' key = (now, key)) by (unfold stamp; rewrite Ea, lookup_insert_eq; cbn; by rewrite El). rewrite E1.
    assert (E2 : stamp t' <$> keys_of t ip = stamp t <$> keys_of t ip).
    { apply list_fmap_ext. intros i k Hik. unfold stamp. rewrite Ea, lookup_insert_ne; [done|]. intros <-. by apply list_elem_of_lookup_2 in Hik. }
    rewrite E2. by apply suffix_app.
Qed.
End Spray.

Lemma evict_sub t who k s : attempts (fst (evictOldestUnlockedFailureLocked t who)) !! k = Some s -> attempts t !! k = Some s.
Proof.
  unfold evictOldestUnlockedFailureLocked. destruct (match who with None => _ | Some _ => _ end) as [|[e k'] l]; [done|]. cbn [fst].
  rewrite (proj1 (delete_attempts t k')). by intros [_ ?]%lookup_delete_Some.
Qed.
Lemma ensure_sub t who k s : attempts (fst (ensureFailureCapacityLocked t who)) !! k = Some s -> attempts t !! k = Some s.
Proof.
  unfold ensureFailureCapacityLocked.
  assert (Hfirst : forall k s, attempts (fst (if (0 <? maxEntriesPerIP t) && (maxEntriesPerIP t <=? default 0 (entriesByIP t !! who)) then evictOldestUnlockedFailureLocked t (order_of who) else (t, true))) !! k = Some s -> attempts t !! k = Some s).
  { intros k0 s0. destruct (_ && _); [apply evict_sub|done]. }
  destruct (if _ && _ then evictOldestUnlockedFailureLocked t (order_of who) else _) as [t1 room]. cbn [fst] in Hfirst. destruct (negb room); [apply Hfirst|].
  destruct (_ && _); [|apply Hfirst]. intros Hk. apply evict_sub in Hk. by apply Hfirst.
Qed.
(** Without room there is nothing of the client to evict. *)
Lemma evict_none t who : snd (evictOldestUnlockedFailureLocked t who) = false -> consistent t ->
  fst (evictOldestUnlockedFailureLocked t who) = t /\ match who with Some i => keys_of t i = [] | None => forall i, keys_of t i = [] end.
Proof.
  unfold evictOldestUnlockedFailureLocked. destruct (match who with None => _ | Some _ => _ end) as [|[e k] l] eqn:E; [|done]. intros _ Hc. split; [done|].
  destruct who as [i|]; [unfold keys_of, by_ip; by rewrite E|]. intros i. rewrite Hc. unfold order_keys. by rewrite E.
Qed.
Lemma ensure_none t ip now H window : sprayed ip window now H t -> ip <> EmptyString -> snd (ensureFailureCapacityLocked t ip) = false ->
  keys_of (fst (ensureFailureCapacityLocked t ip)) ip = [].
Proof.
  intros Ht Hip. pose proof (evict_sprayed ip window now H t (order_of ip) Ht) as Ht1. unfold ensureFailureCapacityLocked. unfold order_of in *. destruct (String.eqb_spec ip EmptyString); [done|].
  assert (Hsecond : forall t1, consistent t1 -> snd (if (0 <? maxEntries t1) && (maxEntries t1 <=? Z.of_nat (size (attempts t1))) then evictOldestUnlockedFailureLocked t1 None else (t1, true)) = false ->
    keys_of (fst (if (0 <? maxEntries t1) && (maxEntries t1 <=? Z.of_nat (size (attempts t1))) then evictOldestUnlockedFailureLocked t1 None else (t1, true))) ip = []).
  { intros t1 Hc. destruct (_ && _); [|done]. intros Hr. destruct (evict_none t1 None Hr Hc) as [-> Hk]. apply Hk. }
  destruct (_ && _); cbn [negb]; [|apply Hsecond, Ht].
  pose proof (evict_none t (Some ip)) as He. destruct (evictOldestUnlockedFailureLocked t (Some ip)) as [t1 [|]]; cbn [negb fst snd] in *; [apply Hsecond, Ht1|].
  intros _. destruct (He eq_refl (sp_consistent _ _ _ _ _ Ht)) as [-> Hk]. exact Hk.
Qed.

(** *** Names in turn *)

Section Turns.
Context (p : LoginRateLimitPolicy) (ip : string).
Hypothesis policy : policy_ok p.
Hypothesis limit : 1 < FailureLimit p.
Hypothesis client : ip <> EmptyString.
Notation failure := (Time * loginAttemptKey)%type.
Notation spray := (sprayed ip (FailureWindow p)).
Implicit Types (H : list failure) (t : loginAttemptTracker).

(** The failures are in the order of their instants, up to [now]. *)
Definition timed (now : Time) H : Prop :=
  Forall (fun x => monotonic x.1 /\ tick x.1 <= tick now) H /\ StronglySorted (fun x y => tick x.1 <= tick y.1) H.

Lemma filter_split (P : failure -> Prop) {Hdec : forall x, Decision (P x)} (H : list failure) A x B : filter P H = A ++ x :: B -> exists H1 H2, H = H1 ++ x :: H2 /\ filter P H2 = B.
Proof.
  revert A. induction H as [|y H IH]; intros A E; [by destruct A|]. rewrite filter_cons in E. destruct (decide (P y)).
  - destruct A as [|a A]; [injection E as -> E; by exists [], H|]. injection E as <- E. destruct (IH A E) as (H1 & H2 & -> & ?). by exists (y :: H1), H2.
  - destruct (IH A E) as (H1 & H2 & -> & ?). by exists (y :: H1), H2.
Qed.

(** A name whose entry would be counted again is among the last 64. *)
Lemma own_among_last now H t key : spray now H t -> timed now H -> monotonic now -> (length (keys_of t ip) <= 64)%nat -> key ∈ keys_of t ip ->
  recent (FailureWindow p) now (stamp t key) -> key ∈ (drop (length H - 64) H).*2.
Proof.
  intros Ht [Hall Hsort] Hmono Hlen Hin Hrec.
  assert (Hx : stamp t key ∈ filter (recent (FailureWindow p) now) (stamps ip t)) by (apply list_elem_of_filter; split; [done|by apply list_elem_of_fmap_2]).
  destruct (sp_order _ _ _ _ _ Ht) as [A E]. apply list_elem_of_split in Hx as (B1 & B2 & EB). rewrite EB, app_assoc in E.
  destruct (filter_split _ _ _ _ _ E) as (H1 & H2 & -> & E2). rewrite Forall_app, Forall_cons in Hall. destruct Hall as (_ & [Hm1 Hle1] & Hall2).
  apply StronglySorted_app_1_r in Hsort as Hsort2. inversion Hsort2 as [|? ? _ Hafter]; subst.
  assert (Hlong : (length H2 < 64)%nat).
  { assert (Eid : filter (recent (FailureWindow p) now) H2 = H2).
    { clear -Hall2 Hafter Hrec Hm1 Hmono. induction H2 as [|y H2 IH]; [done|]. apply Forall_cons in Hall2 as [[Hy _] Hall2], Hafter as [Hyx Hafter].
      rewrite filter_cons_True; [by rewrite IH|]. revert Hrec Hyx. unfold recent, Sub, on_clocks, tick. destruct Hm1 as [a ->], Hmono as [b ->], Hy as [c ->]. cbn. lia. }
    rewrite <-Eid. pose proof (length_filter (recent (FailureWindow p) now) (stamps ip t)) as Hl. rewrite EB in Hl. unfold stamps in Hl.
    rewrite length_app, length_fmap in Hl. cbn [length] in Hl. rewrite Eid in *. lia. }
  rewrite length_app. cbn [length]. rewrite drop_app_le by lia. rewrite fmap_app. apply elem_of_app. right. rewrite fmap_cons. by left.
Qed.

Lemma own_entries_few t : failures_ok t -> maxEntriesPerIP t = 64 -> (length (keys_of t ip) <= 64)%nat.
Proof.
  intros [[_ Hi _ _ _] [_ _ Hip]] E. specialize (Hip ip client). rewrite E in Hip.
  destruct (linked_values _ _ _ _ (Hi ip)) as [Hn Hv]. enough (length (keys_of t ip) <= count_of (attempts t) ip)%nat by lia.
  unfold count_of. rewrite <-size_dom. unfold keys_of. rewrite <-(size_list_to_set (C := gset loginAttemptKey) (by_ip t ip).*2) by done.
  apply subseteq_size. intros k Hk. apply elem_of_list_to_set, Hv in Hk as (Hc & s & Hs & _). apply elem_of_dom. exists s. by apply map_lookup_filter_Some.
Qed.

Lemma other_key t key i : ordered (attempts t) t -> clientIP key <> i -> key ∉ keys_of t i.
Proof. intros [_ Hi _ _ _] Hne Hin. by apply (linked_values _ _ _ _ (Hi i)) in Hin as [? _]. Qed.

Lemma spray_longer now H x t : keys_of t ip = [] -> spray now H t -> spray now (H ++ [x]) t.
Proof. intros E [Ho Hc He _]. split; [done..|]. unfold stamps. rewrite E. apply suffix_nil. Qed.

(** The failure of a name that has no entry. *)
Lemma fresh_failure now H t key : spray now H t -> reading_ok now -> monotonic now -> attempts t !! key = None ->
  let '(t', locked) := (let '(t3, room) := ensureFailureCapacityLocked t (clientIP key) in
    if negb room then (t3, false) else count_failure (count_entry t3 (clientIP key)) key no_attempts (FailureLimit p) (LockDuration p) now) in
  spray now (H ++ if decide (clientIP key = ip) then [(now, key)] else []) t' /\ (clientIP key = ip -> locked = false).
Proof.
  intros Ht Hnow Hmono Hnone. pose proof policy as (_ & _ & Hdur & _). pose proof (ensure_sprayed ip (FailureWindow p) now H t (clientIP key) Ht) as Ht3.
  pose proof (ensure_none t ip now H (FailureWindow p) Ht client) as Hfull. pose proof (ensure_sub t (clientIP key) key) as Hsub.
  destruct (decide (clientIP key = ip)) as [Hip|Hip].
  - rewrite Hip in *. destruct (ensureFailureCapacityLocked t ip) as [t3 room]. cbn [fst snd] in *. destruct room; cbn [negb].
    + set (t4 := count_entry t3 ip). assert (Ht4 : spray now H t4) by by apply (sprayed_lists ip (FailureWindow p) now H t3).
      assert (Hnone4 : attempts t4 !! key = None) by (destruct (attempts t4 !! key) eqn:E4; [by apply Hsub in E4; congruence|done]).
      pose proof (count_own ip (FailureWindow p) now H t4 key (FailureLimit p) (LockDuration p) Ht4 Hnow Hmono (proj1 Hdur) limit Hip Hnone4) as Hown.
      pose proof (count_failure_parts t4 key no_attempts (FailureLimit p) (LockDuration p) now eq_refl) as Hparts.
      destruct (count_failure t4 key no_attempts (FailureLimit p) (LockDuration p) now) as [t' b]. cbn [fst] in Hown. destruct Hparts as (_ & _ & s' & _ & Hf & ->). split; [done|]. intros _.
      rewrite (locked_answer 0 (FailureLimit p) (LockDuration p) now s' Hnow (proj1 Hdur) Hf). by apply Z.leb_gt.
    + split; [|done]. apply spray_longer; [by apply Hfull|done].
  - destruct (ensureFailureCapacityLocked t (clientIP key)) as [t3 room]. cbn [fst snd] in *. rewrite app_nil_r. destruct room; cbn [negb]; [|split; [done|by intros ?]].
    set (t4 := count_entry t3 (clientIP key)). assert (Ht4 : spray now H t4) by by apply (sprayed_lists ip (FailureWindow p) now H t3).
    assert (Hnone4 : attempts t4 !! key = None) by (destruct (attempts t4 !! key) eqn:E4; [by apply Hsub in E4; congruence|done]).
    pose proof (count_other ip (FailureWindow p) now H t4 key no_attempts (FailureLimit p) (LockDuration p) Ht4 Hnow (proj1 Hdur) Hip eq_refl (or_introl (conj Hnone4 eq_refl))) as Ho.
    destruct (count_failure t4 key no_attempts (FailureLimit p) (LockDuration p) now) as [t' b]. by split.
Qed.

Lemma own_recent now H t key s : spray now H t -> reading_ok now -> attempts t !! key = Some s -> clientIP key = ip ->
  live s now = false /\ IsZero (lockedUntil s) = true /\ (loginAttemptFailureExpired s now (FailureWindow p) = false -> key ∈ keys_of t ip /\ recent (FailureWindow p) now (stamp t key)).
Proof.
  intros [[_ Hi _ Hpl _] _ He _] Hnow Hs Hip. destruct (He key s Hs Hip) as (Hz & _ & Hr). split; [by apply (unlocked_not_live now key)|]. split; [by rewrite Hz|].
  intros Hexp. split.
  - apply (linked_values _ _ _ _ (Hi ip)). split; [done|]. exists s. split; [done|]. specialize (Hpl key s Hs). unfold placed in Hpl. rewrite Hz in Hpl.
    destruct (globalOrderElement s), (ipOrderElement s); try done.
  - unfold recent, stamp. rewrite Hs. cbn [fst from_option]. unfold loginAttemptFailureExpired in Hexp. pose proof policy as (_ & Hwin & _).
    rewrite (proj2 (Z.ltb_lt _ _)) in Hexp by apply Hwin. unfold IsZero in Hexp. unfold reading_ok in Hr. rewrite (proj2 (Z.eqb_neq _ _)) in Hexp by lia. cbn [negb andb] in Hexp. by apply Z.ltb_ge in Hexp.
Qed.

(** The name that fails, if it is one of this client. *)
Definition failed_name (c : throttle_call) : option loginAttemptKey :=
  match c with CallRecordFailure key => if decide (clientIP key = ip) then Some key else None | _ => None end.
(** A question about a name of this client. *)
Definition about_client (c : throttle_call) : bool :=
  match c with CallIsLocked key | CallRecordFailure key => bool_decide (clientIP key = ip) | _ => false end.
Definition resets_client (c : throttle_call) : bool :=
  match c with CallReset key => bool_decide (clientIP key = ip) | _ => false end.

Lemma isLocked_turn now H t key : spray now H t -> reading_ok now ->
  let '(t', locked) := isLocked t key (FailureWindow p) now in spray now H t' /\ (clientIP key = ip -> locked = false).
Proof.
  intros Ht Hnow. pose proof policy as (_ & Hwin & _). unfold isLocked. pose proof (prune_sprayed ip (FailureWindow p) now H t Ht) as Ht1. set (t1 := pruneExpiredIfDueLocked _ _ _) in *.
  destruct (attempts t1 !! key) as [s|] eqn:Es; [|done]. fold (live s now). destruct (live s now) eqn:El.
  { split; [done|]. intros Hip. destruct (own_recent now H t1 key s Ht1 Hnow Es Hip) as [? _]. congruence. }
  destruct (_ || _) eqn:Eo; [|done]. split; [|done]. apply sprayed_delete; [done|]. apply (over_leaves ip (FailureWindow p) now H); [done|].
  intros s' Hs'. by assert (s' = s) as -> by congruence.
Qed.

Lemma recordFailure_turn now H t key : spray now H t -> timed now H -> reading_ok now -> monotonic now -> tracker_ok t -> maxEntriesPerIP t = 64 ->
  (clientIP key = ip -> key ∉ (drop (length H - 64) H).*2) ->
  let '(t', locked) := recordFailure t key (FailureLimit p) (FailureWindow p) (LockDuration p) now in
  spray now (H ++ if decide (clientIP key = ip) then [(now, key)] else []) t' /\ (clientIP key = ip -> locked = false).
Proof.
  intros Ht Htimed Hnow Hmono Hok Hmax Hnew. pose proof policy as (_ & Hwin & Hdur & _). unfold recordFailure.
  pose proof (prune_sprayed ip (FailureWindow p) now H t Ht) as Ht1. pose proof Hok as (Hl & Hf & _).
  pose proof (prune_over t now (FailureWindow p) Hl Hf) as (Hf1 & Hs1 & _). set (t1 := pruneExpiredIfDueLocked _ _ _) in *.
  assert (Hfew : (length (keys_of t1 ip) <= 64)%nat) by (apply own_entries_few; [done|]; destruct Hs1 as (_ & -> & _); done).
  destruct (attempts t1 !! key) as [s|] eqn:Es; [|by apply fresh_failure]. fold (live s now). destruct (live s now) eqn:El.
  { destruct (decide (clientIP key = ip)) as [Hip|Hip]; [|rewrite app_nil_r; by split].
    destruct (own_recent now H t1 key s Ht1 Hnow Es Hip) as [? _]. congruence. }
  cbn [negb]. rewrite andb_true_r. destruct (_ || _) eqn:Eo.
  - assert (Hleave : may_leave ip (FailureWindow p) now t1 key).
    { apply (over_leaves ip (FailureWindow p) now H); [done|]. intros s' Hs'. by assert (s' = s) as -> by congruence. }
    apply fresh_failure; [by apply sprayed_delete|done|done|]. rewrite (proj1 (delete_attempts t1 key)). apply lookup_delete_eq.
  - apply orb_false_iff in Eo as [Ez Eexp]. destruct (decide (clientIP key = ip)) as [Hip|Hip].
    + exfalso. destruct (own_recent now H t1 key s Ht1 Hnow Es Hip) as (_ & _ & Hr). destruct (Hr Eexp) as [Hin Hrec]. apply (Hnew Hip). by apply (own_among_last now H t1).
    + rewrite app_nil_r. assert (Hz : lockedUntil s = zero_time).
      { pose proof (ord_state _ _ (sp_ordered _ _ _ _ _ Ht1) key s Es) as Hp. unfold placed in Hp. apply negb_false_iff in Ez. destruct (globalOrderElement s), (ipOrderElement s); try done. congruence. }
      pose proof (count_other ip (FailureWindow p) now H t1 key s (FailureLimit p) (LockDuration p) Ht1 Hnow (proj1 Hdur) Hip Hz (or_intror Es)) as Ho.
      destruct (count_failure t1 key s (FailureLimit p) (LockDuration p) now) as [t' b]. by split.
Qed.

Definition failure_of (now : Time) (c : throttle_call) : list failure := match failed_name c with Some key => [(now, key)] | None => [] end.

Lemma throttle_turn now c H t : spray now H t -> timed now H -> reading_ok now -> monotonic now -> tracker_ok t -> maxEntriesPerIP t = 64 ->
  resets_client c = false -> (forall key, failed_name c = Some key -> key ∉ (drop (length H - 64) H).*2) ->
  let '(t', answer) := throttle p now c t in spray now (H ++ failure_of now c) t' /\ (about_client c = true -> answer = false).
Proof.
  intros Ht Htimed Hnow Hmono Hok Hmax Hres Hnew. pose proof policy as (_ & Hwin & _ & Hclim & Hcwin). destruct c as [key|key|i|key]; cbn [throttle failure_of failed_name about_client].
  - pose proof (isLocked_turn now H t key Ht Hnow) as Hl. destruct (isLocked _ _ _ _) as [t' b]. rewrite app_nil_r. destruct Hl as [? Hb]. split; [done|]. intros E. apply Hb. by apply bool_decide_eq_true in E.
  - pose proof (recordFailure_turn now H t key Ht Htimed Hnow Hmono Hok Hmax) as Hr. unfold failure_of. cbn [failed_name] in *.
    destruct (recordFailure _ _ _ _ _ _) as [t' b]. destruct Hr as [Hs Hb]; [intros Hip; apply Hnew; by rewrite decide_True|]. split; [by destruct (decide _)|]. intros E. apply Hb. by apply bool_decide_eq_true in E.
  - pose proof Hok as (Hl & _ & Hc). pose proof (allow_spec t i (CredentialCheckLimit p) (CredentialCheckWindow p) now Hl Hc Hclim (proj1 Hcwin)) as Ha.
    destruct (allowCredentialCheck _ _ _ _ _) as [t' b]. destruct Ha as (_ & (_ & _ & _ & E1 & _ & E2 & E3 & E4) & _). rewrite app_nil_r. split; [|done]. by apply (sprayed_lists ip (FailureWindow p) now H t).
  - rewrite app_nil_r. split; [|done]. apply bool_decide_eq_false in Hres. apply sprayed_delete; [done|]. left. apply other_key; [apply Ht|done].
Qed.

Lemma timed_later now now' H : timed now H -> tick now <= tick now' -> timed now' H.
Proof. intros [Ha Hs] Hle. split; [|done]. apply (Forall_impl _ _ _ Ha). intros x [? ?]. split; [done|lia]. Qed.
Lemma timed_snoc now c H : timed now H -> monotonic now -> timed now (H ++ failure_of now c).
Proof.
  intros [Ha Hs] Hm. unfold failure_of. destruct (failed_name c) as [key|]; [|by rewrite app_nil_r]. split.
  - apply Forall_app. split; [done|]. apply Forall_singleton. by split.
  - clear -Ha Hs. induction Hs as [|x H Hs IH Hx]; cbn [app]; [repeat constructor|]. apply Forall_cons in Ha as [[_ Hle] Ha]. constructor; [by apply IH|].
    apply Forall_app. split; [done|]. by apply Forall_singleton.
Qed.

(** Calls at instants in their order, by the monotonic clock, from [lo] on. *)
Fixpoint in_order (lo : Z) (calls : list (Time * throttle_call)) : Prop :=
  match calls with
  | [] => True
  | (now, _) :: calls => reading_ok now /\ monotonic now /\ lo <= tick now /\ in_order (tick now) calls
  end.
(** The names of the client that fail in these calls, in their order. *)
Definition failed_names (calls : list (Time * throttle_call)) : list loginAttemptKey := omap (fun '(_, c) => failed_name c) calls.
(** A name fails again only after [n] other failures at least. *)
Definition spaced (n : nat) (names : list loginAttemptKey) : Prop :=
  forall i j key, names !! i = Some key -> names !! j = Some key -> (i < j)%nat -> (i + n < j)%nat.

Lemma spaced_last (names past : list loginAttemptKey) key rest : spaced 64 names -> names = past ++ key :: rest -> key ∉ drop (length past - 64) past.
Proof.
  intros Hs -> (i & Hi)%list_elem_of_lookup. rewrite lookup_drop in Hi. pose proof (lookup_lt_Some _ _ _ Hi) as Hlt.
  pose proof (Hs (length past - 64 + i)%nat (length past) key) as H. rewrite lookup_app_l, list_lookup_middle in H by done. specialize (H Hi eq_refl). lia.
Qed.

Fixpoint answers (calls : list (Time * throttle_call)) (t : loginAttemptTracker) : list bool :=
  match calls with
  | [] => []
  | (now, c) :: calls => let '(t', b) := throttle p now c t in b :: answers calls t'
  end.

Lemma answers_in_turn names calls : spaced 64 names -> forall now H t, names = H.*2 ++ failed_names calls -> spray now H t -> timed now H -> monotonic now ->
  tracker_ok t -> maxEntriesPerIP t = 64 -> in_order (tick now) calls -> Forall (fun x => resets_client x.2 = false) calls ->
  forall i now' c, calls !! i = Some (now', c) -> about_client c = true -> answers calls t !! i = Some false.
Proof.
  intros Hs. induction calls as [|[n c] calls IH]; intros now H t En Ht Htimed Hmono Hok Hmax Hin Hres i now' c' Hi Hc'; [done|].
  destruct Hin as (Hn & Hm & Hle & Hin). apply Forall_cons in Hres as [Hr Hres].
  assert (Hall : Forall (fun x : failure => monotonic x.1) H) by (apply (Forall_impl _ _ _ (proj1 Htimed)); by intros x [? _]).
  apply (timed_later now n) in Htimed; [|done].
  pose proof (throttle_turn n c H t (sprayed_later ip (FailureWindow p) now n H t Hall Hmono Hm Hle Ht) Htimed Hn Hm Hok Hmax Hr) as Hturn.
  pose proof (throttle_kept p n c t policy Hn Hok) as (Hok' & _ & Emax & _). cbn [answers]. destruct (throttle p n c t) as [t' b] eqn:Et. cbn [fst] in *.
  assert (Enames : names = (H ++ failure_of n c).*2 ++ failed_names calls).
  { rewrite En, fmap_app, <-app_assoc. f_equal. unfold failed_names, failure_of. cbn. by destruct (failed_name c). }
  destruct Hturn as [Ht' Hb].
  { intros key Ek. rewrite fmap_drop, <-(length_fmap snd H). apply (spaced_last names _ key (failed_names calls)); [done|]. rewrite En. f_equal. unfold failed_names. cbn. by rewrite Ek. }
  destruct i as [|i]; cbn [lookup list_lookup] in Hi |- *.
  - injection Hi as <- <-. by rewrite Hb.
  - apply (IH n (H ++ failure_of n c) t') with now' c'; try done; [by apply timed_snoc|by rewrite Emax].
Qed.

End Turns.

(** C39: Failures of many names from one client are not counted.  Under any policy with a limit of at least two, from
    the start of the server, in any sequence of calls, for any clients, at instants in their order: if a name of a
    client fails again only after at least 64 other failures of that client, and none of its logins succeeds, then
    no call for a name of this client ever answers that it is locked, however often each of them fails within the
    window, because its entry makes room for those of the others before it fails again.  (The documentation says that
    every failure is counted, and that the threshold leads to a lock; in the witness 65 names fail six times each, and
    the limit is five.) *)
Theorem spraying_not_locked p ip calls lo i now c : policy_ok p -> 1 < FailureLimit p -> ip <> EmptyString ->
  in_order lo calls -> Forall (fun x => resets_client ip x.2 = false) calls -> spaced 64 (failed_names ip calls) ->
  calls !! i = Some (now, c) -> about_client ip c = true -> answers p calls newLoginAttemptTracker !! i = Some false.
Proof.
  intros Hp Hlim Hip Hin Hres Hs. set (start := {| wall := 0; mono := Some lo |}).
  apply (answers_in_turn p ip Hp Hlim Hip (failed_names ip calls) calls Hs start []); try done.
  - destruct new_tracker_ok as (_ & [Hord _] & _). split; [done|by intros j|by intros k s|]. apply suffix_nil.
  - split; constructor.
  - by exists lo.
  - exact new_tracker_ok.
Qed.

(** ** Concrete inputs *)

Lemma after_calls p calls : policy_ok p -> Forall (fun c => reading_ok c.1) calls -> forall t, tracker_ok t -> tracker_ok (throttle_all p calls t).
Proof.
  intros Hp Hall. induction Hall as [|[now c] calls Hn _ IH]; intros t Hok; [done|]. cbn [throttle_all]. apply IH. by apply (throttle_kept p now c t Hp Hn Hok).
Qed.

(** [n] seconds after the start of the machine, in November 2023. *)
Definition at_second (n : nat) : Time := {| wall := (1700000000 + Z.of_nat n) * 1000000000; mono := Some (Z.of_nat n * 1000000000) |}.
Lemma at_second_ok n : reading_ok (at_second n).
Proof. unfold reading_ok, at_second, zero_instant. cbn [wall]. lia. Qed.
Lemma default_policy_ok : policy_ok default_policy.
Proof. unfold policy_ok. repeat split; vm_compute; first [reflexivity|discriminate]. Qed.

Definition demo_client : string := "203.0.113.7".
Definition demo_name (n : nat) : loginAttemptKey := {| usernameDigest := String (ascii_of_nat n) EmptyString; clientIP := demo_client |}.

(** One failed login a second, of the names in [names] in turn, for some rounds. *)
Definition spray (names rounds : nat) : list (Time * throttle_call) :=
  imap (fun i n => (at_second i, CallRecordFailure (demo_name n))) (concat (repeat (seq 0 names) rounds)).

(** With 64 names each of them is locked after five failures, with 65 none is. *)
Example spraying_threshold :
  answers default_policy (spray 64 5) newLoginAttemptTracker = repeat false 256 ++ repeat true 64 /\
  answers default_policy (spray 65 6) newLoginAttemptTracker = repeat false 390.
Proof. split; vm_compute; reflexivity. Qed.

Fixpoint spacedb (n : nat) (names : list loginAttemptKey) : bool :=
  match names with
  | [] => true
  | key :: names => bool_decide (key ∉ take n names) && spacedb n names
  end.
Lemma spacedb_spaced n names : spacedb n names = true -> spaced n names.
Proof.
  induction names as [|x names IH]; [by intros _ i|]. cbn [spacedb]. intros [Hx%bool_decide_eq_true H]%andb_prop [|i] [|j] key Hi Hj Hlt; try lia; cbn in Hi, Hj.
  - injection Hi as <-. destruct (decide (n < S j)%nat); [done|]. destruct Hx. apply list_elem_of_lookup. exists j. rewrite lookup_take_lt by lia. done.
  - pose proof (IH H i j key Hi Hj). lia.
Qed.
Lemma in_order_spray l : forall lo n, lo <= Z.of_nat n * 1000000000 -> in_order lo (imap (fun i k => (at_second (n + i), CallRecordFailure (demo_name k))) l).
Proof.
  induction l as [|k l IH]; intros lo n Hlo; [done|]. cbn [imap in_order]. rewrite Nat.add_0_r.
  split; [apply at_second_ok|]. split; [by eexists|]. split; [done|].
  rewrite (imap_ext _ (fun i k => (at_second (S n + i), CallRecordFailure (demo_name k)))) by (intros i k' _; cbn; repeat f_equal; lia).
  apply IH. unfold tick. cbn. lia.
Qed.
Lemma spray_resets names rounds : Forall (fun x => resets_client demo_client x.2 = false) (spray names rounds).
Proof. apply Forall_forall. intros x (i & n & -> & _)%elem_of_lookup_imap. done. Qed.
Lemma spray_spaced : spaced 64 (failed_names demo_client (spray 65 6)).
Proof. apply spacedb_spaced. vm_compute. reflexivity. Qed.

Lemma spraying_not_locked_witness : answers default_policy (spray 65 6) newLoginAttemptTracker !! 389%nat = Some false.
Proof.
  apply (spraying_not_locked default_policy demo_client (spray 65 6) 0 389 (at_second 389) (CallRecordFailure (demo_name 64)) default_policy_ok).
  - vm_compute. reflexivity.
  - discriminate.
  - apply (in_order_spray _ 0 0%nat). discriminate.
  - apply spray_resets.
  - apply spray_spaced.
  - vm_compute. reflexivity.
  - reflexivity.
Defined.

Lemma throttle_invariant_witness : size (attempts (fst (throttle default_policy (at_second 1) (CallRecordFailure (demo_name 1)) newLoginAttemptTracker))) = 1%nat /\
  default 0 (entriesByIP (fst (throttle default_policy (at_second 1) (CallRecordFailure (demo_name 1)) newLoginAttemptTracker)) !! demo_client) = 1.
Proof.
  split; [vm_compute; reflexivity|].
  assert (Hr : rtc (throttle_step default_policy) newLoginAttemptTracker (fst (throttle default_policy (at_second 1) (CallRecordFailure (demo_name 1)) newLoginAttemptTracker))).
  { eapply rtc_l; [|apply rtc_refl]. apply throttle_called, at_second_ok. }
  destruct (throttle_invariant default_policy _ default_policy_ok Hr) as [H _]. rewrite H. vm_compute. reflexivity.
Defined.

(** Four failures of a name, and the fifth. *)
Definition demo_failures : list (Time * throttle_call) := map (fun i => (at_second i, CallRecordFailure (demo_name 1))) (seq 1 4).
Definition demo_tracker : loginAttemptTracker := throttle_all default_policy demo_failures newLoginAttemptTracker.
Lemma demo_tracker_ok : tracker_ok demo_tracker.
Proof.
  apply after_calls; [exact default_policy_ok| |exact new_tracker_ok]. apply Forall_forall. intros x Hx. unfold demo_failures in Hx.
  apply list_elem_of_fmap in Hx as (i & -> & _). apply at_second_ok.
Qed.

Lemma lock_holds_witness : snd (throttle default_policy (at_second 100) (CallIsLocked (demo_name 1))
    (throttle_all default_policy [(at_second 50, CallRecordFailure (demo_name 2))]
       (fst (throttle default_policy (at_second 5) (CallRecordFailure (demo_name 1)) demo_tracker)))) = true.
Proof.
  set (t' := fst (throttle default_policy (at_second 5) (CallRecordFailure (demo_name 1)) demo_tracker)).
  assert (E : throttle default_policy (at_second 5) (CallRecordFailure (demo_name 1)) demo_tracker = (t', true)).
  { assert (H : snd (throttle default_policy (at_second 5) (CallRecordFailure (demo_name 1)) demo_tracker) = true) by (vm_compute; reflexivity).
    unfold t'. destruct (throttle default_policy (at_second 5) (CallRecordFailure (demo_name 1)) demo_tracker) as [t1 b]. cbn [snd] in H. rewrite H. reflexivity. }
  destruct (lock_holds default_policy demo_tracker (at_second 5) (demo_name 1) t' default_policy_ok (at_second_ok 5) demo_tracker_ok E) as (s & Hs & _ & H).
  assert (Hu : lockedUntil <$> attempts t' !! demo_name 1 = Some (Add (at_second 5) (300 * 1000000000))) by (vm_compute; reflexivity).
  rewrite Hs in Hu. injection Hu as Hu. apply H; rewrite Hu; [|vm_compute; reflexivity].
  apply Forall_cons. split; [|apply Forall_nil; exact I]. split; [apply at_second_ok|]. split; [vm_compute; reflexivity|discriminate].
Defined.


Lemma password_checks_rationed_witness : let calls := map (fun i => (demo_client, at_second (i / 10))) (seq 10 60) in
  admitted newLoginAttemptTracker demo_client 12 (10 * 1000000000) calls = 12 /\
  admitted newLoginAttemptTracker demo_client 12 (10 * 1000000000) calls <= 24.
Proof.
  split; [vm_compute; reflexivity|].
  apply (password_checks_rationed default_policy newLoginAttemptTracker demo_client 1000000000 (map (fun i => (demo_client, at_second (i / 10))) (seq 10 60)));
    [exact default_policy_ok|apply new_tracker_ok|apply new_tracker_ok| | |vm_compute; discriminate].
  - intros ip s H. change ((∅ : checks_table) !! ip = Some s) in H. rewrite lookup_empty in H. discriminate H.
  - cbn [map seq]. cbn [timely]. repeat (split; [eexists; reflexivity|]; split; [vm_compute; discriminate|]; split; [split; vm_compute; first [reflexivity|discriminate]|]). exact I.
Defined.
End LoginThrottleProps.
