(* ===== verification/GoNet.v ===== *)
(** * Addresses of package [net]

    [net.ParseIP] (with the [netip.ParseAddr] under it), [IP.String], [IP.To4], [IP.IsLoopback], [net.ParseCIDR],
    [IPNet.Contains] and [net.SplitHostPort].  An address is the list of its 4 or 16 bytes.
    [GoNetSpec] proves that addresses are read back as they are written; [GoHttp] is what the code reads of a request
    of package [net/http]. *)

From Stdlib Require Import Ascii.
From S2P Require Import Prelude GoStrings GoPath GoRunes GoFormat.

Module GoNet.

Notation IP := (list Z).

(** ** Reading *)

(** The fields of a dotted address, from a byte on: the byte before it, the value of the field so far and the
    number of its digits. *)
Fixpoint parseIPv4Fields (s : string) (before : option ascii) (val digLen : Z) (fields : list Z) : option (list Z) :=
  match s with
  | EmptyString => if (length fields <? 3)%nat then None else Some (fields ++ [val])
  | String c s' =>
    if is_digit c then
      if (digLen =? 1) && (val =? 0) then None
      else if 255 <? val * 10 + digit_value c then None
      else parseIPv4Fields s' (Some c) (val * 10 + digit_value c) (digLen + 1) fields
    else if Ascii.eqb c "." then
      if match before with None => true | Some b => Ascii.eqb b "." end || String.eqb s' "" then None
      else if Nat.eqb (length fields) 3 then None
      else parseIPv4Fields s' (Some c) 0 0 (fields ++ [val])
    else None
  end.

Definition hex_value (c : ascii) : option Z :=
  if byte_in 48 57 c then Some (Z.of_N (N_of_ascii c) - 48)
  else if byte_in 97 102 c then Some (Z.of_N (N_of_ascii c) - 87)
  else if byte_in 65 70 c then Some (Z.of_N (N_of_ascii c) - 55)
  else None.

(** A hexadecimal number: its digits, its value and the rest. *)
Fixpoint scan_hex (s : string) (off acc : Z) : option (Z * Z * string) :=
  match s with
  | EmptyString => Some (off, acc, s)
  | String c s' =>
    match hex_value c with
    | None => Some (off, acc, s)
    | Some d => if 3 <? off then None else if 65535 <? acc * 16 + d then None else scan_hex s' (off + 1) (acc * 16 + d)
    end
  end.

(** The loop of [parseIPv6] with room for [room] groups: the rest, the place of the ellipsis and the bytes. *)
Fixpoint parse_groups (room : nat) (s : string) (ellipsis : option nat) (ip : list Z) : option (string * option nat * list Z) :=
  match room with
  | O => Some (s, ellipsis, ip)
  | S room =>
    match scan_hex s 0 0 with
    | None => None
    | Some (off, acc, rest) =>
      if off =? 0 then None
      else if HasPrefix rest "." then
        if match ellipsis with None => negb (Nat.eqb (length ip) 12) | Some _ => false end then None
        else if (16 <? length ip + 4)%nat then None
        else match parseIPv4Fields s None 0 0 [] with None => None | Some fields => Some (EmptyString, ellipsis, ip ++ fields) end
      else
        let ip := ip ++ [acc / 256; acc mod 256] in
        match rest with
        | EmptyString => Some (EmptyString, ellipsis, ip)
        | String c s' =>
          if negb (Ascii.eqb c ":") then None
          else match s' with
               | EmptyString => None
               | String c' s'' =>
                 if Ascii.eqb c' ":" then
                   if match ellipsis with None => false | Some _ => true end then None
                   else match s'' with
                        | EmptyString => Some (EmptyString, Some (length ip), ip)
                        | _ => parse_groups room s'' (Some (length ip)) ip
                        end
                 else parse_groups room s' ellipsis ip
               end
        end
    end
  end.

(** The bytes with the zeros of the ellipsis. *)
Definition expand (ellipsis : option nat) (ip : list Z) : option IP :=
  if (length ip <? 16)%nat then
    match ellipsis with
    | None => None
    | Some e => Some (take e ip ++ replicate (16 - length ip) 0 ++ drop e ip)
    end
  else match ellipsis with None => Some ip | Some _ => None end.

(** An address with a zone is no address of [net.ParseIP], and a zone must not be empty. *)
Definition parseIPv6 (s : string) : option IP :=
  if contains_byte "%" s then None
  else
    let '(s, ellipsis) := if HasPrefix s "::" then (str_drop 2 s, Some O) else (s, None) in
    if match ellipsis with Some _ => String.eqb s "" | None => false end then Some (replicate 16 0)
    else match parse_groups 8 s ellipsis [] with
         | None => None
         | Some (rest, ellipsis, ip) => if negb (String.eqb rest "") then None else expand ellipsis ip
         end.

Definition v4InV6Prefix : list Z := replicate 10 0 ++ [255; 255].

(** The kind of an address, by the first byte that tells. *)
Inductive addr_kind := Dotted | Colons | NoAddr.
Fixpoint kind_of (s : string) : addr_kind :=
  match s with
  | EmptyString => NoAddr
  | String c s' => if Ascii.eqb c "." then Dotted else if Ascii.eqb c ":" then Colons else if Ascii.eqb c "%" then NoAddr else kind_of s'
  end.

Definition net_ParseIP (s : string) : option IP :=
  match kind_of s with
  | Dotted => match parseIPv4Fields s None 0 0 [] with Some fields => Some (v4InV6Prefix ++ fields) | None => None end
  | Colons => parseIPv6 s
  | NoAddr => None
  end.

(** ** Writing *)

Definition To4 (ip : IP) : option IP :=
  if Nat.eqb (length ip) 4 then Some ip
  else if Nat.eqb (length ip) 16 && bool_decide (take 12 ip = v4InV6Prefix) then Some (drop 12 ip)
  else None.

Definition octet (n : Z) : string := if 100 <=? n then padded 3 n else if 10 <=? n then padded 2 n else padded 1 n.

Definition hex_digit (d : Z) : ascii := ascii_of_N (Z.to_N (if d <? 10 then 48 + d else 87 + d)).
Fixpoint hex_padded (width : nat) (z : Z) : string :=
  match width with
  | O => ""
  | S width' => hex_padded width' (z / 16) +:+ String (hex_digit (z mod 16)) ""
  end.
Definition hex_group (n : Z) : string :=
  if 4096 <=? n then hex_padded 4 n else if 256 <=? n then hex_padded 3 n else if 16 <=? n then hex_padded 2 n else hex_padded 1 n.

(** The 16-bit groups of the bytes. *)
Fixpoint groups (ip : list Z) : list Z :=
  match ip with
  | a :: b :: ip => a * 256 + b :: groups ip
  | _ => []
  end.

Fixpoint zero_run (zeros : list bool) : nat :=
  match zeros with
  | true :: zeros => S (zero_run zeros)
  | _ => O
  end.
(** The first longest run of at least two zeros, from group [i] on. *)
Fixpoint best_run (i : nat) (zeros : list bool) (best : nat * nat) : nat * nat :=
  match zeros with
  | [] => best
  | _ :: zeros' =>
    let l := zero_run zeros in
    best_run (S i) zeros' (if (2 <=? l)%nat && (snd best - fst best <? l)%nat then (i, i + l)%nat else best)
  end.

(** The groups from [i] on, with the run that is left out; each turn writes one group at least. *)
Fixpoint append_groups (turns i : nat) (gs : list Z) (run : nat * nat) : string :=
  match turns with
  | O => ""
  | S turns =>
    if (8 <=? i)%nat then ""
    else if Nat.eqb i (fst run) then
      "::" +:+ (if (8 <=? snd run)%nat then "" else hex_group (nth (snd run) gs 0) +:+ append_groups turns (S (snd run)) gs run)
    else (if (0 <? i)%nat then ":" else "") +:+ hex_group (nth i gs 0) +:+ append_groups turns (S i) gs run
  end.

(** The string of an address of 4 or 16 bytes. *)
Definition IP_String (ip : IP) : string :=
  match To4 ip with
  | Some p4 => Join "." (map octet p4)
  | None => let gs := groups ip in append_groups 8 0 gs (best_run 0 (map (Z.eqb 0) gs) (255, 255)%nat)
  end.

Definition IsLoopback (ip : IP) : bool :=
  match To4 ip with
  | Some p4 => hd 0 p4 =? 127
  | None => bool_decide (ip = replicate 15 0 ++ [1])
  end.

(** ** Networks *)

Record IPNet := { net_IP : IP; net_Mask : list Z }.

(** [net.CIDRMask]: [ones] ones in [bits / 8] bytes. *)
Definition CIDRMask (ones bits : Z) : list Z :=
  map (fun i => let n := Z.max 0 (Z.min 8 (ones - 8 * Z.of_nat i)) in 256 - 2 ^ (8 - n)) (seq 0 (Z.to_nat (bits / 8))).

Definition and_bytes (a b : list Z) : list Z := zip_with Z.land a b.

(** [IP.Mask] of an address of 16 bytes by a mask of 4 or 16. *)
Definition IP_Mask (ip : IP) (mask : list Z) : IP :=
  let ip := if Nat.eqb (length mask) 4 && Nat.eqb (length ip) 16 && bool_decide (take 12 ip = v4InV6Prefix) then drop 12 ip else ip in
  if Nat.eqb (length ip) (length mask) then and_bytes ip mask else [].

(** The leading digits of a number below 0xFFFFFF. *)
Fixpoint dtoi (s : string) (n : Z) (some : bool) : option (Z * string) :=
  match s with
  | String c s' => if is_digit c then (if 16777215 <=? n * 10 + digit_value c then None else dtoi s' (n * 10 + digit_value c) true)
                   else if some then Some (n, s) else None
  | EmptyString => if some then Some (n, s) else None
  end.

Definition ParseCIDR (s : string) : option IPNet :=
  let '(addr, mask, found) := Cut "/" s in
  if negb found then None
  else match net_ParseIP addr with
       | None => None
       | Some ip =>
         let bits := match kind_of addr with Dotted => 32 | _ => 128 end in
         match dtoi mask 0 false with
         | Some (n, EmptyString) =>
           if bits <? n then None
           else let m := CIDRMask n bits in Some {| net_IP := IP_Mask ip m; net_Mask := m |}
         | _ => None
         end
       end.

(** The address and the mask to compare with, of one length. *)
Definition networkNumberAndMask (n : IPNet) : option (IP * list Z) :=
  let ip := match To4 (net_IP n) with Some ip => ip | None => net_IP n end in
  if negb (Nat.eqb (length ip) 4 || Nat.eqb (length ip) 16) then None
  else if Nat.eqb (length (net_Mask n)) 4 then (if Nat.eqb (length ip) 4 then Some (ip, net_Mask n) else None)
  else if Nat.eqb (length (net_Mask n)) 16 then Some (ip, if Nat.eqb (length ip) 4 then drop 12 (net_Mask n) else net_Mask n)
  else None.

Definition Contains (n : IPNet) (ip : IP) : bool :=
  match networkNumberAndMask n with
  | None => false
  | Some (nn, m) =>
    let ip := match To4 ip with Some x => x | None => ip end in
    Nat.eqb (length ip) (length nn) && bool_decide (and_bytes nn m = and_bytes ip m)
  end.

(** ** Host and port *)

(** The text before and after the last [c]. *)
Fixpoint last_cut (c : ascii) (s : string) : option (string * string) :=
  match s with
  | EmptyString => None
  | String a s' =>
    match last_cut c s' with
    | Some (before, after) => Some (String a before, after)
    | None => if Ascii.eqb a c then Some (EmptyString, s') else None
    end
  end.

Definition SplitHostPort (hostport : string) : option (string * string) :=
  match last_cut ":" hostport with
  | None => None
  | Some (before, port) =>
    if HasPrefix hostport "[" then
      let '(bracketed, after, found) := Cut "]" hostport in
      if negb found then None
      else if negb (Nat.eqb (String.length before) (S (String.length bracketed))) then None
      else if contains_byte "[" (str_drop 1 hostport) || contains_byte "]" after then None
      else Some (str_drop 1 bracketed, port)
    else if contains_byte ":" before || contains_byte "[" hostport || contains_byte "]" hostport then None
    else Some (before, port)
  end.

Example parse_v4 : net_ParseIP "203.0.113.7" = Some (v4InV6Prefix ++ [203; 0; 113; 7]).
Proof. reflexivity. Qed.
Example parse_bad_v4 : map net_ParseIP ["1.2.3"; "1.2.3.4.5"; "01.2.3.4"; "256.1.1.1"; ".1.2.3"; "1..2.3"; "1.2.3."; "1.2.3.4%e"] = repeat None 8.
Proof. reflexivity. Qed.
Example parse_v6 : option_map IP_String (net_ParseIP "2001:DB8:0:0:1:0:0:1") = Some "2001:db8::1:0:0:1".
Proof. reflexivity. Qed.
Example parse_v6_dotted : option_map IP_String (net_ParseIP "::ffff:1.2.3.4") = Some "1.2.3.4" /\ option_map IP_String (net_ParseIP "64:ff9b::1.2.3.4") = Some "64:ff9b::102:304".
Proof. split; reflexivity. Qed.
Example parse_bad_v6 : map net_ParseIP ["1:2:3:4:5:6:7"; "1:2:3:4:5:6:7:8:9"; "1::2::3"; "12345::"; ":1"; "1:"; "1:2:3:4:5:6:7::8"; "fe80::1%eth0"] = repeat None 8.
Proof. vm_compute. reflexivity. Qed.
Example print_v6 : map (option_map IP_String) (map net_ParseIP ["::"; "::1"; "1::"; "0:0:1:0:0:0:0:2"; "1:0:2:0:3:0:4:0"]) =
  map Some ["::"; "::1"; "1::"; "0:0:1::2"; "1:0:2:0:3:0:4:0"].
Proof. vm_compute. reflexivity. Qed.
Example split_host_port : map SplitHostPort ["1.2.3.4:80"; "[::1]:80"; "[::1]"; "::1"; "1.2.3.4"; "[::1]x:80"; ":80"] =
  [Some ("1.2.3.4", "80"); Some ("::1", "80"); None; None; None; None; Some (EmptyString, "80")].
Proof. reflexivity. Qed.
Example cidr : option_map (fun n => map (Contains n) [v4InV6Prefix ++ [10; 1; 2; 3]; v4InV6Prefix ++ [11; 1; 2; 3]]) (ParseCIDR "10.0.0.0/8") = Some [true; false].
Proof. vm_compute. reflexivity. Qed.
End GoNet.

(** ** Addresses are read back as they are written

    The lemmas behind [ParseIP_String]: the string of an address of 16 bytes is parsed to that address, whatever run
    of zeros is left out; and what is parsed is an address of 16 bytes. *)
Import GoNet.

Module GoNetSpec.

Definition bytes_ok (ip : list Z) : Prop := Forall (fun b => 0 <= b < 256) ip.
Definition addr16 (ip : IP) : Prop := length ip = 16%nat /\ bytes_ok ip.

(** ** Dotted addresses *)

Lemma fields_digit d s before val digLen fields : 0 <= d < 10 -> val * 10 + d < 256 -> (digLen =? 1) && (val =? 0) = false ->
  parseIPv4Fields (String (digit d) s) before val digLen fields = parseIPv4Fields s (Some (digit d)) (val * 10 + d) (digLen + 1) fields.
Proof.
  intros Hd Hv Hz. destruct (digit_ok d Hd) as [H1 H2]. cbn [parseIPv4Fields]. rewrite H1, Hz, H2.
  rewrite (proj2 (Z.ltb_ge 255 _)) by lia. done.
Qed.

Lemma padded_last w n : padded (S w) n = padded w (n / 10) +:+ String (digit (n mod 10)) EmptyString.
Proof. reflexivity. Qed.

Lemma octet_cases n : 0 <= n < 256 ->
  (exists a, octet n = String (digit a) EmptyString /\ 0 <= a < 10 /\ n = a) \/
  (exists a b, octet n = String (digit a) (String (digit b) EmptyString) /\ 0 < a < 10 /\ 0 <= b < 10 /\ n = a * 10 + b) \/
  (exists a b c, octet n = String (digit a) (String (digit b) (String (digit c) EmptyString)) /\ 0 < a < 10 /\ 0 <= b < 10 /\ 0 <= c < 10 /\ n = (a * 10 + b) * 10 + c).
Proof.
  intros Hn. unfold octet. destruct (Z.leb_spec 100 n); [|destruct (Z.leb_spec 10 n)].
  - right. right. exists (n / 10 / 10 mod 10), (n / 10 mod 10), (n mod 10). split; [reflexivity|].
    pose proof (Z.div_mod n 10). pose proof (Z.div_mod (n / 10) 10). pose proof (Z.mod_pos_bound n 10). pose proof (Z.mod_pos_bound (n / 10) 10).
    rewrite (Z.mod_small (n / 10 / 10)) by (split; [repeat apply Z.div_pos; lia|repeat apply Z.div_lt_upper_bound; lia]). lia.
  - right. left. exists (n / 10 mod 10), (n mod 10). split; [reflexivity|]. pose proof (Z.div_mod n 10). pose proof (Z.mod_pos_bound n 10).
    rewrite (Z.mod_small (n / 10)) by (split; [apply Z.div_pos; lia|apply Z.div_lt_upper_bound; lia]). lia.
  - left. exists (n mod 10). split; [reflexivity|]. rewrite Z.mod_small by lia. lia.
Qed.

Lemma fields_octet n s before fields : 0 <= n < 256 ->
  exists c k, is_digit c = true /\ parseIPv4Fields (octet n +:+ s) before 0 0 fields = parseIPv4Fields s (Some c) n k fields.
Proof.
  intros Hn. destruct (octet_cases n Hn) as [(a & -> & Ha & ->)|[(a & b & -> & Ha & Hb & ->)|(a & b & c & -> & Ha & Hb & Hc & ->)]]; cbn [String.append].
  - eexists _, _. split; [|rewrite fields_digit by (done || lia)]; [by apply digit_ok|reflexivity].
  - eexists _, _. split; [|rewrite !fields_digit by (done || lia || (apply andb_false_iff; right; apply Z.eqb_neq; lia))]; [by apply digit_ok|reflexivity].
  - eexists _, _. split; [|rewrite !fields_digit by (done || lia || (apply andb_false_iff; right; apply Z.eqb_neq; lia))]; [by apply digit_ok|reflexivity].
Qed.

Lemma fields_dot s c n k fields : is_digit c = true -> s <> EmptyString -> (length fields < 3)%nat ->
  parseIPv4Fields (String "." s) (Some c) n k fields = parseIPv4Fields s (Some "."%char) 0 0 (fields ++ [n]).
Proof.
  intros Hc Hs Hl. cbn [parseIPv4Fields]. change (is_digit ".") with false. cbn [Ascii.eqb]. cbv iota beta.
  assert (Ascii.eqb c "." = false) as -> by (apply Ascii.eqb_neq; intros ->; done). assert (String.eqb s "" = false) as -> by by apply String.eqb_neq.
  cbn [orb]. rewrite (proj2 (Nat.eqb_neq _ _)) by lia. done.
Qed.

Lemma octet_not_empty n s : 0 <= n < 256 -> octet n +:+ s <> EmptyString.
Proof. intros Hn. by destruct (octet_cases n Hn) as [(a & -> & _)|[(a & b & -> & _)|(a & b & c & -> & _)]]. Qed.

Lemma parse_dotted a b c d : 0 <= a < 256 -> 0 <= b < 256 -> 0 <= c < 256 -> 0 <= d < 256 ->
  parseIPv4Fields (Join "." (map octet [a; b; c; d])) None 0 0 [] = Some [a; b; c; d].
Proof.
  intros Ha Hb Hc Hd. change (Join "." (map octet [a; b; c; d])) with (octet a +:+ String "." (octet b +:+ String "." (octet c +:+ String "." (octet d)))).
  destruct (fields_octet a (String "." (octet b +:+ String "." (octet c +:+ String "." (octet d)))) None [] Ha) as (x & k & Hx & ->).
  rewrite fields_dot by (first [by apply octet_not_empty|done|cbn; lia]).
  destruct (fields_octet b (String "." (octet c +:+ String "." (octet d))) (Some "."%char) ([] ++ [a]) Hb) as (y & k' & Hy & ->).
  rewrite fields_dot by (first [by apply octet_not_empty|done|cbn; lia]).
  destruct (fields_octet c (String "." (octet d)) (Some "."%char) (([] ++ [a]) ++ [b]) Hc) as (z & k'' & Hz & ->).
  rewrite fields_dot by (first [done|cbn; lia|rewrite <-(sapp_nil_r (octet d)); by apply octet_not_empty]).
  rewrite <-(sapp_nil_r (octet d)). destruct (fields_octet d EmptyString (Some "."%char) ((([] ++ [a]) ++ [b]) ++ [c]) Hd) as (w & k3 & _ & ->). reflexivity.
Qed.

(** ** Groups *)

Lemma hex_digit_value d : 0 <= d < 16 -> hex_value (hex_digit d) = Some d.
Proof.
  intros Hd. unfold hex_value, hex_digit, byte_in. destruct (Z.ltb_spec d 10); rewrite N_ascii_embedding by lia.
  - rewrite (proj2 (N.leb_le _ _)), (proj2 (N.leb_le _ 57)) by lia. cbn [andb]. f_equal. lia.
  - rewrite (proj2 (N.leb_gt (Z.to_N (87 + d)) 57)) by lia. rewrite andb_false_r, (proj2 (N.leb_le 97 _)), (proj2 (N.leb_le _ 102)) by lia. cbn [andb]. f_equal. lia.
Qed.

Lemma scan_digit d s off acc : 0 <= d < 16 -> off <= 3 -> acc * 16 + d < 65536 -> scan_hex (String (hex_digit d) s) off acc = scan_hex s (off + 1) (acc * 16 + d).
Proof. intros Hd Ho Ha. cbn [scan_hex]. rewrite hex_digit_value by done. by rewrite (proj2 (Z.ltb_ge 3 _)), (proj2 (Z.ltb_ge 65535 _)) by lia. Qed.

(** A group has one to four digits, and is scanned up to what follows it. *)
Lemma scan_group n s : 0 <= n < 65536 -> exists k, 0 < k /\ scan_hex (hex_group n +:+ s) 0 0 = scan_hex s k n.
Proof.
  intros Hn. unfold hex_group.
  assert (Hd : forall m, 0 <= m mod 16 < 16) by (intros; by apply Z.mod_pos_bound). assert (E : forall m, m = m / 16 * 16 + m mod 16) by (intros m; pose proof (Z.div_mod m 16); lia).
  assert (Hb : forall m b, 0 <= m < b * 16 -> 0 <= m / 16 < b) by (intros; split; [apply Z.div_pos; lia|apply Z.div_lt_upper_bound; lia]).
  pose proof (Hb n 4096). pose proof (Hb (n / 16) 256). pose proof (Hb (n / 16 / 16) 16).
  pose proof (Hd n). pose proof (Hd (n / 16)). pose proof (Hd (n / 16 / 16)). pose proof (E n). pose proof (E (n / 16)). pose proof (E (n / 16 / 16)).
  destruct (Z.leb_spec 4096 n); [|destruct (Z.leb_spec 256 n); [|destruct (Z.leb_spec 16 n)]]; cbn [hex_padded String.append].
  - exists 4. split; [done|]. rewrite (Z.mod_small (n / 16 / 16 / 16)) by lia. rewrite !scan_digit by lia. f_equal; lia.
  - exists 3. split; [done|]. assert (n / 16 / 16 < 16) by (apply Z.div_lt_upper_bound; [|apply Z.div_lt_upper_bound]; lia). rewrite (Z.mod_small (n / 16 / 16)) by lia. rewrite !scan_digit by lia. f_equal; lia.
  - exists 2. split; [done|]. assert (n / 16 < 16) by (apply Z.div_lt_upper_bound; lia). rewrite (Z.mod_small (n / 16)) by lia. rewrite !scan_digit by lia. f_equal; lia.
  - exists 1. split; [done|]. rewrite (Z.mod_small n) by lia. rewrite !scan_digit by lia. f_equal; lia.
Qed.

(** The bytes of groups. *)
Definition group_bytes (gs : list Z) : list Z := concat (map (fun g => [g / 256; g mod 256]) gs).
Definition groups_ok (gs : list Z) : Prop := Forall (fun g => 0 <= g < 65536) gs.

(** Groups joined by colons. *)
Definition colons (gs : list Z) : string := Join ":" (map hex_group gs).

(** What follows the groups: nothing, or a colon and more that is no colon. *)
Lemma parse_one room n s e ip : 0 <= n < 65536 ->
  parse_groups (S room) (hex_group n +:+ EmptyString) e ip = Some (EmptyString, e, ip ++ [n / 256; n mod 256]) /\
  (s <> EmptyString -> parse_groups (S room) (hex_group n +:+ String ":" s) e ip =
     match s with
     | String c s' => if Ascii.eqb c ":" then match e with
                                             | Some _ => None
                                             | None => match s' with
                                                       | EmptyString => Some (EmptyString, Some (length (ip ++ [n / 256; n mod 256])), ip ++ [n / 256; n mod 256])
                                                       | _ => parse_groups room s' (Some (length (ip ++ [n / 256; n mod 256]))) (ip ++ [n / 256; n mod 256])
                                                       end
                                             end
                      else parse_groups room s e (ip ++ [n / 256; n mod 256])
     | EmptyString => None
     end).
Proof.
  intros Hn. split.
  - destruct (scan_group n EmptyString Hn) as (k & Hk & E). cbn [parse_groups]. rewrite E. cbn [scan_hex]. by rewrite (proj2 (Z.eqb_neq k 0)) by lia.
  - intros Hs. destruct (scan_group n (String ":" s) Hn) as (k & Hk & E). cbn [parse_groups]. rewrite E. cbn [scan_hex]. change (hex_value ":") with (@None Z). cbv iota beta.
    rewrite (proj2 (Z.eqb_neq k 0)) by lia. destruct s as [|c s]; [done|]. cbn [HasPrefix String.prefix]. change (ascii_dec "." ":") with (ascii_dec "." ":").
    destruct (ascii_dec "." ":"); [done|]. cbn [Ascii.eqb negb]. destruct (Ascii.eqb c ":"); [|done]. by destruct e.
Qed.

(** ** Characters *)

(** The bytes that addresses are written with. *)
Definition hex_char (c : ascii) : bool := byte_in 48 57 c || byte_in 97 102 c.
Definition addr_char (c : ascii) : bool := hex_char c || Ascii.eqb c "." || Ascii.eqb c ":".
Definition all_chars (f : ascii -> bool) (s : string) : bool := forallb f (String.list_ascii_of_string s).

Lemma all_chars_app f s t : all_chars f (s +:+ t) = all_chars f s && all_chars f t.
Proof. unfold all_chars. by rewrite list_ascii_app, forallb_app. Qed.
Lemma all_chars_weaken f g s : (forall c, implb (f c) (g c) = true) -> all_chars f s = true -> all_chars g s = true.
Proof. intros H. unfold all_chars. rewrite !forallb_forall. intros Hs c Hc. specialize (H c). by rewrite (Hs c Hc) in H. Qed.
Lemma all_chars_Join f sep ws : all_chars f sep = true -> forallb (all_chars f) ws = true -> all_chars f (Join sep ws) = true.
Proof.
  intros Hsep. induction ws as [|w ws IH]; [done|]. cbn [forallb]. intros H. apply andb_true_iff in H as [Hw Hws]. destruct ws as [|w' ws]; [done|].
  change (Join sep (w :: w' :: ws)) with (w +:+ sep +:+ Join sep (w' :: ws)). rewrite !all_chars_app, Hw, Hsep. by apply IH.
Qed.

Lemma digit_hex d : 0 <= d < 10 -> hex_char (digit d) = true.
Proof. intros Hd. unfold hex_char. destruct (digit_ok d Hd) as [H _]. unfold is_digit in H. by rewrite H. Qed.
Lemma octet_hex n : 0 <= n < 256 -> all_chars hex_char (octet n) = true.
Proof.
  intros Hn. unfold all_chars.
  destruct (octet_cases n Hn) as [(a & -> & Ha & _)|[(a & b & -> & Ha & Hb & _)|(a & b & c & -> & Ha & Hb & Hc & _)]]; cbn [String.list_ascii_of_string forallb]; by rewrite !digit_hex by lia.
Qed.
Lemma hex_padded_hex w z : all_chars hex_char (hex_padded w z) = true.
Proof.
  revert z. induction w as [|w IH]; intros z; [done|]. cbn [hex_padded]. rewrite all_chars_app, IH. unfold all_chars. cbn [String.list_ascii_of_string forallb andb]. rewrite andb_true_r.
  unfold hex_char, hex_digit, byte_in. pose proof (Z.mod_pos_bound z 16). destruct (Z.ltb_spec (z mod 16) 10); rewrite N_ascii_embedding by lia.
  - by rewrite (proj2 (N.leb_le 48 _)), (proj2 (N.leb_le _ 57)) by lia.
  - rewrite (proj2 (N.leb_le 97 _)), (proj2 (N.leb_le _ 102)) by lia. by rewrite orb_true_r.
Qed.
Lemma hex_group_hex n : all_chars hex_char (hex_group n) = true.
Proof. unfold hex_group. repeat case_match; apply hex_padded_hex. Qed.
Lemma hex_group_head n : exists c s, hex_group n = String c s /\ hex_char c = true.
Proof.
  pose proof (hex_group_hex n) as H. destruct (hex_group n) as [|c s] eqn:E.
  - exfalso. apply (f_equal String.length) in E. unfold hex_group in E. repeat case_match; cbn [hex_padded] in E; rewrite sapp_length in E; cbn in E; lia.
  - exists c, s. split; [done|]. unfold all_chars in H. cbn in H. by apply andb_true_iff in H as [H _].
Qed.

(** Bytes that are no separator. *)
Lemma hex_char_table c : implb (hex_char c) (negb (Ascii.eqb c ".") && negb (Ascii.eqb c ":") && negb (Ascii.eqb c "%") && negb (Ascii.eqb c "[")) = true.
Proof. apply (all_bytes (fun c => implb (hex_char c) (negb (Ascii.eqb c ".") && negb (Ascii.eqb c ":") && negb (Ascii.eqb c "%") && negb (Ascii.eqb c "[")))). vm_compute. reflexivity. Qed.
Lemma hex_char_other c : hex_char c = true -> Ascii.eqb c "." = false /\ Ascii.eqb c ":" = false /\ Ascii.eqb c "%" = false /\ Ascii.eqb c "[" = false.
Proof. intros H. pose proof (hex_char_table c) as Hc. rewrite H in Hc. cbn [implb] in Hc. by destruct (Ascii.eqb c "."), (Ascii.eqb c ":"), (Ascii.eqb c "%"), (Ascii.eqb c "["). Qed.
Lemma kind_skip p s : all_chars hex_char p = true -> kind_of (p +:+ s) = kind_of s.
Proof.
  induction p as [|c p IH]; [done|]. unfold all_chars. cbn [String.list_ascii_of_string forallb]. intros H. apply andb_true_iff in H as [Hc Hp].
  cbn [String.append kind_of]. destruct (hex_char_other c Hc) as (-> & -> & -> & _). by apply IH.
Qed.
Lemma lacks_byte f x s : all_chars f s = true -> f x = false -> contains_byte x s = false.
Proof.
  intros Hs Hx. induction s as [|c s IH]; [done|]. unfold all_chars in Hs. cbn in Hs. apply andb_true_iff in Hs as [Hc Hs]. cbn [contains_byte].
  rewrite (IH Hs), orb_false_r. apply Ascii.eqb_neq. intros ->. congruence.
Qed.
Lemma no_byte x s : all_chars addr_char s = true -> addr_char x = false -> contains_byte x s = false.
Proof. apply lacks_byte. Qed.
Lemma hex_addr s : all_chars hex_char s = true -> all_chars addr_char s = true.
Proof. apply all_chars_weaken. intros c. unfold addr_char. by destruct (hex_char c). Qed.

(** ** Groups joined by colons *)

Lemma colons_cons g g' gs : colons (g :: g' :: gs) = hex_group g +:+ String ":" (colons (g' :: gs)).
Proof. reflexivity. Qed.
Lemma colons_head g gs : exists c s, colons (g :: gs) = String c s /\ hex_char c = true.
Proof. destruct (hex_group_head g) as (c & s & E & Hc). destruct gs; [|rewrite colons_cons]; unfold colons; cbn [map Join]; rewrite E; cbn [String.append]; eauto. Qed.

Lemma parse_colons gs : forall m e ip, gs <> [] -> groups_ok gs -> parse_groups (length gs + m) (colons gs) e ip = Some (EmptyString, e, ip ++ group_bytes gs).
Proof.
  induction gs as [|g gs IH]; intros m e ip Hne Hok; [done|]. inversion Hok as [|? ? Hg Hgs]; subst. destruct gs as [|g' gs].
  - destruct (parse_one m g EmptyString e ip Hg) as [H _]. change (colons [g]) with (hex_group g). rewrite sapp_nil_r in H. cbn [length Nat.add]. rewrite H. done.
  - rewrite colons_cons. destruct (colons_head g' gs) as (c & s & Ec & Hc). destruct (hex_char_other c Hc) as (_ & Hcol & _).
    destruct (parse_one (length (g' :: gs) + m) g (colons (g' :: gs)) e ip Hg) as [_ H]. cbn [length Nat.add] in *. rewrite H by (by rewrite Ec). rewrite Ec, Hcol, <-Ec.
    specialize (IH m e (ip ++ [g / 256; g mod 256])). cbn [length Nat.add] in IH. rewrite IH by done. cbn [group_bytes map concat]. by rewrite <-app_assoc.
Qed.

(** Groups before an ellipsis, with what follows it. *)
Lemma parse_ellipsis t gs : (t = EmptyString \/ exists c s, t = String c s /\ hex_char c = true) -> forall m ip, gs <> [] -> groups_ok gs ->
  parse_groups (length gs + m) (colons gs +:+ "::" +:+ t) None ip =
  match t with
  | EmptyString => Some (EmptyString, Some (length (ip ++ group_bytes gs)), ip ++ group_bytes gs)
  | _ => parse_groups m t (Some (length (ip ++ group_bytes gs))) (ip ++ group_bytes gs)
  end.
Proof.
  intros Ht. induction gs as [|g gs IH]; intros m ip Hne Hok; [done|]. inversion Hok as [|? ? Hg Hgs]; subst. destruct gs as [|g' gs].
  - change (colons [g] +:+ "::" +:+ t) with (hex_group g +:+ String ":" (String ":" t)). destruct (parse_one m g (String ":" t) None ip Hg) as [_ H]. cbn [length Nat.add]. rewrite H by done. reflexivity.
  - rewrite colons_cons. destruct (colons_head g' gs) as (c & s & Ec & Hc). destruct (hex_char_other c Hc) as (_ & Hcol & _).
    rewrite sapp_assoc. change (String ":" (colons (g' :: gs)) +:+ "::" +:+ t) with (String ":" (colons (g' :: gs) +:+ "::" +:+ t)).
    destruct (parse_one (length (g' :: gs) + m) g (colons (g' :: gs) +:+ "::" +:+ t) None ip Hg) as [_ H]. cbn [length Nat.add] in *. rewrite H by (by rewrite Ec).
    specialize (IH m (ip ++ [g / 256; g mod 256])). cbn [length Nat.add] in IH. rewrite Ec in *. cbn [String.append] in *. rewrite Hcol. rewrite IH by done. cbn [group_bytes map concat]. by rewrite <-app_assoc.
Qed.

(** ** The run that is left out *)

Definition run_checked (zeros : list bool) : bool :=
  let '(s, e) := best_run 0 zeros (255, 255)%nat in
  (Nat.eqb s 255 && Nat.eqb e 255) || ((s + 2 <=? e)%nat && (e <=? 8)%nat && forallb (fun i => nth i zeros false) (seq s (e - s))).

Lemma run_ok zeros : length zeros = 8%nat -> run_checked zeros = true.
Proof.
  intros H. do 8 (destruct zeros as [|[] zeros]; try discriminate H); destruct zeros; try discriminate H; vm_compute; reflexivity.
Qed.

Lemma length_eight {A} (l : list A) : length l = 8%nat -> exists a b c d e f g h, l = [a; b; c; d; e; f; g; h].
Proof. intros H. do 8 (destruct l as [|? l]; [discriminate H|]). destruct l; [|discriminate H]. by repeat eexists. Qed.

(** The string without run, and with one. *)
Ltac write_groups := unfold colons; cbn [take drop map Join append_groups Nat.leb Nat.eqb fst snd nth Nat.ltb]; rewrite ?sapp_assoc; cbn [String.append]; rewrite ?sapp_nil_r; reflexivity.
Lemma append_all gs : length gs = 8%nat -> append_groups 8 0 gs (255, 255)%nat = colons gs.
Proof. intros H. destruct (length_eight gs H) as (? & ? & ? & ? & ? & ? & ? & ? & ->). write_groups. Qed.

Lemma append_run gs s e : length gs = 8%nat -> (s + 2 <= e)%nat -> (e <= 8)%nat ->
  append_groups 8 0 gs (s, e) = colons (take s gs) +:+ "::" +:+ colons (drop e gs).
Proof.
  intros H Hs He. destruct (length_eight gs H) as (? & ? & ? & ? & ? & ? & ? & ? & ->).
  do 9 (destruct e as [|e]; [try lia; do 7 (destruct s as [|s]; [try lia; write_groups|]); lia|]). lia.
Qed.

(** ** Bytes and groups *)

Lemma group_bytes_app a b : group_bytes (a ++ b) = group_bytes a ++ group_bytes b.
Proof. unfold group_bytes. by rewrite map_app, concat_app. Qed.
Lemma group_bytes_length gs : length (group_bytes gs) = (2 * length gs)%nat.
Proof. unfold group_bytes. induction gs as [|g gs IH]; [done|]. cbn [map concat app length]. rewrite IH. lia. Qed.
Lemma group_bytes_zero n : group_bytes (replicate n 0) = replicate (2 * n) 0.
Proof. induction n as [|n IH]; [done|]. replace (2 * S n)%nat with (S (S (2 * n))) by lia. cbn [replicate]. rewrite <-IH. reflexivity. Qed.

Lemma groups_spec n ip : length ip = (2 * n)%nat -> bytes_ok ip -> length (groups ip) = n /\ groups_ok (groups ip) /\ group_bytes (groups ip) = ip.
Proof.
  revert ip. induction n as [|n IH]; intros ip Hl Hok; [destruct ip; [|done]; split; [done|]; split; [constructor|done]|].
  destruct ip as [|a [|b ip]]; [cbn in Hl; lia..|]. inversion Hok as [|? ? Ha Hok']; subst. inversion Hok' as [|? ? Hb Hok'']; subst.
  destruct (IH ip) as (H1 & H2 & H3); [cbn in Hl; lia|done|]. cbn [groups length]. rewrite H1. split; [done|]. split; [constructor; [lia|done]|].
  cbn [group_bytes map concat app]. fold (group_bytes (groups ip)). rewrite H3. f_equal; [|f_equal].
  - symmetry. apply (Z.div_unique_pos _ _ _ b); lia.
  - symmetry. apply (Z.mod_unique_pos _ _ a); lia.
Qed.

(** Groups that are zero between two places. *)
Lemma zero_between gs s e : length gs = 8%nat -> (s <= e)%nat -> (e <= 8)%nat ->
  forallb (fun i => nth i (map (Z.eqb 0) gs) false) (seq s (e - s)) = true -> gs = take s gs ++ replicate (e - s) 0 ++ drop e gs.
Proof.
  intros Hl Hs He Hz. rewrite forallb_forall in Hz.
  assert (Hm : take (e - s) (drop s gs) = replicate (e - s) 0).
  { symmetry. apply replicate_as_elem_of. split; [rewrite length_take, length_drop; lia|]. intros x Hx. apply list_elem_of_lookup in Hx as [i Hx]. apply lookup_take_Some in Hx as [Hx Hi]. rewrite lookup_drop in Hx.
    specialize (Hz (s + i)%nat). rewrite in_seq in Hz. specialize (Hz ltac:(lia)). change false with (Z.eqb 0 1) in Hz. rewrite map_nth in Hz. apply Z.eqb_eq in Hz.
    rewrite (nth_lookup_Some _ _ 1 x) in Hz by done. done. }
  rewrite <-Hm. rewrite <-(take_drop s gs) at 1. f_equal. rewrite <-(take_drop (e - s) (drop s gs)) at 1. f_equal. rewrite drop_drop. f_equal. lia.
Qed.

(** ** Reading what was written *)

Lemma parseIPv6_colons gs : length gs = 8%nat -> groups_ok gs -> parseIPv6 (colons gs) = Some (group_bytes gs).
Proof.
  intros Hl Hok. unfold parseIPv6. destruct gs as [|g gs]; [done|]. destruct (colons_head g gs) as (c & t & Ec & Hc).
  rewrite no_byte; [|unfold colons; apply all_chars_Join; [done|]; apply forallb_forall; intros x Hx; apply in_map_iff in Hx as (y & <- & _); apply hex_addr, hex_group_hex|done].
  assert (HasPrefix (colons (g :: gs)) "::" = false) as ->.
  { rewrite Ec. unfold HasPrefix. cbn [String.prefix]. destruct (ascii_dec ":" c) as [<-|]; done. }
  pose proof (parse_colons (g :: gs) 0 None [] ltac:(done) Hok) as H. rewrite Nat.add_0_r, Hl in H. rewrite H.
  cbn [String.eqb negb app]. unfold expand. rewrite group_bytes_length, Hl. reflexivity.
Qed.

Lemma colons_addr gs : all_chars addr_char (colons gs) = true.
Proof. unfold colons. apply all_chars_Join; [done|]. apply forallb_forall. intros x Hx. apply in_map_iff in Hx as (y & <- & _). apply hex_addr, hex_group_hex. Qed.
Lemma colons_start gs t : gs <> [] -> HasPrefix (colons gs +:+ t) "::" = false.
Proof.
  intros Hne. destruct gs as [|g gs]; [done|]. destruct (colons_head g gs) as (c & s & -> & Hc). unfold HasPrefix. cbn [String.append String.prefix].
  destruct (ascii_dec ":" c) as [<-|]; done.
Qed.
Lemma colons_tail gs : colons gs = EmptyString \/ exists c s, colons gs = String c s /\ hex_char c = true.
Proof. destruct gs as [|g gs]; [by left|right; apply colons_head]. Qed.
Lemma after_colons t : String.prefix "::" ("::" +:+ t) = true.
Proof. by destruct t. Qed.

(** Groups around an ellipsis. *)
Lemma parseIPv6_run pre post : groups_ok pre -> groups_ok post -> (length pre + length post < 8)%nat ->
  parseIPv6 (colons pre +:+ "::" +:+ colons post) = Some (group_bytes pre ++ replicate (16 - 2 * (length pre + length post)) 0 ++ group_bytes post).
Proof.
  intros Hpre Hpost Hl. unfold parseIPv6. rewrite no_byte by (rewrite ?all_chars_app, ?colons_addr; done).
  assert (Hexp : forall ip e, e = length (group_bytes pre) -> ip = group_bytes pre ++ group_bytes post ->
    expand (Some e) ip = Some (group_bytes pre ++ replicate (16 - 2 * (length pre + length post)) 0 ++ group_bytes post)).
  { intros ip e -> ->. unfold expand. rewrite length_app, !group_bytes_length. rewrite (proj2 (Nat.ltb_lt _ _)) by lia.
    rewrite <-(group_bytes_length pre) at 1. rewrite take_app_length. rewrite <-(group_bytes_length pre) at 2. rewrite drop_app_length. do 4 f_equal. lia. }
  destruct (decide (pre = [])) as [->|Hne].
  - change (colons [] +:+ "::" +:+ colons post) with ("::" +:+ colons post). unfold HasPrefix at 1. rewrite after_colons. cbn [str_drop String.append].
    destruct post as [|g post]; [reflexivity|]. destruct (colons_head g post) as (c & t & Ec & _).
    assert (String.eqb (colons (g :: post)) "" = false) as -> by (by rewrite Ec).
    pose proof (parse_colons (g :: post) (8 - length (g :: post)) (Some 0%nat) [] ltac:(done) Hpost) as H. cbn [length] in Hl, H. rewrite <-Nat.le_add_sub in H by lia.
    rewrite H. cbn [String.eqb negb]. by apply Hexp.
  - rewrite colons_start by done.
    pose proof (parse_ellipsis (colons post) pre (colons_tail post) (8 - length pre) [] Hne Hpre) as H. rewrite <-Nat.le_add_sub in H by lia. rewrite H. clear H. cbn [app].
    destruct post as [|g post].
    + cbn [colons map Join String.eqb negb]. apply Hexp; [done|]. by rewrite app_nil_r.
    + destruct (colons_head g post) as (c & t & Ec & _). rewrite Ec, <-Ec.
      pose proof (parse_colons (g :: post) (8 - length pre - length (g :: post)) (Some (length (group_bytes pre))) (group_bytes pre) ltac:(done) Hpost) as H. cbn [length] in Hl, H.
      rewrite <-Nat.le_add_sub in H by lia. rewrite H. cbn [String.eqb negb]. by apply Hexp.
Qed.

Lemma groups_ok_take n gs : groups_ok gs -> groups_ok (take n gs).
Proof. apply Forall_take. Qed.
Lemma groups_ok_drop n gs : groups_ok gs -> groups_ok (drop n gs).
Proof. apply Forall_drop. Qed.

Lemma kind_colons gs t : kind_of (colons gs +:+ String ":" t) = Colons.
Proof.
  revert t. induction gs as [|g gs IH]; intros t; [done|]. destruct gs as [|g' gs].
  - change (colons [g]) with (hex_group g). by rewrite kind_skip by apply hex_group_hex.
  - rewrite colons_cons, sapp_assoc. by rewrite kind_skip by apply hex_group_hex.
Qed.

(** What an address of 16 bytes is written as: its last four bytes, or its groups around a run of zeros, or all of them. *)
Lemma IP_String_cases ip : addr16 ip ->
  (exists a b c d, ip = v4InV6Prefix ++ [a; b; c; d] /\ 0 <= a < 256 /\ 0 <= b < 256 /\ 0 <= c < 256 /\ 0 <= d < 256 /\ IP_String ip = Join "." (map octet [a; b; c; d])) \/
  (exists g gs, length gs = 7%nat /\ groups_ok (g :: gs) /\ ip = group_bytes (g :: gs) /\ IP_String ip = colons (g :: gs)) \/
  (exists pre post, groups_ok pre /\ groups_ok post /\ (length pre + length post < 8)%nat /\
     ip = group_bytes pre ++ replicate (16 - 2 * (length pre + length post)) 0 ++ group_bytes post /\ IP_String ip = colons pre +:+ "::" +:+ colons post).
Proof.
  intros [Hl Hok]. unfold IP_String, To4. rewrite Hl. cbn [Nat.eqb andb]. destruct (bool_decide_reflect (take 12 ip = v4InV6Prefix)) as [Hp|Hp].
  - left. pose proof (take_drop 12 ip) as E. rewrite Hp in E. pose proof (length_drop ip 12) as Hd. rewrite Hl in Hd.
    destruct (drop 12 ip) as [|a [|b [|c [|d [|]]]]]; try discriminate Hd. subst ip.
    unfold bytes_ok in Hok. rewrite Forall_app in Hok. destruct Hok as [_ Hok]. repeat match goal with H : Forall _ (_ :: _) |- _ => inversion H; clear H; subst end. by exists a, b, c, d.
  - right. destruct (groups_spec 8 ip Hl Hok) as (Hg & Hgok & Hb). set (gs := groups ip) in *.
    pose proof (run_ok (map (Z.eqb 0) gs) ltac:(by rewrite length_map)) as Hr. unfold run_checked in Hr.
    destruct (best_run 0 (map (Z.eqb 0) gs) (255, 255)%nat) as [s e]. apply orb_true_iff in Hr as [Hr|Hr].
    + left. apply andb_true_iff in Hr as [->%Nat.eqb_eq ->%Nat.eqb_eq]. rewrite append_all by done. destruct gs as [|g gs0] eqn:E; [done|]. exists g, gs0. by injection Hg as Hg.
    + right. apply andb_true_iff in Hr as [Hr Hz]. apply andb_true_iff in Hr as [H1%Nat.leb_le H2%Nat.leb_le].
      exists (take s gs), (drop e gs). split; [by apply groups_ok_take|]. split; [by apply groups_ok_drop|]. rewrite length_take, length_drop, Hg. split; [lia|]. split; [|by apply append_run].
      rewrite <-Hb. rewrite (zero_between gs s e) at 1 by (done || lia). rewrite !group_bytes_app, group_bytes_zero. do 3 f_equal. lia.
Qed.

(** The string of an address is parsed to that address. *)
Lemma net_ParseIP_String ip : addr16 ip -> net_ParseIP (IP_String ip) = Some ip.
Proof.
  intros Hip. destruct (IP_String_cases ip Hip) as [(a & b & c & d & -> & Ha & Hb & Hc & Hd & ->)|[(g & gs & Hl & Hok & Hb & ->)|(pre & post & Hpre & Hpost & Hl & -> & ->)]]; unfold net_ParseIP.
  - change (kind_of (Join "." (map octet [a; b; c; d]))) with (kind_of (octet a +:+ String "." (octet b +:+ String "." (octet c +:+ String "." (octet d))))).
    rewrite kind_skip by by apply octet_hex. cbn [kind_of Ascii.eqb]. cbv iota beta. by rewrite parse_dotted by done.
  - destruct gs as [|g' gs]; [done|]. rewrite colons_cons. change (hex_group g) with (colons [g]) at 1. rewrite kind_colons.
    change (colons [g] +:+ String ":" (colons (g' :: gs))) with (hex_group g +:+ String ":" (colons (g' :: gs))). rewrite <-colons_cons.
    rewrite parseIPv6_colons; [by rewrite Hb|cbn [length] in *; lia|done].
  - change ("::" +:+ colons post) with (String ":" (String ":" (colons post))). rewrite kind_colons. by apply parseIPv6_run.
Qed.

(** It is not empty and has no other bytes than those of addresses. *)
Lemma IP_String_chars ip : addr16 ip -> all_chars addr_char (IP_String ip) = true /\ IP_String ip <> EmptyString.
Proof.
  intros Hip. destruct (IP_String_cases ip Hip) as [(a & b & c & d & _ & Ha & Hb & Hc & Hd & ->)|[(g & gs & Hl & Hok & _ & ->)|(pre & post & Hpre & Hpost & Hl & _ & ->)]].
  - split; [|by apply octet_not_empty]. apply all_chars_Join; [done|]. cbn [map forallb]. by rewrite !hex_addr by by apply octet_hex.
  - split; [apply colons_addr|]. by destruct (colons_head g gs) as (c & s & -> & _).
  - split; [by rewrite !all_chars_app, !colons_addr|]. destruct (colons_tail pre) as [->|(c & s & -> & _)]; [|done]. by destruct (colons post).
Qed.

(** ** What is parsed *)

Lemma fields_valid s : forall before val digLen fields r, parseIPv4Fields s before val digLen fields = Some r ->
  0 <= val < 256 -> bytes_ok fields -> (length fields <= 3)%nat -> length r = 4%nat /\ bytes_ok r.
Proof.
  induction s as [|c s IH]; intros before val digLen fields r H Hv Hf Hl; cbn [parseIPv4Fields] in H.
  - destruct (Nat.ltb_spec (length fields) 3); [done|]. injection H as <-. rewrite length_app. cbn. split; [lia|]. apply Forall_app. split; [done|by constructor].
  - destruct (is_digit c) eqn:Ed.
    + destruct (_ && _); [done|]. destruct (Z.ltb_spec 255 (val * 10 + digit_value c)); [done|]. destruct (digit_of_value c Ed). by eapply IH; [exact H|lia|..].
    + destruct (Ascii.eqb c "."); [|done]. destruct (_ || _); [done|]. destruct (Nat.eqb_spec (length fields) 3); [done|]. eapply IH; [exact H|done| |].
      * apply Forall_app. split; [done|by constructor].
      * rewrite length_app. cbn. lia.
Qed.

Lemma hex_value_range c d : hex_value c = Some d -> 0 <= d < 16.
Proof.
  unfold hex_value, byte_in. intros H.
  repeat match type of H with context [if ?b then _ else _] => destruct b eqn:? end; try done; injection H as <-; match goal with E : andb _ _ = true |- _ => apply andb_true_iff in E as [?%N.leb_le ?%N.leb_le] end; lia.
Qed.
Lemma scan_valid s : forall off acc off' acc' rest, scan_hex s off acc = Some (off', acc', rest) -> 0 <= acc < 65536 -> 0 <= acc' < 65536.
Proof.
  induction s as [|c s IH]; intros off acc off' acc' rest H Ha; cbn [scan_hex] in H; [congruence|].
  destruct (hex_value c) as [d|] eqn:E; [|congruence]. destruct (3 <? off); [done|]. destruct (Z.ltb_spec 65535 (acc * 16 + d)); [done|].
  pose proof (hex_value_range c d E). eapply IH; [exact H|lia].
Qed.

Lemma groups_valid room : forall s e ip s' e' r, parse_groups room s e ip = Some (s', e', r) -> bytes_ok ip -> (length ip + 2 * room <= 16)%nat ->
  bytes_ok r /\ (length r <= 16)%nat.
Proof.
  induction room as [|room IH]; intros s e ip s' e' r H Hok Hl; cbn [parse_groups] in H; [injection H as _ _ <-; split; [done|lia]|].
  destruct (scan_hex s 0 0) as [[[off acc] rest]|] eqn:Es; [|done]. pose proof (scan_valid s _ _ _ _ _ Es ltac:(lia)) as Ha. destruct (off =? 0); [done|].
  assert (Hip : bytes_ok (ip ++ [acc / 256; acc mod 256])).
  { apply Forall_app. split; [done|]. pose proof (Z.mod_pos_bound acc 256). repeat constructor; try lia; [apply Z.div_pos; lia|apply Z.div_lt_upper_bound; lia]. }
  assert (Hlen : length (ip ++ [acc / 256; acc mod 256]) = (length ip + 2)%nat) by (by rewrite length_app).
  destruct (HasPrefix rest ".").
  - destruct (match e with None => _ | Some _ => _ end); [done|]. destruct (Nat.ltb_spec 16 (length ip + 4)); [done|].
    destruct (parseIPv4Fields s None 0 0 []) as [fields|] eqn:Ef; [|done]. destruct (fields_valid _ _ _ _ _ _ Ef ltac:(lia) ltac:(constructor) ltac:(cbn; lia)) as [Hfl Hfok].
    injection H as _ _ <-. split; [apply Forall_app; done|rewrite length_app; lia].
  - destruct rest as [|c rest]; [injection H as _ _ <-; split; [done|lia]|]. destruct (negb _); [done|]. destruct rest as [|c' rest]; [done|].
    destruct (Ascii.eqb c' ":").
    + destruct (match e with None => _ | Some _ => _ end); [done|]. destruct rest; [injection H as _ _ <-; split; [done|lia]|]. eapply IH; [exact H|done|lia].
    + eapply IH; [exact H|done|lia].
Qed.

Lemma expand_valid e ip r : expand e ip = Some r -> bytes_ok ip -> (length ip <= 16)%nat -> addr16 r.
Proof.
  unfold expand. intros H Hok Hl. destruct (Nat.ltb_spec (length ip) 16); destruct e as [e|]; try done; injection H as <-.
  - split; [rewrite !length_app, length_replicate, length_take, length_drop; lia|]. unfold bytes_ok. rewrite !Forall_app. split_and!; [by apply Forall_take| |by apply Forall_drop].
    apply Forall_replicate. lia.
  - split; [lia|done].
Qed.

Lemma net_ParseIP_valid s ip : net_ParseIP s = Some ip -> addr16 ip.
Proof.
  unfold net_ParseIP. destruct (kind_of s).
  - destruct (parseIPv4Fields s None 0 0 []) as [fields|] eqn:E; [|done]. intros [= <-]. destruct (fields_valid _ _ _ _ _ _ E ltac:(lia) ltac:(constructor) ltac:(cbn; lia)) as [Hl Hok].
    split; [cbn [length app v4InV6Prefix replicate]; lia|]. repeat (constructor; [lia|]). exact Hok.
  - unfold parseIPv6. destruct (contains_byte "%" s); [done|]. destruct (if HasPrefix s "::" then _ else _) as [t e]. destruct (match e with Some _ => _ | None => _ end).
    + intros [= <-]. split; [done|]. repeat (constructor; [lia|]). constructor.
    + destruct (parse_groups 8 t e []) as [[[rest e'] r]|] eqn:E; [|done]. destruct (negb _); [done|]. intros H.
      destruct (groups_valid _ _ _ _ _ _ _ E ltac:(constructor) ltac:(cbn; lia)). by eapply expand_valid.
  - done.
Qed.
End GoNetSpec.

(** ** Requests of package [net/http]

    What the code reads of a request: the method, the path of the URL, the header lines by their canonical names, the
    cookies, the address of the peer and whether the connection uses TLS.  The syntax of HTTP is not modelled: a
    request is given as the server has parsed it. *)
Module GoHttp.

Record Request := {
  Method : string; URL_Path : string; Header : gmap string (list string); Cookies : list (string * string);
  RemoteAddr : string; TLS : bool }.

Definition MethodGet : string := "GET".
Definition MethodHead : string := "HEAD".
Definition MethodPost : string := "POST".

(** [textproto.CanonicalMIMEHeaderKey] of a name of letters, digits and hyphens. *)
Fixpoint canonical_from (upper : bool) (s : string) : string :=
  match s with
  | EmptyString => EmptyString
  | String c s' =>
    let n := N_of_ascii c in
    let c' := if upper && byte_in 97 122 c then ascii_of_N (n - 32) else if negb upper && byte_in 65 90 c then ascii_of_N (n + 32) else c in
    String c' (canonical_from (Ascii.eqb c "-") s')
  end.
Definition CanonicalHeaderKey (s : string) : string := canonical_from true s.

(** [Header.Get]: the first line of that name. *)
Definition Header_Get (h : gmap string (list string)) (key : string) : string :=
  match h !! CanonicalHeaderKey key with
  | Some (line :: _) => line
  | _ => EmptyString
  end.

Example canonical_key : CanonicalHeaderKey "X-MnemoNAS-Session-Mode" = "X-Mnemonas-Session-Mode".
Proof. reflexivity. Qed.
End GoHttp.
