(* ===== verification/RequestIP.v ===== *)
(** * The addresses of requests

    Package [requestip] ([internal/requestip/requestip.go]): the address of the client of a request and whether it came
    over HTTPS, behind reverse proxies.  The two settings of the package are a record, which stands for what the
    atomic variables hold when a request is looked at. *)

From Stdlib Require Import Ascii.
From S2P Require Import Prelude GoStrings GoPath GoFormat GoNet.
Import GoNet GoHttp.

Module RequestIP.

Record proxies := { trustedProxyHops : Z; trustedProxyCIDRs : list IPNet }.

(** What [init] stores. *)
Definition init_proxies : proxies := {| trustedProxyHops := 0; trustedProxyCIDRs := [] |}.

Definition SetTrustedProxyHops (s : proxies) (hops : Z) : proxies :=
  {| trustedProxyHops := int32 (if hops <? 0 then 0 else hops); trustedProxyCIDRs := trustedProxyCIDRs s |}.

(** ** Addresses *)

(** [value[1 : len(value)-1]] *)
Definition unbracket (s : string) : string := String.substring 1 (String.length s - 2) s.

Definition ParseIP (value : string) : option IP :=
  let trimmed := TrimSpace value in
  if String.eqb trimmed "" then None
  else
    let trimmed :=
      match SplitHostPort trimmed with
      | Some (String c host, _) => String c host
      | _ => if HasPrefix trimmed "[" && HasSuffix trimmed "]" then unbracket trimmed else trimmed
      end in
    let '(address, _, _) := Cut "%" trimmed in
    net_ParseIP address.

Definition NormalizeIPString (value : string) : string :=
  match ParseIP value with
  | Some parsed => IP_String parsed
  | None => value
  end.

Definition RemoteIP (remoteAddr : string) : string :=
  let trimmed := TrimSpace remoteAddr in
  if String.eqb trimmed "" then EmptyString
  else match SplitHostPort trimmed with
       | Some (String c host, _) => NormalizeIPString (String c host)
       | _ => NormalizeIPString trimmed
       end.

(** ** Trusted proxies *)

Definition normalizeNetworkIP (ip : IP) : IP := match To4 ip with Some ipv4 => ipv4 | None => ip end.

Definition parseTrustedProxyCIDR (value : string) : option IPNet :=
  if contains_byte "/" value
  then match ParseCIDR value with
       | None => None
       | Some network => Some {| net_IP := normalizeNetworkIP (net_IP network); net_Mask := net_Mask network |}
       end
  else match ParseIP value with
       | None => None
       | Some ip =>
         let ip := normalizeNetworkIP ip in
         let bits := match To4 ip with Some _ => 32 | None => 128 end in
         Some {| net_IP := ip; net_Mask := CIDRMask bits bits |}
       end.

Fixpoint parseTrustedProxyCIDRs (cidrs : list string) : option (list IPNet) :=
  match cidrs with
  | [] => Some []
  | raw :: cidrs =>
    let value := TrimSpace raw in
    if String.eqb value "" then parseTrustedProxyCIDRs cidrs
    else match parseTrustedProxyCIDR value with
         | None => None
         | Some network => match parseTrustedProxyCIDRs cidrs with None => None | Some networks => Some (network :: networks) end
         end
  end.

(** The settings, and whether the networks could be parsed. *)
Definition SetTrustedProxyCIDRs (s : proxies) (cidrs : list string) : proxies * bool :=
  match parseTrustedProxyCIDRs cidrs with
  | None => (s, false)
  | Some networks => ({| trustedProxyHops := trustedProxyHops s; trustedProxyCIDRs := networks |}, true)
  end.

Definition IsTrustedForwardedSource (s : proxies) (ip : string) : bool :=
  match ParseIP ip with
  | None => false
  | Some parsed => IsLoopback parsed || existsb (fun network => Contains network parsed) (trustedProxyCIDRs s)
  end.

(** ** Requests *)

(** The addresses of the header, in their order; what is none is left out. *)
Definition validIPs (forwarded : string) : list string :=
  omap (fun part => match ParseIP (TrimSpace part) with Some parsed => Some (IP_String parsed) | None => None end) (Split "," forwarded).

Definition selectForwardedForClientIP (forwarded : string) (hops : Z) : string :=
  if hops <=? 0 then EmptyString
  else
    let validIPs := validIPs forwarded in
    if Z.of_nat (length validIPs) <? hops then EmptyString
    else nth (length validIPs - Z.to_nat hops) validIPs EmptyString.

Definition ForwardedClientIP (s : proxies) (r : Request) : string :=
  let forwarded := TrimSpace (Header_Get (Header r) "X-Forwarded-For") in
  let selected := if String.eqb forwarded "" then EmptyString else selectForwardedForClientIP forwarded (trustedProxyHops s) in
  if negb (String.eqb selected "") then selected
  else if trustedProxyHops s =? 1
  then
    let realIP := TrimSpace (Header_Get (Header r) "X-Real-IP") in
    if String.eqb realIP "" then EmptyString
    else match ParseIP realIP with Some parsed => IP_String parsed | None => EmptyString end
  else EmptyString.

Definition ClientIP (s : proxies) (r : Request) : string :=
  let remoteIP := RemoteIP (RemoteAddr r) in
  let forwardedIP := if IsTrustedForwardedSource s remoteIP then ForwardedClientIP s r else EmptyString in
  if negb (String.eqb forwardedIP "") then forwardedIP
  else if negb (String.eqb remoteIP "") then remoteIP
  else
    let remoteAddr := TrimSpace (RemoteAddr r) in
    if negb (String.eqb remoteAddr "") then remoteAddr else "unknown".

Definition RequestIsHTTPS `{Unicode} (s : proxies) (r : Request) : bool :=
  if TLS r then true
  else if trustedProxyHops s <=? 0 then false
  else if negb (IsTrustedForwardedSource s (RemoteIP (RemoteAddr r))) then false
  else EqualFold (TrimSpace (Header_Get (Header r) "X-Forwarded-Proto")) "https".

Definition RequestScheme `{Unicode} (s : proxies) (r : Request) : string := if RequestIsHTTPS s r then "https" else "http".
End RequestIP.
