(* ===== verification/RequestIPProps.v ===== *)
(** * The addresses of requests: properties *)

From Stdlib Require Import Ascii.
From S2P Require Import Prelude GoStrings GoPath GoRunes GoFormat GoNet RequestIP.
Import GoNet GoNetSpec GoHttp RequestIP.

Module RequestIPProps.

(** ** Lists of runes cut at commas *)

Notation runelist := (list (rune * string)).
Fixpoint rsplit (l : runelist) : list runelist :=
  match l with
  | [] => [[]]
  | x :: l => if (x.1 =? 44)%N then [] :: rsplit l else match rsplit l with w :: ws => (x :: w) :: ws | [] => [[x]] end
  end.
Definition no_comma (l : runelist) : Prop := Forall (fun x => x.1 <> 44%N) l.

Lemma rsplit_not_nil l : rsplit l <> [].
Proof. destruct l as [|x l]; [done|]. cbn [rsplit]. destruct (_ =? _)%N; [done|]. by destruct (rsplit l). Qed.
Lemma rsplit_none l : no_comma l -> rsplit l = [l].
Proof. induction 1 as [|x l Hx Hl IH]; [done|]. cbn [rsplit]. rewrite (proj2 (N.eqb_neq _ _)) by done. by rewrite IH. Qed.
Lemma rsplit_app l1 b l2 : rsplit (l1 ++ (44%N, b) :: l2) = rsplit l1 ++ rsplit l2.
Proof.
  induction l1 as [|x l1 IH]; [done|]. cbn [app rsplit]. rewrite IH. destruct (_ =? _)%N; [done|].
  pose proof (rsplit_not_nil l1). by destruct (rsplit l1).
Qed.
Lemma rsplit_rev l : rsplit (rev l) = rev (map (@rev _) (rsplit l)).
Proof.
  induction l as [|[r b] l IH]; [done|]. cbn [rev rsplit fst]. destruct (N.eqb_spec r 44) as [->|Hr].
  - rewrite rsplit_app, IH. reflexivity.
  - assert (H : forall l, rsplit (l ++ [(r, b)]) = removelast (rsplit l) ++ [List.last (rsplit l) [] ++ [(r, b)]]).
    { clear -Hr. induction l as [|x l IH]; [cbn; by rewrite (proj2 (N.eqb_neq _ _)) by done|]. cbn [app rsplit]. rewrite IH. pose proof (rsplit_not_nil l).
      destruct (_ =? _)%N; [destruct (rsplit l); [done|reflexivity]|]. destruct (rsplit l) as [|w [|w' ws]]; [done|reflexivity|reflexivity]. }
    rewrite H, IH. pose proof (rsplit_not_nil l). destruct (rsplit l) as [|w ws]; [done|]. cbn [map rev].
    by rewrite removelast_last, last_last.
Qed.
Lemma rsplit_drop l : rsplit (drop_space l) = match rsplit l with w :: ws => drop_space w :: ws | [] => [] end.
Proof.
  induction l as [|[r b] l IH]; [done|]. cbn [drop_space rsplit fst]. destruct (IsSpace r) eqn:Es.
  - assert ((r =? 44)%N = false) as -> by (apply N.eqb_neq; by intros ->). rewrite IH. pose proof (rsplit_not_nil l). destruct (rsplit l) as [|w ws]; [done|]. cbn [drop_space]. by rewrite Es.
  - cbn [rsplit fst]. destruct (r =? 44)%N; [done|]. destruct (rsplit l) as [|w ws]; cbn [drop_space]; by rewrite Es.
Qed.

(** ** Trimming the parts *)

Definition trim (l : runelist) : runelist := rev (drop_space (rev (drop_space l))).

Lemma drop_trim l : trim (drop_space l) = trim l.
Proof. unfold trim. by rewrite drop_space_idem. Qed.
Lemma rdrop_trim l : trim (rev (drop_space (rev l))) = trim l.
Proof.
  unfold trim. f_equal.
  (** Both ends commute. *)
  assert (H : forall l, drop_space (rev (drop_space (rev l))) = rev (drop_space (rev (drop_space l)))).
  { clear l. intros l. induction l as [|[r b] l IH] using rev_ind; [done|]. rewrite rev_app_distr. cbn [rev app drop_space]. destruct (IsSpace r) eqn:Es.
    - rewrite IH. destruct (decide (drop_space l = [])) as [E|Hne].
      + assert (drop_space (l ++ [(r, b)]) = []) as ->; [|by rewrite E]. clear -E Es. induction l as [|[r' b'] l IH]; cbn [app drop_space] in *; [by rewrite Es|]. destruct (IsSpace r'); [by apply IH|done].
      + assert (drop_space (l ++ [(r, b)]) = drop_space l ++ [(r, b)]) as ->.
        { clear -Hne. induction l as [|[r' b'] l IH]; [done|]. cbn [app drop_space] in *. destruct (IsSpace r'); [by apply IH|done]. }
        rewrite rev_app_distr. cbn [rev app drop_space]. by rewrite Es.
    - cbn [rev]. rewrite rev_involutive. destruct (decide (drop_space l = [])) as [E|Hne].
      + assert (drop_space (l ++ [(r, b)]) = [(r, b)]) as ->; [|cbn; by rewrite Es]. clear -E Es. induction l as [|[r' b'] l IH]; cbn [app drop_space] in *; [by rewrite Es|]. destruct (IsSpace r'); [by apply IH|done].
      + assert (drop_space (l ++ [(r, b)]) = drop_space l ++ [(r, b)]) as ->.
        { clear -Hne. induction l as [|[r' b'] l IH]; [done|]. cbn [app drop_space] in *. destruct (IsSpace r'); [by apply IH|done]. }
        rewrite rev_app_distr. cbn [rev app drop_space]. rewrite Es. cbn [rev]. by rewrite rev_involutive. }
  rewrite (H (drop_space (rev l))), drop_space_idem, H. apply rev_involutive.
Qed.

Lemma map_trim_split l : map trim (rsplit (trim l)) = map trim (rsplit l).
Proof.
  assert (Hl : forall l, map trim (rsplit (drop_space l)) = map trim (rsplit l)).
  { intros m. rewrite rsplit_drop. pose proof (rsplit_not_nil m). destruct (rsplit m) as [|w ws]; [done|]. cbn [map]. by rewrite drop_trim. }
  assert (Hr : forall l, map trim (rsplit (rev (drop_space (rev l)))) = map trim (rsplit l)).
  { intros m. rewrite rsplit_rev, rsplit_drop. rewrite <-(rev_involutive m) at 2. rewrite (rsplit_rev (rev m)). pose proof (rsplit_not_nil (rev m)).
    destruct (rsplit (rev m)) as [|w ws]; [done|]. cbn [map rev]. rewrite !map_app. f_equal. cbn [map]. f_equal.
    rewrite <-(rdrop_trim (rev w)), rev_involutive. done. }
  unfold trim at 2. by rewrite Hr, Hl.
Qed.

(** ** Header lines *)

Lemma TrimSpace_trim s : TrimSpace s = concat_bytes (trim (runes s)).
Proof. reflexivity. Qed.
Lemma runes_TrimSpace s : runes (TrimSpace s) = trim (runes s).
Proof.
  unfold TrimSpace. fold (trim (runes s)). destruct (drop_space_suffix (runes s)) as [pre E1]. destruct (drop_space_suffix (rev (drop_space (runes s)))) as [post E2].
  assert (E : drop_space (runes s) = trim (runes s) ++ rev post) by (unfold trim; rewrite <-rev_app_distr, <-E2; by rewrite rev_involutive).
  rewrite E in E1. destruct (runes_cut pre s _ E1) as (_ & _ & H). by destruct (runes_cut (trim (runes s)) _ _ H) as (_ & H' & _).
Qed.

Lemma Split_app_byte c s t : Split c (s +:+ String c t) = Split c s ++ Split c t.
Proof.
  induction s as [|a s IH]; simpl; [by rewrite Ascii.eqb_refl|]. rewrite IH. destruct (Ascii.eqb a c); [done|].
  destruct (Split c s) eqn:E; [by apply Split_not_nil in E|done].
Qed.

Lemma runes_no_comma s : contains_byte "," s = false -> no_comma (runes s).
Proof.
  remember (String.length s) as n eqn:Hn. assert (Hle : (String.length s <= n)%nat) by lia. clear Hn. revert s Hle.
  induction n as [|n IH]; intros [|a s] Hle H; try constructor; [cbn in Hle; lia|].
  destruct (runes_first a s) as (r & b & rest & E & Hb & Hr & _). pose proof (runes_first_ascii a s) as Ha. rewrite Hr in *.
  assert (Hrest : contains_byte "," rest = false).
  { clear -E H. rewrite E in H. clear E. induction b as [|x b IH]; [done|]. cbn in H. apply orb_false_iff in H as [_ H]. by apply IH. }
  constructor.
  - cbn. intros ->. assert (Hasc : ascii_byte a = true) by by apply Ha. change (String a s) with (String a EmptyString +:+ s) in Hr. rewrite runes_ascii_app in Hr by (cbn; by rewrite Hasc).
    rewrite runes_of_ascii in Hr by (cbn; by rewrite Hasc). cbn in Hr. injection Hr as Hr _ _. cbn in H.
    assert (a = ","%char) as -> by (rewrite <-(ascii_N_embedding a), Hr; reflexivity). done.
  - apply IH; [|done]. apply (f_equal String.length) in E. rewrite sapp_length in E. destruct b; [done|]. cbn in *. lia.
Qed.

Lemma split_runes s : map runes (Split "," s) = rsplit (runes s).
Proof.
  remember (String.length s) as n eqn:Hn. assert (Hle : (String.length s <= n)%nat) by lia. clear Hn. revert s Hle. induction n as [|n IH]; intros s Hle.
  { destruct s; [done|cbn in Hle; lia]. }
  destruct (contains_byte "," s) eqn:Hc.
  - assert (exists a t, s = a +:+ String "," t /\ contains_byte "," a = false) as (a & t & -> & Ha).
    { clear -Hc. induction s as [|x s IH]; [done|]. cbn in Hc. destruct (Ascii.eqb x ",") eqn:E; [apply Ascii.eqb_eq in E as ->; by exists EmptyString, s|].
      destruct (IH Hc) as (a & t & -> & Ha). exists (String x a), t. cbn. by rewrite E. }
    rewrite Split_app by done. cbn [map]. rewrite IH by (rewrite sapp_length in Hle; cbn in Hle; lia). rewrite runes_app_ascii by done.
    change (runes (String "," t)) with ((44%N, ",") :: runes t). rewrite rsplit_app, (rsplit_none (runes a)) by by apply runes_no_comma. done.
  - rewrite Split_no_sep by done. by rewrite rsplit_none by by apply runes_no_comma.
Qed.

Lemma split_trimmed s : map TrimSpace (Split "," (TrimSpace s)) = map TrimSpace (Split "," s).
Proof.
  assert (E : forall t, map TrimSpace (Split "," t) = map concat_bytes (map trim (rsplit (runes t)))).
  { intros t. rewrite <-split_runes, !map_map. apply map_ext. intros w. apply TrimSpace_trim. }
  by rewrite !E, runes_TrimSpace, map_trim_split.
Qed.

Definition parsed (part : string) : option string := match ParseIP part with Some ip => Some (IP_String ip) | None => None end.
Lemma validIPs_parsed s : validIPs s = omap parsed (map TrimSpace (Split "," s)).
Proof. unfold validIPs. induction (Split "," s) as [|w ws IH]; [done|]. cbn. cbn in IH. unfold parsed at 1. by rewrite IH. Qed.

Lemma validIPs_trimmed s : validIPs (TrimSpace s) = validIPs s.
Proof. by rewrite !validIPs_parsed, split_trimmed. Qed.
Lemma validIPs_app s t : validIPs (s +:+ String "," t) = validIPs s ++ validIPs t.
Proof. unfold validIPs. rewrite Split_app_byte. apply omap_app. Qed.
Lemma validIPs_strings s : Forall (fun x => exists ip, addr16 ip /\ x = IP_String ip) (validIPs s).
Proof.
  rewrite validIPs_parsed. apply Forall_forall. intros x Hx. apply list_elem_of_omap in Hx as (w & _ & Hw). unfold parsed in Hw.
  destruct (ParseIP w) as [ip|] eqn:E; [|done]. injection Hw as <-. exists ip. split; [|done]. unfold ParseIP in E. destruct (String.eqb _ _); [done|].
  destruct (Cut _ _) as [[address a] b]. by eapply net_ParseIP_valid.
Qed.

Lemma IP_String_not_empty ip : addr16 ip -> String.eqb (IP_String ip) "" = false.
Proof. intros H. apply String.eqb_neq. by apply IP_String_chars. Qed.

(** ** Canonical addresses *)

Lemma addr_char_ascii c : addr_char c = true -> ascii_byte c = true /\ IsSpace (N_of_ascii c) = false.
Proof.
  intros H. pose proof (all_bytes (fun c => implb (addr_char c) (ascii_byte c && negb (IsSpace (N_of_ascii c)))) eq_refl c) as Hc. cbv beta in Hc.
  rewrite H in Hc. cbn [implb] in Hc. by destruct (ascii_byte c), (IsSpace (N_of_ascii c)).
Qed.
Lemma no_space_drop l : Forall (fun x => IsSpace x.1 = false) l -> drop_space l = l.
Proof. destruct 1 as [|[r b] l H _]; [done|]. cbn in *. by rewrite H. Qed.
Lemma addr_trimmed s : all_chars addr_char s = true -> TrimSpace s = s.
Proof.
  intros H. unfold all_chars in H. apply trimmed_TrimSpace. rewrite runes_of_ascii.
  - assert (Hs : Forall (fun x => IsSpace x.1 = false) (map (fun a => (N_of_ascii a, String a EmptyString)) (String.list_ascii_of_string s))).
    { apply Forall_forall. intros x Hx. apply list_elem_of_fmap in Hx as (a & -> & Ha). cbn. apply addr_char_ascii. rewrite forallb_forall in H. by apply H, list_elem_of_In. }
    split; apply no_space_drop; [done|]. by apply List.Forall_rev.
  - apply forallb_forall. intros a Ha. rewrite forallb_forall in H. by apply addr_char_ascii, H.
Qed.

Lemma last_cut_none c s : contains_byte c s = false -> last_cut c s = None.
Proof. induction s as [|a s IH]; [done|]. cbn. intros H. apply orb_false_iff in H as [Ha Hs]. by rewrite IH, Ha. Qed.
Lemma last_cut_some c s : contains_byte c s = true -> is_Some (last_cut c s).
Proof.
  induction s as [|a s IH]; [done|]. cbn. intros H. destruct (last_cut c s) as [[b t]|] eqn:E; [done|]. destruct (Ascii.eqb a c); [done|]. cbn in H. by destruct (IH H).
Qed.
Lemma last_cut_app c x s : contains_byte c s = true -> exists b a, last_cut c (x +:+ String c s) = Some (b, a) /\ contains_byte c b = true.
Proof.
  intros Hs. induction x as [|y x (b & a & E & Hb)].
  - cbn. destruct (last_cut_some c s Hs) as [[b a] ->]. eexists _, _. split; [done|]. cbn. by rewrite Ascii.eqb_refl.
  - cbn [String.append last_cut]. rewrite E. eexists _, _. split; [done|]. cbn. by rewrite Hb, orb_true_r.
Qed.

Lemma no_host_port ip : addr16 ip -> SplitHostPort (IP_String ip) = None.
Proof.
  intros Hip. destruct (IP_String_chars ip Hip) as [Hc _]. assert (Hb : HasPrefix (IP_String ip) "[" = false).
  { destruct (IP_String ip) as [|c s]; [done|]. unfold HasPrefix. cbn [String.prefix]. destruct (ascii_dec "[" c) as [<-|]; done. }
  assert (Htwo : forall x s, IP_String ip = x +:+ String ":" s -> contains_byte ":" s = true -> SplitHostPort (IP_String ip) = None).
  { intros x s E Hs. unfold SplitHostPort. rewrite Hb, E. destruct (last_cut_app ":" x s Hs) as (b & a & -> & ->). done. }
  destruct (IP_String_cases ip Hip) as [(a & b & c & d & _ & Ha & Hb' & Hc' & Hd & E)|[(g & gs & Hl & Hok & _ & E)|(pre & post & Hpre & Hpost & Hl & _ & E)]].
  - unfold SplitHostPort. rewrite last_cut_none; [done|]. rewrite E. cbn [map Join]. rewrite !contains_byte_app. by rewrite !(lacks_byte hex_char ":" (octet _)) by (done || by apply octet_hex).
  - destruct gs as [|g1 [|g2 gs]]; try done. apply (Htwo (hex_group g) (colons (g1 :: g2 :: gs))); [by rewrite E, colons_cons|].
    rewrite colons_cons, contains_byte_app. cbn. by rewrite orb_true_r.
  - apply (Htwo (colons pre) (String ":" (colons post))); [by rewrite E|done].
Qed.

Lemma Cut_none c s : contains_byte c s = false -> Cut c s = (s, EmptyString, false).
Proof. induction s as [|a s IH]; [done|]. cbn. intros H. apply orb_false_iff in H as [-> H]. by rewrite IH. Qed.

Lemma ParseIP_String ip : addr16 ip -> ParseIP (IP_String ip) = Some ip.
Proof.
  intros Hip. destruct (IP_String_chars ip Hip) as [Hc Hne]. unfold ParseIP. rewrite addr_trimmed by done. rewrite IP_String_not_empty, no_host_port by done.
  assert (HasPrefix (IP_String ip) "[" = false) as ->.
  { destruct (IP_String ip) as [|c s]; [done|]. unfold HasPrefix. cbn [String.prefix]. destruct (ascii_dec "[" c) as [<-|]; done. }
  cbn [andb]. rewrite Cut_none by by apply no_byte. by apply net_ParseIP_String.
Qed.

Lemma ParseIP_valid v ip : ParseIP v = Some ip -> addr16 ip.
Proof. unfold ParseIP. destruct (String.eqb _ _); [done|]. destruct (Cut _ _) as [[address a] b]. apply net_ParseIP_valid. Qed.

(** C30: Texts of an address are brought to one form: two texts that can be read are normalised to the same string exactly
    when they name the same address, however that is written (with a port, in brackets, with a zone, as an IPv4
    address mapped into IPv6, in capitals, with any zeros left out); and that string is read back as the address and
    is its own normal form. *)
Theorem addresses_canonical v ip : ParseIP v = Some ip ->
  ParseIP (NormalizeIPString v) = Some ip /\ NormalizeIPString (NormalizeIPString v) = NormalizeIPString v /\
  (forall w ip', ParseIP w = Some ip' -> (NormalizeIPString v = NormalizeIPString w <-> ip = ip')).
Proof.
  intros Hv. pose proof (ParseIP_valid v ip Hv) as Hip. unfold NormalizeIPString at 1 3 4 5. rewrite Hv. rewrite ParseIP_String by done. split; [done|]. split.
  - unfold NormalizeIPString. by rewrite ParseIP_String.
  - intros w ip' Hw. unfold NormalizeIPString. rewrite Hw. split; [|by intros ->]. intros E. pose proof (ParseIP_String ip Hip) as H1.
    pose proof (ParseIP_String ip' (ParseIP_valid w ip' Hw)) as H2. congruence.
Qed.

(** ** Clients behind proxies *)

Lemma nth_suffix {A} (l1 l2 : list A) n d : (0 < n <= length l2)%nat -> nth (length (l1 ++ l2) - n) (l1 ++ l2) d = nth (length l2 - n) l2 d.
Proof. intros H. rewrite app_nth2 by (rewrite length_app; lia). f_equal. rewrite length_app. lia. Qed.

(** What the header selects, when it has as many addresses as there are proxies. *)
Definition added_by_proxies (s : proxies) (added : string) : string := nth (length (validIPs added) - Z.to_nat (trustedProxyHops s)) (validIPs added) EmptyString.

Lemma added_not_empty s added : 0 < trustedProxyHops s <= Z.of_nat (length (validIPs added)) -> String.eqb (added_by_proxies s added) "" = false.
Proof.
  intros H. unfold added_by_proxies. pose proof (validIPs_strings added) as Hs. rewrite List.Forall_forall in Hs.
  destruct (Hs (nth (length (validIPs added) - Z.to_nat (trustedProxyHops s)) (validIPs added) EmptyString)) as (ip & Hip & ->); [apply nth_In; lia|by apply IP_String_not_empty].
Qed.

Lemma select_added s own added : 0 < trustedProxyHops s <= Z.of_nat (length (validIPs added)) ->
  selectForwardedForClientIP (TrimSpace (own +:+ String "," added)) (trustedProxyHops s) = added_by_proxies s added /\
  String.eqb (TrimSpace (own +:+ String "," added)) "" = false.
Proof.
  intros H. unfold selectForwardedForClientIP. rewrite validIPs_trimmed, validIPs_app. rewrite (proj2 (Z.leb_gt _ _)) by lia. rewrite (proj2 (Z.ltb_ge _ _)) by (rewrite length_app; lia).
  split; [apply nth_suffix; lia|]. apply String.eqb_neq. intros E. apply (f_equal validIPs) in E. rewrite validIPs_trimmed, validIPs_app in E. cbn in E.
  apply app_eq_nil in E as [_ E]. rewrite E in H. cbn in H. lia.
Qed.

(** C18: A client cannot choose the address it is counted under.  Of a request that does not come from a trusted proxy the
    headers are not looked at, neither for the address nor for HTTPS.  When it comes from one, and the proxies have added
    as many addresses to the header as there are hops, those alone decide, whatever the client has put before them. *)
Theorem client_ip_unforgeable `{Unicode} s r :
  (IsTrustedForwardedSource s (RemoteIP (RemoteAddr r)) = false -> forall r', RemoteAddr r' = RemoteAddr r -> TLS r' = TLS r ->
     ClientIP s r' = ClientIP s r /\ RequestIsHTTPS s r' = TLS r) /\
  (IsTrustedForwardedSource s (RemoteIP (RemoteAddr r)) = true -> forall own added lines,
     Header r !! CanonicalHeaderKey "X-Forwarded-For" = Some ((own +:+ String "," added) :: lines) -> 0 < trustedProxyHops s <= Z.of_nat (length (validIPs added)) ->
     ClientIP s r = added_by_proxies s added).
Proof.
  split.
  - intros Ht r' Ha HT. unfold ClientIP, RequestIsHTTPS. rewrite Ha, HT, Ht. split; [done|]. destruct (TLS r); [done|]. by destruct (_ <=? 0).
  - intros Ht own added lines Hh Hn. unfold ClientIP. rewrite Ht. unfold ForwardedClientIP, Header_Get. rewrite Hh.
    destruct (select_added s own added Hn) as [E1 E2]. rewrite E1, E2. pose proof (added_not_empty s added Hn) as E3. cbv beta zeta. rewrite E3. cbn [negb]. by rewrite E3.
Qed.

(** C40: Only the first line of the header is read: when a trusted proxy adds its address on a line of its own, which the
    message format allows, the line of the client comes first and is believed, so that the client chooses the address
    it is counted under. *)
Theorem forged_line_believed s r ip lines : addr16 ip -> IsTrustedForwardedSource s (RemoteIP (RemoteAddr r)) = true -> trustedProxyHops s = 1 ->
  Header r !! CanonicalHeaderKey "X-Forwarded-For" = Some (IP_String ip :: lines) -> ClientIP s r = IP_String ip.
Proof.
  intros Hip Ht Hn Hh. unfold ClientIP. rewrite Ht. unfold ForwardedClientIP, Header_Get. rewrite Hh, Hn. destruct (IP_String_chars ip Hip) as [Hc _].
  assert (E : validIPs (IP_String ip) = [IP_String ip]).
  { unfold validIPs. rewrite Split_no_sep by by apply no_byte. cbn [omap list_omap]. by rewrite addr_trimmed, ParseIP_String by done. }
  assert (Es : selectForwardedForClientIP (IP_String ip) 1 = IP_String ip) by (unfold selectForwardedForClientIP; by rewrite E).
  rewrite addr_trimmed, IP_String_not_empty, Es by done. cbv beta zeta. rewrite IP_String_not_empty by done. cbn [negb]. by rewrite IP_String_not_empty.
Qed.

(** ** Concrete inputs *)

Definition behind_proxy : proxies := SetTrustedProxyHops init_proxies 1.
Definition demo_request (lines : list string) : Request :=
  {| Method := MethodPost; URL_Path := "/api/v1/auth/login"; Header := {[ CanonicalHeaderKey "X-Forwarded-For" := lines ]}; Cookies := [];
     RemoteAddr := "127.0.0.1:52000"; TLS := false |}.

Lemma addresses_canonical_witness : NormalizeIPString "[::FFFF:203.0.113.7%eth0]:443" = NormalizeIPString "203.0.113.7".
Proof.
  assert (H1 : ParseIP "[::FFFF:203.0.113.7%eth0]:443" = Some (v4InV6Prefix ++ [203; 0; 113; 7])) by (vm_compute; reflexivity).
  assert (H2 : ParseIP "203.0.113.7" = Some (v4InV6Prefix ++ [203; 0; 113; 7])) by (vm_compute; reflexivity).
  destruct (addresses_canonical _ _ H1) as (_ & _ & H). apply (H _ _ H2). reflexivity.
Defined.

Lemma client_ip_unforgeable_witness : ClientIP behind_proxy (demo_request ["198.51.100.9, 203.0.113.7"]) = "203.0.113.7".
Proof.
  destruct (client_ip_unforgeable behind_proxy (demo_request ["198.51.100.9, 203.0.113.7"])) as [_ H].
  rewrite (H ltac:(vm_compute; reflexivity) "198.51.100.9" " 203.0.113.7" []); [vm_compute; reflexivity|vm_compute; reflexivity|].
  split; [vm_compute; reflexivity|]. vm_compute. discriminate.
Defined.

Lemma forged_line_believed_witness : ClientIP behind_proxy (demo_request ["198.51.100.9"; "203.0.113.7"]) = "198.51.100.9".
Proof.
  apply (forged_line_believed behind_proxy (demo_request ["198.51.100.9"; "203.0.113.7"]) (v4InV6Prefix ++ [198; 51; 100; 9]) ["203.0.113.7"]);
    [|vm_compute; reflexivity|reflexivity|vm_compute; reflexivity].
  split; [reflexivity|]. unfold bytes_ok, v4InV6Prefix. cbn [replicate app]. repeat (constructor; [lia|]). constructor.
Defined.
End RequestIPProps.
