(* ===== verification/AuthMiddleware.v ===== *)
(** * Authentication of requests

    [internal/auth/middleware.go]: which tokens a request carries, and who may pass.  A middleware decides for the
    next handler: it passes the request on, with what it adds to the context, or answers itself.  The user store
    and the token manager are those of [UserStore] and [TokenOps]; only the token manager changes here, because a
    validation may renew its lease. *)

From Stdlib Require Import Ascii.
From S2P Require Import Prelude GoStrings GoPath GoFormat GoTime MonoTime Users FileMonad UserFields AuthFiles UsersFile UserStore TokenTypes Tokens TokenOps GoNet RequestIP.
Import MonoTime AuthFiles TokenTypes Tokens TokenOps GoHttp RequestIP.

Module AuthMiddleware.

Definition AccessSessionCookieName : string := "mnemonas_access".
Definition RefreshSessionCookieName : string := "mnemonas_refresh".
Definition DownloadSessionCookieName : string := "mnemonas_download_access".
Definition HTTPSAccessSessionCookieName : string := "__Host-mnemonas_access".
Definition HTTPSRefreshSessionCookieName : string := "__Host-mnemonas_refresh".
Definition HTTPSDownloadSessionCookieName : string := "__Host-mnemonas_download_access".

(** What the middleware puts into the context of a request. *)
Record Context := { ctx_User : option User; ctx_Claims : option TokenClaims; ctx_AccessToken : string }.
Definition background : Context := {| ctx_User := None; ctx_Claims := None; ctx_AccessToken := EmptyString |}.

(** The status and the code of an answer that refuses. *)
Record refusal := { status : Z; code : string }.
Definition refuse (status : Z) (code : string) : refusal := {| status := status; code := code |}.

Inductive passage := Next (c : Context) | Refused (r : refusal).

(** [excludePaths] of [NewMiddleware] *)
Definition default_excludePaths : list string := ["/health"; "/api/v1/auth/login"; "/api/v1/auth/refresh"; "/api/v1/version"].

Definition pathMatches (requestPath prefix : string) : bool :=
  if String.eqb prefix "" then false
  else if String.eqb requestPath prefix then true
  else if HasSuffix prefix "/" then HasPrefix requestPath prefix
  else HasPrefix requestPath (prefix +:+ "/").

(** ** Cookies *)

Definition cookieNameForHTTPSMode (name : string) (secure : bool) : string :=
  if negb secure then name
  else if String.eqb name AccessSessionCookieName then HTTPSAccessSessionCookieName
  else if String.eqb name RefreshSessionCookieName then HTTPSRefreshSessionCookieName
  else if String.eqb name DownloadSessionCookieName then HTTPSDownloadSessionCookieName
  else name.

Definition containsCookieValue (values : list string) (candidate : string) : bool := existsb (fun value => String.eqb value candidate) values.

(** The values of the cookies of a name; [None] when there are two. *)
Fixpoint cookieValues (name : string) (cookies : list (string * string)) (values : list string) : option (list string) :=
  match cookies with
  | [] => Some values
  | (cookieName, cookieValue) :: cookies =>
    if negb (String.eqb cookieName name) then cookieValues name cookies values
    else
      let value := TrimSpace cookieValue in
      if String.eqb value "" then cookieValues name cookies values
      else if containsCookieValue values value then cookieValues name cookies values
      else
        let values := values ++ [value] in
        if (1 <? length values)%nat then None else cookieValues name cookies values
  end.

Definition allowDownloadSessionCookie (r : Request) : bool :=
  if negb (String.eqb (Method r) MethodGet) && negb (String.eqb (Method r) MethodHead) then false
  else pathMatches (URL_Path r) "/api/v1/download" || pathMatches (URL_Path r) "/api/v1/thumbnails".

Definition allowsRequiredPasswordChange (r : Request) : bool :=
  if String.eqb (URL_Path r) "/api/v1/auth/me" then String.eqb (Method r) MethodGet
  else if String.eqb (URL_Path r) "/api/v1/auth/password" then String.eqb (Method r) MethodPost
  else false.

Section Middleware.
Context {case_tables : Unicode} {scodec : SessionCodec} {jwt : Jwt} (proxies : proxies).

Definition cookieValuesFromRequest (r : Request) (name : string) : option (list string) :=
  cookieValues (cookieNameForHTTPSMode name (RequestIsHTTPS proxies r)) (Cookies r) [].

Inductive candidateError := AmbiguousCookies | BadHeader.

Definition tokenCandidatesFromRequest (r : Request) (allowScopedDownloadCookie : bool) : result candidateError (list string) :=
  let authHeader := Header_Get (Header r) "Authorization" in
  if negb (String.eqb authHeader "") then
    let '(scheme, token, found) := Cut " " authHeader in
    if negb found || negb (String.eqb (ToLower scheme) "bearer") then Err BadHeader else Ok [token]
  else
    match cookieValuesFromRequest r AccessSessionCookieName with
    | None => Err AmbiguousCookies
    | Some candidates =>
      if allowScopedDownloadCookie && allowDownloadSessionCookie r then
        match cookieValuesFromRequest r DownloadSessionCookieName with
        | None => Err AmbiguousCookies
        | Some downloadCandidates =>
          if match candidates, downloadCandidates with access :: _, download :: _ => negb (String.eqb access download) | _, _ => false end
          then Err AmbiguousCookies
          else Ok (fold_left (fun candidates candidate => if containsCookieValue candidates candidate then candidates else candidates ++ [candidate]) downloadCandidates candidates)
        end
      else Ok candidates
    end.

(** ** Validation *)

(** What the loop over the candidates ends with: an ambiguity, or an error of the token manager. *)
Inductive accessError := AmbiguousUsers | TokenErr (e : TokenError).

(** The loop: the first token that is accepted, and the first error.  [clocks] and [randoms] are the readings for each turn. *)
Fixpoint validate_from (tm : TokenManager) (candidates : list string) (selected : option (string * TokenClaims)) (firstErr : option TokenError)
    (clocks : nat -> clock) (randoms : nat -> nat -> option string) : prog (TokenManager * result accessError (string * TokenClaims)) :=
  match candidates with
  | [] =>
    ret (tm, match selected with
             | Some s => Ok s
             | None => Err (TokenErr (default ErrInvalidToken firstErr))
             end)
  | tokenString :: candidates =>
    run! (tm, validated) := ValidateAccessToken tm tokenString (clocks O) (randoms O) in
    let clocks := fun i => clocks (S i) in
    let randoms := fun i => randoms (S i) in
    match validated with
    | Ok claims =>
      match selected with
      | Some (_, selectedClaims) =>
        if negb (String.eqb (ac_UserID selectedClaims) (ac_UserID claims)) then ret (tm, Err AmbiguousUsers)
        else validate_from tm candidates selected firstErr clocks randoms
      | None => validate_from tm candidates (Some (tokenString, claims)) firstErr clocks randoms
      end
    | Err e => validate_from tm candidates selected (match firstErr with None => Some e | Some _ => firstErr end) clocks randoms
    end
  end.
Definition validateAccessTokenCandidates (tm : TokenManager) (candidates : list string) (clocks : nat -> clock) (randoms : nat -> nat -> option string)
    : prog (TokenManager * result accessError (string * TokenClaims)) := validate_from tm candidates None None clocks randoms.

(** ** Middleware *)

Definition RequireAuth (excludePaths : list string) (us : UserStore.UserStore) (tm : TokenManager) (r : Request) (ctx : Context)
    (clocks : nat -> clock) (randoms : nat -> nat -> option string) : prog (TokenManager * passage) :=
  if existsb (pathMatches (URL_Path r)) excludePaths then ret (tm, Next ctx)
  else
    match tokenCandidatesFromRequest r true with
    | Err AmbiguousCookies => ret (tm, Refused (refuse 401 "INVALID_TOKEN"))
    | Err BadHeader => ret (tm, Refused (refuse 401 "INVALID_AUTH_HEADER"))
    | Ok [] => ret (tm, Refused (refuse 401 "MISSING_AUTH_HEADER"))
    | Ok tokenCandidates =>
      run! (tm, validated) := validateAccessTokenCandidates tm tokenCandidates clocks randoms in
      ret (tm,
        match validated with
        | Err (TokenErr ErrTokenStateUnavailable) => Refused (refuse 503 "TOKEN_STATE_UNAVAILABLE")
        | Err (TokenErr ErrTokenExpired) => Refused (refuse 401 "TOKEN_EXPIRED")
        | Err (TokenErr (ErrTokenRevoked | errRefreshTokenReused)) => Refused (refuse 401 "TOKEN_REVOKED")
        | Err _ => Refused (refuse 401 "INVALID_TOKEN")
        | Ok (tokenString, claims) =>
          match UserStore.GetByID us (ac_UserID claims) with
          | Err _ => Refused (refuse 401 "USER_NOT_FOUND")
          | Ok user =>
            if Disabled user then Refused (refuse 403 "USER_DISABLED")
            else if negb (ac_CredentialVersion claims =? CredentialVersion user) then Refused (refuse 401 "TOKEN_REVOKED")
            else if MustChangePassword user && negb (allowsRequiredPasswordChange r) then Refused (refuse 403 "PASSWORD_CHANGE_REQUIRED")
            else Next {| ctx_User := Some user; ctx_Claims := Some claims; ctx_AccessToken := tokenString |}
          end
        end)
    end.

Definition OptionalAuth (us : UserStore.UserStore) (tm : TokenManager) (r : Request) (ctx : Context)
    (clocks : nat -> clock) (randoms : nat -> nat -> option string) : prog (TokenManager * passage) :=
  match tokenCandidatesFromRequest r false with
  | Err _ | Ok [] => ret (tm, Next ctx)
  | Ok tokenCandidates =>
    run! (tm, validated) := validateAccessTokenCandidates tm tokenCandidates clocks randoms in
    ret (tm,
      match validated with
      | Err (TokenErr ErrTokenStateUnavailable) => Refused (refuse 503 "TOKEN_STATE_UNAVAILABLE")
      | Err _ => Next ctx
      | Ok (tokenString, claims) =>
        match UserStore.GetByID us (ac_UserID claims) with
        | Err _ => Next ctx
        | Ok user =>
          if Disabled user || negb (ac_CredentialVersion claims =? CredentialVersion user) then Next ctx
          else Next {| ctx_User := Some user; ctx_Claims := Some claims; ctx_AccessToken := tokenString |}
        end
      end)
  end.
End Middleware.

Definition RequireRole (roles : list Role) (ctx : Context) : passage :=
  match ctx_User ctx with
  | None => Refused (refuse 401 "NOT_AUTHENTICATED")
  | Some user =>
    if Disabled user then Refused (refuse 403 "USER_DISABLED")
    else if negb (existsb (fun role => String.eqb (UserRole user) role) roles) then Refused (refuse 403 "INSUFFICIENT_PERMISSIONS")
    else Next ctx
  end.
End AuthMiddleware.
