(* ===== verification/AuthHandlers.v ===== *)
(** * The handlers of authentication

    [internal/auth/handler.go]: logging in, refreshing, logging out, download sessions and changing the password, over
    the user store, the token manager and the login throttle, whose files are in one directory.  A handler is a program
    on that directory; [env] has what the clocks and the random source answer to its calls.  The body of a request is
    given as it was decoded (JSON is not modelled); the messages of the answers are left out, their codes are not. *)

From Stdlib Require Import Ascii SpecFloat.
From stdpp Require Import pretty.
From S2P Require Import Prelude GoStrings GoPath GoFormat GoTime MonoTime Sha256 Users UserQuotaHistory FileMonad UserFields AuthFiles UsersFile UserStore TokenTypes Tokens TokenOps LoginThrottle GoNet RequestIP AuthMiddleware.
Import MonoTime Sha256 UserFields AuthFiles TokenTypes Tokens TokenOps LoginThrottle GoHttp RequestIP AuthMiddleware.

Module AuthHandlers.

(** ** Answers *)

Definition sessionCookiePath : string := "/api/v1".
Definition refreshSessionCookiePath : string := "/api/v1/auth".
Definition downloadSessionCookiePath : string := "/api/v1".

Inductive sameSite := SameSiteLaxMode | SameSiteStrictMode.
(** [MaxAge] is below zero to delete the cookie; zero leaves the attribute out. *)
Record Cookie := {
  cookie_Name : string; cookie_Value : string; cookie_Path : string; cookie_HttpOnly : bool; cookie_SameSite : sameSite; cookie_Secure : bool;
  cookie_Expires : Time; cookie_MaxAge : Z }.

(** The headers that were set before the answer is written. *)
Record Writer := { w_Cookies : list Cookie; w_Warning : bool; w_RetryAfter : string }.
Definition fresh_writer : Writer := {| w_Cookies := []; w_Warning := false; w_RetryAfter := EmptyString |}.
Definition SetCookie (w : Writer) (c : Cookie) : Writer := {| w_Cookies := w_Cookies w ++ [c]; w_Warning := w_Warning w; w_RetryAfter := w_RetryAfter w |}.
Definition markAuthPersistenceWarningHeaders (w : Writer) : Writer := {| w_Cookies := w_Cookies w; w_Warning := true; w_RetryAfter := w_RetryAfter w |}.
Definition set_RetryAfter (w : Writer) (value : string) : Writer := {| w_Cookies := w_Cookies w; w_Warning := w_Warning w; w_RetryAfter := value |}.

Record UserInfo := {
  info_ID : string; info_Username : string; info_Email : string; info_Role : Role; info_Groups : list string; info_HomeDir : string; info_MustChangePassword : bool }.
Record LoginResponse := { resp_AccessToken : string; resp_RefreshToken : string; resp_ExpiresAt : Time; resp_TokenType : string; resp_User : UserInfo }.

(** [fullUserResponse], with the usage that was resolved; the data of the answers to administrators. *)
Inductive Payload :=
| NoData | LoginData (r : LoginResponse) | UserData (u : UserInfo) | WarningData
| FullUser (user : User) (warning : bool) | RevokedData (warning : bool) | DisabledData (disabled warning : bool).

Record Response := { Headers : Writer; Status : Z; Code : string; Data : Payload }.
Definition writeError (w : Writer) (status : Z) (code : string) : Response := {| Headers := w; Status := status; Code := code; Data := NoData |}.
Definition writeSuccess (w : Writer) (status : Z) (data : Payload) : Response := {| Headers := w; Status := status; Code := EmptyString; Data := data |}.

(** A nil pointer is dereferenced: the server closes the connection without an answer. *)
Definition panicked : Response := {| Headers := fresh_writer; Status := 0; Code := EmptyString; Data := NoData |}.

(** [int(time.Until(expires).Seconds())], in the arithmetic of float64. *)
Definition Seconds (d : Z) : spec_float :=
  SFadd 53 1024 (UserQuotaHistory.float64 (Z.quot d second)) (SFdiv 53 1024 (UserQuotaHistory.float64 (Z.rem d second)) (UserQuotaHistory.float64 second)).
Definition truncated (f : spec_float) : Z :=
  match f with
  | S754_finite s m e => let a := if 0 <=? e then Z.pos m * 2 ^ e else Z.pos m / 2 ^ (- e) in if s then - a else a
  | _ => 0
  end.
Definition max_age (now expires : Time) : Z := Z.max 0 (truncated (Seconds (Sub expires now))).

Definition setAuthCookie (w : Writer) (now : Time) (name value path : string) (expires : Time) (secure : bool) : Writer :=
  SetCookie w {| cookie_Name := cookieNameForHTTPSMode name secure; cookie_Value := value; cookie_Path := if secure then "/" else path;
                 cookie_HttpOnly := true; cookie_SameSite := SameSiteLaxMode; cookie_Secure := secure; cookie_Expires := UTC expires;
                 cookie_MaxAge := max_age now expires |}.
Definition clearAuthCookie (w : Writer) (name path : string) (secure : bool) : Writer :=
  SetCookie w {| cookie_Name := cookieNameForHTTPSMode name secure; cookie_Value := EmptyString; cookie_Path := if secure then "/" else path;
                 cookie_HttpOnly := true; cookie_SameSite := SameSiteLaxMode; cookie_Secure := secure; cookie_Expires := at_wall 0; cookie_MaxAge := -1 |}.
Definition clearDownloadSessionCookieForMode (w : Writer) (secure : bool) : Writer :=
  SetCookie w {| cookie_Name := cookieNameForHTTPSMode DownloadSessionCookieName secure; cookie_Value := EmptyString;
                 cookie_Path := if secure then "/" else downloadSessionCookiePath; cookie_HttpOnly := true; cookie_SameSite := SameSiteStrictMode;
                 cookie_Secure := secure; cookie_Expires := at_wall 0; cookie_MaxAge := -1 |}.
Definition clearSessionCookiesForMode (w : Writer) (secure : bool) : Writer :=
  clearAuthCookie (clearAuthCookie w AccessSessionCookieName sessionCookiePath secure) RefreshSessionCookieName refreshSessionCookiePath secure.

(** ** Requests *)

(** What became of the body: too large, refused by the decoder, or decoded. *)
Inductive body (A : Type) := BodyTooLarge | BodyInvalid | Decoded (a : A).
Arguments BodyTooLarge {A}.
Arguments BodyInvalid {A}.
Arguments Decoded {A} _.
(** [writeJSONBodyError] *)
Definition bodyTooLarge (w : Writer) : Response := writeError w 413 "PAYLOAD_TOO_LARGE".
Definition bodyInvalid (w : Writer) : Response := writeError w 400 "INVALID_REQUEST".

Record LoginRequest := { req_Username : string; req_Password : string }.
(** An empty body is decoded to no token. *)
Record RefreshRequest := { req_RefreshToken : string }.
Record ChangePasswordRequest := { req_ExpectedUserID : string; req_OldPassword : string; req_NewPassword : string }.

(** ** The handler's state *)

Record Handler := { userStore : UserStore.UserStore; tokenManager : TokenManager; loginAttempts : option loginAttemptTracker; loginPolicy : LoginRateLimitPolicy }.
Definition with_userStore (h : Handler) (us : UserStore.UserStore) : Handler :=
  {| userStore := us; tokenManager := tokenManager h; loginAttempts := loginAttempts h; loginPolicy := loginPolicy h |}.
Definition with_tokenManager (h : Handler) (tm : TokenManager) : Handler :=
  {| userStore := userStore h; tokenManager := tm; loginAttempts := loginAttempts h; loginPolicy := loginPolicy h |}.
Definition with_attempts (h : Handler) (t : loginAttemptTracker) : Handler :=
  {| userStore := userStore h; tokenManager := tokenManager h; loginAttempts := Some t; loginPolicy := loginPolicy h |}.

(** What the clocks and the random source answer to the calls of a handler, by their numbers: [env_attempts] to the
    throttle, [env_clocks] and [env_random] to the token manager, [env_created], [env_now] and
    [env_names] to the user store. *)
Record env := {
  env_attempts : nat -> Time; env_clocks : nat -> clock; env_random : nat -> nat -> option string; env_draws : nat -> option string;
  env_created : Z; env_now : Z; env_names : UserStore.source; env_salt : string; env_until : Time }.

Definition NewHandler (us : UserStore.UserStore) (tm : TokenManager) : Handler :=
  {| userStore := us; tokenManager := tm; loginAttempts := Some newLoginAttemptTracker; loginPolicy := default_policy |}.

(** The throttle, when there is one. *)
Definition is_locked (h : Handler) (key : loginAttemptKey) (now : Time) : Handler * bool :=
  match loginAttempts h with
  | None => (h, false)
  | Some t => let '(t, locked) := isLocked t key (FailureWindow (loginPolicy h)) now in (with_attempts h t, locked)
  end.
Definition record_failure (h : Handler) (key : loginAttemptKey) (now : Time) : Handler * bool :=
  match loginAttempts h with
  | None => (h, false)
  | Some t =>
    let '(t, locked) := recordFailure t key (FailureLimit (loginPolicy h)) (FailureWindow (loginPolicy h)) (LockDuration (loginPolicy h)) now in
    (with_attempts h t, locked)
  end.
Definition allow_check (h : Handler) (key : loginAttemptKey) (now : Time) : Handler * bool :=
  match loginAttempts h with
  | None => (h, true)
  | Some t =>
    let '(t, allowed) := allowCredentialCheck t (clientIP key) (CredentialCheckLimit (loginPolicy h)) (CredentialCheckWindow (loginPolicy h)) now in
    (with_attempts h t, allowed)
  end.
Definition reset_attempts (h : Handler) (key : loginAttemptKey) : Handler :=
  match loginAttempts h with
  | None => h
  | Some t => with_attempts h (reset t key)
  end.

Definition sessionModeHeader : string := "X-MnemoNAS-Session-Mode".
Definition sessionModeCookie : string := "cookie".

Definition userInfo (user : User) : UserInfo :=
  {| info_ID := ID user; info_Username := Username user; info_Email := Email user; info_Role := UserRole user; info_Groups := Groups user;
     info_HomeDir := HomeDir user; info_MustChangePassword := MustChangePassword user |}.
Definition loginResponseFromTokenPair (tokenPair : TokenPair) (user : User) (includeTokens : bool) : LoginResponse :=
  {| resp_AccessToken := if includeTokens then AccessToken tokenPair else EmptyString;
     resp_RefreshToken := if includeTokens then RefreshToken tokenPair else EmptyString;
     resp_ExpiresAt := PairExpiresAt tokenPair; resp_TokenType := TokenType tokenPair; resp_User := userInfo user |}.

Definition normalizeLoginUsername (username : string) : result AuthError string :=
  if maxUsernameRuneCount * 4 <? len username then Err ErrInvalidUsername else normalizeNewUsername username.

Definition isRefreshTokenError (e : TokenError) : bool :=
  match e with ErrInvalidToken | ErrTokenExpired | ErrTokenRevoked | errRefreshTokenReused => true | _ => false end.
Definition shouldClearSessionCookiesAfterRefreshFailure (e : TokenError) : bool :=
  match e with ErrTokenStateUnavailable => false | _ => true end.
Definition writeRefreshTokenError (w : Writer) (e : TokenError) : Response :=
  match e with
  | ErrTokenStateUnavailable => writeError w 503 "TOKEN_STATE_UNAVAILABLE"
  | ErrTokenExpired => writeError w 401 "TOKEN_EXPIRED"
  | ErrTokenRevoked | errRefreshTokenReused => writeError w 401 "TOKEN_REVOKED"
  | _ => writeError w 401 "INVALID_TOKEN"
  end.

(** [strconv.Itoa] of a number that is not negative. *)
Definition Itoa (z : Z) : string := pretty.pretty (Z.to_N z).

Section Handlers.
Context {case_tables : Unicode} {ucodec : UsersFile.UserCodec} {bcrypt : UsersFile.Bcrypt} {scodec : SessionCodec} {jwt : Jwt} (proxies : proxies).

Definition requestWantsCookieSession (r : Request) : bool := EqualFold (TrimSpace (Header_Get (Header r) sessionModeHeader)) sessionModeCookie.

Definition setSessionCookies (w : Writer) (r : Request) (now : Time) (tokenPair : TokenPair) : Writer :=
  let secure := RequestIsHTTPS proxies r in
  let w := setAuthCookie w now AccessSessionCookieName (AccessToken tokenPair) sessionCookiePath (PairExpiresAt tokenPair) secure in
  setAuthCookie w now RefreshSessionCookieName (RefreshToken tokenPair) refreshSessionCookiePath (PairRefreshExpiresAt tokenPair) secure.
Definition clearBrowserSessionCookies (w : Writer) (r : Request) : Writer :=
  let secure := RequestIsHTTPS proxies r in clearDownloadSessionCookieForMode (clearSessionCookiesForMode w secure) secure.

Definition newLoginAttemptKey (r : Request) (username : string) : loginAttemptKey :=
  {| usernameDigest := Sum256 (normalizeUsername (TrimSpace username)); clientIP := ClientIP proxies r |}.
Definition invalidLoginAttemptKey (r : Request) : loginAttemptKey := {| usernameDigest := Sum256 "invalid-login-username"; clientIP := ClientIP proxies r |}.

(** ** Logging in *)

(** The end of a login whose password is right: the tokens of [user]. *)
Definition issue_tokens (h : Handler) (e : env) (r : Request) (w : Writer) (user : User) : prog (Handler * Response) :=
  run! (tm, generated) := GenerateTokenPair (tokenManager h) user (env_clocks e 0%nat) (env_draws e) (env_random e 0%nat) in
  let h := with_tokenManager h tm in
  let succeed (w : Writer) (tokenPair : TokenPair) : Handler * Response :=
    let w := setSessionCookies w r (env_until e) tokenPair in
    (h, writeSuccess w 200 (LoginData (loginResponseFromTokenPair tokenPair user (negb (requestWantsCookieSession r))))) in
  ret (match generated with
       | Done tokenPair => succeed w tokenPair
       | Warned tokenPair => succeed (markAuthPersistenceWarningHeaders w) tokenPair
       | Failed ErrRefreshSessionLimit => (h, writeError w 429 "REFRESH_SESSION_LIMIT")
       | Failed ErrTokenStateUnavailable => (h, writeError w 503 "TOKEN_STATE_UNAVAILABLE")
       | Failed _ => (h, writeError w 500 "TOKEN_ERROR")
       end).

(** A failure that is counted, and its answer. *)
Definition refuse_login (h : Handler) (key : loginAttemptKey) (now : Time) : Handler * Response :=
  let '(h, locked) := record_failure h key now in
  (h, if locked then writeError fresh_writer 429 "LOGIN_RATE_LIMITED" else writeError fresh_writer 401 "INVALID_CREDENTIALS").

Definition HandleLogin (h : Handler) (e : env) (r : Request) (decoded : body LoginRequest) : prog (Handler * Response) :=
  let w := fresh_writer in
  if negb (String.eqb (Method r) MethodPost) then ret (h, writeError w 405 "METHOD_NOT_ALLOWED")
  else
    match decoded with
    | BodyTooLarge => ret (h, bodyTooLarge w)
    | BodyInvalid => ret (h, bodyInvalid w)
    | Decoded req =>
      if String.eqb (req_Username req) "" || String.eqb (req_Password req) "" then ret (h, writeError w 400 "MISSING_CREDENTIALS")
      else
        match normalizeLoginUsername (req_Username req) with
        | Err _ =>
          let attemptKey := invalidLoginAttemptKey r in
          let '(h, locked) := is_locked h attemptKey (env_attempts e 0%nat) in
          if locked : bool then ret (h, writeError w 429 "LOGIN_RATE_LIMITED") else ret (refuse_login h attemptKey (env_attempts e 1%nat))
        | Ok cleanUsername =>
          let attemptKey := newLoginAttemptKey r cleanUsername in
          let '(h, locked) := is_locked h attemptKey (env_attempts e 0%nat) in
          if locked : bool then ret (h, writeError w 429 "LOGIN_RATE_LIMITED")
          else
            let '(h, allowed) := allow_check h attemptKey (env_attempts e 1%nat) in
            if negb allowed then
              let retryAfter := Z.quot (int64 (CredentialCheckWindow (loginPolicy h) + second - 1)) second in
              let retryAfter := if retryAfter <? 1 then 1 else retryAfter in
              ret (h, writeError (set_RetryAfter w (Itoa retryAfter)) 429 "LOGIN_RATE_LIMITED")
            else
              run! (us, authenticated) := UserStore.Authenticate (userStore h) cleanUsername (req_Password req) (env_now e) (env_names e) in
              let h := with_userStore h us in
              match authenticated with
              | UserStore.Done user => issue_tokens (reset_attempts h attemptKey) e r w user
              | UserStore.Warned user => issue_tokens (reset_attempts h attemptKey) e r (markAuthPersistenceWarningHeaders w) user
              | UserStore.Failed (ErrInvalidCredentials | ErrUserDisabled) => ret (refuse_login h attemptKey (env_attempts e 2%nat))
              | UserStore.Failed _ => ret (h, writeError w 500 "AUTH_ERROR")
              end
        end
    end.

(** ** Refreshing *)

(** The loop over the tokens: the first that is good, or the first that was used again, or the first error. *)
Fixpoint validate_refresh_from (tm : TokenManager) (candidates : list string) (first : option (TokenError * option refreshTokenClaims))
    (clocks : nat -> clock) (randoms : nat -> nat -> option string) : prog (TokenManager * result (TokenError * option refreshTokenClaims) refreshTokenClaims) :=
  match candidates with
  | [] => ret (tm, Err (default (ErrInvalidToken, None) first))
  | refreshToken :: candidates =>
    run! (tm, validated) := validateRefreshTokenClaims tm refreshToken (clocks O) (randoms O) in
    match validated with
    | Ok claims => ret (tm, Ok claims)
    | Err (errRefreshTokenReused, Some claims) => ret (tm, Err (errRefreshTokenReused, Some claims))
    | Err failure =>
      validate_refresh_from tm candidates (match first with None => Some failure | Some _ => first end) (fun i => clocks (S i)) (fun i => randoms (S i))
    end
  end.
Definition validateRefreshTokenCandidates (tm : TokenManager) (candidates : list string) (clocks : nat -> clock) (randoms : nat -> nat -> option string) :=
  validate_refresh_from tm candidates None clocks randoms.

(** [i] is the number of the next call of the token manager. *)
Definition handleRefreshTokenReuse (h : Handler) (e : env) (i : nat) (r : Request) (w : Writer) (claims : refreshTokenClaims) : prog (Handler * Response) :=
  match ClaimExpiresAt (rc_Registered claims) with
  | None => ret (h, writeRefreshTokenError w ErrTokenRevoked)
  | Some expiresAt =>
    if String.eqb (rc_SessionID claims) "" then ret (h, writeRefreshTokenError w ErrTokenRevoked)
    else
      run! (tm, revoked) := RevokeSession (tokenManager h) (rc_SessionID claims) (at_wall expiresAt) (env_clocks e i) (env_random e i) in
      let h := with_tokenManager h tm in
      ret (match revoked with
           | Failed _ => (h, writeError w 500 "TOKEN_ERROR")
           | Warned _ => (h, writeRefreshTokenError (clearBrowserSessionCookies (markAuthPersistenceWarningHeaders w) r) ErrTokenRevoked)
           | Done _ => (h, writeRefreshTokenError (clearBrowserSessionCookies w r) ErrTokenRevoked)
           end)
  end.

(** The cookies that are cleared when a token of a cookie is refused. *)
Definition clear_refused (w : Writer) (r : Request) (refreshFromCookie : bool) : Writer := if refreshFromCookie then clearBrowserSessionCookies w r else w.
Definition clear_after (w : Writer) (r : Request) (refreshFromCookie : bool) (err : TokenError) : Writer :=
  clear_refused w r (refreshFromCookie && shouldClearSessionCookiesAfterRefreshFailure err).

Definition handleRefreshPairGenerationError (h : Handler) (e : env) (i : nat) (r : Request) (w : Writer) (refreshTokens : list string)
    (refreshFromCookie : bool) (generationErr : TokenError) : prog (Handler * Response) :=
  let refused (h : Handler) : Handler * Response :=
    if isRefreshTokenError generationErr then (h, writeRefreshTokenError (clear_after w r refreshFromCookie generationErr) generationErr)
    else (h, writeError w 500 "TOKEN_ERROR") in
  match generationErr with
  | ErrTokenStateUnavailable => ret (h, writeError w 503 "TOKEN_STATE_UNAVAILABLE")
  | ErrInvalidToken =>
    run! (tm, latest) := validateRefreshTokenCandidates (tokenManager h) refreshTokens (fun k => env_clocks e (i + k)%nat) (fun k => env_random e (i + k)%nat) in
    let h := with_tokenManager h tm in
    match latest with
    | Err (errRefreshTokenReused, Some latestClaims) => handleRefreshTokenReuse h e (i + length refreshTokens) r w latestClaims
    | _ => ret (refused h)
    end
  | _ => ret (refused h)
  end.

(** The exchange of a refresh token of [user] that is good. *)
Definition exchange (h : Handler) (e : env) (i : nat) (r : Request) (w : Writer) (refreshTokens : list string) (refreshFromCookie : bool)
    (user : User) (claims : refreshTokenClaims) (expiresAt : Z) : prog (Handler * Response) :=
  run! (tm, generated) := generateTokenPairForSession (tokenManager h) user (rc_SessionID claims) (at_wall expiresAt)
    (Some (uint64 (rc_Generation claims + 1))) (env_clocks e i) (env_draws e 0%nat) (env_random e i) in
  let h := with_tokenManager h tm in
  match generated with
  | Err generationErr => handleRefreshPairGenerationError h e (S i) r w refreshTokens refreshFromCookie generationErr
  | Ok tokenPair =>
    run! (tm, consumed) := consumeRefreshTokenClaims (tokenManager h) claims (env_clocks e (S i)) (env_random e (S i)) in
    let h := with_tokenManager h tm in
    let succeed (warned : bool) : Handler * Response :=
      let w := setSessionCookies w r (env_until e) tokenPair in
      let resp := loginResponseFromTokenPair tokenPair user (negb refreshFromCookie && negb (requestWantsCookieSession r)) in
      (h, writeSuccess (if warned then markAuthPersistenceWarningHeaders w else w) 200 (LoginData resp)) in
    match consumed with
    | Done _ => ret (succeed false)
    | Warned _ => ret (succeed true)
    | Failed errRefreshTokenReused => handleRefreshTokenReuse h e (S (S i)) r w claims
    | Failed ErrRefreshRateLimited => ret (h, writeError (set_RetryAfter w "30") 429 "REFRESH_RATE_LIMITED")
    | Failed ErrRefreshSessionLimit => ret (h, writeError w 429 "REFRESH_SESSION_LIMIT")
    | Failed err =>
      ret (if isRefreshTokenError err then (h, writeRefreshTokenError (clear_after w r refreshFromCookie err) err) else (h, writeError w 500 "TOKEN_ERROR"))
    end
  end.

Definition HandleRefresh (h : Handler) (e : env) (r : Request) (decoded : body RefreshRequest) : prog (Handler * Response) :=
  let w := fresh_writer in
  if negb (String.eqb (Method r) MethodPost) then ret (h, writeError w 405 "METHOD_NOT_ALLOWED")
  else
    match decoded with
    | BodyTooLarge => ret (h, bodyTooLarge w)
    | BodyInvalid => ret (h, bodyInvalid w)
    | Decoded req =>
      let refreshToken := TrimSpace (req_RefreshToken req) in
      match (if String.eqb refreshToken "" then cookieValuesFromRequest proxies r RefreshSessionCookieName else Some [refreshToken]) with
      | None => ret (h, writeRefreshTokenError (clearBrowserSessionCookies w r) ErrInvalidToken)
      | Some [] => ret (h, writeError (clearBrowserSessionCookies w r) 400 "MISSING_TOKEN")
      | Some refreshTokens =>
        let refreshFromCookie := String.eqb refreshToken "" in
        run! (tm, validated) := validateRefreshTokenCandidates (tokenManager h) refreshTokens (env_clocks e) (env_random e) in
        let h := with_tokenManager h tm in
        let i := length refreshTokens in
        match validated with
        | Err (errRefreshTokenReused, Some claims) => handleRefreshTokenReuse h e i r w claims
        | Err (err, _) => ret (h, writeRefreshTokenError (clear_after w r refreshFromCookie err) err)
        | Ok claims =>
          match UserStore.GetByID (userStore h) (Subject (rc_Registered claims)) with
          | Err _ => ret (h, writeError (clear_refused w r refreshFromCookie) 401 "USER_NOT_FOUND")
          | Ok user =>
            if Disabled user then ret (h, writeError (clear_refused w r refreshFromCookie) 403 "USER_DISABLED")
            else if negb (rc_CredentialVersion claims =? CredentialVersion user) then ret (h, writeRefreshTokenError (clear_refused w r refreshFromCookie) ErrTokenRevoked)
            else match ClaimExpiresAt (rc_Registered claims) with
                 | Some expiresAt => exchange h e i r w refreshTokens refreshFromCookie user claims expiresAt
                 | None => ret (h, panicked)
                 end
          end
        end
      end
    end.

(** ** Logging out *)

Fixpoint parse_logout_from (tm : TokenManager) (candidates : list string) (stateErr : bool) (clocks : nat -> clock) (randoms : nat -> nat -> option string)
    : prog (TokenManager * (option refreshTokenClaims * bool)) :=
  match candidates with
  | [] => ret (tm, (None, stateErr))
  | refreshToken :: candidates =>
    run! (tm, parsed) := parseRefreshTokenClaims tm refreshToken (clocks O) (randoms O) in
    match parsed with
    | Ok claims => ret (tm, (Some claims, false))
    | Err e =>
      parse_logout_from tm candidates (stateErr || match e with ErrTokenStateUnavailable => true | _ => false end) (fun i => clocks (S i)) (fun i => randoms (S i))
    end
  end.
(** The claims of the first token that can be read, or none and whether the state was unavailable. *)
Definition parseLogoutRefreshTokenCandidates (tm : TokenManager) (candidates : list string) (clocks : nat -> clock) (randoms : nat -> nat -> option string) :=
  parse_logout_from tm candidates false clocks randoms.

(** The session of the request's access token. *)
Definition context_session (ctx : Context) : gmap string Time :=
  match ctx_Claims ctx with
  | Some claims =>
    match ac_SessionExpiresAt claims with
    | Some expiresAt => if String.eqb (ac_SessionID claims) "" then ∅ else {[ac_SessionID claims := at_wall expiresAt]}
    | None => ∅
    end
  | None => ∅
  end.
(** The sessions with that of the refresh token. *)
Definition add_refresh_session (sessions : gmap string Time) (refreshClaims : option refreshTokenClaims) : gmap string Time :=
  match refreshClaims with
  | Some claims =>
    match ClaimExpiresAt (rc_Registered claims) with
    | Some expiresAt =>
      if match sessions !! rc_SessionID claims with None => true | Some currentExpiry => After (at_wall expiresAt) currentExpiry end
      then <[rc_SessionID claims := at_wall expiresAt]> sessions else sessions
    | None => sessions
    end
  | None => sessions
  end.

Definition HandleLogout (h : Handler) (e : env) (r : Request) (ctx : Context) (decoded : body RefreshRequest) : prog (Handler * Response) :=
  let w := fresh_writer in
  if negb (String.eqb (Method r) MethodPost) then ret (h, writeError w 405 "METHOD_NOT_ALLOWED")
  else
    match decoded with
    | BodyTooLarge => ret (h, bodyTooLarge w)
    | BodyInvalid => ret (h, bodyInvalid w)
    | Decoded req =>
      let sessions := context_session ctx in
      let refreshToken := TrimSpace (req_RefreshToken req) in
      match (if String.eqb refreshToken "" then cookieValuesFromRequest proxies r RefreshSessionCookieName else Some [refreshToken]) with
      | None => ret (h, writeRefreshTokenError (clearBrowserSessionCookies w r) ErrInvalidToken)
      | Some refreshTokens =>
        run! (tm, (refreshClaims, stateErr)) := parseLogoutRefreshTokenCandidates (tokenManager h) refreshTokens (env_clocks e) (env_random e) in
        let h := with_tokenManager h tm in
        if stateErr : bool then ret (h, writeError w 503 "TOKEN_STATE_UNAVAILABLE")
        else
          let sessions := add_refresh_session sessions refreshClaims in
          let i := length refreshTokens in
          run! (tm, revoked) := RevokeSessions (tokenManager h) sessions (env_clocks e i) (env_random e i) in
          let h := with_tokenManager h tm in
          ret (match revoked with
               | Failed _ => (h, writeError w 500 "TOKEN_ERROR")
               | Warned _ => (h, writeSuccess (markAuthPersistenceWarningHeaders (clearBrowserSessionCookies w r)) 200 NoData)
               | Done _ => (h, writeSuccess (clearBrowserSessionCookies w r) 200 NoData)
               end)
      end
    end.

(** ** Download sessions, the account, the password *)

Definition HandleCreateDownloadSession (e : env) (r : Request) (ctx : Context) : Response :=
  let w := fresh_writer in
  if negb (String.eqb (Method r) MethodPost) then writeError w 405 "METHOD_NOT_ALLOWED"
  else if match ctx_User ctx with Some user => Disabled user | None => false end then writeError w 403 "USER_DISABLED"
  else
    match ctx_Claims ctx with
    | None => writeError w 401 "NOT_AUTHENTICATED"
    | Some claims =>
      match ClaimExpiresAt (ac_Registered claims) with
      | None => writeError w 401 "NOT_AUTHENTICATED"
      | Some expiresAt =>
        let accessToken := ctx_AccessToken ctx in
        if String.eqb (TrimSpace accessToken) "" then writeError w 401 "NOT_AUTHENTICATED"
        else
          let secure := RequestIsHTTPS proxies r in
          let cookie :=
            {| cookie_Name := cookieNameForHTTPSMode DownloadSessionCookieName secure; cookie_Value := accessToken;
               cookie_Path := if secure then "/" else downloadSessionCookiePath; cookie_HttpOnly := true; cookie_SameSite := SameSiteStrictMode;
               cookie_Secure := secure; cookie_Expires := at_wall expiresAt; cookie_MaxAge := max_age (env_until e) (at_wall expiresAt) |} in
          writeSuccess (SetCookie w cookie) 200 NoData
      end
    end.

Definition HandleMe (r : Request) (ctx : Context) : Response :=
  let w := fresh_writer in
  if negb (String.eqb (Method r) MethodGet) then writeError w 405 "METHOD_NOT_ALLOWED"
  else
    match ctx_User ctx with
    | None => writeError w 401 "NOT_AUTHENTICATED"
    | Some user => if Disabled user then writeError w 403 "USER_DISABLED" else writeSuccess w 200 (UserData (userInfo user))
    end.

(** The end of a change of credentials: the sessions of the user are revoked; that this failed, or that the change has a
    warning, is answered as a warning. *)
Definition revoke_after (h : Handler) (e : env) (w : Writer) (userID : string) (warned : bool) : prog (Handler * Response) :=
  run! (tm, revoked) := RevokeByUser (tokenManager h) userID (env_clocks e 0%nat) (env_random e 0%nat) in
  let h := with_tokenManager h tm in
  ret (if warned || match revoked with Done _ => false | _ => true end
       then (h, writeSuccess (markAuthPersistenceWarningHeaders w) 200 WarningData)
       else (h, writeSuccess w 200 NoData)).

Definition HandleChangePassword (h : Handler) (e : env) (r : Request) (ctx : Context) (decoded : body ChangePasswordRequest) : prog (Handler * Response) :=
  let w := fresh_writer in
  if negb (String.eqb (Method r) MethodPost) then ret (h, writeError w 405 "METHOD_NOT_ALLOWED")
  else
    match ctx_User ctx with
    | None => ret (h, writeError w 401 "NOT_AUTHENTICATED")
    | Some user =>
      if Disabled user then ret (h, writeError w 403 "USER_DISABLED")
      else
        match decoded with
        | BodyTooLarge => ret (h, bodyTooLarge w)
        | BodyInvalid => ret (h, bodyInvalid w)
        | Decoded req =>
          if String.eqb (req_ExpectedUserID req) "" then ret (h, writeError w 400 "MISSING_EXPECTED_USER_ID")
          else if negb (String.eqb (req_ExpectedUserID req) (ID user)) then ret (h, writeError w 409 "AUTH_SCOPE_CHANGED")
          else if String.eqb (req_OldPassword req) "" || String.eqb (req_NewPassword req) "" then ret (h, writeError w 400 "MISSING_PASSWORD")
          else
            run! (us, changed) := UserStore.ChangePassword (userStore h) (ID user) (req_OldPassword req) (req_NewPassword req) (env_salt e) (env_now e) (env_names e) in
            let h := with_userStore h us in
            let cleared := clearBrowserSessionCookies w r in
            match changed with
            | UserStore.Done _ => revoke_after h e cleared (ID user) false
            | UserStore.Warned _ | UserStore.Failed ErrPersistenceWarning => revoke_after h e cleared (ID user) true
            | UserStore.Failed ErrInvalidCredentials => ret (h, writeError w 401 "INVALID_PASSWORD")
            | UserStore.Failed ErrPasswordTooShort => ret (h, writeError w 400 "PASSWORD_TOO_SHORT")
            | UserStore.Failed ErrPasswordTooLong => ret (h, writeError w 400 "PASSWORD_TOO_LONG")
            | UserStore.Failed ErrPasswordUnchanged => ret (h, writeError w 400 "PASSWORD_UNCHANGED")
            | UserStore.Failed _ => ret (h, writeError w 500 "PASSWORD_ERROR")
            end
        end
    end.
End Handlers.
End AuthHandlers.
