(* ===== verification/AuthAdmin.v ===== *)
(** * The handlers of administrators

    [internal/auth/handler.go]: creating, changing, deleting, disabling accounts, resetting their passwords and revoking
    their sessions.  The listing of the accounts, with the history of quotas, is not modelled. *)

From Stdlib Require Import Ascii.
From S2P Require Import Prelude GoStrings GoPath GoFormat GoTime MonoTime Sha256 Users UserQuotaHistory FileMonad UserFields AuthFiles UsersFile UserStore TokenTypes Tokens TokenOps LoginThrottle GoNet RequestIP AuthMiddleware AuthHandlers.
Import MonoTime Sha256 UserFields AuthFiles TokenTypes Tokens TokenOps GoHttp RequestIP AuthMiddleware AuthHandlers.

Module AuthAdmin.

Definition MethodPut : string := "PUT".
Definition MethodDelete : string := "DELETE".

Record CreateUserRequest := {
  create_Username : string; create_Password : string; create_Email : string; create_Role : string; create_Groups : list string;
  create_HomeDir : option string; create_QuotaBytes : option Z }.
Record UpdateUserRequest := {
  update_Email : option string; update_Role : option string; update_Groups : option (list string); update_HomeDir : option string; update_QuotaBytes : option Z }.
Record ResetPasswordRequest := { reset_NewPassword : string }.
Record ToggleStatusRequest := { toggle_Disabled : option bool }.

Definition known_role (role : Role) : bool := String.eqb role RoleAdmin || String.eqb role RoleUser || String.eqb role RoleGuest.

(** Whether an account is that of the request's own user. *)
Definition is_self (ctx : Context) (userID : string) : bool := match ctx_User ctx with Some currentUser => String.eqb (ID currentUser) userID | None => false end.

Section Admin.
Context {case_tables : Unicode} {ucodec : UsersFile.UserCodec} {bcrypt : UsersFile.Bcrypt} {scodec : SessionCodec} {jwt : Jwt}.
(** [usage] is what the resolver answers, when there is one and it does not fail. *)
Context (usage : User -> option Z).

(** The fields that an answer shows; the hash and the credential version are left out. *)
Definition fullUserResponse (user : User) (warning : bool) : Payload :=
  FullUser {| ID := ID user; Username := Username user; Email := Email user; PasswordHash := EmptyString; UserRole := UserRole user; Groups := Groups user;
              Disabled := Disabled user; CreatedAt := CreatedAt user; UpdatedAt := UpdatedAt user; LastLoginAt := LastLoginAt user;
              MustChangePassword := MustChangePassword user; PasswordChangedAt := PasswordChangedAt user; CredentialVersion := 0;
              HomeDir := HomeDir user; QuotaBytes := QuotaBytes user; UsedBytes := default (UsedBytes user) (usage user) |} warning.

(** The guards that all of them begin with. *)
Definition admin_only (r : Request) (ctx : Context) (method : string) : option Response :=
  if negb (String.eqb (Method r) method) then Some (writeError fresh_writer 405 "METHOD_NOT_ALLOWED")
  else if negb (IsAdmin (ctx_User ctx)) then Some (writeError fresh_writer 403 "FORBIDDEN")
  else None.

Definition HandleCreateUser (h : Handler) (e : env) (r : Request) (ctx : Context) (decoded : body CreateUserRequest) : prog (Handler * Response) :=
  let w := fresh_writer in
  match admin_only r ctx MethodPost with
  | Some refused => ret (h, refused)
  | None =>
    match decoded with
    | BodyTooLarge => ret (h, bodyTooLarge w)
    | BodyInvalid => ret (h, bodyInvalid w)
    | Decoded req =>
      let username := TrimSpace (create_Username req) in
      let email := TrimSpace (create_Email req) in
      let roleText := TrimSpace (create_Role req) in
      if String.eqb username "" || String.eqb (create_Password req) "" then ret (h, writeError w 400 "MISSING_FIELDS")
      else
        match normalizeNewUsername username with
        | Err _ => ret (h, writeError w 400 "INVALID_USERNAME")
        | Ok cleanUsername =>
          let role := ToLower roleText in
          let role := if String.eqb role "" then RoleUser else role in
          if negb (known_role role) then ret (h, writeError w 400 "INVALID_ROLE")
          else
            let homeDir := match create_HomeDir req with Some home => Some (TrimSpace home) | None => None end in
            if match create_QuotaBytes req with Some quota => quota <? 0 | None => false end then ret (h, writeError w 400 "INVALID_QUOTA")
            else
              let options := {| UserStore.OptGroups := create_Groups req; UserStore.OptHomeDir := homeDir; UserStore.OptQuotaBytes := default 0 (create_QuotaBytes req) |} in
              run! (us, created) := UserStore.CreateWithOptions (userStore h) cleanUsername (create_Password req) email role options
                (env_salt e) (env_draws e 0%nat) (env_created e) (env_now e) (env_names e) in
              let h := with_userStore h us in
              ret (h, match created with
                      | UserStore.Done user => writeSuccess w 201 (fullUserResponse user false)
                      | UserStore.Warned user => writeSuccess (markAuthPersistenceWarningHeaders w) 201 (fullUserResponse user true)
                      | UserStore.Failed ErrUserExists => writeError w 409 "USER_EXISTS"
                      | UserStore.Failed ErrPasswordTooShort => writeError w 400 "PASSWORD_TOO_SHORT"
                      | UserStore.Failed ErrPasswordTooLong => writeError w 400 "PASSWORD_TOO_LONG"
                      | UserStore.Failed ErrInvalidUserGroups => writeError w 400 "INVALID_GROUPS"
                      | UserStore.Failed ErrInvalidUserHomeDir => writeError w 400 "INVALID_HOME_DIR"
                      | UserStore.Failed ErrInvalidQuotaBytes => writeError w 400 "INVALID_QUOTA"
                      | UserStore.Failed _ => writeError w 500 "CREATE_ERROR"
                      end)
        end
    end
  end.

Definition HandleUpdateUser (h : Handler) (e : env) (r : Request) (ctx : Context) (userID : string) (decoded : body UpdateUserRequest) : prog (Handler * Response) :=
  let w := fresh_writer in
  match admin_only r ctx MethodPut with
  | Some refused => ret (h, refused)
  | None =>
    match decoded with
    | BodyTooLarge => ret (h, bodyTooLarge w)
    | BodyInvalid => ret (h, bodyInvalid w)
    | Decoded req =>
      match update_Email req, update_Role req, update_Groups req, update_HomeDir req, update_QuotaBytes req with
      | None, None, None, None, None => ret (h, writeError w 400 "MISSING_FIELDS")
      | _, _, _, _, _ =>
        let role := match update_Role req with Some text => Some (ToLower (TrimSpace text)) | None => None end in
        if match role with Some role => negb (known_role role) | None => false end then ret (h, writeError w 400 "INVALID_ROLE")
        else if match role with Some role => is_self ctx userID && negb (String.eqb role RoleAdmin) | None => false end
        then ret (h, writeError w 400 "SELF_ROLE_CHANGE")
        else if match update_QuotaBytes req with Some quota => quota <? 0 | None => false end then ret (h, writeError w 400 "INVALID_QUOTA")
        else
          let patch :=
            {| UserStore.PatchEmail := update_Email req; UserStore.PatchRole := role; UserStore.PatchGroups := update_Groups req;
               UserStore.PatchHomeDir := update_HomeDir req; UserStore.PatchQuotaBytes := update_QuotaBytes req; UserStore.PatchDisabled := None |} in
          run! (us, patched) := UserStore.Patch (userStore h) userID patch (env_now e) (env_names e) in
          let h := with_userStore h us in
          ret (h, match patched with
                  | UserStore.Done user => writeSuccess w 200 (fullUserResponse user false)
                  | UserStore.Warned user => writeSuccess (markAuthPersistenceWarningHeaders w) 200 (fullUserResponse user true)
                  | UserStore.Failed ErrUserNotFound => writeError w 404 "USER_NOT_FOUND"
                  | UserStore.Failed ErrUserExists => writeError w 409 "USER_EXISTS"
                  | UserStore.Failed ErrInvalidRole => writeError w 400 "INVALID_ROLE"
                  | UserStore.Failed ErrInvalidUserHomeDir => writeError w 400 "INVALID_HOME_DIR"
                  | UserStore.Failed ErrInvalidUserGroups => writeError w 400 "INVALID_GROUPS"
                  | UserStore.Failed ErrLastAdmin => writeError w 400 "LAST_ADMIN"
                  | UserStore.Failed ErrInvalidQuotaBytes => writeError w 400 "INVALID_QUOTA"
                  | UserStore.Failed _ => writeError w 500 "UPDATE_ERROR"
                  end)
      end
    end
  end.

Definition HandleDeleteUser (h : Handler) (e : env) (r : Request) (ctx : Context) (userID : string) : prog (Handler * Response) :=
  let w := fresh_writer in
  match admin_only r ctx MethodDelete with
  | Some refused => ret (h, refused)
  | None =>
    if is_self ctx userID then ret (h, writeError w 400 "SELF_DELETE")
    else
      run! (us, deleted) := UserStore.Delete (userStore h) userID (env_names e) in
      let h := with_userStore h us in
      match deleted with
      | UserStore.Done _ => revoke_after h e w userID false
      | UserStore.Warned _ | UserStore.Failed ErrPersistenceWarning => revoke_after h e w userID true
      | UserStore.Failed ErrUserNotFound => ret (h, writeError w 404 "USER_NOT_FOUND")
      | UserStore.Failed ErrLastAdmin => ret (h, writeError w 400 "LAST_ADMIN")
      | UserStore.Failed _ => ret (h, writeError w 500 "DELETE_ERROR")
      end
  end.

Definition HandleResetUserPassword (h : Handler) (e : env) (r : Request) (ctx : Context) (userID : string) (decoded : body ResetPasswordRequest)
    : prog (Handler * Response) :=
  let w := fresh_writer in
  match admin_only r ctx MethodPost with
  | Some refused => ret (h, refused)
  | None =>
    match decoded with
    | BodyTooLarge => ret (h, bodyTooLarge w)
    | BodyInvalid => ret (h, bodyInvalid w)
    | Decoded req =>
      if String.eqb (reset_NewPassword req) "" then ret (h, writeError w 400 "MISSING_PASSWORD")
      else
        run! (us, changed) :=
          if is_self ctx userID then UserStore.ResetOwnPassword (userStore h) userID (reset_NewPassword req) (env_salt e) (env_now e) (env_names e)
          else UserStore.ResetPassword (userStore h) userID (reset_NewPassword req) (env_salt e) (env_now e) (env_names e) in
        let h := with_userStore h us in
        match changed with
        | UserStore.Done _ => revoke_after h e w userID false
        | UserStore.Warned _ | UserStore.Failed ErrPersistenceWarning => revoke_after h e w userID true
        | UserStore.Failed ErrUserNotFound => ret (h, writeError w 404 "USER_NOT_FOUND")
        | UserStore.Failed ErrPasswordTooShort => ret (h, writeError w 400 "PASSWORD_TOO_SHORT")
        | UserStore.Failed ErrPasswordTooLong => ret (h, writeError w 400 "PASSWORD_TOO_LONG")
        | UserStore.Failed _ => ret (h, writeError w 500 "RESET_ERROR")
        end
    end
  end.

Definition HandleRevokeUserSessions (h : Handler) (e : env) (r : Request) (ctx : Context) (userID : string) : prog (Handler * Response) :=
  let w := fresh_writer in
  match admin_only r ctx MethodPost with
  | Some refused => ret (h, refused)
  | None =>
    match UserStore.GetByID (userStore h) userID with
    | Err _ => ret (h, writeError w 404 "USER_NOT_FOUND")
    | Ok _ =>
      run! (tm, revoked) := RevokeByUser (tokenManager h) userID (env_clocks e 0%nat) (env_random e 0%nat) in
      let h := with_tokenManager h tm in
      ret (h, match revoked with
              | Done _ => writeSuccess w 200 (RevokedData false)
              | Warned _ => writeSuccess (markAuthPersistenceWarningHeaders w) 200 (RevokedData true)
              | Failed _ => writeError w 500 "REVOKE_SESSIONS_ERROR"
              end)
    end
  end.

Definition HandleToggleUserStatus (h : Handler) (e : env) (r : Request) (ctx : Context) (userID : string) (decoded : body ToggleStatusRequest)
    : prog (Handler * Response) :=
  let w := fresh_writer in
  match admin_only r ctx MethodPut with
  | Some refused => ret (h, refused)
  | None =>
    match decoded with
    | BodyTooLarge => ret (h, bodyTooLarge w)
    | BodyInvalid => ret (h, bodyInvalid w)
    | Decoded req =>
      match toggle_Disabled req with
      | None => ret (h, writeError w 400 "MISSING_DISABLED")
      | Some disabled =>
        if is_self ctx userID && disabled then ret (h, writeError w 400 "SELF_DISABLE")
        else
          let patch := {| UserStore.PatchEmail := None; UserStore.PatchRole := None; UserStore.PatchGroups := None; UserStore.PatchHomeDir := None;
                          UserStore.PatchQuotaBytes := None; UserStore.PatchDisabled := Some disabled |} in
          run! (us, patched) := UserStore.Patch (userStore h) userID patch (env_now e) (env_names e) in
          let h := with_userStore h us in
          (** When the account is disabled, its sessions are revoked. *)
          let finished (warned : bool) : prog (Handler * Response) :=
            if disabled then
              run! (tm, revoked) := RevokeByUser (tokenManager h) userID (env_clocks e 0%nat) (env_random e 0%nat) in
              let h := with_tokenManager h tm in
              let warned := warned || match revoked with Done _ => false | _ => true end in
              ret (h, writeSuccess (if warned then markAuthPersistenceWarningHeaders w else w) 200 (DisabledData disabled warned))
            else ret (h, writeSuccess (if warned then markAuthPersistenceWarningHeaders w else w) 200 (DisabledData disabled warned)) in
          match patched with
          | UserStore.Done _ => finished false
          | UserStore.Warned _ | UserStore.Failed ErrPersistenceWarning => finished true
          | UserStore.Failed ErrLastAdmin => ret (h, writeError w 400 "LAST_ADMIN")
          | UserStore.Failed ErrUserNotFound => ret (h, writeError w 404 "USER_NOT_FOUND")
          | UserStore.Failed _ => ret (h, writeError w 500 "UPDATE_ERROR")
          end
      end
    end
  end.
End Admin.
End AuthAdmin.
