(* ===== verification/AuthSpec.v ===== *)
(** * Authentication of requests: lemmas

    What a validation does to the token manager and to its clock, which tokens a loop over candidates accepts, and what
    a handler has checked when it answers with success. *)

From Stdlib Require Import Ascii.
From S2P Require Import Prelude GoStrings GoPath GoFormat GoTime MonoTime Users FileMonad UserFields AuthFiles UsersFile UserStore UserSpec UserAtomic TokenTypes Tokens TokenOps LoginThrottle GoNet RequestIP AuthMiddleware AuthHandlers AuthAdmin.
Import MonoTime UserFields AuthFiles Returns TokenTypes Tokens TokenOps GoHttp RequestIP AuthMiddleware AuthHandlers AuthAdmin.

Module AuthSpec.

(** ** The clock of the token manager *)

(** Two managers whose clocks were read the same. *)
Definition same_clock (tm tm' : TokenManager) : Prop := timeHighWater tm' = timeHighWater tm /\ timeHighWaterObservedAt tm' = timeHighWaterObservedAt tm.
Lemma same_reading tm tm' c : same_clock tm tm' -> snd (effectiveNowLocked tm' c) = snd (effectiveNowLocked tm c) /\ same_clock (fst (effectiveNowLocked tm c)) (fst (effectiveNowLocked tm' c)).
Proof. intros [H1 H2]. unfold effectiveNowLocked. rewrite H1, H2. done. Qed.

(** The time of the [n]-th of some calls that read the clock one after the other. *)
Fixpoint time_of_call (tm : TokenManager) (clocks : nat -> clock) (n : nat) : Time :=
  match n with
  | O => snd (effectiveNowLocked tm (clocks O))
  | S n => time_of_call (fst (effectiveNowLocked tm (clocks O))) (fun i => clocks (S i)) n
  end.
Lemma time_of_same n : forall tm tm' clocks, same_clock tm tm' -> time_of_call tm' clocks n = time_of_call tm clocks n.
Proof. induction n as [|n IH]; intros tm tm' clocks H; cbn; destruct (same_reading tm tm' (clocks 0%nat) H) as [H1 H2]; [done|by apply IH]. Qed.

Section Tokens.
Context {case_tables : Unicode} {scodec : SessionCodec} {jwt : Jwt}.

(** A manager after validations: it signs with the same key and has no sessions that it did not have. *)
Definition fewer_sessions (tm tm' : TokenManager) : Prop :=
  secretKey tm' = secretKey tm /\ issuer tm' = issuer tm /\ sessionRegistry tm' ⊆ sessionRegistry tm.
Lemma fewer_refl tm : fewer_sessions tm tm.
Proof. done. Qed.
Lemma fewer_trans tm1 tm2 tm3 : fewer_sessions tm1 tm2 -> fewer_sessions tm2 tm3 -> fewer_sessions tm1 tm3.
Proof. intros (E1 & E2 & H1) (E3 & E4 & H2). split_and!; [congruence|congruence|by etrans]. Qed.

Lemma extend_same tm now : sessionRegistry (extendRestartTimeLeaseLocked tm now) = sessionRegistry tm /\ secretKey (extendRestartTimeLeaseLocked tm now) = secretKey tm /\
  issuer (extendRestartTimeLeaseLocked tm now) = issuer tm /\ same_clock tm (extendRestartTimeLeaseLocked tm now).
Proof. unfold extendRestartTimeLeaseLocked, same_clock. destruct (_ || _); [done|]. cbv zeta. by destruct (After _ _). Qed.

(** What a validation begins with: the time is that of the call, or the state is unavailable; sessions that are still
    active at that time stay. *)
Lemma prepare_spec tm c random : returns (prepareValidationTime tm c random) (fun '(tm', r) =>
  fewer_sessions tm tm' /\ same_clock (fst (effectiveNowLocked tm c)) tm' /\
  match r with
  | Ok now => now = snd (effectiveNowLocked tm c) /\ forall id record, sessionRegistry tm !! id = Some record -> active now record = true -> sessionRegistry tm' !! id = Some record
  | Err e => e = ErrTokenStateUnavailable
  end).
Proof.
  unfold prepareValidationTime. destruct (effectiveNowLocked tm c) as [tm1 now] eqn:E. cbn [fst snd].
  assert (Hr : sessionRegistry tm1 = sessionRegistry tm /\ secretKey tm1 = secretKey tm /\ issuer tm1 = issuer tm) by (unfold effectiveNowLocked in E; by injection E as <- _).
  destruct Hr as (R1 & R2 & R3).
  assert (Hsame : fewer_sessions tm tm1) by (split_and!; [done|done|by rewrite R1]).
  destruct (String.eqb _ _); [apply returned_ret; split_and!; try done; by rewrite R1|]. destruct (_ || _); [by apply returned_ret|].
  destruct (_ && _); [apply returned_ret; split_and!; try done; by rewrite R1|]. cbn [cleanupExpiredSessionsLocked].
  set (kept := with_registry tm1 _). destruct (extend_same kept now) as (X1 & X2 & X3 & X4 & X5).
  assert (Hkept : forall id record, sessionRegistry tm !! id = Some record -> active now record = true -> sessionRegistry kept !! id = Some record).
  { intros id record Hid Ha. unfold kept. cbn [with_registry sessionRegistry]. rewrite R1. by apply map_lookup_filter_Some. }
  assert (Hsub : sessionRegistry kept ⊆ sessionRegistry tm) by (unfold kept; cbn [with_registry sessionRegistry]; rewrite R1; apply map_filter_subseteq).
  apply returns_then. intros [| |e].
  - apply returned_ret. split_and!; [unfold fewer_sessions; rewrite X1, X2, X3; by split_and!|by split; [rewrite X4|rewrite X5]|done|]. by rewrite X1.
  - apply returned_ret. split_and!; [unfold fewer_sessions; rewrite X1, X2, X3; by split_and!|by split; [rewrite X4|rewrite X5]|done|]. by rewrite X1.
  - set (restored := restoreRemovedSessionsLocked _ _).
    assert (Hrest : sessionRegistry restored = sessionRegistry tm).
    { unfold restored, restoreRemovedSessionsLocked. cbn [with_registry with_floor sessionRegistry]. rewrite X1. unfold kept. cbn [with_registry sessionRegistry]. rewrite R1.
      apply map_eq. intros id. destruct (sessionRegistry tm !! id) as [record|] eqn:Er.
      - destruct (active now record) eqn:Ea.
        + apply lookup_union_Some_raw. right. split; [apply map_lookup_filter_None; right; intros x Hx; rewrite Er in Hx; injection Hx as <-; congruence|by apply map_lookup_filter_Some].
        + apply lookup_union_Some_raw. left. by apply map_lookup_filter_Some.
      - apply lookup_union_None. split; apply map_lookup_filter_None; by left. }
    assert (Hf : fewer_sessions tm restored) by (split_and!; [cbn; by rewrite X2|cbn; by rewrite X3|by rewrite Hrest]).
    assert (Hc : same_clock tm1 restored) by (split; cbn; [by rewrite X4|by rewrite X5]).
    destruct (_ || _); apply returned_ret; split_and!; try done. by rewrite Hrest.
Qed.

(** A token is accepted at an instant: its claims are good and its session is registered and alive. *)
Definition accepts (tm : TokenManager) (now : Time) (token : string) (claims : TokenClaims) : Prop :=
  parse_access tm now token = Ok claims /\ access_session tm now claims = Ok claims.

Lemma accepts_before tm tm' now token claims : fewer_sessions tm tm' -> accepts tm' now token claims -> accepts tm now token claims.
Proof.
  intros (E1 & E2 & Hsub) [H1 H2]. split.
  - unfold parse_access in *. by rewrite <-E1, <-E2.
  - revert H2. unfold access_session. destruct (sessionRegistry tm' !! ac_SessionID claims) as [record|] eqn:E; [|done]. by rewrite (lookup_weaken _ _ _ _ E Hsub).
Qed.
Lemma session_claims tm now claims claims' : access_session tm now claims = Ok claims' -> claims' = claims.
Proof. unfold access_session. destruct (_ !! _); [|done]. destruct (_ || _); [done|]. by destruct (negb _); intros [=]. Qed.

Lemma validate_access_spec tm token c random : returns (ValidateAccessToken tm token c random) (fun '(tm', r) =>
  fewer_sessions tm tm' /\ same_clock (fst (effectiveNowLocked tm c)) tm' /\
  match r with
  | Ok claims => accepts tm (snd (effectiveNowLocked tm c)) token claims
  | Err e => e = ErrTokenStateUnavailable \/ forall claims, ~ accepts tm (snd (effectiveNowLocked tm c)) token claims
  end).
Proof.
  unfold ValidateAccessToken. eapply returned_bind; [apply prepare_spec|]. intros [tm' [now|e]] (Hf & Hc & Hr); apply returned_ret; (split; [done|]); (split; [done|]); [|by left].
  destruct Hr as [E0 Hkeep]. rewrite <-E0. clear E0. destruct (parse_access tm' now token) as [claims|e] eqn:Ep.
  - destruct (access_session tm' now claims) as [claims'|e] eqn:Es.
    + pose proof (session_claims _ _ _ _ Es) as ->. by apply (accepts_before tm tm').
    + right. intros claims' [H1 H2]. destruct Hf as (E1 & E2 & Hsub). unfold parse_access in H1, Ep. rewrite E1, E2 in Ep. rewrite Ep in H1. injection H1 as <-.
      revert H2. unfold access_session in *. destruct (sessionRegistry tm !! ac_SessionID claims) as [record|] eqn:Er; [|done].
      destruct (_ || _) eqn:Eo; [done|]. destruct (After (rec_ExpiresAt record) now) eqn:Ea; [|done]. rewrite (Hkeep _ _ Er Ea), Eo, Ea in Es. done.
  - right. intros claims [H1 _]. destruct Hf as (E1 & E2 & _). unfold parse_access in *. rewrite E1, E2 in Ep. congruence.
Qed.

(** The loop over the candidates: what it selects is accepted, at the time of its turn. *)
Lemma validate_from_spec candidates : forall tm selected firstErr clocks randoms, returns (validate_from tm candidates selected firstErr clocks randoms) (fun '(tm', r) =>
  fewer_sessions tm tm' /\
  match r with
  | Ok (token, claims) => selected = Some (token, claims) \/ exists i, candidates !! i = Some token /\ accepts tm (time_of_call tm clocks i) token claims
  | Err _ => True
  end).
Proof.
  induction candidates as [|token candidates IH]; intros tm selected firstErr clocks randoms; cbn [validate_from].
  { apply returned_ret. split; [done|]. destruct selected as [[]|]; [by left|done]. }
  eapply returned_bind; [apply validate_access_spec|]. intros [tm1 r] (Hf & Hc & Hr).
  assert (Hlater : forall token' claims' i, candidates !! i = Some token' -> accepts tm1 (time_of_call tm1 (fun i => clocks (S i)) i) token' claims' ->
    exists i, (token :: candidates) !! i = Some token' /\ accepts tm (time_of_call tm clocks i) token' claims').
  { intros token' claims' i Hi Ha. exists (S i). split; [done|]. cbn. rewrite <-(time_of_same i _ tm1) by done. by apply (accepts_before tm tm1). }
  destruct r as [claims|e].
  - destruct selected as [[token0 claims0]|].
    + destruct (negb _); [by apply returned_ret|]. eapply returns_weaken; [apply IH|]. intros [tm' r] [Hf' Hr']. split; [by apply fewer_trans with tm1|].
      destruct r as [[token' claims']|]; [|done]. destruct Hr' as [H|(i & Hi & Ha)]; [by left|right]. by eapply Hlater.
    + eapply returns_weaken; [apply IH|]. intros [tm' r] [Hf' Hr']. split; [by apply fewer_trans with tm1|]. destruct r as [[token' claims']|]; [|done].
      right. destruct Hr' as [[= <- <-]|(i & Hi & Ha)]; [by exists 0%nat|by eapply Hlater].
  - eapply returns_weaken; [apply IH|]. intros [tm' r] [Hf' Hr']. split; [by apply fewer_trans with tm1|]. destruct r as [[token' claims']|]; [|done].
    destruct Hr' as [H|(i & Hi & Ha)]; [by left|right]. by eapply Hlater.
Qed.

(** ** Refresh tokens *)

(** A refresh token is good at an instant, or was used before. *)
Definition accepts_refresh (tm : TokenManager) (now : Time) (token : string) (claims : refreshTokenClaims) : Prop :=
  parse_refresh tm now token = Ok claims /\ validateRefreshTokenClaimsLocked tm claims now = None.
Definition used_before (tm : TokenManager) (now : Time) (token : string) (claims : refreshTokenClaims) : Prop :=
  parse_refresh tm now token = Ok claims /\ validateRefreshTokenClaimsLocked tm claims now = Some errRefreshTokenReused.

Lemma parse_refresh_same tm tm' now token : fewer_sessions tm tm' -> parse_refresh tm' now token = parse_refresh tm now token.
Proof. intros (E1 & E2 & _). unfold parse_refresh. by rewrite E1, E2. Qed.

(** A validation finds the same of a session that is alive. *)
Lemma locked_same tm tm' now claims : fewer_sessions tm tm' ->
  (forall id record, sessionRegistry tm !! id = Some record -> active now record = true -> sessionRegistry tm' !! id = Some record) ->
  match validateRefreshTokenClaimsLocked tm claims now with
  | None | Some errRefreshTokenReused => validateRefreshTokenClaimsLocked tm' claims now = validateRefreshTokenClaimsLocked tm claims now
  | Some _ => match validateRefreshTokenClaimsLocked tm' claims now with None | Some errRefreshTokenReused => False | Some _ => True end
  end.
Proof.
  intros (_ & _ & Hsub) Hkeep. unfold validateRefreshTokenClaimsLocked. destruct (sessionRegistry tm !! rc_SessionID claims) as [record|] eqn:E.
  - destruct (After (rec_ExpiresAt record) now) eqn:Ea; [rewrite (Hkeep _ _ E Ea), Ea|].
    + destruct (_ || _); [done|]. cbn [negb]. destruct (_ <? _); [done|]. by destruct (_ <? _).
    + destruct (sessionRegistry tm' !! rc_SessionID claims) as [record'|] eqn:E'.
      * assert (record' = record) as -> by (pose proof (lookup_weaken _ _ _ _ E' Hsub); congruence). rewrite Ea. by destruct (_ || _).
      * by destruct (_ || _).
  - destruct (sessionRegistry tm' !! rc_SessionID claims) as [record'|] eqn:E'; [|done]. pose proof (lookup_weaken _ _ _ _ E' Hsub). congruence.
Qed.

Lemma validate_refresh_spec tm token c random : returns (validateRefreshTokenClaims tm token c random) (fun '(tm', r) =>
  fewer_sessions tm tm' /\ same_clock (fst (effectiveNowLocked tm c)) tm' /\
  match r with
  | Ok claims => accepts_refresh tm (snd (effectiveNowLocked tm c)) token claims
  | Err (errRefreshTokenReused, Some claims) => used_before tm (snd (effectiveNowLocked tm c)) token claims
  | Err (e, _) => e <> errRefreshTokenReused /\ (e = ErrTokenStateUnavailable \/ forall claims,
      ~ accepts_refresh tm (snd (effectiveNowLocked tm c)) token claims /\ ~ used_before tm (snd (effectiveNowLocked tm c)) token claims)
  end).
Proof.
  unfold validateRefreshTokenClaims, parseRefreshTokenClaimsAtCurrentTime.
  eapply returned_bind with (P := fun '(tm', r) => fewer_sessions tm tm' /\ same_clock (fst (effectiveNowLocked tm c)) tm' /\
    match r with
    | Ok (claims, now) => now = snd (effectiveNowLocked tm c) /\ parse_refresh tm now token = Ok claims /\
        (forall id record, sessionRegistry tm !! id = Some record -> active now record = true -> sessionRegistry tm' !! id = Some record)
    | Err e => e <> errRefreshTokenReused /\ (e = ErrTokenStateUnavailable \/ forall claims, parse_refresh tm (snd (effectiveNowLocked tm c)) token <> Ok claims)
    end).
  - eapply returned_bind; [apply prepare_spec|]. intros [tm' [now|e]] (Hf & Hc & Hr); apply returned_ret; (split; [done|]); (split; [done|]).
    + destruct Hr as [E0 Hkeep]. pose proof (parse_refresh_same tm tm' now token Hf) as Ep. destruct (parse_refresh tm' now token) as [claims|e] eqn:E.
      * split; [done|]. by split.
      * rewrite <-E0, <-Ep. split; [|by right]. intros ->. revert E. unfold parse_refresh. destruct (ParseRefresh _ _ _ _ _) as [claims|[]]; [|done..]. by destruct (refresh_claims_complete _).
    + by rewrite Hr; split; [|left].
  - intros [tm' [[claims now]|e]] (Hf & Hc & Hr); apply returned_ret; (split; [done|]); (split; [done|]).
    + destruct Hr as (-> & Hp & Hkeep). pose proof (locked_same tm tm' (snd (effectiveNowLocked tm c)) claims Hf Hkeep) as Hl.
      destruct (validateRefreshTokenClaimsLocked tm claims (snd (effectiveNowLocked tm c))) as [[]|] eqn:El;
        try (rewrite Hl; by split); destruct (validateRefreshTokenClaimsLocked tm' claims (snd (effectiveNowLocked tm c))) as [[]|]; try done;
        (split; [done|]; right; intros claims'; split; intros [Hp' Hl']; rewrite Hp in Hp'; injection Hp' as <-; congruence).
    + destruct Hr as [Hne Hr]. destruct e; try done; (split; [done|]); (destruct Hr as [Hr|Hr]; [by left|right]; intros claims; split; intros [Hp _]; by apply (Hr claims)).
Qed.

(** A sole token decides. *)
Lemma validate_candidates_spec tm token clocks randoms : returns (validateRefreshTokenCandidates tm [token] clocks randoms) (fun '(tm', r) =>
  fewer_sessions tm tm' /\ same_clock (fst (effectiveNowLocked tm (clocks 0%nat))) tm' /\
  match r with
  | Ok claims => accepts_refresh tm (time_of_call tm clocks 0) token claims
  | Err (errRefreshTokenReused, Some claims) => used_before tm (time_of_call tm clocks 0) token claims
  | Err (e, _) => e <> errRefreshTokenReused /\ (e = ErrTokenStateUnavailable \/ forall claims,
      ~ accepts_refresh tm (time_of_call tm clocks 0) token claims /\ ~ used_before tm (time_of_call tm clocks 0) token claims)
  end).
Proof.
  unfold validateRefreshTokenCandidates. cbn [validate_refresh_from]. eapply returned_bind; [apply validate_refresh_spec|].
  intros [tm' r] (Hf & Hc & Hr). destruct r as [claims|[[] [claims|]]]; apply returned_ret; by split_and!.
Qed.

(** Reading a token: its claims, whatever became of its session. *)
Lemma parse_claims_spec tm token c random : returns (parseRefreshTokenClaims tm token c random) (fun '(tm', r) =>
  match r with
  | Ok claims => parse_refresh tm (snd (effectiveNowLocked tm c)) token = Ok claims
  | Err e => e = ErrTokenStateUnavailable \/ forall claims, parse_refresh tm (snd (effectiveNowLocked tm c)) token <> Ok claims
  end).
Proof.
  unfold parseRefreshTokenClaims, parseRefreshTokenClaimsAtCurrentTime.
  eapply returned_bind with (P := fun '(tm', r) => match r with
    | Ok (claims, now) => parse_refresh tm (snd (effectiveNowLocked tm c)) token = Ok claims
    | Err e => e = ErrTokenStateUnavailable \/ forall claims, parse_refresh tm (snd (effectiveNowLocked tm c)) token <> Ok claims
    end).
  - eapply returned_bind; [apply prepare_spec|]. intros [tm' [now|e]] (Hf & _ & Hr); apply returned_ret; [|by left].
    destruct Hr as [<- _]. rewrite <-(parse_refresh_same tm tm' now token Hf). destruct (parse_refresh tm' now token); [done|by right].
  - intros [tm' [[claims now]|e]] H; by apply returned_ret.
Qed.

(** The refresh token of a logout. *)
Lemma parse_logout_spec tm token clocks randoms : returns (parseLogoutRefreshTokenCandidates tm [token] clocks randoms) (fun '(_, (found, stateErr)) =>
  stateErr = false -> forall claims, parse_refresh tm (time_of_call tm clocks 0) token = Ok claims -> found = Some claims).
Proof.
  unfold parseLogoutRefreshTokenCandidates. cbn [parse_logout_from time_of_call]. eapply returned_bind; [apply parse_claims_spec|].
  intros [tm' [claims|e]] H; apply returned_ret; [intros _ claims'; congruence|]. intros He claims Hp. destruct H as [->|H]; [done|]. by apply H in Hp.
Qed.

(** ** Revoking *)

Lemma persisted_result {A} tm restored (a : A) random : returns (persisted tm restored a random) (fun '(tm', r) =>
  match r with Done b | Warned b => tm' = tm /\ b = a | Failed _ => tm' = restored end).
Proof. unfold persisted. apply returns_then. intros []; by apply returned_ret. Qed.

Lemma removal_spec tm now expired removed random : returns (persist_removal tm now expired removed random) (fun '(tm', r) =>
  match r with Done _ | Warned _ => sessionRegistry tm' = sessionRegistry tm | Failed _ => True end).
Proof.
  unfold persist_removal. destruct (_ && _); [by apply returned_ret|]. cbv zeta. eapply returns_weaken; [apply persisted_result|].
  intros [tm' r] H. destruct (extend_same tm now) as (E & _). destruct r; [by destruct H as [-> _]..|done].
Qed.

Lemma revoke_spec tm sessions c random : returns (RevokeSessions tm sessions c random) (fun '(tm', r) =>
  match r with Done _ | Warned _ => forall id, is_Some (sessions !! id) -> sessionRegistry tm' !! id = None | Failed _ => True end).
Proof.
  unfold RevokeSessions. destruct (Nat.eqb_spec (size sessions) 0) as [Hs|_].
  { apply returned_ret. intros id [x Hx]. apply map_size_empty_inv in Hs. by rewrite Hs in Hx. }
  destruct (existsb _ _); [by apply returned_ret|]. destruct (effectiveNowLocked tm c) as [tm1 now]. cbn [cleanupExpiredSessionsLocked remove_sessions].
  eapply returns_weaken; [apply removal_spec|]. intros [tm' r] H.
  destruct r; try done; intros id Hid; rewrite H; cbn [with_registry sessionRegistry]; apply map_lookup_filter_None; right;
    intros x Hx; by rewrite bool_decide_true.
Qed.
End Tokens.

(** ** Accounts *)

Section Accounts.
Context {ucodec : UsersFile.UserCodec} {bcrypt : UsersFile.Bcrypt}.
Import UserStore UserSpec UserAtomic.

(** An operation that succeeds has its effect. *)
Lemma op_effect o s d m script names w s' r : store_ok s -> files m d -> saved (users s) m -> fresh_id o (users s) -> draws_of o ->
  run o s names {| io_dir := d; io_script := script |} = (w, Some (s', r)) -> match r with Failed _ => True | _ => effect o (users s) (users s') end.
Proof.
  intros Hok Hd Hs Hf Hdr Hrun. pose proof (run_atomic o s m names Hok Hs Hf Hdr {| io_dir := d; io_script := script |} Hd) as H.
  rewrite Hrun in H. destruct H as (_ & _ & Hr). by destruct r; try destruct Hr.
Qed.

(** An account that is disabled stays so, unless a change of its record says otherwise. *)
Definition enables (o : op) (id : string) : Prop :=
  match o with
  | OpUpdate user _ => ID user = id /\ Disabled user = false
  | OpPatch i patch _ => i = id /\ PatchDisabled patch = Some false
  | _ => False
  end.
Definition draws_id (o : op) (id : string) : Prop :=
  match o with OpCreate _ _ _ _ _ _ random _ _ => generateID random = Ok id | _ => False end.

Lemma effect_disabled o us us' id u v : effect o us us' -> ~ enables o id -> ~ draws_id o id -> draws_of o ->
  us !! id = Some u -> us' !! id = Some v -> Disabled u = true -> Disabled v = true.
Proof.
  intros He Hn Hf Hd Hu Hv Hdis.
  assert (Hput : forall i w, us' = <[i := w]> us -> (i = id -> Disabled w = true) -> Disabled v = true).
  { intros i w -> Hw. apply lookup_insert_Some in Hv as [[-> <-]|[_ Hv]]; [by apply Hw|]. congruence. }
  destruct o as [username password now|username password email role options salt random created now|user now|i patch now|
    i oldPassword newPassword salt now|i newPassword must salt now|i]; cbn [effect draws_id draws_of enables] in *.
  - destruct He as (w & Hw & _ & Hw' & _ & E). eapply Hput; [exact E|]. intros <-. rewrite Hu in Hw. injection Hw as <-. done.
  - destruct He as (w & Hnew & _ & E). eapply Hput; [exact E|]. intros <-. by destruct (newUser_ok _ _ _ _ _ _ _ _ _ _ Hd Hnew) as [_ ?].
  - destruct He as (w & x & _ & Hc & _ & E). eapply Hput; [exact E|]. intros Hid. unfold checkUpdate in Hc. repeat case_in Hc. injection Hc as <-. cbn.
    destruct (Disabled user) eqn:Eu; [done|]. by destruct Hn.
  - destruct He as (w & x & Hw & Hc & E). eapply Hput; [exact E|]. intros ->. rewrite Hu in Hw. injection Hw as <-. unfold checkPatch in Hc. cbv zeta in Hc.
    assert (Hd' : default (Disabled u) (PatchDisabled patch) = true) by (destruct (PatchDisabled patch) as [[]|]; [done|by destruct Hn|done]).
    repeat case_in Hc; injection Hc as <-; exact Hd'.
  - destruct He as (w & hash & Hw & _ & _ & _ & E). eapply Hput; [exact E|]. intros ->. rewrite Hu in Hw. by injection Hw as <-.
  - destruct He as (w & hash & Hw & _ & E). eapply Hput; [exact E|]. intros ->. rewrite Hu in Hw. by injection Hw as <-.
  - destruct He as (w & _ & _ & ->). apply lookup_delete_Some in Hv as [_ Hv]. congruence.
Qed.
(** An account that is not there is not created with its ID again. *)
Lemma effect_absent o us us' id : effect o us us' -> ~ draws_id o id -> draws_of o -> us !! id = None -> us' !! id = None.
Proof.
  intros He Hf Hd Hu. assert (Hput : forall i w, us !! i = Some w -> forall x, us' = <[i := x]> us -> us' !! id = None).
  { intros i w Hw x ->. rewrite lookup_insert_ne; [done|]. intros ->. congruence. }
  destruct o as [username password now|username password email role options salt random created now|user now|i patch now|
    i oldPassword newPassword salt now|i newPassword must salt now|i]; cbn [effect draws_id draws_of] in *.
  - destruct He as (w & Hw & _ & _ & _ & E). by eapply Hput.
  - destruct He as (w & Hnew & _ & ->). rewrite lookup_insert_ne; [done|]. intros <-. by destruct (newUser_ok _ _ _ _ _ _ _ _ _ _ Hd Hnew) as [_ ?].
  - destruct He as (w & x & Hw & _ & _ & E). by eapply Hput.
  - destruct He as (w & x & Hw & _ & E). by eapply Hput.
  - destruct He as (w & hash & Hw & _ & _ & _ & E). by eapply Hput.
  - destruct He as (w & hash & Hw & _ & E). by eapply Hput.
  - destruct He as (w & _ & _ & ->). rewrite lookup_delete_None. by right.
Qed.

(** A version is met again only after as many changes as there are numbers of 64 bits. *)
Lemma next_version v n : 0 < n < two64 -> uint64 (v + n) <> v.
Proof. unfold uint64, two64. intros Hn H. Z.div_mod_to_equations. nia. Qed.
Lemma uint64_add v n : uint64 (uint64 v + n) = uint64 (v + n).
Proof. unfold uint64. by rewrite Zplus_mod_idemp_l. Qed.

(** A login that succeeds had the password of an enabled account. *)
Lemma authenticate_returns s username password now names : returns (Authenticate s username password now names) (fun '(_, r) =>
  match r with
  | Failed _ => True
  | Done u | Warned u => exists v, snap_byName (snapshotState s) !! normalizeUsername username = Some v /\ Disabled v = false /\
      UsersFile.CompareHashAndPassword (PasswordHash v) password = true /\ u = with_login v now
  end).
Proof.
  unfold Authenticate. cbn [retry]. unfold authenticateOnce. destruct (snap_byName (snapshotState s) !! normalizeUsername username) as [v|]; [|by apply returned_ret].
  destruct (Disabled v) eqn:Ed; [by apply returned_ret|]. destruct (UsersFile.CompareHashAndPassword (PasswordHash v) password) eqn:Ec; [|by apply returned_ret]. cbn [negb].
  eapply returned_bind with (P := fun '(_, _, r) => match r with Some (Done u | Warned u) => u = with_login v now | _ => True end).
  - apply returns_then. intros [| |e]; cbn [finish]; [destruct (commitSnapshot _ _) as [s' []]; by apply returned_ret..|by apply returned_ret].
  - intros [[s' warned] [[u|u|e]|]] H; apply returned_ret; try done; by exists v.
Qed.
End Accounts.
End AuthSpec.
