(* ===== verification/AuthProps.v ===== *)
(** * Authentication of requests: properties *)

From Stdlib Require Import Ascii.
From S2P Require Import Prelude GoStrings GoPath GoFormat GoTime MonoTime Sha256 Users FileMonad UserFields AuthFiles UsersFile UserStore UserSpec UserAtomic TokenTypes Tokens TokenOps LoginThrottle GoNet RequestIP AuthMiddleware AuthHandlers AuthAdmin AuthSpec UserInstances UserStart UserProps TokenInstances.
Import MonoTime Sha256 UserFields AuthFiles Returns TokenTypes Tokens TokenOps LoginThrottle GoHttp RequestIP AuthMiddleware AuthHandlers AuthAdmin AuthSpec.

Module AuthProps.
Section Props.
Context {case_tables : Unicode} {ucodec : UsersFile.UserCodec} {bcrypt : UsersFile.Bcrypt} {scodec : SessionCodec} {jwt : Jwt} (px : proxies).

(** ** Who passes *)

(** The context that [RequireAuth] gives to a request that it passes on for a token of the request. *)
Definition passed (us : UserStore.UserStore) (tm : TokenManager) (r : Request) (clocks : nat -> clock) (ctx : Context) : Prop :=
  exists candidates i token claims user,
    tokenCandidatesFromRequest px r true = Ok candidates /\ candidates !! i = Some token /\ accepts tm (time_of_call tm clocks i) token claims /\
    UserStore.users us !! ac_UserID claims = Some user /\ Disabled user = false /\ ac_CredentialVersion claims = CredentialVersion user /\
    (MustChangePassword user = true -> allowsRequiredPasswordChange r = true) /\
    ctx = {| ctx_User := Some user; ctx_Claims := Some claims; ctx_AccessToken := token |}.

Lemma require_auth_returns us tm r ctx clocks randoms excludePaths : existsb (pathMatches (URL_Path r)) excludePaths = false ->
  returns (RequireAuth px excludePaths us tm r ctx clocks randoms) (fun '(_, out) => forall ctx', out = Next ctx' -> passed us tm r clocks ctx').
Proof.
  intros Hex. unfold RequireAuth. rewrite Hex. destruct (tokenCandidatesFromRequest px r true) as [candidates|[]] eqn:Ec; [|by apply returned_ret..].
  destruct candidates as [|t0 candidates]; [by apply returned_ret|]. eapply returned_bind; [apply validate_from_spec|].
  intros [tm' [[token claims]|e]] [Hf Hr]; apply returned_ret.
  - destruct Hr as [?|(i & Hi & Ha)]; [done|]. unfold UserStore.GetByID. destruct (UserStore.users us !! ac_UserID claims) as [user|] eqn:Eu; [|done].
    destruct (Disabled user) eqn:Ed; [done|]. destruct (Z.eqb_spec (ac_CredentialVersion claims) (CredentialVersion user)) as [Ev|]; [|done]. cbn [negb].
    destruct (MustChangePassword user && negb (allowsRequiredPasswordChange r)) eqn:Em; [done|]. intros ctx' [= <-].
    exists (t0 :: candidates), i, token, claims, user. split_and!; try done. intros Hm. rewrite Hm in Em. cbn in Em. by destruct (allowsRequiredPasswordChange r).
  - intros ctx'. by destruct e as [|[]].
Qed.

(** C15: What [RequireAuth] lets pass.  Unless its path is excluded, a request passes only with a token that it carries,
    whose signature and claims are good and whose session is registered and has not ended at the time of the request,
    for a user who exists, is enabled and has the credential version of the token, and who must change the password
    only if the request is to do that; the next handler is told this user, these claims and this token.  And a request
    with one such token does pass, unless the state of the sessions is unavailable. *)
Theorem require_auth_exact excludePaths us tm r ctx clocks randoms w w' tm' out :
  existsb (pathMatches (URL_Path r)) excludePaths = false ->
  RequireAuth px excludePaths us tm r ctx clocks randoms w = (w', Some (tm', out)) ->
  (forall ctx', out = Next ctx' -> passed us tm r clocks ctx') /\
  (forall token ctx', tokenCandidatesFromRequest px r true = Ok [token] -> passed us tm r clocks ctx' ->
     out = Next ctx' \/ out = Refused (refuse 503 "TOKEN_STATE_UNAVAILABLE")).
Proof.
  intros Hex Hrun. split; [exact (require_auth_returns us tm r ctx clocks randoms excludePaths Hex _ _ _ Hrun)|].
  intros token ctx' Hc (candidates & i & token' & claims & user & Hc' & Hi & Ha & Hu & Hd & Hv & Hm & ->). rewrite Hc in Hc'. injection Hc' as <-.
  destruct i as [|i]; [|done]. injection Hi as <-. revert Hrun. unfold RequireAuth. rewrite Hex, Hc. unfold validateAccessTokenCandidates. cbn [validate_from].
  intros (w1 & [tm1 v] & Hv1 & Hrun)%bind_returned. apply bind_returned in Hv1 as (w2 & [tm2 r2] & Hva & Hv1).
  pose proof (validate_access_spec tm token (clocks 0%nat) (randoms 0%nat) _ _ _ Hva) as (Hf & _ & Hr2).
  destruct r2 as [claims'|e].
  - assert (claims' = claims) as ->.
    { destruct Hr2 as [H1 _], Ha as [H2 _]. cbn [time_of_call] in H2. congruence. }
    injection Hv1 as <- <- <-. injection Hrun as _ _ <-. left. unfold UserStore.GetByID. rewrite Hu, Hd, Hv, Z.eqb_refl. cbn [negb].
    destruct (MustChangePassword user) eqn:Em; [|done]. by rewrite Hm.
  - injection Hv1 as <- <- <-. injection Hrun as _ _ <-. right. destruct Hr2 as [->|Hno]; [done|]. by apply Hno in Ha.
Qed.

(** In HTTPS mode only cookies with the prefix [__Host-] count: the tokens that a request carries do not depend on
    cookies of other names, which a server that is not this one, or a connection without TLS, could have set. *)
Theorem plain_cookies_ignored r r' allowDownload : RequestIsHTTPS px r = true ->
  Method r' = Method r -> URL_Path r' = URL_Path r -> Header r' = Header r -> RemoteAddr r' = RemoteAddr r -> TLS r' = TLS r ->
  filter (fun c => HasPrefix c.1 "__Host-" = true) (Cookies r') = filter (fun c => HasPrefix c.1 "__Host-" = true) (Cookies r) ->
  tokenCandidatesFromRequest px r' allowDownload = tokenCandidatesFromRequest px r allowDownload /\
  cookieValuesFromRequest px r' RefreshSessionCookieName = cookieValuesFromRequest px r RefreshSessionCookieName.
Proof.
  intros Hs E1 E2 E3 E4 E5 E6.
  assert (Hs' : RequestIsHTTPS px r' = true) by (revert Hs; unfold RequestIsHTTPS; by rewrite E3, E4, E5).
  assert (Hf : forall name l values, HasPrefix name "__Host-" = true -> cookieValues name (filter (fun c => HasPrefix c.1 "__Host-" = true) l) values = cookieValues name l values).
  { intros name l values Hn. revert values. induction l as [|[n v] l IH]; intros values; [done|]. destruct (decide (HasPrefix n "__Host-" = true)) as [Hp|Hp].
    - rewrite filter_cons_True by done. cbn [cookieValues]. destruct (negb (String.eqb n name)); [apply IH|]. cbv zeta. destruct (String.eqb _ _); [apply IH|].
      destruct (containsCookieValue _ _); [apply IH|]. destruct (_ <? _)%nat; [done|apply IH].
    - rewrite filter_cons_False by done. cbn [cookieValues]. destruct (String.eqb_spec n name) as [->|]; [done|]. apply IH. }
  assert (Hv : forall name, HasPrefix (cookieNameForHTTPSMode name true) "__Host-" = true -> cookieValuesFromRequest px r' name = cookieValuesFromRequest px r name).
  { intros name Hn. unfold cookieValuesFromRequest. rewrite Hs, Hs'. rewrite <-(Hf _ (Cookies r')), E6 by done. by apply Hf. }
  split; [|by apply Hv]. unfold tokenCandidatesFromRequest, allowDownloadSessionCookie. rewrite E1, E2, E3. rewrite !Hv by done. done.
Qed.

(** ** Ending the tokens of an account *)

(** The requests that end the tokens of an account: changing or resetting its password, deleting it, disabling it. *)
Inductive ending := ByPassword (decoded : body ChangePasswordRequest) | ByReset (decoded : body ResetPasswordRequest) | ByDelete | ByDisable.
Definition answer (q : ending) (h : Handler) (e : env) (r : Request) (ctx : Context) (id : string) : prog (Handler * Response) :=
  match q with
  | ByPassword decoded => HandleChangePassword px h e r ctx decoded
  | ByReset decoded => HandleResetUserPassword h e r ctx id decoded
  | ByDelete => HandleDeleteUser h e r ctx id
  | ByDisable => HandleToggleUserStatus h e r ctx id (Decoded {| toggle_Disabled := Some true |})
  end.
(** Only the first is about the user of the request. *)
Definition about (q : ending) (ctx : Context) (id : string) : Prop :=
  match q with ByPassword _ => exists user, ctx_User ctx = Some user /\ ID user = id | _ => True end.

(** A handler that leaves the accounts of the last operation. *)
Lemma revoke_after_store h e w id warned : returns (revoke_after h e w id warned) (fun '(h', _) => userStore h' = userStore h).
Proof. unfold revoke_after. apply returns_then. intros [tm revoked]. apply returned_ret. by destruct (warned || _). Qed.

Lemma guard_refuses r ctx method refused : admin_only r ctx method = Some refused -> Status refused <> 200.
Proof. unfold admin_only. destruct (negb _); [by intros [= <-]|]. destruct (negb _); [by intros [= <-]|done]. Qed.

Lemma patch_run s id patch now names w w' s' r : UserStore.Patch s id patch now names w = (w', Some (s', r)) ->
  UserAtomic.run (UserSpec.OpPatch id patch now) s names w =
    (w', Some (s', match r with UserStore.Done _ => UserStore.Done tt | UserStore.Warned _ => UserStore.Warned tt | UserStore.Failed e => UserStore.Failed e end)).
Proof. intros H. cbn [UserAtomic.run]. unfold UserAtomic.discard, bind. by rewrite H. Qed.

(** The operation of a request on the accounts. *)
Definition ends_by (q : ending) (o : UserSpec.op) (id : string) : Prop :=
  match q, o with
  | ByPassword _, UserSpec.OpChangePassword i _ _ _ _ | ByReset _, UserSpec.OpResetPassword i _ _ _ _ | ByDelete, UserSpec.OpDelete i => i = id
  | ByDisable, UserSpec.OpPatch i patch _ => i = id /\ UserStore.PatchDisabled patch = Some true
  | _, _ => False
  end.
(** What such a request ends with when it succeeds: an operation on the accounts that succeeded. *)
Definition ended (q : ending) (h : Handler) (e : env) (id : string) (w0 : io dir) (h' : Handler) : Prop :=
  exists o w1 reply, ends_by q o id /\ UserSpec.fresh_id o (UserStore.users (userStore h)) /\ UserSpec.draws_of o /\
    UserAtomic.run o (userStore h) (env_names e) w0 = (w1, Some (userStore h', reply)) /\ forall err, reply <> UserStore.Failed err.

(** A branch that refuses does not answer with success. *)
Ltac refused Hs := intros [= _ _ <-]; discriminate Hs.

Lemma change_runs h e r ctx user decoded w0 w h' resp : ctx_User ctx = Some user -> HandleChangePassword px h e r ctx decoded w0 = (w, Some (h', resp)) ->
  Status resp = 200 -> ended (ByPassword decoded) h e (ID user) w0 h'.
Proof.
  intros Hu Hrun Hs. revert Hrun. unfold HandleChangePassword. rewrite Hu. destruct (negb _); [refused Hs|]. destruct (Disabled user); [refused Hs|].
  destruct decoded as [| |req]; [refused Hs..|]. destruct (String.eqb _ _); [refused Hs|]. destruct (negb _); [refused Hs|]. destruct (_ || _); [refused Hs|].
  intros (w1 & [us changed] & Hc & Hk)%bind_returned. pose proof (change_error _ _ _ _ _ _ _ _ _ _ Hc) as Hne. cbn in Hne.
  exists (UserSpec.OpChangePassword (ID user) (req_OldPassword req) (req_NewPassword req) (env_salt e) (env_now e)), w1, changed.
  assert (userStore h' = us /\ forall err, changed <> UserStore.Failed err) as [-> ?]; [|by split_and!].
  destruct changed as [x|x|err]; [by apply revoke_after_store in Hk..|]. destruct err; try (injection Hk as _ _ <-; discriminate Hs). done.
Qed.

Lemma reset_runs h e r ctx id decoded w0 w h' resp : HandleResetUserPassword h e r ctx id decoded w0 = (w, Some (h', resp)) ->
  Status resp = 200 -> ended (ByReset decoded) h e id w0 h'.
Proof.
  intros Hrun Hs. revert Hrun. unfold HandleResetUserPassword. destruct (admin_only _ _ _) as [refusal|] eqn:Eg; [intros [= _ _ <-]; by apply guard_refuses in Eg|].
  destruct decoded as [| |req]; [refused Hs..|]. destruct (String.eqb _ _); [refused Hs|]. intros (w1 & [us changed] & Hc & Hk)%bind_returned.
  assert (exists must, UserStore.resetPassword (userStore h) id (reset_NewPassword req) must (env_salt e) (env_now e) (env_names e) w0 = (w1, Some (us, changed))) as [must Hc'].
  { destruct (is_self ctx id); by eexists. }
  pose proof (reset_error _ _ _ _ _ _ _ _ _ _ Hc') as Hne. cbn in Hne.
  exists (UserSpec.OpResetPassword id (reset_NewPassword req) must (env_salt e) (env_now e)), w1, changed.
  assert (userStore h' = us /\ forall err, changed <> UserStore.Failed err) as [-> ?]; [|by split_and!].
  destruct changed as [x|x|err]; [by apply revoke_after_store in Hk..|]. destruct err; try (injection Hk as _ _ <-; discriminate Hs). done.
Qed.

Lemma delete_runs h e r ctx id w0 w h' resp : HandleDeleteUser h e r ctx id w0 = (w, Some (h', resp)) -> Status resp = 200 -> ended ByDelete h e id w0 h'.
Proof.
  intros Hrun Hs. revert Hrun. unfold HandleDeleteUser. destruct (admin_only _ _ _) as [refusal|] eqn:Eg; [intros [= _ _ <-]; by apply guard_refuses in Eg|].
  destruct (is_self _ _); [refused Hs|]. intros (w1 & [us deleted] & Hc & Hk)%bind_returned. pose proof (delete_error _ _ _ _ _ _ Hc) as Hne. cbn in Hne.
  exists (UserSpec.OpDelete id), w1, deleted.
  assert (userStore h' = us /\ forall err, deleted <> UserStore.Failed err) as [-> ?]; [|by split_and!].
  destruct deleted as [x|x|err]; [by apply revoke_after_store in Hk..|]. destruct err; try (injection Hk as _ _ <-; discriminate Hs). done.
Qed.

Lemma disable_runs h e r ctx id w0 w h' resp : HandleToggleUserStatus h e r ctx id (Decoded {| toggle_Disabled := Some true |}) w0 = (w, Some (h', resp)) ->
  Status resp = 200 -> ended ByDisable h e id w0 h'.
Proof.
  intros Hrun Hs. revert Hrun. unfold HandleToggleUserStatus. destruct (admin_only _ _ _) as [refusal|] eqn:Eg; [intros [= _ _ <-]; by apply guard_refuses in Eg|].
  cbn [toggle_Disabled]. destruct (_ && _); [refused Hs|]. cbv zeta. intros (w1 & [us patched] & Hc & Hk)%bind_returned.
  pose proof (patch_error _ _ _ _ _ _ _ _ Hc) as Hne. cbn in Hne. apply patch_run in Hc. eexists _, w1, _.
  assert (Hus : userStore h' = us /\ forall err, patched <> UserStore.Failed err).
  { destruct patched as [x|x|err]; [apply bind_returned in Hk as (w2 & [tm revoked] & _ & Hk); by injection Hk as _ <- _..|].
    destruct err; try (injection Hk as _ _ <-; discriminate Hs). done. }
  destruct Hus as [-> Hf]. split; [|split; [|split; [|split; [exact Hc|]]]]; [by split|done|done|]. destruct patched; [done|done|]. by destruct (Hf e0).
Qed.

(** The tokens of a refresh: that of the body, or else those of the cookies. *)
Definition presented (r : Request) (req : RefreshRequest) : option (list string) :=
  if String.eqb (TrimSpace (req_RefreshToken req)) "" then cookieValuesFromRequest px r RefreshSessionCookieName else Some [TrimSpace (req_RefreshToken req)].
Lemma cookies_sole name cookies : forall values tokens, (length values <= 1)%nat -> cookieValues name cookies values = Some tokens -> (length tokens <= 1)%nat.
Proof.
  induction cookies as [|[n v] cookies IH]; intros values tokens Hv; cbn [cookieValues]; [by intros [= <-]|]. destruct (negb _); [by apply IH|]. cbv zeta.
  destruct (String.eqb _ _); [by apply IH|]. destruct (containsCookieValue _ _); [by apply IH|]. destruct (Nat.ltb_spec 1 (length (values ++ [TrimSpace v]))); [done|]. by apply IH.
Qed.
(** At most one. *)
Lemma presented_sole r req tokens : presented r req = Some tokens -> tokens = [] \/ exists token, tokens = [token].
Proof.
  intros H. assert (length tokens <= 1)%nat as Hl.
  { revert H. unfold presented. destruct (String.eqb _ _); [apply cookies_sole; cbn; lia|by intros [= <-]]. }
  destruct tokens as [|token [|token' tokens]]; [by left|right; by exists token|cbn in Hl; lia].
Qed.

(** The sole token of a refresh: how it is answered. *)
Definition refresh_verdict (h : Handler) (now : Time) (token : string) (h' : Handler) (resp : Response) : Prop :=
  (Status resp = 200 -> exists claims user, accepts_refresh (tokenManager h) now token claims /\
     UserStore.users (userStore h) !! Subject (rc_Registered claims) = Some user /\ Disabled user = false /\ rc_CredentialVersion claims = CredentialVersion user) /\
  (forall claims, used_before (tokenManager h) now token claims -> userStore h' = userStore h /\
     ((Status resp = 401 /\ Code resp = "TOKEN_REVOKED" /\ sessionRegistry (tokenManager h') !! rc_SessionID claims = None) \/
      (Status resp = 503 /\ Code resp = "TOKEN_STATE_UNAVAILABLE") \/ (Status resp = 500 /\ Code resp = "TOKEN_ERROR"))).

Lemma not_success (resp : Response) w (t : TokenError) (P : Prop) : resp = writeRefreshTokenError w t -> Status resp = 200 -> P.
Proof. by destruct t; intros ->. Qed.

Lemma complete_claims tm now token claims : parse_refresh tm now token = Ok claims ->
  (exists expiresAt, ClaimExpiresAt (rc_Registered claims) = Some expiresAt) /\ String.eqb (rc_SessionID claims) "" = false.
Proof.
  unfold parse_refresh. intros H. destruct (ParseRefresh _ _ _ _ _) as [c|[]]; [|done..]. destruct (refresh_claims_complete c) eqn:Ec; [|done]. injection H as ->.
  unfold refresh_claims_complete in Ec. b2p. split; [destruct (ClaimExpiresAt _); [by eexists|done]|]. destruct (rc_SessionID claims); [|done]. by vm_compute in *.
Qed.

Lemma reuse_returns h e i r w claims : (exists expiresAt, ClaimExpiresAt (rc_Registered claims) = Some expiresAt) -> String.eqb (rc_SessionID claims) "" = false ->
  returns (handleRefreshTokenReuse px h e i r w claims) (fun '(h', resp) => userStore h' = userStore h /\
    ((Status resp = 401 /\ Code resp = "TOKEN_REVOKED" /\ sessionRegistry (tokenManager h') !! rc_SessionID claims = None) \/
     (Status resp = 500 /\ Code resp = "TOKEN_ERROR"))).
Proof.
  intros [expiresAt He] Hid. unfold handleRefreshTokenReuse. rewrite He, Hid. unfold RevokeSession. eapply returned_bind; [apply revoke_spec|].
  intros [tm revoked] H. apply returned_ret. destruct revoked; (split; [done|]); [left|left|by right]; (split; [done|]); (split; [done|]); apply H; rewrite lookup_singleton_eq; by eexists.
Qed.

Lemma refresh_returns h e r req token : Method r = MethodPost -> presented r req = Some [token] ->
  returns (HandleRefresh px h e r (Decoded req)) (fun '(h', resp) => refresh_verdict h (time_of_call (tokenManager h) (env_clocks e) 0) token h' resp).
Proof.
  intros Hm Ht. unfold HandleRefresh. unfold presented in Ht. rewrite Hm, Ht. cbn [negb MethodPost String.eqb]. eapply returned_bind; [apply validate_candidates_spec|].
  set (now := time_of_call _ _ _). set (cookie := String.eqb (TrimSpace _) _). intros [tm [claims|[err found]]] (Hf & Hc & Hr).
  - assert (Hno : forall claims', ~ used_before (tokenManager h) now token claims') by (intros claims' [H1 H2]; destruct Hr as [H3 H4]; congruence).
    assert (Hgood : forall user, UserStore.users (userStore h) !! Subject (rc_Registered claims) = Some user -> Disabled user = false ->
      rc_CredentialVersion claims = CredentialVersion user -> forall h' resp, refresh_verdict h now token h' resp).
    { intros user H1 H2 H3 h' resp. split; [intros _; by exists claims, user|]. intros claims' Hu. by destruct (Hno claims'). }
    assert (Hbad : forall h' resp, Status resp <> 200 -> refresh_verdict h now token h' resp) by (intros h' resp H; split; [done|intros claims' Hu; by destruct (Hno claims')]).
    unfold UserStore.GetByID. cbn [with_tokenManager userStore]. destruct (UserStore.users _ !! _) as [user|] eqn:Eu; [|apply returned_ret; by apply Hbad].
    destruct (Disabled user) eqn:Ed; [apply returned_ret; by apply Hbad|]. destruct (Z.eqb_spec (rc_CredentialVersion claims) (CredentialVersion user)) as [Ev|]; cbn [negb].
    + destruct (ClaimExpiresAt _); [eapply returns_weaken; [apply returned_any|]; intros [h' resp] _; by eapply Hgood|apply returned_ret; by apply Hbad].
    + apply returned_ret. by apply Hbad.
  - assert (Hcase : (exists claims, err = errRefreshTokenReused /\ found = Some claims /\ used_before (tokenManager h) now token claims) \/
      (err <> errRefreshTokenReused /\ (err = ErrTokenStateUnavailable \/ forall claims, ~ used_before (tokenManager h) now token claims))).
    { destruct err, found as [claims|]; try (right; destruct Hr as [H1 H2]; split; [done|]; destruct H2 as [H2|H2]; [by left|right]; intros claims'; by apply H2). left. by exists claims. }
    destruct Hcase as [(claims & -> & -> & Hu)|[Hne Hun]].
    + destruct (complete_claims _ _ _ _ (proj1 Hu)) as [H1 H2]. eapply returns_weaken; [by apply reuse_returns|]. intros [h' resp] [H3 H4]. split.
      * destruct H4 as [[H4 _]|[H4 _]]; rewrite H4; discriminate.
      * intros claims' Hu'. assert (claims' = claims) as -> by (destruct Hu, Hu'; congruence). split; [done|]. destruct H4; tauto.
    + assert (returns (ret (with_tokenManager h tm, writeRefreshTokenError (clear_after px fresh_writer r cookie err) err) : prog (Handler * Response))
        (fun '(h', resp) => refresh_verdict h now token h' resp)); [|by destruct err].
      apply returned_ret. split; [by destruct err|]. intros claims Hu. split; [done|]. destruct Hun as [->|Hun]; [right; by left|by apply Hun in Hu].
Qed.

(** An account whose tokens were ended, after [n] more operations: it is gone, or disabled, or has a version that
    comes after that of the tokens. *)
Definition ended_for (q : ending) (id : string) (u : User) (n : Z) (us : gmap string User) : Prop :=
  match q with
  | ByDelete => us !! id = None
  | ByDisable => forall v, us !! id = Some v -> Disabled v = true
  | _ => forall v, us !! id = Some v -> exists k, 0 < k <= n + 1 /\ CredentialVersion v = uint64 (CredentialVersion u + k)
  end.

(** What none of the later operations does: draw the ID of the account for a new one; and, if the account was
    disabled, enable it. *)
Definition leaves_ended (q : ending) (id : string) (o : UserSpec.op) : Prop :=
  ~ draws_id o id /\ (q = ByDisable -> ~ enables o id).

(** The stores after [n] operations on [s0], each of which succeeds or fails, and any number of restarts. *)
Inductive later (q : ending) (id : string) (s0 : UserStore.UserStore) : Z -> UserStore.UserStore -> Prop :=
| later_now : later q id s0 0 s0
| later_operation n s o m d script names w s' reply : later q id s0 n s -> files m d -> UserAtomic.saved (UserStore.users s) m ->
    UserSpec.fresh_id o (UserStore.users s) -> UserSpec.draws_of o -> leaves_ended q id o ->
    UserAtomic.run o s names {| io_dir := d; io_script := script |} = (w, Some (s', reply)) -> later q id s0 (n + 1) s'
| later_restart n s text m d seeds names w s' password : later q id s0 n s -> UserSpec.some_admin (UserStore.users s) ->
    map_Forall (fun _ => UsersFile.reloadable) (UserStore.users s) -> UsersFile.serializeUsers (UserStore.users s) = Some text ->
    files m d -> m !! usersFile = Some text ->
    UserStore.NewUserStore seeds names {| io_dir := d; io_script := [] |} = (w, Some (UserStore.Done (s', password))) -> later q id s0 n s'.

Lemma ended_first q o id u us us' : ends_by q o id -> us !! id = Some u -> UserSpec.effect o us us' -> ended_for q id u 0 us'.
Proof.
  intros Hq Hu He. destruct q, o; cbn [ends_by UserSpec.effect ended_for] in *; try done.
  - subst id0. destruct He as (x & hash & Hx & _ & _ & _ & ->). intros v Hv. rewrite lookup_insert_eq in Hv. injection Hv as <-. rewrite Hu in Hx. injection Hx as <-.
    exists 1. by split.
  - subst id0. destruct He as (x & hash & Hx & _ & ->). intros v Hv. rewrite lookup_insert_eq in Hv. injection Hv as <-. rewrite Hu in Hx. injection Hx as <-. exists 1. by split.
  - subst id0. destruct He as (x & _ & _ & ->). apply lookup_delete_eq.
  - destruct Hq as [-> Hp], He as (existing & x & Hx & Hc & ->). intros v Hv. rewrite lookup_insert_eq in Hv. injection Hv as <-.
    unfold UserStore.checkPatch in Hc. rewrite Hp in Hc. cbv zeta in Hc. repeat case_in Hc; by injection Hc as <-.
Qed.

Lemma ended_next q o id u n us us' : UserSpec.effect o us us' -> UserSpec.fresh_id o us -> UserSpec.draws_of o -> UsersFile.users_ok us -> leaves_ended q id o ->
  ended_for q id u n us -> ended_for q id u (n + 1) us'.
Proof.
  intros He Hf Hd Hok [Hid Hen]. pose proof (effect_absent o us us' id He Hid Hd) as Habsent.
  assert (Hversion : (forall v, us !! id = Some v -> exists k, 0 < k <= n + 1 /\ CredentialVersion v = uint64 (CredentialVersion u + k)) ->
    forall v, us' !! id = Some v -> exists k, 0 < k <= n + 1 + 1 /\ CredentialVersion v = uint64 (CredentialVersion u + k)).
  { intros H v Hv. destruct (us !! id) as [x|] eqn:Hx; [|by rewrite Habsent in Hv]. destruct (H x eq_refl) as (k & Hk & E).
    pose proof (UserProps.effect_credentials o us us' He Hf Hd Hok id x v Hx Hv) as Hc. case_decide.
    - exists (k + 1). split; [lia|]. destruct Hc as [-> _]. rewrite E, uint64_add. f_equal. lia.
    - exists k. split; [lia|]. destruct Hc as (_ & -> & _). done. }
  destruct q; cbn [ended_for]; [exact Hversion|exact Hversion|exact Habsent|].
  intros H v Hv. destruct (us !! id) as [x|] eqn:Hx; [|by rewrite Habsent in Hv]. eapply effect_disabled; try done; [by apply Hen|by apply H].
Qed.

Lemma ended_more q id u n us : ended_for q id u n us -> ended_for q id u (n + 1) us.
Proof. destruct q; cbn [ended_for]; try done; intros H v Hv; destruct (H v Hv) as (k & Hk & E); exists k; (split; [lia|done]). Qed.
Lemma ended_later q id u s0 n s : UserAtomic.store_ok s0 -> ended_for q id u 0 (UserStore.users s0) -> later q id s0 n s ->
  0 <= n /\ UserAtomic.store_ok s /\ ended_for q id u n (UserStore.users s).
Proof.
  intros Hok0 H0. induction 1 as [|n s o m d script names w s' reply _ (Hn & Hok & IH) Hd Hs Hf Hdr Hl Hrun|
    n s text m d seeds names w s' password _ (Hn & Hok & IH) Ha Hr Ht Hd Hm Hrun]; [done| |].
  - pose proof (UserAtomic.run_atomic o s m names Hok Hs Hf Hdr {| io_dir := d; io_script := script |} Hd) as H. rewrite Hrun in H. destruct H as (_ & Hok' & H).
    split; [lia|]. split; [done|]. destruct reply; [apply (ended_next q o id u n _ _ (proj1 H)); try done; apply Hok..|].
    rewrite H. by apply ended_more.
  - destruct (UserProps.user_store_restart (UserStore.users s) text m d seeds names (proj1 Hok) Ha Hr Ht Hd Hm) as (byName' & Hx & E). rewrite E in Hrun.
    injection Hrun as _ <- _. split; [done|]. split; [split; [apply Hok|done]|exact IH].
Qed.

(** Such an account accepts none of the tokens. *)
Lemma ended_refuses q id u n us v : 0 <= n < maxUint64 -> ended_for q id u n us -> us !! id = Some v -> Disabled v = false -> CredentialVersion v <> CredentialVersion u.
Proof.
  intros Hn H Hv Hdis. destruct q; cbn [ended_for] in H; [| |by rewrite H in Hv|by rewrite (H v Hv) in Hdis]; destruct (H v Hv) as (k & Hk & ->); apply next_version;
    unfold two64, maxUint64 in *; lia.
Qed.

(** C6: Tokens end with the credentials.  Let a change or a reset of the password of an account, its deletion or its
    disabling be answered with success - also with a warning, also when its sessions could not be revoked, and whatever
    file operations failed.  Then in the store that the answer leaves, and in every store that comes from it by fewer
    than 2^64 - 1 further operations, whatever of their file operations fails, and by restarts, no token that was
    issued for the credentials that the account had before passes, whatever token manager is asked and whatever the
    clocks say: what passes [RequireAuth] carries other claims, and a refresh that succeeds was presented, in its body
    or as a cookie, with a token of other claims.  Two things are excluded: that the random source draws the ID of the
    account again for a new one, and that an account that was disabled is enabled again.  The disabling keeps the
    version of the credentials; where its sessions could not be revoked (the answer says so), enabling the account
    makes its old tokens good again. *)
Theorem ended_tokens_refused q h e r ctx id d m script w h' resp u n us tm tokenRequest excludePaths ctx' clocks randoms w0 :
  UserAtomic.store_ok (userStore h) -> files m d -> UserAtomic.saved (UserStore.users (userStore h)) m -> about q ctx id ->
  UserStore.users (userStore h) !! id = Some u ->
  answer q h e r ctx id {| io_dir := d; io_script := script |} = (w, Some (h', resp)) -> Status resp = 200 ->
  later q id (userStore h') n us -> n < maxUint64 ->
  (forall w1 tm1 ctx1, existsb (pathMatches (URL_Path tokenRequest)) excludePaths = false ->
     RequireAuth px excludePaths us tm tokenRequest ctx' clocks randoms w0 = (w1, Some (tm1, Next ctx1)) ->
     exists claims, ctx_Claims ctx1 = Some claims /\ ~ (ac_UserID claims = id /\ ac_CredentialVersion claims = CredentialVersion u)) /\
  (forall h1 e1 req w1 h2 resp1, userStore h1 = us -> HandleRefresh px h1 e1 tokenRequest (Decoded req) w0 = (w1, Some (h2, resp1)) -> Status resp1 = 200 ->
     exists token claims, presented tokenRequest req = Some [token] /\ parse_refresh (tokenManager h1) (time_of_call (tokenManager h1) (env_clocks e1) 0) token = Ok claims /\
       ~ (Subject (rc_Registered claims) = id /\ rc_CredentialVersion claims = CredentialVersion u)).
Proof.
  intros Hok Hd Hsaved Hq Hu Hrun Hs Hlater Hn.
  assert (Hcut : UserAtomic.store_ok (userStore h') /\ ended_for q id u 0 (UserStore.users (userStore h'))).
  { assert (ended q h e id {| io_dir := d; io_script := script |} h') as (o & w1 & reply & He & Hf & Hdr & Ho & Hr).
    { destruct q; cbn [answer about] in *; [destruct Hq as (user & Hc & <-); by eapply change_runs|by eapply reset_runs|by eapply delete_runs|by eapply disable_runs]. }
    pose proof (UserAtomic.run_atomic o _ m (env_names e) Hok Hsaved Hf Hdr {| io_dir := d; io_script := script |} Hd) as H. rewrite Ho in H. destruct H as (_ & Hok' & H).
    split; [done|]. apply (ended_first q o id u (UserStore.users (userStore h))); [done..|]. destruct reply as [| |err]; [apply H..|by destruct (Hr err)]. }
  destruct Hcut as [Hok' H0]. destruct (ended_later q id u _ n us Hok' H0 Hlater) as (Hn0 & _ & Hend).
  assert (Hrefuse : forall v, UserStore.users us !! id = Some v -> Disabled v = false -> CredentialVersion v <> CredentialVersion u) by (intros v; by eapply ended_refuses).
  split.
  - intros w1 tm1 ctx1 Hex Ha. pose proof (require_auth_returns _ _ _ _ _ _ _ Hex _ _ _ Ha ctx1 eq_refl) as (cs & i & token & claims & user & _ & _ & _ & Hus & Hdis & Hver & _ & ->).
    exists claims. split; [done|]. intros [Hid Hv]. rewrite Hid in Hus. apply (Hrefuse user Hus Hdis). congruence.
  - intros h1 e1 req w1 h2 resp1 Eu Hrun1 Hs1. destruct (String.eqb_spec (Method tokenRequest) MethodPost) as [Hm|Hm].
    2:{ revert Hrun1. unfold HandleRefresh. apply String.eqb_neq in Hm. rewrite Hm. cbn [negb]. refused Hs1. }
    destruct (presented tokenRequest req) as [tokens|] eqn:Et.
    2:{ revert Hrun1. unfold HandleRefresh. unfold presented in Et. rewrite Hm, Et. cbn [negb MethodPost String.eqb]. refused Hs1. }
    destruct (presented_sole _ _ _ Et) as [->|[token ->]].
    { revert Hrun1. unfold HandleRefresh. unfold presented in Et. rewrite Hm, Et. cbn [negb MethodPost String.eqb]. refused Hs1. }
    destruct (refresh_returns _ _ _ _ _ Hm Et _ _ _ Hrun1) as [H _]. destruct (H Hs1) as (claims & user & [Hp _] & Hus & Hdis & Hver).
    exists token, claims. split; [done|]. split; [exact Hp|]. intros [Hid Hv]. rewrite Eu, Hid in Hus. apply (Hrefuse user Hus Hdis). congruence.
Qed.

(** C16: A refresh token that is used a second time, in the body of the request or as a cookie, ends its session: it is
    answered with 401 and the session is gone from the registry, so that whoever holds its newer tokens is logged out
    too; or the answer is that the state of the sessions is unavailable or could not be changed.  No account changes. *)
Theorem reuse_ends_session h e r req token claims w w' h' resp : Method r = MethodPost -> presented r req = Some [token] ->
  used_before (tokenManager h) (time_of_call (tokenManager h) (env_clocks e) 0) token claims ->
  HandleRefresh px h e r (Decoded req) w = (w', Some (h', resp)) ->
  userStore h' = userStore h /\
  ((Status resp = 401 /\ Code resp = "TOKEN_REVOKED" /\ sessionRegistry (tokenManager h') !! rc_SessionID claims = None) \/
   (Status resp = 503 /\ Code resp = "TOKEN_STATE_UNAVAILABLE") \/ (Status resp = 500 /\ Code resp = "TOKEN_ERROR")).
Proof. intros Hm Ht Hu Hrun. by apply (refresh_returns h e r req token Hm Ht _ _ _ Hrun). Qed.

(** ** Logging out, and in *)

Lemma add_keeps sessions found id : is_Some (sessions !! id) -> is_Some (add_refresh_session sessions found !! id).
Proof.
  intros H. unfold add_refresh_session. destruct found as [claims|]; [|done]. destruct (ClaimExpiresAt _); [|done].
  match goal with |- context [if ?b then _ else _] => destruct b end; [|done]. destruct (decide (rc_SessionID claims = id)) as [->|]; [by rewrite lookup_insert_eq|by rewrite lookup_insert_ne].
Qed.
Lemma add_adds sessions claims expiresAt : ClaimExpiresAt (rc_Registered claims) = Some expiresAt -> is_Some (add_refresh_session sessions (Some claims) !! rc_SessionID claims).
Proof. intros H. cbn. rewrite H. destruct (sessions !! _) eqn:E; [|by rewrite lookup_insert_eq]. case_match; [by rewrite lookup_insert_eq|by rewrite E]. Qed.

(** Logging out ends the sessions of the request.  When it is answered with success, the session of the request's
    access token and that of the refresh token in its body, if it can be read, are not in the registry any more, so
    that no token of them is accepted; no account changes. *)
Theorem logout_ends_sessions h e r ctx req w w' h' resp :
  HandleLogout px h e r ctx (Decoded req) w = (w', Some (h', resp)) -> Status resp = 200 ->
  userStore h' = userStore h /\
  (forall claims, ctx_Claims ctx = Some claims -> ac_SessionExpiresAt claims <> None -> ac_SessionID claims <> EmptyString ->
     sessionRegistry (tokenManager h') !! ac_SessionID claims = None) /\
  (forall claims, TrimSpace (req_RefreshToken req) <> EmptyString ->
     parse_refresh (tokenManager h) (time_of_call (tokenManager h) (env_clocks e) 0) (TrimSpace (req_RefreshToken req)) = Ok claims ->
     sessionRegistry (tokenManager h') !! rc_SessionID claims = None).
Proof.
  intros Hrun Hs. revert Hrun. unfold HandleLogout. destruct (negb _); [refused Hs|]. destruct (if String.eqb _ _ then _ else _) as [tokens|] eqn:Et; [|refused Hs].
  intros (w1 & [tm [found stateErr]] & Hp & Hrun)%bind_returned. destruct stateErr; [revert Hrun; refused Hs|].
  apply bind_returned in Hrun as (w2 & [tm2 revoked] & Hv & Hrun). apply revoke_spec in Hv.
  assert (Hall : userStore h' = userStore h /\ forall id, is_Some (add_refresh_session (context_session ctx) found !! id) -> sessionRegistry (tokenManager h') !! id = None).
  { destruct revoked; [by injection Hrun as _ <- _..|]. injection Hrun as _ _ <-. discriminate Hs. }
  destruct Hall as [Hus Hall]. split_and!; [done| |].
  - intros claims Hc Hx Hid. apply Hall, add_keeps. unfold context_session. rewrite Hc. destruct (ac_SessionExpiresAt claims); [|done].
    apply String.eqb_neq in Hid. rewrite Hid. rewrite lookup_singleton_eq. by eexists.
  - intros claims Ht Hpc. apply String.eqb_neq in Ht. rewrite Ht in Et. injection Et as <-. pose proof (parse_logout_spec _ _ _ _ _ _ _ Hp eq_refl _ Hpc) as ->.
    destruct (complete_claims _ _ _ _ Hpc) as [[expiresAt He] _]. apply Hall. by eapply add_adds.
Qed.

(** The outcome of the throttle's questions for a login: locked, too many checks, or the key to go on with. *)
Definition throttled (h : Handler) (e : env) (r : Request) (name : string) : bool :=
  let key := newLoginAttemptKey px r name in
  let '(h1, locked) := is_locked h key (env_attempts e 0%nat) in
  locked || negb (snd (allow_check h1 key (env_attempts e 1%nat))).

Lemma issue_returns h e r w user : returns (issue_tokens px h e r w user) (fun '(h', resp) => userStore h' = userStore h /\
  (Status resp = 200 -> exists d, Data resp = LoginData d /\ resp_User d = userInfo user)).
Proof.
  unfold issue_tokens. apply returns_then. intros [tm generated]. apply returned_ret.
  destruct generated as [pair|pair|err]; [split; [done|]; intros _; by eexists..|]. by destruct err.
Qed.
Lemma throttle_keeps h key now : userStore (fst (is_locked h key now)) = userStore h /\ tokenManager (fst (is_locked h key now)) = tokenManager h.
Proof. unfold is_locked. destruct (loginAttempts h); [|done]. by destruct (isLocked _ _ _ _). Qed.
Lemma check_keeps h key now : userStore (fst (allow_check h key now)) = userStore h /\ tokenManager (fst (allow_check h key now)) = tokenManager h.
Proof. unfold allow_check. destruct (loginAttempts h); [|done]. by destruct (allowCredentialCheck _ _ _ _ _). Qed.

(** C17: What a login needs.  A login that is answered with success had the name, in any case, and the password of an
    enabled account, which the answer describes, and the throttle allowed it; and while the throttle refuses, the
    password is not looked at: the answer is 429, whatever it is, and neither the accounts, nor the sessions, nor the
    files change. *)
Theorem login_exact h e r req name w w' h' resp : UserAtomic.store_ok (userStore h) -> normalizeLoginUsername (req_Username req) = Ok name ->
  HandleLogin px h e r (Decoded req) w = (w', Some (h', resp)) ->
  (Status resp = 200 -> throttled h e r name = false /\ exists user d,
     UserStore.users (userStore h) !! ID user = Some user /\ UserFields.normalizeUsername (Username user) = UserFields.normalizeUsername name /\ Disabled user = false /\
     UsersFile.CompareHashAndPassword (PasswordHash user) (req_Password req) = true /\ Data resp = LoginData d /\ resp_User d = userInfo user) /\
  (Method r = MethodPost -> req_Password req <> EmptyString -> throttled h e r name = true ->
     w' = w /\ userStore h' = userStore h /\ tokenManager h' = tokenManager h /\ Status resp = 429 /\ Code resp = "LOGIN_RATE_LIMITED").
Proof.
  intros Hok Hname Hrun. revert Hrun. unfold HandleLogin, throttled. rewrite Hname. destruct (String.eqb_spec (Method r) MethodPost) as [Hm|Hm]; cbn [negb]; [|by intros [= <- <- <-]].
  assert (Hu : String.eqb (req_Username req) "" = false).
  { destruct (String.eqb_spec (req_Username req) "") as [E|]; [|done]. rewrite E in Hname. by vm_compute in Hname. }
  rewrite Hu. cbn [orb]. destruct (String.eqb_spec (req_Password req) ""); [by intros [= <- <- <-]|].
  set (key := newLoginAttemptKey px r name). destruct (throttle_keeps h key (env_attempts e 0%nat)) as [K1 K2].
  destruct (is_locked h key (env_attempts e 0%nat)) as [h1 locked]. cbn [fst] in K1, K2. destruct locked; [intros [= <- <- <-]; by split|]. cbn [orb].
  destruct (check_keeps h1 key (env_attempts e 1%nat)) as [C1 C2]. destruct (allow_check h1 key (env_attempts e 1%nat)) as [h2 allowed]. cbn [fst snd] in *.
  destruct allowed; cbn [negb]; [|intros [= <- <- <-]; split; [done|]; intros _ _ _; split_and!; [done|cbn; congruence..|done|done]].
  intros Hrun. split; [|done]. intros Hs. split; [done|]. apply bind_returned in Hrun as (w1 & [us authenticated] & Ha & Hrun). apply authenticate_returns in Ha.
  assert (Hend : exists v u d, UserStore.snap_byName (UserStore.snapshotState (userStore h2)) !! UserFields.normalizeUsername name = Some v /\ Disabled v = false /\
    UsersFile.CompareHashAndPassword (PasswordHash v) (req_Password req) = true /\ u = UserStore.with_login v (env_now e) /\ Data resp = LoginData d /\ resp_User d = userInfo u).
  { destruct authenticated as [u|u|err]; [destruct Ha as (v & H1 & H2 & H3 & H4); apply issue_returns in Hrun as [_ Hd]; destruct (Hd Hs) as (d & Hd1 & Hd2); exists v, u, d; by split_and!..|].
    destruct err; try (injection Hrun as _ _ <-; discriminate Hs); (revert Hrun; unfold refuse_login; destruct (record_failure _ _ _) as [h3 []]; refused Hs). }
  destruct Hend as (v & u & d & Hv & Hdis & Hcmp & -> & Hd1 & Hd2). rewrite C1, K1, (UserAtomic.snapshot_index _ Hok) in Hv.
  apply (proj2 Hok) in Hv as [Hv1 Hv2]. exists v, d. by split_and!.
Qed.
End Props.

(** ** Concrete requests *)

Import UserInstances TokenInstances.

Lemma id_of (x : option User) id : option_map ID x = Some id -> exists user, x = Some user /\ ID user = id.
Proof. destruct x as [user|]; [|done]. intros [= <-]. by exists user. Qed.
Lemma some_of {A} (x : option A) : UserProps.isSome x = true -> is_Some x.
Proof. by destruct x. Qed.

(** The clocks [t] seconds after the start of the machine, in November 2023. *)
Definition demo_clock (t : Z) : clock :=
  {| clock_now := {| wall := 1700000000 * second + t * second; mono := Some (t * second) |};
     clock_observed := {| wall := 1700000000 * second + t * second + 1; mono := Some (t * second + 1) |} |}.
Definition demo_env (t : Z) : env :=
  {| env_attempts := fun i => clock_now (demo_clock (t + Z.of_nat i)); env_clocks := fun i => demo_clock (t + Z.of_nat i); env_random := fun _ _ => Some "tempname";
     env_draws := fun _ => Some "0123456789abcdef"; env_created := 5; env_now := 7; env_names := UserProps.demo_names; env_salt := "salt"; env_until := clock_now (demo_clock t) |}.
Definition demo_proxies : proxies := init_proxies.
Definition get (path : string) (header : gmap string (list string)) : Request :=
  {| Method := MethodGet; URL_Path := path; Header := header; Cookies := []; RemoteAddr := "192.0.2.7:5000"; TLS := false |}.
Definition post (path : string) : Request :=
  {| Method := MethodPost; URL_Path := path; Header := ∅; Cookies := []; RemoteAddr := "192.0.2.7:5000"; TLS := false |}.

(** The server after its first start, over one directory, and after the administrator's login. *)
Definition no_manager : TokenManager := NewTokenManager "a key that has thirty-two bytes." (900 * second) (604800 * second) None.
Definition demo_started : io dir * option (TokenManager * reply unit) :=
  EnableSessionPersistence no_manager "/srv/.mnemonas/sessions.json" (fun _ => false) (demo_clock 1) (demo_clock 2) (fun _ => Some "tempname") {| io_dir := UserProps.demo_dir; io_script := [] |}.
Definition demo_handler : Handler := NewHandler UserProps.demo_store (match snd demo_started with Some (tm, _) => tm | None => no_manager end).
Definition demo_login : io dir * option (Handler * Response) :=
  HandleLogin demo_proxies demo_handler (demo_env 10) (post "/api/v1/auth/login") (Decoded {| req_Username := "Admin"; req_Password := UserProps.demo_password |}) (fst demo_started).
Definition handler_of (out : io dir * option (Handler * Response)) : Handler := match snd out with Some (h, _) => h | None => demo_handler end.
Definition response_of (out : io dir * option (Handler * Response)) : Response := match snd out with Some (_, resp) => resp | None => panicked end.
Lemma responded out : match snd out with Some _ => true | None => false end = true -> out = (fst out, Some (handler_of out, response_of out)).
Proof. by destruct out as [w [[h resp]|]]. Qed.
Definition demo_after : Handler := handler_of demo_login.
Definition login_data (resp : Response) : LoginResponse :=
  match Data resp with
  | LoginData d => d
  | _ => {| resp_AccessToken := EmptyString; resp_RefreshToken := EmptyString; resp_ExpiresAt := zero_time; resp_TokenType := EmptyString;
            resp_User := {| info_ID := EmptyString; info_Username := EmptyString; info_Email := EmptyString; info_Role := RoleGuest; info_Groups := []; info_HomeDir := EmptyString; info_MustChangePassword := false |} |}
  end.
Definition demo_access : string := resp_AccessToken (login_data (response_of demo_login)).
Definition demo_refresh : string := resp_RefreshToken (login_data (response_of demo_login)).
Definition demo_user : option User := UserStore.users (userStore demo_after) !! UserProps.demo_id.

(** The administrator asks who she is. *)
Definition demo_me : Request := get "/api/v1/auth/me" {["Authorization" := ["Bearer " +:+ demo_access]]}.
Definition auth_at (us : UserStore.UserStore) (tm : TokenManager) (t : Z) (w : io dir) : io dir * option (TokenManager * passage) :=
  RequireAuth demo_proxies default_excludePaths us tm demo_me background (env_clocks (demo_env t)) (env_random (demo_env t)) w.
Definition demo_auth : io dir * option (TokenManager * passage) := auth_at (userStore demo_after) (tokenManager demo_after) 20 (fst demo_login).
Definition context_of (out : io dir * option (TokenManager * passage)) : Context := match snd out with Some (_, Next ctx) => ctx | _ => background end.
Lemma passes (out : io dir * option (TokenManager * passage)) : match snd out with Some (_, Next _) => true | _ => false end = true ->
  exists w tm, out = (w, Some (tm, Next (context_of out))).
Proof. destruct out as [w [[tm []]|]]; try done. by exists w, tm. Qed.

Lemma require_auth_exact_witness : passed demo_proxies (userStore demo_after) (tokenManager demo_after) demo_me (env_clocks (demo_env 20)) (context_of demo_auth) /\
  option_map Username (ctx_User (context_of demo_auth)) = Some "admin".
Proof.
  split; [|vm_compute; reflexivity]. destruct (passes demo_auth) as (w & tm & E); [vm_compute; reflexivity|]. unfold demo_auth in E at 1. unfold auth_at in E.
  apply (require_auth_exact demo_proxies default_excludePaths (userStore demo_after) (tokenManager demo_after) demo_me background (env_clocks (demo_env 20)) (env_random (demo_env 20))
    (fst demo_login) w tm (Next (context_of demo_auth))); [vm_compute; reflexivity|exact E|reflexivity].
Defined.

(** A cookie of the plain name, which anyone could have set, beside the real one. *)
Definition with_cookies (cookies : list (string * string)) : Request :=
  {| Method := MethodGet; URL_Path := "/api/v1/files"; Header := ∅; Cookies := cookies; RemoteAddr := "192.0.2.7:5000"; TLS := true |}.
Lemma plain_cookies_ignored_witness :
  tokenCandidatesFromRequest demo_proxies (with_cookies [("mnemonas_access", "forged"); ("__Host-mnemonas_access", "real")]) true = Ok ["real"].
Proof.
  pose proof (plain_cookies_ignored demo_proxies (with_cookies [("__Host-mnemonas_access", "real")])
    (with_cookies [("mnemonas_access", "forged"); ("__Host-mnemonas_access", "real")]) true eq_refl eq_refl eq_refl eq_refl eq_refl eq_refl eq_refl) as [E _].
  rewrite E. vm_compute. reflexivity.
Defined.

(** The administrator changes her password: her old tokens do not count any more. *)
Definition demo_body : body ChangePasswordRequest :=
  Decoded {| req_ExpectedUserID := UserProps.demo_id; req_OldPassword := UserProps.demo_password; req_NewPassword := "another one" |}.
Definition demo_change : io dir * option (Handler * Response) :=
  HandleChangePassword demo_proxies (with_tokenManager demo_handler (tokenManager demo_after)) (demo_env 30) (post "/api/v1/auth/password") (context_of demo_auth)
    demo_body
    {| io_dir := UserProps.demo_dir; io_script := [] |}.
Definition demo_refreshed (us : UserStore.UserStore) : io dir * option (Handler * Response) :=
  HandleRefresh demo_proxies (with_userStore demo_after us) (demo_env 60) (post "/api/v1/auth/refresh") (Decoded {| req_RefreshToken := demo_refresh |}) (fst demo_login).
Lemma ended_tokens_refused_witness : Status (response_of demo_change) = 200 /\ exists u, UserStore.users UserProps.demo_store !! UserProps.demo_id = Some u /\
  (forall w1 tm1 ctx1, auth_at (userStore (handler_of demo_change)) (tokenManager demo_after) 40 (fst demo_login) = (w1, Some (tm1, Next ctx1)) ->
    exists claims, ctx_Claims ctx1 = Some claims /\ ~ (ac_UserID claims = UserProps.demo_id /\ ac_CredentialVersion claims = CredentialVersion u)) /\
  (forall w1 h1 resp1, demo_refreshed (userStore (handler_of demo_change)) = (w1, Some (h1, resp1)) -> Status resp1 = 200 ->
    exists token claims, presented demo_proxies (post "/api/v1/auth/refresh") {| req_RefreshToken := demo_refresh |} = Some [token] /\
      parse_refresh (tokenManager demo_after) (time_of_call (tokenManager demo_after) (env_clocks (demo_env 60)) 0) token = Ok claims /\
      ~ (Subject (rc_Registered claims) = UserProps.demo_id /\ rc_CredentialVersion claims = CredentialVersion u)).
Proof.
  split; [vm_compute; reflexivity|]. destruct UserProps.demo_ok as (Hok & _ & m & Hd & Hs).
  destruct (UserProps.demo_user (fun u => ID u) UserProps.demo_id ltac:(vm_compute; reflexivity)) as (u & Hu & _). exists u. split; [exact Hu|].
  pose proof (responded demo_change ltac:(vm_compute; reflexivity)) as E. unfold demo_change in E at 1.
  assert (Ha : about (ByPassword demo_body) (context_of demo_auth) UserProps.demo_id) by (apply id_of; vm_compute; reflexivity).
  assert (H200 : Status (response_of demo_change) = 200) by (vm_compute; reflexivity).
  pose proof (fun r => ended_tokens_refused demo_proxies (ByPassword demo_body) (with_tokenManager demo_handler (tokenManager demo_after)) (demo_env 30) (post "/api/v1/auth/password") (context_of demo_auth) UserProps.demo_id
    UserProps.demo_dir m [] (fst demo_change) (handler_of demo_change) (response_of demo_change) u 0 (userStore (handler_of demo_change)) (tokenManager demo_after) r default_excludePaths background
    (env_clocks (demo_env 40)) (env_random (demo_env 40)) (fst demo_login) Hok Hd Hs Ha Hu E H200 (later_now _ _ _) ltac:(reflexivity)) as H.
  split.
  - intros w1 tm1 ctx1 H1. apply (proj1 (H demo_me) w1 tm1 ctx1); [vm_compute; reflexivity|exact H1].
  - intros w1 h1 resp1 H1 H2.
    exact (proj2 (H (post "/api/v1/auth/refresh")) (with_userStore demo_after (userStore (handler_of demo_change))) (demo_env 60) {| req_RefreshToken := demo_refresh |} w1 h1 resp1 eq_refl H1 H2).
Defined.

(** The refresh token is exchanged, and then the old one is used once more. *)
Definition demo_exchange : io dir * option (Handler * Response) :=
  HandleRefresh demo_proxies demo_after (demo_env 60) (post "/api/v1/auth/refresh") (Decoded {| req_RefreshToken := demo_refresh |}) (fst demo_login).
Definition demo_reuse : io dir * option (Handler * Response) :=
  HandleRefresh demo_proxies (handler_of demo_exchange) (demo_env 70) (post "/api/v1/auth/refresh") (Decoded {| req_RefreshToken := demo_refresh |}) (fst demo_exchange).
Definition demo_used : result TokenError refreshTokenClaims :=
  parse_refresh (tokenManager (handler_of demo_exchange)) (time_of_call (tokenManager (handler_of demo_exchange)) (env_clocks (demo_env 70)) 0) (TrimSpace demo_refresh).

Lemma reuse_ends_session_witness : Status (response_of demo_exchange) = 200 /\ Status (response_of demo_reuse) = 401 /\ exists claims, demo_used = Ok claims /\
  is_Some (sessionRegistry (tokenManager (handler_of demo_exchange)) !! rc_SessionID claims) /\ sessionRegistry (tokenManager (handler_of demo_reuse)) !! rc_SessionID claims = None.
Proof.
  pose proof (responded demo_reuse ltac:(vm_compute; reflexivity)) as E. unfold demo_reuse in E at 1. assert (Hs : Status (response_of demo_reuse) = 401) by (vm_compute; reflexivity). split; [vm_compute; reflexivity|]. split; [exact Hs|].
  assert (Hc : match demo_used with
    | Ok claims => (validateRefreshTokenClaimsLocked (tokenManager (handler_of demo_exchange)) claims
        (time_of_call (tokenManager (handler_of demo_exchange)) (env_clocks (demo_env 70)) 0), UserProps.isSome (sessionRegistry (tokenManager (handler_of demo_exchange)) !! rc_SessionID claims))
    | Err _ => (None, false) end = (Some errRefreshTokenReused, true)) by (vm_compute; reflexivity).
  destruct demo_used as [claims|] eqn:Eu; [|discriminate Hc]. apply pair_equal_spec in Hc as [Hl Hin]. exists claims. split; [reflexivity|]. split; [exact (some_of _ Hin)|].
  destruct (reuse_ends_session demo_proxies (handler_of demo_exchange) (demo_env 70) (post "/api/v1/auth/refresh") {| req_RefreshToken := demo_refresh |} (TrimSpace demo_refresh) claims
    (fst demo_exchange) (fst demo_reuse) (handler_of demo_reuse) (response_of demo_reuse)) as [_ H];
    [reflexivity|vm_compute; reflexivity|split; [exact Eu|exact Hl]|exact E|].
  destruct H as [(_ & _ & H)|[[H _]|[H _]]]; [exact H|rewrite Hs in H; discriminate H|rewrite Hs in H; discriminate H].
Defined.

Definition demo_logout : io dir * option (Handler * Response) :=
  HandleLogout demo_proxies demo_after (demo_env 30) (post "/api/v1/auth/logout") (context_of demo_auth) (Decoded {| req_RefreshToken := EmptyString |}) (fst demo_login).
Lemma logout_ends_sessions_witness : Status (response_of demo_logout) = 200 /\ exists claims, ctx_Claims (context_of demo_auth) = Some claims /\
  is_Some (sessionRegistry (tokenManager demo_after) !! ac_SessionID claims) /\ sessionRegistry (tokenManager (handler_of demo_logout)) !! ac_SessionID claims = None.
Proof.
  pose proof (responded demo_logout ltac:(vm_compute; reflexivity)) as E. unfold demo_logout in E at 1. assert (Hs : Status (response_of demo_logout) = 200) by (vm_compute; reflexivity). split; [exact Hs|].
  assert (Hc : match ctx_Claims (context_of demo_auth) with
    | Some claims => UserProps.isSome (ac_SessionExpiresAt claims) && negb (String.eqb (ac_SessionID claims) "") && UserProps.isSome (sessionRegistry (tokenManager demo_after) !! ac_SessionID claims)
    | None => false end = true) by (vm_compute; reflexivity).
  destruct (logout_ends_sessions demo_proxies demo_after (demo_env 30) (post "/api/v1/auth/logout") (context_of demo_auth) {| req_RefreshToken := EmptyString |}
    (fst demo_login) (fst demo_logout) (handler_of demo_logout) (response_of demo_logout)) as (_ & H & _); [exact E|exact Hs|].
  destruct (ctx_Claims (context_of demo_auth)) as [claims|]; [|discriminate Hc]. exists claims. apply andb_true_iff in Hc as [[H1 H2]%andb_true_iff H3].
  split; [reflexivity|]. split; [exact (some_of _ H3)|]. apply H; [reflexivity|intros E0; rewrite E0 in H1; discriminate H1|]. apply negb_true_iff, String.eqb_neq in H2. exact H2.
Defined.

Lemma login_exact_witness : Status (response_of demo_login) = 200 /\ exists user d, UserStore.users UserProps.demo_store !! ID user = Some user /\
  UsersFile.CompareHashAndPassword (PasswordHash user) UserProps.demo_password = true /\ Data (response_of demo_login) = LoginData d /\ resp_User d = userInfo user.
Proof.
  pose proof (responded demo_login ltac:(vm_compute; reflexivity)) as E. unfold demo_login in E at 1.
  assert (Hs : Status (response_of demo_login) = 200) by (vm_compute; reflexivity). split; [exact Hs|].
  destruct (login_exact demo_proxies demo_handler (demo_env 10) (post "/api/v1/auth/login") {| req_Username := "Admin"; req_Password := UserProps.demo_password |} "Admin"
    (fst demo_started) (fst demo_login) (handler_of demo_login) (response_of demo_login)) as [H _];
    [exact (proj1 UserProps.demo_ok)|vm_compute; reflexivity|exact E|].
  destruct (H Hs) as (_ & user & d & H1 & _ & _ & H4 & H5 & H6). exists user, d. exact (conj H1 (conj H4 (conj H5 H6))).
Defined.
End AuthProps.
