(* ===== verification/UploadTypes.v ===== *)
(** * internal/uploadsession/types.go and the records of store.go: upload sessions

    The durable record of an upload session, its validation, the names of its files, and the codec
    of its state files.  Times are instants in nanoseconds in UTC (the store writes no others, and the
    location of a decoded time is not modelled). *)

From Stdlib Require Import Ascii.
From S2P Require Import Prelude GoStrings GoPath GoFormat Paths Sha256.

Module UploadTypes.

Inductive UploadError :=
| ErrNotFound
| ErrConflict
| ErrInvalidState
| ErrOffsetMismatch (expected actual : Z)
| ErrReplayOffset
| ErrChunkTooLarge
| ErrChunkLength
| ErrChunkDigest
| ErrLimitExceeded
| ErrStagingLimit
| ErrExpired
| ErrRecoveryRequired
| ErrClosed
| errInvalidRequest
| errInvalidState
| errEntropy
| errIncompleteCreate
| errIO.

#[export] Instance UploadError_eq_dec : EqDecision UploadError.
Proof. solve_decision. Defined.

Inductive SessionState :=
| StateUploading
| StateReady
| StateCommitting
| StateCommitted
| StateConflict
| StateCancelled.

#[export] Instance SessionState_eq_dec : EqDecision SessionState.
Proof. solve_decision. Defined.

Record OriginalCondition := { ExpectedExists : bool; DeleteIdentityToken : string }.

#[export] Instance OriginalCondition_eq_dec : EqDecision OriginalCondition.
Proof. solve_decision. Defined.

(** [diskState]; the public [Session] has the same fields but for the schema version, the
    predecessor and the payload identity. *)
Record diskState := {
  SchemaVersion : Z;
  ID : string;
  Owner : string;
  ClientRequestID : string;
  Path : string;
  TotalBytes : Z;
  DurableOffset : Z;
  Condition : OriginalCondition;
  State : SessionState;
  Revision : Z;
  PreviousRevision : Z;
  PreviousStateSHA256 : string;
  PayloadIdentity : string;
  LastChunkOffset : Z;
  LastChunkBytes : Z;
  LastChunkID : string;
  LastChunkSHA256 : string;
  ContentBLAKE3 : string;
  PublicationStarted : bool;
  PersistenceWarning : bool;
  ConflictReason : string;
  CreatedAt : Z;
  UpdatedAt : Z;
  ExpiresAt : Z;
}.

#[export] Instance diskState_eq_dec : EqDecision diskState.
Proof. solve_decision. Defined.

Definition stateSchemaVersion : Z := 3.
Definition maxStateFileBytes : Z := 64 * 1024.
Definition blake3HexLength : Z := 64.
Definition sha256HexLength : Z := 64.
(** The zero [time.Time]. *)
Definition zero_time : Z := -62135596800 * 1000000000.

Record Options := {
  TTL : Z;
  MaxChunkBytes : Z;
  MaxSessionsPerOwner : Z;
  MaxSessions : Z;
  MaxStagedBytesPerOwner : Z;
  MaxStagedBytes : Z;
  CloseTimeout : Z;
}.

Definition second : Z := 1000000000.
Definition defaultTTL : Z := 72 * 3600 * second.
Definition defaultMaxChunkBytes : Z := 8 * 1024 * 1024.
Definition defaultMaxPerOwner : Z := 32.
Definition defaultMaxSessions : Z := 512.
Definition defaultMaxStagedBytesPerOwner : Z := 20 * 1073741824.
Definition defaultMaxStagedBytes : Z := 100 * 1073741824.
Definition defaultCloseTimeout : Z := 30 * second.

Definition or_default (value default : Z) : Z := if value =? 0 then default else value.

Definition normalizeOptions (o : Options) : result UploadError Options :=
  let o :=
    {| TTL := or_default (TTL o) defaultTTL;
       MaxChunkBytes := or_default (MaxChunkBytes o) defaultMaxChunkBytes;
       MaxSessionsPerOwner := or_default (MaxSessionsPerOwner o) defaultMaxPerOwner;
       MaxSessions := or_default (MaxSessions o) defaultMaxSessions;
       MaxStagedBytesPerOwner := or_default (MaxStagedBytesPerOwner o) defaultMaxStagedBytesPerOwner;
       MaxStagedBytes := or_default (MaxStagedBytes o) defaultMaxStagedBytes;
       CloseTimeout := or_default (CloseTimeout o) defaultCloseTimeout |} in
  if (TTL o <=? 0) || (MaxChunkBytes o <=? 0) || (MaxSessionsPerOwner o <=? 0) || (MaxSessions o <=? 0) ||
     (MaxSessions o <? MaxSessionsPerOwner o) || (MaxStagedBytesPerOwner o <=? 0) || (MaxStagedBytes o <=? 0) ||
     (MaxStagedBytes o <? MaxStagedBytesPerOwner o) || (CloseTimeout o <=? 0)
  then Err errInvalidRequest else Ok o.

(** ** Validation *)

Definition validCleanText (value : string) (max : Z) : bool :=
  if String.eqb value "" || (max <? len value) || negb (ValidString value) then false
  else negb (has_control value).

Definition validOwner (owner : string) : bool := validCleanText owner 256 && String.eqb (TrimSpace owner) owner.

Definition alphanumeric (r : N) : bool :=
  ((97 <=? r) && (r <=? 122) || (65 <=? r) && (r <=? 90) || (48 <=? r) && (r <=? 57))%N.
(** [strings.ContainsRune("._:-", char)] *)
Definition id_punctuation (r : N) : bool := ((r =? 46) || (r =? 95) || (r =? 58) || (r =? 45))%N.

Definition validClientRequestID (value : string) : bool :=
  if String.eqb value "" || (128 <? len value) then false
  else forallb (fun '(r, _) => alphanumeric r || id_punctuation r) (runes value).

Definition validChunkID (value : string) : bool :=
  if String.eqb value "" || (128 <? len value) then false
  else match runes value with
  | [] => true
  | (r, _) :: rest => alphanumeric r && forallb (fun '(r, _) => alphanumeric r || id_punctuation r) rest
  end.

Definition validLogicalPath (value : string) : bool :=
  if String.eqb value "" || String.eqb value "/" || (4096 <? len value) || negb (HasPrefix value "/") ||
     contains_byte backslash value || contains_any value "?#" || negb (String.eqb (Clean value) value) ||
     negb (ValidString value)
  then false
  else negb (has_control value).

Definition validCondition (condition : OriginalCondition) : bool :=
  if negb (ExpectedExists condition) then String.eqb (DeleteIdentityToken condition) ""
  else validCleanText (DeleteIdentityToken condition) 512.

Definition validID (id : string) : bool := validLowerHex id 32.

Definition isTerminalState (state : SessionState) : bool :=
  match state with StateCommitted | StateConflict | StateCancelled => true | _ => false end.

Definition sessionExpired (state : SessionState) (expiresAt now : Z) : bool :=
  negb (bool_decide (state = StateCommitting)) && negb (now <? expiresAt).

Definition validateDiskState (record : diskState) : bool :=
  if negb (SchemaVersion record =? stateSchemaVersion) || negb (validID (ID record)) ||
     negb (validOwner (Owner record)) || negb (validClientRequestID (ClientRequestID record)) ||
     negb (validLogicalPath (Path record)) || (TotalBytes record <? 0) ||
     (DurableOffset record <? 0) || (TotalBytes record <? DurableOffset record) ||
     negb (validLowerHex (PayloadIdentity record) sha256HexLength) ||
     (Revision record =? 0) || negb (validCondition (Condition record)) ||
     (CreatedAt record =? zero_time) || (UpdatedAt record =? zero_time) || (ExpiresAt record =? zero_time) ||
     (UpdatedAt record <? CreatedAt record) || (ExpiresAt record <? UpdatedAt record)
  then false
  else if (if Revision record =? 1
           then negb (PreviousRevision record =? 0) || negb (String.eqb (PreviousStateSHA256 record) "")
           else negb (uint64 (PreviousRevision record + 1) =? Revision record) ||
                negb (validLowerHex (PreviousStateSHA256 record) sha256HexLength))
  then false
  else if (if LastChunkOffset record =? -1
           then negb (LastChunkBytes record =? 0) || negb (String.eqb (LastChunkID record) "") ||
                negb (String.eqb (LastChunkSHA256 record) "")
           else (LastChunkOffset record <? 0) || (LastChunkBytes record <=? 0) ||
                negb (int64 (LastChunkOffset record + LastChunkBytes record) =? DurableOffset record) ||
                negb (validChunkID (LastChunkID record)) ||
                negb (validLowerHex (LastChunkSHA256 record) sha256HexLength))
  then false
  else
    let complete := DurableOffset record =? TotalBytes record in
    if negb (Bool.eqb complete (negb (String.eqb (ContentBLAKE3 record) ""))) ||
       (negb (String.eqb (ContentBLAKE3 record) "") && negb (validLowerHex (ContentBLAKE3 record) blake3HexLength))
    then false
    else if bool_decide (State record = StateUploading) && complete then false
    else if negb (bool_decide (State record = StateUploading)) && negb (bool_decide (State record = StateCancelled)) &&
            negb complete then false
    else if PersistenceWarning record && negb (bool_decide (State record = StateCommitted)) then false
    else if PublicationStarted record &&
            negb (match State record with StateCommitting | StateCommitted | StateConflict => true | _ => false end)
    then false
    else if bool_decide (State record = StateConflict) then validCleanText (ConflictReason record) 1024
    else String.eqb (ConflictReason record) "".

(** ** File names *)

Definition payloadFileName : string := "payload.bin".

Definition stateFileName (revision : Z) : string := "state-" +:+ padded 20 revision +:+ ".json".
Definition pendingStateFileName (revision : Z) (nonce : string) : string :=
  "pending-" +:+ padded 20 revision +:+ "-" +:+ nonce +:+ ".json".

Definition parseStateFileName (name : string) : option Z :=
  if negb (HasPrefix name "state-") || negb (HasSuffix name ".json") then None
  else
    let number := TrimSuffix (TrimPrefix name "state-") ".json" in
    if negb (len number =? 20) then None
    else match ParseUint number with
    | Some value => if (0 <? value) && String.eqb (stateFileName value) name then Some value else None
    | None => None
    end.

Definition parsePendingStateName (name : string) : option Z :=
  if negb (HasPrefix name "pending-") || negb (HasSuffix name ".json") then None
  else
    let value := TrimSuffix (TrimPrefix name "pending-") ".json" in
    match Split "-" value with
    | [number; nonce] =>
      if negb (len number =? 20) || negb (validLowerHex nonce 32) then None
      else match ParseUint number with
      | Some revision => if 0 <? revision then Some revision else None
      | None => None
      end
    | _ => None
    end.

Definition isPendingStateName (name : string) : bool :=
  match parsePendingStateName name with Some _ => true | None => false end.

Definition digestBytes (raw : string) : string := Sha256.EncodeToString (Sha256.Sum256 raw).

End UploadTypes.
