(* ===== verification/UploadStaging.v ===== *)
(** * internal/uploadsession/store.go: accounting of staged bytes

    The bytes of the payloads on disk, in total, by owner and by session, and the bytes of chunks that
    are being written.  Each operation runs under the staging lock; operations of different sessions
    interleave.  A map of counters that has no entry for a key counts 0 for it. *)

From S2P Require Import Prelude GoStrings GoPath UploadTypes.
Import UploadTypes.

Module UploadStaging.

Record Staging := {
  stagedBytes : Z;
  physicalReservedBytes : Z;
  stagedByOwner : gmap string Z;
  stagedBySession : gmap string Z;
}.

Definition no_staging : Staging := {| stagedBytes := 0; physicalReservedBytes := 0; stagedByOwner := ∅; stagedBySession := ∅ |}.

Definition count (m : gmap string Z) (k : string) : Z := default 0 (m !! k).

(** The limits of [Options] that the accounting enforces. *)
Record limits := { max_staged : Z; max_staged_per_owner : Z }.

Definition restoreStagedBytes (s : Staging) (id owner : string) (durable : Z) : result UploadError Staging :=
  if durable <? 0 then Err ErrRecoveryRequired
  else match stagedBySession s !! id with
  | Some _ => Err ErrRecoveryRequired
  | None =>
    let ownerBytes := count (stagedByOwner s) owner in
    if (int64 (maxInt64 - stagedBytes s) <? durable) || (int64 (maxInt64 - ownerBytes) <? durable) then Err ErrRecoveryRequired
    else Ok {| stagedBytes := int64 (stagedBytes s + durable); physicalReservedBytes := physicalReservedBytes s;
               stagedByOwner := <[owner := int64 (ownerBytes + durable)]> (stagedByOwner s);
               stagedBySession := <[id := durable]> (stagedBySession s) |}
  end.

(** [reserveStagedBytes] up to its unlock, with the physical bytes that it then asks for. *)
Definition admitStagedBytes (l : limits) (s : Staging) (id owner : string) (durableOffset bytes : Z)
    : result UploadError (Staging * Z) :=
  if (bytes <=? 0) || (durableOffset <? 0) then Err ErrRecoveryRequired
  else if negb (count (stagedBySession s) id =? durableOffset) then Err ErrRecoveryRequired
  else
    let ownerBytes := count (stagedByOwner s) owner in
    if (int64 (max_staged l - stagedBytes s) <? bytes) || (int64 (max_staged_per_owner l - ownerBytes) <? bytes)
    then Err ErrStagingLimit
    else if int64 (maxInt64 - physicalReservedBytes s) <? bytes then Err ErrRecoveryRequired
    else
      let requiredPhysicalBytes := int64 (physicalReservedBytes s + bytes) in
      Ok ({| stagedBytes := int64 (stagedBytes s + bytes); physicalReservedBytes := requiredPhysicalBytes;
             stagedByOwner := <[owner := int64 (ownerBytes + bytes)]> (stagedByOwner s);
             stagedBySession := <[id := int64 (durableOffset + bytes)]> (stagedBySession s) |},
          requiredPhysicalBytes).

Definition releaseStagedReservation (s : Staging) (id owner : string) (bytes : Z) : result UploadError Staging :=
  if bytes <=? 0 then Err ErrRecoveryRequired
  else
    let sessionBytes := count (stagedBySession s) id in
    let ownerBytes := count (stagedByOwner s) owner in
    if (sessionBytes <? bytes) || (ownerBytes <? bytes) || (stagedBytes s <? bytes) || (physicalReservedBytes s <? bytes)
    then Err ErrRecoveryRequired
    else Ok {| stagedBytes := int64 (stagedBytes s - bytes); physicalReservedBytes := int64 (physicalReservedBytes s - bytes);
               stagedByOwner := <[owner := int64 (ownerBytes - bytes)]> (stagedByOwner s);
               stagedBySession := <[id := int64 (sessionBytes - bytes)]> (stagedBySession s) |}.

Definition finishStagedReservation (s : Staging) (bytes : Z) : result UploadError Staging :=
  if bytes <=? 0 then Err ErrRecoveryRequired
  else if physicalReservedBytes s <? bytes then Err ErrRecoveryRequired
  else Ok {| stagedBytes := stagedBytes s; physicalReservedBytes := int64 (physicalReservedBytes s - bytes);
             stagedByOwner := stagedByOwner s; stagedBySession := stagedBySession s |}.

Definition releaseSessionStaging (s : Staging) (id owner : string) : result UploadError Staging :=
  match stagedBySession s !! id with
  | None => Ok s
  | Some sessionBytes =>
    let ownerBytes := count (stagedByOwner s) owner in
    if (ownerBytes <? sessionBytes) || (stagedBytes s <? sessionBytes) then Err ErrRecoveryRequired
    else Ok {| stagedBytes := int64 (stagedBytes s - sessionBytes); physicalReservedBytes := physicalReservedBytes s;
               stagedByOwner := if ownerBytes =? sessionBytes then delete owner (stagedByOwner s)
                                else <[owner := int64 (ownerBytes - sessionBytes)]> (stagedByOwner s);
               stagedBySession := delete id (stagedBySession s) |}
  end.

(** [reserveStagedBytes]: [check] is [Options.CheckStagingCapacity]; a refused reservation is rolled back. *)
Definition reserveStagedBytes (l : limits) (check : option (Z -> bool)) (s : Staging) (id owner : string)
    (durableOffset bytes : Z) : Staging * result UploadError unit :=
  match admitStagedBytes l s id owner durableOffset bytes with
  | Err e => (s, Err e)
  | Ok (s', required) =>
    match check with
    | None => (s', Ok tt)
    | Some check =>
      if check required then (s', Ok tt)
      else (match releaseStagedReservation s' id owner bytes with Ok s'' => s'' | Err _ => s' end, Err ErrStagingLimit)
    end
  end.

(** ** The accounting is exact *)

(** What the store has promised for a session: its owner, the durable bytes of its payload, and the
    bytes of the chunk that is being written. *)
Record account := { a_owner : string; a_durable : Z; a_reserved : Z }.

Definition a_bytes (a : account) : Z := a_durable a + a_reserved a.
Definition of_owner (owner : string) (a : account) : Z := if String.eqb (a_owner a) owner then a_bytes a else 0.

Record exact (g : gmap string account) (s : Staging) : Prop := {
  exact_range id a : g !! id = Some a -> 0 <= a_durable a /\ 0 <= a_reserved a;
  exact_session id : count (stagedBySession s) id = from_option a_bytes 0 (g !! id);
  exact_known id : is_Some (stagedBySession s !! id) -> is_Some (g !! id);
  exact_owner owner : count (stagedByOwner s) owner = sum_map (of_owner owner) g;
  exact_total : stagedBytes s = sum_map a_bytes g;
  exact_physical : physicalReservedBytes s = sum_map a_reserved g;
  exact_bound : stagedBytes s <= maxInt64;
}.

(** One operation under the staging lock, and what it does to the accounts.  An append reserves its
    chunk and then either finishes, when the chunk is durable, or gives the bytes back; the release of a
    session follows the removal of its payload, and no chunk of it is then being written. *)
Inductive staging_op :=
| OpRestore (id owner : string) (durable : Z)
| OpCreate (id owner : string)
| OpReserve (l : limits) (id : string) (bytes : Z)
| OpFinish (id : string)
| OpRelease (id : string)
| OpReleaseSession (id : string).

Definition staging_step (op : staging_op) (g : gmap string account) (s : Staging) : result UploadError (gmap string account * Staging) :=
  match op with
  | OpRestore id owner durable =>
    let! s' := restoreStagedBytes s id owner durable in
    Ok (<[id := {| a_owner := owner; a_durable := durable; a_reserved := 0 |}]> g, s')
  | OpCreate id owner => Ok (<[id := {| a_owner := owner; a_durable := 0; a_reserved := 0 |}]> g, s)
  | OpReserve l id bytes =>
    match g !! id with
    | None => Err ErrNotFound
    | Some a =>
      let! r := admitStagedBytes l s id (a_owner a) (a_durable a) bytes in
      Ok (<[id := {| a_owner := a_owner a; a_durable := a_durable a; a_reserved := bytes |}]> g, fst r)
    end
  | OpFinish id =>
    match g !! id with
    | None => Err ErrNotFound
    | Some a =>
      let! s' := finishStagedReservation s (a_reserved a) in
      Ok (<[id := {| a_owner := a_owner a; a_durable := a_bytes a; a_reserved := 0 |}]> g, s')
    end
  | OpRelease id =>
    match g !! id with
    | None => Err ErrNotFound
    | Some a =>
      let! s' := releaseStagedReservation s id (a_owner a) (a_reserved a) in
      Ok (<[id := {| a_owner := a_owner a; a_durable := a_durable a; a_reserved := 0 |}]> g, s')
    end
  | OpReleaseSession id =>
    match g !! id with
    | None => Err ErrNotFound
    | Some a => let! s' := releaseSessionStaging s id (a_owner a) in Ok (delete id g, s')
    end
  end.

(** When the store runs an operation. *)
Definition enabled (op : staging_op) (g : gmap string account) : Prop :=
  match op with
  | OpRestore id _ _ | OpCreate id _ => g !! id = None
  | OpReserve _ id _ => exists a, g !! id = Some a /\ a_reserved a = 0
  | OpFinish id | OpRelease id => exists a, g !! id = Some a /\ 0 < a_reserved a
  | OpReleaseSession id => exists a, g !! id = Some a /\ a_reserved a = 0
  end.

Section Exact.
Context (g : gmap string account) (s : Staging) (Hx : exact g s).

Lemma account_bytes id a : g !! id = Some a -> 0 <= a_bytes a.
Proof. intros E. destruct (exact_range _ _ Hx id a E). unfold a_bytes. lia. Qed.

Lemma owner_nonneg owner id a : g !! id = Some a -> 0 <= of_owner owner a.
Proof. intros E. unfold of_owner. destruct (String.eqb _ _); [by eapply account_bytes|done]. Qed.

Lemma sum_owner_le owner : 0 <= sum_map (of_owner owner) g <= sum_map a_bytes g.
Proof.
  split; [apply sum_map_nonneg; by apply owner_nonneg|].
  assert (Hle : forall (m : gmap string account), (forall id a, m !! id = Some a -> 0 <= a_bytes a) ->
    sum_map (of_owner owner) m <= sum_map a_bytes m).
  { intros m. induction m as [|id a m E IH] using map_ind; intros Hm; [by rewrite !sum_map_empty|].
    rewrite !sum_map_insert by done.
    assert (sum_map (of_owner owner) m <= sum_map a_bytes m).
    { apply IH. intros id' a' E'. apply (Hm id'). rewrite lookup_insert_ne; [done|congruence]. }
    assert (of_owner owner a <= a_bytes a); [|lia]. unfold of_owner.
    pose proof (Hm id a (lookup_insert_eq m id a)). destruct (String.eqb _ _); lia. }
  apply Hle. by apply account_bytes.
Qed.

Lemma total_range : 0 <= stagedBytes s <= maxInt64.
Proof.
  split; [|by apply exact_bound with g]. rewrite (exact_total _ _ Hx). apply sum_map_nonneg. by apply account_bytes.
Qed.

Lemma owner_range owner : 0 <= count (stagedByOwner s) owner <= stagedBytes s.
Proof. rewrite (exact_owner _ _ Hx), (exact_total _ _ Hx). apply sum_owner_le. Qed.

Lemma session_range id a : g !! id = Some a -> a_bytes a <= count (stagedByOwner s) (a_owner a).
Proof.
  intros E. rewrite (exact_owner _ _ Hx). replace (a_bytes a) with (of_owner (a_owner a) a)
    by (unfold of_owner; by rewrite String.eqb_refl).
  apply (sum_map_lookup_le (of_owner (a_owner a)) g id a); [by apply owner_nonneg|done].
Qed.

Lemma physical_range : 0 <= physicalReservedBytes s <= stagedBytes s.
Proof.
  rewrite (exact_physical _ _ Hx), (exact_total _ _ Hx). split.
  - apply sum_map_nonneg. intros id a E. by destruct (exact_range _ _ Hx id a E).
  - assert (Hle : forall (m : gmap string account), (forall id a, m !! id = Some a -> 0 <= a_durable a) ->
      sum_map a_reserved m <= sum_map a_bytes m).
    { intros m. induction m as [|id a m E IH] using map_ind; intros Hm; [by rewrite !sum_map_empty|].
      rewrite !sum_map_insert by done. unfold a_bytes at 1. pose proof (Hm id a (lookup_insert_eq m id a)).
      assert (sum_map a_reserved m <= sum_map a_bytes m); [|lia]. apply IH. intros id' a' E'. apply (Hm id').
      rewrite lookup_insert_ne; [done|congruence]. }
    apply Hle. intros id a E. by destruct (exact_range _ _ Hx id a E).
Qed.

Lemma reserved_le id a : g !! id = Some a -> a_reserved a <= physicalReservedBytes s.
Proof.
  intros E. rewrite (exact_physical _ _ Hx). apply (sum_map_lookup_le a_reserved g id a); [|done].
  intros k b Eb. by destruct (exact_range _ _ Hx k b Eb).
Qed.
End Exact.

Lemma count_insert m k v j : count (<[k := v]> m) j = if decide (j = k) then v else count m j.
Proof. unfold count. destruct (decide (j = k)) as [->|N]; [by rewrite lookup_insert_eq|by rewrite lookup_insert_ne]. Qed.

Lemma count_delete m k j : count (delete k m) j = if decide (j = k) then 0 else count m j.
Proof. unfold count. destruct (decide (j = k)) as [->|N]; [by rewrite lookup_delete_eq|by rewrite lookup_delete_ne]. Qed.

(** The account of one session changes; its owner does not. *)
Lemma exact_set g s id a s' :
  exact g s -> (forall b, g !! id = Some b -> a_owner b = a_owner a) -> 0 <= a_durable a -> 0 <= a_reserved a ->
  let delta := a_bytes a - from_option a_bytes 0 (g !! id) in
  stagedBytes s' = stagedBytes s + delta ->
  physicalReservedBytes s' = physicalReservedBytes s + (a_reserved a - from_option a_reserved 0 (g !! id)) ->
  (forall o, count (stagedByOwner s') o = count (stagedByOwner s) o + if decide (o = a_owner a) then delta else 0) ->
  (forall k, count (stagedBySession s') k = if decide (k = id) then a_bytes a else count (stagedBySession s) k) ->
  (forall k, is_Some (stagedBySession s' !! k) -> k = id \/ is_Some (stagedBySession s !! k)) ->
  stagedBytes s' <= maxInt64 ->
  exact (<[id := a]> g) s'.
Proof.
  intros Hx Ho Hd Hr delta Ht Hp Howner Hs Hk Hb. split.
  - intros k b. destruct (decide (k = id)) as [->|N]; [rewrite lookup_insert_eq; by intros [= <-]|].
    rewrite lookup_insert_ne by done. apply (exact_range _ _ Hx).
  - intros k. rewrite Hs. destruct (decide (k = id)) as [->|N]; [by rewrite lookup_insert_eq|].
    rewrite lookup_insert_ne by done. apply (exact_session _ _ Hx).
  - intros k Hin. destruct (decide (k = id)) as [->|N]; [rewrite lookup_insert_eq; by eexists|].
    rewrite lookup_insert_ne by done. destruct (Hk k Hin) as [?|?]; [done|by apply (exact_known _ _ Hx)].
  - intros o. rewrite Howner, sum_map_upsert, (exact_owner _ _ Hx).
    assert (from_option (of_owner o) 0 (g !! id) = if decide (o = a_owner a) then from_option a_bytes 0 (g !! id) else 0) as ->.
    { destruct (g !! id) as [b|] eqn:E; simpl; [|by destruct (decide _)]. unfold of_owner. rewrite (Ho b eq_refl).
      destruct (String.eqb_spec (a_owner a) o), (decide (o = a_owner a)); congruence. }
    assert (of_owner o a = if decide (o = a_owner a) then a_bytes a else 0) as ->.
    { unfold of_owner. destruct (String.eqb_spec (a_owner a) o), (decide (o = a_owner a)); congruence. }
    unfold delta. destruct (decide _); lia.
  - rewrite Ht, sum_map_upsert, (exact_total _ _ Hx). unfold delta. lia.
  - rewrite Hp, sum_map_upsert, (exact_physical _ _ Hx). lia.
  - done.
Qed.

Lemma exact_empty : exact ∅ no_staging.
Proof.
  split; try done; intros; rewrite ?sum_map_empty; try done.
  destruct H as [? E]. done.
Qed.
Lemma account_at g s id a : exact g s -> g !! id = Some a -> count (stagedBySession s) id = a_bytes a.
Proof. intros Hx E. by rewrite (exact_session _ _ Hx), E. Qed.

(** [lia] on the accounting of a session, with the ranges that make the machine arithmetic exact. *)
Ltac staging_facts Hx owner :=
  pose proof (total_range _ _ Hx); pose proof (owner_range _ _ Hx owner); pose proof (physical_range _ _ Hx).

Lemma restore_exact g s id owner durable s' : exact g s -> g !! id = None ->
  restoreStagedBytes s id owner durable = Ok s' ->
  exact (<[id := {| a_owner := owner; a_durable := durable; a_reserved := 0 |}]> g) s'.
Proof.
  intros Hx Hg. unfold restoreStagedBytes. staging_facts Hx owner.
  destruct (Z.ltb_spec durable 0) as [|L]; [done|]. destruct (stagedBySession s !! id) eqn:Es; [done|].
  rewrite !(int64_id (maxInt64 - _)) by (int_unfold; lia). destruct (_ || _) eqn:Eo; [done|]. apply orb_false_iff in Eo as [E1 E2].
  apply Z.ltb_ge in E1, E2. intros [= <-]. rewrite !int64_id by (int_unfold; lia).
  apply (exact_set g s); simpl; unfold a_bytes; simpl; rewrite ?Hg; simpl; try done; try lia.
  - intros o. rewrite count_insert. destruct (decide _); [subst; lia|lia].
  - intros k. rewrite count_insert. destruct (decide _); [lia|done].
  - intros k [v E]. destruct (decide (k = id)) as [->|N]; [by left|]. rewrite lookup_insert_ne in E by done. right. by eexists.
Qed.

Lemma create_exact g s id owner : exact g s -> g !! id = None ->
  exact (<[id := {| a_owner := owner; a_durable := 0; a_reserved := 0 |}]> g) s.
Proof.
  intros Hx Hg. staging_facts Hx owner.
  apply (exact_set g s); simpl; unfold a_bytes; simpl; rewrite ?Hg; simpl; try done; try lia.
  - intros o. destruct (decide _); lia.
  - intros k. destruct (decide (k = id)) as [->|]; [|done]. by rewrite (exact_session _ _ Hx), Hg.
  - by right.
Qed.

Definition limits_ok (l : limits) : Prop := 0 < max_staged_per_owner l <= max_staged l /\ max_staged l <= maxInt64.

Lemma admit_exact l g s id a bytes s' required : limits_ok l -> exact g s -> g !! id = Some a -> a_reserved a = 0 ->
  admitStagedBytes l s id (a_owner a) (a_durable a) bytes = Ok (s', required) ->
  exact (<[id := {| a_owner := a_owner a; a_durable := a_durable a; a_reserved := bytes |}]> g) s' /\
  0 < bytes /\ required = physicalReservedBytes s' /\ stagedBytes s' <= max_staged l /\
  count (stagedByOwner s') (a_owner a) <= max_staged_per_owner l.
Proof.
  intros [L1 L2] Hx Hg Hr. unfold admitStagedBytes. staging_facts Hx (a_owner a).
  destruct (exact_range _ _ Hx id a Hg) as [R1 R2]. pose proof (account_at _ _ _ _ Hx Hg) as Ha.
  pose proof (session_range _ _ Hx id a Hg) as Hle. unfold a_bytes in Ha, Hle.
  destruct (_ || _) eqn:E1; [done|]. apply orb_false_iff in E1 as [B1 _]. apply Z.leb_gt in B1.
  destruct (negb _); [done|].
  rewrite (int64_id (max_staged l - _)) by (int_unfold; lia).
  rewrite (int64_id (max_staged_per_owner l - _)) by (int_unfold; lia).
  rewrite (int64_id (maxInt64 - _)) by (int_unfold; lia).
  destruct (_ || _) eqn:E2; [done|]. apply orb_false_iff in E2 as [M1 M2]. apply Z.ltb_ge in M1, M2.
  destruct (Z.ltb_spec (maxInt64 - physicalReservedBytes s) bytes) as [|M3]; [done|].
  intros [= <- <-]. rewrite !int64_id by (int_unfold; lia). cbn [stagedBytes physicalReservedBytes stagedByOwner].
  rewrite count_insert, decide_True by done.
  split; [|split; [done|split; [done|split; lia]]].
  apply (exact_set g s); simpl; unfold a_bytes; simpl; rewrite ?Hg; simpl; try done; try lia.
  - by intros b [= <-].
  - intros o. rewrite count_insert. destruct (decide _); [subst|]; lia.
  - intros k. rewrite count_insert. by destruct (decide _).
  - intros k [v E]. destruct (decide (k = id)) as [->|N]; [by left|]. rewrite lookup_insert_ne in E by done. right. by eexists.
Qed.

(** With a reservation, or none: the operations that end one never underflow. *)
Lemma finish_exact g s id a : exact g s -> g !! id = Some a -> 0 < a_reserved a ->
  exists s', finishStagedReservation s (a_reserved a) = Ok s' /\
    exact (<[id := {| a_owner := a_owner a; a_durable := a_bytes a; a_reserved := 0 |}]> g) s'.
Proof.
  intros Hx Hg Hr. unfold finishStagedReservation. staging_facts Hx (a_owner a).
  destruct (exact_range _ _ Hx id a Hg) as [R1 R2]. pose proof (reserved_le _ _ Hx id a Hg).
  destruct (Z.leb_spec (a_reserved a) 0); [lia|]. destruct (Z.ltb_spec (physicalReservedBytes s) (a_reserved a)); [lia|].
  eexists. split; [done|]. rewrite !int64_id by (int_unfold; lia).
  apply (exact_set g s); simpl; unfold a_bytes; simpl; rewrite ?Hg; simpl; unfold a_bytes; try done; try lia.
  - by intros b [= <-].
  - intros o. destruct (decide _); lia.
  - intros k. destruct (decide (k = id)) as [->|]; [|done]. rewrite (account_at _ _ _ _ Hx Hg). unfold a_bytes. lia.
  - auto.
Qed.

Lemma release_exact g s id a : exact g s -> g !! id = Some a -> 0 < a_reserved a ->
  exists s', releaseStagedReservation s id (a_owner a) (a_reserved a) = Ok s' /\
    exact (<[id := {| a_owner := a_owner a; a_durable := a_durable a; a_reserved := 0 |}]> g) s'.
Proof.
  intros Hx Hg Hr. unfold releaseStagedReservation. staging_facts Hx (a_owner a).
  destruct (exact_range _ _ Hx id a Hg) as [R1 R2]. pose proof (reserved_le _ _ Hx id a Hg).
  pose proof (session_range _ _ Hx id a Hg) as Hle. pose proof (account_at _ _ _ _ Hx Hg) as Ha. unfold a_bytes in Ha, Hle.
  rewrite Ha. destruct (Z.leb_spec (a_reserved a) 0); [lia|].
  destruct (Z.ltb_spec (a_durable a + a_reserved a) (a_reserved a)); [lia|].
  destruct (Z.ltb_spec (count (stagedByOwner s) (a_owner a)) (a_reserved a)); [lia|].
  destruct (Z.ltb_spec (stagedBytes s) (a_reserved a)); [lia|].
  destruct (Z.ltb_spec (physicalReservedBytes s) (a_reserved a)); [lia|].
  eexists. split; [done|]. rewrite !int64_id by (int_unfold; lia).
  apply (exact_set g s); simpl; unfold a_bytes; simpl; rewrite ?Hg; simpl; unfold a_bytes; try done; try lia.
  - by intros b [= <-].
  - intros o. rewrite count_insert. destruct (decide _); [subst|]; lia.
  - intros k. rewrite count_insert. destruct (decide _); [lia|done].
  - intros k [v E]. destruct (decide (k = id)) as [->|N]; [by left|]. rewrite lookup_insert_ne in E by done. right. by eexists.
Qed.

(** A session without a reservation is forgotten. *)
Lemma exact_drop g s id a s' : exact g s -> g !! id = Some a -> a_reserved a = 0 ->
  stagedBytes s' = stagedBytes s - a_bytes a -> physicalReservedBytes s' = physicalReservedBytes s ->
  (forall o, count (stagedByOwner s') o = count (stagedByOwner s) o - if decide (o = a_owner a) then a_bytes a else 0) ->
  stagedBySession s' = delete id (stagedBySession s) -> exact (delete id g) s'.
Proof.
  intros Hx Hg Hr Ht Hp Ho Hs. pose proof (account_bytes _ _ Hx id a Hg). split.
  - intros k b E. apply lookup_delete_Some in E as [_ E]. by apply (exact_range _ _ Hx k).
  - intros k. rewrite Hs, count_delete. destruct (decide (k = id)) as [->|N]; [by rewrite lookup_delete_eq|].
    rewrite lookup_delete_ne by done. apply (exact_session _ _ Hx).
  - intros k [v E]. rewrite Hs in E. apply lookup_delete_Some in E as [N E]. rewrite lookup_delete_ne by done.
    apply (exact_known _ _ Hx). by eexists.
  - intros o. rewrite Ho, sum_map_remove, (exact_owner _ _ Hx), Hg. simpl.
    assert (of_owner o a = if decide (o = a_owner a) then a_bytes a else 0) as ->; [|done].
    unfold of_owner. destruct (String.eqb_spec (a_owner a) o), (decide (o = a_owner a)); congruence.
  - rewrite Ht, sum_map_remove, (exact_total _ _ Hx), Hg. simpl. lia.
  - rewrite Hp, sum_map_remove, (exact_physical _ _ Hx), Hg. simpl. lia.
  - pose proof (exact_bound _ _ Hx). lia.
Qed.

Lemma release_session_exact g s id a : exact g s -> g !! id = Some a -> a_reserved a = 0 ->
  exists s', releaseSessionStaging s id (a_owner a) = Ok s' /\ exact (delete id g) s'.
Proof.
  intros Hx Hg Hr. unfold releaseSessionStaging. staging_facts Hx (a_owner a).
  pose proof (session_range _ _ Hx id a Hg) as Hle. pose proof (account_at _ _ _ _ Hx Hg) as Ha. unfold count in Ha.
  pose proof (account_bytes _ _ Hx id a Hg).
  destruct (stagedBySession s !! id) as [b|] eqn:Es; simpl in Ha.
  - subst b. destruct (Z.ltb_spec (count (stagedByOwner s) (a_owner a)) (a_bytes a)); [lia|].
    destruct (Z.ltb_spec (stagedBytes s) (a_bytes a)); [lia|]. eexists. split; [done|].
    rewrite !int64_id by (int_unfold; lia). apply (exact_drop g s id a); try done.
    intros o. simpl. destruct (Z.eqb_spec (count (stagedByOwner s) (a_owner a)) (a_bytes a)).
    + rewrite count_delete. destruct (decide _); [subst|]; lia.
    + rewrite count_insert. destruct (decide _); [subst|]; lia.
  - eexists. split; [done|]. apply (exact_drop g s id a); try done; try lia.
    + intros o. destruct (decide _); lia.
    + symmetry. by apply delete_id.
Qed.

Lemma staging_step_exact op g s g' s' : exact g s -> enabled op g ->
  match op with OpReserve l _ _ => limits_ok l | _ => True end ->
  staging_step op g s = Ok (g', s') -> exact g' s'.
Proof.
  intros Hx Hen Hl. destruct op as [id owner durable|id owner|l id bytes|id|id|id]; simpl in *.
  - destruct (restoreStagedBytes _ _ _ _) as [s1|] eqn:E; [|done]. intros [= <- <-]. by eapply restore_exact.
  - intros [= <- <-]. by apply create_exact.
  - destruct Hen as (a & Hg & Hr). rewrite Hg. destruct (admitStagedBytes _ _ _ _ _ _) as [[s1 q]|] eqn:E; [|done].
    intros [= <- <-]. by destruct (admit_exact _ _ _ _ _ _ _ _ Hl Hx Hg Hr E).
  - destruct Hen as (a & Hg & Hr). rewrite Hg. destruct (finish_exact _ _ _ _ Hx Hg Hr) as (s1 & -> & H1). by intros [= <- <-].
  - destruct Hen as (a & Hg & Hr). rewrite Hg. destruct (release_exact _ _ _ _ Hx Hg Hr) as (s1 & -> & H1). by intros [= <- <-].
  - destruct Hen as (a & Hg & Hr). rewrite Hg. destruct (release_session_exact _ _ _ _ Hx Hg Hr) as (s1 & -> & H1). by intros [= <- <-].
Qed.
(** A refused capacity check gives the reservation back. *)
Lemma reserve_exact l check g s id a bytes s' r : limits_ok l -> exact g s -> g !! id = Some a -> a_reserved a = 0 ->
  reserveStagedBytes l check s id (a_owner a) (a_durable a) bytes = (s', r) ->
  match r with
  | Ok _ => exact (<[id := {| a_owner := a_owner a; a_durable := a_durable a; a_reserved := bytes |}]> g) s' /\
      stagedBytes s' <= max_staged l /\ count (stagedByOwner s') (a_owner a) <= max_staged_per_owner l /\
      from_option (fun c => c (physicalReservedBytes s') = true) True check
  | Err _ => exact g s'
  end.
Proof.
  intros Hl Hx Hg Hr. unfold reserveStagedBytes. destruct (admitStagedBytes _ _ _ _ _ _) as [[s1 q]|e] eqn:E; [|by intros [= <- <-]].
  destruct (admit_exact _ _ _ _ _ _ _ _ Hl Hx Hg Hr E) as (H1 & Hb & -> & M1 & M2).
  destruct check as [c|]; [|by intros [= <- <-]]. destruct (c _) eqn:Ec; [by intros [= <- <-]|].
  set (a1 := {| a_owner := a_owner a; a_durable := a_durable a; a_reserved := bytes |}) in *.
  destruct (release_exact _ s1 id a1 H1) as (s2 & E2 & H2); [apply lookup_insert_eq|done|]. simpl in E2. rewrite E2.
  intros [= <- <-]. rewrite insert_insert_eq in H2. replace (<[id := _]> g) with g in H2; [done|].
  symmetry. apply insert_id. rewrite Hg. destruct a. simpl in *. by subst.
Qed.

(** The accounting that the operations lead to, in any order that [enabled] allows, under the limits [l]. *)
Definition limited (l : limits) (op : staging_op) : Prop := match op with OpReserve l' _ _ => l' = l | _ => True end.

Inductive staging_reach (l : limits) : gmap string account -> Staging -> Prop :=
| staging_init : staging_reach l ∅ no_staging
| staging_next op g s g' s' : staging_reach l g s -> enabled op g -> limited l op -> staging_step op g s = Ok (g', s') ->
    staging_reach l g' s'.

Lemma staging_reach_exact l g s : limits_ok l -> staging_reach l g s -> exact g s.
Proof.
  intros Hl. induction 1 as [|op g s g' s' Hr IH Hen Hlim E]; [apply exact_empty|].
  eapply staging_step_exact; [exact IH|exact Hen| |exact E]. by destruct op; simpl in *; subst.
Qed.

(** The operations that give bytes back. *)
Definition gives_back (op : staging_op) : bool := match op with OpFinish _ | OpRelease _ | OpReleaseSession _ => true | _ => false end.

Lemma gives_back_ok op g s : exact g s -> enabled op g -> gives_back op = true -> exists g' s', staging_step op g s = Ok (g', s').
Proof.
  intros Hx. destruct op as [| | |id|id|id]; try done; simpl; intros (a & Hg & Hr) _; rewrite Hg.
  - destruct (finish_exact _ _ _ _ Hx Hg Hr) as (s1 & -> & _). by eexists _, _.
  - destruct (release_exact _ _ _ _ Hx Hg Hr) as (s1 & -> & _). by eexists _, _.
  - destruct (release_session_exact _ _ _ _ Hx Hg Hr) as (s1 & -> & _). by eexists _, _.
Qed.
End UploadStaging.
