(* ===== verification/UploadFiles.v ===== *)
(** * internal/uploadsession/store.go: the files of one session

    A session is a directory with its payload and one file per recent revision of its state; a new
    revision is written to a pending file that is renamed into place.  These are the programs that the
    store runs on that directory under the session's lock: publishing and compacting states, loading
    with recovery, appending, verifying replays, and removing payloads.  The JSON codec is the class
    [StateCodec]; BLAKE3 is a parameter; nonces and the clock are arguments.  Opening a file, its
    [Stat], reading and closing it are one operation here, as are creating a file and its [Chmod]. *)

From Stdlib Require Import Ascii.
From stdpp Require Import sorting.
From S2P Require Import Prelude GoStrings GoPath GoFormat Sha256 FileMonad UploadTypes.
Import UploadTypes.

Module UploadFiles.

Definition newline : string := byte1 10.

(** [json.Marshal] and [json.Decoder] on [diskState].  A valid state is decoded from its text, with or
    without the newline that [encodeState] adds; an object that is cut short is an error. *)
Class StateCodec := {
  encode_json : diskState -> option string;
  decode_json : string -> option diskState;
  decode_encode r s : validateDiskState r = true -> encode_json r = Some s ->
    decode_json s = Some r /\ decode_json (s +:+ newline) = Some r;
  decode_torn r s n : validateDiskState r = true -> encode_json r = Some s -> (n < String.length s)%nat ->
    decode_json (str_take n s) = None;
}.

Record loadedSession := { state : diskState; raw : string; digest : string }.

Section Files.
Context `{StateCodec} (blake3 : string -> string).

(** Errors of file operations as errors of the store. *)
Definition or_error {A} (e : UploadError) (m : prog (result FileError A)) : prog (result UploadError A) :=
  run! r := m in ret (match r with Ok a => Ok a | Err _ => Err e end).

(** ** State files *)

Definition encodeState (record : diskState) : result UploadError string :=
  match encode_json record with
  | None => Err errIO
  | Some raw => let raw := raw +:+ newline in if maxStateFileBytes <? len raw then Err errIO else Ok raw
  end.

Definition parseStateFile (f : file) : result FileError (string * diskState) :=
  if negb (f_regular f) || (maxStateFileBytes <? len (f_bytes f)) then Err IOError
  else match decode_json (f_bytes f) with
  | None => Err IOError
  | Some record =>
    match encodeState record with
    | Err _ => Err IOError
    | Ok canonical => if String.eqb (f_bytes f) canonical then Ok (f_bytes f, record) else Err IOError
    end
  end.

Definition readStateFile (name : string) : prog (result FileError (string * diskState)) :=
  try! f := stat name in ret (parseStateFile f).

(** [randomHex]; [None] is a failed read of the random source. *)
Definition randomHex (entropy : option string) : result UploadError string :=
  match entropy with Some bytes => Ok (Sha256.EncodeToString bytes) | None => Err errEntropy end.

(** [entropy]: 16 random bytes; [identity]: the persistent identity of the new file. *)
Definition publishStateFile (revision : Z) (raw : string) (entropy : option string) (identity : string)
    : prog (result UploadError unit) :=
  match randomHex entropy with
  | Err e => ret (Err e)
  | Ok nonce =>
  let pendingName := pendingStateFileName revision nonce in
  let cleanup (e : UploadError) : prog (result UploadError unit) := run! _ := remove pendingName in ret (Err e) in
  try! _ := or_error errIO (create pendingName identity) in
  run! written := write_at pendingName 0 raw in
  match written with
  | Err _ => cleanup errIO
  | Ok _ =>
    run! synced := sync pendingName in
    match synced with
    | Err _ => cleanup errIO
    | Ok _ =>
      run! renamed := rename pendingName (stateFileName revision) in
      match renamed with
      | Err _ => cleanup errIO
      | Ok _ => or_error errIO sync_dir
      end
    end
  end
  end.

(** The loop of [compactStateFiles] over the stale revisions, the oldest first. *)
Fixpoint removeStale (stale : list (Z * string)) : prog (result UploadError unit) :=
  match stale with
  | [] => ret (Ok tt)
  | (_, name) :: stale' =>
    try! _ := or_error errIO (remove name) in
    try! _ := or_error errIO sync_dir in
    removeStale stale'
  end.

Definition stale_le (a b : Z * string) : Prop := fst a <= fst b.
#[export] Instance stale_le_dec : RelDecision stale_le.
Proof. intros a b. unfold stale_le. apply _. Defined.

Definition staleFiles (keepFrom : Z) (entries : list (string * file)) : list ((Z * string) * file) :=
  omap (fun '(name, f) => match parseStateFileName name with
    | Some revision => if revision <? keepFrom then Some ((revision, name), f) else None
    | None => None
    end) entries.

Definition compactStateFiles (keepFrom : Z) : prog (result UploadError unit) :=
  if keepFrom =? 0 then ret (Err ErrRecoveryRequired)
  else
    try! entries := or_error errIO read_dir in
    let stale := staleFiles keepFrom entries in
    if existsb (fun '(_, f) => dir_or_link f) stale then ret (Err ErrRecoveryRequired)
    else removeStale (merge_sort stale_le (fst <$> stale)).

Definition writeInitialState (record : diskState) (entropy : option string) (identity : string) : prog (result UploadError string) :=
  if negb (Revision record =? 1) then ret (Err errInvalidState)
  else if negb (validateDiskState record) then ret (Err errInvalidState)
  else match encodeState record with
  | Err e => ret (Err e)
  | Ok raw => try! _ := publishStateFile (Revision record) raw entropy identity in ret (Ok raw)
  end.

Definition link (current : loadedSession) (next : diskState) : diskState :=
  {| SchemaVersion := SchemaVersion next; ID := ID next; Owner := Owner next; ClientRequestID := ClientRequestID next;
     Path := Path next; TotalBytes := TotalBytes next; DurableOffset := DurableOffset next;
     Condition := Condition next; State := State next; Revision := uint64 (Revision (state current) + 1);
     PreviousRevision := Revision (state current); PreviousStateSHA256 := digest current;
     PayloadIdentity := PayloadIdentity next; LastChunkOffset := LastChunkOffset next;
     LastChunkBytes := LastChunkBytes next; LastChunkID := LastChunkID next; LastChunkSHA256 := LastChunkSHA256 next;
     ContentBLAKE3 := ContentBLAKE3 next; PublicationStarted := PublicationStarted next;
     PersistenceWarning := PersistenceWarning next; ConflictReason := ConflictReason next;
     CreatedAt := CreatedAt next; UpdatedAt := UpdatedAt next; ExpiresAt := ExpiresAt next |}.

Definition writeNextState (current : loadedSession) (next : diskState) (entropy : option string) (identity : string)
    : prog (result UploadError loadedSession) :=
  let next := link current next in
  if negb (validateDiskState next) then ret (Err errInvalidState)
  else match encodeState next with
  | Err e => ret (Err e)
  | Ok raw =>
    try! _ := publishStateFile (Revision next) raw entropy identity in
    try! _ := compactStateFiles (Revision (state current)) in
    ret (Ok {| state := next; raw := raw; digest := digestBytes raw |})
  end.

(** ** The payload *)

Definition verifiedPayload (record : diskState) (f : file) : bool :=
  f_regular f && (len (f_bytes f) =? DurableOffset record) && String.eqb (f_identity f) (PayloadIdentity record).

Definition openVerifiedPayload (record : diskState) : prog (result UploadError file) :=
  try! f := or_error ErrRecoveryRequired (stat payloadFileName) in
  ret (if verifiedPayload record f then Ok f else Err ErrRecoveryRequired).

Definition recoverPayload (record : diskState) : prog (result UploadError unit) :=
  try! f := or_error ErrRecoveryRequired (stat payloadFileName) in
  if len (f_bytes f) <? DurableOffset record then ret (Err ErrRecoveryRequired)
  else if DurableOffset record <? len (f_bytes f) then
    try! _ := or_error ErrRecoveryRequired (truncate payloadFileName (Z.to_nat (DurableOffset record))) in
    try! _ := or_error ErrRecoveryRequired (sync payloadFileName) in
    or_error ErrRecoveryRequired sync_dir
  else ret (Ok tt).

(** [removeTerminalPayload]; [release] is [releaseSessionStaging] on the accounting, which comes last. *)
Definition removeTerminalPayload (release : diskState -> result UploadError unit) (record : diskState)
    : prog (result UploadError unit) :=
  if negb (isTerminalState (State record)) then ret (Err ErrInvalidState)
  else
    run! present := stat payloadFileName in
    match present with
    | Err NotExist => ret (release record)
    | Err _ => ret (Err errIO)
    | Ok _ =>
      try! _ := openVerifiedPayload record in
      try! _ := or_error errIO (remove payloadFileName) in
      try! _ := or_error errIO sync_dir in
      ret (release record)
    end.

(** ** Loading *)

(** The loop of [recoverPendingStates]; the result says whether anything changed. *)
Fixpoint recoverPending (id : string) (entries : list (string * file)) (changed : bool) : prog (result UploadError bool) :=
  match entries with
  | [] => ret (Ok changed)
  | (name, entry) :: entries' =>
    match parsePendingStateName name with
    | None => recoverPending id entries' changed
    | Some revision =>
      if dir_or_link entry then ret (Err ErrRecoveryRequired)
      else
        run! pending := readStateFile name in
        match pending with
        | Err _ => try! _ := or_error errIO (remove name) in recoverPending id entries' true
        | Ok (raw, record) =>
          if negb (String.eqb (ID record) id) || negb (Revision record =? revision) then ret (Err ErrRecoveryRequired)
          else
            run! final := readStateFile (stateFileName revision) in
            match final with
            | Ok (finalRaw, _) =>
              if negb (String.eqb raw finalRaw) then ret (Err ErrRecoveryRequired)
              else try! _ := or_error errIO (remove name) in recoverPending id entries' true
            | Err NotExist =>
              try! _ := or_error errIO (rename name (stateFileName revision)) in recoverPending id entries' true
            | Err _ => ret (Err errIO)
            end
        end
    end
  end.

Definition recoverPendingStates (id : string) (entries : list (string * file)) : prog (result UploadError unit) :=
  try! changed := recoverPending id entries false in
  if (changed : bool) then or_error errIO sync_dir else ret (Ok tt).

(** The loop of [loadSession] over the directory: the state files by revision, and whether there is a
    payload. *)
Fixpoint classify (entries : list (string * file)) (stateFiles : gmap Z string) (payloadSeen : bool)
    : result UploadError (gmap Z string * bool) :=
  match entries with
  | [] => Ok (stateFiles, payloadSeen)
  | (name, entry) :: entries' =>
    if String.eqb name payloadFileName then
      if dir_or_link entry then Err ErrRecoveryRequired else classify entries' stateFiles true
    else if isPendingStateName name then Err ErrRecoveryRequired
    else match parseStateFileName name with
    | None => Err ErrRecoveryRequired
    | Some revision =>
      if dir_or_link entry then Err ErrRecoveryRequired
      else match stateFiles !! revision with
      | Some _ => Err ErrRecoveryRequired
      | None => classify entries' (<[revision := name]> stateFiles) payloadSeen
      end
    end
  end.

(** The record does not follow the one before it; [None] at the first revision that is left. *)
Definition chain_mismatch (record : diskState) (revision : Z) (previousRaw : option string) : bool :=
  match previousRaw with
  | None => (revision =? 1) && (negb (PreviousRevision record =? 0) || negb (String.eqb (PreviousStateSHA256 record) ""))
  | Some previous => negb (PreviousRevision record =? uint64 (revision - 1)) ||
                     negb (String.eqb (PreviousStateSHA256 record) (digestBytes previous))
  end.

(** The loop of [loadSession] over the revisions, from [revision] on. *)
Fixpoint loadChain (count : nat) (id : string) (stateFiles : gmap Z string) (revision : Z) (previousRaw : option string)
    : prog (result UploadError loadedSession) :=
  match count with
  | O => ret (Err ErrRecoveryRequired)
  | S count' =>
    match stateFiles !! revision with
    | None => ret (Err ErrRecoveryRequired)
    | Some name =>
      try! (raw, record) := or_error errIO (readStateFile name) in
      if negb (String.eqb (ID record) id) || negb (Revision record =? revision) then ret (Err ErrRecoveryRequired)
      else if negb (validateDiskState record) then ret (Err ErrRecoveryRequired)
      else if chain_mismatch record revision previousRaw then ret (Err ErrRecoveryRequired)
      else match count' with
      | O => ret (Ok {| state := record; raw := raw; digest := digestBytes raw |})
      | S _ => loadChain count' id stateFiles (uint64 (revision + 1)) (Some raw)
      end
    end
  end.

Definition min_revision (m : gmap Z string) : Z := map_fold (fun revision _ acc => Z.min revision acc) maxUint64 m.
Definition max_revision (m : gmap Z string) : Z := map_fold (fun revision _ acc => Z.max revision acc) 0 m.

(** The part of [loadSession] that reads the states: the latest one, and whether there is a payload. *)
Definition loadLatest (id : string) : prog (result UploadError (loadedSession * bool)) :=
  try! entries := or_error errIO read_dir in
  match classify entries ∅ false with
  | Err e => ret (Err e)
  | Ok (stateFiles, payloadSeen) =>
    if bool_decide (stateFiles = ∅) then ret (Err errIncompleteCreate)
    else
      let first := min_revision stateFiles in
      if negb (uint64 (max_revision stateFiles - first + 1) =? uint64 (Z.of_nat (size stateFiles)))
      then ret (Err ErrRecoveryRequired)
      else
        try! latest := loadChain (size stateFiles) id stateFiles first None in
        if negb (isTerminalState (State (state latest))) && negb payloadSeen then ret (Err ErrRecoveryRequired)
        else ret (Ok (latest, payloadSeen))
  end.

(** The payload of the latest state, and the states before its predecessor. *)
Definition settlePayload (release : diskState -> result UploadError unit) (latest : loadedSession) (payloadSeen : bool)
    : prog (result UploadError unit) :=
  if payloadSeen then
    if isTerminalState (State (state latest)) then removeTerminalPayload release (state latest) else recoverPayload (state latest)
  else ret (Ok tt).

Definition keepFrom (latest : loadedSession) : Z :=
  if 1 <? Revision (state latest) then Revision (state latest) - 1 else Revision (state latest).

(** [loadSession]; the second result is the record of a terminal session whose payload was removed, and
    whose staged bytes were released. *)
Definition loadSession (release : diskState -> result UploadError unit) (id : string) : prog (result UploadError loadedSession * option diskState) :=
  if negb (validID id) then ret (Err ErrNotFound, None)
  else
    run! r := (try! entries := or_error errIO read_dir in
               try! _ := recoverPendingStates id entries in
               loadLatest id) in
    match r with
    | Err e => ret (Err e, None)
    | Ok (latest, payloadSeen) =>
      run! r := settlePayload release latest payloadSeen in
      match r with
      | Err e => ret (Err e, None)
      | Ok _ =>
        run! r := compactStateFiles (keepFrom latest) in
        ret (match r with Ok _ => Ok latest | Err e => Err e end,
             if payloadSeen && isTerminalState (State (state latest)) then Some (state latest) else None)
      end
    end.
End Files.

End UploadFiles.
