(* ===== verification/UploadNames.v ===== *)
(** * Names and records of upload sessions: lemmas

    The names of state files and pending files are parsed back to their revisions and never confused;
    digests have the form that the validation asks for. *)

From Stdlib Require Import Ascii.
From S2P Require Import Prelude GoStrings GoPath GoFormat Sha256 FileMonad UploadTypes.
Import UploadTypes.

Module UploadNames.

(** ** Suffixes *)

Lemma HasSuffix_app s t : HasSuffix (s +:+ t) t = true.
Proof.
  unfold HasSuffix. rewrite sapp_length. apply andb_true_iff. split; [apply Nat.leb_le; lia|].
  replace (String.length s + String.length t - String.length t)%nat with (String.length s) by lia.
  rewrite str_drop_app. apply String.eqb_refl.
Qed.

Lemma TrimSuffix_app s t : TrimSuffix (s +:+ t) t = s.
Proof.
  unfold TrimSuffix. rewrite HasSuffix_app, sapp_length.
  replace (String.length s + String.length t - String.length t)%nat with (String.length s) by lia.
  change (str_take (String.length s) (s +:+ t) = s). rewrite str_take_app_le by lia. by apply str_take_all.
Qed.

(** ** Revisions *)

Definition revision_ok (k : Z) : Prop := 1 <= k <= maxUint64.

Lemma revision_width k : revision_ok k -> 0 <= k < 10 ^ Z.of_nat 20.
Proof. unfold revision_ok, maxUint64. intros H. change (10 ^ Z.of_nat 20) with 100000000000000000000. lia. Qed.

Lemma parse_state_name k : revision_ok k -> parseStateFileName (stateFileName k) = Some k.
Proof.
  intros Hk. unfold parseStateFileName, stateFileName. rewrite HasPrefix_app, TrimPrefix_app.
  rewrite <-sapp_assoc, HasSuffix_app. rewrite TrimSuffix_app. unfold len. rewrite padded_length. cbn [negb orb].
  rewrite ParseUint_padded; [|lia|by apply revision_width|by destruct Hk].
  rewrite sapp_assoc, String.eqb_refl. assert ((0 <? k) = true) as -> by (apply Z.ltb_lt; by destruct Hk; lia). done.
Qed.

Lemma parse_state_name_inv name k : parseStateFileName name = Some k -> name = stateFileName k /\ revision_ok k.
Proof.
  unfold parseStateFileName. intros H. destruct (_ || _); [done|]. destruct (negb _); [done|].
  destruct (ParseUint _) as [v|] eqn:Ep; [|done]. apply ParseUint_range in Ep.
  destruct ((0 <? v) && _) eqn:E; [|done]. injection H as <-. apply andb_true_iff in E as [E1 E2].
  apply Z.ltb_lt in E1. apply String.eqb_eq in E2. split; [done|]. split; lia.
Qed.

Lemma state_name_inj j k : revision_ok j -> revision_ok k -> stateFileName j = stateFileName k -> j = k.
Proof. intros Hj Hk H. pose proof (parse_state_name j Hj) as E. rewrite H, parse_state_name in E by done. congruence. Qed.

Lemma pending_prefix name k : parsePendingStateName name = Some k -> HasPrefix name "pending-" = true.
Proof. unfold parsePendingStateName. destruct (HasPrefix name "pending-"); done. Qed.

Lemma state_not_pending k : parsePendingStateName (stateFileName k) = None.
Proof. done. Qed.
Lemma payload_not_pending : parsePendingStateName payloadFileName = None.
Proof. done. Qed.
Lemma payload_not_state : parseStateFileName payloadFileName = None.
Proof. done. Qed.
Lemma payload_state_name k : payloadFileName <> stateFileName k.
Proof. intros E. by apply (f_equal (fun s => HasPrefix s "state-")) in E. Qed.

(** ** Hexadecimal text *)

Lemma runes_ascii a s : (N_of_ascii a < 128)%N -> runes (String a s) = (N_of_ascii a, String a "") :: runes s.
Proof. intros H. simpl. apply N.ltb_lt in H. by rewrite H. Qed.

Lemma encode_length s : String.length (Sha256.EncodeToString s) = (2 * String.length s)%nat.
Proof. induction s as [|a s IH]; simpl; [done|]. rewrite IH. lia. Qed.

(** The digits of an encoded byte. *)
Lemma encode_digits a : (N.shiftr (N_of_ascii a) 4 < 16)%N /\ (N.land (N_of_ascii a) 15 < 16)%N.
Proof.
  split.
  - rewrite N.shiftr_div_pow2. apply N.Div0.div_lt_upper_bound. pose proof (N_ascii_bounded a). simpl. lia.
  - change 15%N with (N.ones 4). rewrite N.land_ones. by apply N.mod_lt.
Qed.

Lemma encode_lower_hex s : validLowerHex (Sha256.EncodeToString s) (2 * len s) = true.
Proof.
  unfold validLowerHex, len. rewrite encode_length.
  assert ((Z.of_nat (2 * String.length s) =? 2 * Z.of_nat (String.length s)) = true) as -> by (apply Z.eqb_eq; lia).
  cbn [negb]. induction s as [|a s IH]; [done|]. cbn [Sha256.EncodeToString].
  destruct (encode_digits a) as [H1 H2]. apply hex_digit_range in H1 as [R1 L1], H2 as [R2 L2].
  unfold Sha256.hex_digit in *. rewrite !runes_ascii by done. cbn [forallb]. by rewrite R1, R2, IH.
Qed.

Lemma digest_lower_hex raw : validLowerHex (digestBytes raw) sha256HexLength = true.
Proof.
  unfold digestBytes. pose proof (encode_lower_hex (Sha256.Sum256 raw)) as H.
  unfold len in H. by rewrite Sha256.Sum256_length in H.
Qed.

Lemma encode_no_dash s : contains_byte "-" (Sha256.EncodeToString s) = false.
Proof.
  induction s as [|a s IH]; [done|]. cbn [Sha256.EncodeToString contains_byte]. rewrite IH, orb_false_r.
  destruct (encode_digits a) as [H1 H2]. apply hex_digit_range in H1 as [R1 _], H2 as [R2 _].
  unfold Sha256.hex_digit. apply orb_false_iff. split; apply Ascii.eqb_neq; intros E; rewrite E in *; by vm_compute in R1, R2.
Qed.

(** ** Pending names *)

Lemma digits_no_dash s : forallb is_digit (String.list_ascii_of_string s) = true -> contains_byte "-" s = false.
Proof.
  induction s as [|a s IH]; [done|]. simpl. intros H. apply andb_true_iff in H as [Ha Hs]. rewrite IH, orb_false_r by done.
  apply Ascii.eqb_neq. intros ->. done.
Qed.

Lemma parse_pending_name k b : revision_ok k -> String.length b = 16%nat ->
  parsePendingStateName (pendingStateFileName k (Sha256.EncodeToString b)) = Some k.
Proof.
  intros Hk Hb. unfold parsePendingStateName, pendingStateFileName. rewrite HasPrefix_app, TrimPrefix_app.
  set (h := Sha256.EncodeToString b).
  replace ("pending-" +:+ padded 20 k +:+ "-" +:+ h +:+ ".json") with (("pending-" +:+ padded 20 k +:+ "-" +:+ h) +:+ ".json")
    by (by rewrite !sapp_assoc).
  replace (padded 20 k +:+ "-" +:+ h +:+ ".json") with ((padded 20 k +:+ "-" +:+ h) +:+ ".json") by (by rewrite !sapp_assoc).
  rewrite HasSuffix_app, TrimSuffix_app. cbn [negb orb].
  change (padded 20 k +:+ "-" +:+ h) with (padded 20 k +:+ String "-" h).
  rewrite (Split_app "-" (padded 20 k) h) by (apply digits_no_dash, padded_digits).
  rewrite (Split_no_sep "-" h) by apply encode_no_dash. unfold len. rewrite padded_length.
  assert (validLowerHex h 32 = true) as ->.
  { unfold h. pose proof (encode_lower_hex b) as E. unfold len in E. by rewrite Hb in E. }
  cbn [negb orb Z.of_nat]. simpl Z.eqb. cbn [negb orb].
  rewrite ParseUint_padded; [|lia|by apply revision_width|by destruct Hk].
  assert ((0 <? k) = true) as -> by (apply Z.ltb_lt; by destruct Hk; lia). done.
Qed.

Lemma pending_not_state name k : parsePendingStateName name = Some k -> parseStateFileName name = None.
Proof.
  intros H. destruct (parseStateFileName name) as [j|] eqn:E; [|done].
  apply parse_state_name_inv in E as [-> _]. by rewrite state_not_pending in H.
Qed.

Lemma pending_not_payload name k : parsePendingStateName name = Some k -> name <> payloadFileName.
Proof. by intros H ->. Qed.

Lemma parse_pending_ok name k : parsePendingStateName name = Some k -> revision_ok k.
Proof.
  unfold parsePendingStateName. intros H. destruct (_ || _); [done|]. destruct (Split _ _) as [|n [|m [|]]]; try done.
  destruct (_ || _); [done|]. destruct (ParseUint n) as [v|] eqn:E; [|done]. apply ParseUint_range in E.
  destruct (0 <? v) eqn:Ev; [|done]. injection H as <-. apply Z.ltb_lt in Ev. split; lia.
Qed.

End UploadNames.
