(* ===== verification/UploadInvariant.v ===== *)
(** * What the directory of an upload session holds

    The invariant that every crash and every failure of internal/uploadsession/store.go leaves: the
    state files are a consecutive tail of one chain of valid records, in full and synced; pending files
    are worthless, but one may be the complete successor of the last record; the payload begins with
    the bytes that the last record promises.  With it, how each change of the directory affects it. *)

From Stdlib Require Import Ascii.
From S2P Require Import Prelude GoStrings GoPath GoFormat Sha256 FileMonad UploadTypes UploadFiles UploadNames.
Import UploadTypes UploadFiles UploadNames.

Module UploadInvariant.

Section Invariant.
Context `{StateCodec}.
Implicit Types (s c : loadedSession) (d : dir) (id p : string) (cand : option (loadedSession * string)).

(** ** Records, their chain, and the payload *)

Definition session_ok (id : string) (k : Z) (s : loadedSession) : Prop :=
  encodeState (state s) = Ok (raw s) /\ digest s = digestBytes (raw s) /\ validateDiskState (state s) = true /\
  ID (state s) = id /\ Revision (state s) = k.

Definition linked (s next : loadedSession) : Prop :=
  PreviousRevision (state next) = Revision (state s) /\ PreviousStateSHA256 (state next) = digest s.

Record history := { h_first : Z; h_last : Z; h_at : Z -> loadedSession }.
Definition last_state (h : history) : loadedSession := h_at h (h_last h).

Record history_ok (id : string) (h : history) : Prop := {
  history_range : 1 <= h_first h <= h_last h /\ h_last h <= maxUint64;
  history_states k : h_first h <= k <= h_last h -> session_ok id k (h_at h k);
  history_linked k : h_first h <= k < h_last h -> linked (h_at h k) (h_at h (k + 1));
}.

(** The file has these bytes, on disk. *)
Definition durable (bytes : string) (f : file) : Prop :=
  f_regular f = true /\ f_bytes f = bytes /\ f_synced f = String.length bytes.

(** The payload of a terminal record may be gone; otherwise it is exact.  A live one may have bytes
    after those that the record promises. *)
Definition exact_payload (record : diskState) (p : string) (f : file) : Prop :=
  durable p f /\ f_identity f = PayloadIdentity record.
Definition live_payload (record : diskState) (p : string) (f : file) : Prop :=
  f_regular f = true /\ f_identity f = PayloadIdentity record /\
  (String.length p <= f_synced f <= String.length (f_bytes f))%nat /\ str_take (String.length p) (f_bytes f) = p.
Definition payload_holds (record : diskState) (p : string) (d : dir) : Prop :=
  len p = DurableOffset record /\
  if isTerminalState (State record) then forall f, d !! payloadFileName = Some f -> exact_payload record p f
  else exists f, d !! payloadFileName = Some f /\ live_payload record p f.

(** A pending file of revision [k]. *)
Definition pending_ok (candidate : option loadedSession) (k : Z) (f : file) : Prop :=
  f_regular f = true /\ f_synced f = String.length (f_bytes f) /\
  (parseStateFile f = Err IOError \/
   exists c, candidate = Some c /\ k = Revision (state c) /\ f_bytes f = raw c).

(** At most one pending file is complete. *)
Definition one_complete (d : dir) : Prop := forall n n' f f' k k',
  parsePendingStateName n = Some k -> parsePendingStateName n' = Some k' -> d !! n = Some f -> d !! n' = Some f' ->
  parseStateFile f <> Err IOError -> parseStateFile f' <> Err IOError -> n = n'.

(** The directory holds the history [h] and the payload [p]; a complete pending file may hold the
    candidate [cand], whose payload is then also there. *)
Record holds (id : string) (h : history) (p : string) (cand : option (loadedSession * string)) (d : dir) : Prop := {
  holds_history : history_ok id h;
  holds_states k : h_first h <= k <= h_last h ->
    exists f, d !! stateFileName k = Some f /\ durable (raw (h_at h k)) f;
  holds_no_states k : revision_ok k -> ~ (h_first h <= k <= h_last h) -> d !! stateFileName k = None;
  holds_entries name f : d !! name = Some f ->
    name = payloadFileName \/ (exists k, parseStateFileName name = Some k) \/ (exists k, parsePendingStateName name = Some k);
  holds_pending name f k : parsePendingStateName name = Some k -> d !! name = Some f ->
    pending_ok (fst <$> cand) k f;
  holds_one : one_complete d;
  holds_payload : payload_holds (state (last_state h)) p d;
  holds_candidate c pc : cand = Some (c, pc) ->
    session_ok id (h_last h + 1) c /\ h_last h + 1 <= maxUint64 /\ linked (last_state h) c /\ payload_holds (state c) pc d;
}.

(** The last record is [s]; a candidate may be there. *)
Definition Inv id s p cand d : Prop :=
  exists h cand', holds id h p cand' d /\ last_state h = s /\ (cand' = cand \/ cand' = None).

(** What a restart finds: the record [s], or the candidate in its place. *)
Definition Rec id s p cand d : Prop :=
  Inv id s p cand d \/ exists c pc, cand = Some (c, pc) /\ Inv id c pc None d.

Definition no_pending (d : dir) : Prop := forall name f, d !! name = Some f -> parsePendingStateName name = None.

(** ** Records *)

Lemma encodeState_inv record text : encodeState record = Ok text ->
  exists t : string, encode_json record = Some t /\ text = t +:+ newline /\ (maxStateFileBytes <? len text) = false.
Proof.
  unfold encodeState. destruct (encode_json record) as [s|] eqn:E; [|done]. cbv zeta.
  destruct (maxStateFileBytes <? len (s +:+ newline)) eqn:L; [done|]. intros [= <-]. by exists s.
Qed.

Lemma parse_state id k s f : session_ok id k s -> f_regular f = true -> f_bytes f = raw s ->
  parseStateFile f = Ok (raw s, state s).
Proof.
  intros (He & _ & Hv & _) Hr Hb. unfold parseStateFile. rewrite Hr, Hb.
  destruct (encodeState_inv _ _ He) as (t & Et & Er & Hl). rewrite Hl. cbn [negb orb].
  destruct (decode_encode _ _ Hv Et) as [_ Hd]. rewrite <-Er in Hd. rewrite Hd, He. by rewrite String.eqb_refl.
Qed.

(** The beginning of a record is not read as a record. *)
Lemma parse_torn record text f n : validateDiskState record = true -> encodeState record = Ok text ->
  (n < String.length text)%nat -> f_bytes f = str_take n text -> parseStateFile f = Err IOError.
Proof.
  intros Hv He Hn Hb. unfold parseStateFile. rewrite Hb. destruct (_ || _); [done|].
  destruct (encodeState_inv _ _ He) as (s & Es & Ht & _). subst text. rewrite sapp_length in Hn. simpl in Hn.
  rewrite str_take_app_le by lia. destruct (decide (n < String.length s)%nat) as [L|L].
  - by rewrite (decode_torn _ _ _ Hv Es L).
  - rewrite str_take_all by lia. destruct (decode_encode _ _ Hv Es) as [-> _]. rewrite He.
    destruct (String.eqb_spec s (s +:+ newline)) as [E|]; [|done].
    apply (f_equal String.length) in E. rewrite sapp_length in E. simpl in E. lia.
Qed.

Lemma session_revision_ok id k s : session_ok id k s -> Revision (state s) = k.
Proof. by intros (_ & _ & _ & _ & ?). Qed.
Lemma session_id id k s : session_ok id k s -> ID (state s) = id.
Proof. by intros (_ & _ & _ & ? & _). Qed.
Lemma session_valid id k s : session_ok id k s -> validateDiskState (state s) = true.
Proof. by intros (_ & _ & ? & _). Qed.

Lemma last_ok id h : history_ok id h -> session_ok id (h_last h) (last_state h).
Proof. intros Hh. apply (history_states _ _ Hh). pose proof (history_range _ _ Hh). lia. Qed.

Lemma last_revision id h p cand d : holds id h p cand d -> Revision (state (last_state h)) = h_last h.
Proof. intros Hh. eapply session_revision_ok, last_ok, holds_history; exact Hh. Qed.

Lemma last_revision_ok id h p cand d : holds id h p cand d -> revision_ok (h_last h).
Proof. intros Hh. pose proof (history_range _ _ (holds_history _ _ _ _ _ Hh)). split; lia. Qed.

(** ** A crash of the machine *)

Lemma settle_synced n f : f_synced f = String.length (f_bytes f) -> settle_file n f = f.
Proof.
  intros E. unfold settle_file, with_bytes. cbv zeta. rewrite str_take_all by lia. rewrite <-E. by destruct f.
Qed.

Lemma settle_lookup n d name : settle n d !! name = settle_file n <$> d !! name.
Proof. unfold settle, dir_crash. apply lookup_fmap. Qed.

Lemma settle_lookup_inv n d name f : settle n d !! name = Some f -> exists g, d !! name = Some g /\ f = settle_file n g.
Proof. rewrite settle_lookup. intros E. apply fmap_Some in E as (g & E & ->). by exists g. Qed.

Lemma durable_settle n bytes f : durable bytes f -> settle_file n f = f.
Proof. intros (_ & E1 & E2). apply settle_synced. by rewrite E1. Qed.

Lemma live_settle n record p f : live_payload record p f -> live_payload record p (settle_file n f).
Proof.
  intros (H1 & H2 & H3 & H4). unfold settle_file. cbv zeta. split; [done|]. split; [done|]. simpl.
  rewrite str_take_length, str_take_take. split; [lia|].
  rewrite Nat.min_l by lia. done.
Qed.

Lemma payload_settle n record p d : payload_holds record p d -> payload_holds record p (settle n d).
Proof.
  intros [Hl Hp]. split; [done|]. destruct (isTerminalState _).
  - intros f E. apply settle_lookup_inv in E as (g & E & ->). specialize (Hp g E).
    destruct Hp as [Hd Hi]. by rewrite (durable_settle n p).
  - destruct Hp as (f & E & Hf). exists (settle_file n f). rewrite settle_lookup, E. split; [done|]. by apply live_settle.
Qed.

Lemma holds_settle n id h p cand d : holds id h p cand d -> holds id h p cand (settle n d).
Proof.
  intros Hh. split.
  - apply Hh.
  - intros k Hk. destruct (holds_states _ _ _ _ _ Hh k Hk) as (f & E & Hf). exists f.
    rewrite settle_lookup, E. simpl. by rewrite (durable_settle _ _ _ Hf).
  - intros k Hk Hn. by rewrite settle_lookup, (holds_no_states _ _ _ _ _ Hh k Hk Hn).
  - intros name f E. apply settle_lookup_inv in E as (g & E & _). by eapply holds_entries.
  - intros name f k Ek E. apply settle_lookup_inv in E as (g & E & ->).
    pose proof (holds_pending _ _ _ _ _ Hh name g k Ek E) as Hp. rewrite settle_synced by apply Hp. done.
  - intros m m' f f' k k' Ek Ek' E E'. apply settle_lookup_inv in E as (g & E & ->), E' as (g' & E' & ->).
    destruct (holds_pending _ _ _ _ _ Hh m g k Ek E) as (_ & S & _), (holds_pending _ _ _ _ _ Hh m' g' k' Ek' E') as (_ & S' & _).
    rewrite !settle_synced by done. by eapply (holds_one _ _ _ _ _ Hh).
  - apply payload_settle, Hh.
  - intros c pc E. destruct (holds_candidate _ _ _ _ _ Hh c pc E) as (? & ? & ? & ?). split; [done|]. split; [done|].
    split; [done|]. by apply payload_settle.
Qed.

Lemma Inv_settle n id s p cand d : Inv id s p cand d -> Inv id s p cand (settle n d).
Proof. intros (h & cand' & Hh & E). exists h, cand'. split; [by apply holds_settle|done]. Qed.

Lemma holds_Inv id h s p cand d : holds id h p cand d -> last_state h = s -> Inv id s p cand d.
Proof. intros Hh E. exists h, cand. auto. Qed.

Lemma Inv_None id s p cand d : Inv id s p None d -> Inv id s p cand d.
Proof. intros (h & cand' & Hh & E & Hc). exists h, None. split; [by destruct Hc as [->| ->]|auto]. Qed.

Lemma Rec_None id s p cand d : Rec id s p None d -> Rec id s p cand d.
Proof. intros [Hi|(c & pc & E & _)]; [left; by apply Inv_None|done]. Qed.

Lemma Rec_settle n id s p cand d : Rec id s p cand d -> Rec id s p cand (settle n d).
Proof. intros [Hi|(c & pc & E & Hi)]; [left|right; exists c, pc; split; [done|]]; by apply Inv_settle. Qed.

(** ** Changes of the directory *)

Lemma payload_same record p d d' : d' !! payloadFileName = d !! payloadFileName ->
  payload_holds record p d -> payload_holds record p d'.
Proof. intros E [Hl Hp]. split; [done|]. destruct (isTerminalState _); by rewrite E. Qed.

Definition candidate_ok id h (cand : option (loadedSession * string)) d : Prop := forall c pc, cand = Some (c, pc) ->
  session_ok id (h_last h + 1) c /\ h_last h + 1 <= maxUint64 /\ linked (last_state h) c /\ payload_holds (state c) pc d.

Lemma candidate_none id h d : candidate_ok id h None d.
Proof. done. Qed.

Lemma candidate_same id h cand d d' : d' !! payloadFileName = d !! payloadFileName ->
  candidate_ok id h cand d -> candidate_ok id h cand d'.
Proof.
  intros E Hc c pc Ec. destruct (Hc c pc Ec) as (? & ? & ? & ?). split; [done|]. split; [done|]. split; [done|].
  by eapply payload_same.
Qed.

(** A change that keeps the state files. *)
Lemma holds_change id h p cand d p' cand' d' :
  holds id h p cand d ->
  (forall name f, d' !! name = Some f -> d !! name = Some f \/ name = payloadFileName \/
     exists k, parsePendingStateName name = Some k /\ pending_ok (fst <$> cand') k f) ->
  (forall k, d' !! stateFileName k = d !! stateFileName k) ->
  (forall name f k, parsePendingStateName name = Some k -> d !! name = Some f -> d' !! name = Some f ->
     pending_ok (fst <$> cand') k f) ->
  one_complete d' -> payload_holds (state (last_state h)) p' d' -> candidate_ok id h cand' d' ->
  holds id h p' cand' d'.
Proof.
  intros Hh Hd Hs Hp Hone Hpay Hc. split.
  - apply Hh.
  - intros k Hk. rewrite Hs. by apply (holds_states _ _ _ _ _ Hh).
  - intros k Hk Hn. rewrite Hs. by apply (holds_no_states _ _ _ _ _ Hh).
  - intros name f E. destruct (Hd name f E) as [E'|[->|(k & Ek & _)]]; [by eapply holds_entries|by left|].
    right; right. by exists k.
  - intros name f k Ek E. destruct (Hd name f E) as [E'|[->|(k' & Ek' & Hk')]]; [by eauto|by rewrite payload_not_pending in Ek|].
    by rewrite Ek in Ek'; injection Ek' as <-.
  - done.
  - done.
  - done.
Qed.

(** The pending files that are left, or none. *)
Lemma one_complete_less d d' : one_complete d ->
  (forall name f k, parsePendingStateName name = Some k -> d' !! name = Some f -> d !! name = Some f) -> one_complete d'.
Proof. intros Hd Hl n n' f f' k k' Ek Ek' E E'. apply (Hd n n' f f' k k'); eauto. Qed.

Lemma one_complete_none d : no_pending d -> one_complete d.
Proof. intros Hn n n' f f' k k' Ek Ek' E E'. by rewrite (Hn _ _ E) in Ek. Qed.

Lemma one_complete_insert d name f : no_pending d -> one_complete (<[name := f]> d).
Proof.
  intros Hn n n' g g' k k' Ek Ek' E E' _ _. destruct (decide (n = name)) as [->|N], (decide (n' = name)) as [->|N']; [done|..].
  - rewrite lookup_insert_ne in E' by done. by rewrite (Hn _ _ E') in Ek'.
  - rewrite lookup_insert_ne in E by done. by rewrite (Hn _ _ E) in Ek.
  - rewrite lookup_insert_ne in E by done. by rewrite (Hn _ _ E) in Ek.
Qed.

Lemma pending_state_name name k j : parsePendingStateName name = Some k -> name <> stateFileName j.
Proof. intros E ->. by rewrite state_not_pending in E. Qed.
Lemma pending_payload_name name k : parsePendingStateName name = Some k -> name <> payloadFileName.
Proof. by intros E ->. Qed.

Lemma holds_delete_pending id h p cand d name k : parsePendingStateName name = Some k ->
  holds id h p cand d -> holds id h p cand (delete name d).
Proof.
  intros Ek Hh. assert (Ep : delete name d !! payloadFileName = d !! payloadFileName).
  { apply lookup_delete_ne. by eapply pending_payload_name. }
  apply (holds_change _ _ _ _ _ _ _ _ Hh).
  - intros n f E. left. by apply lookup_delete_Some in E as [_ E].
  - intros j. apply lookup_delete_ne. by eapply pending_state_name.
  - intros n f j Ej E _. by eapply holds_pending.
  - apply (one_complete_less d); [apply Hh|]. intros n f j _ E. by apply lookup_delete_Some in E as [_ E].
  - eapply payload_same; [exact Ep|apply Hh].
  - eapply candidate_same; [exact Ep|]. exact (holds_candidate _ _ _ _ _ Hh).
Qed.

Lemma holds_add_pending id h p cand d name k f : parsePendingStateName name = Some k ->
  pending_ok (fst <$> cand) k f -> no_pending d -> holds id h p cand d -> holds id h p cand (<[name := f]> d).
Proof.
  intros Ek Hk Hn Hh. assert (Ep : <[name := f]> d !! payloadFileName = d !! payloadFileName).
  { apply lookup_insert_ne. by eapply pending_payload_name. }
  apply (holds_change _ _ _ _ _ _ _ _ Hh).
  - intros n g E. destruct (decide (n = name)) as [->|N].
    + rewrite lookup_insert_eq in E. injection E as <-. right; right. by exists k.
    + rewrite lookup_insert_ne in E by done. by left.
  - intros j. apply lookup_insert_ne. by eapply pending_state_name.
  - intros n g j Ej E _. by eapply holds_pending.
  - by apply one_complete_insert.
  - eapply payload_same; [exact Ep|apply Hh].
  - eapply candidate_same; [exact Ep|]. exact (holds_candidate _ _ _ _ _ Hh).
Qed.

(** Without pending files there may be any candidate. *)
Lemma holds_candidate_change id h p cand cand' d : no_pending d -> candidate_ok id h cand' d ->
  holds id h p cand d -> holds id h p cand' d.
Proof.
  intros Hn Hc Hh. apply (holds_change _ _ _ _ _ _ _ _ Hh); [by left|done| |apply Hh|apply Hh|done].
  intros name f k Ek E. by rewrite (Hn _ _ E) in Ek.
Qed.

Lemma no_pending_payload d g : no_pending d -> (forall n, n <> payloadFileName -> g !! n = d !! n) -> no_pending g.
Proof.
  intros Hn Hg name f E. destruct (decide (name = payloadFileName)) as [->|N]; [done|]. rewrite Hg in E by done. by eapply Hn.
Qed.

Lemma holds_payload_change id h p p' d g : no_pending d ->
  (forall n, n <> payloadFileName -> g !! n = d !! n) ->
  payload_holds (state (last_state h)) p' g -> holds id h p None d -> holds id h p' None g.
Proof.
  intros Hn Hg Hp Hh. apply (holds_change _ _ _ _ _ _ _ _ Hh); [| | | |done|done].
  - intros name f E. destruct (decide (name = payloadFileName)) as [->|N]; [by auto|]. rewrite Hg in E by done. by left.
  - intros k. apply Hg. apply not_eq_sym, payload_state_name.
  - intros name f k Ek E. by rewrite (Hn _ _ E) in Ek.
  - apply one_complete_none. by eapply no_pending_payload.
Qed.

(** ** The candidate becomes the last record *)

Definition extend (h : history) (c : loadedSession) : history :=
  {| h_first := h_first h; h_last := h_last h + 1; h_at := fun k => if k =? h_last h + 1 then c else h_at h k |}.

Lemma extend_last h c : last_state (extend h c) = c.
Proof. unfold last_state, extend. simpl. by rewrite Z.eqb_refl. Qed.

Lemma extend_old h c k : k <= h_last h -> h_at (extend h c) k = h_at h k.
Proof. intros L. simpl. destruct (Z.eqb_spec k (h_last h + 1)); [lia|done]. Qed.

Lemma extend_ok id h c : history_ok id h -> session_ok id (h_last h + 1) c -> h_last h + 1 <= maxUint64 ->
  linked (last_state h) c -> history_ok id (extend h c).
Proof.
  intros Hh Hc Hm Hl. pose proof (history_range _ _ Hh) as [R1 R2]. split.
  - simpl. lia.
  - intros k Hk. cbn [h_first h_last extend] in Hk. destruct (Z.eq_dec k (h_last h + 1)) as [->|N].
    + fold (last_state (extend h c)). simpl. by rewrite Z.eqb_refl.
    + rewrite extend_old by lia. apply (history_states _ _ Hh). lia.
  - intros k Hk. cbn [h_first h_last extend] in Hk. rewrite extend_old by lia. destruct (Z.eq_dec k (h_last h)) as [->|N].
    + simpl. by rewrite Z.eqb_refl.
    + rewrite extend_old by lia. apply (history_linked _ _ Hh). lia.
Qed.

Lemma holds_publish id h p c pc d name f :
  holds id h p (Some (c, pc)) d -> d !! name = Some f -> parsePendingStateName name = Some (h_last h + 1) ->
  durable (raw c) f ->
  holds id (extend h c) pc None (<[stateFileName (h_last h + 1) := f]> (delete name d)).
Proof.
  intros Hh E Ek Hf. destruct (holds_candidate _ _ _ _ _ Hh c pc eq_refl) as (Hc & Hm & Hl & Hpay).
  pose proof (history_range _ _ (holds_history _ _ _ _ _ Hh)) as [R1 R2].
  assert (Hne : forall j, name <> stateFileName j) by (intros j; by eapply pending_state_name).
  assert (Hlook : forall k, revision_ok k -> k <> h_last h + 1 ->
    <[stateFileName (h_last h + 1) := f]> (delete name d) !! stateFileName k = d !! stateFileName k).
  { intros k Hk N. rewrite lookup_insert_ne.
    - apply lookup_delete_ne, Hne.
    - intros E'. apply N. symmetry. apply state_name_inj; [split; lia|done|done]. }
  assert (Ep : <[stateFileName (h_last h + 1) := f]> (delete name d) !! payloadFileName = d !! payloadFileName).
  { rewrite lookup_insert_ne by (apply not_eq_sym, payload_state_name). apply lookup_delete_ne. by eapply pending_payload_name. }
  split.
  - apply extend_ok; [apply Hh|done..].
  - intros k Hk. cbn [h_first h_last extend] in Hk. destruct (Z.eq_dec k (h_last h + 1)) as [->|N].
    + exists f. rewrite lookup_insert_eq. split; [done|]. simpl. by rewrite Z.eqb_refl.
    + rewrite extend_old by lia. rewrite Hlook by (try split; lia). apply (holds_states _ _ _ _ _ Hh). lia.
  - intros k Hk Hn. cbn [h_first h_last extend] in Hn. rewrite Hlook by (done || lia).
    apply (holds_no_states _ _ _ _ _ Hh); [done|lia].
  - intros n g Eg. destruct (decide (n = stateFileName (h_last h + 1))) as [->|N].
    + right; left. exists (h_last h + 1). apply parse_state_name. split; lia.
    + rewrite lookup_insert_ne in Eg by done. apply lookup_delete_Some in Eg as [_ Eg]. by eapply holds_entries.
  - intros n g k En Eg.
    rewrite lookup_insert_ne in Eg by (intros E'; by eapply (pending_state_name n k)).
    apply lookup_delete_Some in Eg as [Ne Eg].
    destruct (holds_pending _ _ _ _ _ Hh n g k En Eg) as (H1 & H2 & H3). split; [done|]. split; [done|]. left.
    destruct (decide (parseStateFile g = Err IOError)) as [|Hg]; [done|]. destruct Ne.
    apply (holds_one _ _ _ _ _ Hh name n f g _ _ Ek En E Eg); [|done]. destruct Hf as (F1 & F2 & _).
    by rewrite (parse_state _ _ _ _ Hc F1 F2).
  - apply (one_complete_less d); [apply Hh|]. intros n g k En Eg.
    rewrite lookup_insert_ne in Eg by (intros E'; by eapply (pending_state_name n k)).
    by apply lookup_delete_Some in Eg as [_ Eg].
  - rewrite extend_last. by eapply payload_same.
  - done.
Qed.

(** ** The oldest state file is removed *)

Definition drop_first (h : history) : history := {| h_first := h_first h + 1; h_last := h_last h; h_at := h_at h |}.

Lemma drop_first_last h : last_state (drop_first h) = last_state h.
Proof. done. Qed.

Lemma holds_drop_first id h p d : h_first h < h_last h -> holds id h p None d ->
  holds id (drop_first h) p None (delete (stateFileName (h_first h)) d).
Proof.
  intros L Hh. pose proof (history_range _ _ (holds_history _ _ _ _ _ Hh)) as [R1 R2].
  assert (Ep : delete (stateFileName (h_first h)) d !! payloadFileName = d !! payloadFileName).
  { apply lookup_delete_ne, not_eq_sym, payload_state_name. }
  assert (El : forall k, revision_ok k -> k <> h_first h ->
    delete (stateFileName (h_first h)) d !! stateFileName k = d !! stateFileName k).
  { intros k Hk N. apply lookup_delete_ne. intros E. apply N. symmetry. apply state_name_inj; [split; lia|done|done]. }
  split.
  - pose proof (holds_history _ _ _ _ _ Hh) as Ho. split; cbn [h_first h_last h_at drop_first].
    + lia.
    + intros k Hk. apply (history_states _ _ Ho). lia.
    + intros k Hk. apply (history_linked _ _ Ho). lia.
  - intros k Hk. cbn [h_first h_last h_at drop_first] in *. rewrite El by (try split; lia).
    apply (holds_states _ _ _ _ _ Hh). lia.
  - intros k Hk Hn. cbn [h_first h_last drop_first] in Hn. destruct (Z.eq_dec k (h_first h)) as [->|N].
    + apply lookup_delete_eq.
    + rewrite El by done. apply (holds_no_states _ _ _ _ _ Hh); [done|lia].
  - intros n f E. apply lookup_delete_Some in E as [_ E]. by eapply holds_entries.
  - intros n f k Ek E. apply lookup_delete_Some in E as [_ E]. by eapply (holds_pending _ _ _ _ _ Hh).
  - apply (one_complete_less d); [apply Hh|]. intros n f k _ E. by apply lookup_delete_Some in E as [_ E].
  - eapply payload_same; [exact Ep|apply Hh].
  - done.
Qed.

End Invariant.
#[export] Hint Resolve Inv_settle Rec_settle : core.

End UploadInvariant.
