(* ===== verification/UploadRecovery.v ===== *)
(** * Publishing, compacting and recovering upload sessions

    The programs of UploadFiles against the invariant of UploadInvariant, with a failing operation and
    crashes of the machine: what they return, and that the directory always holds the old record or its
    successor. *)

From Stdlib Require Import Ascii.
From stdpp Require Import sorting.
From S2P Require Import Prelude GoStrings GoPath GoFormat Sha256 FileMonad UploadTypes UploadFiles UploadNames.
From S2P Require Import UploadInvariant.
Import UploadTypes UploadFiles UploadNames UploadInvariant.

Module UploadRecovery.

(** A result, and an error: it comes from a failing operation, or from the condition [X]. *)
Definition out {A} (X : Prop) (m : mode) (Q : A -> dir -> Prop) (E : dir -> Prop)
    (m' : mode) (r : result UploadError A) (d : dir) : Prop :=
  match r with Ok a => Q a d | Err _ => (failed m m' \/ X) /\ E d end.

Lemma triple_out_weaken {A} (X X' : Prop) m m0 P (c : prog (result UploadError A)) Q Q' (E E' : dir -> Prop) C :
  triple m P c (out X' m Q' E') C -> mode_le m m0 -> (X' -> X) -> (forall a d, Q' a d -> Q a d) ->
  (forall d, E' d -> E d) -> triple m P c (out X m0 Q E) C.
Proof.
  intros Hc Hm HX HQ HE. apply (triple_weaken _ _ _ _ _ _ _ _ Hc); [done| |done].
  intros m' [a|e] d; simpl; [by apply HQ|]. intros [Hf He]. split; [|by apply HE].
  destruct Hf as [Hf|Hf]; [left; by eapply failed_le_l|right; by apply HX].
Qed.

Lemma triple_out_mode {A} (X : Prop) m m0 P (c : prog (result UploadError A)) Q (E : dir -> Prop) C :
  triple m P c (out X m Q E) C -> mode_le m m0 -> triple m P c (out X m0 Q E) C.
Proof. intros Hc Hm. by apply (triple_out_weaken X X _ _ _ _ _ _ _ _ _ Hc). Qed.

Lemma triple_try {A B} (X : Prop) m P (c : prog (result UploadError A)) (k : A -> prog (result UploadError B)) Q R (E F : dir -> Prop) C :
  triple m P c (out X m Q E) C ->
  (forall m' a, mode_le m' m -> triple m' (Q a) (k a) (out X m' R F) C) ->
  (forall d, E d -> F d) ->
  triple m P (try! x := c in k x) (out X m R F) C.
Proof.
  intros Hc Hk HE. eapply triple_bind; [exact Hc|]. intros m' [a|e] Hm.
  - apply (triple_out_weaken X X _ _ _ _ R _ F _ _ (Hk m' a Hm) Hm); auto.
  - apply triple_ret. intros d [Hf He]. split; [done|by apply HE].
Qed.

Lemma triple_or_error {A} (X : Prop) m P (e : UploadError) (c : prog (result FileError A)) (Q : A -> dir -> Prop) (E : dir -> Prop) C :
  triple m P c (fun m' r d => match r with Ok a => m' = m /\ Q a d | Err _ => failed m m' /\ E d end) C ->
  triple m P (or_error e c) (out X m Q E) C.
Proof.
  intros Hc. eapply triple_bind; [exact Hc|]. intros m' [a|e'] _; apply triple_ret; intros d.
  - by intros [_ HQ].
  - intros [Hf HE]. split; [by left|done].
Qed.

Lemma triple_pre {D A} m (P P' : D -> Prop) (c : program D A) Q C :
  triple m P' c Q C -> (forall d, P d -> P' d) -> triple m P c Q C.
Proof. intros Hc HP. by apply (triple_weaken _ _ _ _ _ _ _ _ Hc). Qed.

Section Recovery.
Context `{StateCodec}.
Implicit Types (s c : loadedSession) (d : dir) (id p : string) (cand : option (loadedSession * string)).

(** ** At rest *)

(** The last record is [s], there are no pending files, and of the payload [F] holds. *)
Definition clean (F : option file -> Prop) id s p d : Prop :=
  exists h, holds id h p None d /\ last_state h = s /\ no_pending d /\ F (d !! payloadFileName).

Lemma clean_rec F id s p d : clean F id s p d -> Rec id s p None d.
Proof. intros (h & Hh & E & _). left. by eapply holds_Inv. Qed.

(** ** Publishing *)

Section Publish.
Variables (F : option file -> Prop) (id : string) (h : history) (p : string) (c : loadedSession) (pc : string) (bytes identity : string).
Hypothesis bytes_length : String.length bytes = 16%nat.
Let cand := Some (c, pc).
Let s := last_state h.
Let pn := pendingStateFileName (Revision (state c)) (Sha256.EncodeToString bytes).

Definition ready (d : dir) : Prop := holds id h p (Some (c, pc)) d /\ no_pending d /\ F (d !! payloadFileName).
(** The pending file is being written. *)
Definition writing (B : file -> Prop) (d : dir) : Prop :=
  exists d0 f, ready d0 /\ d = <[pn := f]> d0 /\ f_regular f = true /\ B f.
Definition part (f : file) : Prop := exists n, f_bytes f = str_take n (raw c).

Lemma ready_candidate d : ready d -> session_ok id (h_last h + 1) c /\ revision_ok (h_last h + 1).
Proof.
  intros [Hh _]. destruct (holds_candidate _ _ _ _ _ Hh c pc eq_refl) as (Hc & Hm & _).
  pose proof (last_revision_ok _ _ _ _ _ Hh) as [? ?]. split; [done|]. split; lia.
Qed.

Lemma pn_pending d : ready d -> parsePendingStateName pn = Some (h_last h + 1).
Proof.
  intros Hd. destruct (ready_candidate d Hd) as [Hc Hk]. unfold pn. rewrite (session_revision_ok _ _ _ Hc).
  by apply parse_pending_name.
Qed.

Lemma pn_fresh d : ready d -> d !! pn = None.
Proof. intros Hd. destruct (d !! pn) eqn:E; [|done]. pose proof (pn_pending d Hd) as Hk. by rewrite (proj1 (proj2 Hd) _ _ E) in Hk. Qed.

Lemma part_pending_ok d f : ready d -> f_regular f = true -> f_synced f = String.length (f_bytes f) -> part f ->
  pending_ok (Some c) (h_last h + 1) f.
Proof.
  intros Hd Hr Hs [n Hb]. destruct (ready_candidate d Hd) as [Hc _]. split; [done|]. split; [done|].
  destruct (decide (n < String.length (raw c))%nat) as [L|L].
  - left. destruct Hc as (He & _ & Hv & _). by eapply parse_torn.
  - right. exists c. split; [done|]. split; [by rewrite (session_revision_ok _ _ _ Hc)|].
    by rewrite Hb, str_take_all by lia.
Qed.

Lemma ready_settle n d : ready d -> holds id h p (Some (c, pc)) (settle n d) /\ no_pending (settle n d).
Proof.
  intros (Hh & Hn & _). split; [by apply holds_settle|]. intros name f E. apply settle_lookup_inv in E as (g & E & _). by eapply Hn.
Qed.

Lemma ready_rec d : ready d -> Rec id s p cand d.
Proof. intros [Hh _]. left. by eapply holds_Inv. Qed.

Lemma writing_settle n d : writing part d -> Rec id s p cand (settle n d).
Proof.
  intros (d0 & f & Hd & -> & Hr & k & Hb). left. exists h, (Some (c, pc)). split; [|auto]. unfold settle, dir_crash. rewrite fmap_insert.
  pose proof (ready_settle n d0 Hd) as [Hh Hn].
  apply (holds_add_pending _ _ _ _ _ _ (h_last h + 1)); [by apply (pn_pending d0)| |done|done].
  apply (part_pending_ok d0); [done|done|done|]. unfold settle_file, part. simpl. rewrite Hb, str_take_take. by eexists.
Qed.

Lemma writing_ready d : writing part d -> ready (delete pn d).
Proof.
  intros (d0 & f & Hd & -> & _). rewrite delete_insert_id; [done|]. by apply pn_fresh.
Qed.

(** The deferred removal of the pending file, after a failure. *)
Lemma cleanup_out (Q : unit -> dir -> Prop) X m m' e : failed m m' -> triple m' (writing part) (run! _ := remove pn in ret (@Err UploadError unit e))
  (out X m Q (Rec id s p cand)) (Rec id s p cand).
Proof.
  intros [-> ->]. eapply triple_bind.
  - apply (triple_remove Crashing (writing part) ready).
    + intros d (d0 & f & _ & -> & Hr & _). exists f. by rewrite lookup_insert_eq.
    + apply writing_ready.
    + intros d n. apply writing_settle.
  - intros m' [a|e'] _; apply triple_ret; intros d.
    + intros [-> Hd]. split; [by left; split|by apply ready_rec].
    + by intros [[E _] _].
Qed.

Lemma ready_create d identity' : ready d ->
  writing (fun f => f_bytes f = "") (<[pn := {| f_bytes := ""; f_synced := 0; f_identity := identity'; f_kind := Regular0600 |}]> d).
Proof. intros Hd. eexists d, _. split; [done|]. split; [done|]. by split. Qed.

Lemma writing_weaken B B' d : (forall f, B f -> B' f) -> writing B d -> writing B' d.
Proof. intros HB (d0 & f & Hd & -> & Hr & Hb). exists d0, f. split; [done|]. split; [done|]. split; [done|]. by apply HB. Qed.

Lemma empty_part f : f_bytes f = "" -> part f.
Proof. intros E. exists 0%nat. by rewrite str_take_0. Qed.
Lemma full_part f : f_bytes f = raw c -> part f.
Proof. intros E. exists (String.length (raw c)). by rewrite str_take_all by lia. Qed.
Lemma durable_part f : durable (raw c) f -> part f.
Proof. intros (_ & E & _). by apply full_part. Qed.
Hint Resolve empty_part full_part durable_part : core.

Lemma writing_put n d : writing (fun f => f_bytes f = "") d ->
  writing (fun f => f_bytes f = str_take n (raw c)) (put_bytes pn 0 (str_take n (raw c)) d).
Proof.
  intros (d0 & f & Hd & -> & Hr & Hb). unfold put_bytes. rewrite lookup_insert_eq, insert_insert_eq.
  eexists d0, _. split; [done|]. split; [done|]. split; [done|]. cbn [f_bytes with_bytes]. rewrite Hb.
  by apply (splice_end "").
Qed.

Lemma writing_sync d : writing (fun f => f_bytes f = raw c) d -> writing (durable (raw c)) (fst (sync_ok pn d)).
Proof.
  intros (d0 & f & Hd & -> & Hr & Hb). unfold sync_ok. simpl. rewrite lookup_insert_eq, insert_insert_eq.
  eexists d0, _. split; [done|]. split; [done|]. split; [done|]. unfold durable. simpl. by rewrite Hb.
Qed.

Definition published (d : dir) : Prop := clean F id c pc d.

Lemma writing_rename d : writing (durable (raw c)) d -> forall f, d !! pn = Some f ->
  published (<[stateFileName (Revision (state c)) := f]> (delete pn d)).
Proof.
  intros (d0 & f & Hd & -> & Hr & Hb) f'. rewrite lookup_insert_eq. intros [= <-].
  destruct (ready_candidate d0 Hd) as [Hc Hk]. rewrite (session_revision_ok _ _ _ Hc).
  assert (Hh : holds id h p (Some (c, pc)) (<[pn := f]> d0)).
  { apply (holds_add_pending _ _ _ _ _ _ (h_last h + 1)); [by apply (pn_pending d0)| |by apply Hd|by apply Hd].
    apply (part_pending_ok d0); [done|done| |by apply durable_part]. destruct Hb as (_ & -> & ->). done. }
  exists (extend h c). split; [|split; [apply extend_last|split]].
  - apply (holds_publish _ _ p); [done|by rewrite lookup_insert_eq|by apply (pn_pending d0)|done].
  - intros name g E. destruct (decide (name = stateFileName (h_last h + 1))) as [->|N]; [done|].
    rewrite lookup_insert_ne in E by done. rewrite delete_insert_id in E by (by apply pn_fresh). by eapply (proj1 (proj2 Hd)).
  - rewrite lookup_insert_ne by (apply not_eq_sym, payload_state_name).
    rewrite delete_insert_id by (by apply pn_fresh). apply Hd.
Qed.

Lemma published_rec d : published d -> Rec id s p cand d.
Proof. intros Hc. right. exists c, pc. split; [done|]. destruct Hc as (h' & Hh & E & _). by eapply holds_Inv. Qed.

Lemma publish_triple m :
  triple m ready (publishStateFile (Revision (state c)) (raw c) (Some bytes) identity)
    (out False m (fun _ => published) (Rec id s p cand)) (Rec id s p cand).
Proof.
  unfold publishStateFile. cbn [randomHex]. fold pn. cbv zeta.
  apply (triple_try False _ _ _ _ (fun _ => writing (fun f => f_bytes f = "")) _ (Rec id s p cand)); [| |done].
  { apply triple_or_error, triple_effect.
    - intros d Hd. unfold create_ok. rewrite (pn_fresh d Hd). simpl. split; [done|]. by apply ready_create.
    - intros -> d n Hd. split; [done|]. by apply ready_rec.
    - intros d n Hd. by apply Rec_settle, ready_rec. }
  intros m1 _ Hm1. eapply triple_bind.
  { apply (triple_change m1 _ (writing (fun f => f_bytes f = raw c)) (put_bytes pn 0 (raw c)) _ (writing part)).
    - intros d Hd. pose proof (writing_put (String.length (raw c)) d Hd) as Hw. by rewrite !str_take_all in Hw by lia.
    - intros d n Hd. apply (writing_weaken (fun f => f_bytes f = str_take n (raw c))); [by exists n|by apply writing_put].
    - intros d n Hd. apply writing_settle. eapply writing_weaken; [|exact Hd]. auto. }
  intros m2 [[]|e] Hm2.
  2:{ apply triple_pure. intros Hf. by apply cleanup_out. }
  apply triple_pure. intros ->. eapply triple_bind.
  { apply (triple_change m1 _ (writing (durable (raw c))) (fun d => fst (sync_ok pn d)) _ (writing part)).
    - apply writing_sync.
    - intros d n Hd. eapply writing_weaken; [|exact Hd]. auto.
    - intros d n Hd. apply writing_settle. eapply writing_weaken; [|exact Hd]. auto. }
  intros m2 [[]|e] _.
  2:{ apply triple_pure. intros Hf. by apply cleanup_out. }
  apply triple_pure. intros ->. eapply triple_bind.
  { apply (triple_rename m1 _ published).
    - intros d (d0 & f & _ & -> & _). exists f. by rewrite lookup_insert_eq.
    - intros d f Hd E. by apply (writing_rename d).
    - intros d n Hd. apply writing_settle. eapply writing_weaken; [|exact Hd]. auto. }
  intros m2 [[]|e] _.
  2:{ apply triple_pure. intros Hf. eapply triple_pre; [by apply cleanup_out|].
      intros d Hd. eapply writing_weaken; [|exact Hd]. auto. }
  apply triple_pure. intros ->. apply triple_or_error. eapply triple_weaken; [apply triple_sync_dir|done| |done].
  - intros d n Hd. by apply Rec_settle, published_rec.
  - intros m' [[]|e] d [Hd Hm]; [done|]. split; [done|by apply published_rec].
Qed.
End Publish.

(** ** Compacting *)

Section Compact.
Variables (id p : string) (s : loadedSession) (F : option file -> Prop).

(** The history begins at [k]. *)
Definition from (k : Z) (d : dir) : Prop :=
  exists h, holds id h p None d /\ last_state h = s /\ no_pending d /\ F (d !! payloadFileName) /\ h_first h = k /\ h_last h = Revision (state s).

Lemma from_clean k d : from k d -> clean F id s p d.
Proof. intros (h & ? & ? & ? & ? & _). by exists h. Qed.

Lemma from_rec k d n : from k d -> Rec id s p None (settle n d).
Proof. intros (h & Hh & E & _). apply Rec_settle. left. by eapply holds_Inv. Qed.

Lemma from_drop k d : k < Revision (state s) -> from k d -> from (k + 1) (delete (stateFileName k) d).
Proof.
  intros L (h & Hh & E & Hn & HF & <- & El). exists (drop_first h). split; [apply holds_drop_first; [lia|done]|].
  split; [done|]. split; [|by rewrite lookup_delete_ne by (apply not_eq_sym, payload_state_name)].
  intros n f En. apply lookup_delete_Some in En as [_ En]. by eapply Hn.
Qed.

Lemma from_first k d : from k d -> k <= Revision (state s) -> exists f, d !! stateFileName k = Some f /\ f_regular f = true.
Proof.
  intros (h & Hh & E & _ & _ & <- & El) L. destruct (holds_states _ _ _ _ _ Hh (h_first h)) as (f & Ef & Hf & _); [lia|by exists f].
Qed.

(** The oldest first: the chain has no gap after any of the removals. *)
Lemma removeStale_triple n k m X : k + Z.of_nat n <= Revision (state s) ->
  triple m (from k) (removeStale ((fun j => (j, stateFileName j)) <$> seqZ k (Z.of_nat n)))
    (out X m (fun _ d => clean F id s p d) (clean F id s p)) (Rec id s p None).
Proof.
  revert k m. induction n as [|n IH]; intros k m L.
  { apply triple_ret. intros d. apply from_clean. }
  rewrite seqZ_cons by lia. replace (Z.succ k) with (k + 1) by lia. replace (Z.pred (Z.of_nat (S n))) with (Z.of_nat n) by lia.
  rewrite fmap_cons. cbn [removeStale].
  apply (triple_try _ _ _ _ _ (fun _ => from (k + 1)) _ (from k)); [| |apply from_clean].
  { apply triple_or_error. eapply triple_weaken; [apply (triple_remove m (from k) (from (k + 1)))|done| |done].
    - intros d Hd. apply (from_first k); [done|lia].
    - intros d Hd. apply from_drop; [lia|done].
    - intros d j. apply from_rec.
    - by intros m' [a|e] d. }
  intros m1 _ Hm1. apply (triple_try _ _ _ _ _ (fun _ => from (k + 1)) _ (from (k + 1))); [| |apply from_clean].
  { apply triple_or_error. eapply triple_weaken; [apply triple_sync_dir; intros d j; apply from_rec|done| |done].
    by intros m' [a|e] d [? ?]. }
  intros m2 _ Hm2. apply IH. lia.
Qed.

(** The stale revisions in their order. *)
Lemma stale_sorted (l : list (Z * string)) k n :
  StronglySorted stale_le l -> NoDup l.*1 ->
  (forall j name, (j, name) ∈ l <-> name = stateFileName j /\ k <= j < k + Z.of_nat n) ->
  l = (fun j => (j, stateFileName j)) <$> seqZ k (Z.of_nat n).
Proof.
  revert k n. induction l as [|[j name] l IH]; intros k n Hs Hd Hl.
  { destruct n as [|n]; [done|]. exfalso. eapply not_elem_of_nil, (Hl k (stateFileName k)). split; [done|lia]. }
  inversion_clear Hs as [|? ? Hs' Hmin]. inversion_clear Hd as [|? ? Hnin Hd'].
  destruct (proj1 (Hl j name)) as [-> Hj]; [by left|].
  assert (j = k) as ->.
  { assert (Hk : (k, stateFileName k) ∈ (j, stateFileName j) :: l) by (apply Hl; split; [done|lia]).
    apply elem_of_cons in Hk as [[= ->]|Hk]; [done|]. rewrite Forall_forall in Hmin. specialize (Hmin _ Hk).
    unfold stale_le in Hmin. simpl in Hmin. lia. }
  destruct n as [|n]; [lia|]. rewrite seqZ_cons by lia. rewrite fmap_cons. f_equal.
  replace (Z.succ k) with (k + 1) by lia. replace (Z.pred (Z.of_nat (S n))) with (Z.of_nat n) by lia.
  apply IH; [done|done|]. intros i nm. split.
  - intros Hi. destruct (proj1 (Hl i nm)) as [-> Hr]; [by right|]. split; [done|].
    assert (i <> k); [|lia]. intros ->. apply Hnin. change k with (fst (k, stateFileName k)). apply list_elem_of_fmap. by eexists.
  - intros [-> Hr]. assert (Hi : (i, stateFileName i) ∈ (k, stateFileName k) :: l) by (apply Hl; split; [done|lia]).
    apply elem_of_cons in Hi as [[= ->]|Hi]; [lia|done].
Qed.
#[local] Instance stale_le_total : Total stale_le.
Proof. intros a b. unfold stale_le. lia. Qed.
#[local] Instance stale_le_trans : Transitive stale_le.
Proof. intros a b c. unfold stale_le. lia. Qed.

Lemma stale_elem keepFrom (l : list (string * file)) j name : (j, name) ∈ fst <$> staleFiles keepFrom l <->
  name ∈ l.*1 /\ parseStateFileName name = Some j /\ j < keepFrom.
Proof.
  induction l as [|[n f] l IH].
  - split; [by intros E%elem_of_nil|by intros [E%elem_of_nil _]].
  - rewrite fmap_cons, elem_of_cons. simpl fst. unfold staleFiles in *. simpl.
    destruct (parseStateFileName n) as [k|] eqn:Ek; [destruct (k <? keepFrom) eqn:Lk|].
    + rewrite fmap_cons, elem_of_cons, IH. simpl. apply Z.ltb_lt in Lk. split.
      * intros [[= -> ->]|(? & ? & ?)]; auto.
      * intros [[->|?] [Hp ?]]; [left; congruence|auto].
    + rewrite IH. apply Z.ltb_ge in Lk. split; [intros (? & ? & ?); auto|].
      intros [[->|?] [Hp ?]]; [rewrite Hp in Ek; injection Ek as <-; lia|done].
    + rewrite IH. split; [intros (? & ? & ?); auto|]. intros [[->|?] [Hp ?]]; [congruence|done].
Qed.

Lemma stale_nodup keepFrom (l : list (string * file)) : NoDup l.*1 -> NoDup (fst <$> staleFiles keepFrom l).*1.
Proof.
  induction l as [|[n f] l IH]; intros Hd; [constructor|]. rewrite fmap_cons in Hd. inversion_clear Hd as [|? ? Hn Hd'].
  unfold staleFiles in *. simpl. destruct (parseStateFileName n) as [k|] eqn:Ek; [|by apply IH].
  destruct (k <? keepFrom); [|by apply IH]. rewrite !fmap_cons. constructor; [|by apply IH].
  simpl. intros Hi. apply list_elem_of_fmap in Hi as ([j nm] & Ej & Hi). simpl in Ej. subst j.
  apply (stale_elem keepFrom l) in Hi as (Hi & Ep & _). apply Hn.
  apply parse_state_name_inv in Ek as [-> _], Ep as [-> _]. done.
Qed.

Lemma from_stale k keepFrom d : from k d -> k <= keepFrom <= Revision (state s) ->
  merge_sort stale_le (fst <$> staleFiles keepFrom (map_to_list d)) =
  (fun j => (j, stateFileName j)) <$> seqZ k (Z.of_nat (Z.to_nat (keepFrom - k))).
Proof.
  intros (h & Hh & E & Hn & HF & <- & El) L.
  pose proof (history_range _ _ (holds_history _ _ _ _ _ Hh)) as [R1 R2].
  assert (HP : merge_sort stale_le (fst <$> staleFiles keepFrom (map_to_list d)) ≡ₚ fst <$> staleFiles keepFrom (map_to_list d))
    by apply merge_sort_Permutation.
  apply stale_sorted.
  - apply StronglySorted_merge_sort; apply _.
  - rewrite HP. apply stale_nodup, NoDup_fst_map_to_list.
  - intros j name. rewrite HP, stale_elem. split.
    + intros (Hin & Ep & Lj). apply parse_state_name_inv in Ep as [-> Hj]. split; [done|].
      apply list_elem_of_fmap in Hin as ([n f] & En & Hin). simpl in En. subst n. apply elem_of_map_to_list in Hin.
      destruct (decide (h_first h <= j <= h_last h)) as [Hr|Hr]; [lia|].
      by rewrite (holds_no_states _ _ _ _ _ Hh j Hj Hr) in Hin.
    + intros [-> Hj]. destruct (holds_states _ _ _ _ _ Hh j) as (f & Ef & _); [lia|].
      split; [|split; [apply parse_state_name; split; lia|lia]].
      apply list_elem_of_fmap. exists (stateFileName j, f). split; [done|]. by apply elem_of_map_to_list.
Qed.

Lemma stale_regular k keepFrom d : from k d -> existsb (fun '(_, f) => dir_or_link f) (staleFiles keepFrom (map_to_list d)) = false.
Proof.
  intros (h & Hh & _). apply not_true_iff_false. intros E. apply existsb_exists in E as ([[j n] f] & Hin & Hf).
  apply list_elem_of_In in Hin. unfold staleFiles in Hin. apply list_elem_of_omap in Hin as ([n' f'] & Hin & Ep).
  destruct (parseStateFileName n') as [j'|] eqn:Ej; [|done]. destruct (j' <? keepFrom); [|done]. injection Ep as -> -> ->.
  apply elem_of_map_to_list in Hin. apply parse_state_name_inv in Ej as [-> Hj].
  destruct (decide (h_first h <= j <= h_last h)) as [Hr|Hr].
  - destruct (holds_states _ _ _ _ _ Hh j Hr) as (g & Eg & Hg & _). rewrite Hin in Eg. injection Eg as <-.
    unfold f_regular, dir_or_link in *. by destruct (f_kind f).
  - by rewrite (holds_no_states _ _ _ _ _ Hh j Hj Hr) in Hin.
Qed.

Lemma compact_triple m keepFrom X : 1 <= keepFrom <= Revision (state s) ->
  triple m (clean F id s p) (compactStateFiles keepFrom) (out X m (fun _ => clean F id s p) (clean F id s p)) (Rec id s p None).
Proof.
  intros L. unfold compactStateFiles. destruct (Z.eqb_spec keepFrom 0) as [->|_]; [lia|].
  apply (triple_try _ _ _ _ _ (fun l d => clean F id s p d /\ l = map_to_list d) _ (clean F id s p)); [| |done].
  { apply triple_or_error. eapply triple_weaken; [apply triple_read_dir|done| |done].
    - intros d n (h & Hh & E & _). apply Rec_settle. left. by eapply holds_Inv.
    - intros m' [a|e] d; tauto. }
  intros m' l _. intros w [(h & Hh & E & Hn & HF) ->] Hs.
  assert (Hfrom : from (h_first h) (io_dir w)).
  { exists h. split; [done|]. split; [done|]. split; [done|]. split; [done|]. split; [done|].
    rewrite <-E. symmetry. by apply (last_revision _ _ _ _ _ Hh). }
  rewrite (stale_regular (h_first h)) by done.
  destruct (decide (h_first h <= keepFrom)) as [Lk|Lk].
  - rewrite (from_stale (h_first h)) by (try done; lia). apply removeStale_triple; [lia|done|done].
  - assert (fst <$> staleFiles keepFrom (map_to_list (io_dir w)) = []) as ->.
    { destruct (fst <$> staleFiles keepFrom (map_to_list (io_dir w))) as [|[j n] l] eqn:El; [done|].
      assert (Hj : (j, n) ∈ fst <$> staleFiles keepFrom (map_to_list (io_dir w))) by (rewrite El; by left).
      apply stale_elem in Hj as (Hin & Ep & Lj). apply parse_state_name_inv in Ep as [-> Hj].
      apply list_elem_of_fmap in Hin as ([n f] & En & Hin). simpl in En. subst n. apply elem_of_map_to_list in Hin.
      rewrite (holds_no_states _ _ _ _ _ Hh j Hj) in Hin by lia. done. }
    apply (removeStale_triple 0 (h_first h)); [|done|done].
    destruct Hfrom as (h' & Hh' & E' & _ & _ & Ef & El). pose proof (history_range _ _ (holds_history _ _ _ _ _ Hh')) as [? ?]. lia.
Qed.
End Compact.

(** ** The next state *)

(** The record that [writeNextState] makes of [next]. *)
Definition successor (s : loadedSession) (next : diskState) : result UploadError loadedSession :=
  let next := link s next in
  if negb (validateDiskState next) then Err errInvalidState
  else match encodeState next with
  | Err e => Err e
  | Ok text => Ok {| state := next; raw := text; digest := digestBytes text |}
  end.

Lemma successor_state s next c : successor s next = Ok c -> state c = link s next /\ validateDiskState (state c) = true.
Proof.
  unfold successor. cbv zeta. destruct (validateDiskState _) eqn:E; [|done]. destruct (encodeState _); [|done]. by intros [= <-].
Qed.

Lemma writeNextState_successor s next entropy identity : writeNextState s next entropy identity =
  match successor s next with
  | Err e => ret (Err e)
  | Ok c =>
    try! _ := publishStateFile (Revision (state c)) (raw c) entropy identity in
    try! _ := compactStateFiles (Revision (state s)) in
    ret (Ok c)
  end.
Proof.
  unfold writeNextState, successor. cbv zeta. destruct (validateDiskState _); [|done]. cbn [negb].
  by destruct (encodeState _).
Qed.

Lemma valid_revision record : validateDiskState record = true -> Revision record <> 0.
Proof.
  intros Hv E. unfold validateDiskState in Hv. rewrite E in Hv. simpl (0 =? 0) in Hv. by rewrite !orb_true_r in Hv.
Qed.

Lemma successor_ok id k s next c : session_ok id k s -> 1 <= k <= maxUint64 -> ID next = id -> successor s next = Ok c ->
  session_ok id (k + 1) c /\ k + 1 <= maxUint64 /\ linked s c /\ state c = link s next.
Proof.
  intros Hs Hk Hid. unfold successor. cbv zeta. destruct (validateDiskState (link s next)) eqn:Hv; [|done]. cbn [negb].
  destruct (encodeState (link s next)) as [text|] eqn:He; [|done]. intros [= <-].
  pose proof (session_revision_ok _ _ _ Hs) as Hrev. pose proof (valid_revision _ Hv) as Hnz.
  unfold link in Hnz. cbn [Revision] in Hnz. rewrite Hrev in Hnz.
  assert (k + 1 <= maxUint64).
  { destruct (Z.eq_dec k maxUint64) as [->|]; [|lia]. by destruct Hnz. }
  assert (E : uint64 (k + 1) = k + 1) by (apply uint64_id; unfold in_uint64; lia).
  split; [|split; [done|split; [done|done]]]. split; [done|]. split; [done|]. split; [done|]. split; [done|].
  simpl. by rewrite Hrev, E.
Qed.

(** A program whose entropy source works, or not. *)
Lemma writeNext_triple m (F : option file -> Prop) id h p next c pc entropy identity :
  successor (last_state h) next = Ok c -> ID next = id -> (forall b, entropy = Some b -> String.length b = 16%nat) ->
  (forall d, F (d !! payloadFileName) -> payload_holds (state c) pc d) ->
  triple m (fun d => holds id h p None d /\ no_pending d /\ F (d !! payloadFileName))
    (writeNextState (last_state h) next entropy identity)
    (out (entropy = None) m (fun r d => r = c /\ clean F id c pc d) (Rec id (last_state h) p (Some (c, pc))))
    (Rec id (last_state h) p (Some (c, pc))).
Proof.
  intros Hc Hid Hent Hpay. rewrite writeNextState_successor, Hc.
  apply (triple_fact _ (session_ok id (h_last h) (last_state h) /\ 1 <= h_last h <= maxUint64)).
  { intros d (Hh & _). split; [by apply last_ok, Hh|]. pose proof (last_revision_ok _ _ _ _ _ Hh) as [? ?]. lia. }
  intros [Hs Hk]. destruct (successor_ok _ _ _ _ _ Hs Hk Hid Hc) as (Hok & Hm & Hl & _).
  destruct entropy as [bytes|].
  2:{ apply triple_ret. intros d (Hh & _). split; [by right|]. apply Rec_None. left. by eapply holds_Inv. }
  assert (Hready : forall d, holds id h p None d /\ no_pending d /\ F (d !! payloadFileName) -> ready F id h p c pc d).
  { intros d (Hh & Hn & HF). split; [|done]. apply (holds_candidate_change _ _ _ None); [done| |done].
    intros c' pc' [= <- <-]. auto. }
  apply (triple_try _ _ _ _ _ (fun _ => clean F id c pc) _ (Rec id (last_state h) p (Some (c, pc)))); [| |done].
  { eapply triple_pre; [|exact Hready]. eapply triple_out_weaken; [apply publish_triple; by apply Hent| |done|done|done]. done. }
  intros m1 u _.
  assert (Hcr : forall d, clean F id c pc d -> Rec id (last_state h) p (Some (c, pc)) d).
  { intros d (h' & Hh & E & _). right. exists c, pc. split; [done|]. by eapply holds_Inv. }
  eapply triple_try with (E := clean F id c pc); [| |done].
  { eapply triple_weaken; [apply (compact_triple id pc c F m1 (Revision (state (last_state h)))  (Some bytes = None))|done|intros ? ? ? Hq; exact Hq|].
    - rewrite (session_revision_ok _ _ _ Hs), (session_revision_ok _ _ _ Hok). lia.
    - intros d [Hi|(? & ? & ? & _)]; [|done]. right. by exists c, pc. }
  intros m2 u' _. by apply triple_ret.
Qed.

End Recovery.
End UploadRecovery.
