(* ===== verification/UploadLoad.v ===== *)
(** * Loading an upload session

    [loadSession] with its recovery: from any directory of the invariant it returns the last record or
    the complete successor that a crash left, with the payload cut back to what that record promises,
    unless a file operation fails. *)

From Stdlib Require Import Ascii.
From stdpp Require Import sorting.
From S2P Require Import Prelude GoStrings GoPath GoFormat Sha256 FileMonad UploadTypes UploadFiles UploadNames.
From S2P Require Import UploadInvariant UploadRecovery.
Import UploadTypes UploadFiles UploadNames UploadInvariant UploadRecovery.

Module UploadLoad.

Section Load.
Context `{StateCodec}.
Implicit Types (s c : loadedSession) (d : dir) (id p : string) (cand : option (loadedSession * string)).

(** ** Reading a state file *)

Lemma parse_cases f : parseStateFile f = Err IOError \/ exists text record, parseStateFile f = Ok (text, record).
Proof.
  unfold parseStateFile. destruct (_ || _); [by left|]. destruct (decode_json _) as [r|]; [|by left].
  destruct (encodeState r) as [t|e]; [|by left]. destruct (String.eqb _ _); [right; eauto|by left].
Qed.

Lemma readState_triple m P name C : (forall d n, P d -> C (settle n d)) ->
  triple m P (readStateFile name) (fun m' r d => P d /\ match r with
    | Ok (text, record) => m' = m /\ exists f, d !! name = Some f /\ parseStateFile f = Ok (text, record)
    | Err NotExist => m' = m /\ d !! name = None
    | Err _ => failed m m' \/ m' = m /\ exists f, d !! name = Some f /\ parseStateFile f = Err IOError
    end) C.
Proof.
  intros HC. eapply triple_bind; [by apply triple_stat|]. intros m' [f|e] Hm; apply triple_ret; intros d [HP Hr].
  - destruct Hr as [-> E]. split; [done|]. destruct (parse_cases f) as [Ep|(t & r & Ep)]; rewrite Ep.
    + right. split; [done|]. by exists f.
    + split; [done|]. by exists f.
  - split; [done|]. destruct e; by auto.
Qed.

(** ** Pending files *)

(** [entries] lists the pending files of the directory. *)
Record scan (entries : list (string * file)) (d : dir) : Prop := {
  scan_nodup : NoDup entries.*1;
  scan_present name f k : (name, f) ∈ entries -> parsePendingStateName name = Some k ->
    dir_or_link f = false /\ is_Some (d !! name);
  scan_complete name f k : d !! name = Some f -> parsePendingStateName name = Some k -> name ∈ entries.*1;
}.

Lemma scan_settle n entries d : scan entries d -> scan entries (settle n d).
Proof.
  intros [H1 H2 H3]. split; [done|..].
  - intros name f k Hin Ek. destruct (H2 name f k Hin Ek) as [? [g Eg]]. split; [done|]. rewrite settle_lookup, Eg. by eexists.
  - intros name f k E Ek. apply settle_lookup_inv in E as (g & E & _). by eapply H3.
Qed.

Lemma scan_nil d : scan [] d -> no_pending d.
Proof.
  intros [_ _ H3] name f E. destruct (parsePendingStateName name) as [k|] eqn:Ek; [|done].
  by apply (H3 name f k E) in Ek as ?%elem_of_nil.
Qed.

Lemma scan_skip name f entries d : parsePendingStateName name = None -> scan ((name, f) :: entries) d -> scan entries d.
Proof.
  intros En [H1 H2 H3]. rewrite fmap_cons in H1. inversion_clear H1 as [|? ? Hn Hd]. split; [done|..].
  - intros n g k Hin Ek. apply (H2 n g k); [by right|done].
  - intros n g k E Ek. specialize (H3 n g k E Ek). rewrite fmap_cons in H3. apply elem_of_cons in H3 as [->|H3]; [|done].
    simpl in Ek. by rewrite En in Ek.
Qed.

(** The first entry is dealt with; everything else that is pending stays. *)
Lemma scan_next name f entries d d' : scan ((name, f) :: entries) d -> d' !! name = None ->
  (forall n k, parsePendingStateName n = Some k -> n <> name -> d' !! n = d !! n) -> scan entries d'.
Proof.
  intros [H1 H2 H3] En Hd. rewrite fmap_cons in H1. inversion_clear H1 as [|? ? Hn Hnd]. split; [done|..].
  - intros n g k Hin Ek. rewrite (Hd n k Ek).
    + apply (H2 n g k); [by right|done].
    + intros ->. apply Hn, list_elem_of_fmap. by exists (name, g).
  - intros n g k E Ek. assert (N : n <> name) by congruence. rewrite (Hd n k Ek N) in E.
    specialize (H3 n g k E Ek). rewrite fmap_cons in H3. by apply elem_of_cons in H3 as [->|H3].
Qed.

Lemma scan_entries d : (forall name f k, d !! name = Some f -> parsePendingStateName name = Some k -> f_regular f = true) ->
  scan (map_to_list d) d.
Proof.
  intros Hr. split; [apply NoDup_fst_map_to_list|..].
  - intros name f k Hin Ek. apply elem_of_map_to_list in Hin. specialize (Hr name f k Hin Ek). split; [|by eexists].
    unfold f_regular, dir_or_link in *. by destruct (f_kind f).
  - intros name f k E _. apply list_elem_of_fmap. exists (name, f). split; [done|]. by apply elem_of_map_to_list.
Qed.

Definition scanning id h p cand (entries : list (string * file)) (d : dir) : Prop := holds id h p cand d /\ scan entries d.

Lemma scanning_rec id h p cand entries n d : scanning id h p cand entries d -> Rec id (last_state h) p cand (settle n d).
Proof. intros [Hh _]. apply Rec_settle. left. by eapply holds_Inv. Qed.

Lemma scanning_remove id h p cand name f k entries d : parsePendingStateName name = Some k ->
  scanning id h p cand ((name, f) :: entries) d -> scanning id h p cand entries (delete name d).
Proof.
  intros Ek [Hh Hs]. split; [by eapply holds_delete_pending|]. eapply scan_next; [exact Hs|by apply lookup_delete_eq|].
  intros n j _ N. by rewrite lookup_delete_ne by congruence.
Qed.

Lemma scanning_remove_triple id h p cand name f k entries m : parsePendingStateName name = Some k ->
  triple m (scanning id h p cand ((name, f) :: entries)) (or_error errIO (remove name))
    (out False m (fun _ => scanning id h p cand entries) (Rec id (last_state h) p cand)) (Rec id (last_state h) p cand).
Proof.
  intros Ek. apply triple_or_error. eapply triple_weaken;
    [apply (triple_remove m (scanning id h p cand ((name, f) :: entries)) (scanning id h p cand entries))|done| |done].
  - intros d [Hh Hs]. destruct (scan_present _ _ Hs name f k) as [_ [g Eg]]; [by left|done|]. exists g. split; [done|].
    by apply (holds_pending _ _ _ _ _ Hh name g k).
  - intros d. by apply scanning_remove with k.
  - intros d n. apply scanning_rec.
  - intros m' [a|e] d; [done|]. intros [? [Hh _]]. split; [done|]. left. by eapply holds_Inv.
Qed.

(** A complete pending file is the candidate. *)
Lemma scanning_complete id h p cand name f entries k d g text record : parsePendingStateName name = Some k ->
  scanning id h p cand ((name, f) :: entries) d -> d !! name = Some g -> parseStateFile g = Ok (text, record) ->
  exists c pc, cand = Some (c, pc) /\ session_ok id (h_last h + 1) c /\ k = h_last h + 1 /\ durable (raw c) g /\
    text = raw c /\ record = state c.
Proof.
  intros Ek [Hh Hs] Eg Ep. destruct (holds_pending _ _ _ _ _ Hh name g k Ek Eg) as (H1 & H2 & [H3|(c & Ec & Hk & Hb)]); [congruence|].
  destruct cand as [[c' pc]|]; [|done]. injection Ec as ->. exists c, pc. destruct (holds_candidate _ _ _ _ _ Hh c pc eq_refl) as (Hc & _).
  rewrite (parse_state _ _ _ _ Hc H1 Hb) in Ep. injection Ep as <- <-. rewrite (session_revision_ok _ _ _ Hc) in Hk.
  split; [done|]. split; [done|]. split; [done|]. split; [|done]. split; [done|]. split; [done|]. by rewrite H2, Hb.
Qed.

Lemma next_state_absent id h p c pc d : holds id h p (Some (c, pc)) d -> d !! stateFileName (h_last h + 1) = None.
Proof.
  intros Hh. destruct (holds_candidate _ _ _ _ _ Hh c pc eq_refl) as (_ & Hm & _).
  pose proof (last_revision_ok _ _ _ _ _ Hh) as [? ?]. apply (holds_no_states _ _ _ _ _ Hh); [split; lia|lia].
Qed.

Lemma scanning_publish id h p c pc name f entries d g : parsePendingStateName name = Some (h_last h + 1) ->
  scanning id h p (Some (c, pc)) ((name, f) :: entries) d -> d !! name = Some g -> durable (raw c) g ->
  scanning id (extend h c) pc None entries (<[stateFileName (h_last h + 1) := g]> (delete name d)).
Proof.
  intros Ek [Hh Hs] Eg Hg. split; [by eapply holds_publish|]. eapply scan_next; [exact Hs|..].
  - rewrite lookup_insert_ne by (apply not_eq_sym; by eapply pending_state_name). apply lookup_delete_eq.
  - intros n j Ej N. rewrite lookup_insert_ne by (apply not_eq_sym; by eapply pending_state_name).
    by rewrite lookup_delete_ne by congruence.
Qed.

Definition recovered id s p cand (_ : bool) (d : dir) : Prop := Rec id s p cand d /\ no_pending d.

Lemma Rec_promote id s p c pc d : Rec id c pc None d -> Rec id s p (Some (c, pc)) d.
Proof. intros [Hi|(c' & pc' & E & _)]; [|done]. right. by exists c, pc. Qed.

Lemma recoverPending_triple id entries changed m h p cand :
  triple m (scanning id h p cand entries) (recoverPending id entries changed)
    (out False m (recovered id (last_state h) p cand) (Rec id (last_state h) p cand)) (Rec id (last_state h) p cand).
Proof.
  revert changed m h p cand. induction entries as [|[name f] entries IH]; intros changed m h p cand.
  { apply triple_ret. intros d [Hh Hs]. split; [left; by eapply holds_Inv|by apply scan_nil]. }
  cbn [recoverPending]. destruct (parsePendingStateName name) as [k|] eqn:Ek.
  2:{ eapply triple_pre; [apply IH|]. intros d [Hh Hs]. split; [done|]. by eapply scan_skip. }
  assert (Hrest : forall m0 m' b, mode_le m0 m' -> triple m0 (scanning id h p cand ((name, f) :: entries))
    (try! _ := or_error errIO (remove name) in recoverPending id entries b)
    (out False m' (recovered id (last_state h) p cand) (Rec id (last_state h) p cand)) (Rec id (last_state h) p cand)).
  { intros m0 m' b Hm0. eapply triple_out_mode; [|exact Hm0].
    eapply triple_try; [by apply (scanning_remove_triple _ _ _ _ _ _ k)| |done]. intros m'' u _. apply IH. }
  apply (triple_fact _ (dir_or_link f = false)).
  { intros d [_ Hs]. eapply (scan_present _ _ Hs); [by left|done]. }
  intros ->. eapply triple_bind; [apply readState_triple; intros d n; apply scanning_rec|].
  intros m1 [[text record]|e] Hm1.
  2:{ eapply triple_pre; [by apply (Hrest m1 m)|]. tauto. }
  apply (triple_fact _ (m1 = m /\ exists c pc, cand = Some (c, pc) /\ session_ok id (h_last h + 1) c /\ k = h_last h + 1 /\
    text = raw c /\ record = state c)).
  { intros d (Hd & -> & g & Eg & Ep). split; [done|].
    destruct (scanning_complete _ _ _ _ _ _ _ _ _ _ _ _ Ek Hd Eg Ep) as (c & pc & ? & ? & ? & ? & ? & ?). by exists c, pc. }
  intros (-> & c & pc & -> & Hc & -> & -> & ->).
  set (P := fun d => scanning id h p (Some (c, pc)) ((name, f) :: entries) d /\ exists g, d !! name = Some g /\ durable (raw c) g).
  assert (HP : forall d n, P d -> Rec id (last_state h) p (Some (c, pc)) (settle n d)).
  { intros d n [Hd _]. by eapply scanning_rec. }
  rewrite (session_id _ _ _ Hc), (session_revision_ok _ _ _ Hc), String.eqb_refl, Z.eqb_refl. cbn [negb orb].
  eapply triple_pre; [eapply triple_bind; [apply (readState_triple m P); exact HP|]|].
  2:{ intros d (Hd & _ & g & Eg & Ep). split; [done|]. exists g. split; [done|].
      by destruct (scanning_complete _ _ _ _ _ _ _ _ _ _ _ _ Ek Hd Eg Ep) as (c' & ? & [= <- <-] & _ & _ & ? & _). }
  intros m2 [[finalRaw final]|e] Hm2.
  { apply (triple_fact _ False); [|done]. intros d ([[Hh _] _] & _ & g & Eg & _). by rewrite (next_state_absent _ _ _ _ _ _ Hh) in Eg. }
  assert (Hfail : forall e', triple m2 (fun d => P d /\ (failed m m2 \/ m2 = m /\ exists g, d !! stateFileName (h_last h + 1) = Some g /\ parseStateFile g = Err IOError))
    (ret (Err e')) (out False m (recovered id (last_state h) p (Some (c, pc))) (Rec id (last_state h) p (Some (c, pc)))) (Rec id (last_state h) p (Some (c, pc)))).
  { intros e'. apply triple_ret. intros d ([[Hh _] _] & [Hf|(_ & g & Eg & _)]); [|by rewrite (next_state_absent _ _ _ _ _ _ Hh) in Eg].
    split; [by left|]. left. by eapply holds_Inv. }
  destruct e; [|apply Hfail..].
  eapply triple_pre; [|intros d (Hd & _ & _); exact Hd].
  eapply triple_out_mode; [|exact Hm2].
  apply (triple_try _ _ _ _ _ (fun _ => scanning id (extend h c) pc None entries) _ (Rec id (last_state h) p (Some (c, pc)))); [| |done].
  - apply triple_or_error. eapply triple_weaken; [apply (triple_rename m2 P (scanning id (extend h c) pc None entries))|done| |done].
    + intros d (_ & g & Eg & _). by exists g.
    + intros d g (Hd & g' & Eg' & Hg') Eg. rewrite Eg in Eg'. injection Eg' as <-. by eapply scanning_publish.
    + done.
    + intros m' [a|e] d; [done|]. intros [? [[Hh _] _]]. split; [done|]. left. by eapply holds_Inv.
  - intros m3 _ _. eapply triple_weaken; [apply IH|done| |].
    + rewrite extend_last. intros m' [b|e] d; simpl.
      * intros [Hr Hn]. split; [by apply Rec_promote|done].
      * intros [Hf Hr]. split; [done|by apply Rec_promote].
    + rewrite extend_last. intros d. apply Rec_promote.
Qed.

(** ** After the pending files *)

(** The record that a load returns. *)
Definition chosen s p cand s' p' : Prop := (s' = s /\ p' = p) \/ cand = Some (s', p').

Lemma chosen_rec id s p cand s' p' d : chosen s p cand s' p' -> Rec id s' p' None d -> Rec id s p cand d.
Proof. intros [[-> ->]| ->]; [apply Rec_None|apply Rec_promote]. Qed.

Lemma recovered_clean id s p cand b d : recovered id s p cand b d ->
  exists s' p', chosen s p cand s' p' /\ clean (fun _ => True) id s' p' d.
Proof.
  intros [[(h & cand' & Hh & E & _)|(c & pc & E & h & cand' & Hh & El & _)] Hn].
  - exists s, p. split; [by left|]. exists h. split; [by eapply holds_candidate_change|done].
  - exists c, pc. split; [by right|]. exists h. split; [by eapply holds_candidate_change|done].
Qed.

Lemma recover_inv_triple id s p cand (l : list (string * file)) m :
  triple m (fun d => Inv id s p cand d /\ l = map_to_list d) (recoverPending id l false)
    (out False m (recovered id s p cand) (Rec id s p cand)) (Rec id s p cand).
Proof.
  intros w [(h & cand' & Hh & <- & Hc) ->] Hs.
  pose proof (recoverPending_triple id (map_to_list (io_dir w)) false m h p cand' w) as Ht.
  assert (Hw : forall d, Rec id (last_state h) p cand' d -> Rec id (last_state h) p cand d).
  { intros d. destruct Hc as [-> | ->]; [done|apply Rec_None]. }
  destruct (recoverPending id (map_to_list (io_dir w)) false w) as [w' [r|]].
  - destruct Ht as (m' & Hm & Hs' & Hq); [|done|].
    + split; [done|]. apply scan_entries. intros name f k E Ek. by apply (holds_pending _ _ _ _ _ Hh name f k).
    + exists m'. split; [done|]. split; [done|]. destruct r as [b|e]; simpl in *.
      * destruct Hq as [? ?]. split; [by apply Hw|done].
      * destruct Hq as [? ?]. split; [done|by apply Hw].
  - destruct Ht as [Hm HC]; [|done|split; [done|by apply Hw]].
    split; [done|]. apply scan_entries. intros name f k E Ek. by apply (holds_pending _ _ _ _ _ Hh name f k).
Qed.

Lemma recoverPendingStates_triple id s p cand (l : list (string * file)) m :
  triple m (fun d => Rec id s p cand d /\ l = map_to_list d) (recoverPendingStates id l)
    (out False m (fun _ d => Rec id s p cand d /\ no_pending d) (Rec id s p cand)) (Rec id s p cand).
Proof.
  apply (triple_try _ _ _ _ _ (recovered id s p cand) _ (Rec id s p cand)); [| |done].
  - intros w [[Hi|(c & pc & -> & Hi)] ->] Hs.
    + by apply recover_inv_triple.
    + assert (Ht : triple m (fun d => Inv id c pc None d /\ map_to_list (io_dir w) = map_to_list d)
        (recoverPending id (map_to_list (io_dir w)) false)
        (out False m (recovered id s p (Some (c, pc))) (Rec id s p (Some (c, pc)))) (Rec id s p (Some (c, pc)))).
      { eapply triple_weaken; [apply (recover_inv_triple id c pc None)|done| |intros d; apply Rec_promote].
        intros m' [b|e] d; simpl.
        - intros [? ?]. split; [by apply Rec_promote|done].
        - intros [? ?]. split; [done|by apply Rec_promote]. }
      by apply Ht.
  - intros m' [|] _; [|by apply triple_ret; intros d [? ?]].
    apply triple_or_error. eapply triple_weaken; [apply triple_sync_dir|done| |done].
    + intros d n [Hr _]. by apply Rec_settle.
    + intros m'' [[]|e] d [[Hr Hn] Hm]; done.
Qed.

(** A complete pending file is never lost when no operation fails: the record in it becomes the last one. *)
Definition complete_pending (d : dir) : Prop :=
  exists name k f, parsePendingStateName name = Some k /\ d !! name = Some f /\ parseStateFile f <> Err IOError.

Lemma recoverPending_armed id entries changed h p c pc C :
  triple Reliable (fun d => scanning id h p (Some (c, pc)) entries d /\ complete_pending d) (recoverPending id entries changed)
    (fun _ r d => (exists b, r = Ok b) /\ Inv id c pc None d /\ no_pending d) C.
Proof.
  revert changed. induction entries as [|[name f] entries IH]; intros changed.
  { apply triple_ret. intros d [[_ Hs] (name & k & f & Ek & E & _)]. pose proof (scan_nil _ Hs name f E). congruence. }
  cbn [recoverPending]. destruct (parsePendingStateName name) as [k|] eqn:Ek.
  2:{ eapply triple_pre; [apply IH|]. intros d [[Hh Hs] Hc]. split; [|done]. split; [done|]. by eapply scan_skip. }
  apply (triple_fact _ (dir_or_link f = false)).
  { intros d [[_ Hs] _]. eapply (scan_present _ _ Hs); [by left|done]. }
  intros ->. set (P0 := fun d => scanning id h p (Some (c, pc)) ((name, f) :: entries) d /\ complete_pending d).
  eapply triple_reliable_bind; [apply (readState_triple Reliable P0 name (fun _ => True)); done|].
  intros [[text record]|e].
  - apply (triple_fact _ (session_ok id (h_last h + 1) c /\ k = h_last h + 1 /\ text = raw c /\ record = state c)).
    { intros d ([Hd _] & _ & g & Eg & Ep).
      by destruct (scanning_complete _ _ _ _ _ _ _ _ _ _ _ _ Ek Hd Eg Ep) as (c' & ? & [= <- <-] & ? & ? & _ & ? & ?). }
    intros (Hc & -> & -> & ->).
    set (P := fun d => scanning id h p (Some (c, pc)) ((name, f) :: entries) d /\ exists g, d !! name = Some g /\ durable (raw c) g).
    rewrite (session_id _ _ _ Hc), (session_revision_ok _ _ _ Hc), String.eqb_refl, Z.eqb_refl. cbn [negb orb].
    eapply triple_pre; [eapply triple_reliable_bind; [apply (readState_triple Reliable P _ (fun _ => True)); done|]|].
    2:{ intros d ([Hd _] & _ & g & Eg & Ep). split; [done|]. exists g. split; [done|].
        by destruct (scanning_complete _ _ _ _ _ _ _ _ _ _ _ _ Ek Hd Eg Ep) as (c' & ? & [= <- <-] & _ & _ & ? & _). }
    intros [[finalRaw final]|e].
    { apply (triple_fact _ False); [|done]. intros d ([[Hh _] _] & _ & g & Eg & _). by rewrite (next_state_absent _ _ _ _ _ _ Hh) in Eg. }
    destruct e; cycle 1.
    1-2: apply (triple_fact _ False); [|done]; intros d ([[Hh _] _] & [[Hf _]|(_ & g & Eg & _)]); [done|]; by rewrite (next_state_absent _ _ _ _ _ _ Hh) in Eg.
    eapply triple_pre; [|intros d (Hd & _ & _); exact Hd]. eapply triple_reliable_bind.
    { apply (triple_or_error False Reliable P errIO _ (fun _ => scanning id (extend h c) pc None entries) (fun _ => True) (fun _ => True)).
      eapply triple_weaken; [apply (triple_rename Reliable P (scanning id (extend h c) pc None entries) name _ (fun _ => True))|done| |done].
      - intros d (_ & g & Eg & _). by exists g.
      - intros d g (Hd & g' & Eg' & Hg') Eg. rewrite Eg in Eg'. injection Eg' as <-. by eapply scanning_publish.
      - done.
      - intros m' [a|e] d; [done|]. by intros [? _]. }
    intros [u|e]; [|apply (triple_fact _ False); [|done]; by intros d [[[Hf _]|[]] _]].
    eapply triple_reliable_crash, triple_weaken; [apply (recoverPending_triple id entries true Reliable (extend h c) pc None)|done| |intros d Hd; exact Hd].
    rewrite extend_last. intros m' [b|e] d; simpl; [|by intros [[[? _]|[]] _]]. intros [[Hi|(? & ? & ? & _)] Hn]; [|done]. by split; [exists b|].
  - set (P := fun d => P0 d /\ exists g, d !! name = Some g /\ parseStateFile g = Err IOError).
    set (Q := fun d => scanning id h p (Some (c, pc)) entries d /\ complete_pending d).
    eapply triple_pre with (P' := P).
    2:{ intros d [HP0 Hr]. split; [exact HP0|]. pose proof HP0 as [[_ Hs] _]. destruct (scan_present _ _ Hs name f k) as [_ [g Eg]]; [by left|done|].
        destruct e; [by rewrite (proj2 Hr) in Eg|..]; destruct Hr as [[? _]|(_ & Hr)]; done. }
    eapply triple_reliable_bind.
    { apply (triple_or_error False Reliable P errIO _ (fun _ => Q) (fun _ => True) (fun _ => True)).
      eapply triple_weaken; [apply (triple_remove Reliable P Q name (fun _ => True))|done| |done].
      - intros d [[[Hh Hs] _] (g & Eg & _)]. exists g. split; [done|]. by apply (holds_pending _ _ _ _ _ Hh name g k).
      - intros d [[Hd (n & j & g' & Ej & E' & Hp)] (g & Eg & Hbad)]. split; [by eapply scanning_remove|]. exists n, j, g'. split; [done|].
        split; [|done]. rewrite lookup_delete_ne; [done|]. intros <-. congruence.
      - done.
      - intros m' [a|e'] d; [done|]. by intros [? _]. }
    intros [u|e']; [apply IH|apply (triple_fact _ False); [|done]; by intros d [[[Hf _]|[]] _]].
Qed.

Lemma recoverPendingStates_armed id s p c pc (l : list (string * file)) C :
  triple Reliable (fun d => (Inv id s p (Some (c, pc)) d /\ complete_pending d) /\ l = map_to_list d) (recoverPendingStates id l)
    (out False Reliable (fun _ d => Inv id c pc None d /\ no_pending d) (fun _ => False)) C.
Proof.
  eapply triple_reliable_bind with (Q := fun _ r d => (exists b, r = Ok b) /\ Inv id c pc None d /\ no_pending d).
  - intros w [[(h & cand' & Hh & <- & Hc) Ha] ->] Hs.
    assert (Ecand : cand' = Some (c, pc)).
    { destruct Hc as [->| ->]; [done|]. destruct Ha as (name & k & f & Ek & E & Hp).
      destruct (holds_pending _ _ _ _ _ Hh name f k Ek E) as (_ & _ & [?|(c' & ? & _)]); done. }
    subst cand'. apply (recoverPending_armed id (map_to_list (io_dir w)) false h p c pc C w); [|done].
    split; [|done]. split; [done|]. apply scan_entries. intros name f k E Ek. by apply (holds_pending _ _ _ _ _ Hh name f k).
  - intros r. apply triple_pure. intros [b ->]. destruct b; [|by apply triple_ret].
    apply (triple_reliable_crash _ _ _ (fun _ => True)), triple_or_error. eapply triple_weaken; [apply (triple_sync_dir Reliable (fun d => Inv id c pc None d /\ no_pending d) (fun _ => True)); done|done| |done].
    intros m'' [[]|e] d [Hd Hm]; [done|]. by destruct Hm.
Qed.

(** ** The entries of the directory *)

Lemma classify_ok (l : list (string * file)) (sf : gmap Z string) ps : NoDup l.*1 ->
  (forall n f, (n, f) ∈ l -> dir_or_link f = false /\ (n = payloadFileName \/ is_Some (parseStateFileName n))) ->
  (forall k n, n ∈ l.*1 -> parseStateFileName n = Some k -> sf !! k = None) ->
  exists sf', classify l sf ps = Ok (sf', ps || bool_decide (payloadFileName ∈ l.*1)) /\
    forall k n, sf' !! k = Some n <-> sf !! k = Some n \/ n ∈ l.*1 /\ parseStateFileName n = Some k.
Proof.
  revert sf ps. induction l as [|[n f] l IH]; intros sf ps Hd Hl Hsf.
  { exists sf. simpl. rewrite orb_false_r. split; [done|].
    intros k n. split; [by left|intros [?|[?%elem_of_nil _]]; done]. }
  rewrite fmap_cons in Hd. inversion_clear Hd as [|? ? Hn Hd']. simpl in Hn.
  destruct (Hl n f) as [Hf Hname]; [by left|]. cbn [classify].
  destruct (String.eqb_spec n payloadFileName) as [->|Np].
  - rewrite Hf. destruct (IH sf true Hd') as (sf' & E & Hsf').
    + intros n' f' Hin. apply Hl. by right.
    + intros k n' Hin. apply Hsf. by right.
    + exists sf'. rewrite E. split.
      * assert (bool_decide (payloadFileName ∈ ((payloadFileName, f) :: l).*1) = true) as ->; [|by rewrite orb_true_r].
        apply bool_decide_eq_true_2. rewrite fmap_cons. by left.
      * intros k n'. rewrite Hsf', fmap_cons, elem_of_cons. simpl. split; [tauto|].
        intros [?|[[->|?] Ep]]; [tauto| |tauto]. by rewrite payload_not_state in Ep.
  - destruct Hname as [->|[k Ek]]; [done|].
    assert (isPendingStateName n = false) as ->.
    { unfold isPendingStateName. apply parse_state_name_inv in Ek as [-> _]. by rewrite state_not_pending. }
    rewrite Ek, Hf, (Hsf k n) by (done || (rewrite fmap_cons; by left)).
    destruct (IH (<[k := n]> sf) ps Hd') as (sf' & E & Hsf').
    + intros n' f' Hin. apply Hl. by right.
    + intros k' n' Hin Ek'. rewrite lookup_insert_ne; [apply (Hsf k' n'); [by right|done]|].
      intros ->. apply Hn. apply parse_state_name_inv in Ek as [-> _], Ek' as [-> _]. done.
    + exists sf'. rewrite E. split.
      * rewrite (bool_decide_ext (payloadFileName ∈ ((n, f) :: l).*1) (payloadFileName ∈ l.*1)); [done|].
        rewrite fmap_cons, elem_of_cons. simpl. split; [intros [?|?]; [by subst|done]|by right].
      * intros k' n'. rewrite Hsf', fmap_cons, elem_of_cons. simpl. destruct (decide (k = k')) as [->|Nk].
        -- rewrite lookup_insert_eq, (Hsf k' n) by (done || (rewrite fmap_cons; by left)).
           split; [intros [[= ->]|[? ?]]; auto|]. intros [?|[[->|?] ?]]; [done|by left|auto].
        -- rewrite lookup_insert_ne by done. split; [intros [?|[? ?]]; auto|].
           intros [?|[[->|?] ?]]; [auto| |auto]. congruence.
Qed.

(** The state files that are found, by revision. *)
Section Range.
Variables (sf : gmap Z string) (lo hi : Z).
Hypothesis range : 1 <= lo <= hi /\ hi <= maxUint64.
Hypothesis sf_range : forall k n, sf !! k = Some n <-> lo <= k <= hi /\ n = stateFileName k.

Lemma range_size : size sf = Z.to_nat (hi - lo + 1).
Proof.
  rewrite <-size_dom. assert (dom sf = list_to_set (C := gset Z) (seqZ lo (hi - lo + 1))) as ->.
  { apply set_eq. intros k. rewrite elem_of_dom, elem_of_list_to_set, elem_of_seqZ. split.
    - intros [n E]. apply sf_range in E. lia.
    - intros Hk. exists (stateFileName k). apply sf_range. split; [lia|done]. }
  rewrite size_list_to_set by apply NoDup_seqZ. apply length_seqZ.
Qed.

Lemma range_in k : lo <= k <= hi -> is_Some (sf !! k).
Proof. intros Hk. exists (stateFileName k). by apply sf_range. Qed.

Lemma range_min : min_revision sf = lo.
Proof.
  assert (Hm : (forall k, is_Some (sf !! k) -> min_revision sf <= k) /\ (min_revision sf = maxUint64 \/ is_Some (sf !! min_revision sf))).
  { unfold min_revision. apply (map_fold_weak_ind (fun a m => (forall k, is_Some (m !! k) -> a <= k) /\ (a = maxUint64 \/ is_Some (m !! a)))).
    - split; [|by left]. intros k [n E]. by rewrite lookup_empty in E.
    - intros k n m a Hk [H1 H2]. split.
      + intros j [n' E]. destruct (decide (k = j)) as [->|N]; [lia|]. rewrite lookup_insert_ne in E by done.
        specialize (H1 j (ex_intro _ _ E)). lia.
      + destruct (Z.min_spec k a) as [[L ->]|[L ->]]; [right; rewrite lookup_insert_eq; by eexists|].
        destruct H2 as [->|H2]; [by left|]. right. destruct (decide (k = a)) as [->|N]; [by rewrite lookup_insert_eq; eexists|].
        by rewrite lookup_insert_ne. }
  destruct Hm as [H1 [H2|[n H2]]].
  - pose proof (H1 lo (range_in lo ltac:(lia))). lia.
  - pose proof (H1 lo (range_in lo ltac:(lia))). apply sf_range in H2. lia.
Qed.

Lemma range_max : max_revision sf = hi.
Proof.
  assert (Hm : (forall k, is_Some (sf !! k) -> k <= max_revision sf) /\ (max_revision sf = 0 \/ is_Some (sf !! max_revision sf))).
  { unfold max_revision. apply (map_fold_weak_ind (fun a m => (forall k, is_Some (m !! k) -> k <= a) /\ (a = 0 \/ is_Some (m !! a)))).
    - split; [|by left]. intros k [n E]. by rewrite lookup_empty in E.
    - intros k n m a Hk [H1 H2]. split.
      + intros j [n' E]. destruct (decide (k = j)) as [->|N]; [lia|]. rewrite lookup_insert_ne in E by done.
        specialize (H1 j (ex_intro _ _ E)). lia.
      + destruct (Z.max_spec k a) as [[L ->]|[L ->]]; [|right; rewrite lookup_insert_eq; by eexists].
        destruct H2 as [->|H2]; [by left|]. right. destruct (decide (k = a)) as [->|N]; [by rewrite lookup_insert_eq; eexists|].
        by rewrite lookup_insert_ne. }
  destruct Hm as [H1 [H2|[n H2]]].
  - pose proof (H1 hi (range_in hi ltac:(lia))). lia.
  - pose proof (H1 hi (range_in hi ltac:(lia))). apply sf_range in H2. lia.
Qed.
End Range.

(** ** The chain of records *)

Lemma valid_first record : validateDiskState record = true -> Revision record = 1 ->
  PreviousRevision record = 0 /\ PreviousStateSHA256 record = "".
Proof.
  unfold validateDiskState. intros Hv E. destruct (_ || _) in Hv; [done|]. rewrite E in Hv. simpl (1 =? 1) in Hv. cbn iota in Hv.
  destruct (negb (PreviousRevision record =? 0) || _) eqn:Ep in Hv; [done|].
  apply orb_false_iff in Ep as [E1 E2]. apply negb_false_iff in E1, E2. split; [by apply Z.eqb_eq|by apply String.eqb_eq].
Qed.

(** The history [h] and the payload entry, without pending files. *)
Definition at_rest (F : option file -> Prop) id h p d : Prop := holds id h p None d /\ no_pending d /\ F (d !! payloadFileName).

Lemma at_rest_rec F id h p d : at_rest F id h p d -> Rec id (last_state h) p None d.
Proof. intros [Hh _]. left. by eapply holds_Inv. Qed.

Lemma at_rest_settle F id h p n d : at_rest F id h p d -> Rec id (last_state h) p None (settle n d).
Proof. intros Hd. by eapply Rec_settle, at_rest_rec. Qed.

Lemma at_rest_clean (F : option file -> Prop) id h p d : at_rest F id h p d -> clean F id (last_state h) p d.
Proof. intros (? & ? & ?). by exists h. Qed.

Lemma session_eq id k s : session_ok id k s -> {| state := state s; raw := raw s; digest := digestBytes (raw s) |} = s.
Proof. intros (_ & E & _). rewrite <-E. by destruct s. Qed.

Section Chain.
Variables (F : option file -> Prop) (id : string) (h : history) (p : string).
Hypothesis Ho : history_ok id h.

Lemma chain_read k m X : h_first h <= k <= h_last h ->
  triple m (at_rest F id h p) (or_error errIO (readStateFile (stateFileName k)))
    (out X m (fun tr d => tr = (raw (h_at h k), state (h_at h k)) /\ at_rest F id h p d) (at_rest F id h p)) (Rec id (last_state h) p None).
Proof.
  intros Hk. apply triple_or_error. eapply triple_weaken; [apply readState_triple|done| |done].
  { intros d j. apply at_rest_settle. }
  intros m' r d [Hd Hr]. destruct (holds_states _ _ _ _ _ (proj1 Hd) k Hk) as (f & Ef & Hreg & Hb & _).
  pose proof (parse_state _ _ _ f (history_states _ _ Ho k Hk) Hreg Hb) as Ep.
  destruct r as [[text record]|e].
  - destruct Hr as (-> & g & Eg & Eg'). rewrite Ef in Eg. injection Eg as <-. rewrite Ep in Eg'. by injection Eg' as <- <-.
  - split; [|done]. destruct e; [by rewrite Ef in Hr; destruct Hr|..];
      (destruct Hr as [Hr|(_ & g & Eg & Eg')]; [done|rewrite Ef in Eg; injection Eg as <-; by rewrite Ep in Eg']).
Qed.

(** What [loadChain] has read before the revision [k]. *)
Definition read_before (k : Z) : option string := if k =? h_first h then None else Some (raw (h_at h (k - 1))).

Lemma chain_linked k : h_first h <= k <= h_last h -> chain_mismatch (state (h_at h k)) k (read_before k) = false.
Proof.
  intros Hk. pose proof (history_range _ _ Ho) as [R1 R2]. pose proof (history_states _ _ Ho k Hk) as Hs.
  unfold chain_mismatch, read_before. destruct (Z.eqb_spec k (h_first h)) as [Ek|Nk].
  - destruct (Z.eqb_spec k 1) as [Ek1|]; [|done]. destruct (valid_first _ (session_valid _ _ _ Hs)) as [-> ->]; [|done].
    by rewrite (session_revision_ok _ _ _ Hs).
  - destruct (history_linked _ _ Ho (k - 1)) as [L1 L2]; [lia|]. replace (k - 1 + 1) with k in * by lia.
    destruct (history_states _ _ Ho (k - 1) ltac:(lia)) as (_ & Dp & _ & _ & Rp).
    rewrite L1, L2, Rp, Dp, uint64_id by (unfold in_uint64; lia). by rewrite Z.eqb_refl, String.eqb_refl.
Qed.

Lemma loadChain_triple (sf : gmap Z string) n k m : h_first h <= k -> k + Z.of_nat n = h_last h ->
  (forall j name, sf !! j = Some name <-> h_first h <= j <= h_last h /\ name = stateFileName j) ->
  triple m (at_rest F id h p) (loadChain (S n) id sf k (read_before k))
    (out False m (fun latest d => latest = last_state h /\ at_rest F id h p d) (at_rest F id h p)) (Rec id (last_state h) p None).
Proof.
  intros Hf Hn Hsf. pose proof (history_range _ _ Ho) as [R1 R2]. revert k m Hf Hn.
  induction n as [|n IH]; intros k m Hf Hn; cbn [loadChain].
  all: assert (sf !! k = Some (stateFileName k)) as -> by (apply Hsf; split; [lia|done]).
  all: eapply triple_try; [apply (chain_read k); lia| |done].
  all: intros m1 [text record] Hm1; apply triple_pure; intros [= -> ->].
  all: pose proof (history_states _ _ Ho k ltac:(lia)) as Hk.
  all: rewrite (session_id _ _ _ Hk), (session_revision_ok _ _ _ Hk), String.eqb_refl, Z.eqb_refl, (session_valid _ _ _ Hk); cbn [negb orb].
  all: rewrite chain_linked by lia.
  - apply triple_ret. intros d Hd. split; [|done]. replace k with (h_last h) in * by lia. by apply (session_eq id (h_last h)).
  - assert (E : uint64 (k + 1) = k + 1) by (apply uint64_id; unfold in_uint64; lia). rewrite E.
    specialize (IH (k + 1) m1 ltac:(lia) ltac:(lia)). unfold read_before in IH. destruct (Z.eqb_spec (k + 1) (h_first h)); [lia|].
    by replace (k + 1 - 1) with k in IH by lia.
Qed.
End Chain.

(** ** The payload *)

Definition present_payload (record : diskState) (p : string) (o : option file) : Prop := exists f, o = Some f /\ exact_payload record p f.
(** A terminal session has no payload any more; any other one has exactly the bytes that it promises. *)
Definition resting (record : diskState) (p : string) (o : option file) : Prop :=
  if isTerminalState (State record) then o = None else present_payload record p o.

Lemma exact_live record p f : exact_payload record p f -> live_payload record p f.
Proof. intros [(H1 & H2 & H3) H4]. split; [done|]. split; [done|]. rewrite H2, H3. split; [lia|]. by apply str_take_all. Qed.

Lemma present_holds record p d : len p = DurableOffset record -> present_payload record p (d !! payloadFileName) -> payload_holds record p d.
Proof.
  intros Hl (f & E & Hf). split; [done|]. destruct (isTerminalState _).
  - intros g Eg. rewrite E in Eg. by injection Eg as <-.
  - exists f. split; [done|]. by apply exact_live.
Qed.

(** A payload that is cut back to [p]. *)
Lemma live_cut record p f : live_payload record p f ->
  exact_payload record p (with_bytes f (str_take (String.length p) (f_bytes f)) (Nat.min (f_synced f) (String.length p))).
Proof.
  intros (H1 & H2 & H3 & H4). split; [|done]. split; [done|]. split; [done|]. simpl. lia.
Qed.

Lemma exact_sync record p f : exact_payload record p f -> exact_payload record p (with_bytes f (f_bytes f) (String.length (f_bytes f))).
Proof. intros [(H1 & H2 & H3) H4]. split; [|done]. split; [done|]. split; [done|]. simpl. by rewrite H2. Qed.

Lemma exact_verified (record : diskState) p f : len p = DurableOffset record -> exact_payload record p f -> verifiedPayload record f = true.
Proof.
  intros Hl [(H1 & H2 & _) H3]. unfold verifiedPayload. rewrite H1, H2, H3, Hl, Z.eqb_refl. apply String.eqb_refl.
Qed.

Section Payload.
Variables (id : string) (h : history) (p : string).
Let record := state (last_state h).
Let C := Rec id (last_state h) p None.

Lemma at_rest_payload (F : option file -> Prop) d : at_rest F id h p d -> len p = DurableOffset record /\
  (isTerminalState (State record) = false -> exists f, d !! payloadFileName = Some f /\ live_payload record p f) /\
  (isTerminalState (State record) = true -> forall f, d !! payloadFileName = Some f -> exact_payload record p f).
Proof.
  intros [Hh _]. destruct (holds_payload _ _ _ _ _ Hh) as [Hl Hp]. fold record in Hl, Hp. split; [done|].
  destruct (isTerminalState (State record)); split; intros E; done.
Qed.

Lemma at_rest_put (F : option file -> Prop) d f : isTerminalState (State record) = false -> at_rest F id h p d ->
  exact_payload record p f -> at_rest (present_payload record p) id h p (<[payloadFileName := f]> d).
Proof.
  intros Ht Hd Hf. destruct (at_rest_payload F d Hd) as (Hl & _). destruct Hd as (Hh & Hn & _).
  assert (Hne : forall n, n <> payloadFileName -> <[payloadFileName := f]> d !! n = d !! n) by (intros n N; by apply lookup_insert_ne).
  assert (Hp : present_payload record p (<[payloadFileName := f]> d !! payloadFileName)) by (rewrite lookup_insert_eq; by exists f).
  split; [|split; [by eapply no_pending_payload|done]].
  eapply holds_payload_change; [exact Hn|exact Hne|by apply present_holds|exact Hh].
Qed.

Lemma at_rest_weaken (F F' : option file -> Prop) d : (forall o, F o -> F' o) -> at_rest F id h p d -> at_rest F' id h p d.
Proof. intros HF (? & ? & ?). split; [done|]. split; [done|]. by apply HF. Qed.

Lemma recoverPayload_triple m X : isTerminalState (State record) = false ->
  triple m (at_rest (fun _ => True) id h p) (recoverPayload record)
    (out X m (fun _ => at_rest (present_payload record p) id h p) (at_rest (fun _ => True) id h p)) C.
Proof.
  intros Ht. unfold recoverPayload.
  apply (triple_try _ _ _ _ _ (fun f d => (live_payload record p f /\ len p = DurableOffset record) /\ at_rest (fun o => o = Some f) id h p d) _
    (at_rest (fun _ => True) id h p)); [| |done].
  { apply triple_or_error. eapply triple_weaken; [apply triple_stat|done| |done]; [intros d n; apply at_rest_settle|].
    intros m' [f|e] d [Hd Hr]; destruct (at_rest_payload _ d Hd) as (Hl & Hp & _); destruct (Hp Ht) as (f' & E & Hf).
    - destruct Hr as [-> Ef]. rewrite E in Ef. injection Ef as <-. split; [done|]. split; [done|].
      destruct Hd as (? & ? & _). by split.
    - split; [|done]. destruct e; [|done..]. destruct Hr as [_ En]. congruence. }
  intros m1 f Hm1. apply triple_pure. intros [Hf Hl]. unfold len at 1 2. rewrite <-Hl. unfold len.
  pose proof Hf as (F1 & F2 & F3 & F4). destruct (Z.ltb_spec (Z.of_nat (String.length (f_bytes f))) (Z.of_nat (String.length p))) as [L|_]; [lia|].
  destruct (Z.ltb_spec (Z.of_nat (String.length p)) (Z.of_nat (String.length (f_bytes f)))) as [L|L].
  - rewrite Nat2Z.id.
    assert (Hw : forall d, at_rest (present_payload record p) id h p d -> at_rest (fun _ => True) id h p d) by (intros d; by apply at_rest_weaken).
    apply (triple_try _ _ _ _ _ (fun _ => at_rest (present_payload record p) id h p) _ (at_rest (fun _ => True) id h p)); [| |done].
    { apply triple_or_error. eapply triple_weaken;
        [apply (triple_change m1 (at_rest (fun o => o = Some f) id h p) (at_rest (present_payload record p) id h p)
           (fun d => fst (truncate_ok payloadFileName (String.length p) d)) _ (at_rest (fun _ => True) id h p))|done| |done].
      - intros d Hd. unfold truncate_ok. simpl. rewrite (proj2 (proj2 Hd)).
        apply (at_rest_put (fun o => o = Some f)); [done|done|by apply live_cut].
      - intros d n. by apply at_rest_weaken.
      - intros d n. apply at_rest_settle.
      - by intros m' [[]|e] d. }
    intros m2 u _. apply (triple_try _ _ _ _ _ (fun _ => at_rest (present_payload record p) id h p) _ (at_rest (fun _ => True) id h p)); [| |done].
    { apply triple_or_error. eapply triple_weaken;
        [apply (triple_change m2 (at_rest (present_payload record p) id h p) (at_rest (present_payload record p) id h p)
           (fun d => fst (sync_ok payloadFileName d)) _ (at_rest (fun _ => True) id h p))|done| |done].
      - intros d Hd. pose proof Hd as (_ & _ & g & Eg & Hg). unfold sync_ok. simpl. rewrite Eg.
        apply (at_rest_put (present_payload record p)); [done|done|by apply exact_sync].
      - intros d n. apply Hw.
      - intros d n. apply at_rest_settle.
      - by intros m' [[]|e] d. }
    intros m3 u' _. apply triple_or_error. eapply triple_weaken; [apply (triple_sync_dir m3 (at_rest (present_payload record p) id h p))|done| |done].
    + intros d n. apply at_rest_settle.
    + intros m' [[]|e] d [Hd Hm]; [done|]. split; [done|by apply Hw].
  - apply triple_ret. intros d. apply at_rest_weaken. intros o ->. exists f. split; [done|].
    assert (E : String.length (f_bytes f) = String.length p) by lia. rewrite E in F3. split; [|done]. split; [done|].
    rewrite str_take_all in F4 by lia. split; [done|]. lia.
Qed.

Lemma at_rest_remove (F : option file -> Prop) d : isTerminalState (State record) = true -> at_rest F id h p d ->
  at_rest (fun o => o = None) id h p (delete payloadFileName d).
Proof.
  intros Ht Hd. destruct (at_rest_payload F d Hd) as (Hl & _). destruct Hd as (Hh & Hn & _).
  assert (Hne : forall n, n <> payloadFileName -> delete payloadFileName d !! n = d !! n) by (intros n N; by apply lookup_delete_ne).
  split; [|split; [by eapply no_pending_payload|by apply lookup_delete_eq]].
  eapply holds_payload_change; [exact Hn|exact Hne| |exact Hh]. split; [done|]. fold record. rewrite Ht.
  intros f E. by rewrite lookup_delete_eq in E.
Qed.

(** [openVerifiedPayload] finds the payload. *)
Lemma openVerified_triple m X (F : option file -> Prop) : (forall d, at_rest F id h p d -> present_payload record p (d !! payloadFileName)) ->
  triple m (at_rest F id h p) (openVerifiedPayload record)
    (out X m (fun f d => exact_payload record p f /\ at_rest (fun o => o = Some f) id h p d) (at_rest F id h p)) C.
Proof.
  intros HF. unfold openVerifiedPayload.
  apply (triple_try _ _ _ _ _ (fun f d => (exact_payload record p f /\ len p = DurableOffset record) /\ at_rest (fun o => o = Some f) id h p d) _
    (at_rest F id h p)); [| |done].
  { apply triple_or_error. eapply triple_weaken; [apply triple_stat|done| |done]; [intros d n; apply at_rest_settle|].
    intros m' [f|e] d [Hd Hr]; destruct (at_rest_payload _ d Hd) as (Hl & _); destruct (HF d Hd) as (f' & E & Hf).
    - destruct Hr as [-> Ef]. rewrite E in Ef. injection Ef as <-. split; [done|]. split; [done|].
      destruct Hd as (? & ? & _). by split.
    - split; [|done]. destruct e; [|done..]. destruct Hr as [_ En]. congruence. }
  intros m1 f _. apply triple_pure. intros [Hf Hl]. rewrite (exact_verified record p f Hl Hf). by apply triple_ret.
Qed.

Lemma removeTerminal_triple m (X : Prop) release : isTerminalState (State record) = true ->
  (release record <> Ok tt -> X) ->
  triple m (at_rest (fun _ => True) id h p) (removeTerminalPayload release record)
    (out X m (fun _ => at_rest (fun o => o = None) id h p) (at_rest (fun _ => True) id h p)) C.
Proof.
  intros Ht HX. unfold removeTerminalPayload. rewrite Ht. cbn [negb].
  eapply triple_bind; [apply triple_stat; intros d n; apply at_rest_settle|].
  assert (Hw : forall G d, at_rest G id h p d -> at_rest (fun _ => True) id h p d) by (intros G d; by apply at_rest_weaken).
  assert (Hrel : forall m1, triple m1 (at_rest (fun o => o = None) id h p) (ret (release record))
    (out X m1 (fun _ => at_rest (fun o => o = None) id h p) (at_rest (fun _ => True) id h p)) C).
  { intros m1. apply triple_ret. intros d Hd. destruct (release record) as [[]|e]; [done|]. split; [by right; apply HX|by eapply Hw]. }
  assert (Hbad : forall m1, triple m1 (fun d => at_rest (fun _ => True) id h p d /\ failed m m1) (ret (Err errIO))
    (out X m (fun _ : unit => at_rest (fun o => o = None) id h p) (at_rest (fun _ => True) id h p)) C).
  { intros m1. apply triple_ret. intros d [Hd Hf]. split; [by left|done]. }
  intros m1 [f|[]] Hm1; [| |by apply Hbad..].
  2:{ eapply triple_pre; [eapply triple_out_mode; [apply Hrel|exact Hm1]|]. intros d [(? & ? & _) [_ ?]]. by split. }
  eapply triple_pre with (P' := at_rest (present_payload record p) id h p).
  2:{ intros d (Hd & _ & E). destruct (at_rest_payload _ d Hd) as (_ & _ & Hp). destruct Hd as (? & ? & _).
      split; [done|]. split; [done|]. exists f. auto. }
  eapply triple_out_mode; [|exact Hm1].
  eapply triple_try; [apply (openVerified_triple m1 X (present_payload record p)); by intros d (_ & _ & ?)| |apply Hw].
  intros m2 g _. apply triple_pure. intros [Hg _].
  apply (triple_try _ _ _ _ _ (fun _ => at_rest (fun o => o = None) id h p) _ (at_rest (fun _ => True) id h p)); [| |done].
  - apply triple_or_error. eapply triple_weaken; [apply (triple_remove m2 (at_rest (fun o => o = Some g) id h p) (at_rest (fun o => o = None) id h p))|done| |done].
    + intros d (_ & _ & E). exists g. split; [done|]. by destruct Hg.
    + intros d. by apply at_rest_remove.
    + intros d n. apply at_rest_settle.
    + intros m' [a|e] d; [done|]. intros [? Hd]. split; [done|by eapply Hw].
  - intros m3 u _. eapply triple_try with (E := at_rest (fun _ => True) id h p); [|intros m4 u' _; apply Hrel|done]. apply triple_or_error. eapply triple_weaken; [apply (triple_sync_dir m3 (at_rest (fun o => o = None) id h p))|done| |done].
    + intros d n. apply at_rest_settle.
    + intros m' [[]|e] d [Hd Hm]; [done|]. split; [done|by eapply Hw].
Qed.
End Payload.

(** ** [loadSession] *)

(** The latest state and its payload entry are those of the history. *)
Definition found (id : string) (h : history) (p : string) (r : loadedSession * bool) (d : dir) : Prop :=
  fst r = last_state h /\ snd r = bool_decide (is_Some (d !! payloadFileName)) /\ at_rest (fun _ => True) id h p d.

Lemma at_rest_entries (F : option file -> Prop) id h p d n f : at_rest F id h p d -> d !! n = Some f ->
  dir_or_link f = false /\ (n = payloadFileName \/ is_Some (parseStateFileName n)).
Proof.
  intros (Hh & Hn & _) E.
  assert (Hreg : f_regular f = true -> dir_or_link f = false) by (unfold f_regular, dir_or_link; by destruct (f_kind f)).
  destruct (holds_entries _ _ _ _ _ Hh n f E) as [->|[[k Ek]|[k Ek]]].
  - split; [|by left]. apply Hreg. destruct (holds_payload _ _ _ _ _ Hh) as [_ Hp]. destruct (isTerminalState _).
    + by apply (Hp f E).
    + destruct Hp as (g & Eg & Hg & _). rewrite E in Eg. by injection Eg as <-.
  - split; [|right; by eexists]. apply Hreg. apply parse_state_name_inv in Ek as [-> Hk].
    destruct (decide (h_first h <= k <= h_last h)) as [Hr|Hr]; [|by rewrite (holds_no_states _ _ _ _ _ Hh k Hk Hr) in E].
    destruct (holds_states _ _ _ _ _ Hh k Hr) as (g & Eg & Hg & _). rewrite E in Eg. by injection Eg as <-.
  - by rewrite (Hn _ _ E) in Ek.
Qed.

Lemma at_rest_classify (F : option file -> Prop) id h p d : at_rest F id h p d ->
  exists sf, classify (map_to_list d) ∅ false = Ok (sf, bool_decide (is_Some (d !! payloadFileName))) /\
    forall k n, sf !! k = Some n <-> h_first h <= k <= h_last h /\ n = stateFileName k.
Proof.
  intros Hd. destruct (classify_ok (map_to_list d) ∅ false) as (sf & E & Hsf).
  - apply NoDup_fst_map_to_list.
  - intros n f Hin. apply elem_of_map_to_list in Hin. by eapply at_rest_entries.
  - done.
  - assert (Hin : forall n, n ∈ (map_to_list d).*1 <-> is_Some (d !! n)).
    { intros n. rewrite list_elem_of_fmap. split.
      - intros ([n' f] & -> & Hf). apply elem_of_map_to_list in Hf. by eexists.
      - intros [f Hf]. exists (n, f). split; [done|]. by apply elem_of_map_to_list. }
    exists sf. rewrite E. simpl. rewrite (bool_decide_ext _ _ (Hin payloadFileName)). split; [done|].
    intros k n. rewrite Hsf, Hin. destruct Hd as (Hh & Hn & _). split.
    + intros [?|[[f Ef] Ep]]; [done|]. apply parse_state_name_inv in Ep as [-> Hk]. split; [|done].
      destruct (decide (h_first h <= k <= h_last h)) as [Hr|Hr]; [done|].
      by rewrite (holds_no_states _ _ _ _ _ Hh k Hk Hr) in Ef.
    + intros [Hk ->]. right. destruct (holds_states _ _ _ _ _ Hh k Hk) as (f & Ef & _). split; [by eexists|].
      apply parse_state_name. pose proof (history_range _ _ (holds_history _ _ _ _ _ Hh)). split; lia.
Qed.

Lemma loadLatest_triple id h p m :
  triple m (at_rest (fun _ => True) id h p) (loadLatest id)
    (out False m (found id h p) (at_rest (fun _ => True) id h p)) (Rec id (last_state h) p None).
Proof.
  apply (triple_try _ _ _ _ _ (fun l d => at_rest (fun _ => True) id h p d /\ l = map_to_list d) _ (at_rest (fun _ => True) id h p)); [| |done].
  { apply triple_or_error. eapply triple_weaken; [apply triple_read_dir; intros d n; apply at_rest_settle|done| |done].
    intros m' [l|e] d [Hd Hr]; [by destruct Hr as [-> ->]|done]. }
  intros m1 l _.
  apply (triple_fact _ (history_ok id h /\ exists sf b, classify l ∅ false = Ok (sf, b) /\
    (forall k n, sf !! k = Some n <-> h_first h <= k <= h_last h /\ n = stateFileName k) /\
    (isTerminalState (State (state (last_state h))) = false -> b = true))).
  { intros d [Hd ->]. split; [apply (proj1 Hd)|]. destruct (at_rest_classify _ _ _ _ _ Hd) as (sf & E & Hsf).
    eexists sf, _. split; [done|]. split; [done|]. intros Ht. apply bool_decide_eq_true_2.
    destruct (at_rest_payload _ _ _ _ _ Hd) as (_ & Hp & _). destruct (Hp Ht) as (f & Ef & _). by eexists. }
  intros (Ho & sf & b & E & Hsf & Hb). pose proof (history_range _ _ Ho) as [R1 R2].
  eapply triple_pre with (P' := at_rest (fun o => bool_decide (is_Some o) = b) id h p).
  2:{ intros d [Hd ->]. destruct (at_rest_classify _ _ _ _ _ Hd) as (sf' & E' & _). rewrite E in E'. injection E' as <- ->.
      destruct Hd as (? & ? & _). by split. }
  rewrite E. cbv iota beta zeta.
  rewrite (bool_decide_eq_false_2 (sf = ∅)).
  2:{ intros ->. assert (E1 : (∅ : gmap Z string) !! h_first h = Some (stateFileName (h_first h))) by (apply Hsf; split; [lia|done]). done. }
  rewrite (range_min sf (h_first h) (h_last h)), (range_max sf (h_first h) (h_last h)), (range_size sf (h_first h) (h_last h)) by done.
  rewrite Z2Nat.id, Z.eqb_refl by lia. cbn [negb].
  replace (Z.to_nat (h_last h - h_first h + 1)) with (S (Z.to_nat (h_last h - h_first h))) by lia.
  pose proof (loadChain_triple (fun o => bool_decide (is_Some o) = b) id h p Ho sf (Z.to_nat (h_last h - h_first h)) (h_first h) m1 ltac:(lia) ltac:(lia) Hsf) as Ht.
  unfold read_before in Ht. rewrite Z.eqb_refl in Ht.
  eapply triple_try; [exact Ht| |intros d; by apply at_rest_weaken].
  intros m2 latest _. apply triple_pure. intros ->.
  assert (negb (isTerminalState (State (state (last_state h)))) && negb b = false) as ->.
  { destruct (isTerminalState _); [done|]. by rewrite Hb. }
  apply triple_ret. intros d Hd. split; [done|]. split; [by destruct Hd as (_ & _ & <-)|]. by eapply at_rest_weaken, Hd.
Qed.

(** What [loadSession] returns, one of the records that [Ch] allows.  An error comes from a failing operation,
    or from the accounting of a terminal session. *)
Definition terminal_by (Ch : loadedSession -> string -> Prop) (record : diskState) : Prop :=
  isTerminalState (State record) = true /\ exists s' p', Ch s' p' /\ record = state s'.
Definition loaded_by (Ch : loadedSession -> string -> Prop) (release : diskState -> result UploadError unit) (m : mode) id s p cand (m' : mode)
    (r : result UploadError loadedSession * option diskState) (d : dir) : Prop :=
  (forall record, snd r = Some record -> terminal_by Ch record) /\
  match fst r with
  | Ok latest => exists p', Ch latest p' /\ clean (resting (state latest) p') id latest p' d
  | Err _ => (failed m m' \/ exists record, terminal_by Ch record /\ release record <> Ok tt) /\ Rec id s p cand d
  end.
Definition terminal_choice s p cand : diskState -> Prop := terminal_by (chosen s p cand).
Definition loaded release m id s p cand := loaded_by (chosen s p cand) release m id s p cand.

Lemma settlePayload_triple release id h p m (b : bool) :
  triple m (fun d => b = bool_decide (is_Some (d !! payloadFileName)) /\ at_rest (fun _ => True) id h p d)
    (settlePayload release (last_state h) b)
    (out (isTerminalState (State (state (last_state h))) = true /\ release (state (last_state h)) <> Ok tt) m (fun _ => at_rest (resting (state (last_state h)) p) id h p) (at_rest (fun _ => True) id h p))
    (Rec id (last_state h) p None).
Proof.
  unfold settlePayload, resting. destruct b.
  - destruct (isTerminalState _) eqn:Ht; (eapply triple_pre; [|intros d [_ Hd]; exact Hd]).
    + by apply removeTerminal_triple.
    + by apply recoverPayload_triple.
  - apply triple_ret. intros d [Hb Hd]. apply eq_sym, bool_decide_eq_false in Hb.
    assert (E : d !! payloadFileName = None) by (destruct (d !! payloadFileName); [destruct Hb; by eexists|done]).
    destruct (at_rest_payload _ _ _ _ _ Hd) as (_ & Hp & _). destruct Hd as (Hh & Hn & _). split; [done|]. split; [done|].
    destruct (isTerminalState _) eqn:Ht; [done|]. destruct (Hp eq_refl) as (f & Ef & _). congruence.
Qed.

Lemma Rec_valid_id id s p cand d : Rec id s p cand d -> validID id = true.
Proof.
  assert (Hi : forall s p cand, Inv id s p cand d -> validID id = true).
  { intros s0 p0 cand0 (h & cand' & Hh & _). pose proof (last_ok _ _ (holds_history _ _ _ _ _ Hh)) as (_ & _ & Hv & <- & _).
    unfold validateDiskState in Hv. destruct (validID _); [done|]. by rewrite ?orb_true_r in Hv. }
  intros [Hr|(c & pc & _ & Hr)]; by eapply Hi.
Qed.

Lemma keepFrom_range id h p F d : at_rest F id h p d -> 1 <= keepFrom (last_state h) <= Revision (state (last_state h)).
Proof.
  intros [Hh _]. pose proof (last_revision_ok _ _ _ _ _ Hh) as [R _]. rewrite <-(last_revision _ _ _ _ _ Hh) in R.
  unfold keepFrom. destruct (Z.ltb_spec 1 (Revision (state (last_state h)))); lia.
Qed.

Lemma loadSession_choice (Ch : loadedSession -> string -> Prop) (P : dir -> Prop) release id s p cand m :
  (forall s' p', Ch s' p' -> chosen s p cand s' p') -> (forall d, P d -> Rec id s p cand d) ->
  (forall m' l, mode_le m' m -> triple m' (fun d => P d /\ l = map_to_list d) (recoverPendingStates id l)
    (out False m' (fun _ d => exists s' p', Ch s' p' /\ clean (fun _ => True) id s' p' d) (Rec id s p cand)) (Rec id s p cand)) ->
  triple m P (loadSession release id) (loaded_by Ch release m id s p cand) (Rec id s p cand).
Proof.
  intros HCh HP Hrec. apply (triple_fact _ (validID id = true)); [intros d Hd; by eapply Rec_valid_id, HP|]. intros Hid. unfold loadSession. rewrite Hid. cbn [negb].
  eapply triple_bind.
  - apply (triple_try False m _ _ _ (fun l d => P d /\ l = map_to_list d)
      (fun r d => exists h p', Ch (last_state h) p' /\ found id h p' r d) (Rec id s p cand) (Rec id s p cand)); [| |done].
    { apply triple_or_error. eapply triple_weaken; [apply (triple_read_dir m P (Rec id s p cand)); intros d n Hd; by apply Rec_settle, HP|done| |done].
      intros m' [l|e] d [Hd Hr]; [by destruct Hr as [-> ->]|by split; [|apply HP]]. }
    intros m1 l Hm1. eapply triple_try; [by apply Hrec| |done].
    intros m2 u _. intros w (s' & p' & Hc & h & Hh & <- & Hn & _) Hs.
    assert (Ht : triple m2 (at_rest (fun _ => True) id h p') (loadLatest id)
      (out False m2 (fun r d => exists h p', Ch (last_state h) p' /\ found id h p' r d) (Rec id s p cand)) (Rec id s p cand)).
    { eapply triple_weaken; [apply loadLatest_triple|done| |].
      - intros m' [r|e] d; simpl; [intros Hf; by exists h, p'|]. intros [Hf Hd]. split; [done|].
        eapply chosen_rec; [exact (HCh _ _ Hc)|]. by eapply at_rest_rec.
      - intros d Hd. eapply chosen_rec; [exact (HCh _ _ Hc)|exact Hd]. }
    by apply Ht.
  - intros m1 [[latest seen]|e] Hm1.
    2:{ apply triple_ret. intros d [[Hf|[]] Hd]. split; [done|]. split; [by left|done]. }
    cbn [out]. apply triple_exists. intros h. apply triple_exists. intros p'. apply triple_pure. intros Hc.
    unfold found. cbn [fst snd]. apply triple_pure. intros ->.
    assert (HC : forall F d, at_rest F id h p' d -> Rec id s p cand d).
    { intros F d Hd. eapply chosen_rec; [exact (HCh _ _ Hc)|]. by eapply at_rest_rec. }
    eapply triple_bind.
    { eapply triple_weaken; [apply (settlePayload_triple release id h p' m1 seen)|done|intros m' r d Hq; exact Hq|]. intros d Hd. eapply chosen_rec; [exact (HCh _ _ Hc)|exact Hd]. }
    intros m2 [u|e] Hm2.
    2:{ apply triple_ret. intros d [Hf Hd]. split; [done|]. split; [|by eapply HC]. destruct Hf as [Hf|[Ht Hf]]; [left; by eapply failed_le_l|right].
        exists (state (last_state h)). split; [|done]. split; [done|]. by exists (last_state h), p'. }
    cbn [out]. apply (triple_fact _ (1 <= keepFrom (last_state h) <= Revision (state (last_state h)))); [intros d; apply keepFrom_range|].
    intros Hk. eapply triple_bind.
    { eapply triple_weaken; [apply (compact_triple id p' (last_state h) (resting (state (last_state h)) p') m2 _ False Hk)|intros d; apply at_rest_clean|intros m' r d Hq; exact Hq|].
      intros d Hd. eapply chosen_rec; [exact (HCh _ _ Hc)|exact Hd]. }
    assert (Hrel : forall record, (if seen && isTerminalState (State (state (last_state h))) then Some (state (last_state h)) else None) = Some record ->
      terminal_by Ch record).
    { intros record. destruct (seen && isTerminalState _) eqn:E; [|done]. intros [= <-]. apply andb_true_iff in E as [_ E].
      split; [done|]. by exists (last_state h), p'. }
    intros m3 [u'|e] Hm3; apply triple_ret; intros d.
    + intros Hd. split; [exact Hrel|]. exists p'. split; [done|]. exact Hd.
    + intros [[Hf|[]] Hd]. split; [exact Hrel|]. split; [left; eapply failed_le_l; [eapply mode_le_trans; [exact Hm2|exact Hm1]|done]|].
      eapply chosen_rec; [exact (HCh _ _ Hc)|]. by eapply clean_rec.
Qed.

Lemma loadSession_triple release id s p cand m :
  triple m (Rec id s p cand) (loadSession release id) (loaded release m id s p cand) (Rec id s p cand).
Proof.
  apply loadSession_choice; [done..|]. intros m' l _. eapply triple_out_weaken; [apply recoverPendingStates_triple|done|done| |done].
  intros u d Hd. by apply (recovered_clean id s p cand true).
Qed.

(** Without failures a complete pending file decides. *)
Lemma loadSession_armed release id s p c pc C :
  triple Reliable (fun d => Inv id s p (Some (c, pc)) d /\ complete_pending d) (loadSession release id)
    (loaded_by (fun s' p' => s' = c /\ p' = pc) release Reliable id s p (Some (c, pc))) C.
Proof.
  eapply triple_reliable_crash, loadSession_choice; [by intros s' p' [-> ->]; right|by intros d [Hd _]; left|].
  intros m' l [->|[? _]]; [|done]. eapply triple_out_weaken; [apply (recoverPendingStates_armed id s p c pc l)|done|done| |done].
  intros u d [(h & cand' & Hh & E & Hc) Hn]. exists c, pc. split; [done|]. exists h. split; [by destruct Hc as [->| ->]|done].
Qed.

End Load.
End UploadLoad.
