(* ===== verification/UploadStore.v ===== *)
(** * internal/uploadsession/store.go: the store

    The operations of the store, as programs on the directory of their session; the store's memory
    (the snapshots by id and by request, the accounting of staged bytes) is passed along.  The session's
    lock makes them run one after the other on one session.  Contexts are not modelled, nor are the
    identity and mode of the root directory.  Of joined errors the first is kept.  Each operation that
    reads the clock, the random source or the identity of a new file takes what it reads. *)

From Stdlib Require Import Ascii.
From stdpp Require Import sorting.
From S2P Require Import Prelude GoStrings GoPath GoFormat Sha256 FileMonad UploadTypes UploadStaging UploadFiles.
Import UploadTypes UploadStaging UploadFiles.

(** [types.go: Session] *)
Module Session.
Record t := {
  ID : string;
  Owner : string;
  ClientRequestID : string;
  Path : string;
  TotalBytes : Z;
  DurableOffset : Z;
  Condition : OriginalCondition;
  State : SessionState;
  Revision : Z;
  LastChunkOffset : Z;
  LastChunkBytes : Z;
  LastChunkID : string;
  LastChunkSHA256 : string;
  ContentBLAKE3 : string;
  PublicationStarted : bool;
  PersistenceWarning : bool;
  ConflictReason : string;
  CreatedAt : Z;
  UpdatedAt : Z;
  ExpiresAt : Z;
}.
End Session.

Module UploadStore.

Definition publicSession (record : diskState) : Session.t :=
  {| Session.ID := ID record;
     Session.Owner := Owner record;
     Session.ClientRequestID := ClientRequestID record;
     Session.Path := Path record;
     Session.TotalBytes := TotalBytes record;
     Session.DurableOffset := DurableOffset record;
     Session.Condition := Condition record;
     Session.State := State record;
     Session.Revision := Revision record;
     Session.LastChunkOffset := LastChunkOffset record;
     Session.LastChunkBytes := LastChunkBytes record;
     Session.LastChunkID := LastChunkID record;
     Session.LastChunkSHA256 := LastChunkSHA256 record;
     Session.ContentBLAKE3 := ContentBLAKE3 record;
     Session.PublicationStarted := PublicationStarted record;
     Session.PersistenceWarning := PersistenceWarning record;
     Session.ConflictReason := ConflictReason record;
     Session.CreatedAt := CreatedAt record;
     Session.UpdatedAt := UpdatedAt record;
     Session.ExpiresAt := ExpiresAt record |}.

Record Store := {
  opts : Options;
  CheckStagingCapacity : option (Z -> bool);
  closed : bool;
  staging : Staging;
  sessions : gmap string Session.t;
  requestIndex : gmap (string * string) string;
}.

Definition with_staging (s : Store) (st : Staging) : Store :=
  {| opts := opts s; CheckStagingCapacity := CheckStagingCapacity s; closed := closed s; staging := st;
     sessions := sessions s; requestIndex := requestIndex s |}.
Definition with_index (s : Store) (ss : gmap string Session.t) (ri : gmap (string * string) string) : Store :=
  {| opts := opts s; CheckStagingCapacity := CheckStagingCapacity s; closed := closed s; staging := staging s;
     sessions := ss; requestIndex := ri |}.

Definition store_limits (s : Store) : limits :=
  {| max_staged := MaxStagedBytes (opts s); max_staged_per_owner := MaxStagedBytesPerOwner (opts s) |}.

(** ** Snapshots *)

Definition publishSnapshot (s : Store) (record : diskState) : Store :=
  let session := publicSession record in
  if closed s then s
  else with_index s (<[Session.ID session := session]> (sessions s))
         (<[(Session.Owner session, Session.ClientRequestID session) := Session.ID session]> (requestIndex s)).

Definition removeSnapshot (s : Store) (session : Session.t) : Store :=
  let key := (Session.Owner session, Session.ClientRequestID session) in
  with_index s (delete (Session.ID session) (sessions s))
    (if bool_decide (requestIndex s !! key = Some (Session.ID session)) then delete key (requestIndex s) else requestIndex s).

(** The number of sessions, and of those of the owner. *)
Definition sessionCounts (s : Store) (owner : string) : Z * Z :=
  map_fold (fun _ session '(global, ownerCount) =>
    (global + 1, if String.eqb (Session.Owner session) owner then ownerCount + 1 else ownerCount)) (0, 0) (sessions s).

(** [releaseSessionStaging]: whether it fails, and what it leaves. *)
Definition release_check (s : Store) (record : diskState) : result UploadError unit :=
  match releaseSessionStaging (staging s) (ID record) (Owner record) with Ok _ => Ok tt | Err e => Err e end.
Definition release_session (s : Store) (id owner : string) : Store :=
  match releaseSessionStaging (staging s) id owner with Ok st => with_staging s st | Err _ => s end.

Section Store.
Context `{StateCodec} (blake3 : string -> string).

(** ** Loading *)

(** [loadSession] with its effect on the accounting. *)
Definition load (s : Store) (id : string) : prog (Store * result UploadError loadedSession) :=
  run! (r, released) := loadSession (release_check s) id in
  ret (match released with Some record => release_session s (ID record) (Owner record) | None => s end, r).

(** [removeTerminalPayload] with its effect on the accounting. *)
Definition removePayload (s : Store) (record : diskState) : prog (Store * result UploadError unit) :=
  run! r := removeTerminalPayload (release_check s) record in
  ret (match r with Ok _ => release_session s (ID record) (Owner record) | Err _ => s end, r).

Definition loadOwnedSession (s : Store) (owner id : string) (now : Z) : prog (Store * result UploadError loadedSession) :=
  if negb (validID id) || negb (validOwner owner) then ret (s, Err ErrNotFound)
  else if closed s then ret (s, Err ErrClosed)
  else match sessions s !! id with
  | None => ret (s, Err ErrNotFound)
  | Some known =>
    if String.eqb (Session.ID known) "" || negb (String.eqb (Session.Owner known) owner) then ret (s, Err ErrNotFound)
    else
      run! (s, loaded) := load s id in
      match loaded with
      | Err e => ret (s, Err e)
      | Ok loaded =>
        if negb (String.eqb (Owner (state loaded)) owner) then ret (s, Err ErrNotFound)
        else if sessionExpired (State (state loaded)) (ExpiresAt (state loaded)) now then ret (s, Err ErrExpired)
        else ret (s, Ok loaded)
      end
  end.

Definition get (s : Store) (owner id : string) (now : Z) : prog (Store * result UploadError Session.t) :=
  run! (s, loaded) := loadOwnedSession s owner id now in
  match loaded with
  | Err e => ret (s, Err e)
  | Ok loaded => ret (publishSnapshot s (state loaded), Ok (publicSession (state loaded)))
  end.

Definition GetByClientRequestID (s : Store) (owner clientRequestID : string) (now : Z) : prog (Store * result UploadError Session.t) :=
  if negb (validOwner owner) || negb (validClientRequestID clientRequestID) then ret (s, Err ErrNotFound)
  else if closed s then ret (s, Err ErrClosed)
  else match requestIndex s !! (owner, clientRequestID) with
  | None => ret (s, Err ErrNotFound)
  | Some id => if String.eqb id "" then ret (s, Err ErrNotFound) else get s owner id now
  end.

(** ** Hashing the payload *)

Definition hashable (record : diskState) (f : file) : bool :=
  String.eqb (f_identity f) (PayloadIdentity record) && (len (f_bytes f) =? TotalBytes record).

Definition hashOpenPayload (record : diskState) : prog (result UploadError string) :=
  try! before := or_error ErrRecoveryRequired (stat payloadFileName) in
  if negb (hashable record before) then ret (Err ErrRecoveryRequired)
  else
    try! after := or_error ErrRecoveryRequired (stat payloadFileName) in
    ret (if negb (hashable record after) then Err ErrRecoveryRequired else Ok (blake3 (f_bytes after))).

(** [OpenPayload], up to the reader that it returns: what that reader gives. *)
Definition OpenPayload (s : Store) (owner id : string) (now : Z) : prog (Store * result UploadError (string * Session.t)) :=
  run! (s, loaded) := loadOwnedSession s owner id now in
  match loaded with
  | Err e => ret (s, Err e)
  | Ok loaded =>
    let record := state loaded in
    match State record with
    | StateReady | StateCommitting =>
      run! opened := openVerifiedPayload record in
      match opened with
      | Err e => ret (s, Err e)
      | Ok payload =>
        run! hash := hashOpenPayload record in
        match hash with
        | Err e => ret (s, Err e)
        | Ok hash =>
          if negb (String.eqb hash (ContentBLAKE3 record)) then ret (s, Err ErrRecoveryRequired)
          else ret (s, Ok (f_bytes payload, publicSession record))
        end
      end
    | _ => ret (s, Err ErrInvalidState)
    end
  end.

(** ** Appending *)

(** The body of a request: its bytes, and whether it ends after them or fails. *)
Record AppendChunkRequest := {
  RequestOwner : string;
  RequestID : string;
  Offset : Z;
  Length : Z;
  ChunkID : string;
  ChunkSHA256 : string;
  Body : option (string * bool);
}.

Definition AppendResult : Type := Session.t * bool.

(** What reading [Length] bytes of the body, and one more, comes to. *)
Definition bodyError (request : AppendChunkRequest) (body : string * bool) : option UploadError :=
  let '(bytes, ends) := body in
  if len bytes <? Length request then Some (if ends then ErrChunkLength else errIO)
  else if (Length request <? len bytes) || negb ends then Some ErrChunkLength
  else if negb (String.eqb (digestBytes bytes) (ChunkSHA256 request)) then Some ErrChunkDigest
  else None.

Definition chunk (request : AppendChunkRequest) (body : string * bool) : string := str_take (Z.to_nat (Length request)) (fst body).

Definition rollbackPayload (offset : Z) : prog (result UploadError unit) :=
  try! _ := or_error ErrRecoveryRequired (truncate payloadFileName (Z.to_nat offset)) in
  or_error ErrRecoveryRequired (sync payloadFileName).

(** The chunk is written and synced, and the payload inspected. *)
Definition writeChunk (record : diskState) (request : AppendChunkRequest) (body : string * bool) : prog (result UploadError unit) :=
  let rollback (e : UploadError) : prog (result UploadError unit) :=
    run! _ := rollbackPayload (DurableOffset record) in ret (Err e) in
  try! _ := openVerifiedPayload record in
  run! written := write_at payloadFileName (Z.to_nat (DurableOffset record)) (chunk request body) in
  match (match written with Err _ => Some errIO | Ok _ => bodyError request body end) with
  | Some e => rollback e
  | None =>
    run! synced := sync payloadFileName in
    match synced with
    | Err _ => rollback errIO
    | Ok _ =>
      try! after := or_error ErrRecoveryRequired (stat payloadFileName) in
      ret (if negb (String.eqb (f_identity after) (PayloadIdentity record)) ||
              negb (len (f_bytes after) =? int64 (DurableOffset record + Length request)) || negb (f_regular after)
           then Err ErrRecoveryRequired else Ok tt)
    end
  end.

(** The successor that [AppendChunk] builds, before the payload is hashed. *)
Definition advance (record : diskState) (request : AppendChunkRequest) (now ttl : Z) : diskState :=
  {| SchemaVersion := SchemaVersion record; ID := ID record; Owner := Owner record;
     ClientRequestID := ClientRequestID record; Path := Path record; TotalBytes := TotalBytes record;
     DurableOffset := int64 (DurableOffset record + Length request);
     Condition := Condition record; State := State record; Revision := Revision record;
     PreviousRevision := PreviousRevision record; PreviousStateSHA256 := PreviousStateSHA256 record;
     PayloadIdentity := PayloadIdentity record; LastChunkOffset := Offset request; LastChunkBytes := Length request;
     LastChunkID := ChunkID request; LastChunkSHA256 := ChunkSHA256 request; ContentBLAKE3 := ContentBLAKE3 record;
     PublicationStarted := PublicationStarted record; PersistenceWarning := PersistenceWarning record;
     ConflictReason := ConflictReason record; CreatedAt := CreatedAt record; UpdatedAt := now; ExpiresAt := now + ttl |}.

Definition complete (record : diskState) (hash : string) : diskState :=
  {| SchemaVersion := SchemaVersion record; ID := ID record; Owner := Owner record;
     ClientRequestID := ClientRequestID record; Path := Path record; TotalBytes := TotalBytes record;
     DurableOffset := DurableOffset record; Condition := Condition record; State := StateReady; Revision := Revision record;
     PreviousRevision := PreviousRevision record; PreviousStateSHA256 := PreviousStateSHA256 record;
     PayloadIdentity := PayloadIdentity record; LastChunkOffset := LastChunkOffset record;
     LastChunkBytes := LastChunkBytes record; LastChunkID := LastChunkID record; LastChunkSHA256 := LastChunkSHA256 record;
     ContentBLAKE3 := hash; PublicationStarted := PublicationStarted record; PersistenceWarning := PersistenceWarning record;
     ConflictReason := ConflictReason record; CreatedAt := CreatedAt record; UpdatedAt := UpdatedAt record;
     ExpiresAt := ExpiresAt record |}.

(** The hash of the payload, once it is complete. *)
Definition finishChunk (next : diskState) : prog (result UploadError diskState) :=
  if DurableOffset next =? TotalBytes next then
    try! hash := hashOpenPayload next in ret (Ok (complete next hash))
  else ret (Ok next).

(** [request.Offset], [request.Length] and the chunk are those of the last chunk. *)
Definition same_chunk (record : diskState) (request : AppendChunkRequest) : bool :=
  (LastChunkOffset record =? Offset request) && (LastChunkBytes record =? Length request) &&
  String.eqb (LastChunkID record) (ChunkID request) && String.eqb (LastChunkSHA256 record) (ChunkSHA256 request).

Definition verifyReplayBody (record : diskState) (request : AppendChunkRequest) (body : string * bool) : prog (result UploadError unit) :=
  if (Offset request <? 0) || (Length request <=? 0) || (DurableOffset record <? int64 (Offset request + Length request))
  then ret (Err (ErrOffsetMismatch 0 0))
  else
    try! payload := openVerifiedPayload record in
    let stored := str_take (Z.to_nat (Length request)) (str_drop (Z.to_nat (Offset request)) (f_bytes payload)) in
    ret (if negb (len stored =? Length request) || negb (String.eqb (digestBytes stored) (ChunkSHA256 request))
         then Err ErrRecoveryRequired
         else match bodyError request body with
              | Some ErrChunkDigest => Err ErrChunkDigest
              | Some _ => Err ErrChunkLength
              | None => Ok tt
              end).

(** What the random source, the file system and the clock give to one operation: the instants of the
    expiry test and of the change, the bytes of the nonce, and the identity of the pending file. *)
Record environment := { now_check : Z; now_change : Z; entropy : option string; pending_identity : string }.

(** The part of [AppendChunk] between the reservation and its end; the result says whether the chunk is
    durable. *)
Definition appendReserved (s : Store) (loaded : loadedSession) (request : AppendChunkRequest) (body : string * bool) (env : environment)
    : prog (Store * result UploadError Session.t * bool) :=
  let record := state loaded in
  run! next := (try! _ := writeChunk record request body in finishChunk (advance record request (now_change env) (TTL (opts s)))) in
  match next with
  | Err e => ret (s, Err e, false)
  | Ok next =>
    run! persisted := writeNextState loaded next (entropy env) (pending_identity env) in
    match persisted with
    | Ok persisted => ret (publishSnapshot s (state persisted), Ok (publicSession (state persisted)), true)
    | Err e =>
      run! (s, recovered) := load s (ID record) in
      match recovered with
      | Ok recovered =>
        if (DurableOffset (state recovered) =? DurableOffset next) && String.eqb (LastChunkID (state recovered)) (ChunkID request) &&
           String.eqb (LastChunkSHA256 (state recovered)) (ChunkSHA256 request)
        then ret (publishSnapshot s (state recovered), Err e, true)
        else ret (s, Err e, false)
      | Err _ => ret (s, Err e, false)
      end
    end
  end.

(** The deferred end of the reservation; its error joins that of the append. *)
Definition endReservation (s : Store) (id owner : string) (bytes : Z) (committed : bool) : Store * result UploadError unit :=
  match (if committed then finishStagedReservation (staging s) bytes else releaseStagedReservation (staging s) id owner bytes) with
  | Ok st => (with_staging s st, Ok tt)
  | Err e => (s, Err e)
  end.

Definition AppendChunk (s : Store) (request : AppendChunkRequest) (env : environment) : prog (Store * result UploadError AppendResult) :=
  if negb (validID (RequestID request)) || negb (validOwner (RequestOwner request)) then ret (s, Err ErrNotFound)
  else if Length request <=? 0 then ret (s, Err ErrChunkLength)
  else if MaxChunkBytes (opts s) <? Length request then ret (s, Err ErrChunkTooLarge)
  else if negb (validChunkID (ChunkID request)) then ret (s, Err errInvalidRequest)
  else if negb (validLowerHex (ChunkSHA256 request) sha256HexLength) then ret (s, Err ErrChunkDigest)
  else match Body request with
  | None => ret (s, Err ErrChunkLength)
  | Some body =>
    run! (s, loaded) := loadOwnedSession s (RequestOwner request) (RequestID request) (now_check env) in
    match loaded with
    | Err e => ret (s, Err e)
    | Ok loaded =>
      let record := state loaded in
      let replay : prog (Store * result UploadError AppendResult) :=
        run! verified := verifyReplayBody record request body in
        ret (s, match verified with Ok _ => Ok (publicSession record, true) | Err e => Err e end) in
      if String.eqb (LastChunkID record) (ChunkID request) && negb (same_chunk record request) then ret (s, Err ErrConflict)
      else if negb (bool_decide (State record = StateUploading)) then
        if same_chunk record request then replay else ret (s, Err ErrInvalidState)
      else if negb (Offset request =? DurableOffset record) then
        if same_chunk record request && (int64 (Offset request + Length request) =? DurableOffset record) then replay
        else ret (s, Err (ErrOffsetMismatch (DurableOffset record) (Offset request)))
      else if int64 (TotalBytes record - DurableOffset record) <? Length request then ret (s, Err ErrChunkLength)
      else
        let '(st, reserved) := reserveStagedBytes (store_limits s) (CheckStagingCapacity s) (staging s) (ID record) (Owner record)
                                 (DurableOffset record) (Length request) in
        let s := with_staging s st in
        match reserved with
        | Err e => ret (s, Err e)
        | Ok _ =>
          run! (s, result, committed) := appendReserved s loaded request body env in
          let '(s, ended) := endReservation s (ID record) (Owner record) (Length request) committed in
          ret (s, match result, ended with
                  | Ok session, Ok _ => Ok (session, false)
                  | Ok _, Err e => Err e
                  | Err e, _ => Err e
                  end)
        end
    end
  end.

(** ** Transitions *)

(** The record with another state and what belongs to it, and its times. *)
Definition with_state (record : diskState) (st : SessionState) (started warning : bool) (reason : string) : diskState :=
  {| SchemaVersion := SchemaVersion record; ID := ID record; Owner := Owner record;
     ClientRequestID := ClientRequestID record; Path := Path record; TotalBytes := TotalBytes record;
     DurableOffset := DurableOffset record; Condition := Condition record; State := st; Revision := Revision record;
     PreviousRevision := PreviousRevision record; PreviousStateSHA256 := PreviousStateSHA256 record;
     PayloadIdentity := PayloadIdentity record; LastChunkOffset := LastChunkOffset record;
     LastChunkBytes := LastChunkBytes record; LastChunkID := LastChunkID record; LastChunkSHA256 := LastChunkSHA256 record;
     ContentBLAKE3 := ContentBLAKE3 record; PublicationStarted := started; PersistenceWarning := warning;
     ConflictReason := reason; CreatedAt := CreatedAt record; UpdatedAt := UpdatedAt record; ExpiresAt := ExpiresAt record |}.

Definition with_times (record : diskState) (now ttl : Z) : diskState :=
  {| SchemaVersion := SchemaVersion record; ID := ID record; Owner := Owner record;
     ClientRequestID := ClientRequestID record; Path := Path record; TotalBytes := TotalBytes record;
     DurableOffset := DurableOffset record; Condition := Condition record; State := State record; Revision := Revision record;
     PreviousRevision := PreviousRevision record; PreviousStateSHA256 := PreviousStateSHA256 record;
     PayloadIdentity := PayloadIdentity record; LastChunkOffset := LastChunkOffset record;
     LastChunkBytes := LastChunkBytes record; LastChunkID := LastChunkID record; LastChunkSHA256 := LastChunkSHA256 record;
     ContentBLAKE3 := ContentBLAKE3 record; PublicationStarted := PublicationStarted record;
     PersistenceWarning := PersistenceWarning record; ConflictReason := ConflictReason record;
     CreatedAt := CreatedAt record; UpdatedAt := now; ExpiresAt := now + ttl |}.

(** What a transition makes of a record: another record, the same one again, or an error. *)
Definition change := diskState -> result UploadError (diskState * bool).

Definition begin_commit : change := fun record =>
  match State record with
  | StateCommitting => Ok (record, false)
  | StateReady => Ok (with_state record StateCommitting false (PersistenceWarning record) (ConflictReason record), true)
  | _ => Err ErrInvalidState
  end.

Definition mark_started : change := fun record =>
  if negb (bool_decide (State record = StateCommitting)) then Err ErrInvalidState
  else if PublicationStarted record then Ok (record, false)
  else Ok (with_state record (State record) true (PersistenceWarning record) (ConflictReason record), true).

Definition mark_ready : change := fun record =>
  match State record with
  | StateReady => Ok (record, false)
  | StateCommitting => Ok (with_state record StateReady false (PersistenceWarning record) (ConflictReason record), true)
  | _ => Err ErrInvalidState
  end.

Definition mark_committed (hash : string) (warning : bool) : change := fun record =>
  if negb (String.eqb hash (ContentBLAKE3 record)) then Err ErrConflict
  else match State record with
  | StateCommitted => if negb (Bool.eqb (PersistenceWarning record) warning) then Err ErrConflict else Ok (record, false)
  | StateCommitting => Ok (with_state record StateCommitted (PublicationStarted record) warning (ConflictReason record), true)
  | _ => Err ErrInvalidState
  end.

Definition mark_conflict (reason : string) : change := fun record =>
  match State record with
  | StateConflict => if negb (String.eqb (ConflictReason record) reason) then Err ErrConflict else Ok (record, false)
  | StateReady | StateCommitting =>
    Ok (with_state record StateConflict (PublicationStarted record) (PersistenceWarning record) reason, true)
  | _ => Err ErrInvalidState
  end.

Definition transition (s : Store) (owner id : string) (c : change) (env : environment) : prog (Store * result UploadError Session.t) :=
  run! (s, loaded) := loadOwnedSession s owner id (now_check env) in
  match loaded with
  | Err e => ret (s, Err e)
  | Ok loaded =>
    match c (state loaded) with
    | Err e => ret (s, Err e)
    | Ok (next, changed) =>
      if negb (changed : bool) then
        if isTerminalState (State (state loaded)) then
          run! (s, r) := removePayload s (state loaded) in
          ret (s, match r with Ok _ => Ok (publicSession (state loaded)) | Err e => Err e end)
        else ret (s, Ok (publicSession (state loaded)))
      else
        run! persisted := writeNextState loaded (with_times next (now_change env) (TTL (opts s))) (entropy env) (pending_identity env) in
        match persisted with
        | Err e => ret (s, Err e)
        | Ok persisted =>
          let s := publishSnapshot s (state persisted) in
          if isTerminalState (State (state persisted)) then
            run! (s, r) := removePayload s (state persisted) in
            ret (s, match r with Ok _ => Ok (publicSession (state persisted)) | Err e => Err e end)
          else ret (s, Ok (publicSession (state persisted)))
        end
    end
  end.

Definition BeginCommit (s : Store) (owner id : string) (env : environment) := transition s owner id begin_commit env.
Definition MarkPublicationStarted (s : Store) (owner id : string) (env : environment) := transition s owner id mark_started env.
Definition MarkReady (s : Store) (owner id : string) (env : environment) := transition s owner id mark_ready env.

Definition MarkCommitted (s : Store) (owner id hash : string) (warning : bool) (env : environment)
    : prog (Store * result UploadError Session.t) :=
  if negb (validLowerHex hash blake3HexLength) then ret (s, Err errInvalidRequest)
  else transition s owner id (mark_committed hash warning) env.

Definition MarkConflict (s : Store) (owner id reason : string) (env : environment) : prog (Store * result UploadError Session.t) :=
  let reason := TrimSpace reason in
  if negb (validCleanText reason 1024) then ret (s, Err errInvalidRequest)
  else transition s owner id (mark_conflict reason) env.

Definition Cancel (s : Store) (owner id : string) (env : environment) : prog (Store * result UploadError Session.t) :=
  run! (s, loaded) := loadOwnedSession s owner id (now_check env) in
  match loaded with
  | Err e => ret (s, Err e)
  | Ok loaded =>
    let record := state loaded in
    match State record with
    | StateCancelled =>
      run! (s, r) := removePayload s record in
      match r with
      | Err e => ret (s, Err e)
      | Ok _ => ret (publishSnapshot s record, Ok (publicSession record))
      end
    | StateCommitting | StateCommitted | StateConflict => ret (s, Err ErrInvalidState)
    | StateUploading | StateReady =>
      let next := with_times (with_state record StateCancelled (PublicationStarted record) (PersistenceWarning record) (ConflictReason record))
                    (now_change env) (TTL (opts s)) in
      run! persisted := writeNextState loaded next (entropy env) (pending_identity env) in
      match persisted with
      | Err e => ret (s, Err e)
      | Ok persisted =>
        let s := publishSnapshot s (state persisted) in
        run! (s, r) := removePayload s (state persisted) in
        ret (s, match r with Ok _ => Ok (publicSession (state persisted)) | Err e => Err e end)
      end
    end
  end.

End Store.
End UploadStore.
