(* ===== verification/UploadAppend.v ===== *)
(** * Appending a chunk

    The part of [AppendChunk] that writes: the chunk at the end of the payload, its rollback, the hash
    of a payload that is complete, and the next state. *)

From Stdlib Require Import Ascii.
From stdpp Require Import sorting.
From S2P Require Import Prelude GoStrings GoPath GoFormat Sha256 FileMonad UploadTypes UploadStaging UploadFiles.
From S2P Require Import UploadNames UploadInvariant UploadRecovery UploadLoad UploadStore.
Import UploadTypes UploadStaging UploadFiles UploadNames UploadInvariant UploadRecovery UploadLoad UploadStore.

Module UploadAppend.

Section Append.
Context `{StateCodec} (blake3 : string -> string).

Lemma sapp_len s t : len (s +:+ t) = len s + len t.
Proof. unfold len. rewrite sapp_length. lia. Qed.

Section Write.
Variables (id : string) (h : history) (p : string).
Let record := state (last_state h).
Let C := Rec id (last_state h) p None.
Hypothesis live : isTerminalState (State record) = false.

(** The payload is [p] followed by [x]; with [synced], on disk. *)
Definition grown (x : string) (synced : bool) (o : option file) : Prop :=
  exists f, o = Some f /\ live_payload record p f /\ f_bytes f = p +:+ x /\ (synced = true -> durable (p +:+ x) f).

Lemma live_put (F F' : option file -> Prop) d f : at_rest F id h p d -> live_payload record p f -> F' (Some f) ->
  at_rest F' id h p (<[payloadFileName := f]> d).
Proof.
  intros Hd Hf HF. destruct (at_rest_payload _ _ _ F d Hd) as (Hl & _). destruct Hd as (Hh & Hn & _).
  assert (Hne : forall n, n <> payloadFileName -> <[payloadFileName := f]> d !! n = d !! n) by (intros n N; by apply lookup_insert_ne).
  split; [|split; [by eapply no_pending_payload|by rewrite lookup_insert_eq]].
  eapply holds_payload_change; [exact Hn|exact Hne| |exact Hh]. split; [done|]. fold record. rewrite live.
  exists f. by rewrite lookup_insert_eq.
Qed.

Lemma grown_put (F : option file -> Prop) d f x : at_rest F id h p d -> d !! payloadFileName = Some f -> exact_payload record p f ->
  at_rest (grown x false) id h p (put_bytes payloadFileName (String.length p) x d).
Proof.
  intros Hd E [(H1 & H2 & H3) H4]. unfold put_bytes. rewrite E.
  assert (Eb : splice (f_bytes f) (String.length p) x = p +:+ x) by (rewrite H2; apply splice_end).
  apply (live_put F); [done|..].
  - split; [done|]. split; [done|]. cbn [with_bytes f_synced f_bytes]. rewrite Eb, H3, sapp_length. split; [lia|].
    rewrite str_take_app_le by done. by apply str_take_all.
  - eexists. split; [done|]. split; [|split; [by rewrite <-Eb|done]].
    split; [done|]. split; [done|]. cbn [with_bytes f_synced f_bytes]. rewrite Eb, H3, sapp_length. split; [lia|].
    rewrite str_take_app_le by done. by apply str_take_all.
Qed.

Lemma grown_live x b d : at_rest (grown x b) id h p d -> at_rest (fun o => exists f, o = Some f /\ live_payload record p f) id h p d.
Proof. apply at_rest_weaken. intros o (f & -> & Hf & _). by exists f. Qed.

Lemma grown_sync x b d : at_rest (grown x b) id h p d -> at_rest (grown x true) id h p (fst (sync_ok payloadFileName d)).
Proof.
  intros Hd. pose proof Hd as (_ & _ & f & E & (H1 & H2 & H3 & H4) & Hb & _). unfold sync_ok. simpl. rewrite E.
  assert (Hl : live_payload record p (with_bytes f (f_bytes f) (String.length (f_bytes f)))).
  { split; [done|]. split; [done|]. simpl. split; [lia|done]. }
  apply (live_put (grown x b)); [done|done|]. eexists. split; [done|]. split; [done|]. split; [done|].
  intros _. split; [done|]. simpl. by rewrite Hb.
Qed.

Definition live_now : dir -> Prop := at_rest (fun o => exists f, o = Some f /\ live_payload record p f) id h p.

Lemma live_rec d n : live_now d -> C (settle n d).
Proof. apply at_rest_settle. Qed.

Lemma live_truncate d : live_now d -> live_now (fst (truncate_ok payloadFileName (String.length p) d)).
Proof.
  intros Hd. pose proof Hd as (_ & _ & f & E & Hf). unfold truncate_ok. simpl. rewrite E.
  pose proof (exact_live _ _ _ (live_cut _ _ _ Hf)) as Hl. eapply live_put; [exact Hd|exact Hl|]. by eexists.
Qed.

Lemma live_sync d : live_now d -> live_now (fst (sync_ok payloadFileName d)).
Proof.
  intros Hd. pose proof Hd as (_ & _ & f & E & H1 & H2 & H3 & H4). unfold sync_ok. simpl. rewrite E.
  assert (Hl : live_payload record p (with_bytes f (f_bytes f) (String.length (f_bytes f)))).
  { split; [done|]. split; [done|]. simpl. split; [lia|done]. }
  eapply live_put; [exact Hd|exact Hl|]. by eexists.
Qed.

Lemma live_change m e (change : dir -> dir) : (forall d, live_now d -> live_now (change d)) ->
  triple m live_now (or_error e (effect (fun d => (change d, Ok tt)) no_partial)) (fun _ _ => live_now) C.
Proof.
  intros Hc. eapply triple_bind; [apply (triple_change m live_now live_now change no_partial live_now)|]; [done|done|apply live_rec|].
  intros m' [[]|e'] _; apply triple_ret; intros d [_ Hd]; done.
Qed.

(** The payload is cut back, whatever was written to it. *)
Lemma rollback_triple (Q : unit -> dir -> Prop) X m m0 e : (failed m0 m \/ X) ->
  triple m live_now (run! _ := rollbackPayload (DurableOffset record) in ret (@Err UploadError unit e)) (out X m0 Q C) C.
Proof.
  intros HX. apply (triple_fact _ (Z.to_nat (DurableOffset record) = String.length p)).
  { intros d Hd. destruct (at_rest_payload _ _ _ _ d Hd) as (Hl & _). fold record in Hl. rewrite <-Hl. unfold len. lia. }
  intros El. unfold rollbackPayload. rewrite El. eapply triple_bind with (Q := fun _ _ => live_now).
  - eapply triple_bind; [apply (live_change m _ _ live_truncate)|]. intros m' [u|e'] _; [|by apply triple_ret].
    apply (live_change m' _ _ live_sync).
  - intros m' r Hm. apply triple_ret. intros d Hd. split; [|by eapply at_rest_rec].
    destruct HX as [Hf|HX]; [left; by eapply failed_le_r|by right].
Qed.

(** The chunk is on disk, after the payload. *)
Lemma writeChunk_triple m (request : AppendChunkRequest) (body : string * bool) :
  DurableOffset record + Length request <= maxInt64 -> 0 < Length request ->
  triple m (at_rest (present_payload record p) id h p) (writeChunk record request body)
    (out (bodyError request body <> None) m
      (fun _ d => bodyError request body = None /\ at_rest (grown (fst body) true) id h p d) C) C.
Proof.
  intros Hbound Hlen. unfold writeChunk. cbv zeta.
  eapply triple_try; [apply (openVerified_triple id h p m _ (present_payload record p)); by intros d (_ & _ & ?)| |intros d; apply at_rest_rec].
  intros m1 f Hm1. fold record. apply triple_pure. intros Hf.
  apply (triple_fact _ (len p = DurableOffset record)).
  { intros d Hd. by destruct (at_rest_payload _ _ _ _ d Hd) as (Hl & _). }
  intros El. assert (En : Z.to_nat (DurableOffset record) = String.length p) by (rewrite <-El; unfold len; lia). rewrite En.
  set (data := chunk request body).
  eapply triple_bind.
  { apply (triple_change m1 _ (at_rest (grown data false) id h p) (put_bytes payloadFileName (String.length p) data) _ live_now).
    - intros d Hd. pose proof Hd as (_ & _ & E). by eapply grown_put.
    - intros d n Hd. pose proof Hd as (_ & _ & E). eapply grown_live. by eapply grown_put.
    - intros d n. apply at_rest_settle. }
  intros m2 [[]|e] Hm2.
  2:{ apply triple_pure. intros Hf2. apply rollback_triple. by left. }
  apply triple_pure. intros ->. destruct (bodyError request body) as [e|] eqn:Eb.
  { eapply triple_pre; [apply rollback_triple; by right|]. intros d. apply grown_live. }
  eapply triple_bind.
  { apply (triple_change m1 _ (at_rest (grown data true) id h p) (fun d => fst (sync_ok payloadFileName d)) no_partial live_now).
    - intros d. apply grown_sync.
    - intros d n. apply grown_live.
    - intros d n. apply at_rest_settle. }
  intros m3 [[]|e] Hm3.
  2:{ apply triple_pure. intros Hf3. apply rollback_triple. by left. }
  apply triple_pure. intros ->.
  assert (Hdata : data = fst body /\ len data = Length request).
  { unfold data, chunk. destruct body as [bytes ends]. unfold bodyError in Eb. cbn [fst].
    destruct (Z.ltb_spec (len bytes) (Length request)); [done|]. destruct (Z.ltb_spec (Length request) (len bytes)); [done|].
    assert (E : len bytes = Length request) by lia. rewrite str_take_all; [done|]. rewrite <-E. unfold len. lia. }
  destruct Hdata as [Ed Eld].
  apply (triple_try _ _ _ _ _ (fun f d => (f_regular f = true /\ f_identity f = PayloadIdentity record /\ f_bytes f = p +:+ data) /\
    at_rest (grown data true) id h p d) _ C); [| |done].
  { apply triple_or_error. eapply triple_weaken; [apply triple_stat|done| |done]; [intros d n; apply at_rest_settle|].
    intros m' [g|e] d [Hd Hr]; pose proof Hd as (_ & _ & g' & E & (G1 & G2 & _) & G3 & _).
    - destruct Hr as [-> E']. rewrite E in E'. by injection E' as <-.
    - split; [|by eapply at_rest_rec]. destruct e; [|done..]. destruct Hr as [_ En']. congruence. }
  intros m4 g _. apply triple_pure. intros (G1 & G2 & G3). apply triple_ret. intros d Hd.
  rewrite G1, G2, G3, String.eqb_refl, sapp_len, El, Eld, int64_id, Z.eqb_refl.
  - by rewrite <-Ed.
  - unfold in_int64, minInt64. unfold len in El. lia.
Qed.
End Write.
(** The record that is written for the chunk: with the hash of the payload when it is complete. *)
Definition finished (next : diskState) (payload : string) : diskState :=
  if DurableOffset next =? TotalBytes next then complete next (blake3 payload) else next.

Section Finish.
Variables (id : string) (h : history) (p x : string).
Let record := state (last_state h).
Let C := Rec id (last_state h) p None.

Lemma grown_hashable next b d f : at_rest (grown h p x b) id h p d -> d !! payloadFileName = Some f ->
  PayloadIdentity next = PayloadIdentity record -> TotalBytes next = len p + len x -> hashable next f = true /\ f_bytes f = p +:+ x.
Proof.
  intros (_ & _ & g & E & (_ & G2 & _) & G3 & _) Ef Hi Ht. rewrite E in Ef. injection Ef as <-. split; [|done].
  unfold hashable. by rewrite G2, G3, Hi, Ht, String.eqb_refl, sapp_len, Z.eqb_refl.
Qed.

Lemma stat_grown m X b : triple m (at_rest (grown h p x b) id h p) (or_error ErrRecoveryRequired (stat payloadFileName))
  (out X m (fun f d => d !! payloadFileName = Some f /\ at_rest (grown h p x b) id h p d) (at_rest (grown h p x b) id h p)) C.
Proof.
  apply triple_or_error. eapply triple_weaken; [apply triple_stat|done| |done]; [intros d n; apply at_rest_settle|].
  intros m' [f|e] d [Hd Hr]; [by destruct Hr|]. split; [|done]. destruct e; [|done..].
  destruct Hr as [_ En]. destruct Hd as (_ & _ & f & E & _). congruence.
Qed.

Lemma finishChunk_triple m X b next : PayloadIdentity next = PayloadIdentity record -> DurableOffset next = len p + len x ->
  triple m (at_rest (grown h p x b) id h p) (finishChunk blake3 next)
    (out X m (fun r d => r = finished next (p +:+ x) /\ at_rest (grown h p x b) id h p d) (at_rest (grown h p x b) id h p)) C.
Proof.
  intros Hi Ho. unfold finishChunk, finished. destruct (Z.eqb_spec (DurableOffset next) (TotalBytes next)) as [Et|_].
  2:{ by apply triple_ret. }
  rewrite Ho in Et. symmetry in Et.
  apply (triple_try _ _ _ _ _ (fun hash d => hash = blake3 (p +:+ x) /\ at_rest (grown h p x b) id h p d) _ (at_rest (grown h p x b) id h p)); [| |done].
  2:{ intros m1 hash _. apply triple_pure. intros ->. by apply triple_ret. }
  unfold hashOpenPayload. eapply triple_try; [apply stat_grown| |done]. intros m1 f _.
  apply (triple_fact _ (hashable next f = true)).
  { intros d [E Hd]. by destruct (grown_hashable next b d f Hd E Hi Et). }
  intros ->. cbn [negb]. eapply triple_pre; [|intros d [_ Hd]; exact Hd].
  eapply triple_try; [apply stat_grown| |done]. intros m2 g _.
  apply triple_ret. intros d [E Hd]. destruct (grown_hashable next b d g Hd E Hi Et) as [-> ->]. by split.
Qed.
End Finish.

(** ** The part between the reservation and its end *)

Lemma load_triple st id s p cand m :
  triple m (Rec id s p cand) (load st id) (fun m' r d =>
    ((fst r = st) \/ (exists record, terminal_choice s p cand record /\ fst r = release_session st (ID record) (Owner record))) /\
    match snd r with
    | Ok latest => exists p', chosen s p cand latest p' /\ clean (resting (state latest) p') id latest p' d
    | Err _ => (failed m m' \/ exists record, terminal_choice s p cand record /\ release_check st record <> Ok tt) /\ Rec id s p cand d
    end) (Rec id s p cand).
Proof.
  eapply triple_bind; [apply loadSession_triple|]. intros m1 [r o] Hm. apply triple_ret. intros d [Ho Hr]. cbn [fst snd] in *.
  split; [|done]. destruct o as [record|]; [right; exists record; split; [by apply Ho|done]|by left].
Qed.

(** Neither the record nor its successor is terminal: the accounting is not touched. *)
Lemma load_live_triple st id s p cand m : isTerminalState (State (state s)) = false ->
  (forall c pc, cand = Some (c, pc) -> isTerminalState (State (state c)) = false) ->
  triple m (Rec id s p cand) (load st id) (fun m' r d => fst r = st /\
    match snd r with
    | Ok latest => exists p', chosen s p cand latest p' /\ clean (present_payload (state latest) p') id latest p' d
    | Err _ => failed m m' /\ Rec id s p cand d
    end) (Rec id s p cand).
Proof.
  intros Hs Hc. assert (Hch : forall s' p', chosen s p cand s' p' -> isTerminalState (State (state s')) = false).
  { intros s' p' [[-> _]| E]; [done|by eapply Hc]. }
  assert (Hno : forall record, ~ terminal_choice s p cand record).
  { intros record (Ht & s' & p' & Hch' & ->). by rewrite (Hch s' p' Hch') in Ht. }
  eapply triple_weaken; [apply load_triple|done| |done]. intros m' [st' r] d [Hst Hr]. cbn [fst snd] in *. split.
  - destruct Hst as [->|(record & Ht & _)]; [done|by destruct (Hno record)].
  - destruct r as [latest|e].
    + destruct Hr as (p' & Hch' & Hcl). exists p'. split; [done|]. unfold resting in Hcl. by rewrite (Hch _ _ Hch') in Hcl.
    + destruct Hr as [[Hf|(record & Ht & _)] Hr]; [done|by destruct (Hno record)].
Qed.

Section Reserved.
Variables (id : string) (h : history) (p : string) (request : AppendChunkRequest) (body : string * bool) (env : environment) (st : Store).
Let s := last_state h.
Let record := state s.
Hypothesis live : isTerminalState (State record) = false.
Hypothesis uploading : State record = StateUploading.
Hypothesis this_id : ID record = id.
Hypothesis positive : 0 < Length request.
Hypothesis bounded : DurableOffset record + Length request <= maxInt64.
Hypothesis offset : len p = DurableOffset record.
Hypothesis nonce : forall b, entropy env = Some b -> String.length b = 16%nat.

Definition next_record : diskState := finished (advance record request (now_change env) (TTL (opts st))) (p +:+ fst body).
Definition next_payload : string := p +:+ fst body.

(** What a crash in the append leaves. *)
Definition append_crash (d : dir) : Prop := Rec id s p None d \/
  bodyError request body = None /\ exists c, successor s next_record = Ok c /\ Rec id s p (Some (c, next_payload)) d.

(** What it returns: the flag says exactly whether the chunk is durable. *)
Definition append_post (m m' : mode) (r : Store * result UploadError Session.t * bool) (d : dir) : Prop :=
  let '(st', result, committed) := r in
  if (committed : bool) then
    bodyError request body = None /\ exists c, successor s next_record = Ok c /\
      clean (present_payload (state c) next_payload) id c next_payload d /\ st' = publishSnapshot st (state c) /\
      (result = Ok (publicSession (state c)) \/ failed m m' /\ exists e, result = Err e)
  else
    Rec id s p None d /\ st' = st /\ (exists e, result = Err e) /\
    (failed m m' \/ bodyError request body <> None \/ entropy env = None \/ exists e, successor s next_record = Err e).

Lemma next_fields : State next_record = StateUploading \/ State next_record = StateReady.
Proof. unfold next_record, finished. destruct (_ =? _); [by right|]. left. exact uploading. Qed.

Lemma body_length : bodyError request body = None -> len (fst body) = Length request.
Proof.
  unfold bodyError. destruct body as [bytes ends]. destruct (Z.ltb_spec (len bytes) (Length request)); [done|].
  destruct (Z.ltb_spec (Length request) (len bytes)); [done|]. intros _. simpl. lia.
Qed.

Lemma next_offset : DurableOffset next_record = DurableOffset record + Length request.
Proof.
  unfold next_record, finished. assert (E : int64 (DurableOffset record + Length request) = DurableOffset record + Length request).
  { apply int64_id. unfold in_int64, minInt64. unfold len in offset. lia. }
  destruct (_ =? _); exact E.
Qed.

Lemma next_identity : PayloadIdentity next_record = PayloadIdentity record /\ ID next_record = ID record /\
  LastChunkID next_record = ChunkID request /\ LastChunkSHA256 next_record = ChunkSHA256 request.
Proof. unfold next_record, finished. by destruct (_ =? _). Qed.

Lemma next_live c : successor s next_record = Ok c -> isTerminalState (State (state c)) = false.
Proof.
  unfold successor. cbv zeta. destruct (validateDiskState _); [|done]. destruct (encodeState _); [|done]. intros [= <-]. simpl.
  by destruct next_fields as [-> | ->].
Qed.

(** The payload that has grown by the chunk is that of the successor. *)
Lemma grown_next c o : bodyError request body = None -> successor s next_record = Ok c -> grown h p (fst body) true o ->
  len next_payload = DurableOffset (state c) /\ present_payload (state c) next_payload o.
Proof.
  intros Hb Hc (f & -> & (F1 & F2 & _) & Fb & Hd). pose proof (proj1 (successor_state _ _ _ Hc)) as Es. split.
  - rewrite Es. simpl. rewrite next_offset. unfold next_payload. rewrite sapp_len, (body_length Hb). lia.
  - exists f. split; [done|]. split; [by apply Hd|]. rewrite Es, F2. simpl. symmetry. apply next_identity.
Qed.

Lemma recovered_same c : successor s next_record = Ok c ->
  (DurableOffset (state c) =? DurableOffset next_record) && String.eqb (LastChunkID (state c)) (ChunkID request) &&
  String.eqb (LastChunkSHA256 (state c)) (ChunkSHA256 request) = true.
Proof.
  intros Hc. rewrite (proj1 (successor_state _ _ _ Hc)). simpl. destruct next_identity as (_ & _ & -> & ->).
  by rewrite Z.eqb_refl, !String.eqb_refl.
Qed.

Lemma recovered_old b b' : (DurableOffset (state s) =? DurableOffset next_record) && b && b' = false.
Proof. rewrite next_offset. fold record. destruct (Z.eqb_spec (DurableOffset record) (DurableOffset record + Length request)); [lia|done]. Qed.

(** The end of an append whose state was not written: the session is loaded again. *)
Lemma reload_triple m m0 e (cand : option (loadedSession * string)) :
  mode_le m m0 -> (cand = None \/ bodyError request body = None /\ failed m0 m /\ exists c, successor s next_record = Ok c /\ cand = Some (c, next_payload)) ->
  (failed m0 m \/ entropy env = None \/ exists e, successor s next_record = Err e) ->
  triple m (Rec id s p cand)
    (run! (st', recovered) := load st (ID record) in
     match recovered with
     | Ok recovered =>
       if (DurableOffset (state recovered) =? DurableOffset next_record) && String.eqb (LastChunkID (state recovered)) (ChunkID request) &&
          String.eqb (LastChunkSHA256 (state recovered)) (ChunkSHA256 request)
       then ret (publishSnapshot st' (state recovered), @Err UploadError Session.t e, true)
       else ret (st', Err e, false)
     | Err _ => ret (st', Err e, false)
     end)
    (append_post m0) append_crash.
Proof.
  intros Hm Hcand Hwhy. rewrite this_id.
  assert (Hcrash : forall d, Rec id s p cand d -> append_crash d).
  { intros d Hd. destruct Hcand as [-> |(Hb & _ & c & Hc & ->)]; [by left|]. right. split; [done|]. by exists c. }
  assert (Hno : forall m', mode_le m' m -> failed m0 m' \/ bodyError request body <> None \/ entropy env = None \/ exists e, successor s next_record = Err e).
  { intros m' Hm'. destruct Hwhy as [Hf|[?|?]]; [left; by eapply failed_le_r|auto..]. }
  eapply triple_bind.
  { eapply triple_weaken; [apply (load_live_triple st id s p cand m live)|done|intros m' r d Hr; exact Hr|exact Hcrash].
    intros c pc E. destruct Hcand as [-> |(_ & _ & c' & Hc & ->)]; [done|]. injection E as <- _. by apply next_live. }
  intros m1 [st' r] Hm1. cbn [fst snd]. apply triple_pure. intros ->. destruct r as [latest|e'].
  - apply triple_exists. intros p'. apply triple_pure. intros [[-> ->]|Ec].
    + rewrite recovered_old. apply triple_ret. intros d Hd. split; [by eapply clean_rec|]. split; [done|]. split; [by exists e|by apply Hno].
    + destruct Hcand as [-> |(Hb & Hf & c & Hc & ->)]; [done|]. injection Ec as <- <-. rewrite (recovered_same c Hc).
      apply triple_ret. intros d Hd. split; [done|]. exists c. split; [done|]. split; [done|]. split; [done|]. right.
      split; [by eapply failed_le_r|by exists e].
  - apply triple_ret. intros d [Hf Hd]. assert (cand = None) as ->.
    { destruct Hcand as [->|(_ & Hf' & _)]; [done|]. destruct Hf as [-> _], Hf' as [_ E]. discriminate. }
    split; [done|]. split; [done|]. split; [by exists e|by apply Hno].
Qed.

Lemma writeNext_fails next e : (successor s next = Err e \/ entropy env = None) ->
  exists e', forall w, writeNextState s next (entropy env) (pending_identity env) w = ret (Err e') w.
Proof.
  rewrite writeNextState_successor. intros [-> | ->]; [by exists e|].
  destruct (successor s next) as [c|e'']; [|by exists e'']. by exists errEntropy.
Qed.

Lemma triple_eq {A} m P (c c' : prog A) Q D : (forall w, c w = c' w) -> triple m P c' Q D -> triple m P c Q D.
Proof. intros E Ht w. rewrite E. apply Ht. Qed.

Lemma appendReserved_triple m :
  triple m (at_rest (present_payload record p) id h p) (appendReserved blake3 st s request body env) (append_post m) append_crash.
Proof.
  unfold appendReserved. cbv zeta.
  set (prefix := try! _ := writeChunk (state s) request body in finishChunk blake3 (advance (state s) request (now_change env) (TTL (opts st)))).
  assert (Hpre : triple m (at_rest (present_payload record p) id h p) prefix
    (out (bodyError request body <> None) m (fun r d => (bodyError request body = None /\ r = next_record) /\ at_rest (grown h p (fst body) true) id h p d)
      (Rec id s p None)) (Rec id s p None)).
  { eapply triple_try; [by apply (writeChunk_triple id h p live m)| |done]. intros m1 u Hm1. apply triple_pure. intros Hb.
    eapply triple_out_weaken; [apply (finishChunk_triple id h p (fst body) m1 False true)|done|done| |intros d; apply at_rest_rec].
    - done.
    - change (int64 (DurableOffset record + Length request) = len p + len (fst body)). rewrite (body_length Hb).
      rewrite int64_id; [lia|]. unfold in_int64, minInt64. unfold len in offset. lia.
    - intros r d [-> Hd]. done. }
  eapply triple_bind.
  { eapply triple_weaken; [exact Hpre|done|intros m' r d Hr; exact Hr|by left]. }
  intros m1 [next|e] Hm1.
  2:{ apply triple_ret. intros d [Hf Hd]. split; [done|]. split; [done|]. split; [by exists e|]. destruct Hf; auto. }
  cbn [out]. apply triple_pure. intros [Hb ->].
  destruct (successor s next_record) as [c|e] eqn:Hc; [destruct (entropy env) as [bytes|] eqn:Hent|].
  - eapply triple_bind.
    { eapply triple_weaken; [apply (writeNext_triple m1 (grown h p (fst body) true) id h p next_record c next_payload (Some bytes))|done|intros m' r d Hr; exact Hr|].
      - done.
      - rewrite <-this_id. apply next_identity.
      - intros b [= <-]. by apply nonce.
      - intros d Hg. destruct (grown_next c _ Hb Hc Hg) as [Hl Hp]. by apply present_holds.
      - intros d Hd. right. split; [done|]. by exists c. }
    intros m2 [persisted|e] Hm2.
    + cbn [out]. apply triple_pure. intros ->. apply triple_ret. intros d (h' & Hh & E & Hn & Hg). split; [done|].
      exists c. split; [done|]. split; [|by auto]. exists h'. split; [done|]. split; [done|]. split; [done|].
      by apply (grown_next c _ Hb Hc).
    + cbn [out]. apply (triple_fact _ (failed m1 m2)); [by intros d [[?|?] _]|]. intros Hf.
      eapply triple_pre; [apply (reload_triple m2 m e (Some (c, next_payload)))|intros d [_ Hd]; exact Hd].
      * by eapply mode_le_trans.
      * right. split; [done|]. split; [by eapply failed_le_l|]. by exists c.
      * left. by eapply failed_le_l.
  - destruct (writeNext_fails next_record errEntropy) as [e' He']; [by right|]. rewrite Hent in He'.
    eapply triple_bind with (Q := fun m' r d => r = Err e' /\ Rec id s p None d).
    { eapply triple_eq; [exact He'|]. apply triple_ret. intros d Hd. split; [done|by eapply at_rest_rec]. }
    intros m2 r Hm2. apply triple_pure. intros ->. apply reload_triple; [by eapply mode_le_trans|by left|auto].
  - destruct (writeNext_fails next_record e) as [e' He']; [by left|].
    eapply triple_bind with (Q := fun m' r d => r = Err e' /\ Rec id s p None d).
    { eapply triple_eq; [exact He'|]. apply triple_ret. intros d Hd. split; [done|by eapply at_rest_rec]. }
    intros m2 r Hm2. apply triple_pure. intros ->. apply reload_triple; [by eapply mode_le_trans|by left|eauto].
Qed.
End Reserved.

End Append.
End UploadAppend.
