(* ===== verification/UploadSpec.v ===== *)
(** * What an upload session promises

    The specification of internal/uploadsession: a session is a record and the bytes that it has
    received; an append of the right chunk and each transition is one atomic step to the next revision.
    Here are the steps and what every run of them keeps. *)

From Stdlib Require Import Ascii.
From S2P Require Import Prelude GoStrings GoPath GoFormat Sha256 FileMonad UploadTypes UploadStaging UploadFiles.
From S2P Require Import UploadNames UploadInvariant UploadRecovery UploadLoad UploadStore UploadAppend.
Import UploadTypes UploadStaging UploadFiles UploadNames UploadInvariant UploadRecovery UploadLoad UploadStore UploadAppend.

Module UploadSpec.

(** A session: its last record and its payload. *)
Notation session := (loadedSession * string)%type.

(** What [Cancel] makes of a record, as a change. *)
Definition cancel : change := fun record =>
  match State record with
  | StateUploading | StateReady =>
    Ok (with_state record StateCancelled (PublicationStarted record) (PersistenceWarning record) (ConflictReason record), true)
  | StateCancelled => Ok (record, false)
  | _ => Err ErrInvalidState
  end.

Inductive allowed : change -> Prop :=
| allow_begin : allowed begin_commit
| allow_started : allowed mark_started
| allow_ready : allowed mark_ready
| allow_committed hash warning : allowed (mark_committed hash warning)
| allow_conflict reason : validCleanText reason 1024 = true -> allowed (mark_conflict reason)
| allow_cancel : allowed cancel.

Section Spec.
Context `{StateCodec} (blake3 : string -> string).

Inductive step : session -> session -> Prop :=
| step_append s p request body now ttl c :
    State (state s) = StateUploading -> Offset request = DurableOffset (state s) -> 0 < Length request ->
    Length request <= TotalBytes (state s) - DurableOffset (state s) -> bodyError request body = None ->
    successor s (finished blake3 (advance (state s) request now ttl) (p +:+ fst body)) = Ok c ->
    step (s, p) (c, p +:+ fst body)
| step_change s p ch next now ttl c :
    allowed ch -> ch (state s) = Ok (next, true) -> successor s (with_times next now ttl) = Ok c -> step (s, p) (c, p).

(** What a session promises of its bytes. *)
Record good (a : session) : Prop := {
  good_valid : validateDiskState (state (fst a)) = true;
  good_length : len (snd a) = DurableOffset (state (fst a));
  good_total : TotalBytes (state (fst a)) <= maxInt64;
  good_chunk : LastChunkOffset (state (fst a)) <> -1 ->
    digestBytes (str_drop (Z.to_nat (LastChunkOffset (state (fst a)))) (snd a)) = LastChunkSHA256 (state (fst a));
  good_content : DurableOffset (state (fst a)) = TotalBytes (state (fst a)) -> ContentBLAKE3 (state (fst a)) = blake3 (snd a);
}.

(** ** Transitions *)

(** The order of the states. *)
Definition follows (a b : SessionState) : bool :=
  match a, b with
  | StateUploading, (StateUploading | StateReady | StateCancelled) => true
  | StateReady, (StateCommitting | StateConflict | StateCancelled) => true
  | StateCommitting, (StateCommitting | StateReady | StateCommitted | StateConflict) => true
  | _, _ => false
  end.

(** The fields that belong to a session from its creation on. *)
Definition same_session (a b : diskState) : Prop :=
  SchemaVersion b = SchemaVersion a /\ ID b = ID a /\ Owner b = Owner a /\ ClientRequestID b = ClientRequestID a /\ Path b = Path a /\
  TotalBytes b = TotalBytes a /\ Condition b = Condition a /\ PayloadIdentity b = PayloadIdentity a /\ CreatedAt b = CreatedAt a.

Lemma change_follows ch record next : allowed ch -> ch record = Ok (next, true) ->
  follows (State record) (State next) = true /\ same_session record next /\ DurableOffset next = DurableOffset record /\
  ContentBLAKE3 next = ContentBLAKE3 record.
Proof.
  intros Ha. destruct Ha; unfold begin_commit, mark_started, mark_ready, mark_committed, mark_conflict, cancel.
  - destruct (State record) eqn:E; try done; intros [= <-]; simpl; by rewrite ?E.
  - destruct (State record) eqn:E; rewrite ?E; try done; simpl. destruct (PublicationStarted record); [done|]. intros [= <-]. simpl. by rewrite ?E.
  - destruct (State record) eqn:E; try done; intros [= <-]; simpl; by rewrite ?E.
  - destruct (negb _); [done|]. destruct (State record) eqn:E; try done; [|by destruct (negb _)]. intros [= <-]; simpl; by rewrite ?E.
  - destruct (State record) eqn:E; try done; try (by destruct (negb _)); intros [= <-]; simpl; by rewrite ?E.
  - destruct (State record) eqn:E; try done; intros [= <-]; simpl; by rewrite ?E.
Qed.

Lemma finished_fields record request now ttl payload : let next := finished blake3 (advance record request now ttl) payload in
  same_session record next /\ DurableOffset next = int64 (DurableOffset record + Length request) /\
  (State next = if int64 (DurableOffset record + Length request) =? TotalBytes record then StateReady else State record) /\
  (int64 (DurableOffset record + Length request) = TotalBytes record -> ContentBLAKE3 next = blake3 payload).
Proof.
  unfold finished. simpl. destruct (Z.eqb_spec (int64 (DurableOffset record + Length request)) (TotalBytes record)); simpl; [|done].
  split; [by repeat split|done].
Qed.

Lemma link_fields s next : let r := link s next in
  same_session next r /\ DurableOffset r = DurableOffset next /\ State r = State next /\ ContentBLAKE3 r = ContentBLAKE3 next.
Proof. by repeat split. Qed.

Lemma same_session_trans a b c : same_session a b -> same_session b c -> same_session a c.
Proof. unfold same_session. intros. intuition congruence. Qed.

(** One step, field by field. *)
Lemma step_fields a b : good a -> step a b ->
  follows (State (state (fst a))) (State (state (fst b))) = true /\ same_session (state (fst a)) (state (fst b)) /\
  linked (fst a) (fst b) /\ validateDiskState (state (fst b)) = true /\
  Revision (state (fst b)) = uint64 (Revision (state (fst a)) + 1) /\
  exists x, snd b = snd a +:+ x /\ DurableOffset (state (fst b)) = DurableOffset (state (fst a)) + len x.
Proof.
  intros Hg Hs. destruct Hs as [s p request body now ttl c Hst Hoff Hpos Hlen Hbody Hc|s p ch next now ttl c Ha Hch Hc]; cbn [fst snd] in *.
  - destruct (successor_state _ _ _ Hc) as [Ec Hv].
    destruct (finished_fields (state s) request now ttl (p +:+ fst body)) as (F1 & F2 & F3 & _).
    destruct (link_fields s (finished blake3 (advance (state s) request now ttl) (p +:+ fst body))) as (L1 & L2 & L3 & _).
    rewrite <-Ec in *. rewrite Hst in F3. pose proof (good_length _ Hg) as Hl. pose proof (good_total _ Hg) as Ht. cbn [fst snd] in *.
    assert (E : int64 (DurableOffset (state s) + Length request) = DurableOffset (state s) + Length request).
    { apply int64_id. unfold in_int64, minInt64. unfold len in Hl. lia. }
    split; [rewrite L3, F3, Hst; by destruct (_ =? _)|]. split; [by eapply same_session_trans|]. split.
    { split; [by rewrite Ec|]. by rewrite Ec. }
    split; [done|]. split; [by rewrite Ec|]. exists (fst body). split; [done|].
    rewrite L2, F2, E, (body_length request body Hbody). done.
  - destruct (successor_state _ _ _ Hc) as [Ec Hv].
    destruct (change_follows ch _ next Ha Hch) as (F1 & F2 & F3 & _).
    destruct (link_fields s (with_times next now ttl)) as (L1 & L2 & L3 & _). rewrite <-Ec in *.
    split; [by rewrite L3|]. split; [by eapply same_session_trans; [exact F2|]|]. split.
    { split; [by rewrite Ec|]. by rewrite Ec. }
    split; [done|]. split; [by rewrite Ec|]. exists "". rewrite sapp_nil_r. split; [done|]. rewrite L2. simpl. unfold len. simpl. lia.
Qed.

(** A transition keeps the last chunk; an append leaves its own. *)
Lemma change_chunk ch record next : allowed ch -> ch record = Ok (next, true) ->
  LastChunkOffset next = LastChunkOffset record /\ LastChunkSHA256 next = LastChunkSHA256 record.
Proof.
  intros Ha. destruct Ha; unfold begin_commit, mark_started, mark_ready, mark_committed, mark_conflict, cancel.
  - destruct (State record); try done; by intros [= <-].
  - destruct (negb _); [done|]. destruct (PublicationStarted record); [done|]. by intros [= <-].
  - destruct (State record); try done; by intros [= <-].
  - destruct (negb _); [done|]. destruct (State record); try done; [by intros [= <-]|by destruct (negb _)].
  - destruct (State record); try done; try (by destruct (negb _)); by intros [= <-].
  - destruct (State record); try done; by intros [= <-].
Qed.

Lemma body_digest request body : bodyError request body = None -> digestBytes (fst body) = ChunkSHA256 request.
Proof.
  unfold bodyError. destruct body as [bytes ends]. destruct (_ <? _); [done|]. destruct (_ || _); [done|].
  destruct (String.eqb_spec (digestBytes bytes) (ChunkSHA256 request)); done.
Qed.

Lemma step_good a b : good a -> step a b -> good b.
Proof.
  intros Hg Hs. destruct (step_fields a b Hg Hs) as (_ & Hsame & _ & Hv & _ & x & Ex & Ed).
  pose proof Hsame as (_ & _ & _ & _ & _ & Et & _). split; [done|..].
  - rewrite Ex, sapp_len, Ed, (good_length _ Hg). lia.
  - rewrite Et. apply Hg.
  - destruct Hs as [s p request body now ttl c Hst Hoff Hpos Hlen Hbody Hc|s p ch next now ttl c Ha Hch Hc]; cbn [fst snd] in *.
    + destruct (successor_state _ _ _ Hc) as [Ec _]. intros _.
      assert (E1 : LastChunkOffset (state c) = Offset request /\ LastChunkSHA256 (state c) = ChunkSHA256 request).
      { rewrite Ec. unfold finished. by destruct (_ =? _). }
      destruct E1 as [-> ->]. rewrite Hoff. pose proof (good_length _ Hg) as Hl. cbn [fst snd] in Hl. rewrite <-Hl. unfold len.
      rewrite Nat2Z.id, str_drop_app. by apply body_digest.
    + destruct (successor_state _ _ _ Hc) as [Ec _]. destruct (change_chunk ch _ next Ha Hch) as [F1 F2].
      rewrite Ec. cbn [LastChunkOffset LastChunkSHA256 link with_times]. rewrite F1, F2. apply (good_chunk _ Hg).
  - intros E. destruct Hs as [s p request body now ttl c Hst Hoff Hpos Hlen Hbody Hc|s p ch next now ttl c Ha Hch Hc]; cbn [fst snd] in *.
    + destruct (successor_state _ _ _ Hc) as [Ec _].
      destruct (finished_fields (state s) request now ttl (p +:+ fst body)) as (F1 & F2 & F3 & F4).
      destruct (link_fields s (finished blake3 (advance (state s) request now ttl) (p +:+ fst body))) as (_ & L2 & _ & L4).
      rewrite <-Ec in *. rewrite L4. apply F4. rewrite <-F2, <-L2, E, Et. done.
    + destruct (successor_state _ _ _ Hc) as [Ec _]. destruct (change_follows ch _ next Ha Hch) as (_ & F2 & F3 & F4).
      destruct (link_fields s (with_times next now ttl)) as (_ & L2 & _ & L4). rewrite <-Ec in *. rewrite L4. simpl. rewrite F4.
      apply (good_content _ Hg). cbn [fst snd]. rewrite <-F3. rewrite L2 in E. simpl in E. by rewrite E, Et.
Qed.

Lemma steps_good a b : good a -> rtc step a b -> good b.
Proof. intros Hg Hs. induction Hs as [|a b c Hab _ IH]; [done|]. apply IH. by eapply step_good. Qed.

(** Nothing follows a terminal state. *)
Lemma terminal_stuck a b : good a -> isTerminalState (State (state (fst a))) = true -> ~ step a b.
Proof.
  intros Hg Ht Hs. destruct (step_fields a b Hg Hs) as (Hf & _). by destruct (State (state (fst a))).
Qed.
End Spec.
End UploadSpec.
