(* ===== verification/UploadAtomic.v ===== *)
(** * The operations of the store are atomic and durable

    Every operation of the store on a session, with a failing file operation and crashes of the machine,
    does some steps of the specification: what it acknowledges is on disk, and after an error or a crash
    the next load finds the record of before or the successor that was being written. *)

From Stdlib Require Import Ascii.
From S2P Require Import Prelude GoStrings GoPath GoFormat Sha256 FileMonad UploadTypes UploadStaging UploadFiles.
From S2P Require Import UploadNames UploadInvariant UploadRecovery UploadLoad UploadStore UploadAppend UploadSpec.
Import UploadTypes UploadStaging UploadFiles UploadNames UploadInvariant UploadRecovery UploadLoad UploadStore UploadAppend UploadSpec.

Module UploadAtomic.

Section Atomic.
Context `{StateCodec} (blake3 : string -> string).
Notation step := (step blake3).
Implicit Types (a b : session) (d : dir).

(** The directory holds the session [a]; the next load may find a step from it. *)
Definition Durable (id : string) (a : session) (d : dir) : Prop :=
  exists cand, Rec id (fst a) (snd a) cand d /\ forall b, cand = Some b -> step a b.
(** It holds [a] and nothing else. *)
Definition Resting (id : string) (a : session) (d : dir) : Prop := clean (resting (state (fst a)) (snd a)) id (fst a) (snd a) d.
(** It holds a session that steps lead to. *)
Definition Reach (id : string) (a : session) (d : dir) : Prop := exists b, rtc step a b /\ Durable id b d.

Lemma clean_durable (F : option file -> Prop) id a d : clean F id (fst a) (snd a) d -> Durable id a d.
Proof. intros Hc. exists None. split; [by eapply clean_rec|done]. Qed.
Lemma Resting_durable id a d : Resting id a d -> Durable id a d.
Proof. apply clean_durable. Qed.
Lemma rec_durable id a d : Rec id (fst a) (snd a) None d -> Durable id a d.
Proof. intros Hr. by exists None. Qed.
Lemma Durable_reach id a b d : rtc step a b -> Durable id b d -> Reach id a d.
Proof. intros. by exists b. Qed.
Lemma Durable_settle id a d n : Durable id a d -> Durable id a (settle n d).
Proof. intros (cand & Hr & Hc). exists cand. split; [by apply Rec_settle|done]. Qed.
Lemma Durable_id id a d : Durable id a d -> validID id = true.
Proof. intros (cand & Hr & _). by eapply Rec_valid_id. Qed.
Lemma Reach_trans id a b d : rtc step a b -> Reach id b d -> Reach id a d.
Proof. intros Hs (c & Hs' & Hd). exists c. split; [by etrans|done]. Qed.
Lemma Reach_refl id a d : Durable id a d -> Reach id a d.
Proof. apply Durable_reach, rtc_refl. Qed.
Lemma Durable_step id a c pc d : step a (c, pc) -> Rec id (fst a) (snd a) (Some (c, pc)) d -> Durable id a d.
Proof. intros Hs Hr. exists (Some (c, pc)). split; [done|]. by intros b [= <-]. Qed.

Lemma chosen_steps a cand s' p' : (forall b, cand = Some b -> step a b) -> chosen (fst a) (snd a) cand s' p' -> rtc step a (s', p').
Proof. intros Hc [[-> ->]|E]; [destruct a; apply rtc_refl|by apply rtc_once, Hc]. Qed.

Lemma resting_fields id a d : Resting id a d -> session_ok id (Revision (state (fst a))) (fst a) /\
  len (snd a) = DurableOffset (state (fst a)) /\ 1 <= Revision (state (fst a)) <= maxUint64.
Proof.
  intros (h & Hh & E & _). pose proof (last_ok _ _ (holds_history _ _ _ _ _ Hh)) as Ho.
  pose proof (last_revision_ok _ _ _ _ _ Hh) as [? ?]. pose proof (holds_payload _ _ _ _ _ Hh) as [Hl _].
  rewrite E in Ho, Hl. rewrite (session_revision_ok _ _ _ Ho). split; [done|]. split; [done|]. lia.
Qed.

(** ** Loading *)

(** A reply: [Err] leaves the session as it was, or a step ahead. *)
Definition loads (id : string) (a : session) (Q : loadedSession -> Prop) (m' : mode) (r : Store * result UploadError loadedSession) (d : dir) : Prop :=
  match snd r with
  | Ok latest => Q latest /\ exists p, rtc step a (latest, p) /\ Resting id (latest, p) d
  | Err _ => Reach id a d
  end.

Lemma load_spec st id a m : triple m (Durable id a) (load st id) (loads id a (fun _ => True)) (Durable id a).
Proof.
  apply triple_exists. intros cand. eapply triple_pre with (P' := fun d => (forall b, cand = Some b -> step a b) /\ Rec id (fst a) (snd a) cand d);
    [|intros d [? ?]; done].
  apply triple_pure. intros Hc. eapply triple_weaken; [apply (load_triple st id (fst a) (snd a) cand m)|done| |].
  - intros m' [st' r] d [_ Hr]. unfold loads. cbn [snd] in *. destruct r as [latest|e].
    + destruct Hr as (p & Hch & Hcl). split; [done|]. exists p. split; [by eapply chosen_steps|done].
    + destruct Hr as [_ Hr]. apply Reach_refl. by exists cand.
  - intros d Hr. by exists cand.
Qed.

Lemma loadOwned_spec st owner id now a m :
  triple m (Durable id a) (loadOwnedSession st owner id now)
    (loads id a (fun latest => Owner (state latest) = owner)) (Durable id a).
Proof.
  assert (Hret : forall m0 s0 e, triple m0 (Durable id a) (ret (s0, Err e)) (loads id a (fun latest => Owner (state latest) = owner)) (Durable id a)).
  { intros m0 s0 e. apply triple_ret. intros d. apply Reach_refl. }
  unfold loadOwnedSession. destruct (_ || _); [done|]. destruct (closed st); [done|]. destruct (sessions st !! id) as [known|]; [|done].
  destruct (_ || _); [done|]. eapply triple_bind; [apply load_spec|]. intros m1 [st' r] Hm1. unfold loads at 1. cbn [snd].
  destruct r as [latest|e]; [|by apply triple_ret].
  assert (Hfail : forall e, triple m1 (fun d => True /\ exists p, rtc step a (latest, p) /\ Resting id (latest, p) d) (ret (st', Err e))
    (loads id a (fun latest => Owner (state latest) = owner)) (Durable id a)).
  { intros e. apply triple_ret. intros d (_ & p & Hs & Hr). eapply Durable_reach; [exact Hs|by apply Resting_durable]. }
  destruct (String.eqb_spec (Owner (state latest)) owner) as [Eo|]; cbn [negb]; [|apply Hfail].
  destruct (sessionExpired _ _ _); [apply Hfail|]. apply triple_ret. by intros d (_ & p & Hs & Hr); split; [|exists p].
Qed.

(** What every operation on the session does. *)
Definition does {A} (id : string) (a : session) (view : A -> Session.t) (m' : mode) (r : Store * result UploadError A) (d : dir) : Prop :=
  match snd r with
  | Ok x => exists b, rtc step a b /\ view x = publicSession (state (fst b)) /\ Durable id b d
  | Err _ => Reach id a d
  end.

(** An operation that first loads the session. *)
Lemma triple_loaded {A} id a m (view : A -> Session.t) (c : prog (Store * result UploadError loadedSession)) Q
    (k : Store -> loadedSession -> prog (Store * result UploadError A)) :
  triple m (Durable id a) c (loads id a Q) (Durable id a) ->
  (forall m' st' b, Q (fst b) -> rtc step a b -> triple m' (Resting id b) (k st' (fst b)) (fun m'' => does id b view m'') (Reach id b)) ->
  triple m (Durable id a) (run! (st', loaded) := c in match loaded with Err e => ret (st', Err e) | Ok loaded => k st' loaded end)
    (fun m' => does id a view m') (Reach id a).
Proof.
  intros Hc Hk. eapply triple_bind.
  { eapply triple_weaken; [exact Hc|done|intros m' r d Hr; exact Hr|apply Reach_refl]. }
  intros m1 [st' r] Hm1. unfold loads. cbn [snd]. destruct r as [latest|e]; [|by apply triple_ret].
  apply triple_pure. intros HQ. apply triple_exists. intros p. apply triple_pure. intros Hs.
  eapply triple_weaken; [apply (Hk m1 st' (latest, p) HQ Hs)|done| |].
  - intros m' [st'' x] d. unfold does. cbn [snd]. destruct x as [x|e].
    + intros (b & Hb & E & Hd). exists b. split; [by etrans|done].
    + by apply Reach_trans.
  - intros d. by apply Reach_trans.
Qed.

(** Where nothing is changed. *)
Lemma does_ok {A} id b view m' st' (x : A) d : Resting id b d -> view x = publicSession (state (fst b)) -> does id b view m' (st', Ok x) d.
Proof. intros Hr E. exists b. split; [apply rtc_refl|]. split; [done|by apply Resting_durable]. Qed.

Lemma does_err {A} id b view m' st' e d : Resting id b d -> does id b (view : A -> Session.t) m' (st', Err e) d.
Proof. intros Hr. by apply Reach_refl, Resting_durable. Qed.

Lemma does_rec {A} id b view m' st' (r : result UploadError A) d : Rec id (fst b) (snd b) None d ->
  (forall x, r = Ok x -> view x = publicSession (state (fst b))) -> does id b view m' (st', r) d.
Proof.
  intros Hr Hv. unfold does. cbn [snd]. destruct r as [x|e].
  - exists b. split; [apply rtc_refl|]. split; [by apply Hv|by apply rec_durable].
  - by apply Reach_refl, rec_durable.
Qed.

Lemma Resting_reach_settle id b d n : Resting id b d -> Reach id b (settle n d).
Proof. intros Hr. by apply Reach_refl, Durable_settle, Resting_durable. Qed.

Lemma get_spec st owner id now a m :
  triple m (Durable id a) (get st owner id now) (fun m' => does id a (fun x => x) m') (Reach id a).
Proof.
  apply (triple_loaded _ _ _ _ _ _ (fun st' loaded => ret (publishSnapshot st' (state loaded), Ok (publicSession (state loaded)))) (loadOwned_spec st owner id now a m)).
  intros m' st' b _ _. apply triple_ret. intros d Hd. by apply does_ok.
Qed.

(** Programs that only read. *)
Lemma stat_keeps m (P : dir -> Prop) e name C : (forall d n, P d -> C (settle n d)) ->
  triple m P (or_error e (stat name)) (fun _ _ => P) C.
Proof.
  intros HC. eapply triple_bind; [by apply triple_stat|]. intros m' [f|e'] _; apply triple_ret; by intros d [Hd _].
Qed.

Lemma openVerified_keeps m (P : dir -> Prop) record C : (forall d n, P d -> C (settle n d)) ->
  triple m P (openVerifiedPayload record) (fun _ _ => P) C.
Proof.
  intros HC. eapply triple_bind; [by apply stat_keeps|]. intros m' [f|e] _; by apply triple_ret.
Qed.

Lemma hash_keeps m (P : dir -> Prop) record C : (forall d n, P d -> C (settle n d)) ->
  triple m P (hashOpenPayload blake3 record) (fun _ _ => P) C.
Proof.
  intros HC. eapply triple_bind; [by apply stat_keeps|]. intros m' [f|e] _; [|by apply triple_ret].
  destruct (negb _); [by apply triple_ret|]. eapply triple_bind; [by apply stat_keeps|]. intros m'' [g|e] _; by apply triple_ret.
Qed.

Lemma OpenPayload_spec st owner id now a m :
  triple m (Durable id a) (OpenPayload blake3 st owner id now) (fun m' => does id a snd m') (Reach id a).
Proof.
  apply (triple_loaded _ _ _ _ _ _ _ (loadOwned_spec st owner id now a m)). intros m1 st' b _ _.
  assert (Herr : forall m0 e, triple m0 (Resting id b) (ret (st', @Err UploadError (string * Session.t) e)) (fun m' => does id b snd m') (Reach id b)).
  { intros m0 e. apply triple_ret. intros d. apply does_err. }
  assert (Hopen : triple m1 (Resting id b)
    (run! opened := openVerifiedPayload (state (fst b)) in match opened with
     | Err e => ret (st', Err e)
     | Ok payload => run! hash := hashOpenPayload blake3 (state (fst b)) in match hash with
       | Err e => ret (st', Err e)
       | Ok hash => if negb (String.eqb hash (ContentBLAKE3 (state (fst b)))) then ret (st', Err ErrRecoveryRequired)
                    else ret (st', Ok (f_bytes payload, publicSession (state (fst b))))
       end end) (fun m' => does id b snd m') (Reach id b)).
  { eapply triple_bind; [apply openVerified_keeps; intros d n; apply Resting_reach_settle|]. intros m2 [f|e] _; [|apply Herr].
    eapply triple_bind; [apply hash_keeps; intros d n; apply Resting_reach_settle|]. intros m3 [hash|e] _; [|apply Herr].
    destruct (negb _); [apply Herr|]. apply triple_ret. intros d Hd. by apply does_ok. }
  cbv zeta. destruct (State (state (fst b))); [apply Herr|exact Hopen|exact Hopen|apply Herr..].
Qed.

(** ** Transitions *)

Definition env_ok (env : environment) : Prop := forall bytes : string, entropy env = Some bytes -> String.length bytes = 16%nat.

(** The payload of a terminal session is removed. *)
Lemma removePayload_spec st (F : option file -> Prop) id b m : isTerminalState (State (state (fst b))) = true ->
  triple m (clean F id (fst b) (snd b)) (removePayload st (state (fst b)))
    (fun _ _ => Rec id (fst b) (snd b) None) (Rec id (fst b) (snd b) None).
Proof.
  intros Ht. apply triple_exists. intros h.
  eapply triple_pre with (P' := fun d => last_state h = fst b /\ at_rest (fun _ => True) id h (snd b) d).
  2:{ intros d (Hh & E & Hn & _). by split. }
  apply triple_pure. intros E. rewrite <-E in *.
  eapply triple_bind; [apply (removeTerminal_triple id h (snd b) m True (release_check st) Ht)|]; [done|].
  intros m1 [u|e] _; apply triple_ret; intros d Hd; [by eapply at_rest_rec|]. by eapply at_rest_rec, (proj2 Hd).
Qed.

(** After a transition to a record [b]: its payload goes if it is terminal. *)
Lemma persisted_spec st (F : option file -> Prop) id b m : isTerminalState (State (state (fst b))) = true ->
  triple m (clean F id (fst b) (snd b))
    (run! (st', r) := removePayload st (state (fst b)) in
     ret (st', match r with Ok _ => Ok (publicSession (state (fst b))) | Err e => Err e end))
    (fun m' => does id b (fun x => x) m') (Rec id (fst b) (snd b) None).
Proof.
  intros Ht. eapply triple_bind; [by apply removePayload_spec|]. intros m1 [st' r] _. apply triple_ret. intros d Hd.
  apply does_rec; [done|]. intros x. destruct r; by intros [= <-].
Qed.

(** The change is written, or not. *)
Lemma change_spec id b ch next now ttl env m c : env_ok env -> good blake3 b -> allowed ch -> ch (state (fst b)) = Ok (next, true) ->
  successor (fst b) (with_times next now ttl) = Ok c ->
  triple m (Resting id b) (writeNextState (fst b) (with_times next now ttl) (entropy env) (pending_identity env))
    (out (entropy env = None) m (fun r d => r = c /\ clean (present_payload (state (fst b)) (snd b)) id c (snd b) d)
       (Rec id (fst b) (snd b) (Some (c, snd b))))
    (Rec id (fst b) (snd b) (Some (c, snd b))).
Proof.
  intros Henv Hg Ha Hch Hc.
  assert (Hstep : step b (c, snd b)) by (destruct b; by eapply step_change).
  assert (Ht : isTerminalState (State (state (fst b))) = false).
  { destruct (isTerminalState (State (state (fst b)))) eqn:E; [|done]. by destruct (terminal_stuck blake3 b _ Hg E Hstep). }
  apply (triple_fact _ (session_ok id (Revision (state (fst b))) (fst b) /\ len (snd b) = DurableOffset (state (fst b)))).
  { intros d Hd. by destruct (resting_fields id b d Hd) as (? & ? & _). }
  intros [Hs Hl]. apply triple_exists. intros h. unfold resting. rewrite Ht.
  eapply triple_pre with (P' := fun d => last_state h = fst b /\ (holds id h (snd b) None d /\ no_pending d /\
    present_payload (state (fst b)) (snd b) (d !! payloadFileName))).
  2:{ intros d (? & ? & ? & ?). done. }
  apply triple_pure. intros E. destruct (successor_state _ _ _ Hc) as [Ec Hv].
  destruct (change_follows ch _ next Ha Hch) as (_ & (_ & Eid & _ & _ & _ & _ & _ & Ep & _) & Eo & _).
  rewrite <-E in *. apply (writeNext_triple m (present_payload (state (last_state h)) (snd b)) id h (snd b)); [done| |done|].
  - simpl. rewrite Eid. by apply (session_id _ _ _ Hs).
  - intros d (f & Ef & Hf). apply present_holds; rewrite Ec; simpl; [by rewrite Eo|]. exists f. split; [done|].
    destruct Hf as [H1 H2]. split; [done|]. simpl. by rewrite H2, Ep.
Qed.

Lemma written_spec id b ch next now ttl env m (k : loadedSession -> prog (Store * result UploadError Session.t)) (e0 : UploadError -> Store) :
  env_ok env -> good blake3 b -> allowed ch -> ch (state (fst b)) = Ok (next, true) ->
  (forall m' c, successor (fst b) (with_times next now ttl) = Ok c ->
     triple m' (clean (present_payload (state (fst b)) (snd b)) id c (snd b)) (k c) (fun m'' => does id (c, snd b) (fun x => x) m'') (Reach id (c, snd b))) ->
  triple m (Resting id b)
    (run! persisted := writeNextState (fst b) (with_times next now ttl) (entropy env) (pending_identity env) in
     match persisted with Err e => ret (e0 e, Err e) | Ok persisted => k persisted end)
    (fun m' => does id b (fun x => x) m') (Reach id b).
Proof.
  intros Henv Hg Ha Hch Hk. destruct (successor (fst b) (with_times next now ttl)) as [c|e] eqn:Hc.
  - assert (Hstep : step b (c, snd b)) by (destruct b; by eapply step_change).
    eapply triple_bind.
    { eapply triple_weaken; [by eapply change_spec|done|intros m' r d Hr; exact Hr|]. intros d Hd. apply Reach_refl. by eapply Durable_step. }
    intros m1 [persisted|e] _; cbn [out].
    + apply triple_pure. intros ->. eapply triple_weaken; [by apply Hk|done| |].
      * intros m' [st' r] d. unfold does. cbn [snd]. destruct r as [x|e].
        -- intros (b' & Hb & E & Hd). exists b'. split; [by eapply rtc_l|done].
        -- apply Reach_trans. by apply rtc_once.
      * intros d. apply Reach_trans. by apply rtc_once.
    + apply triple_ret. intros d [_ Hd]. apply Reach_refl. by eapply Durable_step.
  - eapply triple_bind with (Q := fun m' r d => r = Err e /\ Resting id b d).
    { eapply triple_eq; [intros w; rewrite writeNextState_successor, Hc; reflexivity|]. by apply triple_ret. }
    intros m1 r _. apply triple_pure. intros ->. apply triple_ret. intros d. apply does_err.
Qed.

Lemma transition_spec st owner id ch env a m : env_ok env -> good blake3 a -> allowed ch ->
  triple m (Durable id a) (transition st owner id ch env) (fun m' => does id a (fun x => x) m') (Reach id a).
Proof.
  intros Henv Hga Ha. apply (triple_loaded _ _ _ _ _ _ _ (loadOwned_spec st owner id (now_check env) a m)). intros m1 st' b _ Hs.
  assert (Hg : good blake3 b) by by eapply steps_good.
  destruct (ch (state (fst b))) as [[next changed]|e] eqn:Hch; [|apply triple_ret; intros d; apply does_err].
  destruct changed; cbn [negb].
  - apply (written_spec id b ch next _ _ env m1 _ (fun _ => st')); [done..|]. intros m2 c Hc.
    destruct (isTerminalState (State (state c))) eqn:Ht.
    + eapply triple_weaken; [apply (persisted_spec _ (present_payload (state (fst b)) (snd b)) id (c, snd b) m2 Ht)|done|done|].
      intros d Hd. by apply Reach_refl, rec_durable.
    + apply triple_ret. intros d Hd. apply does_rec; [by eapply clean_rec|]. by intros x [= <-].
  - destruct (isTerminalState (State (state (fst b)))) eqn:Ht.
    + eapply triple_weaken; [apply (persisted_spec _ (resting (state (fst b)) (snd b)) id b m1 Ht)|done|done|].
      intros d Hd. by apply Reach_refl, rec_durable.
    + apply triple_ret. intros d Hd. by apply does_ok.
Qed.

Lemma Cancel_spec st owner id env a m : env_ok env -> good blake3 a ->
  triple m (Durable id a) (Cancel st owner id env) (fun m' => does id a (fun x => x) m') (Reach id a).
Proof.
  intros Henv Hga. apply (triple_loaded _ _ _ _ _ _ _ (loadOwned_spec st owner id (now_check env) a m)). intros m1 st' b _ Hs.
  assert (Hg : good blake3 b) by by eapply steps_good.
  assert (Hno : forall m0 e, triple m0 (Resting id b) (ret (st', Err e)) (fun m'' => does id b (fun x => x) m'') (Reach id b)).
  { intros m0 e. apply triple_ret. intros d. apply does_err. }
  set (next := with_state (state (fst b)) StateCancelled (PublicationStarted (state (fst b))) (PersistenceWarning (state (fst b))) (ConflictReason (state (fst b)))).
  assert (Hw : cancel (state (fst b)) = Ok (next, true) -> triple m1 (Resting id b)
    (run! persisted := writeNextState (fst b) (with_times next (now_change env) (TTL (opts st'))) (entropy env) (pending_identity env) in
     match persisted with
     | Err e => ret (st', Err e)
     | Ok persisted => run! (s, r) := removePayload (publishSnapshot st' (state persisted)) (state persisted) in
       ret (s, match r with Ok _ => Ok (publicSession (state persisted)) | Err e => Err e end)
     end) (fun m'' => does id b (fun x => x) m'') (Reach id b)).
  { intros Hch. apply (written_spec id b cancel next _ _ env m1 _ (fun _ => st')); [done..|constructor|done|]. intros m2 c Hc.
    assert (Ht : isTerminalState (State (state c)) = true).
    { destruct (successor_state _ _ _ Hc) as [-> _]. done. }
    eapply triple_weaken; [apply (persisted_spec _ (present_payload (state (fst b)) (snd b)) id (c, snd b) m2 Ht)|done|done|].
    intros d Hd. by apply Reach_refl, rec_durable. }
  cbv zeta. unfold cancel in Hw. destruct (State (state (fst b))) eqn:Est; [by apply Hw|by apply Hw|apply Hno|apply Hno|apply Hno|].
  eapply triple_bind.
  { eapply triple_weaken; [apply (removePayload_spec st' (resting (state (fst b)) (snd b)) id b m1); by rewrite Est|done|intros m' r d Hr; exact Hr|].
    intros d Hd. by apply Reach_refl, rec_durable. }
  intros m2 [st'' r] _. destruct r as [u|e]; apply triple_ret; intros d Hd; (apply does_rec; [done|]); [by intros x [= <-]|done].
Qed.

(** ** Appending *)

Lemma replay_keeps m (P : dir -> Prop) record request body C : (forall d n, P d -> C (settle n d)) ->
  triple m P (verifyReplayBody record request body) (fun _ _ => P) C.
Proof.
  intros HC. unfold verifyReplayBody. destruct (_ || _); [by apply triple_ret|].
  eapply triple_bind; [by apply openVerified_keeps|]. intros m' [f|e] _; by apply triple_ret.
Qed.

(** The conditions under which [AppendChunk] writes. *)
Definition appendable (record : diskState) (request : AppendChunkRequest) : Prop :=
  State record = StateUploading /\ Offset request = DurableOffset record /\ 0 < Length request /\
  Length request <= TotalBytes record - DurableOffset record.

(** The session after the chunk. *)
Definition appended (b : session) (st : Store) (request : AppendChunkRequest) (body : string * bool) (env : environment) : result UploadError loadedSession :=
  successor (fst b) (finished blake3 (advance (state (fst b)) request (now_change env) (TTL (opts st))) (snd b +:+ fst body)).

(** The flag of [appendReserved] says whether the chunk is durable; without it nothing is.  An error has a cause:
    a file operation that failed, the body, the nonce, or a record that is not valid. *)
Definition reserved_post (id : string) (b : session) (st : Store) (request : AppendChunkRequest) (body : string * bool) (env : environment)
    (m m' : mode) (r : Store * result UploadError Session.t * bool) (d : dir) : Prop :=
  let '(st', result, committed) := r in
  if (committed : bool) then
    bodyError request body = None /\ exists c, appended b st request body env = Ok c /\ step b (c, snd b +:+ fst body) /\
      Resting id (c, snd b +:+ fst body) d /\ st' = publishSnapshot st (state c) /\
      (result = Ok (publicSession (state c)) \/ failed m m' /\ exists e, result = Err e)
  else Rec id (fst b) (snd b) None d /\ st' = st /\ (exists e, result = Err e) /\
    (failed m m' \/ bodyError request body <> None \/ entropy env = None \/ exists e, appended b st request body env = Err e).

Lemma reserved_spec st id b request body env m : env_ok env -> good blake3 b -> appendable (state (fst b)) request ->
  triple m (Resting id b) (appendReserved blake3 st (fst b) request body env) (reserved_post id b st request body env m) (Reach id b).
Proof.
  intros Henv Hg (Hst & Hoff & Hpos & Hlen).
  apply (triple_fact _ (session_ok id (Revision (state (fst b))) (fst b) /\ len (snd b) = DurableOffset (state (fst b)))).
  { intros d Hd. destruct (resting_fields id b d Hd) as (? & ? & _). by split. }
  intros [Hs Hl]. pose proof (good_total _ _ Hg) as Htot.
  assert (Ht : isTerminalState (State (state (fst b))) = false) by by rewrite Hst.
  apply triple_exists. intros h.
  eapply triple_pre with (P' := fun d => last_state h = fst b /\ at_rest (present_payload (state (last_state h)) (snd b)) id h (snd b) d).
  2:{ intros d (Hh & E & Hn & Hr). unfold resting in Hr. rewrite Ht in Hr. rewrite E. by split. }
  apply triple_pure. intros E.
  assert (Hstep : forall c, bodyError request body = None -> successor (fst b) (next_record blake3 h (snd b) request body env st) = Ok c ->
    step b (c, snd b +:+ fst body)).
  { intros c Hb Hc. destruct b as [s p]. eapply step_append; [done..|]. rewrite <-E at 2. exact Hc. }
  assert (Hlive : forall c, successor (fst b) (next_record blake3 h (snd b) request body env st) = Ok c -> isTerminalState (State (state c)) = false).
  { intros c Hc. rewrite <-E in Hc. eapply next_live; [by rewrite E|exact Hc]. }
  assert (Happ : successor (fst b) (next_record blake3 h (snd b) request body env st) = appended b st request body env).
  { unfold next_record, appended. by rewrite E. }
  rewrite <-E in Hstep, Hlive, Happ |- * at 1.
  eapply triple_weaken; [apply (appendReserved_triple blake3 id h (snd b) request body env st)|done| |];
    [by rewrite E|by rewrite E|rewrite E; by apply (session_id _ _ _ Hs)|done|rewrite E; lia|by rewrite E|exact Henv|..].
  - intros m' [[st' result] committed] d Hp. unfold append_post in Hp. destruct committed.
    + destruct Hp as (Hb & c & Hc & Hcl & Es & Hr). split; [done|]. exists c. split; [by rewrite <-Happ|]. split; [by apply Hstep|]. split.
      { unfold Resting, resting. cbn [fst snd]. by rewrite (Hlive c Hc). }
      done.
    + destruct Hp as (Hd & Es & He & Hwhy). split; [by rewrite <-E|]. by rewrite <-Happ.
  - intros d [Hd|(Hb & c & Hc & Hd)].
    + apply Reach_refl, rec_durable. by rewrite <-E.
    + apply Reach_refl. eapply Durable_step; [by apply Hstep|]. by rewrite <-E.
Qed.

Lemma appended_spec st id b request body env m : env_ok env -> good blake3 b -> appendable (state (fst b)) request ->
  triple m (Resting id b) (appendReserved blake3 st (fst b) request body env)
    (fun m' r d => match r with
      | (_, Ok x, committed) => committed = true /\ exists b', step b b' /\ x = publicSession (state (fst b')) /\ Durable id b' d
      | (_, Err _, _) => Reach id b d
      end) (Reach id b).
Proof.
  intros Henv Hg Ha. eapply triple_weaken; [by apply reserved_spec|done| |done].
  intros m' [[st' result] committed] d Hp. unfold reserved_post in Hp. destruct committed.
  - destruct Hp as (_ & c & _ & Hc & Hd & _ & Hx). apply Resting_durable in Hd. destruct Hx as [->|(_ & e & ->)].
    + split; [done|]. by exists (c, snd b +:+ fst body).
    + eapply Durable_reach; [by apply rtc_once|done].
  - destruct Hp as (Hd & _ & (e & ->) & _). by apply Reach_refl, rec_durable.
Qed.

Lemma AppendChunk_spec st request id env a m : env_ok env -> good blake3 a -> RequestID request = id ->
  triple m (Durable id a) (AppendChunk blake3 st request env) (fun m' => does id a fst m') (Reach id a).
Proof.
  intros Henv Hga <-.
  assert (Hret : forall m0 e, triple m0 (Durable (RequestID request) a) (ret (st, @Err UploadError AppendResult e)) (fun m' => does (RequestID request) a fst m') (Reach (RequestID request) a)).
  { intros m0 e. apply triple_ret. intros d Hd. by apply Reach_refl. }
  unfold AppendChunk. destruct (_ || _); [done|]. destruct (Z.leb_spec (Length request) 0) as [|Hpos]; [done|].
  destruct (_ <? _); [done|]. destruct (negb _); [done|]. destruct (negb _); [done|]. destruct (Body request) as [body|]; [|done].
  apply (triple_loaded _ _ _ _ _ _ _ (loadOwned_spec st (RequestOwner request) (RequestID request) (now_check env) a m)). intros m1 st' b _ Hs.
  assert (Hg : good blake3 b) by by eapply steps_good.
  assert (Hno : forall m0 st0 e, triple m0 (Resting (RequestID request) b) (ret (st0, @Err UploadError AppendResult e)) (fun m'' => does (RequestID request) b fst m'') (Reach (RequestID request) b)).
  { intros m0 st0 e. apply triple_ret. intros d. apply does_err. }
  assert (Hreplay : triple m1 (Resting (RequestID request) b)
    (run! verified := verifyReplayBody (state (fst b)) request body in
     ret (st', match verified with Ok _ => Ok (publicSession (state (fst b)), true) | Err e => @Err UploadError AppendResult e end))
    (fun m'' => does (RequestID request) b fst m'') (Reach (RequestID request) b)).
  { eapply triple_bind; [apply replay_keeps; intros d n; apply Resting_reach_settle|]. intros m2 [u|e] _; apply triple_ret; intros d Hd.
    - by apply does_ok.
    - by apply does_err. }
  cbv zeta. destruct (_ && _); [apply Hno|]. destruct (bool_decide (State (state (fst b)) = StateUploading)) eqn:Hst; cbn [negb].
  2:{ destruct (same_chunk _ _); [exact Hreplay|apply Hno]. }
  apply bool_decide_eq_true in Hst. destruct (Z.eqb_spec (Offset request) (DurableOffset (state (fst b)))) as [Hoff|]; cbn [negb].
  2:{ destruct (_ && _); [exact Hreplay|apply Hno]. }
  apply (triple_fact _ (0 <= DurableOffset (state (fst b)) <= TotalBytes (state (fst b)))).
  { intros d Hd. destruct (resting_fields _ _ _ Hd) as (Hok & Hl & _). apply session_valid in Hok.
    unfold validateDiskState in Hok. destruct (_ || _) eqn:Ev in Hok; [done|]. repeat apply orb_false_iff in Ev as [Ev ?].
    unfold len in Hl. lia. }
  intros Hrange. pose proof (good_total _ _ Hg) as Htot.
  rewrite (int64_id (TotalBytes (state (fst b)) - DurableOffset (state (fst b)))) by (unfold in_int64, minInt64; lia).
  destruct (Z.ltb_spec (TotalBytes (state (fst b)) - DurableOffset (state (fst b))) (Length request)) as [|Hlen]; [apply Hno|].
  destruct (reserveStagedBytes _ _ _ _ _ _ _) as [stg [u|e]]; [|apply Hno].
  eapply triple_bind; [by apply appended_spec|]. intros m2 [[st2 [x|e]] committed] _.
  - destruct (endReservation _ _ _ _ _) as [st3 [u'|e]]; apply triple_ret; intros d (_ & b' & Hb & -> & Hd).
    + exists b'. split; [by apply rtc_once|]. done.
    + eapply Durable_reach; [by apply rtc_once|done].
  - destruct (endReservation _ _ _ _ _) as [st3 [u'|e']]; by apply triple_ret.
Qed.

End Atomic.
End UploadAtomic.
