(* ===== verification/UploadRoot.v ===== *)
(** * internal/uploadsession/store.go: the root directory

    Creating a session, the recovery of all sessions when the store opens, the removal of expired ones,
    and the list of those that are committing: programs on the root directory, which holds a directory
    for each session and the lock file.  The identity and mode of the root and the modes of the session
    directories are not modelled, nor are contexts.  The order in which a map or a directory is walked is
    that of the finite map.  While a program runs in one session's directory, nothing is being written in
    the others. *)

From Stdlib Require Import Ascii.
From stdpp Require Import sorting.
From S2P Require Import Prelude GoStrings GoPath GoFormat Sha256 FileMonad UploadTypes UploadStaging UploadFiles.
From S2P Require Import UploadStore.
Import UploadTypes UploadStaging UploadFiles UploadStore.

Module UploadRoot.

(** The directory of a session, or another entry; [special]: a directory or a symbolic link. *)
Inductive entry := SessionDir (d : dir) | RootFile (special : bool).
Notation root := (gmap string entry).

#[export] Instance root_crash : Crash root := fun n r =>
  (fun e => match e with SessionDir d => SessionDir (settle n d) | RootFile _ => e end) <$> r.

(** A program in the directory of one session; [missing] is the result when there is none. *)
Definition in_session {A} (id : string) (missing : A) (m : prog A) : program root A := fun w =>
  match io_dir w !! id with
  | Some (SessionDir d) =>
    let '(w', o) := m {| io_dir := d; io_script := io_script w |} in
    ({| io_dir := <[id := SessionDir (io_dir w')]> (io_dir w); io_script := io_script w' |}, o)
  | _ => ret missing w
  end.

Definition mkdir_ok (name : string) (r : root) : root * result FileError unit :=
  match r !! name with
  | Some _ => (r, Err Exists)
  | None => (<[name := SessionDir ∅]> r, Ok tt)
  end.
Definition mkdir (name : string) : program root (result FileError unit) := effect (mkdir_ok name) no_partial.
Definition remove_all (name : string) : program root (result FileError unit) := effect (fun r => (delete name r, Ok tt)) no_partial.
Definition sync_root : program root (result FileError unit) := effect (fun r => (r, Ok tt)) no_partial.
Definition read_root : program root (result FileError (list (string * entry))) := effect (fun r => (r, Ok (map_to_list r))) no_partial.

Definition root_error {A} (e : UploadError) (m : program root (result FileError A)) : program root (result UploadError A) :=
  run! r := m in ret (match r with Ok a => Ok a | Err _ => Err e end).

Section Root.
Context `{StateCodec} (blake3 : string -> string).

(** ** Creating a session *)

Record CreateRequest := {
  CreateOwner : string;
  CreateClientRequestID : string;
  CreatePath : string;
  CreateTotalBytes : Z;
  CreateCondition : OriginalCondition;
}.

Definition validateCreateRequest (request : CreateRequest) : bool :=
  validOwner (CreateOwner request) && validClientRequestID (CreateClientRequestID request) &&
  validLogicalPath (CreatePath request) && negb (CreateTotalBytes request <? 0) && validCondition (CreateCondition request).

(** [emptyBLAKE3] *)
Definition emptyBLAKE3 : string := blake3 "".

Definition initial_record (request : CreateRequest) (id payloadIdentity : string) (now ttl : Z) : diskState :=
  {| SchemaVersion := stateSchemaVersion;
     ID := id;
     Owner := CreateOwner request;
     ClientRequestID := CreateClientRequestID request;
     Path := CreatePath request;
     TotalBytes := CreateTotalBytes request;
     DurableOffset := 0;
     Condition := CreateCondition request;
     State := if CreateTotalBytes request =? 0 then StateReady else StateUploading;
     Revision := 1;
     PreviousRevision := 0;
     PreviousStateSHA256 := "";
     PayloadIdentity := payloadIdentity;
     LastChunkOffset := -1;
     LastChunkBytes := 0;
     LastChunkID := "";
     LastChunkSHA256 := "";
     ContentBLAKE3 := if CreateTotalBytes request =? 0 then emptyBLAKE3 else "";
     PublicationStarted := false;
     PersistenceWarning := false;
     ConflictReason := "";
     CreatedAt := now;
     UpdatedAt := now;
     ExpiresAt := now + ttl |}.

(** The loop that allocates an id, over what the random source gives to its attempts. *)
Fixpoint allocate (s : Store) (ids : list (option string)) : program root (result UploadError string) :=
  match ids with
  | [] => ret (Err errIO)
  | bytes :: ids' =>
    match randomHex bytes with
    | Err e => ret (Err e)
    | Ok candidate =>
      match sessions s !! candidate with
      | Some _ => allocate s ids'
      | None =>
        run! made := mkdir candidate in
        match made with
        | Ok _ => ret (Ok candidate)
        | Err Exists => allocate s ids'
        | Err _ => ret (Err errIO)
        end
      end
    end
  end.

(** The files of a new session: its payload and its first state. *)
Definition createFiles (request : CreateRequest) (id identity : string) (now ttl : Z) (env : environment) : prog (result UploadError diskState) :=
  try! _ := or_error errIO (create payloadFileName identity) in
  try! _ := or_error errIO (sync payloadFileName) in
  try! payload := or_error errIO (stat payloadFileName) in
  if String.eqb (f_identity payload) "" then ret (Err ErrRecoveryRequired)
  else
    let record := initial_record request id (f_identity payload) now ttl in
    try! _ := writeInitialState record (entropy env) (pending_identity env) in
    ret (Ok record).

Definition createSession (s : Store) (request : CreateRequest) (id identity : string) (env : environment) : program root (result UploadError diskState) :=
  try! _ := in_session id (Err errIO) (or_error errIO sync_dir) in
  try! _ := root_error errIO sync_root in
  in_session id (Err errIO) (createFiles request id identity (now_change env) (TTL (opts s)) env).

(** [ids]: 16 random bytes for each attempt; [identity]: of the new payload. *)
Definition Create (s : Store) (request : CreateRequest) (ids : list (option string)) (identity : string) (env : environment)
    : program root (Store * result UploadError (Session.t * bool)) :=
  if closed s then ret (s, Err ErrClosed)
  else if negb (validateCreateRequest request) then ret (s, Err errInvalidRequest)
  else if (MaxStagedBytesPerOwner (opts s) <? CreateTotalBytes request) || (MaxStagedBytes (opts s) <? CreateTotalBytes request)
  then ret (s, Err ErrStagingLimit)
  else
    match (match requestIndex s !! (CreateOwner request, CreateClientRequestID request) with
           | Some existingID => if String.eqb existingID "" then None else Some existingID
           | None => None
           end) with
    | Some existingID =>
      match sessions s !! existingID with
      | None => ret (s, Err ErrConflict)
      | Some existing =>
        if negb (String.eqb (Session.Path existing) (CreatePath request)) || negb (Session.TotalBytes existing =? CreateTotalBytes request)
        then ret (s, Err ErrConflict)
        else if sessionExpired (Session.State existing) (Session.ExpiresAt existing) (now_check env) then ret (s, Err ErrExpired)
        else ret (s, Ok (existing, false))
      end
    | None =>
      let '(global, owner) := sessionCounts s (CreateOwner request) in
      if (MaxSessions (opts s) <=? global) || (MaxSessionsPerOwner (opts s) <=? owner) then ret (s, Err ErrLimitExceeded)
      else
        run! allocated := allocate s (firstn 32 ids) in
        match allocated with
        | Err e => ret (s, Err e)
        | Ok id =>
          run! created := createSession s request id identity env in
          match created with
          | Ok record => ret (publishSnapshot s record, Ok (publicSession record, true))
          | Err e =>
            run! _ := remove_all id in
            run! _ := sync_root in
            ret (s, Err e)
          end
        end
    end.

(** ** All sessions *)

(** [loadSession] on the root: a session without a directory is not found. *)
Definition load_root (s : Store) (id : string) : program root (Store * result UploadError loadedSession) :=
  in_session id (s, Err ErrNotFound) (load s id).

Definition removeSessionDirUnchecked (id : string) : program root (result UploadError unit) :=
  if negb (validID id) then ret (Err ErrNotFound)
  else
    try! _ := root_error errIO (remove_all id) in
    root_error errIO sync_root.

Definition removeSessionDir (s : Store) (id : string) : program root (Store * result UploadError unit) :=
  run! (s, loaded) := load_root s id in
  match loaded with
  | Err e => ret (s, Err e)
  | Ok _ => run! r := removeSessionDirUnchecked id in ret (s, r)
  end.

(** The snapshots that are expired. *)
Definition expired_ids (s : Store) (now : Z) : list string :=
  omap (fun '(id, session) =>
    if negb (bool_decide (Session.State session = StateCommitting)) && negb (now <? Session.ExpiresAt session) then Some id else None)
    (map_to_list (sessions s)).

(** One round of [CleanupExpired]: whether the session was removed, and its error. *)
Definition cleanupOne (s : Store) (id : string) (now : Z) : program root (Store * (bool * option UploadError)) :=
  run! (s, loaded) := load_root s id in
  match loaded with
  | Err e => ret (s, (false, Some e))
  | Ok loaded =>
    if negb (bool_decide (State (state loaded) = StateCommitting)) && negb (now <? ExpiresAt (state loaded)) then
      let session := publicSession (state loaded) in
      run! (s, removed) := removeSessionDir s id in
      match removed with
      | Err e => ret (s, (false, Some e))
      | Ok _ =>
        let err := match releaseSessionStaging (staging s) (Session.ID session) (Session.Owner session) with Ok _ => None | Err e => Some e end in
        ret (removeSnapshot (release_session s (Session.ID session) (Session.Owner session)) session, (true, err))
      end
    else ret (s, (false, None))
  end.

Fixpoint cleanupAll (s : Store) (ids : list string) (now cleaned : Z) (err : option UploadError)
    : program root (Store * (Z * option UploadError)) :=
  match ids with
  | [] => ret (s, (cleaned, err))
  | id :: ids' =>
    run! (s, (removed, e)) := cleanupOne s id now in
    cleanupAll s ids' now (if (removed : bool) then cleaned + 1 else cleaned)
      (match err, e with
       | None, Some e => if bool_decide (e = ErrNotFound) then None else Some e
       | _, _ => err
       end)
  end.

Definition CleanupExpired (s : Store) (now : Z) : program root (Store * (Z * option UploadError)) :=
  if closed s then ret (s, (0, Some ErrClosed)) else cleanupAll s (expired_ids s now) now 0 None.

Fixpoint listCommitting (s : Store) (ids : list string) (found : list Session.t) : program root (Store * result UploadError (list Session.t)) :=
  match ids with
  | [] => ret (s, Ok found)
  | id :: ids' =>
    run! (s, loaded) := load_root s id in
    match loaded with
    | Err ErrNotFound => listCommitting s ids' found
    | Err e => ret (s, Err e)
    | Ok loaded =>
      listCommitting s ids' (if bool_decide (State (state loaded) = StateCommitting) then found ++ [publicSession (state loaded)] else found)
    end
  end.

Definition string_le (a b : string) : Prop := String.leb a b = true.
#[export] Instance string_le_dec : RelDecision string_le.
Proof. intros a b. unfold string_le. apply _. Defined.

Definition ListCommitting (s : Store) : program root (Store * result UploadError (list Session.t)) :=
  if closed s then ret (s, Err ErrClosed)
  else listCommitting s (merge_sort string_le (map_to_list (sessions s)).*1) [].

(** ** Opening the store *)

Definition lockFileName : string := ".store.lock".

(** A recovered session: its staged bytes, its snapshot and its request. *)
Definition register (s : Store) (record : diskState) : result UploadError Store :=
  let session := publicSession record in
  let! s := (if isTerminalState (State record) then Ok s
             else let! st := restoreStagedBytes (staging s) (Session.ID session) (Session.Owner session) (Session.DurableOffset session) in
                  Ok (with_staging s st)) in
  let key := (Session.Owner session, Session.ClientRequestID session) in
  match requestIndex s !! key with
  | Some other =>
    if negb (String.eqb other "") && negb (String.eqb other (Session.ID session)) then Err ErrRecoveryRequired
    else Ok (with_index s (<[Session.ID session := session]> (sessions s)) (<[key := Session.ID session]> (requestIndex s)))
  | None => Ok (with_index s (<[Session.ID session := session]> (sessions s)) (<[key := Session.ID session]> (requestIndex s)))
  end.

Fixpoint recoverEntries (s : Store) (entries : list (string * entry)) : program root (result UploadError Store) :=
  match entries with
  | [] => ret (Ok s)
  | (name, e) :: entries' =>
    let special := match e with SessionDir _ => true | RootFile special => special end in
    if String.eqb name lockFileName then if special then ret (Err ErrRecoveryRequired) else recoverEntries s entries'
    else if negb (validID name) || match e with SessionDir _ => false | RootFile _ => true end then ret (Err ErrRecoveryRequired)
    else
      run! (s, loaded) := load_root s name in
      match loaded with
      | Err errIncompleteCreate =>
        try! _ := removeSessionDirUnchecked name in recoverEntries s entries'
      | Err e => ret (Err e)
      | Ok loaded =>
        match register s (state loaded) with
        | Err e => ret (Err e)
        | Ok s => recoverEntries s entries'
        end
      end
  end.

Definition recoverAll (s : Store) : program root (result UploadError Store) :=
  try! entries := root_error errIO read_root in recoverEntries s entries.

(** [Open], after the root and its lock are there. *)
Definition empty_store (o : Options) (check : option (Z -> bool)) : Store :=
  {| opts := o; CheckStagingCapacity := check; closed := false; staging := no_staging; sessions := ∅; requestIndex := ∅ |}.

Definition Open (o : Options) (check : option (Z -> bool)) : program root (result UploadError Store) :=
  match normalizeOptions o with
  | Err e => ret (Err e)
  | Ok o => recoverAll (empty_store o check)
  end.
End Root.
End UploadRoot.
