(* ===== verification/UploadCreate.v ===== *)
(** * Creating upload sessions

    A session that [Create] acknowledges is on disk with its first record and an empty payload, and from
    then on the invariant of the session's directory holds; no other session is touched. *)

From Stdlib Require Import Ascii.
From S2P Require Import Prelude GoStrings GoPath GoFormat Sha256 FileMonad UploadTypes UploadStaging UploadFiles.
From S2P Require Import UploadNames UploadInvariant UploadRecovery UploadLoad UploadStore UploadAppend UploadSpec.
From S2P Require Import UploadAtomic UploadRoot.
Import UploadTypes UploadStaging UploadFiles UploadNames UploadInvariant UploadRecovery UploadLoad UploadStore UploadAppend UploadSpec
  UploadAtomic UploadRoot.

Module UploadCreate.

Section Create.
Context `{StateCodec} (blake3 : string -> string).

(** ** The directory of a new session *)

Lemma first_state_holds id s g f : session_ok id 1 s -> DurableOffset (state s) = 0 -> isTerminalState (State (state s)) = false ->
  exact_payload (state s) "" g -> durable (raw s) f ->
  Resting id (s, "") (<[stateFileName 1 := f]> {[ payloadFileName := g ]}).
Proof.
  intros Hs Ho Ht Hg Hf. set (d := <[stateFileName 1 := f]> {[payloadFileName := g]} : dir).
  assert (Hp : d !! payloadFileName = Some g).
  { unfold d. rewrite lookup_insert_ne by (apply not_eq_sym, payload_state_name). apply lookup_singleton_eq. }
  assert (Hin : forall n x, d !! n = Some x -> n = stateFileName 1 /\ x = f \/ n = payloadFileName /\ x = g).
  { intros n x. unfold d. destruct (decide (n = stateFileName 1)) as [->|N].
    - rewrite lookup_insert_eq. intros [= <-]. by left.
    - rewrite lookup_insert_ne by done. intros E. apply lookup_singleton_Some in E as [<- <-]. by right. }
  assert (H1 : revision_ok 1) by (split; [lia|unfold maxUint64; lia]).
  assert (Hpay : payload_holds (state s) "" d).
  { apply present_holds; [by rewrite Ho|]. rewrite Hp. by exists g. }
  exists {| h_first := 1; h_last := 1; h_at := fun _ => s |}. cbn [fst snd]. split; [split|].
  - split; cbn; [unfold maxUint64; lia| |lia]. intros k Hk. by replace k with 1 by lia.
  - intros k Hk. cbn in Hk. replace k with 1 by lia. exists f. split; [|done]. apply lookup_insert_eq.
  - intros k Hk Hn. cbn in Hn. destruct (d !! stateFileName k) as [x|] eqn:E; [|done].
    destruct (Hin _ _ E) as [[En _]|[En _]]; [|by destruct (payload_state_name k)].
    assert (k = 1) by by apply state_name_inj. lia.
  - intros n x E. destruct (Hin _ _ E) as [[-> _]|[-> _]]; [right; left; exists 1; by apply parse_state_name|by left].
  - intros n x k Ek E. destruct (Hin _ _ E) as [[-> _]|[-> _]]; done.
  - apply one_complete_none. intros n x E. destruct (Hin _ _ E) as [[-> _]|[-> _]]; done.
  - done.
  - done.
  - split; [done|]. split.
    + intros n x E. destruct (Hin _ _ E) as [[-> _]|[-> _]]; done.
    + unfold resting. rewrite Ht, Hp. by exists g.
Qed.

(** ** The files of a new session *)

Definition anything : dir -> Prop := fun _ => True.

Lemma remove_anything m name : triple m anything (remove name) (fun _ _ => anything) anything.
Proof. by apply triple_effect. Qed.

(** A state file is published next to what is there. *)
Lemma publish_fresh m k text bytes identity d0 : d0 !! pendingStateFileName k (Sha256.EncodeToString bytes) = None ->
  triple m (fun d => d = d0) (publishStateFile k text (Some bytes) identity)
    (fun _ r d => match r with Ok _ => exists f, durable text f /\ d = <[stateFileName k := f]> d0 | Err _ => True end) anything.
Proof.
  intros Hfresh. unfold publishStateFile. cbn [randomHex]. cbv zeta. set (pn := pendingStateFileName k (Sha256.EncodeToString bytes)) in *.
  set (Q := fun (_ : mode) (r : result UploadError unit) d => match r with Ok _ => exists f, durable text f /\ d = <[stateFileName k := f]> d0 | Err _ => True end).
  assert (Hclean : forall m0 (P : dir -> Prop) e, triple m0 P (run! _ := remove pn in ret (@Err UploadError unit e)) Q anything).
  { intros m0 P e. eapply triple_bind; [eapply triple_pre; [apply remove_anything|done]|]. intros m1 r _. by apply triple_ret. }
  eapply triple_bind with (Q := fun _ r d => match r with Ok _ => exists f, f_regular f = true /\ f_bytes f = "" /\ d = <[pn := f]> d0 | Err _ => True end).
  { eapply triple_bind with (Q := fun _ r d => match r with Ok _ => exists f, f_regular f = true /\ f_bytes f = "" /\ d = <[pn := f]> d0 | Err _ => True end).
    - apply triple_effect; [|done|done]. intros d ->. unfold create_ok. rewrite Hfresh. simpl. eexists. split; [|split; [|reflexivity]]; done.
    - intros m1 [u|e] _; by apply triple_ret. }
  intros m1 [u|e] _; [|by apply triple_ret].
  eapply triple_bind with (Q := fun _ r d => match r with Ok _ => exists f, f_regular f = true /\ f_bytes f = text /\ d = <[pn := f]> d0 | Err _ => True end).
  { apply triple_effect; [|done|done]. intros d (f & Hr & Hb & ->). unfold write_ok, put_bytes. simpl. rewrite lookup_insert_eq, insert_insert_eq.
    eexists. split; [|split; [|reflexivity]]; [done|]. cbn [with_bytes f_bytes]. rewrite Hb. apply (splice_end ""). }
  intros m2 [u'|e] _; [|apply Hclean].
  eapply triple_bind with (Q := fun _ r d => match r with Ok _ => exists f, durable text f /\ d = <[pn := f]> d0 | Err _ => True end).
  { apply triple_effect; [|done|done]. intros d (f & Hr & Hb & ->). unfold sync_ok. simpl. rewrite lookup_insert_eq, insert_insert_eq.
    eexists. split; [|reflexivity]. split; [done|]. split; [done|]. cbn [with_bytes f_synced]. by rewrite Hb. }
  intros m3 [u''|e] _; [|apply Hclean].
  eapply triple_bind with (Q := fun _ r d => match r with Ok _ => exists f, durable text f /\ d = <[stateFileName k := f]> d0 | Err _ => True end).
  { apply triple_effect; [|done|done]. intros d (f & Hf & ->). unfold rename_ok. rewrite lookup_insert_eq. simpl.
    exists f. split; [done|]. by rewrite delete_insert_id. }
  intros m4 [u3|e] _; [|apply Hclean].
  eapply triple_bind with (Q := fun _ r d => match r with Ok _ => exists f, durable text f /\ d = <[stateFileName k := f]> d0 | Err _ => True end).
  { by apply triple_effect. }
  intros m5 [u4|e] _; by apply triple_ret.
Qed.

Lemma initial_session request id identity now ttl text :
  let record := initial_record blake3 request id identity now ttl in
  validateDiskState record = true -> encodeState record = Ok text ->
  session_ok id 1 {| state := record; raw := text; digest := digestBytes text |}.
Proof. intros record Hv He. by repeat split. Qed.

Lemma createFiles_spec m request id identity now ttl env : env_ok env ->
  triple m (fun d => d = ∅) (createFiles blake3 request id identity now ttl env)
    (fun _ r d => match r with
      | Ok record => record = initial_record blake3 request id identity now ttl /\ exists s, state s = record /\ Resting id (s, "") d
      | Err _ => True end) anything.
Proof.
  intros Henv. unfold createFiles.
  set (g := {| f_bytes := ""; f_synced := 0; f_identity := identity; f_kind := Regular0600 |}).
  set (Q := fun (_ : mode) (r : result UploadError diskState) d => match r with
      | Ok record => record = initial_record blake3 request id identity now ttl /\ exists s, state s = record /\ Resting id (s, "") d
      | Err _ => True end).
  assert (Herr : forall m0 (P : dir -> Prop) e, triple m0 P (ret (@Err UploadError diskState e)) Q anything) by (intros; by apply triple_ret).
  eapply triple_bind with (Q := fun _ (r : result UploadError unit) d => match r with Ok _ => d = {[ payloadFileName := g ]} | Err _ => True end).
  { eapply triple_bind with (Q := fun _ (r : result FileError unit) d => match r with Ok _ => d = {[ payloadFileName := g ]} | Err _ => True end).
    - by apply triple_effect; [intros d ->|..].
    - intros m1 [u|e] _; by apply triple_ret. }
  intros m1 [u|e] _; [|apply Herr].
  eapply triple_bind with (Q := fun _ (r : result UploadError unit) d => match r with Ok _ => d = {[ payloadFileName := g ]} | Err _ => True end).
  { eapply triple_bind with (Q := fun _ (r : result FileError unit) d => match r with Ok _ => d = {[ payloadFileName := g ]} | Err _ => True end).
    - apply triple_effect; [|done|done]. intros d ->. unfold sync_ok. simpl. rewrite lookup_singleton_eq. simpl. by rewrite insert_singleton_eq.
    - intros m2 [u'|e] _; by apply triple_ret. }
  intros m2 [u'|e] _; [|apply Herr].
  eapply triple_bind with (Q := fun _ (r : result UploadError file) d => match r with Ok f => f = g /\ d = {[ payloadFileName := g ]} | Err _ => True end).
  { eapply triple_bind with (Q := fun _ (r : result FileError file) d => match r with Ok f => f = g /\ d = {[ payloadFileName := g ]} | Err _ => True end).
    - apply triple_effect; [|done|done]. intros d ->. unfold stat_ok. simpl. by rewrite lookup_singleton_eq.
    - intros m3 [f|e] _; by apply triple_ret. }
  intros m3 [f|e] _; [|apply Herr]. apply triple_pure. intros ->. cbn [f_identity g].
  destruct (String.eqb identity ""); [apply Herr|]. cbv zeta. unfold writeInitialState.
  set (record := initial_record blake3 request id identity now ttl).
  destruct (negb (Revision record =? 1)); [by apply triple_ret|].
  destruct (validateDiskState record) eqn:Hv; cbn [negb]; [|by apply triple_ret].
  destruct (encodeState record) as [text|e] eqn:He; [|by apply triple_ret].
  destruct (entropy env) as [bytes|] eqn:Hent; [|by apply triple_ret].
  eapply triple_bind with (Q := fun _ (r : result UploadError string) d => match r with
    | Ok _ => exists f, durable text f /\ d = <[stateFileName 1 := f]> {[ payloadFileName := g ]} | Err _ => True end).
  { eapply triple_bind; [apply (publish_fresh m3 (Revision record) text bytes (pending_identity env) {[ payloadFileName := g ]})|].
    - apply lookup_singleton_ne. apply not_eq_sym. apply (pending_payload_name _ 1). apply parse_pending_name; [split; [lia|unfold maxUint64; lia]|by apply Henv].
    - intros m4 [u2|e] _; by apply triple_ret. }
  intros m4 [u2|e] _; [|by apply triple_ret]. apply triple_ret. intros d (f & Hf & ->). split; [done|].
  exists {| state := record; raw := text; digest := digestBytes text |}. split; [done|].
  apply first_state_holds; [by apply initial_session|done| |done|done].
  simpl. by destruct (_ =? _).
Qed.
(** ** The root *)

Lemma triple_in_session {A} m (P : dir -> Prop) (c : prog A) (Q : mode -> A -> dir -> Prop) (C : dir -> Prop) id missing (r0 : root) :
  triple m P c Q C ->
  triple m (fun r => exists d, r = <[id := SessionDir d]> r0 /\ P d) (in_session id missing c)
    (fun m' a r => exists d, r = <[id := SessionDir d]> r0 /\ Q m' a d) (fun r => exists d, r = <[id := SessionDir d]> r0 /\ C d).
Proof.
  intros Hc w (d & E & Hd) Hs. unfold in_session. rewrite E, lookup_insert_eq.
  specialize (Hc {| io_dir := d; io_script := io_script w |} Hd Hs).
  destruct (c {| io_dir := d; io_script := io_script w |}) as [w' [a|]]; cbn [io_dir io_script]; rewrite insert_insert_eq.
  - destruct Hc as (m' & Hm & Hs' & Hq). exists m'. split; [done|]. split; [done|]. by exists (io_dir w').
  - destruct Hc as [Hm HC]. split; [done|]. by exists (io_dir w').
Qed.

(** What was there before is there, or what a crash leaves of it. *)
Definition settle_entry (n : nat) (e : entry) : entry := match e with SessionDir d => SessionDir (settle n d) | RootFile _ => e end.
Definition kept (r0 r : root) : Prop := forall n e, r0 !! n = Some e -> r !! n = Some e \/ exists k, r !! n = Some (settle_entry k e).
Definition untouched (r0 r : root) : Prop := forall n e, r0 !! n = Some e -> r !! n = Some e.

Lemma untouched_refl r0 : untouched r0 r0.
Proof. by intros n e E. Qed.
Hint Resolve untouched_refl : core.

Lemma kept_insert r0 r id d : r0 !! id = None -> r = <[id := SessionDir d]> r0 -> untouched r0 r.
Proof. intros Hn -> n e E. by rewrite lookup_insert_ne by congruence. Qed.

Lemma untouched_kept r0 r : untouched r0 r -> kept r0 r.
Proof. intros Hu n e E. left. by apply Hu. Qed.

Lemma settle_kept r0 r n : untouched r0 r -> kept r0 (settle n r).
Proof.
  intros Hu k e E. right. exists n. unfold settle at 1, root_crash. by rewrite lookup_fmap, (Hu k e E).
Qed.

Lemma sync_root_triple m (P : root -> Prop) e (C : root -> Prop) : (forall r n, P r -> C (settle n r)) ->
  triple m P (root_error e sync_root) (fun _ _ => P) C.
Proof.
  intros HC. eapply triple_bind with (Q := fun _ _ => P).
  - by apply triple_effect.
  - intros m1 [u|e'] _; by apply triple_ret.
Qed.

Lemma allocate_triple m s r0 ids :
  triple m (fun r => r = r0) (allocate s ids)
    (fun _ a r => match a with
      | Ok id => r0 !! id = None /\ sessions s !! id = None /\ r = <[id := SessionDir ∅]> r0
      | Err _ => r = r0 end) (kept r0).
Proof.
  revert m. induction ids as [|bytes ids IH]; intros m; cbn [allocate]; [by apply triple_ret|].
  destruct (randomHex bytes) as [candidate|e]; [|by apply triple_ret].
  destruct (sessions s !! candidate) eqn:Es; [apply IH|].
  eapply triple_bind with (Q := fun _ a r => match a with Ok _ => r0 !! candidate = None /\ r = <[candidate := SessionDir ∅]> r0 | Err _ => r = r0 end).
  - apply triple_effect; [|done|].
    + intros r ->. unfold mkdir_ok. by destruct (r0 !! candidate) eqn:E.
    + intros r n ->. apply settle_kept. by intros k x E.
  - intros m1 [u|e] _.
    + apply triple_ret. intros r [Hn ->]. done.
    + destruct e; [by apply triple_ret|apply IH|by apply triple_ret].
Qed.

Lemma createSession_spec m s request id identity env r0 : env_ok env -> r0 !! id = None ->
  triple m (fun r => r = <[id := SessionDir ∅]> r0) (createSession blake3 s request id identity env)
    (fun _ a r => exists d, r = <[id := SessionDir d]> r0 /\ match a with
      | Ok record => record = initial_record blake3 request id identity (now_change env) (TTL (opts s)) /\
          exists x, state x = record /\ Resting id (x, "") d
      | Err _ => True end) (kept r0).
Proof.
  intros Henv Hn.
  assert (Hk : forall (Q : dir -> Prop) (r : root), (exists d, r = <[id := SessionDir d]> r0 /\ Q d) -> untouched r0 r)
    by (intros Q r (d & E & _); by eapply kept_insert).
  eapply triple_bind with (Q := fun _ _ r => exists d, r = <[id := SessionDir d]> r0 /\ d = ∅).
  { eapply triple_weaken; [apply (triple_in_session m (fun d => d = ∅) _ (fun _ _ d => d = ∅) anything id (Err errIO) r0)| | |].
    - eapply triple_bind with (Q := fun _ _ d => d = ∅); [by apply triple_effect|]. intros m1 [u|e] _; by apply triple_ret.
    - intros r ->. by exists ∅.
    - done.
    - intros r Hr. by apply untouched_kept, (Hk anything). }
  intros m1 [u|e] _.
  2:{ apply triple_ret. intros r (d & -> & _). by exists d. }
  eapply triple_bind; [apply (sync_root_triple m1 _ errIO (kept r0))|].
  { intros r n Hr. by apply settle_kept, (Hk (fun d => d = ∅)). }
  intros m2 [u'|e] _.
  2:{ apply triple_ret. intros r (d & -> & _). by exists d. }
  eapply triple_weaken; [apply (triple_in_session m2 _ _ _ _ id (Err errIO) r0 (createFiles_spec m2 request id identity _ _ env Henv))|done|done|].
  intros r Hr. by apply untouched_kept, (Hk anything).
Qed.

(** What [Create] does to the root and to the store. *)
Definition created (s : Store) (request : CreateRequest) (r0 : root) (_ : mode) (x : Store * result UploadError (Session.t * bool)) (r : root) : Prop :=
  match snd x with
  | Ok (session, true) => exists id a d, r0 !! id = None /\ sessions s !! id = None /\ r = <[id := SessionDir d]> r0 /\
      Resting id (a, "") d /\ session = publicSession (state a) /\ fst x = publishSnapshot s (state a) /\
      Owner (state a) = CreateOwner request /\ ClientRequestID (state a) = CreateClientRequestID request /\
      Path (state a) = CreatePath request /\ TotalBytes (state a) = CreateTotalBytes request /\ DurableOffset (state a) = 0
  | Ok (session, false) => r = r0 /\ fst x = s /\
      exists id, requestIndex s !! (CreateOwner request, CreateClientRequestID request) = Some id /\ sessions s !! id = Some session /\
        Session.Path session = CreatePath request /\ Session.TotalBytes session = CreateTotalBytes request
  | Err _ => untouched r0 r /\ fst x = s
  end.

Lemma Create_triple m s request ids identity env r0 : env_ok env ->
  triple m (fun r => r = r0) (Create blake3 s request ids identity env) (created s request r0) (kept r0).
Proof.
  intros Henv. assert (Hret : forall m0 e, triple m0 (fun r => r = r0) (ret (s, Err e)) (created s request r0) (kept r0)).
  { intros m0 e. apply triple_ret. intros r ->. by split. }
  unfold Create. destruct (closed s); [done|]. destruct (negb _); [done|]. destruct (_ || _); [done|].
  destruct (match requestIndex s !! _ with Some existingID => _ | None => None end) as [id|] eqn:Ei.
  - destruct (requestIndex s !! (CreateOwner request, CreateClientRequestID request)) as [id'|] eqn:Er; [|done].
    destruct (String.eqb id' ""); [done|]. injection Ei as ->.
    destruct (sessions s !! id) as [existing|] eqn:Es; [|done].
    destruct (negb (String.eqb (Session.Path existing) (CreatePath request)) || _) eqn:Ep; [done|].
    apply orb_false_iff in Ep as [E1 E2]. apply negb_false_iff in E1, E2. apply String.eqb_eq in E1. apply Z.eqb_eq in E2.
    destruct (sessionExpired _ _ _); [done|]. apply triple_ret. intros r ->. split; [done|]. split; [done|]. by exists id.
  - destruct (sessionCounts s (CreateOwner request)) as [global owner]. destruct (_ || _); [done|].
    eapply triple_bind; [apply (allocate_triple m s r0)|]. intros m1 [id|e] _; [|done].
    apply (triple_fact _ (r0 !! id = None /\ sessions s !! id = None)); [by intros r (? & ? & _)|]. intros [Hn Hs].
    eapply triple_pre with (P' := fun r => r = <[id := SessionDir ∅]> r0); [|by intros r (_ & _ & ->)].
    eapply triple_bind; [by apply createSession_spec|]. intros m2 [record|e] _.
    + apply triple_ret. intros r (d & -> & -> & a & Ea & Hr). exists id, a, d. rewrite Ea. cbn [fst snd]. by repeat split.
    + eapply triple_bind with (Q := fun _ _ r => untouched r0 r).
      { apply triple_effect.
        - intros r (d & -> & _) n x E. simpl. rewrite lookup_delete_ne by congruence. by rewrite lookup_insert_ne by congruence.
        - intros _ r n (d & -> & _) k x E. unfold no_partial. by rewrite lookup_insert_ne by congruence.
        - intros r n (d & -> & _). apply settle_kept. by eapply kept_insert. }
      intros m3 u _. eapply triple_bind with (Q := fun _ _ r => untouched r0 r).
      { apply triple_effect; [done|done|]. intros r n Hr. by apply settle_kept. }
      intros m4 u' _. apply triple_ret. by intros r Hr.
Qed.
End Create.
End UploadCreate.
