(* ===== verification/UploadCodec.v ===== *)
(** * A codec of upload records

    An instance of [StateCodec] that can be run: it shows that its laws can hold, and the examples of
    UploadProps are evaluated with it.  It is not JSON: a record is the list of its fields, each one
    after its length, and the whole after its length. *)

From Stdlib Require Import Ascii.
From S2P Require Import Prelude GoStrings GoPath GoFormat FileMonad UploadTypes UploadFiles.
Import UploadTypes UploadFiles.

Module UploadCodec.

(** ** Framed strings *)

Definition frame (s : string) : string := padded 20 (len s) +:+ s.

(** The frame at the beginning, and the rest. *)
Definition unframe (s : string) : option (string * string) :=
  match ParseUint (str_take 20 s) with
  | Some n =>
    let rest := str_drop 20 s in
    if (len s <? 20) || (len rest <? n) then None else Some (str_take (Z.to_nat n) rest, str_drop (Z.to_nat n) rest)
  | None => None
  end.

Definition short (s : string) : bool := len s <=? maxUint64.

Lemma len_positive s : 0 <= len s.
Proof. unfold len. lia. Qed.

Lemma width_ok n : 0 <= n <= maxUint64 -> 0 <= n < 10 ^ Z.of_nat 20.
Proof. unfold maxUint64. change (10 ^ Z.of_nat 20) with 100000000000000000000. lia. Qed.

Lemma unframe_frame s rest : short s = true -> unframe (frame s +:+ rest) = Some (s, rest).
Proof.
  unfold short. intros Hs. apply Z.leb_le in Hs. pose proof (len_positive s) as Hn. unfold unframe, frame. rewrite sapp_assoc.
  rewrite str_take_app_le by (rewrite padded_length; lia). rewrite str_take_all by (rewrite padded_length; lia).
  rewrite ParseUint_padded; [|lia|by apply width_ok|done]. cbv zeta.
  assert (Ed : str_drop 20 (padded 20 (len s) +:+ s +:+ rest) = s +:+ rest).
  { rewrite <-(padded_length 20 (len s)) at 1. apply str_drop_app. }
  rewrite Ed. assert (len (padded 20 (len s) +:+ s +:+ rest) <? 20 = false) as ->.
  { apply Z.ltb_ge. unfold len at 1. rewrite sapp_length, padded_length. lia. }
  assert (len (s +:+ rest) <? len s = false) as -> by (apply Z.ltb_ge; unfold len; rewrite sapp_length; lia).
  cbn [orb]. unfold len. by rewrite Nat2Z.id, str_take_app_le, str_take_all, str_drop_app by lia.
Qed.

Lemma unframe_torn s n : short s = true -> (n < String.length (frame s))%nat -> unframe (str_take n (frame s)) = None.
Proof.
  unfold short. intros Hs Hn. apply Z.leb_le in Hs. pose proof (len_positive s) as Hp. unfold unframe, frame in *.
  rewrite sapp_length, padded_length in Hn.
  destruct (decide (n < 20)%nat) as [L|L].
  - destruct (ParseUint _); [|done]. cbv zeta. unfold len at 1. rewrite str_take_length, sapp_length, padded_length.
    destruct (Z.ltb_spec (Z.of_nat (Nat.min n (20 + String.length s))) 20); [done|lia].
  - rewrite str_take_take, Nat.min_l by lia. rewrite str_take_app_le by (rewrite padded_length; lia).
    rewrite str_take_all by (rewrite padded_length; lia). rewrite ParseUint_padded; [|lia|by apply width_ok|done]. cbv zeta.
    rewrite str_take_app, padded_length, str_take_all by (rewrite padded_length; lia).
    assert (Ed : str_drop 20 (padded 20 (len s) +:+ str_take (n - 20) s) = str_take (n - 20) s).
    { rewrite <-(padded_length 20 (len s)) at 1. apply str_drop_app. }
    rewrite Ed. assert (len (str_take (n - 20) s) <? len s = true) as ->; [|by rewrite orb_true_r].
  apply Z.ltb_lt. unfold len. rewrite str_take_length. lia.
Qed.

(** ** Lists of fields *)

Fixpoint put_fields (l : list string) : string :=
  match l with [] => "" | x :: l' => frame x +:+ put_fields l' end.

Fixpoint get_fields (n : nat) (s : string) : option (list string) :=
  match n with
  | O => Some []
  | S n' => match unframe s with
            | Some (x, rest) => match get_fields n' rest with Some l => Some (x :: l) | None => None end
            | None => None
            end
  end.

Lemma get_put (l : list string) rest : forallb short l = true -> get_fields (length l) (put_fields l +:+ rest) = Some l.
Proof.
  induction l as [|x l IH]; [done|]. cbn [length put_fields get_fields forallb]. intros Hs. apply andb_true_iff in Hs as [Hx Hl].
  rewrite sapp_assoc, unframe_frame by done. by rewrite IH.
Qed.

(** ** Fields *)

Definition put_int (z : Z) : string := (if z <? 0 then "-" else "+") +:+ padded 20 (Z.abs z).
Definition get_int (s : string) : Z :=
  match s with
  | String a s' => if Ascii.eqb a "-" then - default 0 (ParseUint s') else default 0 (ParseUint s')
  | "" => 0
  end.

Lemma get_put_int z : Z.abs z <= maxUint64 -> get_int (put_int z) = z.
Proof.
  intros Hz. unfold put_int. destruct (Z.ltb_spec z 0).
  - change (- default 0 (ParseUint (padded 20 (Z.abs z))) = z). rewrite ParseUint_padded; [simpl; lia|lia|apply width_ok; lia|done].
  - change (default 0 (ParseUint (padded 20 (Z.abs z))) = z). rewrite ParseUint_padded; [simpl; lia|lia|apply width_ok; lia|done].
Qed.

Definition put_bool (b : bool) : string := if b then "true" else "false".
Definition get_bool (s : string) : bool := String.eqb s "true".
Lemma get_put_bool b : get_bool (put_bool b) = b.
Proof. by destruct b. Qed.

Definition put_state (st : SessionState) : string :=
  match st with
  | StateUploading => "uploading" | StateReady => "ready" | StateCommitting => "committing" | StateCommitted => "committed"
  | StateConflict => "conflict" | StateCancelled => "cancelled"
  end.
Definition get_state (s : string) : SessionState :=
  if String.eqb s "uploading" then StateUploading else if String.eqb s "ready" then StateReady
  else if String.eqb s "committing" then StateCommitting else if String.eqb s "committed" then StateCommitted
  else if String.eqb s "conflict" then StateConflict else StateCancelled.
Lemma get_put_state st : get_state (put_state st) = st.
Proof. by destruct st. Qed.

Definition record_ints (r : diskState) : list Z :=
  [SchemaVersion r; TotalBytes r; DurableOffset r; Revision r; PreviousRevision r; LastChunkOffset r; LastChunkBytes r;
   CreatedAt r; UpdatedAt r; ExpiresAt r].

Definition record_fields (r : diskState) : list string :=
  [put_int (SchemaVersion r); ID r; Owner r; ClientRequestID r; Path r; put_int (TotalBytes r); put_int (DurableOffset r);
   put_bool (ExpectedExists (Condition r)); DeleteIdentityToken (Condition r); put_state (State r); put_int (Revision r);
   put_int (PreviousRevision r); PreviousStateSHA256 r; PayloadIdentity r; put_int (LastChunkOffset r);
   put_int (LastChunkBytes r); LastChunkID r; LastChunkSHA256 r; ContentBLAKE3 r; put_bool (PublicationStarted r);
   put_bool (PersistenceWarning r); ConflictReason r; put_int (CreatedAt r); put_int (UpdatedAt r); put_int (ExpiresAt r)].

Definition of_fields (l : list string) : option diskState :=
  match l with
  | [schema; id; owner; request; path; total; offset; expected; token; st; revision; previous; sha; identity; chunk_offset;
     chunk_bytes; chunk_id; chunk_sha; blake; started; warning; reason; created; updated; expires] =>
    Some {| SchemaVersion := get_int schema; ID := id; Owner := owner; ClientRequestID := request; Path := path;
            TotalBytes := get_int total; DurableOffset := get_int offset;
            Condition := {| ExpectedExists := get_bool expected; DeleteIdentityToken := token |};
            State := get_state st; Revision := get_int revision; PreviousRevision := get_int previous;
            PreviousStateSHA256 := sha; PayloadIdentity := identity; LastChunkOffset := get_int chunk_offset;
            LastChunkBytes := get_int chunk_bytes; LastChunkID := chunk_id; LastChunkSHA256 := chunk_sha;
            ContentBLAKE3 := blake; PublicationStarted := get_bool started; PersistenceWarning := get_bool warning;
            ConflictReason := reason; CreatedAt := get_int created; UpdatedAt := get_int updated; ExpiresAt := get_int expires |}
  | _ => None
  end.

Lemma of_record r : forallb (fun z => Z.abs z <=? maxUint64) (record_ints r) = true -> of_fields (record_fields r) = Some r.
Proof.
  unfold record_ints, of_fields, record_fields. cbn [forallb]. rewrite !andb_true_iff, !Z.leb_le. intros (? & ? & ? & ? & ? & ? & ? & ? & ? & ? & _).
  rewrite !get_put_int, !get_put_bool, get_put_state by done. by destruct r as [? ? ? ? ? ? ? [] ? ? ? ? ? ? ? ? ? ? ? ? ? ? ? ?].
Qed.

Definition encode_record (r : diskState) : option string :=
  let body := put_fields (record_fields r) in
  if forallb (fun z => Z.abs z <=? maxUint64) (record_ints r) && forallb short (record_fields r) && short body
  then Some (frame body) else None.

Definition decode_record (s : string) : option diskState :=
  match unframe s with
  | Some (body, _) => match get_fields 25 body with Some l => of_fields l | None => None end
  | None => None
  end.

Lemma encode_inv r s : encode_record r = Some s -> forallb (fun z => Z.abs z <=? maxUint64) (record_ints r) = true /\
  forallb short (record_fields r) = true /\ short (put_fields (record_fields r)) = true /\ s = frame (put_fields (record_fields r)).
Proof.
  unfold encode_record. cbv zeta. destruct (_ && _) eqn:E; [|done]. intros [= <-].
  apply andb_true_iff in E as [E ?]. by apply andb_true_iff in E as [? ?].
Qed.

Lemma decode_frame r rest : forallb (fun z => Z.abs z <=? maxUint64) (record_ints r) = true -> forallb short (record_fields r) = true ->
  short (put_fields (record_fields r)) = true -> decode_record (frame (put_fields (record_fields r)) +:+ rest) = Some r.
Proof.
  intros H1 H2 H3. unfold decode_record. rewrite unframe_frame by done.
  pose proof (get_put (record_fields r) "" H2) as E. rewrite sapp_nil_r in E. change (length (record_fields r)) with 25%nat in E.
  rewrite E. by apply of_record.
Qed.

#[export] Program Instance frame_codec : StateCodec := { encode_json := encode_record; decode_json := decode_record }.
Next Obligation.
  intros r s _ E. apply encode_inv in E as (H1 & H2 & H3 & ->). split; [|by apply decode_frame].
  rewrite <-(sapp_nil_r (frame _)). by apply decode_frame.
Qed.
Next Obligation.
  intros r s n _ E Hn. apply encode_inv in E as (H1 & H2 & H3 & ->). unfold decode_record. by rewrite unframe_torn.
Qed.

End UploadCodec.
