(* ===== verification/UploadValid.v ===== *)
(** * Valid upload records stay valid

    The validation of a record by its parts, and each change that the store makes against them: what a
    transition or an append builds from a valid record is valid, as long as the clock has not gone back
    before the creation of the session. *)

From Stdlib Require Import Ascii.
From S2P Require Import Prelude GoStrings GoPath GoFormat Sha256 FileMonad UploadTypes UploadFiles UploadNames.
From S2P Require Import UploadInvariant UploadRecovery UploadLoad UploadStore UploadAppend UploadSpec.
Import UploadTypes UploadFiles UploadNames UploadInvariant UploadRecovery UploadLoad UploadStore UploadAppend UploadSpec.

Module UploadValid.

(** ** The parts *)

Definition valid_identity (r : diskState) : bool :=
  (SchemaVersion r =? stateSchemaVersion) && validID (ID r) && validOwner (Owner r) && validClientRequestID (ClientRequestID r) &&
  validLogicalPath (Path r) && validLowerHex (PayloadIdentity r) sha256HexLength && validCondition (Condition r) &&
  negb (CreatedAt r =? zero_time).

Definition valid_size (r : diskState) : bool :=
  negb (TotalBytes r <? 0) && negb (DurableOffset r <? 0) && negb (TotalBytes r <? DurableOffset r).

Definition valid_times (r : diskState) : bool :=
  negb (UpdatedAt r =? zero_time) && negb (ExpiresAt r =? zero_time) && negb (UpdatedAt r <? CreatedAt r) &&
  negb (ExpiresAt r <? UpdatedAt r).

Definition valid_chain (r : diskState) : bool :=
  negb (Revision r =? 0) &&
  if Revision r =? 1 then (PreviousRevision r =? 0) && String.eqb (PreviousStateSHA256 r) ""
  else (uint64 (PreviousRevision r + 1) =? Revision r) && validLowerHex (PreviousStateSHA256 r) sha256HexLength.

Definition valid_chunk (r : diskState) : bool :=
  if LastChunkOffset r =? -1
  then (LastChunkBytes r =? 0) && String.eqb (LastChunkID r) "" && String.eqb (LastChunkSHA256 r) ""
  else negb (LastChunkOffset r <? 0) && negb (LastChunkBytes r <=? 0) &&
       (int64 (LastChunkOffset r + LastChunkBytes r) =? DurableOffset r) && validChunkID (LastChunkID r) &&
       validLowerHex (LastChunkSHA256 r) sha256HexLength.

Definition valid_content (r : diskState) : bool :=
  if DurableOffset r =? TotalBytes r
  then negb (String.eqb (ContentBLAKE3 r) "") && validLowerHex (ContentBLAKE3 r) blake3HexLength
  else String.eqb (ContentBLAKE3 r) "".

(** What belongs to the state. *)
Definition valid_state (r : diskState) : bool :=
  let complete := DurableOffset r =? TotalBytes r in
  match State r with
  | StateUploading => negb complete && negb (PersistenceWarning r) && negb (PublicationStarted r) && String.eqb (ConflictReason r) ""
  | StateReady => complete && negb (PersistenceWarning r) && negb (PublicationStarted r) && String.eqb (ConflictReason r) ""
  | StateCommitting => complete && negb (PersistenceWarning r) && String.eqb (ConflictReason r) ""
  | StateCommitted => complete && String.eqb (ConflictReason r) ""
  | StateConflict => complete && negb (PersistenceWarning r) && validCleanText (ConflictReason r) 1024
  | StateCancelled => negb (PersistenceWarning r) && negb (PublicationStarted r) && String.eqb (ConflictReason r) ""
  end.

Lemma valid_parts r : validateDiskState r =
  valid_identity r && valid_size r && valid_times r && valid_chain r && valid_chunk r && valid_content r && valid_state r.
Proof.
  unfold validateDiskState, valid_identity, valid_size, valid_times.
  destruct (SchemaVersion r =? stateSchemaVersion); [|done]. destruct (validID (ID r)); [|done].
  destruct (validOwner (Owner r)); [|done]. destruct (validClientRequestID (ClientRequestID r)); [|done].
  destruct (validLogicalPath (Path r)); [|done]. cbn [negb orb andb].
  destruct (TotalBytes r <? 0); [by rewrite !andb_false_r|]. destruct (DurableOffset r <? 0); [by rewrite !andb_false_r|].
  destruct (TotalBytes r <? DurableOffset r); [by rewrite !andb_false_r|].
  destruct (validLowerHex (PayloadIdentity r) sha256HexLength); [|done].
  destruct (Revision r =? 0) eqn:E0.
  { assert (valid_chain r = false) as -> by (unfold valid_chain; by rewrite E0). by rewrite !andb_false_r. } destruct (validCondition (Condition r)); [|by rewrite ?andb_false_r].
  destruct (CreatedAt r =? zero_time); [done|]. destruct (UpdatedAt r =? zero_time); [done|].
  destruct (ExpiresAt r =? zero_time); [done|]. destruct (UpdatedAt r <? CreatedAt r); [done|].
  destruct (ExpiresAt r <? UpdatedAt r); [done|]. cbn [negb orb andb].
  assert (Hchain : (if Revision r =? 1 then negb (PreviousRevision r =? 0) || negb (String.eqb (PreviousStateSHA256 r) "")
    else negb (uint64 (PreviousRevision r + 1) =? Revision r) || negb (validLowerHex (PreviousStateSHA256 r) sha256HexLength)) =
    negb (valid_chain r)).
  { unfold valid_chain. rewrite E0. cbn [negb andb]. destruct (Revision r =? 1); by rewrite negb_andb. }
  rewrite Hchain. destruct (valid_chain r); [cbn [negb andb]|done].
  assert (Hchunk : (if LastChunkOffset r =? -1
    then negb (LastChunkBytes r =? 0) || negb (String.eqb (LastChunkID r) "") || negb (String.eqb (LastChunkSHA256 r) "")
    else (LastChunkOffset r <? 0) || (LastChunkBytes r <=? 0) ||
      negb (int64 (LastChunkOffset r + LastChunkBytes r) =? DurableOffset r) || negb (validChunkID (LastChunkID r)) ||
      negb (validLowerHex (LastChunkSHA256 r) sha256HexLength)) = negb (valid_chunk r)).
  { unfold valid_chunk. destruct (LastChunkOffset r =? -1); by rewrite !negb_andb, ?negb_involutive. }
  rewrite Hchunk. destruct (valid_chunk r); [cbn [negb andb]|done].
  unfold valid_content, valid_state. destruct (DurableOffset r =? TotalBytes r), (String.eqb (ContentBLAKE3 r) "");
    cbn [negb Bool.eqb orb andb]; try done;
    try (destruct (validLowerHex (ContentBLAKE3 r) blake3HexLength); cbn [negb andb]; [|done]);
    destruct (State r) eqn:E; rewrite ?bool_decide_eq_true_2, ?bool_decide_eq_false_2 by done; cbn [negb andb];
    destruct (PersistenceWarning r), (PublicationStarted r); try done;
    rewrite ?bool_decide_eq_false_2 by done; try done.
Qed.

Section Changes.
Context `{StateCodec} (blake3 : string -> string).

(** The times that a change writes. *)
Definition clock_ok (record : diskState) (now ttl : Z) : Prop :=
  CreatedAt record <= now /\ now <> zero_time /\ 0 <= ttl /\ now + ttl <> zero_time.

Lemma times_valid record now ttl : clock_ok record now ttl -> forall r, CreatedAt r = CreatedAt record -> UpdatedAt r = now ->
  ExpiresAt r = now + ttl -> valid_times r = true.
Proof.
  intros (H1 & H2 & H3 & H4) r E1 E2 E3. unfold valid_times. rewrite E1, E2, E3.
  destruct (Z.eqb_spec now zero_time); [done|]. destruct (Z.eqb_spec (now + ttl) zero_time); [done|].
  destruct (Z.ltb_spec now (CreatedAt record)); [lia|]. destruct (Z.ltb_spec (now + ttl) now); [lia|done].
Qed.

(** The successor of a stored record is linked to it. *)
Lemma chain_valid id k s next : session_ok id k s -> 1 <= k < maxUint64 -> valid_chain (link s next) = true.
Proof.
  intros (_ & Ed & _ & _ & Er) Hk. unfold valid_chain, link. cbn [Revision PreviousRevision PreviousStateSHA256].
  rewrite Er, uint64_id by (unfold in_uint64, maxUint64 in *; lia).
  destruct (Z.eqb_spec (k + 1) 0); [lia|]. destruct (Z.eqb_spec (k + 1) 1); [lia|].
  rewrite Z.eqb_refl, Ed. apply digest_lower_hex.
Qed.

Lemma valid_split r : validateDiskState r = true ->
  valid_identity r = true /\ valid_size r = true /\ valid_chunk r = true /\ valid_content r = true /\ valid_state r = true.
Proof. rewrite valid_parts, !andb_true_iff. tauto. Qed.

Lemma change_state_valid ch r next : allowed ch -> ch r = Ok (next, true) -> valid_state r = true -> valid_state next = true.
Proof.
  intros Ha. destruct Ha as [| | | |reason Hreason|]; unfold begin_commit, mark_started, mark_ready, mark_committed, mark_conflict, cancel, valid_state.
  - destruct (State r) eqn:E; try done. intros [= <-]. simpl. rewrite !andb_true_iff. tauto.
  - destruct (State r) eqn:E; rewrite ?E; try done. simpl. destruct (PublicationStarted r); [done|]. by intros [= <-].
  - destruct (State r) eqn:E; try done. intros [= <-]. simpl. rewrite !andb_true_iff. tauto.
  - destruct (negb _); [done|]. destruct (State r) eqn:E; try done; [|by destruct (negb _)]. intros [= <-]. simpl. rewrite !andb_true_iff. tauto.
  - destruct (State r) eqn:E; try done; try (by destruct (negb _)); intros [= <-]; simpl; rewrite Hreason, !andb_true_iff; tauto.
  - destruct (State r) eqn:E; try done; intros [= <-]; simpl; rewrite !andb_true_iff; tauto.
Qed.

(** A transition changes nothing that the other parts look at. *)
Lemma change_fields ch r next : allowed ch -> ch r = Ok (next, true) ->
  valid_identity next = valid_identity r /\ valid_size next = valid_size r /\ valid_chunk next = valid_chunk r /\
  valid_content next = valid_content r /\ CreatedAt next = CreatedAt r.
Proof.
  intros Ha. destruct Ha; unfold begin_commit, mark_started, mark_ready, mark_committed, mark_conflict, cancel.
  - destruct (State r); try done; by intros [= <-].
  - destruct (negb _); [done|]. destruct (PublicationStarted r); [done|]. by intros [= <-].
  - destruct (State r); try done; by intros [= <-].
  - destruct (negb _); [done|]. destruct (State r); try done; [by intros [= <-]|by destruct (negb _)].
  - destruct (State r); try done; try (by destruct (negb _)); by intros [= <-].
  - destruct (State r); try done; by intros [= <-].
Qed.

Lemma change_valid_record id k s ch next now ttl : session_ok id k s -> 1 <= k < maxUint64 -> allowed ch ->
  ch (state s) = Ok (next, true) -> clock_ok (state s) now ttl -> validateDiskState (link s (with_times next now ttl)) = true.
Proof.
  intros Hs Hk Ha Hch Hclock. destruct (valid_split _ (session_valid _ _ _ Hs)) as (V1 & V2 & V3 & V4 & V5).
  destruct (change_fields ch _ next Ha Hch) as (F1 & F2 & F3 & F4 & F5).
  pose proof (change_state_valid ch _ next Ha Hch V5) as V5'.
  rewrite valid_parts, (chain_valid id k) by done.
  rewrite (times_valid (state s) now ttl Hclock (link s (with_times next now ttl))) by done.
  change (valid_identity (link s (with_times next now ttl))) with (valid_identity next).
  change (valid_size (link s (with_times next now ttl))) with (valid_size next).
  change (valid_chunk (link s (with_times next now ttl))) with (valid_chunk next).
  change (valid_content (link s (with_times next now ttl))) with (valid_content next).
  change (valid_state (link s (with_times next now ttl))) with (valid_state next).
  by rewrite F1, F2, F3, F4, V1, V2, V3, V4, V5'.
Qed.

(** An append that the checks of [AppendChunk] let through. *)
Lemma append_valid_record id k s request payload now ttl : session_ok id k s -> 1 <= k < maxUint64 ->
  State (state s) = StateUploading -> Offset request = DurableOffset (state s) -> 0 < Length request ->
  Length request <= TotalBytes (state s) - DurableOffset (state s) -> TotalBytes (state s) <= maxInt64 ->
  validChunkID (ChunkID request) = true -> validLowerHex (ChunkSHA256 request) sha256HexLength = true ->
  validLowerHex (blake3 payload) blake3HexLength = true -> clock_ok (state s) now ttl ->
  validateDiskState (link s (finished blake3 (advance (state s) request now ttl) payload)) = true.
Proof.
  intros Hs Hk Hst Hoff Hpos Hlen Htot Hid Hsha Hblake Hclock.
  destruct (valid_split _ (session_valid _ _ _ Hs)) as (V1 & V2 & V3 & V4 & V5).
  assert (Hsize : 0 <= DurableOffset (state s)).
  { unfold valid_size in V2. rewrite !andb_true_iff, !negb_true_iff, !Z.ltb_ge in V2. tauto. }
  assert (E : int64 (DurableOffset (state s) + Length request) = DurableOffset (state s) + Length request).
  { apply int64_id. unfold in_int64, minInt64. lia. }
  set (next := finished blake3 (advance (state s) request now ttl) payload).
  assert (Hf : DurableOffset next = DurableOffset (state s) + Length request /\ TotalBytes next = TotalBytes (state s) /\
    valid_identity next = valid_identity (state s) /\ CreatedAt next = CreatedAt (state s) /\ UpdatedAt next = now /\ ExpiresAt next = now + ttl /\
    LastChunkOffset next = Offset request /\ LastChunkBytes next = Length request /\ LastChunkID next = ChunkID request /\
    LastChunkSHA256 next = ChunkSHA256 request).
  { unfold next, finished. destruct (_ =? _); cbn; by rewrite E. }
  destruct Hf as (F1 & F2 & F3 & F4 & F5 & F6 & F7 & F8 & F9 & F10).
  rewrite valid_parts, (chain_valid id k) by done. rewrite (times_valid (state s) now ttl Hclock (link s next)) by done.
  change (valid_identity (link s next)) with (valid_identity next). change (valid_size (link s next)) with (valid_size next).
  change (valid_chunk (link s next)) with (valid_chunk next). change (valid_content (link s next)) with (valid_content next).
  change (valid_state (link s next)) with (valid_state next). rewrite F3, V1.
  assert (valid_size next = true) as ->.
  { unfold valid_size. rewrite F1, F2. rewrite !andb_true_iff, !negb_true_iff, !Z.ltb_ge. lia. }
  assert (valid_chunk next = true) as ->.
  { unfold valid_chunk. rewrite F1, F7, F8, F9, F10, Hid, Hsha, Hoff, E, Z.eqb_refl.
    destruct (Z.eqb_spec (DurableOffset (state s)) (-1)); [lia|]. destruct (Z.ltb_spec (DurableOffset (state s)) 0); [lia|].
    destruct (Z.leb_spec (Length request) 0); [lia|done]. }
  assert (Hold : (DurableOffset (state s) =? TotalBytes (state s)) = false) by (apply Z.eqb_neq; lia).
  unfold valid_content in V4. unfold valid_state in V5. rewrite Hst in V5. rewrite Hold in V4, V5. cbn [negb andb] in V5.
  apply andb_true_iff in V5 as [V5 V8]. apply andb_true_iff in V5 as [V6 V7].
  cbn [andb]. unfold valid_content, valid_state, next, finished. cbn [DurableOffset TotalBytes advance]. rewrite E.
  destruct (Z.eqb_spec (DurableOffset (state s) + Length request) (TotalBytes (state s))) as [Ed|Nd];
    cbn [complete advance DurableOffset TotalBytes ContentBLAKE3 State PersistenceWarning PublicationStarted ConflictReason].
  - rewrite E. destruct (Z.eqb_spec (DurableOffset (state s) + Length request) (TotalBytes (state s))); [|done].
    rewrite Hblake, V6, V7, V8. destruct (String.eqb_spec (blake3 payload) "") as [Eb|]; [|done]. by rewrite Eb in Hblake.
  - rewrite E. destruct (Z.eqb_spec (DurableOffset (state s) + Length request) (TotalBytes (state s))); [done|].
    by rewrite Hst, V4, V6, V7, V8.
Qed.
End Changes.
End UploadValid.
