(* ===== verification/UploadRuns.v ===== *)
(** * Runs of the store on one session

    Sequences of operations on a session, each with its own memory of the store, a failing file operation
    and perhaps a crash; and what the acknowledged replies say about them. *)

From Stdlib Require Import Ascii.
From S2P Require Import Prelude GoStrings GoPath GoFormat Sha256 FileMonad UploadTypes UploadStaging UploadFiles.
From S2P Require Import UploadNames UploadInvariant UploadRecovery UploadLoad UploadStore UploadAppend UploadSpec.
From S2P Require Import UploadAtomic UploadValid.
Import UploadTypes UploadStaging UploadFiles UploadNames UploadInvariant UploadRecovery UploadLoad UploadStore UploadAppend UploadSpec
  UploadAtomic UploadValid.

Module UploadRuns.

(** The operations of the store on a session. *)
Inductive op :=
| OpGet
| OpOpenPayload
| OpAppendChunk (offset length : Z) (chunkID sha : string) (body : option (string * bool))
| OpBeginCommit
| OpMarkPublicationStarted
| OpMarkReady
| OpMarkCommitted (hash : string) (warning : bool)
| OpMarkConflict (reason : string)
| OpCancel.

Definition append_request (owner id : string) (offset length : Z) (chunkID sha : string) (body : option (string * bool)) : AppendChunkRequest :=
  {| RequestOwner := owner; RequestID := id; Offset := offset; Length := length; ChunkID := chunkID; ChunkSHA256 := sha; Body := body |}.

(** A reply, by its session. *)
Definition seen {A} (view : A -> Session.t) (m : prog (Store * result UploadError A)) : prog (Store * result UploadError Session.t) :=
  run! (s, r) := m in ret (s, match r with Ok x => Ok (view x) | Err e => Err e end).

Section Runs.
Context `{StateCodec} (blake3 : string -> string).
Implicit Types (a b : session) (d : dir).
Notation step := (step blake3).

Definition run_op (st : Store) (owner id : string) (o : op) (env : environment) : prog (Store * result UploadError Session.t) :=
  match o with
  | OpGet => get st owner id (now_check env)
  | OpOpenPayload => seen snd (OpenPayload blake3 st owner id (now_check env))
  | OpAppendChunk offset length chunkID sha body => seen fst (AppendChunk blake3 st (append_request owner id offset length chunkID sha body) env)
  | OpBeginCommit => BeginCommit st owner id env
  | OpMarkPublicationStarted => MarkPublicationStarted st owner id env
  | OpMarkReady => MarkReady st owner id env
  | OpMarkCommitted hash warning => MarkCommitted st owner id hash warning env
  | OpMarkConflict reason => MarkConflict st owner id reason env
  | OpCancel => Cancel st owner id env
  end.

Lemma seen_spec {A} id a m (view : A -> Session.t) c :
  triple m (Durable blake3 id a) c (fun m' => does blake3 id a view m') (Reach blake3 id a) ->
  triple m (Durable blake3 id a) (seen view c) (fun m' => does blake3 id a (fun x => x) m') (Reach blake3 id a).
Proof.
  intros Hc. eapply triple_bind; [exact Hc|]. intros m1 [st r] _. apply triple_ret. intros d. unfold does. by destruct r.
Qed.

Lemma run_op_spec st owner id o env a m : env_ok env -> good blake3 a ->
  triple m (Durable blake3 id a) (run_op st owner id o env) (fun m' => does blake3 id a (fun x => x) m') (Reach blake3 id a).
Proof.
  intros Henv Hg. assert (Hret : forall e, triple m (Durable blake3 id a) (ret (st, Err e)) (fun m' => does blake3 id a (fun x => x) m') (Reach blake3 id a)).
  { intros e. apply triple_ret. intros d. apply Reach_refl. }
  destruct o; cbn [run_op].
  - apply get_spec.
  - apply seen_spec, OpenPayload_spec.
  - apply seen_spec. by apply AppendChunk_spec.
  - apply transition_spec; [done|done|constructor].
  - apply transition_spec; [done|done|constructor].
  - apply transition_spec; [done|done|constructor].
  - unfold MarkCommitted. destruct (negb _); [done|]. apply transition_spec; [done|done|constructor].
  - unfold MarkConflict. cbv zeta. destruct (validCleanText _ _) eqn:E; cbn [negb]; [|done]. apply transition_spec; [done|done|by constructor].
  - by apply Cancel_spec.
Qed.

(** ** Runs *)

Definition acknowledged (r : option (Store * result UploadError Session.t)) : list Session.t :=
  match r with Some (_, Ok x) => [x] | _ => [] end.

(** From a directory to a directory, with the replies; between two operations the process may have
    restarted, so the memory of the store is any. *)
Inductive runs (id : string) : dir -> list Session.t -> dir -> Prop :=
| runs_nil d : runs id d [] d
| runs_op d st owner o env script w r replies d' :
    env_ok env -> script_ok Failing script = true ->
    run_op st owner id o env {| io_dir := d; io_script := script |} = (w, r) ->
    runs id (io_dir w) replies d' -> runs id d (acknowledged r ++ replies) d'.

(** The replies are the sessions of some of the steps, in their order. *)
Inductive explains : session -> list Session.t -> session -> Prop :=
| explains_nil a b : rtc step a b -> explains a [] b
| explains_reply a b x replies c : rtc step a b -> x = publicSession (state (fst b)) -> explains b replies c -> explains a (x :: replies) c.

Lemma explains_steps a b replies c : rtc step a b -> explains b replies c -> explains a replies c.
Proof.
  intros Hs He. destruct He as [b c Hs'|b b' x replies c Hs' E He].
  - apply explains_nil. by etrans.
  - eapply explains_reply; [by etrans|done|done].
Qed.

Lemma runs_explained id d replies d' a : runs id d replies d' -> good blake3 a -> Durable blake3 id a d ->
  exists b, explains a replies b /\ Durable blake3 id b d'.
Proof.
  intros Hr. revert a. induction Hr as [d|d st owner o env script w r replies d' Henv Hs Hop _ IH]; intros a Hg Hd.
  { exists a. split; [by apply explains_nil, rtc_refl|done]. }
  pose proof (run_op_spec st owner id o env a Failing Henv Hg {| io_dir := d; io_script := script |} Hd Hs) as Ht.
  rewrite Hop in Ht. destruct r as [[st' [x|e]]|]; cbn [acknowledged app].
  - destruct Ht as (m' & _ & _ & b & Hb & Ex & Hdb). destruct (IH b) as (c & Hc & Hdc); [by eapply steps_good|done|].
    exists c. split; [|done]. by eapply explains_reply.
  - destruct Ht as (m' & _ & _ & b & Hb & Hdb). destruct (IH b) as (c & Hc & Hdc); [by eapply steps_good|done|].
    exists c. split; [|done]. by eapply explains_steps.
  - destruct Ht as (_ & b & Hb & Hdb). destruct (IH b) as (c & Hc & Hdc); [by eapply steps_good|done|].
    exists c. split; [|done]. by eapply explains_steps.
Qed.

(** ** What the steps keep *)

Lemma steps_same a b : good blake3 a -> rtc step a b -> same_session (state (fst a)) (state (fst b)).
Proof.
  intros Hg Hs. induction Hs as [a|a b c Hab _ IH]; [by repeat split|].
  eapply same_session_trans; [|apply IH; by eapply step_good]. apply (step_fields blake3 a b Hg Hab).
Qed.

Lemma steps_payload a b : good blake3 a -> rtc step a b -> exists x, snd b = snd a +:+ x.
Proof.
  intros Hg Hs. induction Hs as [a|a b c Hab _ IH]; [exists ""; by rewrite sapp_nil_r|].
  destruct (step_fields blake3 a b Hg Hab) as (_ & _ & _ & _ & _ & x & Ex & _). destruct IH as [y Ey]; [by eapply step_good|].
  exists (x +:+ y). by rewrite Ey, Ex, sapp_assoc.
Qed.

Lemma steps_follow a b : good blake3 a -> rtc step a b ->
  rtc (fun st st' => follows st st' = true) (State (state (fst a))) (State (state (fst b))).
Proof.
  intros Hg Hs. induction Hs as [a|a b c Hab _ IH]; [apply rtc_refl|]. eapply rtc_l; [|apply IH; by eapply step_good].
  apply (step_fields blake3 a b Hg Hab).
Qed.

Lemma steps_terminal a b : good blake3 a -> isTerminalState (State (state (fst a))) = true -> rtc step a b -> b = a.
Proof.
  intros Hg Ht Hs. destruct Hs as [a|a b c Hab _]; [done|]. by destruct (terminal_stuck blake3 a b Hg Ht).
Qed.

(** What a complete session promises. *)
Lemma good_complete a : good blake3 a -> (State (state (fst a)) = StateReady \/ State (state (fst a)) = StateCommitting \/
    State (state (fst a)) = StateCommitted \/ State (state (fst a)) = StateConflict) ->
  len (snd a) = TotalBytes (state (fst a)) /\ ContentBLAKE3 (state (fst a)) = blake3 (snd a).
Proof.
  intros Hg Hst. destruct (valid_split _ (good_valid _ _ Hg)) as (_ & _ & _ & _ & V).
  assert (E : DurableOffset (state (fst a)) = TotalBytes (state (fst a))).
  { unfold valid_state in V. destruct Hst as [E|[E|[E|E]]]; rewrite E in V; rewrite !andb_true_iff in V;
      apply Z.eqb_eq; tauto. }
  split; [by rewrite (good_length _ _ Hg)|by apply (good_content _ _ Hg)].
Qed.

(** ** Recovery without failures *)

Definition no_release (record : diskState) : result UploadError unit := Ok tt.

(** The record of a session is in the directory, on disk: in a state file of its revision or a pending one. *)
Definition of_revision (name : string) (k : Z) : Prop := parseStateFileName name = Some k \/ parsePendingStateName name = Some k.
Definition recorded (b : session) (d : dir) : Prop :=
  exists name f, of_revision name (Revision (state (fst b))) /\ d !! name = Some f /\ durable (raw (fst b)) f.
(** A complete record of a later revision is there. *)
Definition superseded (a : session) (d : dir) : Prop :=
  exists name k f, of_revision name k /\ d !! name = Some f /\ is_ok (parseStateFile f) = true /\
  (Revision (state (fst a)) < k \/ parsePendingStateName name = Some k).

#[local] Instance complete_dec d : Decision (complete_pending d).
Proof.
  refine (cast_if (decide (map_Exists (fun name f => is_Some (parsePendingStateName name) /\ is_ok (parseStateFile f) = true) d))).
  - destruct m as (name & f & E & [k Ek] & Hp). exists name, k, f. split; [done|]. split; [done|]. by intros Hf; rewrite Hf in Hp.
  - intros (name & k & f & Ek & E & Hp). apply n. exists name, f. split; [done|]. split; [by exists k|].
    destruct (parse_cases f) as [?|(t & r & ->)]; done.
Defined.

Lemma holds_recorded id h p cand d : holds id h p cand d -> recorded (last_state h, p) d.
Proof.
  intros Hh. pose proof (history_range _ _ (holds_history _ _ _ _ _ Hh)). destruct (holds_states _ _ _ _ _ Hh (h_last h)) as (f & E & Hf); [lia|].
  exists (stateFileName (h_last h)), f. cbn [fst]. rewrite (last_revision _ _ _ _ _ Hh). split; [|done].
  left. apply parse_state_name. by eapply last_revision_ok.
Qed.

Lemma holds_not_superseded id h p cand p' d : holds id h p cand d -> ~ complete_pending d -> ~ superseded (last_state h, p') d.
Proof.
  intros Hh Hn (name & k & f & Hk & E & Hp & Hlater).
  assert (Hpend : parsePendingStateName name <> Some k) by (intros Ek; apply Hn; exists name, k, f; split; [done|]; split; [done|]; intros Hf; by rewrite Hf in Hp).
  destruct Hk as [Hk|?]; [|done]. destruct Hlater as [Hlater|?]; [|done]. cbn [fst] in Hlater. rewrite (last_revision _ _ _ _ _ Hh) in Hlater.
  apply parse_state_name_inv in Hk as [-> Hk]. rewrite (holds_no_states _ _ _ _ _ Hh k Hk ltac:(lia)) in E. done.
Qed.

Lemma holds_dropped id h p cand d : holds id h p cand d -> ~ complete_pending d -> holds id h p None d.
Proof.
  intros Hh Hn. apply (holds_change _ _ _ _ _ _ _ _ Hh); [by left|done| |apply Hh|apply Hh|done].
  intros name f k Ek E _. destruct (holds_pending _ _ _ _ _ Hh name f k Ek E) as (H1 & H2 & H3). split; [done|]. split; [done|]. left.
  destruct (parse_cases f) as [?|(t & r & Ep)]; [done|]. destruct Hn. exists name, k, f. by rewrite Ep.
Qed.

Lemma load_returns id a d script : Durable blake3 id a d -> script_ok Reliable script = true ->
  exists w b released, loadSession no_release id {| io_dir := d; io_script := script |} = (w, Some (Ok (fst b), released)) /\
    Resting id b (io_dir w) /\ recorded b d /\ (b = a /\ ~ superseded a d \/ step a b).
Proof.
  intros (cand & Hr & Hc) Hs.
  assert (Hrun : forall Ch s p cand', triple Reliable (fun d' => d' = d) (loadSession no_release id) (loaded_by Ch no_release Reliable id s p cand') (fun _ => True) ->
    exists w latest p' released, loadSession no_release id {| io_dir := d; io_script := script |} = (w, Some (Ok latest, released)) /\
      Ch latest p' /\ clean (resting (state latest) p') id latest p' (io_dir w)).
  { intros Ch s p cand' Ht. specialize (Ht {| io_dir := d; io_script := script |} eq_refl Hs).
    destruct (loadSession no_release id {| io_dir := d; io_script := script |}) as [w [[[latest|e] released]|]].
    - destruct Ht as (m' & _ & _ & _ & p' & Hch & Hcl). by exists w, latest, p', released.
    - destruct Ht as (m' & _ & _ & _ & [[Hf _]|(record & _ & Hf)] & _); done.
    - by destruct Ht as [Ht _]. }
  assert (Hone : forall c pc, Rec id c pc None d -> exists w released,
    loadSession no_release id {| io_dir := d; io_script := script |} = (w, Some (Ok c, released)) /\ Resting id (c, pc) (io_dir w)).
  { intros c pc Hd. destruct (Hrun (chosen c pc None) c pc None) as (w & latest & p' & released & E & [[-> ->]|?] & Hcl); [|by exists w, released|done].
    eapply triple_reliable_crash, triple_weaken; [apply (loadSession_triple no_release id c pc None Reliable)|by intros d' ->|done|intros d' Hd'; exact Hd']. }
  destruct Hr as [(h & cand' & Hh & E & Hcand)|(c & pc & -> & Hi)].
  - destruct (decide (complete_pending d)) as [Ha|Hn].
    + pose proof Ha as (name & k & f & Ek & Ef & Hp). destruct (holds_pending _ _ _ _ _ Hh name f k Ek Ef) as (R1 & R2 & [?|(c & Ec & Hk & Hb)]); [done|].
      destruct cand' as [[c' pc]|]; [|done]. injection Ec as ->. destruct Hcand as [<-|?]; [|done].
      destruct (Hrun (fun s' p' => s' = c /\ p' = pc) (fst a) (snd a) (Some (c, pc))) as (w & latest & p' & released & El & [-> ->] & Hcl).
      { eapply triple_pre; [apply (loadSession_armed no_release id (fst a) (snd a) c pc)|]. intros d' ->. split; [|done]. exists h, (Some (c, pc)). by split; [|split; [|left]]. }
      exists w, (c, pc), released. split; [done|]. split; [done|]. split; [|right; by apply Hc].
      exists name, f. split; [right; cbn [fst]; by rewrite Ek, Hk|]. split; [done|]. split; [done|]. split; [done|]. by rewrite R2, Hb.
    + destruct (Hone (fst a) (snd a)) as (w & released & El & Hd).
      { left. exists h, None. split; [by eapply holds_dropped|]. by split; [|left]. }
      exists w, a, released. rewrite <-surjective_pairing in Hd. split; [done|]. split; [done|]. split; [|left; split; [done|]].
      * pose proof (holds_recorded _ _ _ _ _ Hh) as Hrec. rewrite E in Hrec. by rewrite <-surjective_pairing in Hrec.
      * pose proof (holds_not_superseded _ _ _ _ (snd a) _ Hh Hn) as Hns. rewrite E in Hns. by rewrite <-surjective_pairing in Hns.
  - destruct (Hone c pc) as (w & released & El & Hd); [by left|]. exists w, (c, pc), released. split; [done|]. split; [done|]. split; [|right; by apply Hc].
    destruct Hi as (h & cand' & Hh & E & _). pose proof (holds_recorded _ _ _ _ _ Hh) as Hrec. by rewrite E in Hrec.
Qed.
End Runs.
End UploadRuns.
