(* ===== verification/UploadReplies.v ===== *)
(** * What upload sessions give back

    The bytes that [OpenPayload] returns, and the reply to a chunk that is sent again. *)

From Stdlib Require Import Ascii.
From S2P Require Import Prelude GoStrings GoPath GoFormat Sha256 FileMonad UploadTypes UploadStaging UploadFiles.
From S2P Require Import UploadNames UploadInvariant UploadRecovery UploadLoad UploadStore UploadAppend UploadSpec.
From S2P Require Import UploadAtomic UploadValid UploadRuns.
Import UploadTypes UploadStaging UploadFiles UploadNames UploadInvariant UploadRecovery UploadLoad UploadStore UploadAppend UploadSpec
  UploadAtomic UploadValid UploadRuns.

Module UploadReplies.

Section Replies.
Context `{StateCodec} (blake3 : string -> string).
Implicit Types (a b : session) (d : dir).
Notation step := (step blake3).

(** ** The payload of a live session *)

(** What [stat] finds in the directory of a session at rest that is not terminal. *)
Lemma stat_live id b m C e0 : isTerminalState (State (state (fst b))) = false -> (forall d n, Resting id b d -> C (settle n d)) ->
  triple m (Resting id b) (or_error e0 (stat payloadFileName)) (fun m' r d => Resting id b d /\ match r with
    | Ok f => exact_payload (state (fst b)) (snd b) f /\ len (snd b) = DurableOffset (state (fst b)) | Err _ => failed m m' end) C.
Proof.
  intros Ht HC. eapply triple_bind; [by apply triple_stat|]. intros m' r Hm.
  assert (Hp : forall d, Resting id b d -> len (snd b) = DurableOffset (state (fst b)) /\ exists f, d !! payloadFileName = Some f /\ exact_payload (state (fst b)) (snd b) f).
  { intros d Hd. split; [by apply (resting_fields id b d Hd)|]. destruct Hd as (h & _ & _ & _ & Hr). unfold resting in Hr. by rewrite Ht in Hr. }
  destruct r as [f|e]; apply triple_ret; intros d [Hd Hr]; (split; [done|]); destruct (Hp d Hd) as (Hl & g & Eg & Hg).
  - destruct Hr as [_ E]. rewrite Eg in E. by injection E as <-.
  - destruct e; [|done..]. destruct Hr as [_ E]. congruence.
Qed.

Lemma open_live id b m C : isTerminalState (State (state (fst b))) = false -> (forall d n, Resting id b d -> C (settle n d)) ->
  triple m (Resting id b) (openVerifiedPayload (state (fst b)))
    (fun m' r d => Resting id b d /\ match r with Ok f => f_bytes f = snd b | Err _ => failed m m' end) C.
Proof.
  intros Ht HC. eapply triple_bind; [by apply stat_live|].
  intros m' [f|e] Hm; apply triple_ret; intros d [Hd Hr]; [|done]. destruct Hr as [Hf Hl].
  rewrite (exact_verified _ (snd b) f Hl Hf). split; [done|]. by destruct Hf as [(_ & -> & _) _].
Qed.

(** [hashOpenPayload] on a session that has all its bytes. *)
Lemma hash_live id b m C : isTerminalState (State (state (fst b))) = false -> len (snd b) = TotalBytes (state (fst b)) ->
  (forall d n, Resting id b d -> C (settle n d)) ->
  triple m (Resting id b) (hashOpenPayload blake3 (state (fst b)))
    (fun m' r d => Resting id b d /\ match r with Ok x => x = blake3 (snd b) | Err _ => failed m m' end) C.
Proof.
  intros Ht Hl HC.
  assert (Hh : forall f, exact_payload (state (fst b)) (snd b) f -> hashable (state (fst b)) f = true /\ f_bytes f = snd b).
  { intros f [(F1 & F2 & _) F3]. unfold hashable. by rewrite F2, F3, Hl, Z.eqb_refl, String.eqb_refl. }
  eapply triple_bind; [by apply stat_live|]. intros m1 [f|e] Hm1; [|by apply triple_ret].
  eapply triple_pre with (P' := fun d => exact_payload (state (fst b)) (snd b) f /\ Resting id b d); [|by intros d (? & ? & _)].
  apply triple_pure. intros Hf. destruct (Hh f Hf) as [-> _]. cbn [negb].
  eapply triple_bind; [by apply stat_live|]. intros m2 [g|e] Hm2; apply triple_ret; intros d [Hd Hr]; (split; [done|]).
  - destruct Hr as [Hg _]. destruct (Hh g Hg) as [-> ->]. done.
  - by eapply failed_le_l.
Qed.

(** ** A chunk that is sent again *)

(** The store knows the session, and it has not expired. *)
Definition known (st : Store) (record : diskState) (now : Z) : Prop :=
  closed st = false /\ sessionExpired (State record) (ExpiresAt record) now = false /\
  exists x, sessions st !! ID record = Some x /\ Session.ID x <> "" /\ Session.Owner x = Owner record.

Lemma loadOwned_live st id b now m : isTerminalState (State (state (fst b))) = false -> known st (state (fst b)) now ->
  triple m (Resting id b) (loadOwnedSession st (Owner (state (fst b))) id now)
    (fun m' r d => fst r = st /\ match snd r with Ok latest => latest = fst b /\ Resting id b d | Err _ => failed m m' end) (Rec id (fst b) (snd b) None).
Proof.
  intros Ht (Hc & He & x & Hx & Hid & Hown).
  apply (triple_fact _ (session_ok id (Revision (state (fst b))) (fst b))).
  { intros d Hd. by destruct (resting_fields id b d Hd). }
  intros Hs. assert (Ei : ID (state (fst b)) = id) by by apply (session_id _ _ _ Hs).
  destruct (valid_split _ (session_valid _ _ _ Hs)) as (V & _). unfold valid_identity in V. rewrite !andb_true_iff in V.
  destruct V as (((((((_ & V1) & V2) & _) & _) & _) & _) & _). rewrite Ei in V1, Hx.
  unfold loadOwnedSession. rewrite V1, V2, Hc, Hx. cbn [negb orb].
  destruct (String.eqb_spec (Session.ID x) ""); [done|]. rewrite Hown, String.eqb_refl. cbn [negb orb].
  eapply triple_bind.
  { eapply triple_pre; [apply (load_live_triple st id (fst b) (snd b) None m Ht); done|]. intros d Hd. by eapply clean_rec. }
  intros m1 [st' r] Hm1. cbn [fst snd]. apply triple_pure. intros ->. destruct r as [latest|e].
  - apply triple_exists. intros p'. apply triple_pure. intros [[-> ->]|?]; [|done]. rewrite String.eqb_refl, He. cbn [negb].
    apply triple_ret. intros d Hd. split; [done|]. split; [done|]. unfold Resting, resting. by rewrite Ht.
  - apply triple_ret. intros d [Hf _]. by split.
Qed.

(** [OpenPayload] on a session that is ready gives its bytes. *)
Lemma OpenPayload_live st id b now m : good blake3 b -> known st (state (fst b)) now ->
  State (state (fst b)) = StateReady \/ State (state (fst b)) = StateCommitting ->
  triple m (Resting id b) (OpenPayload blake3 st (Owner (state (fst b))) id now)
    (fun m' r d => fst r = st /\ match snd r with
       | Ok x => x = (snd b, publicSession (state (fst b))) /\ Resting id b d | Err _ => failed m m' end) (Rec id (fst b) (snd b) None).
Proof.
  intros Hg Hk Hst. destruct (good_complete blake3 b Hg) as [Hl Hh]; [tauto|].
  assert (Ht : isTerminalState (State (state (fst b))) = false) by by destruct Hst as [-> | ->].
  assert (HC : forall d n, Resting id b d -> Rec id (fst b) (snd b) None (settle n d)) by (intros d n Hd; apply Rec_settle; by eapply clean_rec).
  eapply triple_bind; [by apply loadOwned_live|]. intros m1 [st' r] Hm1. cbn [fst snd]. apply triple_pure. intros ->.
  destruct r as [latest|e]; [|by apply triple_ret]. apply triple_pure. intros ->. cbv zeta.
  assert (Hopen : triple m1 (Resting id b)
    (run! opened := openVerifiedPayload (state (fst b)) in match opened with
     | Err e => ret (st, Err e)
     | Ok payload => run! hash := hashOpenPayload blake3 (state (fst b)) in match hash with
       | Err e => ret (st, Err e)
       | Ok hash => if negb (String.eqb hash (ContentBLAKE3 (state (fst b)))) then ret (st, Err ErrRecoveryRequired)
                    else ret (st, Ok (f_bytes payload, publicSession (state (fst b))))
       end end) (fun m' r d => fst r = st /\ match snd r with
       | Ok x => x = (snd b, publicSession (state (fst b))) /\ Resting id b d | Err _ => failed m m' end) (Rec id (fst b) (snd b) None)).
  { eapply triple_bind; [by apply (open_live id b)|]. intros m2 [f|e] Hm2.
    2:{ apply triple_ret. intros d [_ Hf]. split; [done|]. by eapply failed_le_l. }
    eapply triple_pre with (P' := fun d => f_bytes f = snd b /\ Resting id b d); [|intros d [? ?]; done].
    apply triple_pure. intros ->. eapply triple_bind; [by apply hash_live|]. intros m3 [hash|e] Hm3.
    - eapply triple_pre with (P' := fun d => hash = blake3 (snd b) /\ Resting id b d); [|intros d [? ?]; done].
      apply triple_pure. intros ->. rewrite <-Hh, String.eqb_refl. by apply triple_ret.
    - apply triple_ret. intros d [_ Hf]. split; [done|]. eapply failed_le_l; [eapply mode_le_trans; [exact Hm2|exact Hm1]|exact Hf]. }
  destruct Hst as [E|E]; rewrite E; exact Hopen.
Qed.

(** The last chunk of the record, in the bytes of the session. *)
Lemma last_chunk_bytes b : good blake3 b -> LastChunkOffset (state (fst b)) <> -1 ->
  0 <= LastChunkOffset (state (fst b)) /\ 0 < LastChunkBytes (state (fst b)) /\
  int64 (LastChunkOffset (state (fst b)) + LastChunkBytes (state (fst b))) = DurableOffset (state (fst b)) /\
  validChunkID (LastChunkID (state (fst b))) = true /\ validLowerHex (LastChunkSHA256 (state (fst b))) sha256HexLength = true.
Proof.
  intros Hg Hn. destruct (valid_split _ (good_valid _ _ Hg)) as (_ & _ & V & _). unfold valid_chunk in V.
  destruct (Z.eqb_spec (LastChunkOffset (state (fst b))) (-1)); [done|].
  rewrite !andb_true_iff, !negb_true_iff, Z.ltb_ge, Z.leb_gt, Z.eqb_eq in V. tauto.
Qed.

(** The request is the one that was acknowledged last. *)
Definition replay_of (b : session) (request : AppendChunkRequest) (body : string * bool) : Prop :=
  LastChunkOffset (state (fst b)) <> -1 /\ LastChunkOffset (state (fst b)) + LastChunkBytes (state (fst b)) <= maxInt64 /\
  same_chunk (state (fst b)) request = true /\ Body request = Some body /\ bodyError request body = None /\
  RequestOwner request = Owner (state (fst b)) /\ RequestID request = ID (state (fst b)).

Lemma verify_replay id b request body m C : isTerminalState (State (state (fst b))) = false -> good blake3 b ->
  replay_of b request body -> (forall d n, Resting id b d -> C (settle n d)) ->
  triple m (Resting id b) (verifyReplayBody (state (fst b)) request body)
    (fun m' r d => Resting id b d /\ match r with Ok _ => True | Err _ => failed m m' end) C.
Proof.
  intros Ht Hg (Hn & Hmax & Hsame & _ & Hbody & _) HC.
  destruct (last_chunk_bytes b Hg Hn) as (L1 & L2 & L3 & _). pose proof (good_chunk _ _ Hg Hn) as Hd.
  pose proof (good_length _ _ Hg) as Hl.
  unfold same_chunk in Hsame. rewrite !andb_true_iff, !Z.eqb_eq, !String.eqb_eq in Hsame. destruct Hsame as [[[S1 S2] S3] S4].
  rewrite int64_id in L3 by (unfold in_int64, minInt64; lia).
  unfold verifyReplayBody. rewrite <-S1, <-S2, int64_id by (unfold in_int64, minInt64; lia).
  destruct (Z.ltb_spec (LastChunkOffset (state (fst b))) 0); [lia|]. destruct (Z.leb_spec (LastChunkBytes (state (fst b))) 0); [lia|].
  destruct (Z.ltb_spec (DurableOffset (state (fst b))) (LastChunkOffset (state (fst b)) + LastChunkBytes (state (fst b)))); [lia|]. cbn [orb].
  eapply triple_bind; [by apply (open_live id b)|]. intros m1 [f|e] _; [|by apply triple_ret].
  apply triple_ret. intros d [Hr ->]. split; [done|]. cbv zeta.
  assert (Elen : String.length (str_drop (Z.to_nat (LastChunkOffset (state (fst b)))) (snd b)) = Z.to_nat (LastChunkBytes (state (fst b)))).
  { pose proof (str_take_drop (Z.to_nat (LastChunkOffset (state (fst b)))) (snd b)) as E. apply (f_equal String.length) in E.
    rewrite sapp_length, str_take_length in E. unfold len in Hl. lia. }
  rewrite str_take_all by lia. unfold len. rewrite Elen, Z2Nat.id, Z.eqb_refl by lia. rewrite <-S4, Hd, String.eqb_refl. cbn [negb orb].
  by rewrite Hbody.
Qed.

(** The reply to a replay: the session as it is, and nothing changes. *)
Lemma AppendChunk_replay st id b request body env m : good blake3 b -> isTerminalState (State (state (fst b))) = false ->
  known st (state (fst b)) (now_check env) -> replay_of b request body -> LastChunkBytes (state (fst b)) <= MaxChunkBytes (opts st) ->
  triple m (Resting id b) (AppendChunk blake3 st request env)
    (fun m' r d => fst r = st /\ match snd r with
       | Ok x => x = (publicSession (state (fst b)), true) /\ Resting id b d
       | Err _ => failed m m' end) (Rec id (fst b) (snd b) None).
Proof.
  intros Hg Ht Hk Hreq Hmax. pose proof Hreq as (Hn & Hin & Hsame & Hbody & Hok & Ho & Hid).
  destruct (last_chunk_bytes b Hg Hn) as (L1 & L2 & L3 & L4 & L5).
  pose proof Hsame as Hs. unfold same_chunk in Hs. rewrite !andb_true_iff, !Z.eqb_eq, !String.eqb_eq in Hs. destruct Hs as [[[S1 S2] S3] S4].
  apply (triple_fact _ (ID (state (fst b)) = id)).
  { intros d Hd. destruct (resting_fields id b d Hd) as (Hs & _). by apply (session_id _ _ _ Hs). }
  intros Ei. destruct (valid_split _ (good_valid _ _ Hg)) as (V & _). unfold valid_identity in V. rewrite !andb_true_iff in V.
  destruct V as (((((((_ & V1) & V2) & _) & _) & _) & _) & _).
  unfold AppendChunk. rewrite Hid, Ho, V1, V2, <-S2, <-S3, <-S4, L4, L5, Hbody, Ei. cbn [negb orb].
  destruct (Z.leb_spec (LastChunkBytes (state (fst b))) 0); [lia|].
  destruct (Z.ltb_spec (MaxChunkBytes (opts st)) (LastChunkBytes (state (fst b)))); [lia|].
  eapply triple_bind; [by apply (loadOwned_live st id b (now_check env) m)|]. intros m1 [st' r] Hm1. cbn [fst snd].
  apply triple_pure. intros ->. destruct r as [latest|e]; [|by apply triple_ret]. apply triple_pure. intros ->. cbv zeta.
  rewrite String.eqb_refl, Hsame. cbn [negb andb].
  assert (Hreplay : triple m1 (Resting id b)
    (run! verified := verifyReplayBody (state (fst b)) request body in
     ret (st, match verified with Ok _ => Ok (publicSession (state (fst b)), true) | Err e => @Err UploadError AppendResult e end))
    (fun m' r d => fst r = st /\ match snd r with Ok x => x = (publicSession (state (fst b)), true) /\ Resting id b d | Err _ => failed m m' end)
    (Rec id (fst b) (snd b) None)).
  { eapply triple_bind; [apply (verify_replay id b); [done..|]|].
    - intros d n Hd. apply Rec_settle. by eapply clean_rec.
    - intros m2 [u|e] Hm2; apply triple_ret; intros d [Hd Hf]; (split; [done|]); [done|]. by eapply failed_le_l. }
  rewrite int64_id in L3 by (unfold in_int64, minInt64; lia).
  destruct (bool_decide (State (state (fst b)) = StateUploading)); cbn [negb]; [|exact Hreplay].
  rewrite <-S1. destruct (Z.eqb_spec (LastChunkOffset (state (fst b))) (DurableOffset (state (fst b)))); [lia|]. cbn [negb].
  rewrite int64_id by (unfold in_int64, minInt64; lia). rewrite L3, Z.eqb_refl. exact Hreplay.
Qed.
End Replies.
End UploadReplies.
