(* ===== verification/UploadGate.v ===== *)
(** * internal/uploadsession/store.go: the gate of the store and [Close]

    Operations and open payload readers are admitted by a gate and counted by a wait group; [Close] shuts the
    gate, closes the readers, waits for the count to reach zero, and releases the lock of the store.  Every
    access to the gate is under [gateMu] and is one step; between two of them other goroutines run.  The body
    of a [sync.Once] is run by one goroutine, and whoever it is does not matter: it is a state of the reader. *)

From S2P Require Import Prelude.

Module UploadGate.

(** Joined errors; [[]] is nil. *)
Notation errs := (list string).

(** How far the body of [closeOnce] has come: not begun, about to close the file, about to release the reader, about
    to count it down, done. *)
Inductive once := Fresh | ClosingFile | Releasing | Untracking (tracked : bool) | Closed.

#[export] Instance once_eq_dec : EqDecision once.
Proof. solve_decision. Defined.

Record payloadReader := { closeOnce : once; readerErr : errs }.

(** The fields of [Store] that the gate guards, and whether the lock file is locked. *)
Record Gate := {
  closing : bool;
  activeOps : Z;
  openPayloads : gset nat;
  closed : bool;
  lockFile : bool;
  locked : bool;
  closeDone : bool;
  closeErr : errs;
}.

(** The store after [Open]. *)
Definition new_gate : Gate :=
  {| closing := false; activeOps := 0; openPayloads := ∅; closed := false; lockFile := true; locked := true;
     closeDone := false; closeErr := [] |}.

(** ** The critical sections *)

(** [admitOperation]; [None] is [ErrClosed]. *)
Definition admitOperation (g : Gate) : option Gate :=
  if closing g then None
  else Some {| closing := closing g; activeOps := activeOps g + 1; openPayloads := openPayloads g; closed := closed g;
               lockFile := lockFile g; locked := locked g; closeDone := closeDone g; closeErr := closeErr g |}.

(** [activeOps.Done] *)
Definition count_down (g : Gate) : Gate :=
  {| closing := closing g; activeOps := activeOps g - 1; openPayloads := openPayloads g; closed := closed g;
     lockFile := lockFile g; locked := locked g; closeDone := closeDone g; closeErr := closeErr g |}.

Definition trackOpenPayload (g : Gate) (r : nat) : option Gate :=
  if closing g then None
  else Some {| closing := closing g; activeOps := activeOps g + 1; openPayloads := {[r]} ∪ openPayloads g; closed := closed g;
               lockFile := lockFile g; locked := locked g; closeDone := closeDone g; closeErr := closeErr g |}.

(** [releaseOpenPayload] up to its unlock: whether the reader was tracked. *)
Definition releaseOpenPayload (g : Gate) (r : nat) : Gate * bool :=
  if bool_decide (r ∈ openPayloads g) then
    ({| closing := closing g; activeOps := activeOps g; openPayloads := openPayloads g ∖ {[r]}; closed := closed g;
        lockFile := lockFile g; locked := locked g; closeDone := closeDone g; closeErr := closeErr g |}, true)
  else (g, false).

(** [Close] up to its unlock: the readers to close, when it is the first. *)
Definition Close (g : Gate) : Gate * option (list nat) :=
  if closing g then (g, None)
  else ({| closing := true; activeOps := activeOps g; openPayloads := openPayloads g; closed := closed g;
           lockFile := lockFile g; locked := locked g; closeDone := closeDone g; closeErr := closeErr g |},
        Some (elements (openPayloads g))).

(** What [Close] returns when it stops waiting: the error of the shutdown, or [None] for [ErrCloseTimeout]. *)
Definition close_result (g : Gate) : option errs := if closeDone g then Some (closeErr g) else None.

(** [finalizeClose], after the wait, up to its unlock: whether there was a lock file. *)
Definition mark_closed (g : Gate) : Gate * bool :=
  ({| closing := closing g; activeOps := activeOps g; openPayloads := openPayloads g; closed := true; lockFile := false;
      locked := locked g; closeDone := closeDone g; closeErr := closeErr g |}, lockFile g).

(** [unlockStoreFile] and the close of the file, which unlocks it in any case; their errors are [e]. *)
Definition unlock_file (g : Gate) (present : bool) (e : errs) : Gate * errs :=
  if present then
    ({| closing := closing g; activeOps := activeOps g; openPayloads := openPayloads g; closed := closed g; lockFile := lockFile g;
        locked := false; closeDone := closeDone g; closeErr := closeErr g |}, e)
  else (g, []).

Definition publish_close (g : Gate) (result : errs) : Gate :=
  {| closing := closing g; activeOps := activeOps g; openPayloads := openPayloads g; closed := closed g; lockFile := lockFile g;
     locked := locked g; closeDone := true; closeErr := result |}.

(** ** Goroutines *)

(** [closePayloadsAndFinalize]: the readers that are left to close and the errors so far; waiting for the count; with the lock
    file in hand; about to publish the result; done. *)
Inductive finalizer :=
| NotStarted
| ClosingReaders (todo : list nat) (err : errs)
| WaitingOps (err : errs)
| Unlocking (present : bool) (err : errs)
| Publishing (result : errs)
| Finished.

(** The operations that were admitted and have not been released, the readers, and the goroutine of [Close]. *)
Record system := { gate : Gate; operations : gset nat; readers : gmap nat payloadReader; fin : finalizer }.

Definition init : system := {| gate := new_gate; operations := ∅; readers := ∅; fin := NotStarted |}.

(** After [Open] no operation runs. *)
Definition opened (s : system) : Prop := s = init.

Definition with_gate (s : system) (g : Gate) : system := {| gate := g; operations := operations s; readers := readers s; fin := fin s |}.
Definition with_reader (s : system) (r : nat) (x : payloadReader) : system :=
  {| gate := gate s; operations := operations s; readers := <[r := x]> (readers s); fin := fin s |}.
Definition with_fin (s : system) (f : finalizer) : system := {| gate := gate s; operations := operations s; readers := readers s; fin := f |}.

Inductive step : system -> system -> Prop :=
| step_admit s id g : id ∉ operations s -> admitOperation (gate s) = Some g ->
    step s {| gate := g; operations := {[id]} ∪ operations s; readers := readers s; fin := fin s |}
| step_release s id : id ∈ operations s ->
    step s {| gate := count_down (gate s); operations := operations s ∖ {[id]}; readers := readers s; fin := fin s |}
| step_track s id r g : id ∈ operations s -> readers s !! r = None -> trackOpenPayload (gate s) r = Some g ->
    step s (with_reader (with_gate s g) r {| closeOnce := Fresh; readerErr := [] |})
(* [payloadReader.Close], by the user or by the goroutine of [Close] *)
| step_begin s r e : readers s !! r = Some {| closeOnce := Fresh; readerErr := e |} ->
    step s (with_reader s r {| closeOnce := ClosingFile; readerErr := e |})
| step_close_file s r e err : readers s !! r = Some {| closeOnce := ClosingFile; readerErr := e |} ->
    step s (with_reader s r {| closeOnce := Releasing; readerErr := err |})
| step_release_reader s r e g tracked : readers s !! r = Some {| closeOnce := Releasing; readerErr := e |} ->
    releaseOpenPayload (gate s) r = (g, tracked) ->
    step s (with_reader (with_gate s g) r {| closeOnce := Untracking tracked; readerErr := e |})
| step_untrack s r e (tracked : bool) : readers s !! r = Some {| closeOnce := Untracking tracked; readerErr := e |} ->
    step s (with_reader (with_gate s (if tracked then count_down (gate s) else gate s)) r {| closeOnce := Closed; readerErr := e |})
| step_Close s g todo : Close (gate s) = (g, Some todo) -> step s (with_fin (with_gate s g) (ClosingReaders todo []))
| step_next_reader s r todo err e : fin s = ClosingReaders (r :: todo) err ->
    readers s !! r = Some {| closeOnce := Closed; readerErr := e |} -> step s (with_fin s (ClosingReaders todo (err ++ e)))
| step_readers_closed s err : fin s = ClosingReaders [] err -> step s (with_fin s (WaitingOps err))
| step_ops_done s err g present : fin s = WaitingOps err -> activeOps (gate s) = 0 -> mark_closed (gate s) = (g, present) ->
    step s (with_fin (with_gate s g) (Unlocking present err))
| step_unlock s present err e g e' : fin s = Unlocking present err -> unlock_file (gate s) present e = (g, e') ->
    step s (with_fin (with_gate s g) (Publishing (err ++ e')))
| step_publish s result : fin s = Publishing result -> step s (with_fin (with_gate s (publish_close (gate s) result)) Finished).

(** ** The invariant *)

(** The reader is counted; it is in the table; steps until it is closed. *)
Definition counted (x : payloadReader) : Z := match closeOnce x with Closed | Untracking false => 0 | _ => 1 end.
Definition in_table (x : payloadReader) : bool := match closeOnce x with Fresh | ClosingFile | Releasing => true | _ => false end.
Definition once_left (x : payloadReader) : Z :=
  match closeOnce x with Fresh => 4 | ClosingFile => 3 | Releasing => 2 | Untracking _ => 1 | Closed => 0 end.

(** What the goroutine of [Close] has done. *)
Definition started (f : finalizer) : bool := match f with NotStarted => false | _ => true end.
Definition shut (f : finalizer) : bool := match f with Unlocking _ _ | Publishing _ | Finished => true | _ => false end.
Definition unlocked (f : finalizer) : bool := match f with Publishing _ | Finished => true | _ => false end.
Definition finished (f : finalizer) : bool := match f with Finished => true | _ => false end.

Record gate_ok (s : system) : Prop := {
  ok_count : activeOps (gate s) = Z.of_nat (size (operations s)) + sum_map counted (readers s);
  ok_table r : r ∈ openPayloads (gate s) <-> exists x, readers s !! r = Some x /\ in_table x = true;
  ok_tracked r x : readers s !! r = Some x -> closeOnce x <> Untracking false;
  ok_closing : closing (gate s) = started (fin s);
  ok_closed : closed (gate s) = shut (fin s);
  ok_lock_file : lockFile (gate s) = negb (shut (fin s));
  ok_locked : locked (gate s) = negb (unlocked (fin s));
  ok_done : closeDone (gate s) = finished (fin s);
  ok_shut : shut (fin s) = true -> activeOps (gate s) = 0;
  ok_present present err : fin s = Unlocking present err -> present = true;
  ok_todo todo err : fin s = ClosingReaders todo err -> (forall r, r ∈ todo -> is_Some (readers s !! r)) /\
    (forall r, r ∈ openPayloads (gate s) -> r ∈ todo);
  ok_waiting err : fin s = WaitingOps err -> openPayloads (gate s) = ∅;
}.

Lemma counted_range x : 0 <= counted x <= 1.
Proof. unfold counted. destruct (closeOnce x) as [| | |[]|]; lia. Qed.

Lemma init_ok : gate_ok init.
Proof.
  split; try done; cbn [gate init new_gate activeOps openPayloads operations readers fin].
  - intros r. split; [set_solver|by intros (x & E & _)].
Qed.

(** The gate is the same but for the count and the table. *)
Definition same_close (g g' : Gate) : Prop :=
  closing g' = closing g /\ closed g' = closed g /\ lockFile g' = lockFile g /\ locked g' = locked g /\ closeDone g' = closeDone g.

(** An active operation, or a reader that is counted: the store is not shut. *)
Lemma counts_not_shut s n : gate_ok s -> activeOps (gate s) = n -> 0 < n -> shut (fin s) = false.
Proof. intros Hok E Hn. destruct (shut (fin s)) eqn:Hs; [|done]. pose proof (ok_shut s Hok Hs). lia. Qed.

Lemma reader_counts s r x : gate_ok s -> readers s !! r = Some x -> 0 < counted x -> 0 < activeOps (gate s).
Proof.
  intros Hok Er Hx. rewrite (ok_count s Hok).
  pose proof (sum_map_lookup_le counted (readers s) r x (fun _ v _ => proj1 (counted_range v)) Er). lia.
Qed.

Lemma operation_counts s id : gate_ok s -> id ∈ operations s -> 0 < activeOps (gate s).
Proof.
  intros Hok Hid. rewrite (ok_count s Hok). pose proof (sum_map_nonneg counted (readers s) (fun _ v _ => proj1 (counted_range v))).
  assert (size (operations s) <> 0%nat); [|lia]. intros E. apply size_empty_inv in E. set_solver.
Qed.

(** A reader takes a step. *)
Lemma reader_ok s r x x' g : gate_ok s -> readers s !! r = Some x -> same_close (gate s) g ->
  activeOps g = activeOps (gate s) + counted x' - counted x -> (in_table x' = true -> in_table x = true) ->
  openPayloads g = (if in_table x' then openPayloads (gate s) else openPayloads (gate s) ∖ {[r]}) ->
  closeOnce x' <> Untracking false -> counted x' <= counted x -> gate_ok (with_reader (with_gate s g) r x').
Proof.
  intros Hok Er (E1 & E2 & E3 & E4 & E5) Ea Ht Et Hx' Hle.
  assert (Hsub : forall j, j ∈ openPayloads g -> j ∈ openPayloads (gate s)) by (intros j; rewrite Et; destruct (in_table x'); set_solver).
  split; cbn [with_reader with_gate gate operations readers fin]; rewrite ?E1, ?E2, ?E3, ?E4, ?E5; try (by apply Hok).
  - rewrite Ea, (sum_map_replace _ _ _ _ _ Er), (ok_count s Hok). lia.
  - intros j. rewrite Et. destruct (decide (j = r)) as [->|N].
    + rewrite lookup_insert_eq. split.
      * destruct (in_table x') eqn:E; [by exists x'|set_solver].
      * intros (y & [= <-] & E). rewrite E. apply (ok_table s Hok). exists x. by auto.
    + rewrite lookup_insert_ne by done. rewrite <-(ok_table s Hok j). destruct (in_table x'); set_solver.
  - intros j y. destruct (decide (j = r)) as [->|N]; [rewrite lookup_insert_eq; by intros [= <-]|].
    rewrite lookup_insert_ne by done. apply (ok_tracked s Hok).
  - intros Hs. pose proof (ok_shut s Hok Hs). destruct (counted_range x), (counted_range x').
    assert (counted x = 0 \/ 0 < counted x) as [?|Hc] by lia; [lia|]. pose proof (reader_counts s r x Hok Er Hc). lia.
  - intros todo err E. destruct (ok_todo s Hok todo err E) as [H1 H2]. split; [|by auto].
    intros j Hj. destruct (decide (j = r)) as [->|N]; [rewrite lookup_insert_eq; by eexists|].
    rewrite lookup_insert_ne by done. by apply H1.
  - intros err E. pose proof (ok_waiting s Hok err E). set_solver.
Qed.

Lemma with_gate_id s : with_gate s (gate s) = s.
Proof. by destruct s. Qed.

Lemma reader_ok_gate s r x x' : gate_ok s -> readers s !! r = Some x -> counted x' = counted x -> in_table x = true -> in_table x' = true ->
  closeOnce x' <> Untracking false -> gate_ok (with_reader s r x').
Proof.
  intros Hok Er Hc H1 H2 Hx'. rewrite <-(with_gate_id s) at 1.
  apply (reader_ok s r x x' (gate s)); try done; [lia|by rewrite H2|lia].
Qed.

(** The fields of the invariant that a step of the goroutine of [Close], at [Hf], does not touch. *)
Ltac gate_fields Hok Hf :=
  split; cbn [with_reader with_fin with_gate publish_close count_down gate operations readers fin closing closed lockFile locked closeDone
    activeOps openPayloads]; try done; rewrite <-?Hf; try (by apply Hok); rewrite ?(ok_closing _ Hok), ?(ok_closed _ Hok), ?(ok_lock_file _ Hok),
    ?(ok_locked _ Hok), ?(ok_done _ Hok), ?Hf; try done.

Lemma gate_step_ok s s' : gate_ok s -> step s s' -> gate_ok s'.
Proof.
  intros Hok Hstep. destruct Hstep as [s id g Hid Hg|s id Hid|s id r g Hid Hr Hg|s r e Er|s r e err Er|s r e g tracked Er Hg|s r e tracked Er
    |s g todo Hg|s r todo err e Hf Er|s err Hf|s err g present Hf Ha Hg|s present err e g e' Hf Hg|s result Hf].
  - unfold admitOperation in Hg. destruct (closing (gate s)) eqn:Ec; [done|]. injection Hg as <-.
    rewrite (ok_closing s Hok) in Ec. destruct (fin s) eqn:Ef; try done.
    gate_fields Hok Ef.
    + rewrite (ok_count s Hok), size_union, size_singleton by set_solver. lia.
  - pose proof (operation_counts s id Hok Hid) as Hpos. pose proof (counts_not_shut s _ Hok eq_refl Hpos) as Hs.
    split; cbn [gate operations readers fin count_down closing closed lockFile locked closeDone activeOps openPayloads]; try (by apply Hok); [|congruence].
    assert (Hsub : {[id]} ⊆ operations s) by set_solver. pose proof (ok_count s Hok) as Hc.
    rewrite size_difference, size_singleton by done. pose proof (subseteq_size _ _ Hsub) as Hz. rewrite size_singleton in Hz. lia.
  - unfold trackOpenPayload in Hg. destruct (closing (gate s)) eqn:Ec; [done|]. injection Hg as <-.
    rewrite (ok_closing s Hok) in Ec. destruct (fin s) eqn:Ef; try done.
    gate_fields Hok Ef.
    + rewrite (ok_count s Hok), sum_map_insert by done. unfold counted at 2. simpl. lia.
    + intros j. destruct (decide (j = r)) as [->|N].
      * rewrite lookup_insert_eq. split; [intros _; by eexists|set_solver].
      * rewrite lookup_insert_ne by done. rewrite <-(ok_table s Hok j). set_solver.
    + intros j y. destruct (decide (j = r)) as [->|N]; [rewrite lookup_insert_eq; by intros [= <-]|].
      rewrite lookup_insert_ne by done. apply (ok_tracked s Hok).
  - apply (reader_ok_gate s r _ _ Hok Er); done.
  - apply (reader_ok_gate s r _ _ Hok Er); done.
  - assert (Hin : r ∈ openPayloads (gate s)) by (apply (ok_table s Hok); by eexists).
    unfold releaseOpenPayload in Hg. rewrite bool_decide_true in Hg by done. injection Hg as <- <-.
    apply (reader_ok s r _ _ _ Hok Er); try done. unfold counted. simpl. lia.
  - destruct tracked; [|by pose proof (ok_tracked s Hok r _ Er)].
    assert (Hin : r ∉ openPayloads (gate s)) by (rewrite (ok_table s Hok), Er; by intros (x & [= <-] & ?)).
    apply (reader_ok s r _ _ _ Hok Er); try done; unfold counted; simpl; [lia|set_solver].
  - unfold Close in Hg. destruct (closing (gate s)) eqn:Ec; [done|]. injection Hg as <- <-.
    rewrite (ok_closing s Hok) in Ec. destruct (fin s) eqn:Ef; try done.
    gate_fields Hok Ef.
    + intros todo err [= <- _]. split; [|set_solver]. intros r Hr. apply elem_of_elements, (ok_table s Hok) in Hr as (x & E & _). by eexists.
  - destruct (ok_todo s Hok _ _ Hf) as [H1 H2].
    gate_fields Hok Hf.
    + intros todo' err' [= <- _]. split; [set_solver|]. intros j Hj. pose proof (H2 j Hj) as [->|?]%elem_of_cons; [|done].
      apply (ok_table s Hok) in Hj as (x & E & Hx). rewrite Er in E. by injection E as <-.
  - destruct (ok_todo s Hok _ _ Hf) as [H1 H2].
    gate_fields Hok Hf.
    + intros err' _. apply set_eq. intros j. split; [intros Hj; by apply H2, elem_of_nil in Hj|set_solver].
  - unfold mark_closed in Hg. injection Hg as <- <-.
    gate_fields Hok Hf.
    by intros present err' [= <- _].
  - pose proof (ok_present s Hok _ _ Hf) as ->. unfold unlock_file in Hg. injection Hg as <- <-.
    assert (Ha : activeOps (gate s) = 0) by (apply (ok_shut s Hok); by rewrite Hf).
    gate_fields Hok Hf.
  - assert (Ha : activeOps (gate s) = 0) by (apply (ok_shut s Hok); by rewrite Hf).
    gate_fields Hok Hf.
Qed.

Lemma gate_reachable_ok s : reachable opened step s -> gate_ok s.
Proof. apply reachable_invariant; [intros ? ->; exact init_ok|exact gate_step_ok]. Qed.

(** ** A store that is shut *)

Lemma shut_quiet s : gate_ok s -> shut (fin s) = true ->
  operations s = ∅ /\ openPayloads (gate s) = ∅ /\ forall r x, readers s !! r = Some x -> closeOnce x = Closed.
Proof.
  intros Hok Hs. pose proof (ok_shut s Hok Hs) as Ha.
  assert (Hx : forall r x, readers s !! r = Some x -> closeOnce x = Closed).
  { intros r x Er. destruct (counted_range x) as [H1 H2]. assert (counted x <= 0).
    { destruct (Z.le_gt_cases (counted x) 0); [done|]. pose proof (reader_counts s r x Hok Er ltac:(lia)). lia. }
    pose proof (ok_tracked s Hok r x Er). unfold counted in *. destruct (closeOnce x) as [| | |[]|]; done || lia. }
  split; [|split; [|done]].
  - apply set_eq. intros id. split; [|set_solver]. intros Hid. pose proof (operation_counts s id Hok Hid). lia.
  - apply set_eq. intros r. split; [|set_solver]. rewrite (ok_table s Hok). intros (x & Er & Ht).
    specialize (Hx r x Er). unfold in_table in Ht. by rewrite Hx in Ht.
Qed.

(** ** Closing comes to an end *)

Definition fin_left (f : finalizer) : nat :=
  match f with
  | NotStarted => 0
  | ClosingReaders todo _ => 5 + length todo
  | WaitingOps _ => 4
  | Unlocking _ _ => 3
  | Publishing _ => 2
  | Finished => 1
  end.

(** The steps that are left, at most. *)
Definition steps_left (s : system) : nat := size (operations s) + Z.to_nat (sum_map once_left (readers s)) + fin_left (fin s).

Lemma once_left_range x : 0 <= once_left x <= 4.
Proof. unfold once_left. destruct (closeOnce x); lia. Qed.

Lemma reader_left (m : gmap nat payloadReader) r x x' : m !! r = Some x -> once_left x' < once_left x ->
  (Z.to_nat (sum_map once_left (<[r := x']> m)) < Z.to_nat (sum_map once_left m))%nat.
Proof.
  intros Er Hlt. rewrite (sum_map_replace _ _ _ _ _ Er).
  pose proof (sum_map_lookup_le once_left m r x (fun _ v _ => proj1 (once_left_range v)) Er). pose proof (once_left_range x'). lia.
Qed.

Lemma closing_step s s' : gate_ok s -> closing (gate s) = true -> step s s' -> (steps_left s' < steps_left s)%nat /\ closing (gate s') = true.
Proof.
  intros Hok Hc Hstep. pose proof (ok_closing s Hok) as Hst. rewrite Hc in Hst. unfold steps_left.
  destruct Hstep as [s id g Hid Hg|s id Hid|s id r g Hid Hr Hg|s r e Er|s r e err Er|s r e g tracked Er Hg|s r e tracked Er
    |s g todo Hg|s r todo err e Hf Er|s err Hf|s err g present Hf Ha Hg|s present err e g e' Hf Hg|s result Hf];
    cbn [with_reader with_fin with_gate gate operations readers fin] in *;
    try (rewrite Hf; cbn [fin_left length]; split; [lia|]); try done.
  - unfold admitOperation in Hg. by rewrite Hc in Hg.
  - split; [|done]. assert (Hsub : {[id]} ⊆ operations s) by set_solver.
    rewrite size_difference, size_singleton by done. pose proof (subseteq_size _ _ Hsub) as Hz. rewrite size_singleton in Hz. lia.
  - unfold trackOpenPayload in Hg. by rewrite Hc in Hg.
  - split; [|done]. pose proof (reader_left _ _ _ {| closeOnce := ClosingFile; readerErr := e |} Er eq_refl). lia.
  - split; [|done]. pose proof (reader_left _ _ _ {| closeOnce := Releasing; readerErr := err |} Er eq_refl). lia.
  - pose proof (reader_left _ _ _ {| closeOnce := Untracking tracked; readerErr := e |} Er eq_refl). split; [lia|].
    unfold releaseOpenPayload in Hg. destruct (bool_decide _); by injection Hg as <- _.
  - pose proof (reader_left _ _ _ {| closeOnce := Closed; readerErr := e |} Er eq_refl). split; [lia|]. by destruct tracked.
  - unfold Close in Hg. by rewrite Hc in Hg.
  - unfold mark_closed in Hg. by injection Hg as <- _.
  - unfold unlock_file in Hg. destruct present; by injection Hg as <- _.
Qed.

Lemma closing_terminates s : gate_ok s -> closing (gate s) = true -> sn step s.
Proof.
  intros Hok Hc. remember (steps_left s) as n eqn:En. revert s Hok Hc En. induction (lt_wf n) as [n _ IH].
  intros s Hok Hc ->. constructor. intros s' Hstep. destruct (closing_step s s' Hok Hc Hstep) as [Hlt Hc'].
  eapply IH; [exact Hlt|by eapply gate_step_ok|done|done].
Qed.

(** Until [Close] is done, something can move. *)
Lemma closing_progress s : gate_ok s -> closing (gate s) = true -> closeDone (gate s) = false -> red step s.
Proof.
  intros Hok Hc Hd. rewrite (ok_done s Hok) in Hd. rewrite (ok_closing s Hok) in Hc.
  destruct (decide (operations s = ∅)) as [Ho|(id & Hid)%set_choose_L]; [|eexists; by eapply (step_release s id)].
  assert (Hread : forall r x, readers s !! r = Some x -> closeOnce x <> Closed -> red step s).
  { intros r [o e] Er Hx. simpl in Hx. destruct o as [| | |tracked|]; [| | | |done].
    - eexists. by eapply step_begin.
    - eexists. by apply (step_close_file s r e []).
    - destruct (releaseOpenPayload (gate s) r) as [g t] eqn:Eg. eexists. by eapply step_release_reader.
    - eexists. by eapply step_untrack. }
  destruct (fin s) as [|[|r todo] err|err|present err|result|] eqn:Hf; try done.
  - eexists. by eapply step_readers_closed.
  - destruct (ok_todo s Hok _ _ Hf) as [H1 _]. destruct (H1 r) as [[o e] Er]; [by left|].
    destruct (decide (o = Closed)) as [->|N]; [eexists; by eapply step_next_reader|]. by eapply Hread.
  - destruct (decide (activeOps (gate s) = 0)) as [Ha|Ha].
    + destruct (mark_closed (gate s)) as [g present] eqn:Eg. eexists. by eapply step_ops_done.
    + rewrite (ok_count s Hok), Ho, size_empty in Ha.
      destruct (decide (map_Forall (fun _ x => closeOnce x = Closed) (readers s))) as [Hall|Hn].
      * rewrite sum_map_zero in Ha; [done|]. intros r x Er. unfold counted. by rewrite (Hall r x Er).
      * apply map_not_Forall in Hn as (r & x & Er & Hx); [|apply _]. by eapply Hread.
  - destruct (unlock_file (gate s) present []) as [g e'] eqn:Eg. eexists. by eapply step_unlock.
  - eexists. by eapply step_publish.
Qed.

(** ** Properties *)

(** C28: closing is safe.  In every reachable state, under any interleaving of operations, readers and calls of
    [Close], the wait group counts the admitted operations and the readers that are not closed, and every count
    down finds it positive; a store that is closing admits nothing; when the store is marked closed, the lock is
    released or [Close] reports its result, no operation runs and every reader is closed; [Close] reports a
    result only after the lock is released, and the result is published once. *)
Theorem upload_close_safe s : reachable opened step s ->
  activeOps (gate s) = Z.of_nat (size (operations s)) + sum_map counted (readers s) /\
  (forall id, id ∈ operations s -> 0 < activeOps (gate s)) /\
  (forall r e, readers s !! r = Some {| closeOnce := Untracking true; readerErr := e |} -> 0 < activeOps (gate s)) /\
  (closing (gate s) = true ->
     admitOperation (gate s) = None /\ (forall r, trackOpenPayload (gate s) r = None) /\ Close (gate s) = (gate s, None)) /\
  (closed (gate s) = true \/ locked (gate s) = false \/ close_result (gate s) <> None ->
     closing (gate s) = true /\ closed (gate s) = true /\ operations s = ∅ /\ openPayloads (gate s) = ∅ /\
     forall r x, readers s !! r = Some x -> closeOnce x = Closed) /\
  (close_result (gate s) <> None -> locked (gate s) = false) /\
  (forall result, fin s = Publishing result -> close_result (gate s) = None).
Proof.
  intros Hok%gate_reachable_ok. split; [by apply ok_count|]. split; [intros id; by apply operation_counts|].
  split; [intros r e Er; by eapply reader_counts|].
  split; [intros Hc; unfold admitOperation, trackOpenPayload, Close; by rewrite Hc|].
  unfold close_result. rewrite (ok_closing s Hok), (ok_closed s Hok), (ok_locked s Hok), (ok_done s Hok).
  split; [|split; [by destruct (fin s)|by intros result ->]].
  intros Hs. assert (Hshut : shut (fin s) = true) by (destruct (fin s); naive_solver).
  destruct (shut_quiet s Hok Hshut) as (H1 & H2 & H3). split; [by destruct (fin s)|]. done.
Qed.

(** C29: closing comes to an end.  Once [Close] was called every run of the store is finite, whatever the schedule
    is, and it can only stop where [Close] reports its result: it waits for the admitted operations and readers, and for
    nothing else. *)
Theorem upload_close_terminates s : reachable opened step s -> closing (gate s) = true ->
  sn step s /\ forall s', rtc step s s' -> nf step s' -> close_result (gate s') <> None.
Proof.
  intros Hok%gate_reachable_ok Hc. split; [by apply closing_terminates|].
  intros s' Hs. induction Hs as [s|s s1 s2 H1 _ IH]; intros Hn.
  - unfold close_result. destruct (closeDone (gate s)) eqn:Hd; [done|]. by destruct Hn; apply closing_progress.
  - apply IH; [by eapply gate_step_ok|by apply (closing_step s s1 Hok Hc H1)|done].
Qed.

(** A reader is open when [Close] is called. *)
Definition demo_admitted : system :=
  {| gate := {| closing := false; activeOps := 1; openPayloads := ∅; closed := false; lockFile := true; locked := true; closeDone := false; closeErr := [] |};
     operations := {[1%nat]}; readers := ∅; fin := NotStarted |}.
Definition demo_reading : system :=
  {| gate := {| closing := false; activeOps := 2; openPayloads := {[7%nat]}; closed := false; lockFile := true; locked := true; closeDone := false; closeErr := [] |};
     operations := {[1%nat]}; readers := {[7%nat := {| closeOnce := Fresh; readerErr := [] |}]}; fin := NotStarted |}.
Definition demo_closing : system :=
  {| gate := {| closing := true; activeOps := 2; openPayloads := {[7%nat]}; closed := false; lockFile := true; locked := true; closeDone := false; closeErr := [] |};
     operations := {[1%nat]}; readers := {[7%nat := {| closeOnce := Fresh; readerErr := [] |}]}; fin := ClosingReaders [7%nat] [] |}.

Lemma demo_closing_reachable : reachable opened step demo_closing.
Proof.
  apply (reach_step _ _ demo_reading); [|exact (step_Close demo_reading _ [7%nat] eq_refl)].
  apply (reach_step _ _ demo_admitted); [|exact (step_track demo_admitted 1%nat 7%nat _ ltac:(set_solver) eq_refl eq_refl)].
  apply (reach_step _ _ init); [by apply reach_init|exact (step_admit init 1%nat _ ltac:(set_solver) eq_refl)].
Qed.

Lemma upload_close_safe_witness : reachable opened step demo_closing /\ admitOperation (gate demo_closing) = None.
Proof.
  split; [exact demo_closing_reachable|].
  destruct (upload_close_safe demo_closing demo_closing_reachable) as (_ & _ & _ & H & _). by apply H.
Defined.

Lemma upload_close_terminates_witness : closing (gate demo_closing) = true /\ sn step demo_closing.
Proof. split; [reflexivity|]. apply (upload_close_terminates demo_closing demo_closing_reachable eq_refl). Defined.
End UploadGate.
