(* ===== verification/UploadProps.v ===== *)
(** * Upload sessions: properties

    The claims about internal/uploadsession, with runs that show that their hypotheses can hold, and a run
    that the store does not survive. *)

From Stdlib Require Import Ascii.
From S2P Require Import Prelude GoStrings GoPath GoFormat Sha256 FileMonad UploadTypes UploadStaging UploadFiles.
From S2P Require Import UploadNames UploadInvariant UploadRecovery UploadLoad UploadStore UploadAppend UploadSpec.
From S2P Require Import UploadAtomic UploadRoot UploadCreate UploadCodec UploadValid UploadRuns UploadReplies.
Import UploadTypes UploadStaging UploadFiles UploadNames UploadInvariant UploadRecovery UploadLoad UploadStore UploadAppend UploadSpec
  UploadAtomic UploadRoot UploadCreate UploadCodec UploadValid UploadRuns UploadReplies.

Module UploadProps.

(** ** A store with one session *)

Definition demo_hash (s : string) : string := digestBytes s.
Definition demo_bytes : string := "0123456789abcdef".
Definition demo_id : string := Sha256.EncodeToString demo_bytes.
Definition demo_identity : string := demo_hash "payload".
Definition demo_request : CreateRequest :=
  {| CreateOwner := "alice"; CreateClientRequestID := "req-1"; CreatePath := "/docs/a.txt"; CreateTotalBytes := 3;
     CreateCondition := {| ExpectedExists := false; DeleteIdentityToken := "" |} |}.
Definition demo_env (now : Z) : environment :=
  {| now_check := now; now_change := now; entropy := Some demo_bytes; pending_identity := "state" |}.
Definition demo_options : Options :=
  {| TTL := 3600; MaxChunkBytes := 100; MaxSessionsPerOwner := 4; MaxSessions := 8; MaxStagedBytesPerOwner := 1000;
     MaxStagedBytes := 2000; CloseTimeout := 1 |}.
Definition demo_empty : Store := empty_store demo_options None.

(** Its first record, as [Create] writes it. *)
Definition demo_record : diskState := initial_record demo_hash demo_request demo_id demo_identity 1000 3600.
Definition demo_text : string := Eval vm_compute in match encodeState demo_record with Ok text => text | Err _ => "" end.
Definition demo_session : loadedSession := {| state := demo_record; raw := demo_text; digest := digestBytes demo_text |}.
Definition demo_payload : file := {| f_bytes := ""; f_synced := 0; f_identity := demo_identity; f_kind := Regular0600 |}.
Definition demo_state_file : file :=
  {| f_bytes := demo_text; f_synced := String.length demo_text; f_identity := "state"; f_kind := Regular0600 |}.
Definition demo_dir : dir := <[stateFileName 1 := demo_state_file]> {[ payloadFileName := demo_payload ]}.
Definition demo_store : Store := publishSnapshot demo_empty demo_record.

Definition chunk_abc : op := OpAppendChunk 0 3 "c1" (digestBytes "abc") (Some ("abc", true)).

Lemma demo_encoded : encodeState demo_record = Ok demo_text.
Proof. vm_compute. reflexivity. Qed.
Lemma demo_valid : validateDiskState demo_record = true.
Proof. vm_compute. reflexivity. Qed.

Lemma demo_session_ok : session_ok demo_id 1 demo_session.
Proof.
  unfold session_ok, demo_session. cbn [state raw digest]. split; [exact demo_encoded|]. split; [reflexivity|].
  split; [exact demo_valid|]. unfold demo_record, initial_record. cbn [ID Revision]. split; reflexivity.
Qed.

Lemma demo_resting : Resting demo_id (demo_session, "") demo_dir.
Proof.
  apply (first_state_holds demo_id demo_session demo_payload demo_state_file demo_session_ok).
  - unfold demo_session, demo_record, initial_record. reflexivity.
  - unfold demo_session, demo_record, initial_record. reflexivity.
  - split; [split; [|split]|]; [reflexivity..|].
    unfold demo_session, demo_record, initial_record, demo_payload. cbn [state PayloadIdentity f_identity]. reflexivity.
  - split; [|split]; reflexivity.
Qed.

Lemma demo_durable : Durable demo_hash demo_id (demo_session, "") demo_dir.
Proof. apply Resting_durable, demo_resting. Qed.

Lemma demo_good : good demo_hash (demo_session, "").
Proof.
  split; cbn [fst snd]; unfold demo_session, demo_record, initial_record; cbn [state]; [exact demo_valid|reflexivity|..].
  - cbn [TotalBytes CreateTotalBytes demo_request]. unfold maxInt64. lia.
  - intros N. by destruct N.
  - cbn [TotalBytes DurableOffset CreateTotalBytes demo_request]. discriminate.
Qed.

Lemma demo_env_ok now : env_ok (demo_env now).
Proof. by intros bytes [= <-]. Qed.

(** The session after a chunk with all its bytes. *)
Definition chunk_request : AppendChunkRequest := append_request "alice" demo_id 0 3 "c1" (digestBytes "abc") (Some ("abc", true)).
Definition demo_next : loadedSession := Eval vm_compute in
  match appended demo_hash (demo_session, "") demo_store chunk_request ("abc", true) (demo_env 1001) with Ok c => c | Err _ => demo_session end.
Definition demo_ready : session := (demo_next, "abc").
Definition demo_ready_dir : dir := Eval vm_compute in
  io_dir (fst (appendReserved demo_hash demo_store demo_session chunk_request ("abc", true) (demo_env 1001) {| io_dir := demo_dir; io_script := [] |})).
Definition demo_ready_store : Store := publishSnapshot demo_store (state demo_next).

Lemma demo_appendable : appendable (state demo_session) chunk_request.
Proof.
  unfold demo_session, demo_record, initial_record. cbn [state]. split; [reflexivity|]. split; [reflexivity|].
  split; [reflexivity|]. cbn [TotalBytes DurableOffset CreateTotalBytes demo_request Length chunk_request append_request]. lia.
Qed.

Lemma demo_appended : appended demo_hash (demo_session, "") demo_store chunk_request ("abc", true) (demo_env 1001) = Ok demo_next.
Proof. vm_compute. reflexivity. Qed.

Lemma demo_step : step demo_hash (demo_session, "") demo_ready.
Proof.
  destruct demo_appendable as (H1 & H2 & H3 & H4).
  apply (step_append demo_hash demo_session "" chunk_request ("abc", true) (now_change (demo_env 1001)) (TTL (opts demo_store)) demo_next
    H1 H2 H3 H4 eq_refl). vm_compute. reflexivity.
Qed.

Lemma demo_ready_good : good demo_hash demo_ready.
Proof. eapply step_good; [exact demo_good|exact demo_step]. Qed.

Lemma demo_ready_resting : Resting demo_id demo_ready demo_ready_dir.
Proof.
  pose proof (reserved_spec demo_hash demo_store demo_id (demo_session, "") chunk_request ("abc", true) (demo_env 1001) Reliable
    (demo_env_ok 1001) demo_good demo_appendable {| io_dir := demo_dir; io_script := [] |} demo_resting eq_refl) as Ht.
  cbn [fst] in Ht.
  assert (Hr : io_dir (fst (appendReserved demo_hash demo_store demo_session chunk_request ("abc", true) (demo_env 1001)
      {| io_dir := demo_dir; io_script := [] |})) = demo_ready_dir /\
    option_map snd (snd (appendReserved demo_hash demo_store demo_session chunk_request ("abc", true) (demo_env 1001)
      {| io_dir := demo_dir; io_script := [] |})) = Some true) by (split; vm_compute; reflexivity).
  destruct Hr as [Hd Hr]. rewrite <-Hd.
  destruct (appendReserved _ _ _ _ _ _ _) as [w [[[st' result] committed]|]]; [|discriminate Hr]. injection Hr as ->.
  destruct Ht as (m' & _ & _ & _ & c & Hc & _ & Hres & _). rewrite demo_appended in Hc. injection Hc as <-. exact Hres.
Qed.

Lemma demo_ready_known now : now < 4601 -> known demo_ready_store (state demo_next) now.
Proof.
  intros Hn. split; [reflexivity|]. split.
  - assert (E : ExpiresAt (state demo_next) = 4601) by (vm_compute; reflexivity). rewrite E. unfold sessionExpired.
    destruct (Z.ltb_spec now 4601); [|lia]. apply andb_false_r.
  - eexists. split; [apply lookup_insert_eq|]. split; [|reflexivity]. vm_compute. discriminate.
Qed.

Section Claims.
Context `{StateCodec} (blake3 : string -> string).

(** C2: uploads survive crashes.  A session's directory is used by any sequence of operations (get, open,
    append, the commit transitions, cancel); each one runs with a memory of the store of its own, as after a
    restart, meets at most one failing file operation, and may be cut short at any file operation by a crash
    of the machine that keeps an arbitrary part of the bytes that were not synced.  Then the acknowledged
    replies are, in their order, sessions on one chain of atomic steps of the specification, whatever the
    errors and crashes between them did, and the directory still holds a session of that chain after the last
    of them (or one step further). *)
Theorem upload_linearizable id d replies d' (a : session) :
  runs blake3 id d replies d' -> good blake3 a -> Durable blake3 id a d ->
  exists b, explains blake3 a replies b /\ Durable blake3 id b d'.
Proof. apply runs_explained. Qed.

(** C3: recovery comes to an end, and with the right session.  From any directory that operations, failures and
    crashes can leave, a load with working file operations returns a session whose record the directory held, in a
    state file or in a pending one: the durable session, when no complete record of a later revision is there, or
    the one successor that was being written, a single step away.  Then nothing pending is left and the payload has
    exactly the bytes that the record promises. *)
Theorem upload_recovery_returns id (a : session) d script : Durable blake3 id a d -> script_ok Reliable script = true ->
  exists w b released, loadSession no_release id {| io_dir := d; io_script := script |} = (w, Some (Ok (fst b), released)) /\
    Resting id b (io_dir w) /\ recorded b d /\ (b = a /\ ~ superseded a d \/ step blake3 a b).
Proof. apply load_returns. Qed.

(** C21: the life of an upload.  Along any steps the identity, the owner, the target, the size and the condition
    of a session stay the same, its states follow the diagram, its payload only grows and never beyond its
    size, a terminal session stays as it is, and one that is ready, committing, committed or in conflict has all
    its bytes and their BLAKE3. *)
Theorem upload_lifecycle (a b : session) : good blake3 a -> rtc (step blake3) a b ->
  same_session (state (fst a)) (state (fst b)) /\
  rtc (fun st st' => follows st st' = true) (State (state (fst a))) (State (state (fst b))) /\
  (exists x, snd b = snd a +:+ x) /\ len (snd b) <= TotalBytes (state (fst b)) /\
  (isTerminalState (State (state (fst a))) = true -> b = a) /\
  (State (state (fst b)) = StateReady \/ State (state (fst b)) = StateCommitting \/ State (state (fst b)) = StateCommitted \/
   State (state (fst b)) = StateConflict ->
   len (snd b) = TotalBytes (state (fst b)) /\ ContentBLAKE3 (state (fst b)) = blake3 (snd b)).
Proof.
  intros Hg Hs. assert (Hb : good blake3 b) by by eapply steps_good.
  split; [by eapply steps_same|]. split; [by eapply steps_follow|]. split; [by eapply steps_payload|].
  split; [|split; [intros Ht; by eapply steps_terminal|by apply good_complete]].
  destruct (valid_split _ (good_valid _ _ Hb)) as (_ & V & _). unfold valid_size in V.
  rewrite !andb_true_iff, !negb_true_iff, !Z.ltb_ge in V. rewrite (good_length _ _ Hb). lia.
Qed.

(** C26: records stay well-formed.  Whatever a transition or an append builds from a stored record passes the
    validation of the store, when the checks before it passed and the clock has not gone back before the
    creation of the session: [writeNextState] does not fail on it. *)
Theorem upload_records_valid id k s now ttl : session_ok id k s -> 1 <= k < maxUint64 -> clock_ok (state s) now ttl ->
  (forall ch next, allowed ch -> ch (state s) = Ok (next, true) -> validateDiskState (link s (with_times next now ttl)) = true) /\
  (forall request payload, State (state s) = StateUploading -> Offset request = DurableOffset (state s) -> 0 < Length request ->
     Length request <= TotalBytes (state s) - DurableOffset (state s) -> TotalBytes (state s) <= maxInt64 ->
     validChunkID (ChunkID request) = true -> validLowerHex (ChunkSHA256 request) sha256HexLength = true ->
     validLowerHex (blake3 payload) blake3HexLength = true ->
     validateDiskState (link s (finished blake3 (advance (state s) request now ttl) payload)) = true).
Proof.
  intros Hs Hk Hc. split.
  - intros ch next Ha Hch. by apply (change_valid_record blake3 id k s ch).
  - intros request payload. intros. by apply (append_valid_record blake3 id k).
Qed.

(** An append is all or nothing.  Between the reservation of its bytes and their settlement, with a failing
    file operation and crashes, the flag that [AppendChunk] settles the reservation by says exactly whether the
    chunk is durable: with it the directory holds the session that the chunk leads to and the store shows it,
    without it the session of before; an error has a cause; and without one the chunk is accepted. *)
Theorem upload_append_atomic st id (b : session) request body env : env_ok env -> good blake3 b -> appendable (state (fst b)) request ->
  (forall m, triple m (Resting id b) (appendReserved blake3 st (fst b) request body env) (reserved_post blake3 id b st request body env m)
     (Reach blake3 id b)) /\
  (forall d script c, Resting id b d -> script_ok Reliable script = true -> bodyError request body = None -> entropy env <> None ->
     appended blake3 b st request body env = Ok c -> exists w,
     appendReserved blake3 st (fst b) request body env {| io_dir := d; io_script := script |} =
       (w, Some (publishSnapshot st (state c), Ok (publicSession (state c)), true)) /\
     Resting id (c, snd b +:+ fst body) (io_dir w)).
Proof.
  intros Henv Hg Ha. split; [intros m; by apply reserved_spec|]. intros d script c Hd Hs Hb He Hc.
  pose proof (reserved_spec blake3 st id b request body env Reliable Henv Hg Ha {| io_dir := d; io_script := script |} Hd Hs) as Ht.
  destruct (appendReserved blake3 st (fst b) request body env {| io_dir := d; io_script := script |}) as [w [[[st' result] committed]|]];
    [|by destruct Ht].
  destruct Ht as (m' & _ & _ & Hp). exists w. unfold reserved_post in Hp. destruct committed.
  - destruct Hp as (_ & c' & Hc' & _ & Hr & -> & [->|([? _] & _)]); [|done]. rewrite Hc in Hc'. by injection Hc' as <-.
  - destruct Hp as (_ & _ & _ & [[? _]|[?|[?|[e He']]]]); [done..|]. by rewrite Hc in He'.
Qed.

(** The reader of a ready session gives its bytes.  With the session of its owner known to the store and not
    expired, [OpenPayload] returns exactly the bytes that were appended, in their order, and the session, unless
    a file operation fails; the directory stays as it is. *)
Theorem upload_payload_bytes st id (b : session) now m : good blake3 b -> known st (state (fst b)) now ->
  State (state (fst b)) = StateReady \/ State (state (fst b)) = StateCommitting ->
  triple m (Resting id b) (OpenPayload blake3 st (Owner (state (fst b))) id now)
    (fun m' r d => fst r = st /\ match snd r with
       | Ok x => x = (snd b, publicSession (state (fst b))) /\ Resting id b d | Err _ => failed m m' end) (Rec id (fst b) (snd b) None).
Proof. apply OpenPayload_live. Qed.

(** A chunk may be sent again.  When the request is the one that was acknowledged last, [AppendChunk] verifies
    its body against the stored bytes and answers with the session as it is and the mark of a replay, unless a
    file operation fails; nothing changes in the store, its accounting or the directory. *)
Theorem upload_replay_idempotent st id (b : session) request body env m : good blake3 b ->
  isTerminalState (State (state (fst b))) = false -> known st (state (fst b)) (now_check env) -> replay_of b request body ->
  LastChunkBytes (state (fst b)) <= MaxChunkBytes (opts st) ->
  triple m (Resting id b) (AppendChunk blake3 st request env)
    (fun m' r d => fst r = st /\ match snd r with
       | Ok x => x = (publicSession (state (fst b)), true) /\ Resting id b d
       | Err _ => failed m m' end) (Rec id (fst b) (snd b) None).
Proof. apply AppendChunk_replay. Qed.

(** Creation.  [Create] makes a session in a directory of its own, whose first record and empty payload are
    durable, and shows it; or returns the session of the same client request, which it found in its index; or
    fails and leaves the store as it was; in each case, and after a crash, what the root held before is still there. *)
Theorem upload_create_exact m s request ids identity env r0 : env_ok env ->
  triple m (fun r => r = r0) (Create blake3 s request ids identity env) (created s request r0) (kept r0).
Proof. apply Create_triple. Qed.
End Claims.

(** The accounting of staged bytes is exact.  Along any order of the operations that the store runs, the
    counters are the sums of the durable and reserved bytes of the sessions, in total, by owner and by session,
    without overflow; the operations that give bytes back never fail; a reservation is within both limits and the
    capacity check, and one that is refused changes nothing. *)
Theorem upload_staging_exact l g s : limits_ok l -> staging_reach l g s ->
  exact g s /\ 0 <= stagedBytes s <= maxInt64 /\
  (forall op, enabled op g -> gives_back op = true -> exists g' s', staging_step op g s = Ok (g', s')) /\
  (forall check id a bytes s' r, g !! id = Some a -> a_reserved a = 0 ->
     reserveStagedBytes l check s id (a_owner a) (a_durable a) bytes = (s', r) ->
     match r with
     | Ok _ => exact (<[id := {| a_owner := a_owner a; a_durable := a_durable a; a_reserved := bytes |}]> g) s' /\
         stagedBytes s' <= max_staged l /\ count (stagedByOwner s') (a_owner a) <= max_staged_per_owner l /\
         from_option (fun c => c (physicalReservedBytes s') = true) True check
     | Err _ => exact g s'
     end).
Proof.
  intros Hl Hr. assert (Hx : exact g s) by by eapply staging_reach_exact. split; [done|]. split; [by eapply total_range|].
  split; [intros op; by apply gives_back_ok|]. intros check id a bytes s' r. by apply reserve_exact.
Qed.

(** The names of state files.  The names that the store writes parse back to their revision, a name that
    parses is the one the store writes, and a pending file is never taken for a state or a payload. *)
Theorem upload_state_names_roundtrip k bytes : revision_ok k -> String.length bytes = 16%nat ->
  parseStateFileName (stateFileName k) = Some k /\
  parsePendingStateName (pendingStateFileName k (Sha256.EncodeToString bytes)) = Some k /\
  (forall name j, parseStateFileName name = Some j -> name = stateFileName j /\ revision_ok j) /\
  (forall name j, parsePendingStateName name = Some j -> revision_ok j /\ parseStateFileName name = None /\ name <> payloadFileName).
Proof.
  intros Hk Hb. split; [by apply parse_state_name|]. split; [by apply parse_pending_name|].
  split; [intros name j; apply parse_state_name_inv|]. intros name j Hn.
  split; [by eapply parse_pending_ok|]. split; [by eapply pending_not_state|by eapply pending_not_payload].
Qed.


(** A run: the chunk is written up to a crash, written again, and the session committed. *)
Lemma upload_linearizable_witness : exists replies d',
  map Session.State replies = [StateReady; StateCommitting] /\
  runs demo_hash demo_id demo_dir replies d' /\ (exists b, explains demo_hash (demo_session, "") replies b /\ Durable demo_hash demo_id b d').
Proof.
  pose (script := repeat NoFault 9 ++ [CrashAfter 1]).
  pose (w1 := run_op demo_hash demo_store "alice" demo_id chunk_abc (demo_env 1001) {| io_dir := demo_dir; io_script := script |}).
  pose (w2 := run_op demo_hash demo_store "alice" demo_id chunk_abc (demo_env 1002) {| io_dir := io_dir (fst w1); io_script := [] |}).
  pose (w3 := run_op demo_hash demo_store "alice" demo_id OpBeginCommit (demo_env 1003) {| io_dir := io_dir (fst w2); io_script := [] |}).
  exists (acknowledged (snd w1) ++ acknowledged (snd w2) ++ acknowledged (snd w3) ++ []), (io_dir (fst w3)).
  assert (Hr : runs demo_hash demo_id demo_dir (acknowledged (snd w1) ++ acknowledged (snd w2) ++ acknowledged (snd w3) ++ []) (io_dir (fst w3))).
  { apply (runs_op demo_hash demo_id demo_dir demo_store "alice" chunk_abc (demo_env 1001) script (fst w1) (snd w1));
      [apply demo_env_ok|reflexivity|apply surjective_pairing|].
    apply (runs_op demo_hash demo_id _ demo_store "alice" chunk_abc (demo_env 1002) [] (fst w2) (snd w2));
      [apply demo_env_ok|reflexivity|apply surjective_pairing|].
    apply (runs_op demo_hash demo_id _ demo_store "alice" OpBeginCommit (demo_env 1003) [] (fst w3) (snd w3));
      [apply demo_env_ok|reflexivity|apply surjective_pairing|]. apply runs_nil. }
  split; [vm_compute; reflexivity|]. split; [exact Hr|]. exact (upload_linearizable demo_hash demo_id _ _ _ _ Hr demo_good demo_durable).
Defined.

(** The chunk is appended up to a crash after the sync of its pending state: the load publishes that state. *)
Definition crashed_append := run_op demo_hash demo_store "alice" demo_id chunk_abc (demo_env 1001)
  {| io_dir := demo_dir; io_script := repeat NoFault 14 ++ [CrashAfter 0] |}.

Lemma upload_recovery_returns_witness : exists w b released,
  existsb (fun '(name, _) => isPendingStateName name) (map_to_list (io_dir (fst crashed_append))) = true /\
  loadSession no_release demo_id {| io_dir := io_dir (fst crashed_append); io_script := [] |} = (w, Some (Ok (fst b), released)) /\
  Revision (state (fst b)) = 2 /\ recorded b (io_dir (fst crashed_append)) /\ Resting demo_id b (io_dir w).
Proof.
  assert (Ht : match crashed_append with
    | (w', Some a) => exists m', mode_le m' Failing /\ script_ok m' (io_script w') = true /\ does demo_hash demo_id (demo_session, "") (fun x => x) m' a (io_dir w')
    | (w', None) => Failing <> Reliable /\ Reach demo_hash demo_id (demo_session, "") (io_dir w') end).
  { exact (run_op_spec demo_hash demo_store "alice" demo_id chunk_abc (demo_env 1001) (demo_session, "") Failing (demo_env_ok 1001) demo_good
      {| io_dir := demo_dir; io_script := repeat NoFault 14 ++ [CrashAfter 0] |} demo_durable eq_refl). }
  assert (Hnone : snd crashed_append = None) by (vm_compute; reflexivity).
  assert (Hpend : existsb (fun '(name, _) => isPendingStateName name) (map_to_list (io_dir (fst crashed_append))) = true) by (vm_compute; reflexivity).
  assert (Hrev : match snd (loadSession no_release demo_id {| io_dir := io_dir (fst crashed_append); io_script := [] |}) with
    | Some (Ok latest, _) => Revision (state latest) | _ => 0 end = 2) by (vm_compute; reflexivity).
  destruct crashed_append as [wc rc]. cbn [fst snd] in *. rewrite Hnone in Ht. destruct Ht as (_ & a & _ & Hd).
  destruct (upload_recovery_returns demo_hash demo_id a (io_dir wc) [] Hd eq_refl) as (w & b & released & E & Hres & Hrec & _).
  exists w, b, released. rewrite E in Hrev. cbn [snd] in Hrev. split; [exact Hpend|]. split; [exact E|]. split; [exact Hrev|]. split; [exact Hrec|exact Hres].
Defined.

Lemma upload_lifecycle_witness : State (state (fst demo_ready)) = StateReady /\ same_session (state demo_session) (state (fst demo_ready)) /\
  len (snd demo_ready) <= TotalBytes (state (fst demo_ready)).
Proof.
  split; [vm_compute; reflexivity|].
  destruct (upload_lifecycle demo_hash (demo_session, "") demo_ready demo_good (rtc_once _ _ demo_step)) as (H1 & _ & _ & H4 & _).
  split; [exact H1|exact H4].
Defined.

Lemma upload_records_valid_witness :
  validateDiskState (link demo_session (finished demo_hash (advance (state demo_session) chunk_request 1001 3600) "abc")) = true.
Proof.
  destruct demo_appendable as (H1 & H2 & H3 & H4).
  apply (upload_records_valid demo_hash demo_id 1 demo_session 1001 3600 demo_session_ok); try assumption.
  - unfold maxUint64. lia.
  - unfold clock_ok, demo_session, demo_record, initial_record. cbn [state CreatedAt]. unfold zero_time. lia.
  - cbn [TotalBytes CreateTotalBytes demo_request demo_session demo_record initial_record state]. unfold maxInt64. lia.
  - reflexivity.
  - vm_compute. reflexivity.
  - vm_compute. reflexivity.
Defined.

Lemma upload_append_atomic_witness : exists w,
  appendReserved demo_hash demo_store demo_session chunk_request ("abc", true) (demo_env 1001) {| io_dir := demo_dir; io_script := [] |} =
    (w, Some (demo_ready_store, Ok (publicSession (state demo_next)), true)) /\ Resting demo_id demo_ready (io_dir w).
Proof.
  destruct (upload_append_atomic demo_hash demo_store demo_id (demo_session, "") chunk_request ("abc", true) (demo_env 1001)
    (demo_env_ok 1001) demo_good demo_appendable) as [_ Ha].
  apply (Ha demo_dir [] demo_next demo_resting); [reflexivity|reflexivity|discriminate|exact demo_appended].
Defined.

Lemma upload_payload_bytes_witness : Resting demo_id demo_ready demo_ready_dir /\ exists w,
  OpenPayload demo_hash demo_ready_store "alice" demo_id 1002 {| io_dir := demo_ready_dir; io_script := [] |} =
    (w, Some (demo_ready_store, Ok ("abc", publicSession (state demo_next)))).
Proof.
  split; [exact demo_ready_resting|].
  pose proof (upload_payload_bytes demo_hash demo_ready_store demo_id demo_ready 1002 Reliable demo_ready_good (demo_ready_known 1002 eq_refl)
    (or_introl eq_refl) {| io_dir := demo_ready_dir; io_script := [] |} demo_ready_resting eq_refl) as Ht.
  change (Owner (state (fst demo_ready))) with "alice" in Ht.
  destruct (OpenPayload _ _ _ _ _ _) as [w [[st [x|e]]|]]; exists w.
  - destruct Ht as (m' & _ & _ & Es & -> & _). cbn [fst] in Es. by rewrite Es.
  - by destruct Ht as (m' & _ & _ & _ & [? _]).
  - by destruct Ht.
Defined.

Lemma demo_replay_of : replay_of demo_ready chunk_request ("abc", true).
Proof.
  assert (E : LastChunkOffset (state demo_next) = 0 /\ LastChunkBytes (state demo_next) = 3) by (split; vm_compute; reflexivity).
  destruct E as [E1 E2]. unfold replay_of, demo_ready. cbn [fst]. rewrite E1, E2.
  split; [discriminate|]. split; [by unfold maxInt64|]. repeat split; vm_compute; reflexivity.
Qed.

Lemma upload_replay_idempotent_witness : exists w,
  AppendChunk demo_hash demo_ready_store chunk_request (demo_env 1002) {| io_dir := demo_ready_dir; io_script := [] |} =
    (w, Some (demo_ready_store, Ok (publicSession (state demo_next), true))).
Proof.
  assert (Hmax : LastChunkBytes (state (fst demo_ready)) <= MaxChunkBytes (opts demo_ready_store)).
  { apply Z.leb_le. vm_compute. reflexivity. }
  pose proof (upload_replay_idempotent demo_hash demo_ready_store demo_id demo_ready chunk_request ("abc", true) (demo_env 1002) Reliable
    demo_ready_good eq_refl (demo_ready_known 1002 eq_refl) demo_replay_of Hmax
    {| io_dir := demo_ready_dir; io_script := [] |} demo_ready_resting eq_refl) as Ht.
  destruct (AppendChunk _ _ _ _ _) as [w [[st [x|e]]|]]; exists w.
  - destruct Ht as (m' & _ & _ & Es & -> & _). cbn [fst] in Es. by rewrite Es.
  - by destruct Ht as (m' & _ & _ & _ & [? _]).
  - by destruct Ht.
Defined.

Lemma upload_create_exact_witness :
  (exists w st x, Create demo_hash demo_empty demo_request [Some demo_bytes] demo_identity (demo_env 1000) {| io_dir := ∅; io_script := [] |} =
     (w, Some (st, Ok (x, true)))) /\
  triple Failing (fun r => r = ∅) (Create demo_hash demo_empty demo_request [Some demo_bytes] demo_identity (demo_env 1000))
    (created demo_empty demo_request ∅) (kept ∅).
Proof.
  split; [eexists _, _, _; vm_compute; reflexivity|].
  exact (upload_create_exact demo_hash Failing demo_empty demo_request [Some demo_bytes] demo_identity (demo_env 1000) ∅ (demo_env_ok 1000)).
Defined.

Definition demo_limits : limits := {| max_staged := 100; max_staged_per_owner := 60 |}.

Lemma upload_staging_exact_witness : exists g s, staging_reach demo_limits g s /\ stagedBytes s = 40 /\ physicalReservedBytes s = 10 /\ exact g s.
Proof.
  pose proof (staging_next demo_limits (OpRestore "s1" "alice" 30) _ _ _ _ (staging_init demo_limits) eq_refl I eq_refl) as H1. vm_compute in H1.
  pose proof (staging_next demo_limits (OpReserve demo_limits "s1" 10) _ _ _ _ H1
    (ex_intro _ {| a_owner := "alice"; a_durable := 30; a_reserved := 0 |} (conj eq_refl eq_refl)) eq_refl eq_refl) as H2. vm_compute in H2.
  eexists _, _. split; [exact H2|]. split; [reflexivity|]. split; [reflexivity|].
  apply (upload_staging_exact demo_limits _ _); [|exact H2]. unfold limits_ok, maxInt64. simpl. lia.
Defined.

Lemma upload_state_names_roundtrip_witness :
  parseStateFileName (stateFileName 7) = Some 7 /\
  parsePendingStateName (pendingStateFileName 7 (Sha256.EncodeToString demo_bytes)) = Some 7.
Proof.
  destruct (upload_state_names_roundtrip 7 demo_bytes) as (H1 & H2 & _); [unfold revision_ok, maxUint64; lia|reflexivity|]. split; assumption.
Defined.

(** ** A process that is killed

    [recoverPendingStates] publishes a complete pending state by its name alone: it does not sync the file.  When
    the process of the append is killed after it wrote the pending state and before its sync, the load of the next
    process shows the chunk as durable; a crash of the machine after that load leaves a torn state file, and
    no load of the session succeeds again. *)
Definition killed_append := run_op demo_hash demo_store "alice" demo_id chunk_abc (demo_env 1001)
  {| io_dir := demo_dir; io_script := repeat NoFault 13 ++ [Kill] |}.
Definition restarted := loadSession no_release demo_id {| io_dir := io_dir (fst killed_append); io_script := [] |}.
Definition torn_dir : dir := settle 0 (io_dir (fst restarted)).

(** The append is killed after the write of its pending state; the next load
    succeeds with revision 2 and all the bytes durable; after a crash of the machine the load fails and leaves
    the directory as it is, so it fails for ever. *)
Example killed_append_loses_session :
  snd killed_append = None /\
  (exists latest released, snd restarted = Some (Ok latest, released) /\ Revision (state latest) = 2 /\ DurableOffset (state latest) = 3) /\
  exists e, loadSession no_release demo_id {| io_dir := torn_dir; io_script := [] |} = ({| io_dir := torn_dir; io_script := [] |}, Some (Err e, None)).
Proof.
  split; [vm_compute; reflexivity|]. split.
  - eexists _, _. split; [vm_compute; reflexivity|]. split; reflexivity.
  - eexists. vm_compute. reflexivity.
Qed.
End UploadProps.
